(* ===== verification/_CoqProject ===== *)
-Q . S2P
Prelude.v
MsgPack.v
HashCrc.v
HashBlock.v
HashMd5.v
HashSha1.v
HashSha256.v
HashDispatch.v
Leb128.v
DexCatch.v
CFloat.v
DexOpcodes.v
Smali.v
SmaliProofs.v
VmEnv.v
VmSwitch.v
VmArith.v
VmObject.v
VmInvoke.v
VmInterp.v
VmWorld.v
VmFrame.v
VmFootprint.v
VmIsa.v
VmRefine.v
VmRefineOps.v
VmMachine.v
VmThrow.v
VmMarshal.v
VmProgress.v
VmWitness.v
VmWorldRel.v
SlicerIsa.v
SlicerEncode.v
SlicerProofs.v
SlicerLayout.v
DexWriter.v
DexSmali.v
DexAsm.v
DexAsmProofs.v
DexSmaliProofs.v
DexTextProofs.v
DexUtf.v
DexGen.v
DexGenProofs.v
DexGenAsm.v
DexSeal.v
Memory.v
Arm64.v
Trampoline.v
TrampolineRun.v
TrampolineProofs.v
TrampolineCorrect.v
Thumb2.v
InterpSig.v
CodeProvider.v
CodeProviderProofs.v
CodeProviderRoundtrip.v
DexResolver.v
DexResolverProofs.v
ResolverBridge.v
ResolverBridgeProofs.v
ResolverBridgeRun.v
InterpTrace.v
InterpSession.v
InterpExec.v
InterpKeeps.v
InterpBalance.v
InterpScan.v
InterpLimit.v
InterpCall.v
InterpDemo.v
UnityPreprocess.v
AgentNet.v
HwHook.v
HwHookProofs.v
HwStep.v
Elf.v
AgentPattern.v
ReplText.v
