(* ===== verification/Prelude.v ===== *)
(** * ArtPI: a verification library for the core of the instrumentation engine

    ArtPI (src/README.md) is an instrumentation library for Android's ART.
    Its own algorithmic core, as opposed to its glue to ART, JNI, frida-gum,
    QBDI and QuickJS, is what this development models:

    - the Dalvik bytecode interpreter that re-executes methods one
      instruction at a time under a tracer (src/engine/nmmvm), and the
      try/catch tables and LEB128 numbers it reads;
    - the sandbox that runs methods on it (src/src/sandbox): code provider,
      resolver bridge, sessions and their tracer, executor;
    - the reader of DEX files behind both (src/src/dex/pi_dex_resolver) and
      the disassembler's walk (src/src/dex/pi_smali.cpp);
    - the DEX writer and generator (src/src/dex/pi_dex_writer, pi_dex_gen)
      and the parts of slicer they assemble with (src/external/dexter);
    - the trampolines that redirect compiled methods (src/engine/trampoline);
    - the MessagePack codec of the agent's protocol (src/engine/mpack) and
      the hash suite (src/engine/utils/pi_hash.cpp);
    - the manager of hardware breakpoints and watchpoints
      (src/engine/native/hooker/pi_hw_hook.cpp);
    - symbol look-up in ELF files (src/engine/utils/elf_image.cpp and
      src/cli/injector/elf_util.cpp);
    - the agent's server and the client's side of its protocol, the names
      and texts both work with (src/src/agent, src/cli/injector).

    How they interact.  The executor asks the code provider for a method's
    code, scans it, packs the arguments into registers and runs the
    interpreter.  The interpreter is a client of the tables (an instruction
    that throws asks Exception.cpp for a handler, which asks DexCatch.h; a
    switch asks Interp.cpp) and of the resolver bridge, which asks the DEX
    resolver for names and the class cache for classes; it is a server of
    the session's tracer, which every dispatch, invocation and delivery
    calls, and which may call the executor again to step into a method.
    Everything done to objects goes through JNI, which is not under src/ and
    is a parameter here, as is what is asked of ART objects.  The DEX writer
    collects symbolic instructions, from calls or from Smali text; the
    generator interns what they name and slicer's encoder assembles them.
    The REPL client rewrites a line, frames it as a MessagePack request and
    reads the answer; the agent's server takes requests of all its clients
    and answers them through a handler.

    ** Files and sources

    Prelude.v: machine integers ([U8] ... [S64]), C operators, bytes and
    words, list access by [Z], strings.  Memory.v: mapped bytes.

    MsgPack.v: module [Msgpack], engine/mpack/mpack.h.  [Value] is the
    struct, [writeX] the methods of Writer on a byte buffer, [readX] those
    of Reader in a monad that tells "return false" from an access outside
    the buffer.  [readValue] takes fuel; [parse_safe] shows that twice the
    input size plus one is always enough.

    HashCrc.v, HashBlock.v, HashMd5.v, HashSha1.v, HashSha256.v,
    HashDispatch.v: engine/utils/pi_hash.cpp.  Names are the source's, a
    module per namespace.  [Block.Streaming] is the interface between a
    digest's Update and its Final: Final is proved against it once, each
    digest discharges it.  A digest context's buffer starts with arbitrary
    bytes, as on the stack.

    Leb128.v, DexCatch.v, DexOpcodes.v: engine/nmmvm/vm/Leb128.h,
    DexCatch.h and .cpp, DexOpcodes.h.  A pointer is an offset into the
    bytes it may read; a read outside is [None].

    CFloat.v: [float] and [double] on register bits, by the Standard
    Library's [SpecFloat].

    Smali.v, SmaliProofs.v: src/dex/pi_smali.cpp from the code item on.

    The interpreter.  VmEnv.v: what it runs on - [JNI] (the platform, a
    class over an abstract world), [vmResolver], [vmGlobals], [vmCode],
    [VmTracer] of engine/nmmvm/include, the [frame] (the locals of
    [vmInterpret2] that live across instructions), the handler monad [M],
    the register macros and the throwing functions of Exception.cpp.
    VmSwitch.v: vm/Interp.cpp.  VmArith.v, VmObject.v, VmInvoke.v: the
    opcode macros, handlers and goto targets of vm/InterpC-portable.cpp.
    VmInterp.v: its opcode table, [FINISH] as [finish], [exceptionThrown],
    findCatchInMethod and dvmFindCatchBlock, [vmInterpret2], [vmInterpret].
    VmFrame.v, VmFootprint.v: a footprint logic for handlers and what it
    gives.  VmIsa.v: the register instructions as the Dalvik documentation
    has them, written independently of the interpreter; VmRefine.v,
    VmRefineOps.v: the handlers implement them; VmMachine.v: whole runs.
    VmProgress.v: when a handler is defined.  VmThrow.v: exception delivery.
    VmMarshal.v: argument passing and the tracer's policy.  VmWorldRel.v: a
    judgement for what a run does to the world, through each call it makes
    of its environment.
    VmWorld.v, VmWitness.v: a concrete platform, and the theorems applied to
    programs over it.

    The sandbox.  CodeProvider.v (with ...Proofs, ...Roundtrip):
    sandbox/pi_code_provider.cpp.  DexResolver.v (...Proofs):
    dex/pi_dex_resolver.  ResolverBridge.v (...Proofs, ...Run):
    sandbox/pi_resolver_bridge.cpp and the class cache of
    pi_interp_tracer.cpp.  InterpSig.v: scopes, signatures and boxing.  InterpTrace.v: the instruction log.  InterpSession.v: the
    session, its tracer and the thread's stacks.  InterpExec.v:
    pi_interp_executor.cpp.  InterpKeeps.v, InterpBalance.v: what a run
    leaves as it was.  InterpScan.v: the pre-scan.  InterpLimit.v: runs
    under a tracer that counts, and the instruction budget.  InterpCall.v:
    which methods are run (module [InterpErrors]), stepping in and its
    arguments.  InterpDemo.v: two concrete methods, one calling the other,
    and the theorems applied to their runs.

    The DEX side.  SlicerIsa.v, SlicerEncode.v, SlicerProofs.v
    (external/dexter/slicer: the instruction formats, BytecodeEncoder,
    DecodeBytecode), SlicerLayout.v.  DexWriter.v,
    DexSmali.v, DexAsm.v: class Writer of pi_dex_writer.cpp, its text
    assembler, AssembleInto; DexAsmProofs.v, DexSmaliProofs.v,
    DexTextProofs.v.  DexUtf.v, DexGen.v, DexSeal.v: the strings, the Builder
    and the sealing of pi_dex_gen.cpp; DexGenProofs.v, DexGenAsm.v.  DexSeal.v
    also compares the disassembler's widths with slicer's ([DexWidths]).

    Trampolines.  Arm64.v: process memory by address ([Ram]), the
    instructions of the templates, their encodings, and what a processor does
    with them.  Trampoline.v: the templates of arch/arm64.S,
    utils/memory.cpp's allocator, extras.h, the installer of
    trampoline_installer.cpp and arch/arm64.cpp.  TrampolineRun.v: runs of
    the templates; TrampolineProofs.v: what the installer writes, and where;
    TrampolineCorrect.v: an inline hook and the calls of the hooked code.
    Thumb2.v: the checks of arch/thumb2.cpp.

    Hardware hooks.  HwHook.v: engine/native/hooker/pi_hw_hook.cpp.
    [HwHookManager] is the class, [attach] ... [rearmMissingThreads] its
    methods; HandleException is [hit] up to the callback and [resume] after
    it, because it gives the lock away in between, and [step] takes either,
    an operation, or a change of the threads.  frida-gum's debug registers
    are the parameter [Gum].  HwHookProofs.v: the invariant of any sequence
    of steps.  HwStep.v: a hit and its step-over, under the laws
    [DebugRegisters], the instruction after a branch, and a processor that
    has the laws.

    Elf.v: modules [ElfUtil] (ElfSymbolOffset and the module list of
    cli/injector/elf_util.cpp) and [ElfImage] (engine/utils/elf_image.cpp)
    over the bytes of a file; the xz decoder and xDL are parameters.

    The agent and its client.  AgentNet.v: the server loop, framing and
    broadcast of agent/agent_net.cpp, and the client's reading of an answer
    (repl_client.cpp); what poll, accept, recv and send return is given to
    each [Turn], and the handler is a parameter.  AgentPattern.v:
    MatchWildcard and the patterns made of it.  UnityPreprocess.v:
    engine/utils/unity_preprocess.h.  ReplText.v: of repl_client.cpp the
    lists of names, multi-line input and what is completed.

    ** How the interpreter is modelled

    A handler is a function from the frame to its end: [Jump] is a goto out
    of it ([FINISH], [exceptionThrown], [returnFromMethod], [bail]), [Undef]
    is behaviour C does not define (a register outside the register file, a
    unit outside the code, a null pointer).  Registers are 64-bit integers
    with one flag each, as in the source, where a wide value takes one
    register cell.  Local references are deleted where the source deletes
    them.  [vmInterpret2] iterates [transfer] with fuel, one unit per
    dispatch or delivery; a method may loop for ever, so fuel is part of the
    statement ([vmInterpret_simulates]: as much as the abstract machine
    takes steps; [budget_ends]: twice the budget plus one).  Loops inside a
    handler (switch search, catch list, argument copy) have their own bound,
    proved sufficient where the loop is specified.

    Signed overflow in add, sub and mul handlers is modelled as wrap-around
    (the compilers' behaviour with -fwrapv; strictly it is undefined).  What
    an uninitialised local holds is the parameter [uninit].

    ** How a run of the sandbox is modelled

    The interpreter runs in InterpSession.v's [World]: the platform's state,
    the class cache, the bridges of the files seen, the thread's stacks, the
    log's context, the session of the frame being interpreted, and [fault],
    which remembers the first undefined behaviour or want of fuel, so that a
    run always returns a result and a world.  The platform's calls are lifted
    to that world ([lift_jni]); the resolver the interpreter gets sends each
    call to the bridge on top of the stack of active ones.  The recursion of
    stepping in is [runMethodInternal levels]; the executor refuses calls 64
    deep, so 65 levels are enough.  The pre-scan has its own fuel, one unit
    per unit of code ([prescan_spec]).

    ** What the theorems show

    - Interpreter: every register instruction has exactly its documented
      effect (VmRefineOps.v), lifted to runs (VmMachine.v); every handler of
      all 256 opcodes, whatever the platform answers, changes at most the
      destination register and leaves by the jumps its instruction has
      (VmFootprint.v); a handler whose instruction lies in the code and
      names registers of the frame is defined (VmProgress.v); exceptions
      reach the first matching clause (VmThrow.v); arguments are passed at
      their types, the tracer's policy is obeyed (VmMarshal.v); switches go
      to the selected case (VmSwitch.v).
    - Sandbox: a budget ends every run, methods stepped into included
      (InterpLimit.v); runs are balanced on every path (InterpBalance.v);
      exactly the runnable methods are run, and the pre-scan accepts exactly
      the code that is tiled by known instructions and payloads
      (InterpCall.v, InterpScan.v); what may be stepped into, and that the
      callee's registers receive the caller's arguments (InterpCall.v); code
      items decode to what they were laid out from (CodeProviderRoundtrip.v);
      the resolver names what the file names, the bridge remembers it and
      leaks no reference (DexResolverProofs.v, ResolverBridgeRun.v);
      signatures and boxing (InterpSig.v).
    - Tables: the binary search equals the linear one, the iterator yields
      the encoded clauses (DexCatch.v); LEB128 reads what it should and
      reads back what it writes (Leb128.v); goto table and enumeration agree
      (DexOpcodes.v).
    - Disassembler: the walk stops and tiles the code, the window is a
      window around the highlighted line, CompactDex items decode, the
      access flags are readable back (SmaliProofs.v).
    - DEX writer and generator: text and calls append only well-formed
      instructions, what is assembled reads back as what was written, at its
      offsets and with its branches, in the builder's context with one index
      per reference for ever; strings are stored so that they read back and
      sort by UTF-16 units; the sealed image verifies.
    - Trampolines: an inline hook sends the calls of its method, every time,
      to the bridge with the registers saved, the backup does what the
      instructions written over did, executable memory is never given twice
      (TrampolineCorrect.v); the Thumb-2 backup takes whole instructions and
      has the space for them (Thumb2.v).
    - MessagePack: round trip, totality, truncation is detected, and the
      binary values the reader refuses (MsgPack.v).
    - Hardware hooks: no comparator is held twice and none that is held is
      free, whatever happens in whatever order (HwHookProofs.v); a hit hook
      is stepped over and comes back, the debug registers as before, and the
      address it is stepped over to is one that follows (HwStep.v).
    - ELF: the searches stay inside the file and find the symbol that is
      there (Elf.v).
    - Protocol: a client's requests are answered, all and in order, however
      its bytes arrive; the client reads the answer that was sent
      (AgentNet.v).
    - Texts: wildcards match as globs do (AgentPattern.v); just the
      hyphenated chains of code are rewritten (UnityPreprocess.v); lists of
      names are read back, snippets are complete when they are, a completion
      replaces the name at the cursor (ReplText.v).
    - Hashes: each equals its standard's definition in any chunking; the
      table-driven CRCs equal the bit-serial ones and detect every changed
      byte; Adler-32 does not overflow (Hash*.v).

    ** Not modelled

    JNI forwarding (JNIWrapper.c), the exception classes' cache
    (GlobalCache.cpp), log texts and [dvmDumpRegs]: no logic.  In the
    sandbox: the call front end (collectCallFrameArgs, invokeTrace), which
    reads ART call frames; the texts of events (formatArgs, formatReg); the
    structs that fake a managed-stack boundary; initFromMethod and the other
    reads of ART objects and the native bridge ([ArtRuntime]); writes of a
    callback through InsnEvent::regs; locks, threads and getInterpCallStack.
    In the generator: sorting and layout (ir::DexFile::Normalize,
    dex::Writer); in slicer, debug information and try blocks; the DEX
    loader.  In the disassembler, the search for symbols.
    Of the trampolines, the native bridge, the templates of Thumb-2, arm32
    and x86, cache maintenance and the retry after SIGSEGV.  Of the hardware
    hooks, the count of comparators and the list of threads (ptrace, /proc).
    Of the agent (src/src/agent) the JavaScript bindings, of the injector
    (src/cli) ptrace, the command line, the terminal and the candidates of a
    completion; opening and mapping ELF files.  Pine, the ART accessors but
    those the trampolines use, the gum and QBDI engines and the unified
    tracer: glue to a process this library cannot see.  Vendored code
    (QuickJS, other parts of external/).

    ** Open ends

    What could still be modelled with the same means: the texts of events
    and registers (formatArgs, formatReg), the sorting of the generator's
    pools, the templates of Thumb-2 and the candidates of a completion. *)
From stdpp Require Export base list numbers option.
From Stdlib Require Export ZArith Lia.
From Stdlib Require Import Btauto.
From Stdlib Require Ascii String.
Export String.StringSyntax.
Delimit Scope string_scope with string.

Declare Scope cint_scope.
Delimit Scope cint_scope with cint.
#[export] Set Default Goal Selector "!".
#[global] Open Scope Z_scope.

(** ** Machine integers

    A value of a [w]-bit unsigned C type is a [Z] in [0, 2^w); of a signed
    one a [Z] in [-2^(w-1), 2^(w-1)).  [wrap] and [swrap] are the C
    conversions to them. *)
Definition wrap (w z : Z) : Z := z mod 2 ^ w.
Definition swrap (w z : Z) : Z := (z + 2 ^ (w - 1)) mod 2 ^ w - 2 ^ (w - 1).
#[global] Arguments wrap : simpl never.
#[global] Arguments swrap : simpl never.
#[global] Arguments Nat.modulo : simpl never.

Abbreviation U8 := (wrap 8).
Abbreviation U16 := (wrap 16).
Abbreviation U32 := (wrap 32).
Abbreviation U64 := (wrap 64).
Abbreviation S8 := (swrap 8).
Abbreviation S16 := (swrap 16).
Abbreviation S32 := (swrap 32).
Abbreviation S64 := (swrap 64).

Infix "&" := Z.land (at level 40, left associativity) : cint_scope.
Infix ".|" := Z.lor (at level 50, left associativity) : cint_scope.
Infix ".^" := Z.lxor (at level 50, left associativity) : cint_scope.
Infix "<<" := Z.shiftl (at level 45, left associativity) : cint_scope.
Infix ">>" := Z.shiftr (at level 45, left associativity) : cint_scope.

(** [in_u w z]: [z] is a value of the unsigned type of width [w]. *)
Definition in_u (w z : Z) : Prop := 0 <= z < 2 ^ w.
Definition in_s (w z : Z) : Prop := - 2 ^ (w - 1) <= z < 2 ^ (w - 1).
Abbreviation bytes_ok := (Forall (in_u 8)).

#[export] Instance in_u_dec w z : Decision (in_u w z).
Proof. unfold in_u. apply _. Defined.
#[export] Instance in_s_dec w z : Decision (in_s w z).
Proof. unfold in_s. apply _. Defined.

Create HintDb cint discriminated.

Lemma pow2_pos w : 0 <= w -> 0 < 2 ^ w.
Proof. intros. by apply Z.pow_pos_nonneg. Qed.

Lemma wrap_in_u w z : 0 <= w -> in_u w (wrap w z).
Proof. intros Hw. apply Z.mod_pos_bound, pow2_pos, Hw. Qed.

Lemma half_pow2 w : 0 < w -> 2 ^ w = 2 * 2 ^ (w - 1).
Proof. intros. rewrite <- Z.pow_succ_r by lia. f_equal. lia. Qed.

Lemma swrap_in_s w z : 0 < w -> in_s w (swrap w z).
Proof.
  intros Hw. unfold swrap, in_s. pose proof (half_pow2 w Hw).
  pose proof (Z.mod_pos_bound (z + 2 ^ (w - 1)) (2 ^ w) (pow2_pos w ltac:(lia))).
  lia.
Qed.

Lemma wrap_small w z : in_u w z -> wrap w z = z.
Proof. intros H. by apply Z.mod_small. Qed.

Lemma wrap_wrap w z : wrap w (wrap w z) = wrap w z.
Proof. apply Zmod_mod. Qed.

(** Narrowing twice is narrowing to the smaller width. *)
Lemma wrap_wrap_le v w z : 0 <= v <= w -> wrap v (wrap w z) = wrap v z.
Proof.
  intros Hvw. unfold wrap. apply Z.mod_mod_divide.
  exists (2 ^ (w - v)). rewrite <- Z.pow_add_r by lia. f_equal. lia.
Qed.

Lemma swrap_small w z : 0 < w -> in_s w z -> swrap w z = z.
Proof.
  unfold in_s, swrap. intros Hw H. pose proof (half_pow2 w Hw).
  rewrite Z.mod_small; lia.
Qed.

(** [swrap] only depends on the residue, and is the unique signed
    representative of it. *)
Lemma swrap_wrap w z : swrap w (wrap w z) = swrap w z.
Proof. unfold swrap, wrap. f_equal. apply Zplus_mod_idemp_l. Qed.

Lemma wrap_swrap w z : wrap w (swrap w z) = wrap w z.
Proof.
  unfold swrap, wrap. rewrite Zminus_mod_idemp_l. f_equal. lia.
Qed.

Lemma swrap_cong w a b : wrap w a = wrap w b -> swrap w a = swrap w b.
Proof. intros H. by rewrite <- (swrap_wrap w a), H, swrap_wrap. Qed.

Lemma wrap_add_l w a b : wrap w (wrap w a + b) = wrap w (a + b).
Proof. apply Zplus_mod_idemp_l. Qed.
Lemma wrap_add_r w a b : wrap w (a + wrap w b) = wrap w (a + b).
Proof. apply Zplus_mod_idemp_r. Qed.
Lemma wrap_sub_l w a b : wrap w (wrap w a - b) = wrap w (a - b).
Proof. apply Zminus_mod_idemp_l. Qed.
Lemma wrap_sub_r w a b : wrap w (a - wrap w b) = wrap w (a - b).
Proof. apply Zminus_mod_idemp_r. Qed.
Lemma wrap_mul_l w a b : wrap w (wrap w a * b) = wrap w (a * b).
Proof. apply Zmult_mod_idemp_l. Qed.
Lemma wrap_mul_r w a b : wrap w (a * wrap w b) = wrap w (a * b).
Proof. apply Zmult_mod_idemp_r. Qed.

Lemma in_u_mono v w z : v <= w -> in_u v z -> in_u w z.
Proof.
  unfold in_u. intros Hvw [? ?]. split; [done|].
  eapply Z.lt_le_trans; [done|]. apply Z.pow_le_mono_r; lia.
Qed.

#[export] Hint Resolve wrap_in_u swrap_in_s : cint.

(** ** Bits *)

Lemma wrap_spec w z i : 0 <= w -> Z.testbit (wrap w z) i = (i <? w) && Z.testbit z i.
Proof.
  intros Hw. unfold wrap. destruct (Z.ltb_spec i w).
  - simpl. destruct (decide (0 <= i)).
    + apply Z.mod_pow2_bits_low; lia.
    + rewrite !Z.testbit_neg_r by lia. done.
  - simpl. apply Z.mod_pow2_bits_high; lia.
Qed.

Lemma in_u_testbit w z i : 0 <= w -> in_u w z -> w <= i -> Z.testbit z i = false.
Proof.
  intros Hw Hz Hi. rewrite <- (wrap_small w z Hz), wrap_spec by done.
  destruct (Z.ltb_spec i w); [lia|done].
Qed.

(** A nonnegative number whose high bits vanish is in range. *)
Lemma testbit_in_u w z :
  0 <= w -> (forall i, w <= i -> Z.testbit z i = false) -> in_u w z.
Proof.
  intros Hw H. replace z with (wrap w z) by
    (apply Z.bits_inj'; intros i ?; rewrite wrap_spec by done;
     destruct (Z.ltb_spec i w); [done|by rewrite H]).
  by apply wrap_in_u.
Qed.

Lemma in_u_land w a b : 0 <= w -> in_u w a -> in_u w (Z.land a b).
Proof.
  intros Hw Ha. apply testbit_in_u; [done|]. intros i Hi.
  by rewrite Z.land_spec, (in_u_testbit w a i).
Qed.
Lemma in_u_land_r w a b : 0 <= w -> in_u w b -> in_u w (Z.land a b).
Proof. intros. rewrite Z.land_comm. by apply in_u_land. Qed.
Lemma in_u_lor w a b : 0 <= w -> in_u w a -> in_u w b -> in_u w (Z.lor a b).
Proof.
  intros Hw Ha Hb. apply testbit_in_u; [done|]. intros i Hi.
  by rewrite Z.lor_spec, (in_u_testbit w a i), (in_u_testbit w b i).
Qed.
Lemma in_u_lxor w a b : 0 <= w -> in_u w a -> in_u w b -> in_u w (Z.lxor a b).
Proof.
  intros Hw Ha Hb. apply testbit_in_u; [done|]. intros i Hi.
  by rewrite Z.lxor_spec, (in_u_testbit w a i), (in_u_testbit w b i).
Qed.
Lemma in_u_shiftr w a n : 0 <= w -> 0 <= n -> in_u w a -> in_u w (Z.shiftr a n).
Proof.
  intros Hw Hn Ha. apply testbit_in_u; [done|]. intros i Hi.
  rewrite Z.shiftr_spec, (in_u_testbit w a); done || lia.
Qed.
Lemma in_u_0 w : 0 <= w -> in_u w 0.
Proof. intros. split; [lia|by apply pow2_pos]. Qed.

#[export] Hint Resolve in_u_land in_u_lor in_u_lxor in_u_shiftr in_u_0 : cint.

(** Masking with [2^n - 1] is taking the residue. *)
Lemma land_mask n z : 0 <= n -> Z.land z (2 ^ n - 1) = wrap n z.
Proof.
  intros. unfold wrap. rewrite <- Z.land_ones by done. f_equal.
  rewrite Z.ones_equiv. lia.
Qed.

(** An [or] of disjoint fields is a sum. *)
Lemma lor_disjoint_add a b : Z.land a b = 0 -> Z.lor a b = a + b.
Proof. intros H. rewrite <- Z.lxor_lor by done. symmetry. by apply Z.add_nocarry_lxor. Qed.

Lemma lor_shiftl_add n hi lo :
  0 <= n -> in_u n lo -> Z.lor (Z.shiftl hi n) lo = hi * 2 ^ n + lo.
Proof.
  intros Hn Hlo. rewrite <- Z.shiftl_mul_pow2 by done. apply lor_disjoint_add.
  apply Z.bits_inj'. intros i Hi. rewrite Z.land_spec, Z.bits_0.
  destruct (Z.ltb_spec i n).
  - by rewrite Z.shiftl_spec_low by done.
  - rewrite (in_u_testbit n lo i) by done. apply andb_false_r.
Qed.

(** Signed narrowing commutes with a left shift, so a signed upper part can
    be or-ed in before or after the narrowing. *)
Lemma swrap_shiftl w k x : 0 < w -> 0 <= k -> swrap (w + k) (Z.shiftl x k) = Z.shiftl (swrap w x) k.
Proof.
  intros Hw Hk. rewrite !Z.shiftl_mul_pow2 by done. unfold swrap.
  replace (2 ^ (w + k - 1)) with (2 ^ (w - 1) * 2 ^ k) by (rewrite <- Z.pow_add_r by lia; f_equal; lia).
  rewrite Z.pow_add_r, <- Z.mul_add_distr_r, Z.mul_mod_distr_r by lia. lia.
Qed.

Lemma lor_swrap_shiftl w k lo hi : 0 < w -> 0 <= k -> in_u k lo ->
  Z.lor lo (swrap (w + k) (Z.shiftl hi k)) = swrap (w + k) (Z.lor lo (Z.shiftl hi k)).
Proof.
  intros Hw Hk Hlo. rewrite swrap_shiftl, !(Z.lor_comm lo), !lor_shiftl_add by done.
  assert (Hs : in_s w (swrap w hi)) by (by apply swrap_in_s).
  rewrite (swrap_cong (w + k) _ (swrap w hi * 2 ^ k + lo)).
  - symmetry. apply swrap_small; [lia|]. unfold in_s, in_u in *.
    assert (E : 2 ^ (w + k - 1) = 2 ^ (w - 1) * 2 ^ k) by (rewrite <- Z.pow_add_r by lia; f_equal; lia).
    rewrite E. pose proof (pow2_pos k Hk). nia.
  - unfold wrap. rewrite <- (Zplus_mod_idemp_l (_ * _)), <- (Zplus_mod_idemp_l (swrap w hi * _)).
    do 2 f_equal. rewrite Z.pow_add_r, !Z.mul_mod_distr_r by (lia || apply Z.pow_nonzero; lia). f_equal.
    symmetry. apply wrap_swrap.
Qed.

(** [zbits] proves an equation between bitwise expressions bit by bit. *)
Create Rewrite HintDb zbits.
#[export] Hint Rewrite Z.lor_spec Z.land_spec Z.lxor_spec Z.bits_0 : zbits.
#[export] Hint Rewrite Z.shiftl_spec Z.shiftr_spec wrap_spec Z.lnot_spec
  Z.testbit_neg_r using lia : zbits.

Ltac zbits_step :=
  autorewrite with zbits;
  match goal with
  | |- context [ (?i <? ?w) ] => destruct (Z.ltb_spec i w); simpl
  | H : in_u ?w ?z |- context [ Z.testbit ?z ?i ] =>
      rewrite (in_u_testbit w z i) by (done || lia)
  end.
Ltac zbits :=
  apply Z.bits_inj'; intros ? ?; repeat zbits_step; autorewrite with zbits;
  try done; try btauto.

(** ** Indexing by machine integers

    C indexes arrays by integers; [l !!z i] is [None] out of bounds (where
    the C access is undefined) and [zset l i x] is the store. *)
Definition zlookup {A} (l : list A) (i : Z) : option A :=
  if 0 <=? i then l !! Z.to_nat i else None.
Definition zset {A} (l : list A) (i : Z) (x : A) : option (list A) :=
  if (0 <=? i) && (i <? Z.of_nat (length l)) then Some (<[Z.to_nat i := x]> l) else None.
Infix "!!z" := zlookup (at level 20).

Lemma zlookup_lt_Some {A} (l : list A) i x :
  l !!z i = Some x -> 0 <= i < Z.of_nat (length l).
Proof.
  unfold zlookup. destruct (Z.leb_spec 0 i); [|done].
  intros ?%lookup_lt_Some. lia.
Qed.

Lemma zlookup_is_Some {A} (l : list A) i :
  0 <= i < Z.of_nat (length l) -> exists x, l !!z i = Some x.
Proof.
  intros. unfold zlookup. destruct (Z.leb_spec 0 i); [|lia].
  apply lookup_lt_is_Some_2. lia.
Qed.

Lemma zlookup_Forall {A} (P : A -> Prop) (l : list A) i x :
  Forall P l -> l !!z i = Some x -> P x.
Proof.
  unfold zlookup. case_match; [|done]. intros. by eapply Forall_lookup_1.
Qed.

Lemma zset_Some {A} (l : list A) i x :
  0 <= i < Z.of_nat (length l) -> zset l i x = Some (<[Z.to_nat i := x]> l).
Proof.
  intros. unfold zset. destruct (Z.leb_spec 0 i), (Z.ltb_spec i (Z.of_nat (length l))); simpl; lia || done.
Qed.

Lemma zset_inv {A} (l l' : list A) i x :
  zset l i x = Some l' -> 0 <= i < Z.of_nat (length l) /\ l' = <[Z.to_nat i := x]> l.
Proof.
  unfold zset. destruct (Z.leb_spec 0 i), (Z.ltb_spec i (Z.of_nat (length l))); simpl; intros; simplify_eq; done || lia.
Qed.

Lemma zset_length {A} (l l' : list A) i x : zset l i x = Some l' -> length l' = length l.
Proof. intros [? ->]%zset_inv. apply length_insert. Qed.

Lemma zset_lookup_eq {A} (l l' : list A) i x : zset l i x = Some l' -> l' !!z i = Some x.
Proof.
  intros [? ->]%zset_inv. unfold zlookup. destruct (Z.leb_spec 0 i); [|lia].
  apply list_lookup_insert_eq. lia.
Qed.

Lemma zset_lookup_ne {A} (l l' : list A) i j x :
  zset l i x = Some l' -> i <> j -> l' !!z j = l !!z j.
Proof.
  intros [? ->]%zset_inv ?. unfold zlookup. destruct (Z.leb_spec 0 j); [|done].
  apply list_lookup_insert_ne. lia.
Qed.

Lemma zset_Forall {A} (P : A -> Prop) (l l' : list A) i x :
  Forall P l -> P x -> zset l i x = Some l' -> Forall P l'.
Proof. intros ?? [? ->]%zset_inv. by apply Forall_insert. Qed.

(** ** Bytes of an integer *)

(** The [n] low bytes of [v], least (most) significant first. *)
Fixpoint le_bytes (n : nat) (v : Z) : list Z :=
  match n with O => [] | S k => U8 v :: le_bytes k (Z.shiftr v 8) end.
Fixpoint be_bytes (n : nat) (v : Z) : list Z :=
  match n with O => [] | S k => U8 (Z.shiftr v (8 * Z.of_nat k)) :: be_bytes k v end.
(** Reading them back. *)
Definition be_combine (acc : Z) (l : list Z) : Z :=
  fold_left (fun a b => Z.lor (Z.shiftl a 8) b) l acc.
Fixpoint le_combine (l : list Z) : Z :=
  match l with [] => 0 | b :: t => Z.lor b (Z.shiftl (le_combine t) 8) end.

Lemma length_be_bytes n v : length (be_bytes n v) = n.
Proof. induction n; simpl; congruence. Qed.
Lemma length_le_bytes n v : length (le_bytes n v) = n.
Proof. revert v. induction n; intros; simpl; [done|]. f_equal. apply IHn. Qed.
Lemma be_bytes_ok n v : bytes_ok (be_bytes n v).
Proof. induction n; simpl; constructor; [apply wrap_in_u; lia|done]. Qed.
Lemma le_bytes_ok n v : bytes_ok (le_bytes n v).
Proof. revert v. induction n; intros; simpl; constructor; [apply wrap_in_u; lia|auto]. Qed.

Lemma be_combine_bytes n v acc :
  be_combine acc (be_bytes n v) =
  Z.lor (Z.shiftl acc (8 * Z.of_nat n)) (wrap (8 * Z.of_nat n) v).
Proof.
  revert acc. induction n as [|n IH]; intros acc.
  - simpl. unfold be_combine. simpl. rewrite Z.shiftl_0_r. unfold wrap.
    by rewrite Z.mod_1_r, Z.lor_0_r.
  - simpl be_bytes. unfold be_combine in *. simpl. rewrite IH.
    apply Z.bits_inj'. intros i Hi.
    rewrite !Z.lor_spec, !Z.shiftl_spec, !wrap_spec, Z.lor_spec by lia.
    destruct (Z.ltb_spec i (8 * Z.of_nat n)).
    + rewrite !(Z.testbit_neg_r _ (i - _)) by lia.
      destruct (Z.ltb_spec i (8 * Z.of_nat (S n))); [done|lia].
    + rewrite Z.shiftl_spec, wrap_spec by lia. rewrite Z.shiftr_spec by lia.
      replace (i - 8 * Z.of_nat n - 8) with (i - 8 * Z.of_nat (S n)) by lia.
      replace (i - 8 * Z.of_nat n + 8 * Z.of_nat n) with i by lia.
      destruct (Z.ltb_spec (i - 8 * Z.of_nat n) 8), (Z.ltb_spec i (8 * Z.of_nat (S n)));
        simpl; try lia; by rewrite ?orb_false_r.
Qed.

Lemma le_combine_bytes n v : le_combine (le_bytes n v) = wrap (8 * Z.of_nat n) v.
Proof.
  revert v. induction n as [|n IH]; intros v.
  - simpl. unfold wrap. by rewrite Z.mod_1_r.
  - simpl. rewrite IH. apply Z.bits_inj'. intros i Hi.
    rewrite Z.lor_spec, Z.shiftl_spec, !wrap_spec by lia.
    destruct (Z.ltb_spec i 8).
    + destruct (Z.ltb_spec i (8 * Z.of_nat (S n))); [|lia].
      rewrite (Z.testbit_neg_r _ (i - 8)) by lia. by rewrite andb_false_r, orb_false_r.
    + rewrite Z.shiftr_spec by lia. replace (i - 8 + 8) with i by lia. simpl.
      f_equal. (destruct (Z.ltb_spec (i - 8) (8 * Z.of_nat n)), (Z.ltb_spec i (8 * Z.of_nat (S n))); lia || done).
Qed.

(** ** Text

    A C string is the list of its character codes; [str] reads a literal. *)
Fixpoint str (s : String.string) : list Z :=
  match s with
  | String.EmptyString => []
  | String.String c t => Z.of_N (Ascii.N_of_ascii c) :: str t
  end.
#[global] Arguments str s%_string.
Definition streq (a b : list Z) : bool := bool_decide (a = b).

Lemma streq_true a b : streq a b = true <-> a = b.
Proof. apply bool_decide_eq_true. Qed.

(** [s.rfind(p, 0) == 0], and [s.find(p) != npos]. *)
Definition starts_with (p s : list Z) : bool := streq (take (length p) s) p.
Fixpoint contains (p s : list Z) : bool :=
  starts_with p s || match s with [] => false | _ :: t => contains p t end.

Lemma starts_with_app p s : starts_with p (p ++ s) = true.
Proof. apply streq_true. by rewrite take_app_length. Qed.
Lemma starts_with_inv p s : starts_with p s = true -> exists t, s = p ++ t.
Proof. intros E%streq_true. exists (drop (length p) s). by rewrite <- E at 1; rewrite take_drop. Qed.
Lemma contains_app p a b : contains p (a ++ p ++ b) = true.
Proof.
  induction a as [|x a IH]; [|by simpl; rewrite IH, orb_true_r].
  cbn [app]. destruct (p ++ b) eqn:E; simpl; rewrite <- E, starts_with_app; done.
Qed.
Lemma contains_inv p s : contains p s = true -> exists a b, s = a ++ p ++ b.
Proof.
  induction s as [|x s IH]; cbn [contains]; intros [H|H]%orb_prop.
  - apply starts_with_inv in H as [t ->]. by exists [], t.
  - done.
  - apply starts_with_inv in H as [t ->]. by exists [], t.
  - destruct (IH H) as (a & b & ->). by exists (x :: a), b.
Qed.

(** [%d] of a 32-bit integer *)
Fixpoint digits (fuel : nat) (n : Z) (acc : list Z) : list Z :=
  match fuel with
  | O => acc
  | S f => let acc := (48 + n mod 10) :: acc in if n <? 10 then acc else digits f (n / 10) acc
  end.
Definition print_d (n : Z) : list Z :=
  if n <? 0 then 45 :: digits 20 (- n) [] else digits 20 n [].


(** ** Finite checks

    A decidable property of a small integer range is checked by computation. *)
Lemma range_dec (P : Z -> Prop) `{forall x, Decision (P x)} a n :
  forallb (fun x => bool_decide (P x)) (seqZ a n) = true -> forall x, a <= x < a + n -> P x.
Proof.
  rewrite forallb_forall. intros HP x Hx.
  eapply bool_decide_eq_true_1, HP, list_elem_of_In, elem_of_seqZ. lia.
Qed.

Ltac range_check a n :=
  match goal with
  | |- ?G => 
    match goal with
    | x : Z |- _ => pattern x; apply (range_dec _ a n); [vm_compute; reflexivity | lia]
    end
  end.
