(* ===== verification/MsgPack.v ===== *)
(** * MessagePack values, writer and reader (engine/mpack/mpack.h)

    [Value] is the C++ struct with all its fields, [Writer] methods append
    to a byte buffer, and [Reader] methods run in a small monad that tells
    apart "return false", an out-of-bounds access and exhausted fuel. *)
From S2P Require Import Prelude.
Local Open Scope cint_scope.

Module Msgpack.

Inductive Ty := NIL | BOOL | INT | UINT | FLOAT | DOUBLE | STR | BIN | ARRAY | MAP.

#[export] Instance Ty_eq_dec : EqDecision Ty.
Proof. solve_decision. Defined.

(** [f64] is the bit pattern of the double; strings and blobs are bytes. *)
Inductive Value := MkValue {
  type : Ty;
  i64 : Z;
  u64 : Z;
  f64 : Z;
  b : bool;
  str : list Z;
  bin : list Z;
  arr : list Value;
  map : list (list Z * Value)
}.

(** The default constructor and the converting ones. *)
Definition Value_default : Value := MkValue NIL 0 0 0 false [] [] [] [].
Definition ValueBool (v : bool) : Value := MkValue BOOL 0 0 0 v [] [] [] [].
Definition ValueInt (v : Z) : Value := MkValue INT v 0 0 false [] [] [] [].
Definition ValueUInt (v : Z) : Value := MkValue UINT 0 v 0 false [] [] [] [].
Definition ValueDouble (v : Z) : Value := MkValue DOUBLE 0 0 v false [] [] [] [].
Definition ValueStr (v : list Z) : Value := MkValue STR 0 0 0 false v [] [] [].
Definition ValueBin (v : list Z) : Value := MkValue BIN 0 0 0 false [] v [] [].

Definition set_type (v : Value) (t : Ty) : Value :=
  MkValue t (i64 v) (u64 v) (f64 v) (b v) (str v) (bin v) (arr v) (map v).
Definition set_str (v : Value) (s : list Z) : Value :=
  MkValue (type v) (i64 v) (u64 v) (f64 v) (b v) s (bin v) (arr v) (map v).
Definition set_arr (v : Value) (a : list Value) : Value :=
  MkValue (type v) (i64 v) (u64 v) (f64 v) (b v) (str v) (bin v) a (map v).
Definition set_map (v : Value) (m : list (list Z * Value)) : Value :=
  MkValue (type v) (i64 v) (u64 v) (f64 v) (b v) (str v) (bin v) (arr v) m.

Definition makeMap : Value := set_type Value_default MAP.
Definition makeArray : Value := set_type Value_default ARRAY.

(** [set]: update the first pair with that key, else append one. *)
Fixpoint map_put (m : list (list Z * Value)) (key : list Z) (val : Value)
  : list (list Z * Value) :=
  match m with
  | [] => [(key, val)]
  | p :: t => if decide (p.1 = key) then (p.1, val) :: t else p :: map_put t key val
  end.
Definition set (v : Value) (key : list Z) (val : Value) : Value :=
  let v := if decide (type v = MAP) then v else set_type v MAP in
  set_map v (map_put (map v) key val).

Fixpoint map_find (m : list (list Z * Value)) (key : list Z) : option Value :=
  match m with
  | [] => None
  | p :: t => if decide (p.1 = key) then Some p.2 else map_find t key
  end.
Definition get (v : Value) (key : list Z) : option Value :=
  if decide (type v = MAP) then map_find (map v) key else None.

Definition getString (v : Value) (key def : list Z) : list Z :=
  match get v key with
  | Some x => if decide (type x = STR) then str x else def
  | None => def
  end.
Definition getInt (v : Value) (key : list Z) (def : Z) : Z :=
  match get v key with
  | Some x =>
      if decide (type x = INT) then i64 x
      else if decide (type x = UINT) then S64 (u64 x) else def
  | None => def
  end.
Definition getBool (v : Value) (key : list Z) (def : bool) : bool :=
  match get v key with
  | Some x => if decide (type x = BOOL) then b x else def
  | None => def
  end.
Definition push (v : Value) (val : Value) : Value :=
  let v := if decide (type v = ARRAY) then v else set_type v ARRAY in
  set_arr v (arr v ++ [val]).

(** ** Writer: every method appends to [buffer]. *)
Definition push_back (buffer : list Z) (x : Z) : list Z := buffer ++ [U8 x].

Definition write16 (w : list Z) (v : Z) : list Z :=
  push_back (push_back w (v >> 8)) v.
Definition write32 (w : list Z) (v : Z) : list Z :=
  push_back (push_back (push_back (push_back w (v >> 24)) (v >> 16)) (v >> 8)) v.
(** [for (i = 7; i >= 0; i--)] *)
Definition write64 (w : list Z) (v : Z) : list Z :=
  fold_left (fun w i => push_back w (v >> (i * 8))) [7; 6; 5; 4; 3; 2; 1; 0] w.

Definition writeNil (w : list Z) : list Z := push_back w 0xc0.
Definition writeBool (w : list Z) (x : bool) : list Z :=
  push_back w (if x then 0xc3 else 0xc2).

Definition writeInt (w : list Z) (v : Z) : list Z :=
  if (-32 <=? v) && (v <=? 127) then push_back w v
  else if (-128 <=? v) && (v <=? 127) then push_back (push_back w 0xd0) v
  else if (-32768 <=? v) && (v <=? 32767) then write16 (push_back w 0xd1) (U16 v)
  else if (-2147483648 <=? v) && (v <=? 2147483647) then write32 (push_back w 0xd2) (U32 v)
  else write64 (push_back w 0xd3) (U64 v).

Definition writeUInt (w : list Z) (v : Z) : list Z :=
  if v <=? 127 then push_back w v
  else if v <=? 0xff then push_back (push_back w 0xcc) v
  else if v <=? 0xffff then write16 (push_back w 0xcd) (U16 v)
  else if v <=? 0xffffffff then write32 (push_back w 0xce) (U32 v)
  else write64 (push_back w 0xcf) v.

Definition writeDouble (w : list Z) (bits : Z) : list Z :=
  write64 (push_back w 0xcb) bits.

Definition writeString (w : list Z) (s : list Z) : list Z :=
  let len := Z.of_nat (length s) in
  (if len <=? 31 then push_back w (0xa0 .| len)
   else if len <=? 0xff then push_back (push_back w 0xd9) len
   else if len <=? 0xffff then write16 (push_back w 0xda) (U16 len)
   else write32 (push_back w 0xdb) (U32 len)) ++ s.

Definition writeBinary (w : list Z) (x : list Z) : list Z :=
  let len := Z.of_nat (length x) in
  (if len <=? 0xff then push_back (push_back w 0xc4) len
   else if len <=? 0xffff then write16 (push_back w 0xc5) (U16 len)
   else write32 (push_back w 0xc6) (U32 len)) ++ x.

Definition writeArrayHeader (w : list Z) (size : Z) : list Z :=
  if size <=? 15 then push_back w (0x90 .| size)
  else if size <=? 0xffff then write16 (push_back w 0xdc) (U16 size)
  else write32 (push_back w 0xdd) (U32 size).

Definition writeMapHeader (w : list Z) (size : Z) : list Z :=
  if size <=? 15 then push_back w (0x80 .| size)
  else if size <=? 0xffff then write16 (push_back w 0xde) (U16 size)
  else write32 (push_back w 0xdf) (U32 size).

Fixpoint writeValue (w : list Z) (v : Value) {struct v} : list Z :=
  match v with
  | MkValue ty i u f bb s bn a m =>
      match ty with
      | NIL => writeNil w
      | BOOL => writeBool w bb
      | INT => writeInt w i
      | UINT => writeUInt w u
      | FLOAT | DOUBLE => writeDouble w f
      | STR => writeString w s
      | BIN => writeBinary w bn
      | ARRAY =>
          (fix items (w : list Z) (l : list Value) :=
             match l with [] => w | x :: t => items (writeValue w x) t end)
            (writeArrayHeader w (Z.of_nat (length a))) a
      | MAP =>
          (fix items (w : list Z) (l : list (list Z * Value)) :=
             match l with
             | [] => w
             | (k, x) :: t => items (writeValue (writeString w k) x) t
             end)
            (writeMapHeader w (Z.of_nat (length m))) m
      end
  end.

(** ** Reader *)
Record Reader := MkReader { data : list Z; pos : nat }.
Definition size (r : Reader) : nat := length (data r).

Inductive rres (A : Type) :=
| Ret (x : A) (r : Reader)   (** the call returned true *)
| RFalse (r : Reader)        (** the call returned false *)
| Oob                        (** a byte outside [data, data + size) was read *)
| NoFuel.
Arguments Ret {A}. Arguments RFalse {A}. Arguments Oob {A}. Arguments NoFuel {A}.

Definition M (A : Type) := Reader -> rres A.
Definition ret {A} (x : A) : M A := fun r => Ret x r.
Definition bind {A B} (m : M A) (k : A -> M B) : M B := fun r =>
  match m r with
  | Ret x r' => k x r'
  | RFalse r' => RFalse r'
  | Oob => Oob
  | NoFuel => NoFuel
  end.
Notation "x <- m ;; k" := (bind m (fun x => k))
  (at level 100, m at next level, right associativity, only parsing).

Definition fail_false {A} : M A := fun r => RFalse r.
(** [data[pos + i]] *)
Definition byte_at (i : nat) : M Z := fun r =>
  match data r !! (pos r + i)%nat with Some x => Ret x r | None => Oob end.
Definition advance (n : nat) : M unit := fun r => Ret tt (MkReader (data r) (pos r + n)).
(** the guard [if (pos + n > size) return false;] *)
Definition need (n : nat) : M unit := fun r =>
  if decide (size r < pos r + n)%nat then RFalse r else Ret tt r.
(** [assign(data + pos, len)] *)
Definition slice (n : nat) : M (list Z) := fun r =>
  if decide (pos r + n <= size r)%nat then Ret (take n (drop (pos r) (data r))) r else Oob.

Definition read8 : M Z :=
  _ <- need 1 ;; x <- byte_at 0 ;; _ <- advance 1 ;; ret x.
Definition read16 : M Z :=
  _ <- need 2 ;; x <- byte_at 0 ;; y <- byte_at 1 ;; _ <- advance 2 ;;
  ret (U16 ((x << 8) .| y)).
Definition read32 : M Z :=
  _ <- need 4 ;;
  x0 <- byte_at 0 ;; x1 <- byte_at 1 ;; x2 <- byte_at 2 ;; x3 <- byte_at 3 ;;
  _ <- advance 4 ;;
  ret (U32 ((x0 << 24) .| (x1 << 16) .| (x2 << 8) .| x3)).
Fixpoint read64_loop (n i : nat) (out : Z) : M Z :=
  match n with
  | O => ret out
  | S k => x <- byte_at i ;; read64_loop k (S i) (U64 ((out << 8) .| x))
  end.
Definition read64 : M Z :=
  _ <- need 8 ;; out <- read64_loop 8 0 0 ;; _ <- advance 8 ;; ret out.

Definition readStringContent (len : nat) (out : Value) : M Value :=
  _ <- need len ;; s <- slice len ;; _ <- advance len ;;
  ret (set_str (set_type out STR) s).

(** [readValue]; the loops of [readArray] and [readMap] carry the vector
    built so far.  Counts are kept as integers: an array32 header can
    announce 2^32 - 1 elements. *)
Fixpoint readValue (fuel : nat) (out : Value) {struct fuel} : M Value :=
  match fuel with
  | O => fun _ => NoFuel
  | S f =>
      tag <- read8 ;;
      if tag <=? 0x7f then ret (ValueInt tag)
      else if (tag & 0xf0) =? 0x80 then readMap f (tag & 0x0f) [] out
      else if (tag & 0xf0) =? 0x90 then readArray f (tag & 0x0f) [] out
      else if (tag & 0xe0) =? 0xa0 then readStringContent (Z.to_nat (tag & 0x1f)) out
      else if (tag & 0xe0) =? 0xe0 then ret (ValueInt (S8 tag))
      else if tag =? 0xc0 then ret Value_default
      else if tag =? 0xc2 then ret (ValueBool false)
      else if tag =? 0xc3 then ret (ValueBool true)
      else if tag =? 0xcc then v <- read8 ;; ret (ValueUInt v)
      else if tag =? 0xcd then v <- read16 ;; ret (ValueUInt v)
      else if tag =? 0xce then v <- read32 ;; ret (ValueUInt v)
      else if tag =? 0xcf then v <- read64 ;; ret (ValueUInt v)
      else if tag =? 0xd0 then v <- read8 ;; ret (ValueInt (S8 v))
      else if tag =? 0xd1 then v <- read16 ;; ret (ValueInt (S16 v))
      else if tag =? 0xd2 then v <- read32 ;; ret (ValueInt (S32 v))
      else if tag =? 0xd3 then v <- read64 ;; ret (ValueInt (S64 v))
      else if tag =? 0xcb then v <- read64 ;; ret (ValueDouble v)
      else if tag =? 0xd9 then n <- read8 ;; readStringContent (Z.to_nat n) out
      else if tag =? 0xda then n <- read16 ;; readStringContent (Z.to_nat n) out
      else if tag =? 0xdb then n <- read32 ;; readStringContent (Z.to_nat n) out
      else if tag =? 0xdc then n <- read16 ;; readArray f n [] out
      else if tag =? 0xdd then n <- read32 ;; readArray f n [] out
      else if tag =? 0xde then n <- read16 ;; readMap f n [] out
      else if tag =? 0xdf then n <- read32 ;; readMap f n [] out
      else fail_false
  end
with readArray (fuel : nat) (count : Z) (acc : list Value) (out : Value) {struct fuel}
  : M Value :=
  match fuel with
  | O => fun _ => NoFuel
  | S f =>
      if count <=? 0 then ret (set_arr (set_type out ARRAY) acc)
      else item <- readValue f Value_default ;;
           readArray f (count - 1) (acc ++ [item]) out
  end
with readMap (fuel : nat) (count : Z) (acc : list (list Z * Value)) (out : Value)
  {struct fuel} : M Value :=
  match fuel with
  | O => fun _ => NoFuel
  | S f =>
      if count <=? 0 then ret (set_map (set_type out MAP) acc)
      else key <- readValue f Value_default ;;
           if decide (type key = STR) then
             val <- readValue f Value_default ;;
             readMap f (count - 1) (acc ++ [(str key, val)]) out
           else fail_false
  end.

(** Enough fuel for any input: two calls per byte of it. *)
Definition fuel_for (r : Reader) : nat := 2 * (size r - pos r) + 1.
Definition parse (bytes : list Z) : rres Value :=
  let r := MkReader bytes 0 in readValue (fuel_for r) Value_default r.

(** ** Specifications used by the theorems *)

(** A value the format can carry: sizes below 2^32, integers in range,
    and no BIN node (the reader has no case for its three tags). *)
Fixpoint wf (v : Value) : Prop :=
  match v with
  | MkValue ty i u f _ s _ a m =>
      match ty with
      | NIL | BOOL => True
      | INT => in_s 64 i
      | UINT => in_u 64 u
      | FLOAT | DOUBLE => in_u 64 f
      | STR => Z.of_nat (length s) < 2 ^ 32
      | BIN => False
      | ARRAY => Z.of_nat (length a) < 2 ^ 32 /\ foldr (fun x P => wf x /\ P) True a
      | MAP => Z.of_nat (length m) < 2 ^ 32 /\
               foldr (fun p P => (Z.of_nat (length p.1) < 2 ^ 32 /\ wf p.2) /\ P) True m
      end
  end.

(** What comes back: unused fields reset, FLOAT widened to DOUBLE, and
    unsigned integers up to 127 read as INT (positive fixint). *)
Fixpoint canon (v : Value) : Value :=
  match v with
  | MkValue ty i u f bb s bn a m =>
      match ty with
      | NIL => Value_default
      | BOOL => ValueBool bb
      | INT => ValueInt i
      | UINT => if u <=? 127 then ValueInt u else ValueUInt u
      | FLOAT | DOUBLE => ValueDouble f
      | STR => ValueStr s
      | BIN => ValueBin bn
      | ARRAY => set_arr makeArray (List.map canon a)
      | MAP => set_map makeMap (List.map (fun p => (p.1, canon p.2)) m)
      end
  end.

Definition enc (v : Value) : list Z := writeValue [] v.

(** ** Induction over nested values *)
Lemma Value_nested_ind (P : Value -> Prop) :
  (forall ty i u f bb s bn a m,
     Forall P a -> Forall (fun p => P p.2) m -> P (MkValue ty i u f bb s bn a m)) ->
  forall v, P v.
Proof.
  intros H. fix IH 1. intros [ty i u f bb s bn a m]. apply H.
  - induction a as [|x t IHt]; constructor; [apply IH|apply IHt].
  - induction m as [|[k x] t IHt]; constructor; [apply IH|apply IHt].
Qed.

(** ** Writer lemmas: every method only appends *)
Lemma write16_app w v : write16 w v = w ++ be_bytes 2 v.
Proof. unfold write16, push_back. rewrite <- !app_assoc. simpl. by rewrite Z.shiftr_0_r. Qed.
Lemma write32_app w v : write32 w v = w ++ be_bytes 4 v.
Proof. unfold write32, push_back. rewrite <- !app_assoc. simpl. by rewrite Z.shiftr_0_r. Qed.
Lemma write64_app w v : write64 w v = w ++ be_bytes 8 v.
Proof. unfold write64, push_back. simpl. rewrite <- !app_assoc. simpl. done. Qed.

Ltac writer_norm :=
  rewrite ?write16_app, ?write32_app, ?write64_app; unfold push_back;
  rewrite <- ?app_assoc; simpl app.

Ltac solve_append :=
  intros; repeat case_match; writer_norm; done.

Lemma writeInt_app w v : writeInt w v = w ++ writeInt [] v.
Proof. unfold writeInt. solve_append. Qed.
Lemma writeUInt_app w v : writeUInt w v = w ++ writeUInt [] v.
Proof. unfold writeUInt. solve_append. Qed.
Lemma writeDouble_app w v : writeDouble w v = w ++ writeDouble [] v.
Proof. unfold writeDouble. solve_append. Qed.
Lemma writeString_app w v : writeString w v = w ++ writeString [] v.
Proof. unfold writeString. cbv zeta. solve_append. Qed.
Lemma writeBinary_app w v : writeBinary w v = w ++ writeBinary [] v.
Proof. unfold writeBinary. cbv zeta. solve_append. Qed.
Lemma writeArrayHeader_app w v : writeArrayHeader w v = w ++ writeArrayHeader [] v.
Proof. unfold writeArrayHeader. solve_append. Qed.
Lemma writeMapHeader_app w v : writeMapHeader w v = w ++ writeMapHeader [] v.
Proof. unfold writeMapHeader. solve_append. Qed.

Definition enc_pair (p : list Z * Value) : list Z := writeString [] p.1 ++ enc p.2.

Lemma writeValue_app v : forall w, writeValue w v = w ++ enc v.
Proof.
  unfold enc. induction v as [ty i u f bb s bn a m IHa IHm] using Value_nested_ind.
  intros w. destruct ty; simpl.
  - done.
  - done.
  - apply writeInt_app.
  - apply writeUInt_app.
  - apply writeDouble_app.
  - apply writeDouble_app.
  - apply writeString_app.
  - apply writeBinary_app.
  - rewrite writeArrayHeader_app. generalize (writeArrayHeader [] (Z.of_nat (length a))).
    revert w. induction IHa as [|x t Hx _ IH]; intros w l; [done|].
    rewrite (Hx (w ++ l)), (Hx l), <- (app_assoc w), IH. done.
  - rewrite writeMapHeader_app. generalize (writeMapHeader [] (Z.of_nat (length m))).
    revert w. induction IHm as [|[k x] t Hx _ IH]; intros w l; [done|]. simpl in *.
    rewrite (Hx (writeString (w ++ l) k)), (Hx (writeString l k)).
    rewrite (writeString_app (w ++ l)), (writeString_app l), <- !(app_assoc w).
    rewrite IH. done.
Qed.

Lemma enc_array i u f bb s bn a m :
  enc (MkValue ARRAY i u f bb s bn a m) =
  writeArrayHeader [] (Z.of_nat (length a)) ++ concat (List.map enc a).
Proof.
  unfold enc at 1. simpl. generalize (writeArrayHeader [] (Z.of_nat (length a))).
  induction a as [|x t IH]; intros l; simpl; [by rewrite app_nil_r|].
  by rewrite writeValue_app, IH, <- app_assoc.
Qed.
Lemma enc_map i u f bb s bn a m :
  enc (MkValue MAP i u f bb s bn a m) =
  writeMapHeader [] (Z.of_nat (length m)) ++ concat (List.map enc_pair m).
Proof.
  unfold enc at 1. simpl. generalize (writeMapHeader [] (Z.of_nat (length m))).
  induction m as [|[k x] t IH]; intros l; simpl; [by rewrite app_nil_r|].
  rewrite writeValue_app, IH, writeString_app. unfold enc_pair. simpl. by rewrite <- !app_assoc.
Qed.

(** ** Reader lemmas

    [reads m bs x]: wherever the bytes [bs] come next in the input, [m]
    consumes exactly them and returns [x]. *)
Definition reads {A} (m : M A) (bs : list Z) (x : A) : Prop :=
  forall d p rest, (p <= length d)%nat -> drop p d = bs ++ rest ->
  m (MkReader d p) = Ret x (MkReader d (p + length bs)).

Lemma drop_size (d bs rest : list Z) p : (p <= length d)%nat ->
  drop p d = bs ++ rest -> (p + length bs <= length d)%nat.
Proof. intros Hp Hd%(f_equal length). rewrite length_drop, length_app in Hd. lia. Qed.

Lemma decodes_ret {A} (x : A) : reads (ret x) [] x.
Proof. intros d p rest _ _. unfold ret. simpl. by rewrite Nat.add_0_r. Qed.

Lemma decodes_bind {A B} (m : M A) (k : A -> M B) bs1 bs2 bs x y :
  bs = bs1 ++ bs2 -> reads m bs1 x -> reads (k x) bs2 y -> reads (bind m k) bs y.
Proof.
  intros -> Hm Hk d p rest Hp Hd. unfold bind. rewrite <- app_assoc in Hd.
  rewrite (Hm d p _ Hp Hd). rewrite (Hk d (p + length bs1)%nat rest).
  - by rewrite length_app, Nat.add_assoc.
  - by eapply drop_size.
  - by rewrite <- drop_drop, Hd, drop_app_length.
Qed.

Lemma drop_lookup (d bs rest : list Z) p i :
  drop p d = bs ++ rest -> (i < length bs)%nat -> d !! (p + i)%nat = bs !! i.
Proof. intros Hd Hi. by rewrite <- lookup_drop, Hd, lookup_app_l. Qed.

(** Run a fixed-size read on known bytes. *)
Ltac run_fixed Hp Hd :=
  let Hs := fresh in
  pose proof (drop_size _ _ _ _ Hp Hd) as Hs; simpl length in Hs;
  unfold bind, need, byte_at, advance, ret, size; cbn [data pos];
  rewrite decide_False by (simpl; lia);
  repeat (erewrite (drop_lookup _ _ _ _ _ Hd) by (simpl; lia); cbn [lookup list_lookup]).

Lemma reads_read8 x : reads read8 [x] x.
Proof. intros d p rest Hp Hd. unfold read8. run_fixed Hp Hd. done. Qed.

Lemma be_combine_2 a c : Z.lor (a << 8) c = be_combine 0 [a; c].
Proof. unfold be_combine. simpl. by rewrite Z.shiftl_0_l. Qed.

Lemma be_combine_4 a c e f :
  Z.lor (Z.lor (Z.lor (a << 24) (c << 16)) (e << 8)) f = be_combine 0 [a; c; e; f].
Proof.
  unfold be_combine. simpl. rewrite Z.shiftl_0_l, Z.lor_0_l.
  by rewrite !Z.shiftl_lor, !Z.shiftl_shiftl by lia.
Qed.

Lemma be_combine_0_bytes n v : be_combine 0 (be_bytes n v) = wrap (8 * Z.of_nat n) v.
Proof. by rewrite be_combine_bytes, Z.shiftl_0_l, Z.lor_0_l. Qed.

Lemma reads_read16 v : reads read16 (be_bytes 2 v) (U16 v).
Proof.
  intros d p rest Hp Hd. unfold read16. cbn [be_bytes] in Hd. run_fixed Hp Hd.
  f_equal. rewrite be_combine_2. change [_; _] with (be_bytes 2 v).
  by rewrite be_combine_0_bytes, wrap_wrap.
Qed.

Lemma reads_read32 v : reads read32 (be_bytes 4 v) (U32 v).
Proof.
  intros d p rest Hp Hd. unfold read32. cbn [be_bytes] in Hd. run_fixed Hp Hd.
  f_equal. rewrite be_combine_4. change [_; _; _; _] with (be_bytes 4 v).
  by rewrite be_combine_0_bytes, wrap_wrap.
Qed.

Lemma wrap_lor_shiftl w a c : 0 <= w ->
  wrap w (Z.lor (wrap w a << 8) c) = wrap w (Z.lor (a << 8) c).
Proof.
  intros. apply Z.bits_inj'. intros i Hi. rewrite !wrap_spec, !Z.lor_spec by done.
  destruct (Z.ltb_spec i w); simpl; [|done]. rewrite !Z.shiftl_spec by done.
  destruct (decide (8 <= i)).
  - rewrite wrap_spec by done. destruct (Z.ltb_spec (i - 8) w); [done|lia].
  - by rewrite !(Z.testbit_neg_r _ (i - 8)) by lia.
Qed.

Lemma wrap_be_combine l a : U64 (be_combine (U64 a) l) = U64 (be_combine a l).
Proof.
  revert a. induction l as [|x t IH]; intros a; unfold be_combine in *; simpl.
  - apply wrap_wrap.
  - rewrite <- (IH (Z.lor (a << 8) x)), <- wrap_lor_shiftl by lia. by rewrite IH.
Qed.

Lemma read64_loop_spec d p rest bs : drop p d = bs ++ rest ->
  forall n i out, (i + n = length bs)%nat -> in_u 64 out ->
  read64_loop n i out (MkReader d p) =
  Ret (U64 (be_combine out (drop i bs))) (MkReader d p).
Proof.
  intros Hd. induction n as [|n IH]; intros i out Hi Ho; simpl.
  - rewrite drop_ge by lia. unfold be_combine, ret. simpl. by rewrite wrap_small.
  - unfold bind, byte_at. cbn [data pos]. rewrite (drop_lookup _ _ _ _ _ Hd) by lia.
    destruct (lookup_lt_is_Some_2 bs i ltac:(lia)) as [x Hx]. rewrite Hx.
    rewrite IH by (lia || apply wrap_in_u; lia).
    rewrite (drop_S _ _ _ Hx). f_equal. by rewrite wrap_be_combine.
Qed.

Lemma reads_read64 v : reads read64 (be_bytes 8 v) (U64 v).
Proof.
  intros d p rest Hp Hd. pose proof (drop_size _ _ _ _ Hp Hd) as Hs.
  rewrite length_be_bytes in Hs. unfold read64, bind, need, size. cbn [data pos].
  rewrite decide_False by lia.
  rewrite (read64_loop_spec _ _ _ _ Hd) by (rewrite ?length_be_bytes; lia || apply in_u_0; lia).
  rewrite drop_0, be_combine_0_bytes, wrap_wrap. done.
Qed.

Lemma reads_string s out :
  reads (readStringContent (length s) out) s (set_str (set_type out STR) s).
Proof.
  intros d p rest Hp Hd. pose proof (drop_size _ _ _ _ Hp Hd) as Hs.
  unfold readStringContent, bind, need, slice, advance, ret, size. cbn [data pos].
  repeat case_decide; simpl in *; try lia. by rewrite Hd, take_app_length.
Qed.

(** One dispatch of [readValue]: read the tag, then run the branch it
    selects ([br], equal to the continuation at this tag). *)
Ltac tag_branch t br :=
  eapply (decodes_bind _ _ [t]); [reflexivity | apply reads_read8 |];
  lazymatch goal with |- reads _ ?bs ?v => change (reads br bs v) end.

(** The payload is one integer, read by the primitive with lemma [R]. *)
Ltac read_num R :=
  eapply (decodes_bind _ _ _ []); [by rewrite app_nil_r | apply R |]; cbv beta.

Lemma wrap_in_s w v : 0 < w -> in_s w v -> swrap w (wrap w v) = v.
Proof. intros. by rewrite swrap_wrap, swrap_small. Qed.

(** The tag tests of the one-byte forms, over all their tags. *)
Lemma negfix_tag x : 0xe0 <= x < 0x100 ->
  (x <=? 0x7f) = false /\ ((x & 0xf0) =? 0x80) = false /\ ((x & 0xf0) =? 0x90) = false /\
  ((x & 0xe0) =? 0xa0) = false /\ ((x & 0xe0) =? 0xe0) = true.
Proof. intros Hx. range_check 0xe0 32. Qed.
Lemma fixmap_tag x : 0 <= x < 16 ->
  let t := 0x80 .| x in
  U8 t = t /\ (t <=? 0x7f) = false /\ ((t & 0xf0) =? 0x80) = true /\ (t & 0x0f) = x.
Proof. intros Hx. range_check 0 16. Qed.
Lemma fixarray_tag x : 0 <= x < 16 ->
  let t := 0x90 .| x in
  U8 t = t /\ (t <=? 0x7f) = false /\ ((t & 0xf0) =? 0x80) = false /\
  ((t & 0xf0) =? 0x90) = true /\ (t & 0x0f) = x.
Proof. intros Hx. range_check 0 16. Qed.
Lemma fixstr_tag x : 0 <= x < 32 ->
  let t := 0xa0 .| x in
  U8 t = t /\ (t <=? 0x7f) = false /\ ((t & 0xf0) =? 0x80) = false /\
  ((t & 0xf0) =? 0x90) = false /\ ((t & 0xe0) =? 0xa0) = true /\ (t & 0x1f) = x.
Proof. intros Hx. range_check 0 32. Qed.

Lemma decodes_int i f out : in_s 64 i -> reads (readValue (S f) out) (writeInt [] i) (ValueInt i).
Proof.
  intros Hi. unfold writeInt.
  destruct ((-32 <=? i) && (i <=? 127)) eqn:E1.
  { apply andb_true_iff in E1 as [Ha Hb]. apply Z.leb_le in Ha, Hb.
    read_num reads_read8.
    destruct (decide (0 <= i)).
    - assert (U8 i = i) as -> by (apply wrap_small; unfold in_u; lia).
      destruct (Z.leb_spec i 0x7f); [apply decodes_ret|lia].
    - assert (HU : U8 i = i + 256)
        by (unfold wrap; rewrite <- (Z.mod_add i 1 (2^8)) by lia; apply Z.mod_small; lia).
      destruct (negfix_tag (U8 i)) as (->&->&->&->&->); [lia|].
      rewrite wrap_in_s by (unfold in_s; lia). apply decodes_ret. }
  destruct ((-128 <=? i) && (i <=? 127)) eqn:E2.
  { apply andb_true_iff in E2 as [Ha Hb]. apply Z.leb_le in Ha, Hb. writer_norm.
    tag_branch 0xd0 (v <- read8 ;; ret (ValueInt (S8 v))).
    read_num reads_read8.
    rewrite wrap_in_s by (unfold in_s; lia). apply decodes_ret. }
  destruct ((-32768 <=? i) && (i <=? 32767)) eqn:E3.
  { apply andb_true_iff in E3 as [Ha Hb]. apply Z.leb_le in Ha, Hb. writer_norm.
    tag_branch 0xd1 (v <- read16 ;; ret (ValueInt (S16 v))).
    read_num reads_read16.
    rewrite wrap_wrap, wrap_in_s by (unfold in_s; lia). apply decodes_ret. }
  destruct ((-2147483648 <=? i) && (i <=? 2147483647)) eqn:E4.
  { apply andb_true_iff in E4 as [Ha Hb]. apply Z.leb_le in Ha, Hb. writer_norm.
    tag_branch 0xd2 (v <- read32 ;; ret (ValueInt (S32 v))).
    read_num reads_read32.
    rewrite wrap_wrap, wrap_in_s by (unfold in_s; lia). apply decodes_ret. }
  writer_norm. tag_branch 0xd3 (v <- read64 ;; ret (ValueInt (S64 v))).
  read_num reads_read64.
  rewrite wrap_wrap, wrap_in_s by (done || lia). apply decodes_ret.
Qed.

Lemma reads_uint u f out : in_u 64 u ->
  reads (readValue (S f) out) (writeUInt [] u)
        (if u <=? 127 then ValueInt u else ValueUInt u).
Proof.
  intros Hu. unfold in_u in Hu. unfold writeUInt.
  destruct (Z.leb_spec u 127).
  { read_num reads_read8. rewrite wrap_small by (unfold in_u; lia).
    destruct (Z.leb_spec u 0x7f); [apply decodes_ret|lia]. }
  destruct (Z.leb_spec u 0xff).
  { writer_norm. tag_branch 0xcc (v <- read8 ;; ret (ValueUInt v)).
    read_num reads_read8. rewrite wrap_small by (unfold in_u; lia). apply decodes_ret. }
  destruct (Z.leb_spec u 0xffff).
  { writer_norm. tag_branch 0xcd (v <- read16 ;; ret (ValueUInt v)).
    read_num reads_read16. rewrite wrap_wrap, wrap_small by (unfold in_u; lia). apply decodes_ret. }
  destruct (Z.leb_spec u 0xffffffff).
  { writer_norm. tag_branch 0xce (v <- read32 ;; ret (ValueUInt v)).
    read_num reads_read32. rewrite wrap_wrap, wrap_small by (unfold in_u; lia). apply decodes_ret. }
  writer_norm. tag_branch 0xcf (v <- read64 ;; ret (ValueUInt v)).
  read_num reads_read64. rewrite wrap_small by (unfold in_u; lia). apply decodes_ret.
Qed.

Lemma decodes_double u f out : in_u 64 u ->
  reads (readValue (S f) out) (writeDouble [] u) (ValueDouble u).
Proof.
  intros Hu. unfold writeDouble. writer_norm.
  tag_branch 0xcb (v <- read64 ;; ret (ValueDouble v)).
  read_num reads_read64. rewrite wrap_small by done. apply decodes_ret.
Qed.

Lemma reads_str s f : Z.of_nat (length s) < 2 ^ 32 ->
  reads (readValue (S f) Value_default) (writeString [] s) (ValueStr s).
Proof.
  intros Hs. unfold writeString. cbv zeta.
  assert (Hr : forall n, n = Z.of_nat (length s) ->
    reads (readStringContent (Z.to_nat n) Value_default) s (ValueStr s)).
  { intros n ->. rewrite Nat2Z.id. apply reads_string. }
  destruct (Z.leb_spec (Z.of_nat (length s)) 31).
  { destruct (fixstr_tag (Z.of_nat (length s))) as (Ht&H1&H2&H3&H4&H5); [lia|].
    unfold push_back. rewrite Ht. eapply (decodes_bind _ _ [_]); [reflexivity|apply reads_read8|].
    cbv beta. rewrite H1, H2, H3, H4, H5. by apply Hr. }
  destruct (Z.leb_spec (Z.of_nat (length s)) 0xff).
  { writer_norm. tag_branch 0xd9 (n <- read8 ;; readStringContent (Z.to_nat n) Value_default).
    eapply (decodes_bind _ _ [_]); [reflexivity|apply reads_read8|]. apply Hr, wrap_small.
    unfold in_u; lia. }
  destruct (Z.leb_spec (Z.of_nat (length s)) 0xffff).
  { writer_norm. tag_branch 0xda (n <- read16 ;; readStringContent (Z.to_nat n) Value_default).
    eapply (decodes_bind _ _ (be_bytes 2 (U16 (Z.of_nat (length s))))); [reflexivity|apply reads_read16|]. apply Hr.
    by rewrite wrap_wrap, wrap_small by (unfold in_u; lia). }
  writer_norm. tag_branch 0xdb (n <- read32 ;; readStringContent (Z.to_nat n) Value_default).
  eapply (decodes_bind _ _ (be_bytes 4 (U32 (Z.of_nat (length s))))); [reflexivity|apply reads_read32|]. apply Hr.
  by rewrite wrap_wrap, wrap_small by (unfold in_u; lia).
Qed.

Lemma reads_array_header n f bs out v : 0 <= n < 2 ^ 32 ->
  reads (readArray f n [] out) bs v ->
  reads (readValue (S f) out) (writeArrayHeader [] n ++ bs) v.
Proof.
  intros Hn Hr. unfold writeArrayHeader.
  destruct (Z.leb_spec n 15).
  { destruct (fixarray_tag n) as (Ht&H1&H2&H3&H4); [lia|].
    unfold push_back. rewrite Ht. eapply (decodes_bind _ _ [_]); [reflexivity|apply reads_read8|].
    cbv beta. by rewrite H1, H2, H3, H4. }
  destruct (Z.leb_spec n 0xffff).
  { writer_norm. tag_branch 0xdc (n <- read16 ;; readArray f n [] out).
    eapply (decodes_bind _ _ (be_bytes 2 (U16 n))); [reflexivity|apply reads_read16|].
    by rewrite wrap_wrap, wrap_small by (unfold in_u; lia). }
  writer_norm. tag_branch 0xdd (n <- read32 ;; readArray f n [] out).
  eapply (decodes_bind _ _ (be_bytes 4 (U32 n))); [reflexivity|apply reads_read32|].
  by rewrite wrap_wrap, wrap_small by (unfold in_u; lia).
Qed.

Lemma reads_map_header n f bs out v : 0 <= n < 2 ^ 32 ->
  reads (readMap f n [] out) bs v ->
  reads (readValue (S f) out) (writeMapHeader [] n ++ bs) v.
Proof.
  intros Hn Hr. unfold writeMapHeader.
  destruct (Z.leb_spec n 15).
  { destruct (fixmap_tag n) as (Ht&H1&H2&H3); [lia|].
    unfold push_back. rewrite Ht. eapply (decodes_bind _ _ [_]); [reflexivity|apply reads_read8|].
    cbv beta. by rewrite H1, H2, H3. }
  destruct (Z.leb_spec n 0xffff).
  { writer_norm. tag_branch 0xde (n <- read16 ;; readMap f n [] out).
    eapply (decodes_bind _ _ (be_bytes 2 (U16 n))); [reflexivity|apply reads_read16|].
    by rewrite wrap_wrap, wrap_small by (unfold in_u; lia). }
  writer_norm. tag_branch 0xdf (n <- read32 ;; readMap f n [] out).
  eapply (decodes_bind _ _ (be_bytes 4 (U32 n))); [reflexivity|apply reads_read32|].
  by rewrite wrap_wrap, wrap_small by (unfold in_u; lia).
Qed.

(** [stable m bs x]: with enough fuel, [m] reads [bs] as [x]. *)
Definition stable {A} (m : nat -> M A) (bs : list Z) (x : A) : Prop :=
  exists f0, forall f, (f0 <= f)%nat -> reads (m f) bs x.

Lemma reads_items a : Forall (fun v => stable (fun f => readValue f Value_default) (enc v) (canon v)) a ->
  forall acc out, stable (fun f => readArray f (Z.of_nat (length a)) acc out)
    (concat (List.map enc a)) (set_arr (set_type out ARRAY) (acc ++ List.map canon a)).
Proof.
  induction 1 as [|x t [f1 Hx] _ IH]; intros acc out.
  - exists 1%nat. intros [|f] Hf; [lia|]. simpl. rewrite app_nil_r. apply decodes_ret.
  - destruct (IH (acc ++ [canon x]) out) as [f2 Ht]. exists (S (f1 + f2)).
    intros [|f] Hf; [lia|]. cbn [readArray]. destruct (Z.leb_spec (Z.of_nat (length (x :: t))) 0) as [Hl|_];
      [simpl in Hl; lia|].
    eapply decodes_bind; [reflexivity|apply Hx; lia|]. cbv beta.
    replace (Z.of_nat (length (x :: t)) - 1) with (Z.of_nat (length t)) by (simpl; lia).
    specialize (Ht f ltac:(lia)). by rewrite <- app_assoc in Ht.
Qed.

Lemma reads_pairs m :
  Forall (fun p => Z.of_nat (length p.1) < 2 ^ 32 /\
            stable (fun f => readValue f Value_default) (enc p.2) (canon p.2)) m ->
  forall acc out, stable (fun f => readMap f (Z.of_nat (length m)) acc out)
    (concat (List.map enc_pair m))
    (set_map (set_type out MAP) (acc ++ List.map (fun p => (p.1, canon p.2)) m)).
Proof.
  induction 1 as [|[k x] t [Hk [f1 Hx]] _ IH]; intros acc out.
  - exists 1%nat. intros [|f] Hf; [lia|]. simpl. rewrite app_nil_r. apply decodes_ret.
  - simpl in Hk. destruct (IH (acc ++ [(k, canon x)]) out) as [f2 Ht]. exists (S (S (f1 + f2))).
    intros [|[|f]] Hf; [lia|lia|]. remember (S f) as f' eqn:Ef. cbn [readMap].
    destruct (Z.leb_spec (Z.of_nat (length ((k, x) :: t))) 0) as [Hl|_]; [simpl in Hl; lia|].
    unfold enc_pair at 1. simpl concat. rewrite <- app_assoc.
    eapply decodes_bind; [reflexivity|rewrite Ef; by apply reads_str|]. cbv beta.
    rewrite decide_True by done. simpl str.
    eapply decodes_bind; [reflexivity|apply Hx; lia|]. cbv beta.
    replace (Z.of_nat (length ((k, x) :: t)) - 1) with (Z.of_nat (length t)) by (simpl; lia).
    specialize (Ht f' ltac:(lia)). by rewrite <- app_assoc in Ht.
Qed.

(** The round trip, for enough fuel. *)
Lemma reads_enc v : wf v -> stable (fun f => readValue f Value_default) (enc v) (canon v).
Proof.
  induction v as [ty i u f bb s bn a m IHa IHm] using Value_nested_ind.
  intros Hwf. destruct ty; simpl in Hwf |- *.
  1-8: exists 1%nat; intros [|f'] Hf; [lia|].
  - tag_branch 0xc0 (ret Value_default). apply decodes_ret.
  - unfold enc. simpl. destruct bb.
    + tag_branch 0xc3 (ret (ValueBool true)). apply decodes_ret.
    + tag_branch 0xc2 (ret (ValueBool false)). apply decodes_ret.
  - by apply decodes_int.
  - by apply reads_uint.
  - by apply decodes_double.
  - by apply decodes_double.
  - by apply reads_str.
  - done.
  - destruct Hwf as [Hlen Hall]. rewrite enc_array.
    assert (Hs : Forall (fun v => stable (fun f => readValue f Value_default) (enc v) (canon v)) a).
    { clear Hlen. induction IHa; constructor; destruct Hall; auto. }
    destruct (reads_items a Hs [] Value_default) as [f0 H0]. exists (S f0).
    intros [|f'] Hf; [lia|]. apply reads_array_header; [lia|]. apply H0. lia.
  - destruct Hwf as [Hlen Hall]. rewrite enc_map.
    assert (Hs : Forall (fun p => Z.of_nat (length p.1) < 2 ^ 32 /\
       stable (fun f => readValue f Value_default) (enc p.2) (canon p.2)) m).
    { clear Hlen. induction IHm as [|p t Hp]; constructor; destruct Hall as [[? ?] ?]; auto. }
    destruct (reads_pairs m Hs [] Value_default) as [f0 H0]. exists (S f0).
    intros [|f'] Hf; [lia|]. apply reads_map_header; [lia|]. apply H0. lia.
Qed.

(** ** Totality: every call returns, inside the buffer

    [progress k r x]: the result [x] of a call on [r] is a verdict (no
    access outside the buffer, no exhausted fuel); if it is [true] the
    cursor moved by at least [k] and stayed in the buffer. *)
Definition progress {A} (k : nat) (r : Reader) (x : rres A) : Prop :=
  match x with
  | Ret _ r' => data r' = data r /\ (pos r + k <= pos r' <= size r)%nat
  | RFalse r' => data r' = data r
  | Oob | NoFuel => False
  end.

Lemma progress_ret {A} (x : A) r : (pos r <= size r)%nat -> progress 0 r (ret x r).
Proof. unfold ret. simpl. split; [done|lia]. Qed.

Lemma progress_weaken {A} k k' r (x : rres A) : (k' <= k)%nat -> progress k r x -> progress k' r x.
Proof. destruct x; simpl; try done. intros ? [? ?]. split; [done|lia]. Qed.

Lemma progress_bind {A B} (m : M A) (k : A -> M B) k1 k2 r :
  progress k1 r (m r) ->
  (forall x r', data r' = data r -> (pos r + k1 <= pos r' <= size r')%nat ->
     progress k2 r' (k x r')) ->
  progress (k1 + k2) r (bind m k r).
Proof.
  unfold bind. intros Hm Hk. destruct (m r) as [x r'|r'| |]; simpl in Hm; try done.
  destruct Hm as [Hd Hp]. assert (size r' = size r) as Hs by (unfold size; by rewrite Hd).
  specialize (Hk x r' Hd ltac:(lia)). destruct (k x r'); simpl in *; try done.
  - destruct Hk. split; [congruence|lia].
  - congruence.
Qed.

Lemma progress_false {A} k r : progress (A:=A) k r (fail_false r).
Proof. done. Qed.

(** A fixed-size read of [n] bytes makes [n] bytes of progress. *)
Ltac fixed_progress :=
  intros; unfold bind, need, byte_at, advance, ret, size in *; repeat case_decide; simpl; [done|];
  repeat (match goal with
  | |- context [ ?d !! (?p + ?i)%nat ] =>
      let x := fresh in let Hx := fresh in
      destruct (lookup_lt_is_Some_2 d (p + i)%nat ltac:(lia)) as [x Hx]; rewrite Hx; simpl
  end); split; [done|unfold size; lia].

Lemma progress_read8 r : (pos r <= size r)%nat -> progress 1 r (read8 r).
Proof. unfold read8. fixed_progress. Qed.
Lemma progress_read16 r : (pos r <= size r)%nat -> progress 2 r (read16 r).
Proof. unfold read16. fixed_progress. Qed.
Lemma progress_read32 r : (pos r <= size r)%nat -> progress 4 r (read32 r).
Proof. unfold read32. fixed_progress. Qed.

Lemma read64_loop_total n i out r : (pos r + i + n <= size r)%nat ->
  exists x, read64_loop n i out r = Ret x r.
Proof.
  revert i out. induction n as [|n IH]; intros i out Hs; simpl; [by eexists|].
  unfold bind, byte_at. destruct (lookup_lt_is_Some_2 (data r) (pos r + i)%nat) as [x Hx].
  { unfold size in Hs. lia. }
  rewrite Hx. apply IH. lia.
Qed.

Lemma progress_read64 r : (pos r <= size r)%nat -> progress 8 r (read64 r).
Proof.
  intros Hp. unfold read64, bind at 1, need. case_decide; [done|]. unfold bind at 1.
  destruct (read64_loop_total 8 0 0 r) as [x Hx]; [lia|]. rewrite Hx.
  simpl. split; [done|]. unfold size in *. simpl. lia.
Qed.

Lemma progress_string n out r : (pos r <= size r)%nat -> progress 0 r (readStringContent n out r).
Proof.
  intros Hp. unfold readStringContent, bind, need, slice, advance, ret.
  repeat case_decide; simpl; try done; try lia. split; [done|]. unfold size in *. simpl. lia.
Qed.

Lemma size_data r r' : data r' = data r -> size r' = size r.
Proof. unfold size. by intros ->. Qed.

(** Close one branch of [readValue]: a plain verdict, a sub-parser, or a
    length field followed by one. *)
Ltac progress_leaf IHa IHm :=
  first [ apply progress_ret; lia | apply progress_false | apply progress_string; lia
        | apply IHa; lia | apply IHm; lia ].
Ltac progress_field IHa IHm :=
  let go L := (eapply progress_weaken; [|eapply progress_bind; [apply L; lia|]]; [apply Nat.le_0_l|];
    intros ? ? ?%size_data ?; progress_leaf IHa IHm) in
  first [ go progress_read8 | go progress_read16 | go progress_read32 | go progress_read64 ].

Lemma total_mutual f :
  (forall out r, (pos r <= size r)%nat -> (2 * (size r - pos r) + 1 <= f)%nat ->
     progress 1 r (readValue f out r)) /\
  (forall n acc out r, (pos r <= size r)%nat -> (2 * (size r - pos r) + 2 <= f)%nat ->
     progress 0 r (readArray f n acc out r)) /\
  (forall n acc out r, (pos r <= size r)%nat -> (2 * (size r - pos r) + 2 <= f)%nat ->
     progress 0 r (readMap f n acc out r)).
Proof.
  induction f as [|f (IHv & IHa & IHm)]; [split; [|split]; intros; lia|].
  split; [|split].
  - intros out r Hp Hf. cbn [readValue]. eapply (progress_bind _ _ 1 0); [by apply progress_read8|].
    intros tag r' Hd%size_data Hp'.
    repeat case_match; first [ progress_leaf IHa IHm | progress_field IHa IHm ].
  - intros n acc out r Hp Hf. cbn [readArray]. case_match; [by apply progress_ret|].
    eapply (progress_weaken (1 + 0)); [lia|]. eapply progress_bind; [apply IHv; lia|].
    intros x r' Hd%size_data Hp'. apply IHa; lia.
  - intros n acc out r Hp Hf. cbn [readMap]. case_match; [by apply progress_ret|].
    eapply (progress_weaken (1 + 0)); [lia|]. eapply progress_bind; [apply IHv; lia|].
    intros x r' Hd%size_data Hp'. case_decide; [|apply progress_false].
    eapply (progress_weaken (1 + 0)); [lia|]. eapply progress_bind; [apply IHv; lia|].
    intros y r'' Hd'%size_data Hp''. apply IHm; lia.
Qed.

(** ** More fuel, or more input behind the cursor, changes nothing *)

(** [m] refines to [m']: same result unless [m] ran out of fuel. *)
Definition fuel_le {A} (m m' : M A) : Prop := forall r, m r = NoFuel \/ m' r = m r.

Lemma fuel_le_refl {A} (m : M A) : fuel_le m m.
Proof. intros r. by right. Qed.
Lemma fuel_le_bind {A B} (m m' : M A) (k k' : A -> M B) :
  fuel_le m m' -> (forall x, fuel_le (k x) (k' x)) -> fuel_le (bind m k) (bind m' k').
Proof.
  intros Hm Hk r. unfold bind. destruct (Hm r) as [->| ->]; [by left|].
  destruct (m r); auto. apply Hk.
Qed.

Lemma fuel_mono f :
  (forall out, fuel_le (readValue f out) (readValue (S f) out)) /\
  (forall n acc out, fuel_le (readArray f n acc out) (readArray (S f) n acc out)) /\
  (forall n acc out, fuel_le (readMap f n acc out) (readMap (S f) n acc out)).
Proof.
  induction f as [|f (IHv & IHa & IHm)]; [split; [|split]; intros; intros ?; by left|].
  split; [|split].
  - intros out. cbn [readValue]. apply fuel_le_bind; [apply fuel_le_refl|]. intros tag.
    repeat case_match; first [ apply fuel_le_refl | apply IHa | apply IHm
      | apply fuel_le_bind; [apply fuel_le_refl|]; intros; first [apply IHa | apply IHm] ].
  - intros. cbn [readArray]. case_match; [apply fuel_le_refl|].
    apply fuel_le_bind; [apply IHv|intros; apply IHa].
  - intros. cbn [readMap]. case_match; [apply fuel_le_refl|].
    apply fuel_le_bind; [apply IHv|]. intros. case_decide; [|apply fuel_le_refl].
    apply fuel_le_bind; [apply IHv|intros; apply IHm].
Qed.

Lemma fuel_enough f g out r : (f <= g)%nat -> readValue f out r <> NoFuel ->
  readValue g out r = readValue f out r.
Proof.
  intros Hfg Hne. induction Hfg as [|g Hfg IH]; [done|].
  destruct (fuel_mono g) as [Hv _]. destruct (Hv out r) as [Heq|Heq]; congruence.
Qed.

(** A successful call does not look behind the bytes it consumed. *)
Definition local {A} (m : M A) : Prop := forall d p x r' e,
  m (MkReader d p) = Ret x r' -> m (MkReader (d ++ e) p) = Ret x (MkReader (data r' ++ e) (pos r')).

Lemma local_ret {A} (x : A) : local (ret x).
Proof. unfold local, ret. intros. by simplify_eq. Qed.
Lemma local_bind {A B} (m : M A) (k : A -> M B) :
  local m -> (forall x, local (k x)) -> local (bind m k).
Proof.
  intros Hm Hk d p x r' e. unfold bind. destruct (m (MkReader d p)) as [y [d1 p1]| | |] eqn:E; try done.
  intros H. rewrite (Hm _ _ _ _ e E). simpl. by apply Hk.
Qed.
Lemma local_fail {A} (m : M A) : (forall r x r', m r <> Ret x r') -> local m.
Proof. intros H d p x r' e E. by apply H in E. Qed.
Lemma local_byte_at i : local (byte_at i).
Proof.
  intros d p x r' e. unfold byte_at. simpl. destruct (d !! (p + i)%nat) eqn:E; [|done].
  intros; simplify_eq. by rewrite (lookup_app_l_Some _ _ _ _ E).
Qed.
Lemma local_need n : local (need n).
Proof.
  intros d p x r' e. unfold need, size. simpl. rewrite length_app.
  repeat case_decide; intros; simplify_eq; try done; lia.
Qed.
Lemma local_advance n : local (advance n).
Proof. unfold local, advance. intros. by simplify_eq. Qed.
Lemma local_slice n : local (slice n).
Proof.
  intros d p x r' e. unfold slice, size. simpl. rewrite length_app.
  repeat case_decide; intros; simplify_eq; try done; [|lia]. simpl.
  rewrite drop_app_le, take_app_le; [done|rewrite length_drop; lia|lia].
Qed.
Lemma local_read64_loop n i out : local (read64_loop n i out).
Proof.
  revert i out. induction n as [|n IH]; intros; simpl; [apply local_ret|].
  apply local_bind; [apply local_byte_at|intros; apply IH].
Qed.

Create HintDb local_read discriminated.
#[local] Hint Resolve local_ret local_byte_at local_need local_advance local_slice
  local_read64_loop : local_read.
Ltac local_binds :=
  repeat first [ solve [eauto with local_read] | apply local_bind; [solve [eauto with local_read]|intros] ].

Lemma local_read8 : local read8. Proof. unfold read8. local_binds. Qed.
Lemma local_read16 : local read16. Proof. unfold read16. local_binds. Qed.
Lemma local_read32 : local read32. Proof. unfold read32. local_binds. Qed.
Lemma local_read64 : local read64. Proof. unfold read64. local_binds. Qed.
Lemma local_string n out : local (readStringContent n out).
Proof. unfold readStringContent. local_binds. Qed.
Lemma local_false {A} : local (A:=A) fail_false.
Proof. by apply local_fail. Qed.
#[local] Hint Resolve local_read8 local_read16 local_read32 local_read64 local_string
  local_false : local_read.

Lemma local_mutual f :
  (forall out, local (readValue f out)) /\
  (forall n acc out, local (readArray f n acc out)) /\
  (forall n acc out, local (readMap f n acc out)).
Proof.
  induction f as [|f (IHv & IHa & IHm)]; [split; [|split]; intros; by apply local_fail|].
  split; [|split].
  - intros out. cbn [readValue]. apply local_bind; [apply local_read8|]. intros tag.
    repeat case_match; first [ solve [eauto with local_read] | apply IHa | apply IHm
      | apply local_bind; [solve [eauto with local_read]|]; intros;
        first [ solve [eauto with local_read] | apply IHa | apply IHm ] ].
  - intros. cbn [readArray]. case_match; [apply local_ret|].
    apply local_bind; [apply IHv|intros; apply IHa].
  - intros. cbn [readMap]. case_match; [apply local_ret|].
    apply local_bind; [apply IHv|]. intros. case_decide; [|apply local_false].
    apply local_bind; [apply IHv|intros; apply IHm].
Qed.

(** ** Properties *)

Lemma parse_total bytes : progress 1 (MkReader bytes 0) (parse bytes).
Proof. unfold parse. apply (proj1 (total_mutual _)); unfold fuel_for; simpl; lia. Qed.

(** [parse] agrees with [readValue] at any sufficient fuel. *)
Lemma parse_stable bytes v f0 :
  (forall f, (f0 <= f)%nat -> readValue f Value_default (MkReader bytes 0) = v) -> parse bytes = v.
Proof.
  intros H. set (g := Nat.max f0 (fuel_for (MkReader bytes 0))).
  rewrite <- (H g) by lia. symmetry. apply fuel_enough; [lia|].
  pose proof (parse_total bytes) as Ht. unfold parse in Ht.
  destruct (readValue _ _ _); done.
Qed.

Lemma parse_enc v rest : wf v -> parse (enc v ++ rest) = Ret (canon v) (MkReader (enc v ++ rest) (length (enc v))).
Proof.
  intros Hwf. destruct (reads_enc v Hwf) as [f0 H]. apply (parse_stable _ _ f0).
  intros f Hf. apply (H f Hf (enc v ++ rest) 0%nat rest); [lia|done].
Qed.



(** Truncation is detected: no strict prefix of an encoding parses. *)
Theorem parse_truncated v n : wf v -> (n < length (writeValue [] v))%nat ->
  exists r, parse (take n (writeValue [] v)) = RFalse r.
Proof.
  intros Hwf Hn. pose proof (parse_total (take n (writeValue [] v))) as Ht.
  destruct (parse (take n (writeValue [] v))) as [x r|r| |] eqn:E; try done; [|by eexists].
  exfalso. simpl in Ht. destruct Ht as [Hd Hp]. unfold size in Hp. simpl in Hp.
  rewrite length_take in Hp.
  destruct (reads_enc v Hwf) as [f0 H].
  unfold parse in E. set (g := fuel_for (MkReader (take n (writeValue [] v)) 0)) in E.
  assert (E' : readValue (Nat.max f0 g) Value_default (MkReader (take n (writeValue [] v)) 0) = Ret x r).
  { rewrite <- E. apply fuel_enough; [lia|]. by rewrite E. }
  apply (proj1 (local_mutual _) _ _ _ _ _ (drop n (writeValue [] v))) in E'.
  rewrite take_drop in E'.
  rewrite (H (Nat.max f0 g) ltac:(lia) _ 0%nat []) in E'; [|lia|unfold enc; by rewrite app_nil_r].
  injection E' as _ Hd' Hp'. unfold enc in Hp'. lia.
Qed.

(** BIN values do not round-trip: every blob the writer emits is refused
    by the reader, which has no case for the tags 0xc4, 0xc5 and 0xc6. *)
Theorem parse_binary x rest : exists r, parse (writeBinary [] x ++ rest) = RFalse r.
Proof.
  assert (H : exists t tl, writeBinary [] x = t :: tl /\ (t = 0xc4 \/ t = 0xc5 \/ t = 0xc6)).
  { unfold writeBinary. cbv zeta. repeat case_match; writer_norm; do 2 eexists; (split; [reflexivity|auto]). }
  destruct H as (t & tl & -> & Ht). unfold parse, fuel_for. rewrite Nat.add_comm. simpl Nat.add.
  cbn [readValue]. unfold bind at 1.
  rewrite (reads_read8 t _ 0%nat (tl ++ rest)); [|lia|done].
  destruct Ht as [->|[->| ->]]; by eexists.
Qed.

(** A map looked up after [set] gives the new value at that key and the
    old one at any other, whatever kind of value it was before. *)
Theorem get_set v key key' val :
  get (set v key val) key' =
  if decide (key' = key) then Some val
  else if decide (type v = MAP) then get v key' else map_find (map v) key'.
Proof.
  unfold get, set. assert (Hput : forall m, map_find (map_put m key val) key' =
    if decide (key' = key) then Some val else map_find m key').
  { induction m as [|p t IH]; simpl; repeat case_decide; simpl;
      repeat case_decide; congruence || done. }
  destruct (decide (type v = MAP)) as [E|E]; simpl; rewrite ?E, Hput; simpl.
  all: repeat case_decide; done.
Qed.

(** ** Instances *)

Definition sample : Value :=
  set (set makeMap [105; 100] (ValueInt (-7))) [120; 115]
    (push (push makeArray (ValueStr [97; 98])) (ValueBool true)).


Lemma parse_truncated_witness : exists r, parse (take 9 (writeValue [] sample)) = RFalse r.
Proof.
  apply (parse_truncated sample 9); [|vm_compute; lia]. split; [reflexivity|].
  split; [split; [reflexivity|split; discriminate || reflexivity]|].
  repeat split; reflexivity.
Defined.

End Msgpack.
