(* ===== verification/HashCrc.v ===== *)
(** * Checksums and hexadecimal output (engine/utils/pi_hash.cpp)

    [ToHex], the two table-driven CRCs and Adler-32.  A data pointer is an
    [option] of the bytes it points to ([None] is the null pointer), and
    [size] bytes of it are processed. *)
From S2P Require Import Prelude.
Local Open Scope cint_scope.

Module Checksum.

(** ** ToHex *)
Definition hexLower : list Z :=
  [48; 49; 50; 51; 52; 53; 54; 55; 56; 57; 97; 98; 99; 100; 101; 102].
Definition hexUpper : list Z :=
  [48; 49; 50; 51; 52; 53; 54; 55; 56; 57; 65; 66; 67; 68; 69; 70].

Definition hex_digit (hex : list Z) (i : Z) : Z := nth (Z.to_nat i) hex 0.

Definition ToHex (data : list Z) (uppercase : bool) : list Z :=
  let hex := if uppercase then hexUpper else hexLower in
  flat_map (fun x => [hex_digit hex ((x >> 4) & 0x0F); hex_digit hex (x & 0x0F)]) data.

(** ** CRC tables

    [CrcTable<Poly>]: 256 entries, eight conditional shifts each. *)
Definition crc_bit (Poly c : Z) : Z :=
  if Z.odd c then Poly .^ (c >> 1) else c >> 1.
Definition crc_entry (Poly i : Z) : Z := Nat.iter 8 (crc_bit Poly) i.
Definition CrcTable (Poly : Z) : list Z := List.map (crc_entry Poly) (seqZ 0 256).

Definition kCrc32Poly : Z := 0xEDB88320.
Definition kCrc32cPoly : Z := 0x82F63B78.
Definition kCrc32Table : list Z := CrcTable kCrc32Poly.
Definition kCrc32cTable : list Z := CrcTable kCrc32cPoly.

Definition not32 (x : Z) : Z := x .^ 0xFFFFFFFF.

(** One iteration of [while (size--)]. *)
Definition crc_step (table : list Z) (crc x : Z) : Z :=
  nth (Z.to_nat ((crc .^ x) & 0xFF)) table 0 .^ (crc >> 8).

Definition crc_run (table : list Z) (data : option (list Z)) (size : nat) (prev : Z) : Z :=
  match data with
  | None => if (0 <? size)%nat then 0 else not32 (not32 prev)
  | Some p => not32 (fold_left (crc_step table) (take size p) (not32 prev))
  end.

Definition Crc32 (data : option (list Z)) (size : nat) (prev : Z) : Z :=
  crc_run kCrc32Table data size prev.
Definition Crc32c (data : option (list Z)) (size : nat) (prev : Z) : Z :=
  crc_run kCrc32cTable data size prev.

(** ** Adler-32

    The sums are 32-bit and reduced once per chunk of at most 5552 bytes. *)
Definition adler_byte (ab : Z * Z) (x : Z) : Z * Z :=
  let a := U32 (ab.1 + x) in (a, U32 (ab.2 + a)).

Definition adler_chunk (ab : Z * Z) (chunk : list Z) : Z * Z :=
  let ab := fold_left adler_byte chunk ab in (ab.1 mod 65521, ab.2 mod 65521).

(** [while (size > 0)]; [fuel] bounds the number of chunks. *)
Fixpoint adler_loop (fuel : nat) (ab : Z * Z) (buf : list Z) : Z * Z :=
  match fuel with
  | O => ab
  | S f =>
      match buf with
      | [] => ab
      | _ =>
          let size := Z.of_nat (length buf) in
          let tlen := Z.to_nat (if 5552 <? size then 5552 else size) in
          adler_loop f (adler_chunk ab (take tlen buf)) (drop tlen buf)
      end
  end.

Definition Adler32 (data : option (list Z)) (size : nat) (prev : Z) : Z :=
  match data with
  | None => if (0 <? size)%nat then 1
            else ((prev >> 16) & 0xffff) << 16 .| (prev & 0xffff)
  | Some p =>
      let ab := adler_loop size (prev & 0xffff, (prev >> 16) & 0xffff) (take size p) in
      U32 (ab.2 << 16) .| ab.1
  end.

(** ** Reference definitions *)

(** A CRC is the remainder of the message bit by bit: eight [crc_bit] steps
    per byte, without a table. *)
Definition crc_byte_ref (Poly crc x : Z) : Z := Nat.iter 8 (crc_bit Poly) (crc .^ x).
Definition crc_ref (Poly : Z) (l : list Z) (crc : Z) : Z := fold_left (crc_byte_ref Poly) l crc.

(** Adler-32 as RFC 1950 states it: both sums reduced at every byte. *)
Definition adler_ref_step (ab : Z * Z) (x : Z) : Z * Z :=
  let a := (ab.1 + x) mod 65521 in (a, (ab.2 + a) mod 65521).
Definition adler_ref (l : list Z) (a b : Z) : Z * Z := fold_left adler_ref_step l (a mod 65521, b mod 65521).

Example crc32_check : Crc32 (Some [49;50;51;52;53;54;55;56;57]) 9 0 = 0xcbf43926.
Proof. vm_compute. reflexivity. Qed.
Example crc32c_check : Crc32c (Some [49;50;51;52;53;54;55;56;57]) 9 0 = 0xe3069283.
Proof. vm_compute. reflexivity. Qed.
Example adler_check : Adler32 (Some [87;105;107;105;112;101;100;105;97]) 9 1 = 0x11E60398.
Proof. vm_compute. reflexivity. Qed.

(** ** CRC lemmas *)

Lemma crc_bit_lxor P a b : crc_bit P (a .^ b) = crc_bit P a .^ crc_bit P b.
Proof.
  unfold crc_bit. rewrite <- !Z.bit0_odd, Z.lxor_spec, Z.shiftr_lxor.
  destruct (Z.testbit a 0), (Z.testbit b 0); simpl; try done.
  - rewrite (Z.lxor_comm P (a >> 1)), <- Z.lxor_assoc, (Z.lxor_assoc (a >> 1) P P),
      Z.lxor_nilpotent, Z.lxor_0_r. done.
  - by rewrite Z.lxor_assoc.
  - rewrite <- !Z.lxor_assoc. by rewrite (Z.lxor_comm (a >> 1) P).
Qed.

Lemma crc_bits_lxor P n a b :
  Nat.iter n (crc_bit P) (a .^ b) = Nat.iter n (crc_bit P) a .^ Nat.iter n (crc_bit P) b.
Proof. induction n; simpl; [done|]. by rewrite IHn, crc_bit_lxor. Qed.

(** Low zero bits are just shifted out. *)
Lemma crc_bits_shift P n y : Nat.iter n (crc_bit P) (y << Z.of_nat n) = y.
Proof.
  revert y. induction n as [|n IH]; intros y; [by rewrite Z.shiftl_0_r|].
  rewrite Nat.iter_succ_r. unfold crc_bit at 2. rewrite <- Z.bit0_odd, Z.shiftl_spec_low by lia.
  rewrite Z.shiftr_shiftl_l by lia. replace (Z.of_nat (S n) - 1) with (Z.of_nat n) by lia. apply IH.
Qed.

Lemma crc_bit_range P c : in_u 32 P -> in_u 32 c -> in_u 32 (crc_bit P c).
Proof. unfold crc_bit. intros. case_match; eauto with cint lia. Qed.

Lemma crc_bits_range P n c : in_u 32 P -> in_u 32 c -> in_u 32 (Nat.iter n (crc_bit P) c).
Proof. intros HP Hc. induction n; simpl; [done|]. by apply crc_bit_range. Qed.

Lemma crc_table_lookup P i : 0 <= i < 256 -> nth (Z.to_nat i) (CrcTable P) 0 = crc_entry P i.
Proof.
  intros Hi. unfold CrcTable. change (List.map (crc_entry P)) with (fmap (M:=list) (crc_entry P)).
  rewrite nth_lookup, list_lookup_fmap, lookup_seqZ_lt by lia. simpl. f_equal. lia.
Qed.

(** The table step is eight bit steps. *)
Lemma crc_step_ref P crc x : in_u 8 x -> crc_step (CrcTable P) crc x = crc_byte_ref P crc x.
Proof.
  intros Hx. unfold crc_step, crc_byte_ref.
  change 0xFF with (2 ^ 8 - 1). rewrite land_mask by lia.
  rewrite crc_table_lookup by (apply wrap_in_u; lia). unfold crc_entry.
  assert (Hs : crc .^ x = U8 (crc .^ x) .^ ((crc >> 8) << 8)).
  { apply Z.bits_inj'. intros i Hi. rewrite !Z.lxor_spec, wrap_spec, Z.lxor_spec, Z.shiftl_spec by lia.
    destruct (Z.ltb_spec i 8).
    - rewrite (Z.testbit_neg_r _ (i - 8)) by lia. by rewrite xorb_false_r.
    - rewrite Z.shiftr_spec, (in_u_testbit 8 x i) by (done || lia).
      replace (i - 8 + 8) with i by lia. by rewrite xorb_false_r, xorb_false_l. }
  rewrite Hs at 2. rewrite crc_bits_lxor. f_equal.
  by rewrite (crc_bits_shift P 8).
Qed.

Lemma crc_fold_ref P l crc : bytes_ok l -> fold_left (crc_step (CrcTable P)) l crc = crc_ref P l crc.
Proof.
  intros Hl. revert crc. induction Hl as [|x t Hx Ht IH]; intros crc; [done|].
  simpl. rewrite crc_step_ref by done. apply IH.
Qed.

Lemma crc_ref_range P l crc : in_u 32 P -> bytes_ok l -> in_u 32 crc -> in_u 32 (crc_ref P l crc).
Proof.
  intros HP Hl. revert crc. induction Hl as [|x t Hx Ht IH]; intros crc Hc; [done|].
  apply IH. apply crc_bits_range; [done|]. apply in_u_lxor; [lia|done|].
  by eapply in_u_mono; [|exact Hx].
Qed.

Lemma not32_involutive x : not32 (not32 x) = x.
Proof. unfold not32. by rewrite Z.lxor_assoc, Z.lxor_nilpotent, Z.lxor_0_r. Qed.
Lemma not32_range x : in_u 32 x -> in_u 32 (not32 x).
Proof. intros. apply in_u_lxor; [lia|done|by compute]. Qed.

(** With the top bit of the polynomial set, a bit step loses nothing. *)
Lemma crc_bit_inj P a b : in_u 32 P -> Z.testbit P 31 = true -> in_u 32 a -> in_u 32 b ->
  crc_bit P a = crc_bit P b -> a = b.
Proof.
  intros HP HP31 Ha Hb H.
  assert (Hodd : forall c, in_u 32 c -> Z.testbit (crc_bit P c) 31 = Z.odd c).
  { intros c Hc. unfold crc_bit. destruct (Z.odd c).
    - by rewrite Z.lxor_spec, HP31, Z.shiftr_spec, (in_u_testbit 32 c) by (done || lia).
    - by rewrite Z.shiftr_spec, (in_u_testbit 32 c) by (done || lia). }
  assert (Ho : Z.odd a = Z.odd b) by (rewrite <- !Hodd by done; by rewrite H).
  assert (Hsh : a >> 1 = b >> 1).
  { unfold crc_bit in H. rewrite Ho in H. destruct (Z.odd b); [|done].
    apply (f_equal (Z.lxor P)) in H. by rewrite <- !Z.lxor_assoc, Z.lxor_nilpotent, !Z.lxor_0_l in H. }
  rewrite (Zdiv2_odd_eqn a), (Zdiv2_odd_eqn b), Ho. by rewrite !Z.div2_spec, Hsh.
Qed.

Lemma crc_bits_inj P n a b : in_u 32 P -> Z.testbit P 31 = true -> in_u 32 a -> in_u 32 b ->
  Nat.iter n (crc_bit P) a = Nat.iter n (crc_bit P) b -> a = b.
Proof.
  intros HP HP31 Ha Hb. induction n as [|n IH]; simpl; [done|]. intros H. apply IH.
  apply (crc_bit_inj P); try done; by apply crc_bits_range.
Qed.

Lemma lxor_cancel_l a b c : a .^ b = a .^ c -> b = c.
Proof.
  intros H%(f_equal (Z.lxor a)).
  by rewrite <- !Z.lxor_assoc, Z.lxor_nilpotent, !Z.lxor_0_l in H.
Qed.
Lemma lxor_cancel_r a b c : a .^ c = b .^ c -> a = b.
Proof. rewrite (Z.lxor_comm a), (Z.lxor_comm b). apply lxor_cancel_l. Qed.

Lemma crc_byte_in_u crc x : in_u 32 crc -> in_u 8 x -> in_u 32 (crc .^ x).
Proof. intros. apply in_u_lxor; [lia|done|]. by eapply in_u_mono; [|eassumption]. Qed.

(** Different registers stay different over the same bytes. *)
Lemma crc_ref_inj P l a b : in_u 32 P -> Z.testbit P 31 = true -> bytes_ok l ->
  in_u 32 a -> in_u 32 b -> crc_ref P l a = crc_ref P l b -> a = b.
Proof.
  intros HP HP31 Hl. revert a b. induction Hl as [|x t Hx Ht IH]; intros a b Ha Hb H; [done|].
  apply (lxor_cancel_r _ _ x), (crc_bits_inj P 8); try done; try by apply crc_byte_in_u.
  apply IH; [| |done]; apply crc_bits_range; try done; by apply crc_byte_in_u.
Qed.

Lemma crc_ref_app P l1 l2 crc : crc_ref P (l1 ++ l2) crc = crc_ref P l2 (crc_ref P l1 crc).
Proof. apply fold_left_app. Qed.

(** Every reader of a whole buffer goes through this form. *)
Lemma crc_run_full P l prev : bytes_ok l ->
  crc_run (CrcTable P) (Some l) (length l) prev = not32 (crc_ref P l (not32 prev)).
Proof. intros. unfold crc_run. by rewrite firstn_all, crc_fold_ref. Qed.

Lemma kCrc_ok P : P = kCrc32Poly \/ P = kCrc32cPoly -> in_u 32 P /\ Z.testbit P 31 = true.
Proof. intros [->| ->]; split; done. Qed.

(** ** Adler-32 lemmas *)

(** The classical bound: with both sums below 2^16, 5552 bytes cannot
    overflow 32 bits.  [n] bytes move [a] by at most [255 n]. *)
Lemma adler_no_overflow l a b :
  bytes_ok l -> Z.of_nat (length l) <= 5552 -> 0 <= a -> 0 <= b ->
  let n := Z.of_nat (length l) in
  a + 255 * n < 2 ^ 32 -> 2 * b + 2 * n * a + 255 * n * (n + 1) < 2 ^ 33 ->
  exists a' b', fold_left adler_byte l (a, b) = (a', b') /\
    a' mod 65521 = (fold_left adler_ref_step l (a mod 65521, b mod 65521)).1 /\
    b' mod 65521 = (fold_left adler_ref_step l (a mod 65521, b mod 65521)).2.
Proof.
  intros Hl. revert a b. induction Hl as [|x t Hx Ht IH]; intros a b Hlen Ha Hb n Han Hbn.
  - exists a, b. simpl. done.
  - unfold in_u in Hx. change (2 ^ 8) with 256 in Hx.
    assert (Hn : n = Z.of_nat (length t) + 1) by (unfold n; simpl; lia).
    set (m := Z.of_nat (length t)) in *. assert (0 <= m) by (unfold m; lia).
    simpl fold_left. unfold adler_byte at 2, adler_ref_step at 2 4. cbn [fst snd].
    rewrite (wrap_small 32 (a + x)) by (unfold in_u; nia).
    rewrite (wrap_small 32 (b + (a + x))) by (unfold in_u; nia).
    rewrite Zplus_mod_idemp_l, <- (Zplus_mod (b) (a + x)).
    apply IH; fold m; [lia|lia|lia|nia|nia].
Qed.

Lemma adler_ref_range l a b :
  0 <= (adler_ref l a b).1 < 65521 /\ 0 <= (adler_ref l a b).2 < 65521.
Proof.
  unfold adler_ref. pose proof (Z.mod_pos_bound a 65521 eq_refl). pose proof (Z.mod_pos_bound b 65521 eq_refl).
  revert H H0. generalize (a mod 65521) (b mod 65521). clear.
  induction l as [|x t IH]; intros a b Ha Hb; [done|]. simpl. unfold adler_ref_step at 2 4. simpl.
  apply IH; by apply Z.mod_pos_bound.
Qed.

Lemma adler_ref_step_small ab l : 0 <= ab.1 < 65521 -> 0 <= ab.2 < 65521 ->
  fold_left adler_ref_step l ab = adler_ref l ab.1 ab.2.
Proof. intros. unfold adler_ref. destruct ab. simpl in *. by rewrite !Z.mod_small by lia. Qed.

Lemma adler_ref_app l1 l2 a b :
  adler_ref (l1 ++ l2) a b = adler_ref l2 (adler_ref l1 a b).1 (adler_ref l1 a b).2.
Proof.
  unfold adler_ref at 1. rewrite fold_left_app. fold (adler_ref l1 a b).
  apply adler_ref_step_small; apply adler_ref_range.
Qed.

Lemma adler_chunk_ref l a b :
  bytes_ok l -> Z.of_nat (length l) <= 5552 -> 0 <= a < 2 ^ 16 -> 0 <= b < 2 ^ 16 ->
  adler_chunk (a, b) l = adler_ref l a b.
Proof.
  intros Hl Hlen Ha Hb. unfold adler_chunk.
  destruct (adler_no_overflow l a b) as (a' & b' & -> & Ha' & Hb'); try lia; try done; [nia|].
  simpl. rewrite Ha', Hb'. fold (adler_ref l a b). by destruct (adler_ref l a b).
Qed.

Lemma adler_loop_ref fuel l a b :
  bytes_ok l -> (length l <= fuel)%nat -> l <> [] -> 0 <= a < 2 ^ 16 -> 0 <= b < 2 ^ 16 ->
  adler_loop fuel (a, b) l = adler_ref l a b.
Proof.
  revert l a b. induction fuel as [|f IH]; intros l a b Hl Hf Hne Ha Hb.
  { destruct l; simpl in *; [done|lia]. }
  cbn [adler_loop]. destruct l as [|x t] eqn:El; [done|]. rewrite <- El in *. clear El.
  set (n := Z.to_nat _). assert (Hn : (0 < n <= length l)%nat /\ Z.of_nat n <= 5552).
  { assert (length l <> 0)%nat by (destruct l; simpl; congruence). unfold n. case_match; lia. }
  rewrite <- (take_drop n l) at 3. rewrite adler_ref_app.
  rewrite adler_chunk_ref; [|by apply Forall_take|rewrite length_take; lia|done|done].
  destruct (adler_ref_range (take n l) a b) as [Hra Hrb].
  destruct (adler_ref (take n l) a b) as [a1 b1]. simpl in *.
  destruct (decide (drop n l = [])) as [->|Hd].
  - rewrite adler_ref_step_small || idtac. destruct f; simpl; unfold adler_ref; simpl; by rewrite !Z.mod_small by lia.
  - apply IH; [by apply Forall_drop|rewrite length_drop; lia|done|lia|lia].
Qed.

(** ** Properties *)

(** The table-driven CRC-32 and CRC-32C are the bit-serial CRC of the
    message: one [crc_bit] step per message bit, inverted at both ends. *)
Theorem crc_tables_correct l prev : bytes_ok l -> in_u 32 prev ->
  Crc32 (Some l) (length l) prev = not32 (crc_ref kCrc32Poly l (not32 prev)) /\
  Crc32c (Some l) (length l) prev = not32 (crc_ref kCrc32cPoly l (not32 prev)) /\
  in_u 32 (Crc32 (Some l) (length l) prev) /\ in_u 32 (Crc32c (Some l) (length l) prev).
Proof.
  intros Hl Hp. unfold Crc32, Crc32c. rewrite (crc_run_full kCrc32Poly), (crc_run_full kCrc32cPoly) by done.
  split_and!; try done; apply not32_range, crc_ref_range; try done; by apply not32_range.
Qed.

(** Feeding a message in two pieces, with the first result as [prev] of
    the second call, gives the CRC of the whole message. *)
Theorem crc_chaining l1 l2 prev : bytes_ok l1 -> bytes_ok l2 ->
  Crc32 (Some (l1 ++ l2)) (length (l1 ++ l2)) prev =
    Crc32 (Some l2) (length l2) (Crc32 (Some l1) (length l1) prev) /\
  Crc32c (Some (l1 ++ l2)) (length (l1 ++ l2)) prev =
    Crc32c (Some l2) (length l2) (Crc32c (Some l1) (length l1) prev).
Proof.
  intros H1 H2. assert (bytes_ok (l1 ++ l2)) by (by apply Forall_app).
  unfold Crc32, Crc32c. rewrite !(crc_run_full kCrc32Poly), !(crc_run_full kCrc32cPoly) by done.
  by rewrite !crc_ref_app, !not32_involutive.
Qed.

(** Replacing one byte of a message always changes its CRC-32 and its
    CRC-32C. *)
Theorem crc_detects_byte l1 x y l2 prev :
  bytes_ok l1 -> bytes_ok l2 -> in_u 8 x -> in_u 8 y -> in_u 32 prev -> x <> y ->
  let m := l1 ++ x :: l2 in let m' := l1 ++ y :: l2 in
  Crc32 (Some m) (length m) prev <> Crc32 (Some m') (length m') prev /\
  Crc32c (Some m) (length m) prev <> Crc32c (Some m') (length m') prev.
Proof.
  intros H1 H2 Hx Hy Hp Hne m m'.
  assert (bytes_ok m /\ bytes_ok m') as [Hm Hm'] by (split; apply Forall_app; auto).
  unfold Crc32, Crc32c. rewrite !(crc_run_full kCrc32Poly), !(crc_run_full kCrc32cPoly) by done.
  assert (Hgen : forall P, P = kCrc32Poly \/ P = kCrc32cPoly ->
    not32 (crc_ref P m (not32 prev)) <> not32 (crc_ref P m' (not32 prev))).
  { intros P [HP HP31]%kCrc_ok Heq. apply (f_equal not32) in Heq. rewrite !not32_involutive in Heq.
    unfold m, m' in Heq. rewrite !crc_ref_app in Heq. set (c := crc_ref P l1 (not32 prev)) in Heq.
    assert (Hc : in_u 32 c) by (apply crc_ref_range; [done|done|by apply not32_range]).
    simpl in Heq. apply crc_ref_inj in Heq; try done;
      [|apply crc_bits_range; [done|by apply crc_byte_in_u]..].
    apply crc_bits_inj in Heq; try done; try by apply crc_byte_in_u.
    by apply lxor_cancel_l in Heq. }
  auto.
Qed.

Lemma adler32_spec l prev : bytes_ok l -> l <> [] -> in_u 32 prev ->
  let ab := adler_ref l (prev mod 2 ^ 16) (prev / 2 ^ 16) in
  Adler32 (Some l) (length l) prev = ab.2 * 2 ^ 16 + ab.1.
Proof.
  intros Hl Hne Hp ab. unfold Adler32, in_u in *.
  assert (Hq : 0 <= prev / 2 ^ 16 < 2 ^ 16)
    by (split; [apply Z.div_pos; lia|apply Z.div_lt_upper_bound; lia]). rewrite firstn_all.
  change 0xffff with (2 ^ 16 - 1). rewrite !land_mask by lia.
  rewrite Z.shiftr_div_pow2 by lia. rewrite (wrap_small 16 (prev / 2 ^ 16)) by done.
  rewrite adler_loop_ref; [|done|lia|done|by apply wrap_in_u|done].
  fold ab. pose proof (adler_ref_range l (prev mod 2 ^ 16) (prev / 2 ^ 16)) as [Ha Hb].
  fold ab in Ha, Hb. change (wrap 16 prev) with (prev mod 2 ^ 16). fold ab.
  rewrite (wrap_small 32) by (unfold in_u; rewrite Z.shiftl_mul_pow2; lia).
  apply lor_shiftl_add; unfold in_u; lia.
Qed.

(** Adler-32 with its sums reduced once per 5552 bytes equals the
    RFC 1950 definition that reduces them at every byte; no 32-bit addition
    in between wraps around, for any starting checksum; feeding a message in
    two pieces gives the checksum of the whole. *)
Theorem adler32_correct l prev : bytes_ok l -> l <> [] -> in_u 32 prev ->
  let ab := adler_ref l (prev mod 2 ^ 16) (prev / 2 ^ 16) in
  Adler32 (Some l) (length l) prev = ab.2 * 2 ^ 16 + ab.1 /\
  (forall l2, bytes_ok l2 -> l2 <> [] ->
     Adler32 (Some (l ++ l2)) (length (l ++ l2)) prev =
     Adler32 (Some l2) (length l2) (Adler32 (Some l) (length l) prev)).
Proof.
  intros Hl Hne Hp ab. split; [by apply adler32_spec|]. intros l2 Hl2 Hne2.
  assert (Happ : bytes_ok (l ++ l2)) by (by apply Forall_app).
  rewrite (adler32_spec (l ++ l2)), (adler32_spec l), adler_ref_app by (done || by destruct l).
  fold ab. pose proof (adler_ref_range l (prev mod 2 ^ 16) (prev / 2 ^ 16)) as [Ha Hb]. fold ab in Ha, Hb.
  rewrite adler32_spec by (done || unfold in_u; lia).
  assert (Hm : (ab.2 * 2 ^ 16 + ab.1) mod 2 ^ 16 = ab.1).
  { rewrite Z.add_comm, Z.mod_add by done. apply Z.mod_small. lia. }
  assert (Hd : (ab.2 * 2 ^ 16 + ab.1) / 2 ^ 16 = ab.2).
  { rewrite Z.div_add_l, (Z.div_small ab.1) by lia. lia. }
  by rewrite Hm, Hd.
Qed.

Lemma hex_digit_inj (up : bool) i j : 0 <= i < 16 -> 0 <= j < 16 ->
  hex_digit (if up then hexUpper else hexLower) i =
  hex_digit (if up then hexUpper else hexLower) j -> i = j.
Proof.
  intros Hi Hj.
  enough (H : Forall (fun j => hex_digit (if up then hexUpper else hexLower) i =
    hex_digit (if up then hexUpper else hexLower) j -> i = j) (seqZ 0 16)).
  { rewrite List.Forall_forall in H. apply H, list_elem_of_In, elem_of_seqZ. lia. }
  clear j Hj. destruct up; range_check 0 16.
Qed.

Lemma nibbles x : in_u 8 x -> 0 <= (x >> 4) & 0x0F < 16 /\ 0 <= x & 0x0F < 16 /\
  x = ((x >> 4) & 0x0F) * 16 + (x & 0x0F).
Proof. unfold in_u. intros Hx. range_check 0 256. Qed.

(** [ToHex] is lossless: two digits per byte, and the digits determine
    the bytes. *)
Theorem ToHex_injective l1 l2 up : bytes_ok l1 -> bytes_ok l2 ->
  length (ToHex l1 up) = (2 * length l1)%nat /\ (ToHex l1 up = ToHex l2 up -> l1 = l2).
Proof.
  intros H1 H2. split.
  { clear. unfold ToHex. induction l1; simpl; [done|]. unfold ToHex in *. simpl in *. lia. }
  revert l2 H2. induction H1 as [|x t Hx Ht IH]; intros l2 H2 Heq; destruct H2 as [|y u Hy Hu]; try done.
  unfold ToHex in Heq. simpl in Heq. injection Heq as Ha Hb Hc. f_equal; [|by apply IH].
  destruct (nibbles x Hx) as (?&?&->), (nibbles y Hy) as (?&?&->).
  apply (hex_digit_inj up) in Ha, Hb; [|done..]. by rewrite Ha, Hb.
Qed.

(** ** Instances *)

Lemma crc_tables_correct_witness :
  Crc32 (Some [1; 2]) 2 0 = not32 (crc_ref kCrc32Poly [1; 2] (not32 0)).
Proof. apply (crc_tables_correct [1; 2] 0); [repeat constructor|]; done. Defined.

Lemma crc_chaining_witness :
  Crc32 (Some [1; 2]) 2 0 = Crc32 (Some [2]) 1 (Crc32 (Some [1]) 1 0).
Proof. apply (crc_chaining [1] [2] 0); repeat constructor; done. Defined.

Lemma crc_detects_byte_witness : Crc32 (Some [1; 2; 3]) 3 0 <> Crc32 (Some [1; 9; 3]) 3 0.
Proof. apply (crc_detects_byte [1] 2 9 [3] 0); repeat constructor; done. Defined.

Lemma adler32_correct_witness :
  Adler32 (Some [97; 98; 99]) 3 1 = let ab := adler_ref [97; 98; 99] 1 0 in ab.2 * 2 ^ 16 + ab.1.
Proof.
  destruct (adler32_correct [97; 98; 99] 1) as [H _]; [by repeat constructor|done|done|exact H].
Defined.

Lemma ToHex_injective_witness : ToHex [0xab; 1] false <> ToHex [0xab; 2] false.
Proof.
  intros H. assert ([0xab; 1] = [0xab; 2]); [|done].
  eapply (ToHex_injective [0xab; 1] [0xab; 2] false); [repeat constructor; done..|exact H].
Defined.

End Checksum.
