(* ===== verification/HashBlock.v ===== *)
(** * Block digests: the shared buffering discipline

    The three digests of engine/utils/pi_hash.cpp keep a chaining state, a
    length counter and a 64-byte buffer.  This file holds what they share:
    the 32-bit operations, the block loop, the abstract meaning of a context
    ([absorb]) and the interface [Streaming] that each implementation
    instantiates and its finalisation is proved against. *)
From S2P Require Import Prelude.
Local Open Scope cint_scope.

Module Block.

(** ** 32-bit words *)
Definition inv32 (x : Z) : Z := x .^ 0xFFFFFFFF.
Definition RotL (x n : Z) : Z := U32 (x << n) .| (x >> (32 - n)).
Definition RotR (x n : Z) : Z := (x >> n) .| U32 (x << (32 - n)).

(** The big- and little-endian words of a block, four bytes each. *)
Definition word_le (block : list Z) (i : nat) : Z :=
  let byte k := nth (4 * i + k) block 0 in
  byte 0%nat .| (byte 1%nat << 8) .| (byte 2%nat << 16) .| (byte 3%nat << 24).
Definition word_be (block : list Z) (i : nat) : Z :=
  let byte k := nth (4 * i + k) block 0 in
  (byte 0%nat << 24) .| (byte 1%nat << 16) .| (byte 2%nat << 8) .| byte 3%nat.

(** [memcpy(&buf[off], src, |src|)] *)
Definition memcpy_at (buf : list Z) (off : nat) (src : list Z) : list Z :=
  take off buf ++ src ++ drop (off + length src) buf.

Section Absorb.
Context {St : Type} (Transform : St -> list Z -> St).

(** [for (; i + 63 < len; i += 64) Transform(state, &data[i]);] *)
Fixpoint transform_loop (fuel : nat) (st : St) (data : list Z) (i : nat) : St * nat :=
  match fuel with
  | O => (st, i)
  | S f =>
      if decide (i + 63 < length data)%nat
      then transform_loop f (Transform st (take 64 (drop i data))) data (i + 64)
      else (st, i)
  end.

(** ** Meaning: the chaining value after the full blocks, and the rest. *)
Fixpoint blocks (fuel : nat) (st : St) (l : list Z) : St * list Z :=
  match fuel with
  | O => (st, l)
  | S f =>
      if decide (64 <= length l)%nat then blocks f (Transform st (take 64 l)) (drop 64 l)
      else (st, l)
  end.
Definition absorb (st : St) (l : list Z) : St * list Z := blocks (length l) st l.

Lemma blocks_fuel f g st l : (length l <= f)%nat -> (length l <= g)%nat ->
  blocks f st l = blocks g st l.
Proof.
  revert g st l. induction f as [|f IH]; intros [|g] st l Hf Hg; simpl; try done.
  - rewrite decide_False by lia. done.
  - rewrite decide_False by lia. done.
  - case_decide; [|done]. apply IH; rewrite length_drop; lia.
Qed.

Lemma absorb_short st l : (length l < 64)%nat -> absorb st l = (st, l).
Proof. intros. unfold absorb. destruct (length l) eqn:E; simpl; [done|]. by rewrite decide_False by lia. Qed.

Lemma absorb_step st l : (64 <= length l)%nat ->
  absorb st l = absorb (Transform st (take 64 l)) (drop 64 l).
Proof.
  intros Hl. unfold absorb at 1. destruct (length l) as [|n] eqn:E; [lia|]. simpl.
  rewrite decide_True by lia. unfold absorb. apply blocks_fuel; rewrite length_drop; lia.
Qed.

Lemma absorb_app st a b : absorb st (a ++ b) =
  let '(st', t) := absorb st a in absorb st' (t ++ b).
Proof.
  remember (length a) as n eqn:En. revert st a En.
  induction (lt_wf n) as [n _ IH]. intros st a ->.
  destruct (decide (64 <= length a)%nat) as [Hl|Hl].
  - rewrite (absorb_step st a), (absorb_step st (a ++ b)) by (rewrite ?length_app; lia).
    rewrite take_app_le, drop_app_le by lia.
    eapply IH; [|done]. rewrite length_drop. lia.
  - by rewrite (absorb_short st a) by lia.
Qed.

Lemma absorb_tail st l : length (absorb st l).2 = (length l mod 64)%nat.
Proof.
  remember (length l) as n eqn:En. revert st l En.
  induction (lt_wf n) as [n _ IH]. intros st l ->.
  destruct (decide (64 <= length l)%nat) as [Hl|Hl].
  - rewrite absorb_step by lia. rewrite (IH (length (drop 64 l))) by (rewrite ?length_drop; lia).
    rewrite length_drop. set (n := (length l - 64)%nat).
    replace (length l) with (n + 1 * 64)%nat by lia. symmetry. apply Nat.Div0.mod_add.
  - rewrite absorb_short by lia. symmetry. apply (Nat.mod_small (length l)). lia.
Qed.

(** One full block at the front. *)
Lemma absorb_block st blk l : length blk = 64%nat -> absorb st (blk ++ l) = absorb (Transform st blk) l.
Proof.
  intros Hb. rewrite absorb_step by (rewrite length_app; lia).
  by rewrite take_app_le, drop_app_le, firstn_all2, drop_ge, app_nil_l by lia.
Qed.

(** The code's loop is [absorb] on the data from [i] on. *)
Lemma transform_loop_absorb fuel st data i : (length data <= i + fuel)%nat -> (i <= length data)%nat ->
  let '(st', i') := transform_loop fuel st data i in
  absorb st (drop i data) = (st', drop i' data) /\ (i <= i' <= length data)%nat /\
  (length data < i' + 64)%nat.
Proof.
  revert st i. induction fuel as [|f IH]; intros st i Hf Hi; simpl.
  - rewrite drop_ge by lia. rewrite absorb_short by (simpl; lia). split_and!; done || lia.
  - case_decide as Hd.
    + specialize (IH (Transform st (take 64 (drop i data))) (i + 64)%nat ltac:(lia) ltac:(lia)).
      destruct (transform_loop f _ _ _) as [st' i']. destruct IH as (IH & ? & ?).
      rewrite absorb_step by (rewrite length_drop; lia).
      rewrite drop_drop. split_and!; [done|lia|lia|lia].
    + rewrite absorb_short by (rewrite length_drop; lia). split_and!; done || lia.
Qed.

(** *** A buffered context

    [buffered s0 msg st buffer]: [st] and the first [|msg| mod 64] bytes of
    the 64-byte [buffer] represent the message absorbed from [s0]. *)
Definition buffered (s0 : St) (msg : list Z) (st : St) (buffer : list Z) : Prop :=
  length buffer = 64%nat /\ absorb s0 msg = (st, take (length msg mod 64) buffer).

Lemma memcpy_at_length buf off src : (off + length src <= length buf)%nat ->
  length (memcpy_at buf off src) = length buf.
Proof. intros. unfold memcpy_at. rewrite !length_app, length_take, length_drop. lia. Qed.

Lemma memcpy_at_take buf off src : (off <= length buf)%nat ->
  take (off + length src) (memcpy_at buf off src) = take off buf ++ src.
Proof.
  intros. unfold memcpy_at. rewrite app_assoc.
  apply take_app_length'. rewrite length_app, length_take. lia.
Qed.

(** Input that does not fill the buffer is just copied. *)
Lemma buffered_copy s0 msg st buf input :
  buffered s0 msg st buf -> (length msg mod 64 + length input < 64)%nat ->
  buffered s0 (msg ++ input) st (memcpy_at buf (length msg mod 64) input).
Proof.
  intros [Hb Ha] Hl. split; [rewrite memcpy_at_length; lia|].
  rewrite absorb_app, Ha, absorb_short.
  - f_equal. rewrite length_app, <- Nat.Div0.add_mod_idemp_l, (Nat.mod_small (length msg mod 64 + length input)) by lia.
    by rewrite memcpy_at_take by lia.
  - rewrite length_app, length_take. lia.
Qed.

(** Filling the buffer, running the loop, and keeping the rest: the body of
    an update whose input completes a block. *)
Lemma buffered_fill s0 msg st buf input st' i' :
  buffered s0 msg st buf ->
  let idx := (length msg mod 64)%nat in
  (64 - idx <= length input)%nat ->
  transform_loop (length input) (Transform st (memcpy_at buf idx (take (64 - idx) input)))
    input (64 - idx) = (st', i') ->
  buffered s0 (msg ++ input) st'
    (memcpy_at (memcpy_at buf idx (take (64 - idx) input)) 0 (drop i' input)).
Proof.
  intros [Hb Ha] idx Hl Hloop.
  assert (Hidx : (idx < 64)%nat) by (apply Nat.mod_upper_bound; lia).
  set (buf1 := memcpy_at buf idx (take (64 - idx) input)) in *.
  assert (Hlen1 : length buf1 = 64%nat).
  { unfold buf1. rewrite memcpy_at_length; rewrite ?length_take; lia. }
  assert (Hfull : take idx buf ++ take (64 - idx) input = buf1).
  { rewrite <- (memcpy_at_take buf idx) by lia. rewrite length_take, firstn_all2; [done|].
    fold buf1. lia. }
  pose proof (transform_loop_absorb (length input) (Transform st buf1) input (64 - idx) ltac:(lia) ltac:(lia)) as H.
  rewrite Hloop in H. destruct H as (H & Hi & Hi').
  assert (Habs : absorb s0 (msg ++ input) = (st', drop i' input)).
  { rewrite absorb_app, Ha. fold idx. rewrite <- (take_drop (64 - idx) input) at 1.
    rewrite app_assoc, Hfull, absorb_block by done. done. }
  split; [rewrite memcpy_at_length; rewrite ?length_drop; lia|].
  rewrite Habs. f_equal.
  pose proof (absorb_tail s0 (msg ++ input)) as Ht. rewrite Habs in Ht. simpl in Ht.
  rewrite <- Ht. change (length (drop i' input)) with (0 + length (drop i' input))%nat.
  by rewrite memcpy_at_take by lia.
Qed.

End Absorb.

(** ** The interface of a streaming digest *)
Class Streaming (Ctx : Type) := {
  represents : Ctx -> list Z -> Prop;
  update : Ctx -> list Z -> Ctx;
  update_represents c msg d : represents c msg -> represents (update c d) (msg ++ d)
}.

Section StreamingClient.
Context {Ctx : Type} `{!Streaming Ctx}.

Lemma update_chunks c msg chunks : represents c msg ->
  represents (fold_left update chunks c) (msg ++ concat chunks).
Proof.
  revert c msg. induction chunks as [|d t IH]; intros c msg H; simpl; [by rewrite app_nil_r|].
  rewrite app_assoc. apply IH. by apply update_represents.
Qed.

(** [while (more(ctx)) Update(ctx, &zero, 1);] with [fuel] iterations. *)
Fixpoint pad_loop (more : Ctx -> bool) (fuel : nat) (c : Ctx) : Ctx :=
  match fuel with
  | O => c
  | S f => if more c then pad_loop more f (update c [0]) else c
  end.

(** When [more] tests for a length other than 56 modulo 64, the loop stops
    within 64 iterations, having appended the least number of zeros. *)
Lemma pad_loop_represents more fuel c msg :
  (forall c msg, represents c msg -> more c = negb (Nat.eqb (length msg mod 64) 56)) ->
  represents c msg ->
  let k := ((120 - length msg mod 64) mod 64)%nat in
  (k <= fuel)%nat ->
  represents (pad_loop more fuel c) (msg ++ replicate k 0).
Proof.
  intros Hmore. revert c msg. induction fuel as [|f IH]; intros c msg Hc k Hk.
  - replace k with 0%nat by lia. simpl. by rewrite app_nil_r.
  - simpl. rewrite (Hmore c msg Hc).
    assert (Hm : (length msg mod 64 < 64)%nat) by (apply Nat.mod_upper_bound; lia).
    destruct (Nat.eqb_spec (length msg mod 64) 56) as [E|E]; simpl.
    + unfold k. rewrite E. simpl. by rewrite app_nil_r.
    + set (m := (length msg mod 64)%nat) in *.
      assert (Hk' : k = S ((120 - length (msg ++ [0]%Z) mod 64) mod 64)).
      { rewrite length_app. simpl. rewrite <- Nat.Div0.add_mod_idemp_l. fold m. unfold k.
        clearbody m. clear -E Hm.
        assert (Hd : forallb (fun m => Nat.eqb m 56 || Nat.eqb ((120 - m) mod 64) (S ((120 - (m + 1) mod 64) mod 64))) (seq 0 64) = true)
          by (vm_compute; reflexivity).
        rewrite forallb_forall in Hd. specialize (Hd m ltac:(apply in_seq; lia)).
        apply orb_true_iff in Hd as [Hd|Hd]; apply Nat.eqb_eq in Hd; lia. }
      rewrite Hk'. change (replicate (S ?n) 0) with ([0] ++ replicate n 0).
      rewrite app_assoc. apply IH; [by apply update_represents|]. lia.
Qed.

End StreamingClient.

(** The common message padding: 0x80, zeros up to 56 modulo 64, and the
    64-bit length in bits. *)
Definition md_pad (len_bytes : list Z) (msg : list Z) : list Z :=
  msg ++ [0x80] ++ replicate ((119 - length msg mod 64) mod 64) 0 ++ len_bytes.

(** Digests of a padded message: no bytes remain. *)
Lemma md_pad_length lb msg : length lb = 8%nat -> (length (md_pad lb msg) mod 64 = 0)%nat.
Proof.
  intros Hlb. unfold md_pad. rewrite !length_app, length_replicate, Hlb. simpl.
  rewrite <- Nat.Div0.add_mod_idemp_l.
  assert (Hm : (length msg mod 64 < 64)%nat) by (apply Nat.mod_upper_bound; lia).
  generalize dependent (length msg mod 64)%nat. intros m Hm.
  assert (Hd : forallb (fun m => Nat.eqb ((m + S ((119 - m) mod 64 + 8)) mod 64) 0) (seq 0 64) = true)
    by (vm_compute; reflexivity).
  rewrite forallb_forall in Hd. by apply Nat.eqb_eq, Hd, in_seq; lia.
Qed.

(** ** Bit counters kept in two 32-bit halves *)

Definition count_pair (c0 c1 : Z) (n : nat) : Prop :=
  in_u 32 c0 /\ in_u 32 c1 /\ c0 + 2 ^ 32 * c1 = (8 * Z.of_nat n) mod 2 ^ 64.

Lemma count_pair_0 : count_pair 0 0 0.
Proof. split_and!; done. Qed.

Lemma count_pair_low c0 c1 n : count_pair c0 c1 n -> c0 = U32 (8 * Z.of_nat n).
Proof.
  intros (H0 & H1 & H). rewrite <- (wrap_wrap_le 32 64) by lia.
  unfold wrap at 2. rewrite <- H. unfold wrap. rewrite Z.mul_comm, Z.mod_add by done.
  symmetry. by apply (wrap_small 32).
Qed.

(** The byte index [(count >> 3) & 63]. *)
Lemma count_pair_index c0 c1 n : count_pair c0 c1 n ->
  Z.to_nat ((c0 >> 3) & 63) = (n mod 64)%nat /\ (c0 >> 3) & 63 = Z.of_nat (n mod 64).
Proof.
  intros H%count_pair_low. enough (Heq : (c0 >> 3) & 63 = Z.of_nat (n mod 64)).
  { rewrite Heq. split; [by rewrite Nat2Z.id|done]. }
  change 63 with (2 ^ 6 - 1). rewrite land_mask, Z.shiftr_div_pow2 by lia.
  rewrite Nat2Z.inj_mod. subst c0. unfold wrap.
  change (2 ^ 32) with (2 ^ 29 * 2 ^ 3). rewrite (Z.mul_comm (2 ^ 29)), (Z.mul_comm 8).
  change 8 with (2 ^ 3) at 1. rewrite (Z.mul_comm (Z.of_nat n)), Z.mul_mod_distr_l by done.
  rewrite (Z.mul_comm (2 ^ 3)), Z.div_mul by done. change (Z.of_nat 64) with (2 ^ 6).
  by apply (wrap_wrap_le 6 29).
Qed.

Lemma count_pair_add c0 c1 n len : count_pair c0 c1 n ->
  let lo := (8 * Z.of_nat len) mod 2 ^ 32 in
  let c0' := U32 (c0 + lo) in
  let c1' := if c0' <? lo then U32 (c1 + 1) else c1 in
  count_pair c0' (U32 (c1' + U32 (Z.of_nat len >> 29))) (n + len).
Proof.
  intros (H0 & H1 & H) lo c0' c1'. unfold in_u in *.
  split; [by apply wrap_in_u|split; [by apply wrap_in_u|]].
  rewrite Z.shiftr_div_pow2 by lia. rewrite wrap_add_r.
  assert (Hc1 : U32 (c1' + Z.of_nat len / 2 ^ 29) =
    U32 (c1 + (if c0' <? lo then 1 else 0) + Z.of_nat len / 2 ^ 29)).
  { unfold c1'. case_match; [by rewrite wrap_add_l|by rewrite Z.add_0_r]. }
  rewrite Hc1. clear Hc1 c1'. unfold c0', lo, wrap. rewrite Nat2Z.inj_add.
  change (2 ^ 64) with 18446744073709551616 in *. change (2 ^ 32) with 4294967296 in *.
  change (2 ^ 29) with 536870912.
  set (L := Z.of_nat len) in *. set (N := Z.of_nat n) in *. assert (HL : 0 <= L) by lia.
  (* split the added length in its low 29 bits and the rest *)
  assert (HLq : L = 536870912 * (L / 536870912) + L mod 536870912) by (apply Z.div_mod; lia).
  pose proof (Z.mod_pos_bound L 536870912 ltac:(lia)).
  set (q := L / 536870912) in *. set (r := L mod 536870912) in *. clearbody q r.
  assert (Hlo : (8 * L) mod 4294967296 = 8 * r).
  { subst L. symmetry. apply (Z.mod_unique _ _ q); lia. }
  rewrite Hlo. clear Hlo.
  assert (Hmod : (8 * (N + L)) mod 18446744073709551616 =
    (c0 + 4294967296 * c1 + 8 * L) mod 18446744073709551616).
  { rewrite H, Zplus_mod_idemp_l. f_equal. lia. }
  rewrite Hmod. clear Hmod H.
  case_match eqn:E; [apply Z.ltb_lt in E|apply Z.ltb_ge in E].
  - assert (Hge : 4294967296 <= c0 + 8 * r).
    { destruct (decide (c0 + 8 * r < 4294967296)); [rewrite Z.mod_small in E; lia|lia]. }
    assert (Hc : (c0 + 8 * r) mod 4294967296 = c0 + 8 * r - 4294967296).
    { symmetry. apply (Z.mod_unique _ _ 1); lia. }
    rewrite Hc. pose proof (Z.mod_pos_bound (c1 + 1 + q) 4294967296 ltac:(lia)).
    apply (Z.mod_unique _ _ ((c1 + 1 + q) / 4294967296)); [lia|].
    pose proof (Z.div_mod (c1 + 1 + q) 4294967296 ltac:(lia)). lia.
  - assert (Hlt : c0 + 8 * r < 4294967296).
    { destruct (decide (c0 + 8 * r < 4294967296)); [lia|].
      exfalso. assert ((c0 + 8 * r) mod 4294967296 = c0 + 8 * r - 4294967296).
      { symmetry. apply (Z.mod_unique _ _ 1); lia. } lia. }
    rewrite (Z.mod_small (c0 + 8 * r)) by lia. pose proof (Z.mod_pos_bound (c1 + 0 + q) 4294967296 ltac:(lia)).
    apply (Z.mod_unique _ _ ((c1 + 0 + q) / 4294967296)); [lia|].
    pose proof (Z.div_mod (c1 + 0 + q) 4294967296 ltac:(lia)). lia.
Qed.

(** ** More on byte splitting *)

Lemma le_bytes_app m n v : le_bytes (m + n) v = le_bytes m v ++ le_bytes n (v >> (8 * Z.of_nat m)).
Proof.
  revert v. induction m as [|m IH]; intros v; simpl; [by rewrite Z.shiftr_0_r|].
  rewrite IH, Z.shiftr_shiftr by lia.
  by replace (8 + 8 * Z.of_nat m) with (8 * Z.of_nat (S m)) by lia.
Qed.

Lemma le_bytes_mod n v w : (8 * Z.of_nat n <= w) -> le_bytes n (v mod 2 ^ w) = le_bytes n v.
Proof.
  revert v w. induction n as [|n IH]; intros v w Hw; simpl; [done|].
  change (v mod 2 ^ w) with (wrap w v). rewrite wrap_wrap_le by lia. f_equal.
  replace (wrap w v >> 8) with ((v >> 8) mod 2 ^ (w - 8)); [apply IH; lia|].
  change (wrap (w - 8) (v >> 8) = wrap w v >> 8).
  apply Z.bits_inj'. intros i Hi. rewrite wrap_spec, Z.shiftr_spec, Z.shiftr_spec, wrap_spec by lia.
  f_equal. destruct (Z.ltb_spec i (w - 8)), (Z.ltb_spec (i + 8) w); lia || done.
Qed.

Lemma le_bytes_pair c0 c1 : in_u 32 c0 ->
  le_bytes 8 (c0 + 2 ^ 32 * c1) = le_bytes 4 c0 ++ le_bytes 4 c1.
Proof.
  intros H. rewrite (le_bytes_app 4 4), Z.mul_comm. f_equal.
  - rewrite <- (le_bytes_mod 4 _ 32), Z.mod_add by lia. by rewrite (Z.mod_small c0).
  - rewrite Z.shiftr_div_pow2 by lia. change (8 * Z.of_nat 4) with 32.
    rewrite Z.div_add by lia. by rewrite (Z.div_small c0).
Qed.

Lemma be_bytes_rev n v : be_bytes n v = rev (le_bytes n v).
Proof.
  revert v. induction n as [|n IH]; intros v; [done|].
  rewrite <- Nat.add_1_r at 2. by rewrite le_bytes_app, rev_app_distr, <- IH.
Qed.

Lemma be_bytes_pair c0 c1 : in_u 32 c0 ->
  be_bytes 8 (c0 + 2 ^ 32 * c1) = be_bytes 4 c1 ++ be_bytes 4 c0.
Proof. intros. by rewrite !be_bytes_rev, le_bytes_pair, rev_app_distr. Qed.

Lemma be_bytes_mod n v w : (8 * Z.of_nat n <= w) -> be_bytes n (v mod 2 ^ w) = be_bytes n v.
Proof. intros. by rewrite !be_bytes_rev, le_bytes_mod. Qed.

(** ** The three ways the sources write a word out byte by byte *)

Lemma le_word_bytes w : List.map (fun i => U8 ((w >> (i * 8)) & 0xFF)) [0; 1; 2; 3] = le_bytes 4 w.
Proof.
  simpl. change 255 with (2 ^ 8 - 1). by rewrite !land_mask, !wrap_wrap, !Z.shiftr_shiftr by lia.
Qed.

(** The padding length computed with a branch on the index. *)
Lemma pad_length_cases (n : nat) : let m := Z.of_nat (n mod 64) in
  Z.to_nat (if m <? 56 then 56 - m else 120 - m) = S ((119 - n mod 64) mod 64).
Proof.
  assert (Hm : (n mod 64 < 64)%nat) by (apply Nat.mod_upper_bound; lia).
  generalize dependent (n mod 64)%nat. intros m Hm.
  assert (Hd : forallb (fun m : nat => Nat.eqb (Z.to_nat (if Z.of_nat m <? 56 then 56 - Z.of_nat m else 120 - Z.of_nat m))
    (S ((119 - m) mod 64))) (seq 0 64) = true) by (vm_compute; reflexivity).
  rewrite forallb_forall in Hd. by apply Nat.eqb_eq, Hd, in_seq; lia.
Qed.

(** Padding byte by byte after the 0x80. *)
Lemma pad_after_80 n :
  ((120 - (n + length [0x80]%Z) mod 64) mod 64 = (119 - n mod 64) mod 64)%nat.
Proof.
  simpl. rewrite <- Nat.Div0.add_mod_idemp_l.
  assert (Hm : (n mod 64 < 64)%nat) by (apply Nat.mod_upper_bound; lia).
  generalize dependent (n mod 64)%nat. intros m Hm.
  assert (Hd : forallb (fun m => Nat.eqb ((120 - (m + 1) mod 64) mod 64) ((119 - m) mod 64)) (seq 0 64) = true)
    by (vm_compute; reflexivity).
  rewrite forallb_forall in Hd. by apply Nat.eqb_eq, Hd, in_seq; lia.
Qed.

Lemma md_pad_steps lb msg :
  ((msg ++ [0x80]) ++ replicate ((120 - length (msg ++ [0x80]) mod 64) mod 64) 0) ++ lb = md_pad lb msg.
Proof. unfold md_pad. rewrite length_app, pad_after_80. by rewrite <- !app_assoc. Qed.

Lemma pad_to_56 (msg : list Z) :
  Nat.eqb (length (msg ++ replicate ((120 - length msg mod 64) mod 64) 0) mod 64) 56 = true.
Proof.
  rewrite length_app, length_replicate, <- Nat.Div0.add_mod_idemp_l.
  assert (Hm : (length msg mod 64 < 64)%nat) by (apply Nat.mod_upper_bound; lia).
  generalize dependent (length msg mod 64)%nat. intros m Hm.
  assert (Hd : forallb (fun m => Nat.eqb ((m + (120 - m) mod 64) mod 64) 56) (seq 0 64) = true)
    by (vm_compute; reflexivity).
  rewrite forallb_forall in Hd. by apply Hd, in_seq; lia.
Qed.

Lemma land_255 v : v & 0xFF = U8 v.
Proof. change 0xFF with (2 ^ 8 - 1). by apply land_mask. Qed.

End Block.
