(* ===== verification/HashMd5.v ===== *)
(** * MD5 (engine/utils/pi_hash.cpp, namespace md5_impl) *)
From S2P Require Import Prelude HashBlock.
Import Block.
Local Open Scope cint_scope.

Module Md5_impl.

(** [uint32_t state[4]] *)
Record State := MkState { sa : Z; sb : Z; sc : Z; sd : Z }.
Record Context := MkContext { state : State; count0 : Z; count1 : Z; buffer : list Z }.

Definition F (x y z : Z) : Z := (x & y) .| (inv32 x & z).
Definition G (x y z : Z) : Z := (x & z) .| (y & inv32 z).
Definition H (x y z : Z) : Z := x .^ y .^ z.
Definition I (x y z : Z) : Z := y .^ (x .| inv32 z).

(** [FF], [GG], [HH] and [II] differ in the mixing function [f] only. *)
Definition round_op (f : Z -> Z -> Z -> Z) (a b c d x s ac : Z) : Z :=
  U32 (RotL (U32 (a + f b c d + x + ac)) s + b).
Definition FF := round_op F.
Definition GG := round_op G.
Definition HH := round_op H.
Definition II := round_op I.

(** The 64 calls, as (index into [x], shift, constant); the roles of the
    four variables rotate (a,b,c,d) -> (d,a,b,c) from one call to the next. *)
Definition steps_F : list (nat * Z * Z) :=
  [(0%nat, 7, 0xd76aa478); (1%nat, 12, 0xe8c7b756); (2%nat, 17, 0x242070db); (3%nat, 22, 0xc1bdceee);
   (4%nat, 7, 0xf57c0faf); (5%nat, 12, 0x4787c62a); (6%nat, 17, 0xa8304613); (7%nat, 22, 0xfd469501);
   (8%nat, 7, 0x698098d8); (9%nat, 12, 0x8b44f7af); (10%nat, 17, 0xffff5bb1); (11%nat, 22, 0x895cd7be);
   (12%nat, 7, 0x6b901122); (13%nat, 12, 0xfd987193); (14%nat, 17, 0xa679438e); (15%nat, 22, 0x49b40821)].
Definition steps_G : list (nat * Z * Z) :=
  [(1%nat, 5, 0xf61e2562); (6%nat, 9, 0xc040b340); (11%nat, 14, 0x265e5a51); (0%nat, 20, 0xe9b6c7aa);
   (5%nat, 5, 0xd62f105d); (10%nat, 9, 0x02441453); (15%nat, 14, 0xd8a1e681); (4%nat, 20, 0xe7d3fbc8);
   (9%nat, 5, 0x21e1cde6); (14%nat, 9, 0xc33707d6); (3%nat, 14, 0xf4d50d87); (8%nat, 20, 0x455a14ed);
   (13%nat, 5, 0xa9e3e905); (2%nat, 9, 0xfcefa3f8); (7%nat, 14, 0x676f02d9); (12%nat, 20, 0x8d2a4c8a)].
Definition steps_H : list (nat * Z * Z) :=
  [(5%nat, 4, 0xfffa3942); (8%nat, 11, 0x8771f681); (11%nat, 16, 0x6d9d6122); (14%nat, 23, 0xfde5380c);
   (1%nat, 4, 0xa4beea44); (4%nat, 11, 0x4bdecfa9); (7%nat, 16, 0xf6bb4b60); (10%nat, 23, 0xbebfbc70);
   (13%nat, 4, 0x289b7ec6); (0%nat, 11, 0xeaa127fa); (3%nat, 16, 0xd4ef3085); (6%nat, 23, 0x04881d05);
   (9%nat, 4, 0xd9d4d039); (12%nat, 11, 0xe6db99e5); (15%nat, 16, 0x1fa27cf8); (2%nat, 23, 0xc4ac5665)].
Definition steps_I : list (nat * Z * Z) :=
  [(0%nat, 6, 0xf4292244); (7%nat, 10, 0x432aff97); (14%nat, 15, 0xab9423a7); (5%nat, 21, 0xfc93a039);
   (12%nat, 6, 0x655b59c3); (3%nat, 10, 0x8f0ccc92); (10%nat, 15, 0xffeff47d); (1%nat, 21, 0x85845dd1);
   (8%nat, 6, 0x6fa87e4f); (15%nat, 10, 0xfe2ce6e0); (6%nat, 15, 0xa3014314); (13%nat, 21, 0x4e0811a1);
   (4%nat, 6, 0xf7537e82); (11%nat, 10, 0xbd3af235); (2%nat, 15, 0x2ad7d2bb); (9%nat, 21, 0xeb86d391)].

Definition step (op : Z -> Z -> Z -> Z -> Z -> Z -> Z -> Z) (block : list Z)
    (s : State) (k : nat * Z * Z) : State :=
  let '(i, sh, ac) := k in
  let a' := op (sa s) (sb s) (sc s) (sd s) (word_le block i) sh ac in
  MkState (sd s) a' (sb s) (sc s).

Definition Transform (st : State) (block : list Z) : State :=
  let s := fold_left (step FF block) steps_F st in
  let s := fold_left (step GG block) steps_G s in
  let s := fold_left (step HH block) steps_H s in
  let s := fold_left (step II block) steps_I s in
  MkState (U32 (sa st + sa s)) (U32 (sb st + sb s)) (U32 (sc st + sc s)) (U32 (sd st + sd s)).

Definition init_state : State := MkState 0x67452301 0xefcdab89 0x98badcfe 0x10325476.
(** [Init] leaves the buffer as it was on the stack. *)
Definition Init (stack : list Z) : Context := MkContext init_state 0 0 stack.

Definition Update (ctx : Context) (input : list Z) : Context :=
  let inputLen := Z.of_nat (length input) in
  let index := Z.to_nat ((count0 ctx >> 3) & 0x3F) in
  let bitLen := U64 (inputLen * 8) in
  let c0 := U32 (count0 ctx + U32 bitLen) in
  let c1 := if c0 <? U32 bitLen then U32 (count1 ctx + 1) else count1 ctx in
  let c1 := U32 (c1 + U32 (inputLen >> 29)) in
  let partLen := (64 - index)%nat in
  if decide (partLen <= length input)%nat then
    let buf := memcpy_at (buffer ctx) index (take partLen input) in
    let '(st, i) := transform_loop Transform (length input) (Transform (state ctx) buf) input partLen in
    MkContext st c0 c1 (memcpy_at buf 0 (drop i input))
  else MkContext (state ctx) c0 c1 (memcpy_at (buffer ctx) index input).

Definition PADDING : list Z := 0x80 :: replicate 63 0.

Definition word_bytes (w : Z) : list Z :=
  List.map (fun i => U8 ((w >> (i * 8)) & 0xFF)) [0; 1; 2; 3].

Definition Final (ctx : Context) : list Z :=
  let bits := word_bytes (count0 ctx) ++ word_bytes (count1 ctx) in
  let index := (count0 ctx >> 3) & 0x3F in
  let padLen := if index <? 56 then 56 - index else 120 - index in
  let ctx := Update ctx (take (Z.to_nat padLen) PADDING) in
  let ctx := Update ctx bits in
  let s := state ctx in
  word_bytes (sa s) ++ word_bytes (sb s) ++ word_bytes (sc s) ++ word_bytes (sd s).

(** [Md5(data, size, digest)]; [stack] is the uninitialised buffer. *)
Definition Md5 (stack : list Z) (data : option (list Z)) (size : nat) : list Z :=
  let ctx := Init stack in
  let ctx := match data with
             | Some p => if (0 <? size)%nat then Update ctx (take size p) else ctx
             | None => ctx
             end in
  Final ctx.

Example md5_abc : Md5 (replicate 64 7) (Some [97; 98; 99]) 3 =
  [0x90;0x01;0x50;0x98;0x3c;0xd2;0x4f;0xb0;0xd6;0x96;0x3f;0x7d;0x28;0xe1;0x7f;0x72].
Proof. vm_compute. reflexivity. Qed.

(** ** Correctness *)

(** The context after absorbing [msg]. *)
Definition rep (ctx : Context) (msg : list Z) : Prop :=
  buffered Transform init_state msg (state ctx) (buffer ctx) /\
  count_pair (count0 ctx) (count1 ctx) (length msg).

Lemma md5_Init_rep stack : length stack = 64%nat -> rep (Init stack) [].
Proof. intros H. split; [split; [done|reflexivity]|apply count_pair_0]. Qed.

Lemma md5_Update_rep ctx msg d : rep ctx msg -> rep (Update ctx d) (msg ++ d).
Proof.
  intros [Hbuf Hcnt]. unfold rep, Update.
  pose proof (count_pair_index _ _ _ Hcnt) as [Hidx _].
  pose proof (count_pair_add _ _ _ (length d) Hcnt) as Hadd.
  assert (Hlo : U32 (U64 (Z.of_nat (length d) * 8)) = (8 * Z.of_nat (length d)) mod 2 ^ 32).
  { rewrite wrap_wrap_le by lia. unfold wrap. f_equal. lia. }
  rewrite Hlo, length_app. cbv zeta in Hadd. change 0x3F with 63. rewrite Hidx.
  case_decide as Hd.
  - destruct (transform_loop _ _ _ _ _) as [st i] eqn:Hl. split; [|exact Hadd].
    eapply buffered_fill; [done|lia|exact Hl].
  - split; [|exact Hadd]. apply buffered_copy; [done|lia].
Qed.

#[export] Instance md5_streaming : Streaming Context :=
  {| represents := rep; update := Update; update_represents := md5_Update_rep |}.

(** RFC 1321: pad, run the compression over the blocks, print the state. *)
Definition md5_spec (msg : list Z) : list Z :=
  let s := fst (absorb Transform init_state (md_pad (le_bytes 8 (8 * Z.of_nat (length msg))) msg)) in
  le_bytes 4 (sa s) ++ le_bytes 4 (sb s) ++ le_bytes 4 (sc s) ++ le_bytes 4 (sd s).

Lemma md5_Final_spec ctx msg : rep ctx msg -> Final ctx = md5_spec msg.
Proof.
  intros H. pose proof H as [_ Hcnt]. pose proof (count_pair_index _ _ _ Hcnt) as [_ Hidx].
  unfold Final. change 0x3F with 63. rewrite Hidx.
  pose proof (pad_length_cases (length msg)) as Hp. cbv zeta in Hp. rewrite Hp.
  assert (Hbits : word_bytes (count0 ctx) ++ word_bytes (count1 ctx) =
    le_bytes 8 (8 * Z.of_nat (length msg))).
  { unfold word_bytes. rewrite !le_word_bytes, <- le_bytes_pair by apply Hcnt.
    destruct Hcnt as (_ & _ & ->). by apply le_bytes_mod. }
  rewrite Hbits. set (pad := take _ PADDING).
  assert (Hpad : pad = [0x80] ++ replicate ((119 - length msg mod 64) mod 64) 0).
  { unfold pad, PADDING. rewrite firstn_cons, take_replicate. simpl. do 2 f_equal.
    pose proof (Nat.mod_upper_bound (119 - length msg mod 64) 64). lia. }
  clearbody pad. subst pad.
  pose proof (md5_Update_rep _ _ (le_bytes 8 (8 * Z.of_nat (length msg))) (md5_Update_rep _ _ ([0x80] ++ replicate ((119 - length msg mod 64) mod 64) 0) H))
    as [[_ Habs] _].
  unfold md5_spec, md_pad. rewrite <- !app_assoc in Habs. rewrite Habs.
  unfold word_bytes. by rewrite !le_word_bytes.
Qed.

Lemma Md5_spec stack l : length stack = 64%nat -> Md5 stack (Some l) (length l) = md5_spec l.
Proof.
  intros Hi%md5_Init_rep. unfold Md5. rewrite firstn_all. case_match eqn:E.
  - apply md5_Final_spec. apply (md5_Update_rep _ [] _ Hi).
  - apply Nat.ltb_ge in E. destruct l; [by apply md5_Final_spec|simpl in E; lia].
Qed.

(** feeding a message in any chunks and finalising gives the RFC 1321
    digest of the concatenation, whatever the context's buffer held. *)
Theorem md5_correct (stack : list Z) (chunks : list (list Z)) :
  length stack = 64%nat ->
  Final (fold_left Update chunks (Init stack)) = md5_spec (concat chunks) /\
  Md5 stack (Some (concat chunks)) (length (concat chunks)) = md5_spec (concat chunks) /\
  Md5 stack None 0 = md5_spec [].
Proof.
  intros Hs. pose proof (md5_Init_rep stack Hs) as Hi. split_and!.
  - apply md5_Final_spec. exact (update_chunks (Ctx := Context) (Init stack) [] chunks Hi).
  - by apply Md5_spec.
  - by apply md5_Final_spec.
Qed.

Lemma md5_correct_witness :
  Md5 (replicate 64 7) (Some ([97; 98] ++ [99])) 3 = md5_spec [97; 98; 99].
Proof. apply (md5_correct (replicate 64 7) [[97; 98]; [99]]). reflexivity. Defined.

End Md5_impl.
