(* ===== verification/HashSha1.v ===== *)
(** * SHA-1 (engine/utils/pi_hash.cpp, namespace sha1_impl) *)
From S2P Require Import Prelude HashBlock.
Import Block.
Local Open Scope cint_scope.

Module Sha1_impl.

(** [uint32_t state[5]] *)
Record State := MkState { sa : Z; sb : Z; sc : Z; sd : Z; se : Z }.
Record Context := MkContext { state : State; count0 : Z; count1 : Z; buffer : list Z }.

(** [w[0..79]]: sixteen words of the block, then the recurrence. *)
Definition schedule_word (w : list Z) : Z :=
  let t := length w in
  let at_ k := nth (t - k) w 0 in
  RotL (at_ 3%nat .^ at_ 8%nat .^ at_ 14%nat .^ at_ 16%nat) 1.
Definition schedule (block : list Z) : list Z :=
  Nat.iter 64 (fun w => w ++ [schedule_word w]) (List.map (word_be block) (seq 0 16)).

Definition f_ch (b c d : Z) : Z := (b & c) .| (inv32 b & d).
Definition f_parity (b c d : Z) : Z := b .^ c .^ d.
Definition f_maj (b c d : Z) : Z := (b & c) .| (b & d) .| (c & d).

Definition round (f : Z -> Z -> Z -> Z) (k : Z) (s : State) (w : Z) : State :=
  let temp := U32 (RotL (sa s) 5 + f (sb s) (sc s) (sd s) + se s + w + k) in
  MkState temp (sa s) (RotL (sb s) 30) (sc s) (sd s).

Definition Transform (st : State) (block : list Z) : State :=
  let w := schedule block in
  let s := fold_left (round f_ch 0x5A827999) (take 20 w) st in
  let s := fold_left (round f_parity 0x6ED9EBA1) (take 20 (drop 20 w)) s in
  let s := fold_left (round f_maj 0x8F1BBCDC) (take 20 (drop 40 w)) s in
  let s := fold_left (round f_parity 0xCA62C1D6) (take 20 (drop 60 w)) s in
  MkState (U32 (sa st + sa s)) (U32 (sb st + sb s)) (U32 (sc st + sc s))
    (U32 (sd st + sd s)) (U32 (se st + se s)).

Definition init_state : State :=
  MkState 0x67452301 0xEFCDAB89 0x98BADCFE 0x10325476 0xC3D2E1F0.
Definition Init (stack : list Z) : Context := MkContext init_state 0 0 stack.

Definition Update (ctx : Context) (data : list Z) : Context :=
  let len := Z.of_nat (length data) in
  let j := Z.to_nat ((count0 ctx >> 3) & 63) in
  let lo := U32 (U32 len << 3) in
  let c0 := U32 (count0 ctx + lo) in
  let c1 := if c0 <? lo then U32 (count1 ctx + 1) else count1 ctx in
  let c1 := U32 (c1 + U32 (len >> 29)) in
  if decide (63 < j + length data)%nat then
    let i := (64 - j)%nat in
    let buf := memcpy_at (buffer ctx) j (take i data) in
    let '(st, i) := transform_loop Transform (length data) (Transform (state ctx) buf) data i in
    MkContext st c0 c1 (memcpy_at buf 0 (drop i data))
  else MkContext (state ctx) c0 c1 (memcpy_at (buffer ctx) j data).

(** Byte [i] of a big-endian word array [ws]. *)
Definition be_byte (ws : list Z) (i : nat) : Z :=
  U8 ((nth (i / 4) ws 0 >> ((3 - (Z.of_nat i & 3)) * 8)) & 255).

(** [while ((ctx.count[0] & 504) != 448)] *)
Fixpoint zero_pad (fuel : nat) (ctx : Context) : Context :=
  match fuel with
  | O => ctx
  | S f => if negb ((count0 ctx & 504) =? 448) then zero_pad f (Update ctx [0x00]) else ctx
  end.

Definition Final (ctx : Context) : list Z :=
  let finalcount := List.map (be_byte [count1 ctx; count0 ctx]) (seq 0 8) in
  let ctx := Update ctx [0x80] in
  let ctx := zero_pad 64 ctx in
  let ctx := Update ctx finalcount in
  let s := state ctx in
  List.map (be_byte [sa s; sb s; sc s; sd s; se s]) (seq 0 20).

Definition Sha1 (stack : list Z) (data : option (list Z)) (size : nat) : list Z :=
  let ctx := Init stack in
  let ctx := match data with
             | Some p => if (0 <? size)%nat then Update ctx (take size p) else ctx
             | None => ctx
             end in
  Final ctx.

Example sha1_abc : Sha1 (replicate 64 7) (Some [97; 98; 99]) 3 =
  [0xa9;0x99;0x3e;0x36;0x47;0x06;0x81;0x6a;0xba;0x3e;0x25;0x71;0x78;0x50;0xc2;0x6c;0x9c;0xd0;0xd8;0x9d].
Proof. vm_compute. reflexivity. Qed.

(** ** Correctness *)

(** The context after absorbing [msg]. *)
Definition rep (ctx : Context) (msg : list Z) : Prop :=
  buffered Transform init_state msg (state ctx) (buffer ctx) /\
  count_pair (count0 ctx) (count1 ctx) (length msg).

Lemma sha1_Init_rep stack : length stack = 64%nat -> rep (Init stack) [].
Proof. intros H. split; [split; [done|reflexivity]|apply count_pair_0]. Qed.

Lemma sha1_Update_rep ctx msg d : rep ctx msg -> rep (Update ctx d) (msg ++ d).
Proof.
  intros [Hbuf Hcnt]. unfold rep, Update.
  pose proof (count_pair_index _ _ _ Hcnt) as [Hidx _].
  pose proof (count_pair_add _ _ _ (length d) Hcnt) as Hadd.
  assert (Hlo : U32 (U32 (Z.of_nat (length d)) << 3) = (8 * Z.of_nat (length d)) mod 2 ^ 32).
  { rewrite Z.shiftl_mul_pow2, wrap_mul_l by lia. unfold wrap. f_equal. lia. }
  rewrite Hlo, length_app. cbv zeta in Hadd. rewrite Hidx.
  case_decide as Hd.
  - destruct (transform_loop _ _ _ _ _) as [st i] eqn:Hl. split; [|exact Hadd].
    eapply buffered_fill; [done|lia|exact Hl].
  - split; [|exact Hadd]. apply buffered_copy; [done|lia].
Qed.

#[export] Instance sha1_streaming : Streaming Context :=
  {| represents := rep; update := Update; update_represents := sha1_Update_rep |}.

Definition more_zeros (ctx : Context) : bool := negb ((count0 ctx & 504) =? 448).

Lemma sha1_more_zeros_spec ctx msg : rep ctx msg ->
  more_zeros ctx = negb (Nat.eqb (length msg mod 64) 56).
Proof.
  intros [_ Hcnt]. pose proof (count_pair_index _ _ _ Hcnt) as [_ Hidx].
  unfold more_zeros. f_equal.
  assert (E : count0 ctx & 504 = ((count0 ctx >> 3) & 63) << 3).
  { change 504 with (63 << 3). apply Z.bits_inj'. intros i Hi.
    rewrite Z.land_spec, !Z.shiftl_spec by lia. destruct (decide (3 <= i)).
    - rewrite Z.land_spec, Z.shiftr_spec by lia. by replace (i - 3 + 3) with i by lia.
    - rewrite !(Z.testbit_neg_r _ (i - 3)) by lia. apply andb_false_r. }
  rewrite E, Hidx, Z.shiftl_mul_pow2 by lia.
  destruct (Nat.eqb_spec (length msg mod 64) 56) as [->|Hne]; [done|].
  apply Z.eqb_neq. lia.
Qed.

Lemma sha1_zero_pad_rep ctx msg : rep ctx msg ->
  rep (zero_pad 64 ctx) (msg ++ replicate ((120 - length msg mod 64) mod 64) 0).
Proof.
  intros H. assert (E : forall f c, zero_pad f c = pad_loop more_zeros f c).
  { induction f as [|f IH]; intros c; simpl; [done|]. unfold more_zeros. by case_match. }
  rewrite E. apply (@pad_loop_represents _ sha1_streaming more_zeros 64 ctx msg sha1_more_zeros_spec H).
  apply Nat.lt_le_incl, Nat.mod_upper_bound. lia.
Qed.

(** The padding loop of [Final] stops: its exit test holds after 64 turns. *)
Lemma sha1_zero_pad_stops ctx msg : rep ctx msg -> more_zeros (zero_pad 64 ctx) = false.
Proof.
  intros H%sha1_zero_pad_rep. rewrite (sha1_more_zeros_spec _ _ H), pad_to_56. done.
Qed.

Definition digest_bytes (s : State) : list Z :=
  be_bytes 4 (sa s) ++ be_bytes 4 (sb s) ++ be_bytes 4 (sc s) ++ be_bytes 4 (sd s) ++ be_bytes 4 (se s).

(** FIPS 180: pad, run the compression over the blocks, print the state. *)
Definition sha1_spec (msg : list Z) : list Z :=
  digest_bytes (fst (absorb Transform init_state (md_pad (be_bytes 8 (8 * Z.of_nat (length msg))) msg))).

Lemma be_byte_words ws n : length ws = n ->
  List.map (be_byte ws) (seq 0 (4 * n)) = concat (List.map (be_bytes 4) ws).
Proof.
  intros <-. induction ws as [|w ws IH] using rev_ind; [done|].
  rewrite length_app, Nat.add_1_r, Nat.mul_succ_r, seq_app, List.map_app, List.map_app, concat_app. f_equal.
  - rewrite <- IH. apply map_ext_in. intros i Hi%in_seq. unfold be_byte.
    rewrite app_nth1; [done|]. apply Nat.Div0.div_lt_upper_bound. lia.
  - set (k := length ws). rewrite Nat.add_0_l.
    assert (Hb : forall j, (j < 4)%nat -> be_byte (ws ++ [w]) (4 * k + j) = U8 (w >> (8 * (3 - Z.of_nat j)))).
    { intros j Hj. unfold be_byte. rewrite app_nth2; rewrite (Nat.mul_comm 4), Nat.div_add_l, Nat.div_small, Nat.add_0_r by lia; [|lia].
      fold k. rewrite Nat.sub_diag. simpl. rewrite land_255, wrap_wrap. do 2 f_equal.
      change 3 with (2 ^ 2 - 1) at 2. rewrite land_mask by lia. unfold wrap.
      rewrite Nat2Z.inj_add, Nat2Z.inj_mul, Z.add_comm, Z.mod_add, Z.mod_small by lia. lia. }
    pose proof (Hb 0%nat) as H0. pose proof (Hb 1%nat) as H1. pose proof (Hb 2%nat) as H2.
    pose proof (Hb 3%nat) as H3. clear Hb. set (m := (4 * k)%nat) in *. clearbody m. simpl.
    rewrite Nat.add_0_r in H0. rewrite Nat.add_1_r in H1.
    rewrite (Nat.add_comm m) in H2, H3. simpl in H2, H3.
    by rewrite H0, H1, H2, H3 by lia.
Qed.

Lemma sha1_Final_spec ctx msg : rep ctx msg -> Final ctx = sha1_spec msg.
Proof.
  intros H. pose proof H as [_ Hcnt]. unfold Final.
  assert (Hbits : List.map (be_byte [count1 ctx; count0 ctx]) (seq 0 8) =
    be_bytes 8 (8 * Z.of_nat (length msg))).
  { change 8%nat with (4 * 2)%nat at 1. rewrite (be_byte_words [count1 ctx; count0 ctx] 2) by done. cbn [List.map concat]. rewrite app_nil_r.
    rewrite <- be_bytes_pair by apply Hcnt. destruct Hcnt as (_ & _ & ->). by apply be_bytes_mod. }
  rewrite Hbits. cbv zeta.
  pose proof (sha1_Update_rep _ _ (be_bytes 8 (8 * Z.of_nat (length msg))) (sha1_zero_pad_rep _ _ (sha1_Update_rep _ _ [0x80] H)))
    as [[_ Habs] _].
  rewrite md_pad_steps in Habs. unfold sha1_spec.
  set (c2 := Update (zero_pad _ _) _) in *. clearbody c2. rewrite Habs.
  change 20%nat with (4 * 5)%nat. rewrite be_byte_words by done.
  unfold digest_bytes. cbn [List.map concat fst]. by rewrite app_nil_r.
Qed.

Lemma Sha1_spec stack l : length stack = 64%nat -> Sha1 stack (Some l) (length l) = sha1_spec l.
Proof.
  intros Hi%sha1_Init_rep. unfold Sha1. rewrite firstn_all. case_match eqn:E.
  - apply sha1_Final_spec. apply (sha1_Update_rep _ [] _ Hi).
  - apply Nat.ltb_ge in E. destruct l; [by apply sha1_Final_spec|simpl in E; lia].
Qed.

(** feeding a message in any chunks and finalising gives the FIPS 180
    digest of the concatenation, whatever the context's buffer held; the
    padding loop of [Final] stops. *)
Theorem sha1_correct (stack : list Z) (chunks : list (list Z)) :
  length stack = 64%nat ->
  Final (fold_left Update chunks (Init stack)) = sha1_spec (concat chunks) /\
  Sha1 stack (Some (concat chunks)) (length (concat chunks)) = sha1_spec (concat chunks) /\
  Sha1 stack None 0 = sha1_spec [] /\
  more_zeros (zero_pad 64 (Update (fold_left Update chunks (Init stack)) [0x80])) = false.
Proof.
  intros Hs. pose proof (sha1_Init_rep stack Hs) as Hi.
  pose proof (update_chunks (Ctx := Context) (Init stack) [] chunks Hi) as Hc. split_and!.
  - by apply sha1_Final_spec.
  - by apply Sha1_spec.
  - by apply sha1_Final_spec.
  - eapply sha1_zero_pad_stops, sha1_Update_rep, Hc.
Qed.

Lemma sha1_correct_witness :
  Sha1 (replicate 64 7) (Some ([97; 98] ++ [99])) 3 = sha1_spec [97; 98; 99].
Proof. apply (sha1_correct (replicate 64 7) [[97; 98]; [99]]). reflexivity. Defined.

End Sha1_impl.
