(* ===== verification/HashSha256.v ===== *)
(** * SHA-256 (engine/utils/pi_hash.cpp, namespace sha256_impl) *)
From S2P Require Import Prelude HashBlock.
Import Block.
Local Open Scope cint_scope.

Module Sha256_impl.

(** [uint32_t state[8]], a 64-bit byte counter and the buffer. *)
Record State := MkState { sa : Z; sb : Z; sc : Z; sd : Z; se : Z; sf : Z; sg : Z; sh : Z }.
Record Context := MkContext { state : State; count : Z; buffer : list Z }.

Definition Ch (x y z : Z) : Z := (x & y) .^ (inv32 x & z).
Definition Maj (x y z : Z) : Z := (x & y) .^ (x & z) .^ (y & z).
Definition Sigma0 (x : Z) : Z := RotR x 2 .^ RotR x 13 .^ RotR x 22.
Definition Sigma1 (x : Z) : Z := RotR x 6 .^ RotR x 11 .^ RotR x 25.
Definition Gamma0 (x : Z) : Z := RotR x 7 .^ RotR x 18 .^ (x >> 3).
Definition Gamma1 (x : Z) : Z := RotR x 17 .^ RotR x 19 .^ (x >> 10).

Definition K : list Z :=
  [0x428a2f98; 0x71374491; 0xb5c0fbcf; 0xe9b5dba5; 0x3956c25b; 0x59f111f1; 0x923f82a4; 0xab1c5ed5] ++
  [0xd807aa98; 0x12835b01; 0x243185be; 0x550c7dc3; 0x72be5d74; 0x80deb1fe; 0x9bdc06a7; 0xc19bf174] ++
  [0xe49b69c1; 0xefbe4786; 0x0fc19dc6; 0x240ca1cc; 0x2de92c6f; 0x4a7484aa; 0x5cb0a9dc; 0x76f988da] ++
  [0x983e5152; 0xa831c66d; 0xb00327c8; 0xbf597fc7; 0xc6e00bf3; 0xd5a79147; 0x06ca6351; 0x14292967] ++
  [0x27b70a85; 0x2e1b2138; 0x4d2c6dfc; 0x53380d13; 0x650a7354; 0x766a0abb; 0x81c2c92e; 0x92722c85] ++
  [0xa2bfe8a1; 0xa81a664b; 0xc24b8b70; 0xc76c51a3; 0xd192e819; 0xd6990624; 0xf40e3585; 0x106aa070] ++
  [0x19a4c116; 0x1e376c08; 0x2748774c; 0x34b0bcb5; 0x391c0cb3; 0x4ed8aa4a; 0x5b9cca4f; 0x682e6ff3] ++
  [0x748f82ee; 0x78a5636f; 0x84c87814; 0x8cc70208; 0x90befffa; 0xa4506ceb; 0xbef9a3f7; 0xc67178f2].

(** [w[0..63]] *)
Definition schedule_word (w : list Z) : Z :=
  let i := length w in
  let at_ k := nth (i - k) w 0 in
  U32 (Gamma1 (at_ 2%nat) + at_ 7%nat + Gamma0 (at_ 15%nat) + at_ 16%nat).
Definition schedule (block : list Z) : list Z :=
  Nat.iter 48 (fun w => w ++ [schedule_word w]) (List.map (word_be block) (seq 0 16)).

Definition round (s : State) (kw : Z * Z) : State :=
  let t1 := U32 (sh s + Sigma1 (se s) + Ch (se s) (sf s) (sg s) + kw.1 + kw.2) in
  let t2 := U32 (Sigma0 (sa s) + Maj (sa s) (sb s) (sc s)) in
  MkState (U32 (t1 + t2)) (sa s) (sb s) (sc s) (U32 (sd s + t1)) (se s) (sf s) (sg s).

Definition Transform (st : State) (block : list Z) : State :=
  let s := fold_left round (zip K (schedule block)) st in
  MkState (U32 (sa st + sa s)) (U32 (sb st + sb s)) (U32 (sc st + sc s)) (U32 (sd st + sd s))
    (U32 (se st + se s)) (U32 (sf st + sf s)) (U32 (sg st + sg s)) (U32 (sh st + sh s)).

Definition init_state : State :=
  MkState 0x6a09e667 0xbb67ae85 0x3c6ef372 0xa54ff53a 0x510e527f 0x9b05688c 0x1f83d9ab 0x5be0cd19.
Definition Init (stack : list Z) : Context := MkContext init_state 0 stack.

(** [while (left >= 64)] *)
Fixpoint full_blocks (fuel : nat) (st : State) (data : list Z) (offset left_ : nat) : State * nat * nat :=
  match fuel with
  | O => (st, offset, left_)
  | S f =>
      if decide (64 <= left_)%nat
      then full_blocks f (Transform st (take 64 (drop offset data))) data (offset + 64) (left_ - 64)
      else (st, offset, left_)
  end.

Definition Update (ctx : Context) (data : list Z) : Context :=
  let len := length data in
  let index := Z.to_nat (count ctx & 63) in
  let cnt := U64 (count ctx + Z.of_nat len) in
  let left_ := len in
  let offset := 0%nat in
  let '(st, buf, offset, left_) :=
    if decide (0 < index)%nat then
      let take_ := Nat.min left_ (64 - index) in
      let buf := memcpy_at (buffer ctx) index (take take_ (drop offset data)) in
      let st := if decide (index + take_ = 64)%nat then Transform (state ctx) buf else state ctx in
      (st, buf, (offset + take_)%nat, (left_ - take_)%nat)
    else (state ctx, buffer ctx, offset, left_) in
  let '(st, offset, left_) := full_blocks len st data offset left_ in
  if decide (0 < left_)%nat
  then MkContext st cnt (memcpy_at buf 0 (take left_ (drop offset data)))
  else MkContext st cnt buf.

(** [while ((ctx.count & 63) != 56)] *)
Fixpoint zero_pad (fuel : nat) (ctx : Context) : Context :=
  match fuel with
  | O => ctx
  | S f => if negb ((count ctx & 63) =? 56) then zero_pad f (Update ctx [0x00]) else ctx
  end.

Definition be_word (w : Z) : list Z :=
  [U8 ((w >> 24) & 0xFF); U8 ((w >> 16) & 0xFF); U8 ((w >> 8) & 0xFF); U8 (w & 0xFF)].

Definition Final (ctx : Context) : list Z :=
  let totalBits := U64 (count ctx * 8) in
  let ctx := Update ctx [0x80] in
  let ctx := zero_pad 64 ctx in
  let bits := List.map (fun i => U8 ((totalBits >> ((7 - i) * 8)) & 0xFF)) [0; 1; 2; 3; 4; 5; 6; 7] in
  let ctx := Update ctx bits in
  let s := state ctx in
  be_word (sa s) ++ be_word (sb s) ++ be_word (sc s) ++ be_word (sd s) ++
  be_word (se s) ++ be_word (sf s) ++ be_word (sg s) ++ be_word (sh s).

Definition Sha256 (stack : list Z) (data : option (list Z)) (size : nat) : list Z :=
  let ctx := Init stack in
  let ctx := match data with
             | Some p => if (0 <? size)%nat then Update ctx (take size p) else ctx
             | None => ctx
             end in
  Final ctx.

Example sha256_abc : Sha256 (replicate 64 7) (Some [97; 98; 99]) 3 =
  [0xba;0x78;0x16;0xbf;0x8f;0x01;0xcf;0xea;0x41;0x41;0x40;0xde;0x5d;0xae;0x22;0x23;
   0xb0;0x03;0x61;0xa3;0x96;0x17;0x7a;0x9c;0xb4;0x10;0xff;0x61;0xf2;0x00;0x15;0xad].
Proof. vm_compute. reflexivity. Qed.

(** ** Correctness *)

(** The context after absorbing [msg]; the counter is the length in bytes. *)
Definition rep (ctx : Context) (msg : list Z) : Prop :=
  buffered Transform init_state msg (state ctx) (buffer ctx) /\
  count ctx = U64 (Z.of_nat (length msg)).

Lemma sha256_Init_rep stack : length stack = 64%nat -> rep (Init stack) [].
Proof. intros H. by split; [split|]. Qed.

Lemma rep_index ctx msg : rep ctx msg -> count ctx & 63 = Z.of_nat (length msg mod 64).
Proof.
  intros [_ ->]. change 63 with (2 ^ 6 - 1). rewrite land_mask, wrap_wrap_le by lia.
  by rewrite Nat2Z.inj_mod.
Qed.

(** The [while (left >= 64)] loop is the shared block loop. *)
Lemma full_blocks_loop fuel st data i : (i <= length data)%nat ->
  full_blocks fuel st data i (length data - i) =
  let '(st', i') := transform_loop Transform fuel st data i in (st', i', (length data - i')%nat).
Proof.
  revert st i. induction fuel as [|f IH]; intros st i Hi; simpl; [done|].
  destruct (decide (64 <= length data - i)%nat).
  - rewrite decide_True by lia. rewrite <- IH by lia. f_equal. lia.
  - rewrite decide_False by lia. done.
Qed.

(** A memcpy of nothing. *)
Lemma memcpy_nil buf : memcpy_at buf 0 [] = buf.
Proof. done. Qed.

Lemma copy_rest (n : nat) st buf data i (cnt : Z) : n = (length data - i)%nat ->
  (if decide (0 < n)%nat then MkContext st cnt (memcpy_at buf 0 (take n (drop i data)))
   else MkContext st cnt buf) = MkContext st cnt (memcpy_at buf 0 (drop i data)).
Proof.
  intros ->. rewrite <- length_drop, firstn_all. case_decide as H; [done|].
  destruct (drop i data); [done|simpl in H; lia].
Qed.

Lemma sha256_Update_rep ctx msg d : rep ctx msg -> rep (Update ctx d) (msg ++ d).
Proof.
  intros Hr. pose proof (rep_index _ _ Hr) as Hidx. destruct Hr as [Hbuf Hcnt].
  assert (Hcnt' : U64 (count ctx + Z.of_nat (length d)) = U64 (Z.of_nat (length (msg ++ d)))).
  { rewrite Hcnt, wrap_add_l, length_app. f_equal. lia. }
  unfold Update. rewrite Hidx, Hcnt', Nat2Z.id. clear Hidx Hcnt Hcnt'.
  assert (Hm : (length msg mod 64 < 64)%nat) by (apply Nat.mod_upper_bound; lia).
  set (idx := (length msg mod 64)%nat) in *. cbv zeta.
  destruct (decide (0 < idx)%nat) as [Hpos|Hzero].
  - rewrite drop_0, Nat.add_0_l. destruct (decide (64 - idx <= length d)%nat) as [Hfull|Hpart].
    + (* the buffer fills up *)
      rewrite Nat.min_r by done. rewrite decide_True by lia. rewrite full_blocks_loop by lia.
      destruct (transform_loop _ _ _ _ _) as [st i] eqn:Hl. rewrite copy_rest by done.
      split; [|done]. eapply buffered_fill; [done|lia|exact Hl].
    + (* it does not: nothing is left *)
      rewrite Nat.min_l by lia. rewrite decide_False by lia. rewrite full_blocks_loop by lia.
      assert (Hl : forall f st, transform_loop Transform f st d (length d) = (st, length d)).
      { intros [|f] st; simpl; [done|]. by rewrite decide_False by lia. }
      rewrite Hl, copy_rest by done. split; [|done].
      rewrite firstn_all, drop_ge, memcpy_nil by lia. apply buffered_copy; [done|lia].
  - (* empty buffer: the loop runs on the input itself *)
    pose proof (full_blocks_loop (length d) (state ctx) d 0 ltac:(lia)) as Hl. rewrite Nat.sub_0_r in Hl.
    rewrite Hl. clear Hl.
    pose proof (transform_loop_absorb Transform (length d) (state ctx) d 0 ltac:(lia) ltac:(lia)) as Hl.
    destruct (transform_loop _ _ _ _ _) as [st i]. destruct Hl as (Hl & Hi & Hi').
    rewrite copy_rest by done. split; [|done]. destruct Hbuf as [Hb Ha]. fold idx in Ha.
    replace idx with 0%nat in Ha by lia. rewrite drop_0 in Hl.
    assert (Habs : absorb Transform init_state (msg ++ d) = (st, drop i d)).
    { by rewrite absorb_app, Ha. }
    split; [simpl; rewrite memcpy_at_length; rewrite ?length_drop; lia|].
    rewrite Habs. simpl. f_equal. pose proof (absorb_tail Transform init_state (msg ++ d)) as Ht.
    rewrite Habs in Ht. simpl in Ht. rewrite <- Ht.
    change (length (drop i d)) with (0 + length (drop i d))%nat.
    by rewrite memcpy_at_take by lia.
Qed.

#[export] Instance sha256_streaming : Streaming Context :=
  {| represents := rep; update := Update; update_represents := sha256_Update_rep |}.

Definition more_zeros (ctx : Context) : bool := negb ((count ctx & 63) =? 56).

Lemma sha256_more_zeros_spec ctx msg : rep ctx msg ->
  more_zeros ctx = negb (Nat.eqb (length msg mod 64) 56).
Proof.
  intros H. unfold more_zeros. rewrite (rep_index _ _ H). f_equal.
  destruct (Nat.eqb_spec (length msg mod 64) 56) as [->|Hne]; [done|]. apply Z.eqb_neq. lia.
Qed.

Lemma sha256_zero_pad_rep ctx msg : rep ctx msg ->
  rep (zero_pad 64 ctx) (msg ++ replicate ((120 - length msg mod 64) mod 64) 0).
Proof.
  intros H. assert (E : forall f c, zero_pad f c = pad_loop more_zeros f c).
  { induction f as [|f IH]; intros c; simpl; [done|]. unfold more_zeros. by case_match. }
  rewrite E. apply (@pad_loop_represents _ sha256_streaming more_zeros 64 ctx msg sha256_more_zeros_spec H).
  apply Nat.lt_le_incl, Nat.mod_upper_bound. lia.
Qed.

(** The padding loop of [Final] stops: its exit test holds after 64 turns. *)
Lemma sha256_zero_pad_stops ctx msg : rep ctx msg -> more_zeros (zero_pad 64 ctx) = false.
Proof. intros H%sha256_zero_pad_rep. by rewrite (sha256_more_zeros_spec _ _ H), pad_to_56. Qed.

Definition digest_bytes (s : State) : list Z :=
  be_bytes 4 (sa s) ++ be_bytes 4 (sb s) ++ be_bytes 4 (sc s) ++ be_bytes 4 (sd s) ++
  be_bytes 4 (se s) ++ be_bytes 4 (sf s) ++ be_bytes 4 (sg s) ++ be_bytes 4 (sh s).

(** FIPS 180: pad, run the compression over the blocks, print the state. *)
Definition sha256_spec (msg : list Z) : list Z :=
  digest_bytes (fst (absorb Transform init_state (md_pad (be_bytes 8 (8 * Z.of_nat (length msg))) msg))).

Lemma be_word_bytes w : be_word w = be_bytes 4 w.
Proof. unfold be_word. rewrite !land_255, !wrap_wrap. done. Qed.

Lemma sha256_Final_spec ctx msg : rep ctx msg -> Final ctx = sha256_spec msg.
Proof.
  intros H. pose proof H as [_ Hcnt]. unfold Final.
  assert (Hbits : List.map (fun i => U8 ((U64 (count ctx * 8) >> ((7 - i) * 8)) & 0xFF)) [0; 1; 2; 3; 4; 5; 6; 7] =
    be_bytes 8 (8 * Z.of_nat (length msg))).
  { rewrite Hcnt, wrap_mul_l, <- (be_bytes_mod 8 _ 64), (Z.mul_comm 8) by lia.
    change (?a mod 2 ^ 64) with (U64 a). generalize (U64 (Z.of_nat (length msg) * 8)). intros w.
    cbn [List.map]. rewrite !land_255, !wrap_wrap. done. }
  cbv zeta. rewrite Hbits.
  pose proof (sha256_Update_rep _ _ (be_bytes 8 (8 * Z.of_nat (length msg))) (sha256_zero_pad_rep _ _ (sha256_Update_rep _ _ [0x80] H)))
    as [[_ Habs] _].
  rewrite md_pad_steps in Habs. unfold sha256_spec.
  set (c2 := Update (zero_pad _ _) _) in *. clearbody c2. rewrite Habs.
  rewrite !be_word_bytes. done.
Qed.

Lemma Sha256_spec stack l : length stack = 64%nat -> Sha256 stack (Some l) (length l) = sha256_spec l.
Proof.
  intros Hi%sha256_Init_rep. unfold Sha256. rewrite firstn_all. case_match eqn:E.
  - apply sha256_Final_spec. apply (sha256_Update_rep _ [] _ Hi).
  - apply Nat.ltb_ge in E. destruct l; [by apply sha256_Final_spec|simpl in E; lia].
Qed.



(** ** The constants

    FIPS 180-2, 4.2.2 and 5.3.2: [K[i]] is the first 32 bits of the
    fractional part of the cube root of the [i]-th prime, the initial state
    those of the square roots of the first eight. *)
Definition is_prime (p : Z) : bool :=
  (1 <? p) && forallb (fun d => negb (p mod d =? 0)) (seqZ 2 (p - 2)).
Definition primes : list Z := filter (fun p => is_prime p) (seqZ 2 310).

(** [c = floor(2^32 * frac(p^(1/k)))]: with [q = floor(p^(1/k))], the
    integer [q * 2^32 + c] is the floor of the [k]-th root of [p * 2^(32 k)]. *)
Definition frac_root_bits (k p c : Z) : bool :=
  existsb (fun q => let m := q * 2 ^ 32 + c in
    (q ^ k <=? p) && (p <? (q + 1) ^ k) && (m ^ k <=? p * 2 ^ (32 * k)) && (p * 2 ^ (32 * k) <? (m + 1) ^ k))
    (seqZ 1 20).

(** every entry of [K] and every word of the initial state is the
    constant the standard prescribes. *)
Theorem sha256_constants :
  length primes = 64%nat /\ length K = 64%nat /\
  Forall (fun pc => frac_root_bits 3 pc.1 pc.2 = true) (zip primes K) /\
  Forall (fun pc => frac_root_bits 2 pc.1 pc.2 = true)
    (zip primes [sa init_state; sb init_state; sc init_state; sd init_state;
                 se init_state; sf init_state; sg init_state; sh init_state]).
Proof. split_and!; [reflexivity|reflexivity|..]; apply (bool_decide_unpack _); vm_compute; exact I. Qed.

End Sha256_impl.
