(* ===== verification/HashDispatch.v ===== *)
(** * Digest selection (engine/utils/pi_hash.cpp, [ComputeHex])

    The two overloads of [ComputeHex]: by algorithm, and by a
    case-insensitive name.  The three digest contexts live on the stack;
    [stack] stands for the bytes their buffers start with. *)
From S2P Require Import Prelude HashCrc HashBlock HashMd5 HashSha1 HashSha256.
Local Open Scope cint_scope.

Module Dispatch.
Import Checksum.

Inductive Algorithm := CRC32 | CRC32C | ADLER32 | MD5 | SHA1 | SHA256.

(** [snprintf(buf, .., "0x%08x", v)] for a 32-bit [v]: exactly eight digits. *)
Definition print_0x08x (v : Z) : list Z :=
  str "0x" ++ List.map (fun i => hex_digit hexLower ((v >> (4 * i)) & 0x0F)) [7; 6; 5; 4; 3; 2; 1; 0].

Section Compute.
Context (stack : list Z).

Definition Md5Hex data size := ToHex (Md5_impl.Md5 stack data size) false.
Definition Sha1Hex data size := ToHex (Sha1_impl.Sha1 stack data size) false.
Definition Sha256Hex data size := ToHex (Sha256_impl.Sha256 stack data size) false.

Definition ComputeHex (algo : Algorithm) (data : option (list Z)) (size : nat) : list Z :=
  match algo with
  | CRC32 => print_0x08x (Crc32 data size 0)
  | CRC32C => print_0x08x (Crc32c data size 0)
  | ADLER32 => print_0x08x (Adler32 data size 1)
  | MD5 => Md5Hex data size
  | SHA1 => Sha1Hex data size
  | SHA256 => Sha256Hex data size
  end.

(** [std::tolower] in the C locale. *)
Definition tolower (c : Z) : Z := if (65 <=? c) && (c <=? 90) then c + 32 else c.

Definition ComputeHexByName (algoName : list Z) (data : option (list Z)) (size : nat) : list Z :=
  let s := List.map tolower algoName in
  if streq s (str "crc32") || streq s (str "crc") then ComputeHex CRC32 data size
  else if streq s (str "crc32c") then ComputeHex CRC32C data size
  else if streq s (str "adler32") || streq s (str "adler") then ComputeHex ADLER32 data size
  else if streq s (str "md5") then ComputeHex MD5 data size
  else if streq s (str "sha1") || streq s (str "sha-1") then ComputeHex SHA1 data size
  else if streq s (str "sha256") || streq s (str "sha-256") then ComputeHex SHA256 data size
  else [].

End Compute.

(** ** What a name asks for *)

Definition algo_names (a : Algorithm) : list (list Z) :=
  match a with
  | CRC32 => [str "crc32"; str "crc"]
  | CRC32C => [str "crc32c"]
  | ADLER32 => [str "adler32"; str "adler"]
  | MD5 => [str "md5"]
  | SHA1 => [str "sha1"; str "sha-1"]
  | SHA256 => [str "sha256"; str "sha-256"]
  end.

(** The text a checksum or digest of [l] is reported as, from the reference
    definitions of the components. *)
Definition expected (a : Algorithm) (l : list Z) : list Z :=
  let checksum v := str "0x" ++ ToHex (be_bytes 4 v) false in
  match a with
  | CRC32 => checksum (not32 (crc_ref kCrc32Poly l (not32 0)))
  | CRC32C => checksum (not32 (crc_ref kCrc32cPoly l (not32 0)))
  | ADLER32 => let ab := adler_ref l 1 0 in checksum (ab.2 * 2 ^ 16 + ab.1)
  | MD5 => ToHex (Md5_impl.md5_spec l) false
  | SHA1 => ToHex (Sha1_impl.sha1_spec l) false
  | SHA256 => ToHex (Sha256_impl.sha256_spec l) false
  end.

Lemma print_0x08x_bytes v : print_0x08x v = str "0x" ++ ToHex (be_bytes 4 v) false.
Proof.
  unfold print_0x08x. f_equal. cbn [List.map be_bytes ToHex flat_map app].
  change 15 with (2 ^ 4 - 1). rewrite !land_mask by lia.
  assert (Hlo : forall k, 0 <= k -> wrap 4 (U8 (v >> k)) = wrap 4 (v >> k)) by (intros; by apply wrap_wrap_le).
  assert (Hhi : forall k, 0 <= k -> wrap 4 (U8 (v >> k) >> 4) = wrap 4 (v >> (k + 4))).
  { intros k Hk. apply Z.bits_inj'. intros i Hi. rewrite !wrap_spec, !Z.shiftr_spec, wrap_spec, Z.shiftr_spec by lia.
    replace (i + 4 + k) with (i + (k + 4)) by lia.
    destruct (Z.ltb_spec i 4), (Z.ltb_spec (i + 4) 8); done || lia. }
  by rewrite !Hlo, !Hhi by lia.
Qed.

Lemma not32_0 : in_u 32 0.
Proof. done. Qed.

Lemma adler_spec l : bytes_ok l -> Adler32 (Some l) (length l) 1 =
  let ab := adler_ref l 1 0 in ab.2 * 2 ^ 16 + ab.1.
Proof.
  intros Hl. destruct l as [|x l]; [reflexivity|]. by rewrite adler32_spec.
Qed.

(** [ComputeHex] selects by name, ignoring case: a name of an algorithm
    gives that algorithm's reference checksum or digest in lower-case
    hexadecimal, any other name the empty string. *)
Theorem ComputeHex_correct stack name l :
  length stack = 64%nat -> bytes_ok l ->
  (forall a, List.map tolower name ∈ algo_names a ->
     ComputeHexByName stack name (Some l) (length l) = expected a l) /\
  ((forall a, List.map tolower name ∉ algo_names a) ->
     ComputeHexByName stack name (Some l) (length l) = []).
Proof.
  intros Hs Hl. unfold ComputeHexByName. generalize (List.map tolower name). clear name. intros s.
  assert (Hc : forall a, ComputeHex stack a (Some l) (length l) = expected a l).
  { intros a. destruct a; cbn [ComputeHex expected]; rewrite ?print_0x08x_bytes; f_equal; f_equal.
    - f_equal. by apply (crc_run_full kCrc32Poly).
    - f_equal. by apply (crc_run_full kCrc32cPoly).
    - by rewrite adler_spec.
    - unfold Md5Hex. f_equal. by apply Md5_impl.Md5_spec.
    - unfold Sha1Hex. f_equal. by apply Sha1_impl.Sha1_spec.
    - unfold Sha256Hex. f_equal. by apply Sha256_impl.Sha256_spec. }
  split.
  - intros a Ha.
    destruct a; cbn [algo_names] in Ha; repeat (apply elem_of_cons in Ha as [Ha|Ha]; [subst s; apply Hc|]);
      by apply elem_of_nil in Ha.
  - intros Hn.
    assert (Hne : forall a x, x ∈ algo_names a -> streq s x = false).
    { intros a x Hx. apply bool_decide_eq_false. intros ->. by apply (Hn a). }
    rewrite !(Hne CRC32), !(Hne CRC32C), !(Hne ADLER32), !(Hne MD5), !(Hne SHA1), !(Hne SHA256)
      by (cbn [algo_names]; rewrite !elem_of_cons; tauto). done.
Qed.

Lemma ComputeHex_correct_witness :
  ComputeHexByName (replicate 64 0) (str "SHA-1") (Some [97; 98; 99]) 3 = expected SHA1 [97; 98; 99].
Proof.
  destruct (ComputeHex_correct (replicate 64 0) (str "SHA-1") [97; 98; 99]) as [H _];
    [reflexivity|by repeat constructor|].
  apply (H SHA1). by right; left.
Defined.

End Dispatch.
