(* ===== verification/Leb128.v ===== *)
(** * LEB128 (engine/nmmvm/vm/Leb128.h)

    A [const u1 *] is an offset into the bytes [mem] of the object it points
    into; a read past either end is [None].  [readUnsignedLeb128] and
    [readSignedLeb128] are the unrolled readers of the source, the writer and
    the size function its loops. *)
From S2P Require Import Prelude.
Local Open Scope cint_scope.

Module Leb128.

Section Read.
Context (mem : list Z).

(** [cur = *(ptr++)] *)
Abbreviation byte ptr k := (match mem !!z ptr with Some cur => k cur | None => None end).

Definition readUnsignedLeb128 (ptr : Z) : option (Z * Z) :=
  byte ptr (fun result =>
  if 0x7f <? result then
    byte (ptr + 1) (fun cur =>
    let result := (result & 0x7f) .| ((cur & 0x7f) << 7) in
    if 0x7f <? cur then
      byte (ptr + 2) (fun cur =>
      let result := result .| ((cur & 0x7f) << 14) in
      if 0x7f <? cur then
        byte (ptr + 3) (fun cur =>
        let result := result .| ((cur & 0x7f) << 21) in
        if 0x7f <? cur then
          byte (ptr + 4) (fun cur => Some (result .| S32 (cur << 28), ptr + 5))
        else Some (result, ptr + 4))
      else Some (result, ptr + 3))
    else Some (result, ptr + 2))
  else Some (result, ptr + 1)).

Definition readSignedLeb128 (ptr : Z) : option (Z * Z) :=
  byte ptr (fun result =>
  if result <=? 0x7f then Some (S32 (result << 25) >> 25, ptr + 1)
  else
    byte (ptr + 1) (fun cur =>
    let result := (result & 0x7f) .| ((cur & 0x7f) << 7) in
    if cur <=? 0x7f then Some (S32 (result << 18) >> 18, ptr + 2)
    else
      byte (ptr + 2) (fun cur =>
      let result := result .| ((cur & 0x7f) << 14) in
      if cur <=? 0x7f then Some (S32 (result << 11) >> 11, ptr + 3)
      else
        byte (ptr + 3) (fun cur =>
        let result := result .| ((cur & 0x7f) << 21) in
        if cur <=? 0x7f then Some (S32 (result << 4) >> 4, ptr + 4)
        else
          byte (ptr + 4) (fun cur => Some (result .| S32 (cur << 28), ptr + 5)))))).

End Read.

(** [while (true)]: the bytes stored from [ptr] on. *)
Fixpoint write_loop (fuel : nat) (data : Z) : option (list Z) :=
  match fuel with
  | O => None
  | S f =>
      let out := data & 0x7f in
      if negb (out =? data) then
        match write_loop f (data >> 7) with
        | Some l => Some ((out .| 0x80) :: l)
        | None => None
        end
      else Some [out]
  end.
Definition writeUnsignedLeb128 (data : Z) : option (list Z) := write_loop 5 data.

(** [do { data >>= 7; count++; } while (data != 0);] *)
Fixpoint size_loop (fuel : nat) (data count : Z) : option Z :=
  match fuel with
  | O => None
  | S f =>
      let data := data >> 7 in
      let count := count + 1 in
      if negb (data =? 0) then size_loop f data count else Some count
  end.
Definition unsignedLeb128Size (data : Z) : option Z := size_loop 5 data 0.

(** ** Meaning of an encoding *)

(** The bytes of the encoding that starts at [ptr]: up to the first byte
    without the continuation bit, at most [n]. *)
Fixpoint span (mem : list Z) (n : nat) (ptr : Z) : option (list Z) :=
  match n with
  | O => Some []
  | S n' =>
      match mem !!z ptr with
      | None => None
      | Some cur =>
          if 0x7f <? cur then
            match span mem n' (ptr + 1) with Some l => Some (cur :: l) | None => None end
          else Some [cur]
      end
  end.

(** The seven-bit groups, least significant first. *)
Fixpoint groups (l : list Z) : Z :=
  match l with [] => 0 | x :: t => (x & 0x7f) .| (groups t << 7) end.

Lemma land_7f x : x & 0x7f = wrap 7 x.
Proof. change 0x7f with (2 ^ 7 - 1). by apply land_mask. Qed.

Lemma groups_nonneg l : 0 <= groups l.
Proof.
  induction l as [|x t IH]; simpl; [lia|]. rewrite land_7f. apply Z.lor_nonneg. split.
  - apply (wrap_in_u 7 x). lia.
  - by apply Z.shiftl_nonneg.
Qed.

Lemma groups_range l : in_u (7 * Z.of_nat (length l)) (groups l).
Proof.
  induction l as [|x t IH]; [done|].
  change (groups (x :: t)) with ((x & 0x7f) .| (groups t << 7)). simpl length. rewrite land_7f. apply testbit_in_u; [lia|].
  intros i Hi. rewrite Z.lor_spec, wrap_spec, Z.shiftl_spec by lia.
  destruct (Z.ltb_spec i 7); [lia|]. simpl.
  apply (in_u_testbit (7 * Z.of_nat (length t))); [lia|done|lia].
Qed.

(** Sign extension by a pair of shifts. *)
Lemma sign_extend k x : 0 <= k < 32 -> S32 (x << k) >> k = swrap (32 - k) x.
Proof.
  intros Hk. replace 32 with ((32 - k) + k) at 1 by lia.
  rewrite swrap_shiftl, Z.shiftr_shiftl_l, Z.sub_diag by lia. by rewrite Z.shiftl_0_r.
Qed.

(** The unchecked fifth byte. *)
Lemma fifth_byte r cur : in_u 28 r -> r .| S32 (cur << 28) = S32 (r .| ((cur & 0x7f) << 28)).
Proof.
  intros Hr. change 32 with (4 + 28) at 1. rewrite swrap_shiftl by lia.
  rewrite !(Z.lor_comm r), !lor_shiftl_add by done || lia.
  assert (Hs : in_s 4 (swrap 4 cur)) by (by apply swrap_in_s).
  rewrite (swrap_cong 32 _ (swrap 4 cur * 2 ^ 28 + r)).
  - symmetry. apply swrap_small; [done|]. unfold in_s, in_u in *. simpl in *. lia.
  - rewrite land_7f. unfold wrap.
    rewrite <- (Zplus_mod_idemp_l (_ * _)), <- (Zplus_mod_idemp_l (swrap 4 cur * _)).
    do 2 f_equal. change (2 ^ 32) with (2 ^ 4 * 2 ^ 28). rewrite !Z.mul_mod_distr_r by done. f_equal.
    change (wrap 4 (wrap 7 cur) = wrap 4 (swrap 4 cur)). by rewrite wrap_wrap_le, wrap_swrap by lia.
Qed.

Lemma groups_1 a : in_u 8 a -> a <= 0x7f -> groups [a] = a.
Proof.
  intros Ha H. simpl. rewrite Z.shiftl_0_l, Z.lor_0_r, land_7f. apply wrap_small. unfold in_u in *. lia.
Qed.
Lemma groups_2 a c : groups [a; c] = (a & 0x7f) .| ((c & 0x7f) << 7).
Proof. cbn [groups]. by rewrite Z.shiftl_0_l, Z.lor_0_r. Qed.
Lemma groups_3 a c d : groups [a; c; d] = (a & 0x7f) .| ((c & 0x7f) << 7) .| ((d & 0x7f) << 14).
Proof. cbn [groups]. by rewrite Z.shiftl_0_l, Z.lor_0_r, !Z.shiftl_lor, !Z.shiftl_shiftl, !Z.lor_assoc by lia. Qed.
Lemma groups_4 a c d e : groups [a; c; d; e] =
  (a & 0x7f) .| ((c & 0x7f) << 7) .| ((d & 0x7f) << 14) .| ((e & 0x7f) << 21).
Proof. cbn [groups]. by rewrite Z.shiftl_0_l, Z.lor_0_r, !Z.shiftl_lor, !Z.shiftl_shiftl, !Z.lor_assoc by lia. Qed.
Lemma groups_5 a c d e f : groups [a; c; d; e; f] =
  (a & 0x7f) .| ((c & 0x7f) << 7) .| ((d & 0x7f) << 14) .| ((e & 0x7f) << 21) .| ((f & 0x7f) << 28).
Proof. cbn [groups]. by rewrite Z.shiftl_0_l, Z.lor_0_r, !Z.shiftl_lor, !Z.shiftl_shiftl, !Z.lor_assoc by lia. Qed.

(** [swrap] of up to four groups is the plain value. *)
Lemma groups_s32 l : (length l <= 4)%nat -> S32 (groups l) = groups l.
Proof.
  intros Hl. apply swrap_small; [done|]. pose proof (groups_range l) as [H0 H1]. split; [lia|].
  eapply Z.lt_le_trans; [done|]. apply Z.pow_le_mono_r; lia.
Qed.

Lemma readUnsigned_span mem ptr : bytes_ok mem ->
  readUnsignedLeb128 mem ptr =
  match span mem 5 ptr with
  | Some l => Some (S32 (groups l), ptr + Z.of_nat (length l))
  | None => None
  end.
Proof.
  intros Hm. unfold readUnsignedLeb128. cbn [span].
  destruct (mem !!z ptr) as [a|] eqn:Ea; [|done].
  pose proof (zlookup_Forall _ _ _ _ Hm Ea) as Ha. simpl in Ha.
  destruct (Z.ltb_spec 0x7f a); [|by rewrite groups_s32, groups_1 by (simpl; done || lia)].
  replace (ptr + 1 + 1) with (ptr + 2) by lia. replace (ptr + 2 + 1) with (ptr + 3) by lia.
  replace (ptr + 3 + 1) with (ptr + 4) by lia.
  destruct (mem !!z (ptr + 1)) as [c|]; [|done].
  destruct (Z.ltb_spec 0x7f c); [|by rewrite groups_s32, groups_2 by (simpl; lia)].
  destruct (mem !!z (ptr + 2)) as [d|]; [|done].
  destruct (Z.ltb_spec 0x7f d); [|by rewrite groups_s32, groups_3 by (simpl; lia)].
  destruct (mem !!z (ptr + 3)) as [e|]; [|done].
  destruct (Z.ltb_spec 0x7f e); [|by rewrite groups_s32, groups_4 by (simpl; lia)].
  destruct (mem !!z (ptr + 4)) as [f|]; [|done].
  rewrite fifth_byte by (rewrite <- groups_4; apply (groups_range [a; c; d; e])).
  by destruct (0x7f <? f); rewrite groups_5.
Qed.

Lemma readSigned_span mem ptr : bytes_ok mem ->
  readSignedLeb128 mem ptr =
  match span mem 5 ptr with
  | Some l => Some (swrap (Z.min 32 (7 * Z.of_nat (length l))) (groups l), ptr + Z.of_nat (length l))
  | None => None
  end.
Proof.
  intros Hm. unfold readSignedLeb128. cbn [span].
  destruct (mem !!z ptr) as [a|] eqn:Ea; [|done].
  pose proof (zlookup_Forall _ _ _ _ Hm Ea) as Ha. simpl in Ha.
  rewrite (Z.leb_antisym 0x7f a). destruct (Z.ltb_spec 0x7f a); cbn [negb]; [|by rewrite sign_extend, groups_1 by (done || lia)].
  replace (ptr + 1 + 1) with (ptr + 2) by lia. replace (ptr + 2 + 1) with (ptr + 3) by lia.
  replace (ptr + 3 + 1) with (ptr + 4) by lia.
  destruct (mem !!z (ptr + 1)) as [c|]; [|done].
  rewrite (Z.leb_antisym 0x7f c). destruct (Z.ltb_spec 0x7f c); cbn [negb]; [|by rewrite sign_extend, groups_2 by lia].
  destruct (mem !!z (ptr + 2)) as [d|]; [|done].
  rewrite (Z.leb_antisym 0x7f d). destruct (Z.ltb_spec 0x7f d); cbn [negb]; [|by rewrite sign_extend, groups_3 by lia].
  destruct (mem !!z (ptr + 3)) as [e|]; [|done].
  rewrite (Z.leb_antisym 0x7f e). destruct (Z.ltb_spec 0x7f e); cbn [negb]; [|by rewrite sign_extend, groups_4 by lia].
  destruct (mem !!z (ptr + 4)) as [f|]; [|done].
  rewrite fifth_byte by (rewrite <- groups_4; apply (groups_range [a; c; d; e])).
  by destruct (0x7f <? f); rewrite groups_5.
Qed.

(** ** The writer *)

Lemma zlookup_middle {A} (pre post : list A) x :
  (pre ++ x :: post) !!z Z.of_nat (length pre) = Some x.
Proof.
  unfold zlookup. destruct (Z.leb_spec 0 (Z.of_nat (length pre))); [|lia].
  rewrite Nat2Z.id. by apply list_lookup_middle.
Qed.

Lemma out_eq_data data : 0 <= data -> (data & 0x7f =? data) = (data <? 128).
Proof.
  intros H. rewrite land_7f. unfold wrap. change (2 ^ 7) with 128.
  pose proof (Z.mod_pos_bound data 128 ltac:(lia)).
  destruct (Z.ltb_spec data 128); [apply Z.eqb_eq, Z.mod_small|apply Z.eqb_neq]; lia.
Qed.

(** Enough fuel: [n] groups suffice for a value below [2^(7 n)]. *)
Lemma write_loop_total n data : in_u (7 * Z.of_nat n) data -> (0 < n)%nat ->
  exists l, write_loop n data = Some l /\ size_loop n data 0 = Some (Z.of_nat (length l)) /\
    (1 <= length l <= n)%nat /\ bytes_ok l /\ groups l = data /\
    (forall pre post, span (pre ++ l ++ post) n (Z.of_nat (length pre)) = Some l).
Proof.
  assert (Hcount : forall n data k, size_loop n data k =
    match size_loop n data 0 with Some c => Some (c + k) | None => None end).
  { clear. induction n as [|n IH]; intros data k; simpl; [done|].
    case_match; [|f_equal; lia]. rewrite IH, (IH _ 1). destruct (size_loop n _ 0); [f_equal; lia|done]. }
  revert data. induction n as [|n IH]; intros data Hd Hn; [lia|]. clear Hn.
  assert (H0 : 0 <= data) by apply Hd. cbn [write_loop size_loop]. rewrite out_eq_data by done.
  assert (Hq : (data >> 7 =? 0) = (data <? 128)).
  { rewrite Z.shiftr_div_pow2 by lia. change (2 ^ 7) with 128.
    destruct (Z.ltb_spec data 128); [apply Z.eqb_eq, Z.div_small; lia|].
    apply Z.eqb_neq. assert (1 <= data / 128) by (apply Z.div_le_lower_bound; lia). lia. }
  rewrite Hq. destruct (Z.ltb_spec data 128) as [Hs|Hs]; cbn [negb].
  - exists [data & 0x7f]. rewrite land_7f, (wrap_small 7) by (unfold in_u; lia).
    split_and!; try done; simpl; try lia.
    + repeat constructor; unfold in_u; lia.
    + rewrite Z.shiftl_0_l, Z.lor_0_r, land_7f. apply wrap_small. unfold in_u. lia.
    + intros pre post. rewrite zlookup_middle. destruct (Z.ltb_spec 0x7f data); [lia|done].
  - assert (Hd' : in_u (7 * Z.of_nat n) (data >> 7)).
    { rewrite Z.shiftr_div_pow2 by lia. destruct Hd as [_ Hd]. split; [by apply Z.div_pos|].
      apply Z.div_lt_upper_bound; [done|]. rewrite <- Z.pow_add_r by lia.
      by replace (7 + 7 * Z.of_nat n) with (7 * Z.of_nat (S n)) by lia. }
    destruct n as [|n].
    { unfold in_u in Hd. simpl in Hd. lia. }
    assert (Hm : (0 < S n)%nat) by lia. set (m := S n) in *. clearbody m. clear n. rename m into n.
    destruct (IH (data >> 7) Hd' ltac:(lia)) as (l & Hw & Hsz & Hlen & Hok & Hg & Hspan).
    rewrite Hw. exists ((data & 0x7f .| 0x80) :: l).
    assert (Hb : data & 0x7f .| 0x80 = 128 + wrap 7 data).
    { rewrite land_7f, Z.lor_comm. change 0x80 with (1 << 7) at 1. rewrite lor_shiftl_add; [lia|lia|by apply wrap_in_u]. }
    assert (Hw7 : in_u 7 (wrap 7 data)) by (by apply wrap_in_u). unfold in_u in Hw7.
    split_and!; [done|by rewrite Hcount, Hsz; simpl; f_equal; lia|simpl; lia|simpl; lia|..].
    + constructor; [rewrite Hb; unfold in_u; simpl in *; lia|done].
    + simpl. rewrite Hg, land_7f, Hb.
      replace (wrap 7 (128 + wrap 7 data)) with (wrap 7 data).
      * rewrite Z.lor_comm, lor_shiftl_add by (lia || by apply wrap_in_u).
        rewrite Z.shiftr_div_pow2 by lia. unfold wrap. pose proof (Z.div_mod data (2 ^ 7)). lia.
      * unfold wrap. rewrite Zplus_mod_idemp_r. change 128 with (1 * 2 ^ 7). rewrite Z.add_comm.
        by rewrite Z.mod_add.
    + intros pre post. cbn [span app]. rewrite zlookup_middle, Hb.
      destruct (Z.ltb_spec 0x7f (128 + wrap 7 data)); [|lia].
      specialize (Hspan (pre ++ [data & 0x7f .| 0x80]) post).
      rewrite <- app_assoc, length_app, Nat2Z.inj_add, Hb in Hspan. simpl app in Hspan. simpl length in Hspan.
      change (Z.of_nat 1) with 1 in Hspan. by rewrite Hspan.
Qed.

(** ** Properties *)

(** the readers decode exactly the encoding that starts at the pointer -
    the bytes up to the first without a continuation bit, at most five: the
    unsigned reader returns the 7-bit groups as a 32-bit integer, whatever
    the spare bits of the fifth byte, the signed one their sign extension
    from the top bit of the last group; both advance past the encoding and
    fail only where it runs past the data. *)
Theorem readLeb128_meaning mem ptr : bytes_ok mem ->
  readUnsignedLeb128 mem ptr =
  match span mem 5 ptr with
  | Some l => Some (S32 (groups l), ptr + Z.of_nat (length l))
  | None => None
  end /\
  readSignedLeb128 mem ptr =
  match span mem 5 ptr with
  | Some l => Some (swrap (Z.min 32 (7 * Z.of_nat (length l))) (groups l), ptr + Z.of_nat (length l))
  | None => None
  end.
Proof. intros. split; [by apply readUnsigned_span|by apply readSigned_span]. Qed.

(** for every 32-bit value the writer stops within five bytes, writes
    [unsignedLeb128Size] of them, and reading them back anywhere in memory
    gives the value and the end of the encoding. *)
Theorem writeUnsignedLeb128_roundtrip data : in_u 32 data ->
  exists l, writeUnsignedLeb128 data = Some l /\
    unsignedLeb128Size data = Some (Z.of_nat (length l)) /\ (1 <= length l <= 5)%nat /\
    forall pre post, bytes_ok (pre ++ l ++ post) ->
      readUnsignedLeb128 (pre ++ l ++ post) (Z.of_nat (length pre)) =
      Some (S32 data, Z.of_nat (length pre) + Z.of_nat (length l)).
Proof.
  intros Hd. destruct (write_loop_total 5 data) as (l & Hw & Hs & Hlen & _ & Hg & Hspan); [|lia|].
  { eapply in_u_mono; [|exact Hd]. lia. }
  exists l. split_and!; [done..|lia|lia|]. intros pre post Hok.
  by rewrite readUnsigned_span, Hspan, Hg.
Qed.

Lemma readLeb128_meaning_witness :
  readSignedLeb128 [0x80; 0x7f; 3] 0 = Some (-128, 2).
Proof.
  destruct (readLeb128_meaning [0x80; 0x7f; 3] 0) as [_ H]; [by repeat constructor|]. exact H.
Defined.

Lemma writeUnsignedLeb128_roundtrip_witness :
  exists l, writeUnsignedLeb128 0xffffffff = Some l /\ length l = 5%nat /\
    readUnsignedLeb128 ([1] ++ l ++ [2]) 1 = Some (-1, 6).
Proof.
  destruct (writeUnsignedLeb128_roundtrip 0xffffffff) as (l & Hw & _ & _ & Hr); [done|].
  exists l. injection Hw as <-. split_and!; [done|done|]. apply (Hr [1] [2]). by repeat constructor.
Defined.

End Leb128.
