(* ===== verification/DexCatch.v ===== *)
(** * Try/catch tables (engine/nmmvm/vm/DexCatch.h, DexCatch.cpp)

    The table of a method: sorted [try_item]s followed by the encoded
    handler lists.  A pointer into the encoded data is an offset into
    [handlerData]; an access outside the tables is [None]. *)
From Stdlib Require Import Sorting.Sorted.
From S2P Require Import Prelude Leb128.
Import Leb128.
Local Open Scope cint_scope.

Module DexCatch.

Record VmCatchHandler := MkHandler { typeIdx : Z; address : Z }.
Record TryItem := MkTryItem { startAddr : Z; insnCount : Z; handlerOff : Z }.
(** The bytes after [tryItems[triesSize]] are [handlerData]. *)
Record TryCatchHandler := MkTryCatchHandler {
  triesSize : Z; tryItems : list TryItem; handlerData : list Z }.
Record VmCatchIterator := MkIterator {
  pEncodedData : option Z; catchesAll : bool; countRemaining : Z; handler : VmCatchHandler }.

Definition kNoIndex : Z := 0xffffffff.

Definition vmCatchIteratorClear : VmCatchIterator := MkIterator None false 0 (MkHandler 0 0).

Section Iterator.
Context (pHandler : TryCatchHandler).
Let mem := handlerData pHandler.

(** [handler0]: the fields left as they were. *)
Definition vmCatchIteratorInit (handler0 : VmCatchHandler) (offset : Z) : option VmCatchIterator :=
  '(count, p) ← readSignedLeb128 mem offset;
  if count <=? 0
  then Some (MkIterator (Some p) true (U32 (S32 (- count))) handler0)
  else Some (MkIterator (Some p) false (U32 count) handler0).

Definition vmCatchIteratorNext (it : VmCatchIterator) : option (option VmCatchHandler * VmCatchIterator) :=
  let read_address (it : VmCatchIterator) :=
    p ← pEncodedData it;
    '(a, p) ← readUnsignedLeb128 mem p;
    let h := MkHandler (typeIdx (handler it)) (U32 a) in
    Some (Some h, MkIterator (Some p) (catchesAll it) (countRemaining it) h) in
  if countRemaining it =? 0 then
    if negb (catchesAll it) then Some (None, it)
    else read_address (MkIterator (pEncodedData it) false (countRemaining it)
                         (MkHandler kNoIndex (address (handler it))))
  else
    p ← pEncodedData it;
    '(t, p) ← readUnsignedLeb128 mem p;
    read_address (MkIterator (Some p) (catchesAll it) (countRemaining it - 1)
                    (MkHandler (U32 t) (address (handler it)))).

(** [while (vmCatchIteratorNext(pIterator) != NULL)] *)
Fixpoint exhaust (fuel : nat) (it : VmCatchIterator) : option VmCatchIterator :=
  match fuel with
  | O => None
  | S f => '(h, it) ← vmCatchIteratorNext it;
           match h with Some _ => exhaust f it | None => Some it end
  end.

Definition vmCatchIteratorGetEndOffset (it : VmCatchIterator) : option (Z * VmCatchIterator) :=
  it ← exhaust (Z.to_nat (countRemaining it) + 2) it;
  p ← pEncodedData it;
  Some (U32 p, it).

End Iterator.

(** The binary search; [None] is an access outside [pTries]. *)
Fixpoint find_loop (fuel : nat) (pTries : list TryItem) (addr min max : Z) : option Z :=
  match fuel with
  | O => None
  | S f =>
      if min <=? max then
        let guess := (min + max) >> 1 in
        pTry ← pTries !!z guess;
        let start := startAddr pTry in
        if addr <? start then find_loop f pTries addr min (guess - 1)
        else
          let end_ := U32 (start + insnCount pTry) in
          if end_ <=? addr then find_loop f pTries addr (guess + 1) max
          else Some (handlerOff pTry)
      else Some (-1)
  end.
Definition vmFindCatchHandlerOffset0 (triesSize : Z) (pTries : list TryItem) (addr : Z) : option Z :=
  find_loop (Z.to_nat triesSize + 1) pTries addr 0 (triesSize - 1).

(** The result is the return value and the iterator; [handler0] are the
    bytes of the iterator's [handler] before the call. *)
Definition vmFindCatchHandler (handler0 : VmCatchHandler) (pHandler : TryCatchHandler) (addr : Z)
  : option (bool * VmCatchIterator) :=
  let tries := tryItems pHandler in
  offset ←
    (if triesSize pHandler =? 0 then Some (-1)
     else if triesSize pHandler =? 1 then
       t ← tries !!z 0;
       let start := startAddr t in
       if addr <? start then Some (-1)
       else
         let end_ := U32 (start + insnCount t) in
         if end_ <=? addr then Some (-1) else Some (handlerOff t)
     else vmFindCatchHandlerOffset0 (triesSize pHandler) tries addr);
  if offset <? 0 then Some (false, vmCatchIteratorClear)
  else it ← vmCatchIteratorInit pHandler handler0 offset; Some (true, it).

(** ** What the tables mean *)

Definition covers (addr : Z) (t : TryItem) : Prop :=
  startAddr t <= addr < startAddr t + insnCount t.
#[export] Instance covers_dec addr t : Decision (covers addr t).
Proof. unfold covers. apply _. Defined.

Definition try_ok (t : TryItem) : Prop :=
  in_u 32 (startAddr t) /\ in_u 16 (insnCount t) /\ in_u 16 (handlerOff t) /\
  startAddr t + insnCount t < 2 ^ 32.
#[export] Instance try_ok_dec t : Decision (try_ok t).
Proof. unfold try_ok. apply _. Defined.

(** The DEX format: ranges in increasing order, without overlap. *)
Definition try_lt (a b : TryItem) : Prop := startAddr a + insnCount a <= startAddr b.
Definition tries_ok (l : list TryItem) : Prop := Forall try_ok l /\ StronglySorted try_lt l.

(** Linear search. *)
Fixpoint find_try (l : list TryItem) (addr : Z) : option TryItem :=
  match l with
  | [] => None
  | t :: l => if decide (covers addr t) then Some t else find_try l addr
  end.

(** [n] (type, address) pairs from [p] on. *)
Fixpoint pairs_at (mem : list Z) (n : nat) (p : Z) : option (list VmCatchHandler * Z) :=
  match n with
  | O => Some ([], p)
  | S n =>
      '(t, p) ← readUnsignedLeb128 mem p;
      '(a, p) ← readUnsignedLeb128 mem p;
      '(hs, p) ← pairs_at mem n p;
      Some (MkHandler (U32 t) (U32 a) :: hs, p)
  end.
(** An [encoded_catch_handler]: a signed size, that many pairs, and a
    catch-all address when the size is not positive. *)
Definition handlers_at (mem : list Z) (off : Z) : option (list VmCatchHandler * Z) :=
  '(count, p) ← readSignedLeb128 mem off;
  '(hs, p) ← pairs_at mem (Z.to_nat (Z.abs count)) p;
  if count <=? 0 then
    '(a, p) ← readUnsignedLeb128 mem p;
    Some (hs ++ [MkHandler kNoIndex (U32 a)], p)
  else Some (hs, p).

(** The handlers an iterator goes through, and the iterator at the end. *)
Fixpoint drain (pHandler : TryCatchHandler) (fuel : nat) (it : VmCatchIterator)
  : option (list VmCatchHandler * VmCatchIterator) :=
  match fuel with
  | O => None
  | S f => '(h, it) ← vmCatchIteratorNext pHandler it;
           match h with
           | None => Some ([], it)
           | Some h => '(hs, it) ← drain pHandler f it; Some (h :: hs, it)
           end
  end.

(** ** Binary search *)

Lemma tries_lookup_lt l i j a b : tries_ok l -> l !! i = Some a -> l !! j = Some b ->
  (i < j)%nat -> startAddr a + insnCount a <= startAddr b.
Proof.
  intros [Hall Hs]. revert i j. induction Hs as [|t l Hs IH Ht]; intros i j Ha Hb Hij; [done|].
  destruct j as [|j]; [lia|]. destruct i as [|i]; simpl in *.
  - injection Ha as ->. rewrite List.Forall_forall in Ht. by eapply Ht, list_elem_of_In, list_elem_of_lookup_2.
  - inversion Hall; subst. eapply IH; eauto. lia.
Qed.

Lemma find_try_Some l addr i t : tries_ok l -> l !! i = Some t -> covers addr t ->
  find_try l addr = Some t.
Proof.
  intros Hok. pose proof Hok as [Hall Hs]. revert i. induction l as [|t' l IH]; intros i Hi Hc; [done|].
  simpl. destruct i as [|i]; simpl in Hi; [injection Hi as ->; by rewrite decide_True|].
  case_decide as Hc'; [|eapply IH; [| | |exact Hi|done]; (split || idtac); by inversion Hall; inversion Hs].
  pose proof (tries_lookup_lt _ 0 (S i) t' t Hok eq_refl Hi ltac:(lia)).
  unfold covers in *. inversion Hall as [|?? (H1 & H2 & _) _]; subst. unfold in_u in *. lia.
Qed.

Lemma find_try_None l addr : (forall i t, l !! i = Some t -> ~ covers addr t) -> find_try l addr = None.
Proof.
  induction l as [|t l IH]; intros H; simpl; [done|].
  rewrite decide_False by (apply (H 0%nat); done). apply IH. intros i t' Hi. by apply (H (S i)).
Qed.

(** The loop keeps every covering entry in [min..max]. *)
Lemma find_loop_correct fuel l addr min max :
  tries_ok l -> in_u 32 addr ->
  0 <= min -> max < Z.of_nat (length l) -> min <= max + 1 ->
  (forall i t, l !! i = Some t -> covers addr t -> min <= Z.of_nat i <= max) ->
  max - min + 2 <= Z.of_nat fuel ->
  find_loop fuel l addr min max =
  Some (match find_try l addr with Some t => handlerOff t | None => -1 end).
Proof.
  intros Hok Ha. revert min max.
  induction fuel as [|f IH]; intros min max Hmin Hmax Hmm Hin Hf; [lia|]. simpl.
  destruct (Z.leb_spec min max) as [Hle|Hgt].
  2:{ rewrite find_try_None; [done|]. intros i t Hi Hc. specialize (Hin i t Hi Hc). lia. }
  rewrite Z.shiftr_div_pow2 by lia. change (2 ^ 1) with 2.
  assert (Hg : min <= (min + max) / 2 <= max).
  { split; [apply Z.div_le_lower_bound|apply Z.lt_succ_r, Z.div_lt_upper_bound]; lia. }
  set (g := (min + max) / 2) in *. clearbody g.
  destruct (zlookup_is_Some l g ltac:(lia)) as [t Ht]. rewrite Ht. simpl.
  unfold zlookup in Ht. destruct (Z.leb_spec 0 g) as [_|]; [|lia].
  assert (Htok : try_ok t) by (destruct Hok as [Hall _]; by eapply Forall_lookup_1).
  destruct Htok as (Hs & Hc & _ & Hend).
  assert (Hw : U32 (startAddr t + insnCount t) = startAddr t + insnCount t).
  { apply wrap_small. unfold in_u in *. lia. }
  rewrite Hw. destruct (Z.ltb_spec addr (startAddr t)) as [Hlt|Hge].
  - apply IH; try lia. intros i t' Hi Hcov. pose proof (Hin i t' Hi Hcov). split; [lia|].
    destruct (decide (Z.of_nat i < g)); [lia|]. exfalso.
    destruct (decide (Z.of_nat i = g)) as [Heq|Hne].
    + subst g. rewrite Nat2Z.id in Ht. unfold covers in Hcov. simplify_eq. lia.
    + pose proof (tries_lookup_lt _ _ _ _ _ Hok Ht Hi ltac:(lia)). unfold covers, in_u in *. lia.
  - destruct (Z.leb_spec (startAddr t + insnCount t) addr) as [Hge'|Hlt].
    + apply IH; try lia. intros i t' Hi Hcov. pose proof (Hin i t' Hi Hcov). split; [|lia].
      destruct (decide (g < Z.of_nat i)); [lia|]. exfalso.
      destruct (decide (Z.of_nat i = g)) as [Heq|Hne].
      * subst g. rewrite Nat2Z.id in Ht. unfold covers in Hcov. simplify_eq. lia.
      * pose proof (tries_lookup_lt _ _ _ _ _ Hok Hi Ht ltac:(lia)). unfold covers, in_u in *. lia.
    + by rewrite (find_try_Some l addr _ t Hok Ht).
Qed.

(** ** Iteration *)

Section Drain.
Context (pHandler : TryCatchHandler).
Let mem := handlerData pHandler.

Lemma exhaust_drain f it : exhaust pHandler f it =
  match drain pHandler f it with Some (_, it') => Some it' | None => None end.
Proof.
  revert it. induction f as [|f IH]; intros it; simpl; [done|].
  destruct (vmCatchIteratorNext pHandler it) as [[[h|] it']|]; simpl; [|done..].
  rewrite IH. by destruct (drain pHandler f it') as [[??]|].
Qed.

Lemma drain_pairs n p hs p' ca h k : pairs_at mem n p = Some (hs, p') ->
  exists h', drain pHandler (n + k) (MkIterator (Some p) ca (Z.of_nat n) h) =
    match drain pHandler k (MkIterator (Some p') ca 0 h') with
    | Some (tl, it) => Some (hs ++ tl, it)
    | None => None
    end.
Proof.
  revert p hs h. induction n as [|n IH]; intros p hs h Hp.
  - injection Hp as <- ->. exists h. simpl. by destruct (drain pHandler k _) as [[??]|].
  - cbn [pairs_at] in Hp. cbn [drain Nat.add]. unfold vmCatchIteratorNext at 1.
    cbn [countRemaining pEncodedData].
    destruct (Z.eqb_spec (Z.of_nat (S n)) 0); [lia|]. cbn [mbind option_bind].
    fold mem. unfold mbind, option_bind in Hp |- *.
    destruct (readUnsignedLeb128 mem p) as [[t p1]|]; [|done]. cbn [pEncodedData].
    destruct (readUnsignedLeb128 mem p1) as [[a p2]|]; [|done].
    destruct (pairs_at mem n p2) as [[hs2 p3]|] eqn:E; [|done]. injection Hp as <- <-.
    cbn [typeIdx handler catchesAll countRemaining].
    destruct (IH p2 hs2 (MkHandler (U32 t) (U32 a)) E) as [h' Hd]. exists h'.
    replace (Z.of_nat (S n) - 1) with (Z.of_nat n) by lia. rewrite Hd.
    by destruct (drain pHandler k _) as [[??]|].
Qed.

Lemma handlers_drain off hs e h0 : bytes_ok mem -> handlers_at mem off = Some (hs, e) ->
  exists it it', vmCatchIteratorInit pHandler h0 off = Some it /\
    drain pHandler (Z.to_nat (countRemaining it) + 2) it = Some (hs, it') /\
    pEncodedData it' = Some e /\ vmCatchIteratorNext pHandler it' = Some (None, it').
Proof.
  intros Hm. unfold handlers_at, vmCatchIteratorInit, mbind, option_bind. fold mem.
  rewrite readSigned_span by done. destruct (span mem 5 off) as [l|] eqn:El; [|done].
  set (c := swrap _ _). assert (Hc : in_s 32 c).
  { assert (Hs : in_s (Z.min 32 (7 * Z.of_nat (length l))) c).
    { apply swrap_in_s. destruct l; [|simpl; lia]. revert El. simpl.
      destruct (mem !!z off); [|done]. repeat case_match; intros; simplify_eq. }
    unfold in_s in *. pose proof (Z.pow_le_mono_r 2 (Z.min 32 (7 * Z.of_nat (length l)) - 1) (32 - 1)). lia. }
  clearbody c. set (p := off + _). clearbody p. clear El l.
  destruct (pairs_at mem (Z.to_nat (Z.abs c)) p) as [[hs1 p1]|] eqn:Ep; [|done].
  destruct (Z.leb_spec c 0) as [Hle|Hgt].
  - destruct (readUnsignedLeb128 mem p1) as [[a p2]|] eqn:Ea; [|done]. intros [= <- <-].
    assert (Hcnt : U32 (S32 (- c)) = Z.of_nat (Z.to_nat (Z.abs c))).
    { rewrite wrap_swrap, wrap_small; unfold in_s, in_u in *; lia. }
    destruct (drain_pairs _ _ _ _ true h0 2 Ep) as [h' Hd].
    rewrite Hcnt. do 2 eexists. split; [done|]. cbn [countRemaining]. rewrite Nat2Z.id, Hd. clear Hd.
    cbn [drain]. unfold vmCatchIteratorNext. cbn. unfold mbind, option_bind. fold mem. rewrite Ea. cbn.
    split_and!; done.
  - intros [= <- <-].
    assert (Hcnt : U32 c = Z.of_nat (Z.to_nat (Z.abs c))).
    { rewrite wrap_small; unfold in_s, in_u in *; lia. }
    destruct (drain_pairs _ _ _ _ false h0 2 Ep) as [h' Hd].
    rewrite Hcnt. do 2 eexists. split; [done|]. cbn [countRemaining]. rewrite Nat2Z.id, Hd. clear Hd.
    cbn. rewrite app_nil_r. split; [done|]. split; done.
Qed.

End Drain.

(** ** Properties *)

(** on a table of increasing, non-overlapping tries the binary search
    stops, never reads outside the table, and gives the handler offset of
    the only try that covers the address, or -1. *)
Theorem vmFindCatchHandlerOffset0_correct (l : list TryItem) (addr : Z) :
  tries_ok l -> in_u 32 addr ->
  vmFindCatchHandlerOffset0 (Z.of_nat (length l)) l addr =
  Some (match find_try l addr with Some t => handlerOff t | None => -1 end).
Proof.
  intros Hok Ha. apply find_loop_correct; try done; try lia.
  intros i t Hi _. apply lookup_lt_Some in Hi. lia.
Qed.

Lemma vmFindCatchHandler_offset h0 (pHandler : TryCatchHandler) addr :
  tries_ok (tryItems pHandler) -> triesSize pHandler = Z.of_nat (length (tryItems pHandler)) ->
  in_u 32 addr ->
  vmFindCatchHandler h0 pHandler addr =
  match find_try (tryItems pHandler) addr with
  | None => Some (false, vmCatchIteratorClear)
  | Some t => it ← vmCatchIteratorInit pHandler h0 (handlerOff t); Some (true, it)
  end.
Proof.
  intros Hok Hsz Ha. unfold vmFindCatchHandler. rewrite Hsz. set (l := tryItems pHandler) in *.
  set (off := match find_try l addr with Some t => handlerOff t | None => -1 end).
  match goal with |- context [mbind _ ?m] => assert (Hoff : m = Some off) end.
  { destruct (Z.eqb_spec (Z.of_nat (length l)) 0) as [E|E].
    { unfold off. destruct l; [done|simpl in E; lia]. }
    destruct (Z.eqb_spec (Z.of_nat (length l)) 1) as [E1|E1].
    - destruct l as [|t [|??]]; simpl in E, E1; try lia. cbn. unfold off. simpl.
      destruct Hok as [Hall _]. inversion Hall as [|?? (H1 & H2 & _ & H3) _]; subst. unfold in_u in *.
      rewrite (wrap_small 32) by (unfold in_u; lia). unfold covers.
      destruct (Z.ltb_spec addr (startAddr t)), (Z.leb_spec (startAddr t + insnCount t) addr);
        case_decide; done || lia.
    - unfold off. apply find_loop_correct; try done; try lia.
      intros i t Hi _. apply lookup_lt_Some in Hi. lia. }
  rewrite Hoff. simpl. unfold off. destruct (find_try l addr) as [t|] eqn:E; [|done].
  assert (Hin : exists i, l !! i = Some t).
  { clear -E. induction l as [|t' l IH]; simpl in E; [done|]. case_decide; [exists 0%nat; simpl; congruence|].
    destruct IH as [i ?]; [done|]. by exists (S i). }
  destruct Hin as [i Hi]. destruct Hok as [Hall _].
  assert (try_ok t) as (_ & _ & Hh & _) by (by eapply Forall_lookup_1). unfold in_u in Hh.
  destruct (Z.ltb_spec (handlerOff t) 0); [lia|done].
Qed.

(** C14: [vmFindCatchHandler] finds a handler exactly for the addresses a try
    covers (the short cuts for zero and one try included); the iterator then
    returns the encoded pairs in order, the catch-all last, and NULL from
    then on; [vmCatchIteratorGetEndOffset] stops at the end of that list. *)
Theorem vmFindCatchHandler_correct h0 (pHandler : TryCatchHandler) addr :
  tries_ok (tryItems pHandler) -> triesSize pHandler = Z.of_nat (length (tryItems pHandler)) ->
  bytes_ok (handlerData pHandler) -> in_u 32 addr ->
  match find_try (tryItems pHandler) addr with
  | None => vmFindCatchHandler h0 pHandler addr = Some (false, vmCatchIteratorClear)
  | Some t =>
      forall hs e, handlers_at (handlerData pHandler) (handlerOff t) = Some (hs, e) ->
      exists it it', vmFindCatchHandler h0 pHandler addr = Some (true, it) /\
        drain pHandler (Z.to_nat (countRemaining it) + 2) it = Some (hs, it') /\
        vmCatchIteratorNext pHandler it' = Some (None, it') /\
        vmCatchIteratorGetEndOffset pHandler it = Some (U32 e, it')
  end.
Proof.
  intros Hok Hsz Hm Ha. rewrite vmFindCatchHandler_offset by done.
  destruct (find_try (tryItems pHandler) addr) as [t|]; [|done]. intros hs e He.
  destruct (handlers_drain pHandler _ _ _ h0 Hm He) as (it & it' & Hi & Hd & Hp & Hn).
  exists it, it'. rewrite Hi. split_and!; [done..|].
  unfold vmCatchIteratorGetEndOffset. rewrite exhaust_drain, Hd. simpl. by rewrite Hp.
Qed.

(** ** Instances *)

(** Two tries; the second has a typed handler and a catch-all. *)
Definition sample : TryCatchHandler :=
  MkTryCatchHandler 2 [MkTryItem 0 4 1; MkTryItem 6 2 4] [2; 1; 5; 9; 0x7f; 7; 0x10; 0x20].

Lemma sample_tries : tries_ok (tryItems sample).
Proof.
  split; [repeat constructor; done|].
  repeat constructor. unfold try_lt. simpl. lia.
Qed.

Lemma vmFindCatchHandlerOffset0_correct_witness :
  vmFindCatchHandlerOffset0 2 (tryItems sample) 7 = Some 4.
Proof. apply (vmFindCatchHandlerOffset0_correct (tryItems sample) 7); [apply sample_tries|done]. Defined.

Lemma vmFindCatchHandler_correct_witness :
  exists it it', vmFindCatchHandler (MkHandler 0 0) sample 7 = Some (true, it) /\
    drain sample 3 it = Some ([MkHandler 7 0x10; MkHandler kNoIndex 0x20], it') /\
    vmCatchIteratorGetEndOffset sample it = Some (8, it').
Proof.
  destruct (vmFindCatchHandler_correct (MkHandler 0 0) sample 7 sample_tries eq_refl
    ltac:(by repeat constructor) ltac:(done) [MkHandler 7 0x10; MkHandler kNoIndex 0x20] 8 eq_refl)
    as (it & it' & H1 & H2 & _ & H4).
  exists it, it'. split; [exact H1|]. split; [|exact H4].
  vm_compute in H1. injection H1 as <-. exact H2.
Defined.

End DexCatch.
