(* ===== verification/CFloat.v ===== *)
(** * C floating point on register bits

    The interpreter keeps [float] and [double] values in its 64-bit
    registers.  A value is its IEEE 754 bit pattern; arithmetic is the
    Standard Library's [SpecFloat] (round to nearest even) at the two
    precisions.  The payload of a NaN an operation produces is not fixed by
    C; the canonical quiet NaN stands for it. *)
From Stdlib Require Import Floats.SpecFloat.
From S2P Require Import Prelude.
Local Open Scope cint_scope.

Module CFloat.

(** ** Formats *)
Section Format.
(** mantissa precision, exponent bound, and the width of the two fields *)
Context (prec emax mw ew : Z).

Definition emin : Z := 3 - emax - prec.

Definition decode (bits : Z) : spec_float :=
  let s := Z.testbit bits (mw + ew) in
  let e := (bits >> mw) mod 2 ^ ew in
  let m := bits mod 2 ^ mw in
  if e =? 2 ^ ew - 1 then (if m =? 0 then S754_infinity s else S754_nan)
  else if e =? 0 then
    match m with Zpos p => S754_finite s p emin | _ => S754_zero s end
  else
    match m + 2 ^ mw with Zpos p => S754_finite s p (e + emin - 1) | _ => S754_zero s end.

Definition sign_bit (s : bool) : Z := if s then 2 ^ (mw + ew) else 0.
Definition encode (x : spec_float) : Z :=
  match x with
  | S754_zero s => sign_bit s
  | S754_infinity s => sign_bit s + (2 ^ ew - 1) * 2 ^ mw
  | S754_nan => (2 ^ ew - 1) * 2 ^ mw + 2 ^ (mw - 1)
  | S754_finite s m e =>
      if Zpos m <? 2 ^ mw then sign_bit s + Zpos m
      else sign_bit s + (e - emin + 1) * 2 ^ mw + (Zpos m - 2 ^ mw)
  end.

(** The integer [m * 2^(e - emin)]: a finite value in units of [2^emin]. *)
Definition scaled (x : spec_float) : Z :=
  match x with
  | S754_finite s m e => (if s then -1 else 1) * (Zpos m * 2 ^ (e - emin))
  | _ => 0
  end.
Definition is_finite (x : spec_float) : bool :=
  match x with S754_zero _ | S754_finite _ _ _ => true | _ => false end.

(** Conversion from an integer, rounding. *)
Definition of_int (z : Z) : spec_float := binary_normalize prec emax z 0 false.

(** [fmod]: exact remainder, truncated quotient, sign of [x]. *)
Definition fmod (x y : spec_float) : spec_float :=
  match x, y with
  | S754_nan, _ | _, S754_nan => S754_nan
  | S754_infinity _, _ | _, S754_zero _ => S754_nan
  | _, S754_infinity _ | S754_zero _, _ => x
  | S754_finite s _ _, S754_finite _ _ _ =>
      let r := Z.rem (scaled x) (scaled y) in
      binary_normalize prec emax r emin s
  end.

(** [(T)val] for a value whose integral part fits [T]. *)
Definition trunc (x : spec_float) : Z := Z.quot (scaled x) (2 ^ (- emin)).

(** Canonical values: what [decode] produces. *)
Definition canonical (x : spec_float) : Prop :=
  match x with
  | S754_finite _ m e => emin <= e /\ Zpos m < 2 ^ prec /\ (emin < e -> 2 ^ (prec - 1) <= Zpos m)
  | _ => True
  end.
End Format.

(** [float] and [double] *)
Definition decode32 := decode 24 128 23 8.
Definition encode32 := encode 24 128 23 8.
Definition decode64 := decode 53 1024 52 11.
Definition encode64 := encode 53 1024 52 11.

(** ** The operations on bit patterns the interpreter uses *)

Inductive fty := F32 | F64.
Definition fprec (t : fty) : Z := match t with F32 => 24 | F64 => 53 end.
Definition femax (t : fty) : Z := match t with F32 => 128 | F64 => 1024 end.
Definition fmw (t : fty) : Z := match t with F32 => 23 | F64 => 52 end.
Definition few (t : fty) : Z := match t with F32 => 8 | F64 => 11 end.
Definition fwidth (t : fty) : Z := match t with F32 => 32 | F64 => 64 end.
Definition dec (t : fty) : Z -> spec_float := decode (fprec t) (femax t) (fmw t) (few t).
Definition enc (t : fty) : spec_float -> Z := encode (fprec t) (femax t) (fmw t) (few t).

Definition flift2 (op : Z -> Z -> spec_float -> spec_float -> spec_float) (t : fty) (a b : Z) : Z :=
  enc t (op (fprec t) (femax t) (dec t a) (dec t b)).
Definition fadd := flift2 SFadd.
Definition fsub := flift2 SFsub.
Definition fmul := flift2 SFmul.
Definition fdiv := flift2 SFdiv.
Definition frem := flift2 fmod.
(** [-x] flips the sign bit, of a NaN too. *)
Definition fneg (t : fty) (a : Z) : Z := a .^ 2 ^ (fwidth t - 1).

Definition feq (t : fty) (a b : Z) : bool := SFeqb (dec t a) (dec t b).
Definition flt (t : fty) (a b : Z) : bool := SFltb (dec t a) (dec t b).
Definition fle (t : fty) (a b : Z) : bool := SFleb (dec t a) (dec t b).

(** [(float) i], [(double) i] *)
Definition int_to (t : fty) (i : Z) : Z := enc t (of_int (fprec t) (femax t) i).
(** [(double) f] and [(float) d] *)
Definition fconv (from to : fty) (a : Z) : Z :=
  enc to (match dec from a with
          | S754_finite s m e => binary_normalize (fprec to) (femax to) (if s then Zneg m else Zpos m) e s
          | x => x
          end).
Definition ftrunc (t : fty) (a : Z) : Z := trunc (fprec t) (femax t) (dec t a).

Example add_half : fadd F64 0x3fe0000000000000 0x3fe0000000000000 = 0x3ff0000000000000.
Proof. vm_compute. reflexivity. Qed.
Example rem_5_3 : frem F32 0x40a00000 0xc0400000 = 0x40000000.
Proof. vm_compute. reflexivity. Qed.
Example int_to_float_rounds : int_to F32 16777217 = 0x4b800000.
Proof. vm_compute. reflexivity. Qed.
Example double_third : fdiv F64 (int_to F64 1) (int_to F64 3) = 0x3fd5555555555555.
Proof. vm_compute. reflexivity. Qed.
Example narrow : fconv F64 F32 0x3fd5555555555555 = 0x3eaaaaab.
Proof. vm_compute. reflexivity. Qed.

(** ** Lemmas *)

Definition fty_ok (t : fty) : Prop := fmw t = fprec t - 1 /\ 2 ^ few t = 2 * femax t /\
  0 < fmw t /\ 0 < few t /\ fwidth t = fmw t + few t + 1 /\ emin (fprec t) (femax t) < 0.
Lemma fty_ok_all t : fty_ok t.
Proof. destruct t; unfold fty_ok, emin; simpl; lia. Qed.

Lemma bits_split t bits : in_u (fwidth t) bits ->
  bits = sign_bit (fmw t) (few t) (Z.testbit bits (fmw t + few t)) +
    ((bits >> fmw t) mod 2 ^ few t) * 2 ^ fmw t + bits mod 2 ^ fmw t.
Proof.
  intros Hb. destruct (fty_ok_all t) as (_ & _ & Hm & He & Hw & _).
  set (mw := fmw t) in *. set (ew := few t) in *.
  rewrite Z.shiftr_div_pow2 by lia.
  assert (Hpm : 0 < 2 ^ mw) by (apply pow2_pos; lia). assert (Hpe : 0 < 2 ^ ew) by (apply pow2_pos; lia).
  pose proof (Z.div_mod bits (2 ^ mw) ltac:(lia)) as H1.
  pose proof (Z.div_mod (bits / 2 ^ mw) (2 ^ ew) ltac:(lia)) as H2.
  assert (Hq : bits / 2 ^ mw / 2 ^ ew = if Z.testbit bits (mw + ew) then 1 else 0).
  { rewrite Z.div_div, <- Z.pow_add_r by lia.
    pose proof (Z.testbit_spec' bits (mw + ew) ltac:(lia)) as Ht. rewrite Z.mod_small in Ht.
    - rewrite <- Ht. by destruct (Z.testbit bits (mw + ew)).
    - unfold in_u in Hb. rewrite Hw in Hb. split; [apply Z.div_pos; [lia|apply pow2_pos; lia]|].
      apply Z.div_lt_upper_bound; [apply pow2_pos; lia|].
      replace (2 ^ (mw + ew) * 2) with (2 ^ (mw + ew + 1)) by (rewrite Z.pow_add_r by lia; lia). lia. }
  rewrite Hq in H2. unfold sign_bit. rewrite Z.pow_add_r by lia.
  destruct (Z.testbit bits (mw + ew)); nia.
Qed.

(** [NaN] bit patterns. *)
Definition is_nan (t : fty) (bits : Z) : bool :=
  ((bits >> fmw t) mod 2 ^ few t =? 2 ^ few t - 1) && negb (bits mod 2 ^ fmw t =? 0).

Lemma enc_dec t bits : in_u (fwidth t) bits -> is_nan t bits = false -> enc t (dec t bits) = bits.
Proof.
  intros Hb Hn. rewrite (bits_split t bits Hb) at 2. destruct (fty_ok_all t) as (_ & _ & Hm & He & _).
  unfold is_nan in Hn. unfold enc, dec, decode.
  set (mw := fmw t) in *. set (ew := few t) in *. set (s := Z.testbit bits (mw + ew)).
  set (e := (bits >> mw) mod 2 ^ ew) in *. set (m := bits mod 2 ^ mw) in *.
  assert (Hpm : 0 < 2 ^ mw) by (apply pow2_pos; lia).
  assert (Hmr : 0 <= m < 2 ^ mw) by (by apply Z.mod_pos_bound).
  assert (Her : 0 <= e) by (apply Z.mod_pos_bound, pow2_pos; lia).
  destruct (Z.eqb_spec e (2 ^ ew - 1)) as [E1|E1].
  - simpl in Hn. destruct (Z.eqb_spec m 0) as [E2|E2]; [|done]. simpl. rewrite E1, E2. lia.
  - destruct (Z.eqb_spec e 0) as [E2|E2].
    + destruct m as [|p|p] eqn:Em; [simpl; lia| |lia]. simpl.
      destruct (Z.ltb_spec (Zpos p) (2 ^ mw)); lia.
    + destruct (m + 2 ^ mw) as [|p|p] eqn:Em; [lia| |lia]. cbn [encode].
      destruct (Z.ltb_spec (Zpos p) (2 ^ mw)); lia.
Qed.

Lemma dec_canonical t bits : canonical (fprec t) (femax t) (dec t bits).
Proof.
  destruct (fty_ok_all t) as (Hmw & _ & Hm & He & _). unfold dec, decode.
  set (mw := fmw t) in *. set (ew := few t) in *.
  set (e := (bits >> mw) mod 2 ^ ew). set (m := bits mod 2 ^ mw).
  assert (Hpm : 0 < 2 ^ mw) by (apply pow2_pos; lia).
  assert (Hmr : 0 <= m < 2 ^ mw) by (by apply Z.mod_pos_bound).
  assert (Her : 0 <= e) by (apply Z.mod_pos_bound, pow2_pos; lia).
  assert (Hp : 2 ^ fprec t = 2 * 2 ^ mw).
  { rewrite Hmw. rewrite <- Z.pow_succ_r by lia. f_equal. lia. }
  destruct (e =? 2 ^ ew - 1); [by destruct (m =? 0)|].
  destruct (Z.eqb_spec e 0).
  - destruct m as [|p|p]; try done. simpl. lia.
  - destruct (m + 2 ^ mw) as [|p|p] eqn:Ep; try done. simpl. rewrite <- Hmw. lia.
Qed.

(** *** Comparison of canonical values *)
Section Compare.
Context (t : fty).
Let prec := fprec t.
Let emax := femax t.
Abbreviation sc := (scaled prec emax).

(** A larger exponent beats any mantissa. *)
Lemma scaled_exp_lt m1 e1 m2 e2 :
  canonical prec emax (S754_finite false m1 e1) -> canonical prec emax (S754_finite false m2 e2) -> e1 < e2 ->
  Zpos m1 * 2 ^ (e1 - emin prec emax) < Zpos m2 * 2 ^ (e2 - emin prec emax).
Proof.
  intros (H1 & H2 & _) (H3 & _ & H4) Hlt. set (k := emin prec emax) in *.
  specialize (H4 ltac:(lia)).
  assert (0 < prec) by (unfold prec; destruct t; done).
  assert (Hp : 2 ^ prec = 2 * 2 ^ (prec - 1)) by (by apply half_pow2).
  assert (Hpe : 2 * 2 ^ (e1 - k) <= 2 ^ (e2 - k)).
  { rewrite <- Z.pow_succ_r by lia. apply Z.pow_le_mono_r; lia. }
  assert (0 < 2 ^ (e1 - k)) by (apply pow2_pos; lia).
  assert (0 < 2 ^ (prec - 1)) by (apply pow2_pos; lia). nia.
Qed.

Lemma SFcompare_scaled x y :
  canonical prec emax x -> canonical prec emax y -> is_finite x = true -> is_finite y = true ->
  SFcompare x y = Some (sc x ?= sc y).
Proof.
  assert (Hpos : forall m e, emin prec emax <= e -> 0 < Zpos m * 2 ^ (e - emin prec emax)).
  { intros m e He. assert (0 < 2 ^ (e - emin prec emax)) by (apply pow2_pos; lia). nia. }
  assert (Hcmp : forall m1 e1 m2 e2, canonical prec emax (S754_finite false m1 e1) ->
    canonical prec emax (S754_finite false m2 e2) ->
    (Zpos m1 * 2 ^ (e1 - emin prec emax) ?= Zpos m2 * 2 ^ (e2 - emin prec emax)) =
    match e1 ?= e2 with Lt => Lt | Gt => Gt | Eq => Pos.compare_cont Eq m1 m2 end).
  { intros m1 e1 m2 e2 C1 C2. destruct (Z.compare_spec e1 e2) as [<-|H|H].
    - assert (0 < 2 ^ (e1 - emin prec emax)) by (apply pow2_pos; destruct C1; lia).
      rewrite <- Zmult_compare_compat_r by lia. done.
    - apply Z.compare_lt_iff. by apply scaled_exp_lt.
    - apply Z.compare_gt_iff. by apply scaled_exp_lt. }
  intros Cx Cy Fx Fy. destruct x as [sx|sx| |sx mx ex], y as [sy|sy| |sy my ey]; try done; unfold scaled.
  - destruct Cy as [Hy _]. pose proof (Hpos my ey Hy). cbn [SFcompare]. destruct sy; f_equal; symmetry;
      [apply Z.compare_gt_iff|apply Z.compare_lt_iff]; lia.
  - destruct Cx as [Hx _]. pose proof (Hpos mx ex Hx). cbn [SFcompare]. destruct sx; f_equal; symmetry;
      [apply Z.compare_lt_iff|apply Z.compare_gt_iff]; lia.
  - pose proof (Hpos mx ex (proj1 Cx)) as Px. pose proof (Hpos my ey (proj1 Cy)) as Py.
    pose proof (Hcmp mx ex my ey Cx Cy) as Hc. cbn [SFcompare]. 
    set (a := Zpos mx * _) in *. set (b := Zpos my * _) in *. clearbody a b.
    destruct sx, sy; f_equal.
    + replace (-1 * a ?= -1 * b) with (b ?= a) by (destruct (Z.compare_spec (-1 * a) (-1 * b)), (Z.compare_spec b a); done || lia).
      rewrite (Z.compare_antisym a b), Hc. by destruct (ex ?= ey).
    + symmetry. apply Z.compare_lt_iff. lia.
    + symmetry. apply Z.compare_gt_iff. lia.
    + rewrite !Z.mul_1_l, Hc. by destruct (ex ?= ey).
Qed.

End Compare.

End CFloat.
