(* ===== verification/DexOpcodes.v ===== *)
(** * Opcodes (engine/nmmvm/vm/DexOpcodes.h)

    The enumeration of the 256 packed opcodes, its values, and the computed
    goto table: entry [i] names the handler label instruction byte [i] jumps
    to. *)
From S2P Require Import Prelude.

Module DexOpcodes.

Definition kNumPackedOpcodes : nat := 256.
Definition kPackedSwitchSignature : Z := 0x0100.
Definition kSparseSwitchSignature : Z := 0x0200.
Definition kArrayDataSignature : Z := 0x0300.

Inductive Opcode :=
  | OP_NOP | OP_MOVE | OP_MOVE_FROM16 | OP_MOVE_16
  | OP_MOVE_WIDE | OP_MOVE_WIDE_FROM16 | OP_MOVE_WIDE_16 | OP_MOVE_OBJECT
  | OP_MOVE_OBJECT_FROM16 | OP_MOVE_OBJECT_16 | OP_MOVE_RESULT | OP_MOVE_RESULT_WIDE
  | OP_MOVE_RESULT_OBJECT | OP_MOVE_EXCEPTION | OP_RETURN_VOID | OP_RETURN
  | OP_RETURN_WIDE | OP_RETURN_OBJECT | OP_CONST_4 | OP_CONST_16
  | OP_CONST | OP_CONST_HIGH16 | OP_CONST_WIDE_16 | OP_CONST_WIDE_32
  | OP_CONST_WIDE | OP_CONST_WIDE_HIGH16 | OP_CONST_STRING | OP_CONST_STRING_JUMBO
  | OP_CONST_CLASS | OP_MONITOR_ENTER | OP_MONITOR_EXIT | OP_CHECK_CAST
  | OP_INSTANCE_OF | OP_ARRAY_LENGTH | OP_NEW_INSTANCE | OP_NEW_ARRAY
  | OP_FILLED_NEW_ARRAY | OP_FILLED_NEW_ARRAY_RANGE | OP_FILL_ARRAY_DATA | OP_THROW
  | OP_GOTO | OP_GOTO_16 | OP_GOTO_32 | OP_PACKED_SWITCH
  | OP_SPARSE_SWITCH | OP_CMPL_FLOAT | OP_CMPG_FLOAT | OP_CMPL_DOUBLE
  | OP_CMPG_DOUBLE | OP_CMP_LONG | OP_IF_EQ | OP_IF_NE
  | OP_IF_LT | OP_IF_GE | OP_IF_GT | OP_IF_LE
  | OP_IF_EQZ | OP_IF_NEZ | OP_IF_LTZ | OP_IF_GEZ
  | OP_IF_GTZ | OP_IF_LEZ | OP_UNUSED_3E | OP_UNUSED_3F
  | OP_UNUSED_40 | OP_UNUSED_41 | OP_UNUSED_42 | OP_UNUSED_43
  | OP_AGET | OP_AGET_WIDE | OP_AGET_OBJECT | OP_AGET_BOOLEAN
  | OP_AGET_BYTE | OP_AGET_CHAR | OP_AGET_SHORT | OP_APUT
  | OP_APUT_WIDE | OP_APUT_OBJECT | OP_APUT_BOOLEAN | OP_APUT_BYTE
  | OP_APUT_CHAR | OP_APUT_SHORT | OP_IGET | OP_IGET_WIDE
  | OP_IGET_OBJECT | OP_IGET_BOOLEAN | OP_IGET_BYTE | OP_IGET_CHAR
  | OP_IGET_SHORT | OP_IPUT | OP_IPUT_WIDE | OP_IPUT_OBJECT
  | OP_IPUT_BOOLEAN | OP_IPUT_BYTE | OP_IPUT_CHAR | OP_IPUT_SHORT
  | OP_SGET | OP_SGET_WIDE | OP_SGET_OBJECT | OP_SGET_BOOLEAN
  | OP_SGET_BYTE | OP_SGET_CHAR | OP_SGET_SHORT | OP_SPUT
  | OP_SPUT_WIDE | OP_SPUT_OBJECT | OP_SPUT_BOOLEAN | OP_SPUT_BYTE
  | OP_SPUT_CHAR | OP_SPUT_SHORT | OP_INVOKE_VIRTUAL | OP_INVOKE_SUPER
  | OP_INVOKE_DIRECT | OP_INVOKE_STATIC | OP_INVOKE_INTERFACE | OP_RETURN_VOID_NO_BARRIER
  | OP_INVOKE_VIRTUAL_RANGE | OP_INVOKE_SUPER_RANGE | OP_INVOKE_DIRECT_RANGE | OP_INVOKE_STATIC_RANGE
  | OP_INVOKE_INTERFACE_RANGE | OP_UNUSED_79 | OP_UNUSED_7A | OP_NEG_INT
  | OP_NOT_INT | OP_NEG_LONG | OP_NOT_LONG | OP_NEG_FLOAT
  | OP_NEG_DOUBLE | OP_INT_TO_LONG | OP_INT_TO_FLOAT | OP_INT_TO_DOUBLE
  | OP_LONG_TO_INT | OP_LONG_TO_FLOAT | OP_LONG_TO_DOUBLE | OP_FLOAT_TO_INT
  | OP_FLOAT_TO_LONG | OP_FLOAT_TO_DOUBLE | OP_DOUBLE_TO_INT | OP_DOUBLE_TO_LONG
  | OP_DOUBLE_TO_FLOAT | OP_INT_TO_BYTE | OP_INT_TO_CHAR | OP_INT_TO_SHORT
  | OP_ADD_INT | OP_SUB_INT | OP_MUL_INT | OP_DIV_INT
  | OP_REM_INT | OP_AND_INT | OP_OR_INT | OP_XOR_INT
  | OP_SHL_INT | OP_SHR_INT | OP_USHR_INT | OP_ADD_LONG
  | OP_SUB_LONG | OP_MUL_LONG | OP_DIV_LONG | OP_REM_LONG
  | OP_AND_LONG | OP_OR_LONG | OP_XOR_LONG | OP_SHL_LONG
  | OP_SHR_LONG | OP_USHR_LONG | OP_ADD_FLOAT | OP_SUB_FLOAT
  | OP_MUL_FLOAT | OP_DIV_FLOAT | OP_REM_FLOAT | OP_ADD_DOUBLE
  | OP_SUB_DOUBLE | OP_MUL_DOUBLE | OP_DIV_DOUBLE | OP_REM_DOUBLE
  | OP_ADD_INT_2ADDR | OP_SUB_INT_2ADDR | OP_MUL_INT_2ADDR | OP_DIV_INT_2ADDR
  | OP_REM_INT_2ADDR | OP_AND_INT_2ADDR | OP_OR_INT_2ADDR | OP_XOR_INT_2ADDR
  | OP_SHL_INT_2ADDR | OP_SHR_INT_2ADDR | OP_USHR_INT_2ADDR | OP_ADD_LONG_2ADDR
  | OP_SUB_LONG_2ADDR | OP_MUL_LONG_2ADDR | OP_DIV_LONG_2ADDR | OP_REM_LONG_2ADDR
  | OP_AND_LONG_2ADDR | OP_OR_LONG_2ADDR | OP_XOR_LONG_2ADDR | OP_SHL_LONG_2ADDR
  | OP_SHR_LONG_2ADDR | OP_USHR_LONG_2ADDR | OP_ADD_FLOAT_2ADDR | OP_SUB_FLOAT_2ADDR
  | OP_MUL_FLOAT_2ADDR | OP_DIV_FLOAT_2ADDR | OP_REM_FLOAT_2ADDR | OP_ADD_DOUBLE_2ADDR
  | OP_SUB_DOUBLE_2ADDR | OP_MUL_DOUBLE_2ADDR | OP_DIV_DOUBLE_2ADDR | OP_REM_DOUBLE_2ADDR
  | OP_ADD_INT_LIT16 | OP_RSUB_INT | OP_MUL_INT_LIT16 | OP_DIV_INT_LIT16
  | OP_REM_INT_LIT16 | OP_AND_INT_LIT16 | OP_OR_INT_LIT16 | OP_XOR_INT_LIT16
  | OP_ADD_INT_LIT8 | OP_RSUB_INT_LIT8 | OP_MUL_INT_LIT8 | OP_DIV_INT_LIT8
  | OP_REM_INT_LIT8 | OP_AND_INT_LIT8 | OP_OR_INT_LIT8 | OP_XOR_INT_LIT8
  | OP_SHL_INT_LIT8 | OP_SHR_INT_LIT8 | OP_USHR_INT_LIT8 | OP_IGET_QUICK
  | OP_IGET_WIDE_QUICK | OP_IGET_OBJECT_QUICK | OP_IPUT_QUICK | OP_IPUT_WIDE_QUICK
  | OP_IPUT_OBJECT_QUICK | OP_INVOKE_VIRTUAL_QUICK | OP_INVOKE_VIRTUAL_QUICK_RANGE | OP_IPUT_BOOLEAN_QUICK
  | OP_IPUT_BYTE_QUICK | OP_IPUT_CHAR_QUICK | OP_IPUT_SHORT_QUICK | OP_IGET_BOOLEAN_QUICK
  | OP_IGET_BYTE_QUICK | OP_IGET_CHAR_QUICK | OP_IGET_SHORT_QUICK | OP_UNUSED_F3
  | OP_UNUSED_F4 | OP_UNUSED_F5 | OP_UNUSED_F6 | OP_UNUSED_F7
  | OP_UNUSED_F8 | OP_UNUSED_F9 | OP_INVOKE_POLYMORPHIC | OP_INVOKE_POLYMORPHIC_RANGE
  | OP_INVOKE_CUSTOM | OP_INVOKE_CUSTOM_RANGE | OP_CONST_METHOD_HANDLE | OP_CONST_METHOD_TYPE.

(** The enumeration values. *)
Definition opcode_value (op : Opcode) : Z :=
  match op with
  | OP_NOP => 0x0 | OP_MOVE => 0x1 | OP_MOVE_FROM16 => 0x2
  | OP_MOVE_16 => 0x3 | OP_MOVE_WIDE => 0x4 | OP_MOVE_WIDE_FROM16 => 0x5
  | OP_MOVE_WIDE_16 => 0x6 | OP_MOVE_OBJECT => 0x7 | OP_MOVE_OBJECT_FROM16 => 0x8
  | OP_MOVE_OBJECT_16 => 0x9 | OP_MOVE_RESULT => 0xa | OP_MOVE_RESULT_WIDE => 0xb
  | OP_MOVE_RESULT_OBJECT => 0xc | OP_MOVE_EXCEPTION => 0xd | OP_RETURN_VOID => 0xe
  | OP_RETURN => 0xf | OP_RETURN_WIDE => 0x10 | OP_RETURN_OBJECT => 0x11
  | OP_CONST_4 => 0x12 | OP_CONST_16 => 0x13 | OP_CONST => 0x14
  | OP_CONST_HIGH16 => 0x15 | OP_CONST_WIDE_16 => 0x16 | OP_CONST_WIDE_32 => 0x17
  | OP_CONST_WIDE => 0x18 | OP_CONST_WIDE_HIGH16 => 0x19 | OP_CONST_STRING => 0x1a
  | OP_CONST_STRING_JUMBO => 0x1b | OP_CONST_CLASS => 0x1c | OP_MONITOR_ENTER => 0x1d
  | OP_MONITOR_EXIT => 0x1e | OP_CHECK_CAST => 0x1f | OP_INSTANCE_OF => 0x20
  | OP_ARRAY_LENGTH => 0x21 | OP_NEW_INSTANCE => 0x22 | OP_NEW_ARRAY => 0x23
  | OP_FILLED_NEW_ARRAY => 0x24 | OP_FILLED_NEW_ARRAY_RANGE => 0x25 | OP_FILL_ARRAY_DATA => 0x26
  | OP_THROW => 0x27 | OP_GOTO => 0x28 | OP_GOTO_16 => 0x29
  | OP_GOTO_32 => 0x2a | OP_PACKED_SWITCH => 0x2b | OP_SPARSE_SWITCH => 0x2c
  | OP_CMPL_FLOAT => 0x2d | OP_CMPG_FLOAT => 0x2e | OP_CMPL_DOUBLE => 0x2f
  | OP_CMPG_DOUBLE => 0x30 | OP_CMP_LONG => 0x31 | OP_IF_EQ => 0x32
  | OP_IF_NE => 0x33 | OP_IF_LT => 0x34 | OP_IF_GE => 0x35
  | OP_IF_GT => 0x36 | OP_IF_LE => 0x37 | OP_IF_EQZ => 0x38
  | OP_IF_NEZ => 0x39 | OP_IF_LTZ => 0x3a | OP_IF_GEZ => 0x3b
  | OP_IF_GTZ => 0x3c | OP_IF_LEZ => 0x3d | OP_UNUSED_3E => 0x3e
  | OP_UNUSED_3F => 0x3f | OP_UNUSED_40 => 0x40 | OP_UNUSED_41 => 0x41
  | OP_UNUSED_42 => 0x42 | OP_UNUSED_43 => 0x43 | OP_AGET => 0x44
  | OP_AGET_WIDE => 0x45 | OP_AGET_OBJECT => 0x46 | OP_AGET_BOOLEAN => 0x47
  | OP_AGET_BYTE => 0x48 | OP_AGET_CHAR => 0x49 | OP_AGET_SHORT => 0x4a
  | OP_APUT => 0x4b | OP_APUT_WIDE => 0x4c | OP_APUT_OBJECT => 0x4d
  | OP_APUT_BOOLEAN => 0x4e | OP_APUT_BYTE => 0x4f | OP_APUT_CHAR => 0x50
  | OP_APUT_SHORT => 0x51 | OP_IGET => 0x52 | OP_IGET_WIDE => 0x53
  | OP_IGET_OBJECT => 0x54 | OP_IGET_BOOLEAN => 0x55 | OP_IGET_BYTE => 0x56
  | OP_IGET_CHAR => 0x57 | OP_IGET_SHORT => 0x58 | OP_IPUT => 0x59
  | OP_IPUT_WIDE => 0x5a | OP_IPUT_OBJECT => 0x5b | OP_IPUT_BOOLEAN => 0x5c
  | OP_IPUT_BYTE => 0x5d | OP_IPUT_CHAR => 0x5e | OP_IPUT_SHORT => 0x5f
  | OP_SGET => 0x60 | OP_SGET_WIDE => 0x61 | OP_SGET_OBJECT => 0x62
  | OP_SGET_BOOLEAN => 0x63 | OP_SGET_BYTE => 0x64 | OP_SGET_CHAR => 0x65
  | OP_SGET_SHORT => 0x66 | OP_SPUT => 0x67 | OP_SPUT_WIDE => 0x68
  | OP_SPUT_OBJECT => 0x69 | OP_SPUT_BOOLEAN => 0x6a | OP_SPUT_BYTE => 0x6b
  | OP_SPUT_CHAR => 0x6c | OP_SPUT_SHORT => 0x6d | OP_INVOKE_VIRTUAL => 0x6e
  | OP_INVOKE_SUPER => 0x6f | OP_INVOKE_DIRECT => 0x70 | OP_INVOKE_STATIC => 0x71
  | OP_INVOKE_INTERFACE => 0x72 | OP_RETURN_VOID_NO_BARRIER => 0x73 | OP_INVOKE_VIRTUAL_RANGE => 0x74
  | OP_INVOKE_SUPER_RANGE => 0x75 | OP_INVOKE_DIRECT_RANGE => 0x76 | OP_INVOKE_STATIC_RANGE => 0x77
  | OP_INVOKE_INTERFACE_RANGE => 0x78 | OP_UNUSED_79 => 0x79 | OP_UNUSED_7A => 0x7a
  | OP_NEG_INT => 0x7b | OP_NOT_INT => 0x7c | OP_NEG_LONG => 0x7d
  | OP_NOT_LONG => 0x7e | OP_NEG_FLOAT => 0x7f | OP_NEG_DOUBLE => 0x80
  | OP_INT_TO_LONG => 0x81 | OP_INT_TO_FLOAT => 0x82 | OP_INT_TO_DOUBLE => 0x83
  | OP_LONG_TO_INT => 0x84 | OP_LONG_TO_FLOAT => 0x85 | OP_LONG_TO_DOUBLE => 0x86
  | OP_FLOAT_TO_INT => 0x87 | OP_FLOAT_TO_LONG => 0x88 | OP_FLOAT_TO_DOUBLE => 0x89
  | OP_DOUBLE_TO_INT => 0x8a | OP_DOUBLE_TO_LONG => 0x8b | OP_DOUBLE_TO_FLOAT => 0x8c
  | OP_INT_TO_BYTE => 0x8d | OP_INT_TO_CHAR => 0x8e | OP_INT_TO_SHORT => 0x8f
  | OP_ADD_INT => 0x90 | OP_SUB_INT => 0x91 | OP_MUL_INT => 0x92
  | OP_DIV_INT => 0x93 | OP_REM_INT => 0x94 | OP_AND_INT => 0x95
  | OP_OR_INT => 0x96 | OP_XOR_INT => 0x97 | OP_SHL_INT => 0x98
  | OP_SHR_INT => 0x99 | OP_USHR_INT => 0x9a | OP_ADD_LONG => 0x9b
  | OP_SUB_LONG => 0x9c | OP_MUL_LONG => 0x9d | OP_DIV_LONG => 0x9e
  | OP_REM_LONG => 0x9f | OP_AND_LONG => 0xa0 | OP_OR_LONG => 0xa1
  | OP_XOR_LONG => 0xa2 | OP_SHL_LONG => 0xa3 | OP_SHR_LONG => 0xa4
  | OP_USHR_LONG => 0xa5 | OP_ADD_FLOAT => 0xa6 | OP_SUB_FLOAT => 0xa7
  | OP_MUL_FLOAT => 0xa8 | OP_DIV_FLOAT => 0xa9 | OP_REM_FLOAT => 0xaa
  | OP_ADD_DOUBLE => 0xab | OP_SUB_DOUBLE => 0xac | OP_MUL_DOUBLE => 0xad
  | OP_DIV_DOUBLE => 0xae | OP_REM_DOUBLE => 0xaf | OP_ADD_INT_2ADDR => 0xb0
  | OP_SUB_INT_2ADDR => 0xb1 | OP_MUL_INT_2ADDR => 0xb2 | OP_DIV_INT_2ADDR => 0xb3
  | OP_REM_INT_2ADDR => 0xb4 | OP_AND_INT_2ADDR => 0xb5 | OP_OR_INT_2ADDR => 0xb6
  | OP_XOR_INT_2ADDR => 0xb7 | OP_SHL_INT_2ADDR => 0xb8 | OP_SHR_INT_2ADDR => 0xb9
  | OP_USHR_INT_2ADDR => 0xba | OP_ADD_LONG_2ADDR => 0xbb | OP_SUB_LONG_2ADDR => 0xbc
  | OP_MUL_LONG_2ADDR => 0xbd | OP_DIV_LONG_2ADDR => 0xbe | OP_REM_LONG_2ADDR => 0xbf
  | OP_AND_LONG_2ADDR => 0xc0 | OP_OR_LONG_2ADDR => 0xc1 | OP_XOR_LONG_2ADDR => 0xc2
  | OP_SHL_LONG_2ADDR => 0xc3 | OP_SHR_LONG_2ADDR => 0xc4 | OP_USHR_LONG_2ADDR => 0xc5
  | OP_ADD_FLOAT_2ADDR => 0xc6 | OP_SUB_FLOAT_2ADDR => 0xc7 | OP_MUL_FLOAT_2ADDR => 0xc8
  | OP_DIV_FLOAT_2ADDR => 0xc9 | OP_REM_FLOAT_2ADDR => 0xca | OP_ADD_DOUBLE_2ADDR => 0xcb
  | OP_SUB_DOUBLE_2ADDR => 0xcc | OP_MUL_DOUBLE_2ADDR => 0xcd | OP_DIV_DOUBLE_2ADDR => 0xce
  | OP_REM_DOUBLE_2ADDR => 0xcf | OP_ADD_INT_LIT16 => 0xd0 | OP_RSUB_INT => 0xd1
  | OP_MUL_INT_LIT16 => 0xd2 | OP_DIV_INT_LIT16 => 0xd3 | OP_REM_INT_LIT16 => 0xd4
  | OP_AND_INT_LIT16 => 0xd5 | OP_OR_INT_LIT16 => 0xd6 | OP_XOR_INT_LIT16 => 0xd7
  | OP_ADD_INT_LIT8 => 0xd8 | OP_RSUB_INT_LIT8 => 0xd9 | OP_MUL_INT_LIT8 => 0xda
  | OP_DIV_INT_LIT8 => 0xdb | OP_REM_INT_LIT8 => 0xdc | OP_AND_INT_LIT8 => 0xdd
  | OP_OR_INT_LIT8 => 0xde | OP_XOR_INT_LIT8 => 0xdf | OP_SHL_INT_LIT8 => 0xe0
  | OP_SHR_INT_LIT8 => 0xe1 | OP_USHR_INT_LIT8 => 0xe2 | OP_IGET_QUICK => 0xe3
  | OP_IGET_WIDE_QUICK => 0xe4 | OP_IGET_OBJECT_QUICK => 0xe5 | OP_IPUT_QUICK => 0xe6
  | OP_IPUT_WIDE_QUICK => 0xe7 | OP_IPUT_OBJECT_QUICK => 0xe8 | OP_INVOKE_VIRTUAL_QUICK => 0xe9
  | OP_INVOKE_VIRTUAL_QUICK_RANGE => 0xea | OP_IPUT_BOOLEAN_QUICK => 0xeb | OP_IPUT_BYTE_QUICK => 0xec
  | OP_IPUT_CHAR_QUICK => 0xed | OP_IPUT_SHORT_QUICK => 0xee | OP_IGET_BOOLEAN_QUICK => 0xef
  | OP_IGET_BYTE_QUICK => 0xf0 | OP_IGET_CHAR_QUICK => 0xf1 | OP_IGET_SHORT_QUICK => 0xf2
  | OP_UNUSED_F3 => 0xf3 | OP_UNUSED_F4 => 0xf4 | OP_UNUSED_F5 => 0xf5
  | OP_UNUSED_F6 => 0xf6 | OP_UNUSED_F7 => 0xf7 | OP_UNUSED_F8 => 0xf8
  | OP_UNUSED_F9 => 0xf9 | OP_INVOKE_POLYMORPHIC => 0xfa | OP_INVOKE_POLYMORPHIC_RANGE => 0xfb
  | OP_INVOKE_CUSTOM => 0xfc | OP_INVOKE_CUSTOM_RANGE => 0xfd | OP_CONST_METHOD_HANDLE => 0xfe
  | OP_CONST_METHOD_TYPE => 0xff
  end.

(** [DEFINE_GOTO_TABLE] *)
Definition handlerTable : list Opcode :=
  [OP_NOP; OP_MOVE; OP_MOVE_FROM16; OP_MOVE_16;
   OP_MOVE_WIDE; OP_MOVE_WIDE_FROM16; OP_MOVE_WIDE_16; OP_MOVE_OBJECT;
   OP_MOVE_OBJECT_FROM16; OP_MOVE_OBJECT_16; OP_MOVE_RESULT; OP_MOVE_RESULT_WIDE;
   OP_MOVE_RESULT_OBJECT; OP_MOVE_EXCEPTION; OP_RETURN_VOID; OP_RETURN;
   OP_RETURN_WIDE; OP_RETURN_OBJECT; OP_CONST_4; OP_CONST_16;
   OP_CONST; OP_CONST_HIGH16; OP_CONST_WIDE_16; OP_CONST_WIDE_32;
   OP_CONST_WIDE; OP_CONST_WIDE_HIGH16; OP_CONST_STRING; OP_CONST_STRING_JUMBO;
   OP_CONST_CLASS; OP_MONITOR_ENTER; OP_MONITOR_EXIT; OP_CHECK_CAST;
   OP_INSTANCE_OF; OP_ARRAY_LENGTH; OP_NEW_INSTANCE; OP_NEW_ARRAY;
   OP_FILLED_NEW_ARRAY; OP_FILLED_NEW_ARRAY_RANGE; OP_FILL_ARRAY_DATA; OP_THROW;
   OP_GOTO; OP_GOTO_16; OP_GOTO_32; OP_PACKED_SWITCH;
   OP_SPARSE_SWITCH; OP_CMPL_FLOAT; OP_CMPG_FLOAT; OP_CMPL_DOUBLE;
   OP_CMPG_DOUBLE; OP_CMP_LONG; OP_IF_EQ; OP_IF_NE;
   OP_IF_LT; OP_IF_GE; OP_IF_GT; OP_IF_LE;
   OP_IF_EQZ; OP_IF_NEZ; OP_IF_LTZ; OP_IF_GEZ;
   OP_IF_GTZ; OP_IF_LEZ; OP_UNUSED_3E; OP_UNUSED_3F;
   OP_UNUSED_40; OP_UNUSED_41; OP_UNUSED_42; OP_UNUSED_43;
   OP_AGET; OP_AGET_WIDE; OP_AGET_OBJECT; OP_AGET_BOOLEAN;
   OP_AGET_BYTE; OP_AGET_CHAR; OP_AGET_SHORT; OP_APUT;
   OP_APUT_WIDE; OP_APUT_OBJECT; OP_APUT_BOOLEAN; OP_APUT_BYTE;
   OP_APUT_CHAR; OP_APUT_SHORT; OP_IGET; OP_IGET_WIDE;
   OP_IGET_OBJECT; OP_IGET_BOOLEAN; OP_IGET_BYTE; OP_IGET_CHAR;
   OP_IGET_SHORT; OP_IPUT; OP_IPUT_WIDE; OP_IPUT_OBJECT;
   OP_IPUT_BOOLEAN; OP_IPUT_BYTE; OP_IPUT_CHAR; OP_IPUT_SHORT;
   OP_SGET; OP_SGET_WIDE; OP_SGET_OBJECT; OP_SGET_BOOLEAN;
   OP_SGET_BYTE; OP_SGET_CHAR; OP_SGET_SHORT; OP_SPUT;
   OP_SPUT_WIDE; OP_SPUT_OBJECT; OP_SPUT_BOOLEAN; OP_SPUT_BYTE;
   OP_SPUT_CHAR; OP_SPUT_SHORT; OP_INVOKE_VIRTUAL; OP_INVOKE_SUPER;
   OP_INVOKE_DIRECT; OP_INVOKE_STATIC; OP_INVOKE_INTERFACE; OP_RETURN_VOID_NO_BARRIER;
   OP_INVOKE_VIRTUAL_RANGE; OP_INVOKE_SUPER_RANGE; OP_INVOKE_DIRECT_RANGE; OP_INVOKE_STATIC_RANGE;
   OP_INVOKE_INTERFACE_RANGE; OP_UNUSED_79; OP_UNUSED_7A; OP_NEG_INT;
   OP_NOT_INT; OP_NEG_LONG; OP_NOT_LONG; OP_NEG_FLOAT;
   OP_NEG_DOUBLE; OP_INT_TO_LONG; OP_INT_TO_FLOAT; OP_INT_TO_DOUBLE;
   OP_LONG_TO_INT; OP_LONG_TO_FLOAT; OP_LONG_TO_DOUBLE; OP_FLOAT_TO_INT;
   OP_FLOAT_TO_LONG; OP_FLOAT_TO_DOUBLE; OP_DOUBLE_TO_INT; OP_DOUBLE_TO_LONG;
   OP_DOUBLE_TO_FLOAT; OP_INT_TO_BYTE; OP_INT_TO_CHAR; OP_INT_TO_SHORT;
   OP_ADD_INT; OP_SUB_INT; OP_MUL_INT; OP_DIV_INT;
   OP_REM_INT; OP_AND_INT; OP_OR_INT; OP_XOR_INT;
   OP_SHL_INT; OP_SHR_INT; OP_USHR_INT; OP_ADD_LONG;
   OP_SUB_LONG; OP_MUL_LONG; OP_DIV_LONG; OP_REM_LONG;
   OP_AND_LONG; OP_OR_LONG; OP_XOR_LONG; OP_SHL_LONG;
   OP_SHR_LONG; OP_USHR_LONG; OP_ADD_FLOAT; OP_SUB_FLOAT;
   OP_MUL_FLOAT; OP_DIV_FLOAT; OP_REM_FLOAT; OP_ADD_DOUBLE;
   OP_SUB_DOUBLE; OP_MUL_DOUBLE; OP_DIV_DOUBLE; OP_REM_DOUBLE;
   OP_ADD_INT_2ADDR; OP_SUB_INT_2ADDR; OP_MUL_INT_2ADDR; OP_DIV_INT_2ADDR;
   OP_REM_INT_2ADDR; OP_AND_INT_2ADDR; OP_OR_INT_2ADDR; OP_XOR_INT_2ADDR;
   OP_SHL_INT_2ADDR; OP_SHR_INT_2ADDR; OP_USHR_INT_2ADDR; OP_ADD_LONG_2ADDR;
   OP_SUB_LONG_2ADDR; OP_MUL_LONG_2ADDR; OP_DIV_LONG_2ADDR; OP_REM_LONG_2ADDR;
   OP_AND_LONG_2ADDR; OP_OR_LONG_2ADDR; OP_XOR_LONG_2ADDR; OP_SHL_LONG_2ADDR;
   OP_SHR_LONG_2ADDR; OP_USHR_LONG_2ADDR; OP_ADD_FLOAT_2ADDR; OP_SUB_FLOAT_2ADDR;
   OP_MUL_FLOAT_2ADDR; OP_DIV_FLOAT_2ADDR; OP_REM_FLOAT_2ADDR; OP_ADD_DOUBLE_2ADDR;
   OP_SUB_DOUBLE_2ADDR; OP_MUL_DOUBLE_2ADDR; OP_DIV_DOUBLE_2ADDR; OP_REM_DOUBLE_2ADDR;
   OP_ADD_INT_LIT16; OP_RSUB_INT; OP_MUL_INT_LIT16; OP_DIV_INT_LIT16;
   OP_REM_INT_LIT16; OP_AND_INT_LIT16; OP_OR_INT_LIT16; OP_XOR_INT_LIT16;
   OP_ADD_INT_LIT8; OP_RSUB_INT_LIT8; OP_MUL_INT_LIT8; OP_DIV_INT_LIT8;
   OP_REM_INT_LIT8; OP_AND_INT_LIT8; OP_OR_INT_LIT8; OP_XOR_INT_LIT8;
   OP_SHL_INT_LIT8; OP_SHR_INT_LIT8; OP_USHR_INT_LIT8; OP_IGET_QUICK;
   OP_IGET_WIDE_QUICK; OP_IGET_OBJECT_QUICK; OP_IPUT_QUICK; OP_IPUT_WIDE_QUICK;
   OP_IPUT_OBJECT_QUICK; OP_INVOKE_VIRTUAL_QUICK; OP_INVOKE_VIRTUAL_QUICK_RANGE; OP_IPUT_BOOLEAN_QUICK;
   OP_IPUT_BYTE_QUICK; OP_IPUT_CHAR_QUICK; OP_IPUT_SHORT_QUICK; OP_IGET_BOOLEAN_QUICK;
   OP_IGET_BYTE_QUICK; OP_IGET_CHAR_QUICK; OP_IGET_SHORT_QUICK; OP_UNUSED_F3;
   OP_UNUSED_F4; OP_UNUSED_F5; OP_UNUSED_F6; OP_UNUSED_F7;
   OP_UNUSED_F8; OP_UNUSED_F9; OP_INVOKE_POLYMORPHIC; OP_INVOKE_POLYMORPHIC_RANGE;
   OP_INVOKE_CUSTOM; OP_INVOKE_CUSTOM_RANGE; OP_CONST_METHOD_HANDLE; OP_CONST_METHOD_TYPE].

(** [goto *handlerTable[INST_INST(inst)]] *)
Definition handler_of (byte : Z) : option Opcode := handlerTable !!z byte.

Lemma handler_of_value op : handler_of (opcode_value op) = Some op.
Proof. destruct op; vm_compute; reflexivity. Qed.

#[export] Instance Opcode_eq_dec : EqDecision Opcode.
Proof.
  refine (fun a b => cast_if (decide (opcode_value a = opcode_value b))); [|congruence].
  apply (f_equal handler_of) in e. rewrite !handler_of_value in e. by injection e.
Defined.

(** the goto table and the enumeration agree: an instruction byte reaches
    the handler of the opcode with that value, and every byte has one. *)
Theorem handlerTable_agrees (byte : Z) : 0 <= byte < 256 ->
  exists op, handler_of byte = Some op /\ opcode_value op = byte /\
    (forall op', opcode_value op' = byte -> op' = op).
Proof.
  intros Hb.
  assert (Hval : option_map opcode_value (handler_of byte) = Some byte) by range_check 0 256.
  destruct (handler_of byte) as [op|] eqn:E; [|done]. injection Hval as Hval.
  exists op. split_and!; [done|done|]. intros op' <-. rewrite handler_of_value in E. by injection E.
Qed.

Lemma handlerTable_agrees_witness : exists op, handler_of 0x73 = Some op /\ opcode_value op = 0x73.
Proof. destruct (handlerTable_agrees 0x73) as (op & H1 & H2 & _); [lia|by exists op]. Defined.

End DexOpcodes.
