(* ===== verification/Smali.v ===== *)
(** * The disassembler's walk (src/dex/pi_smali.cpp)

    What [dumpSmali] computes before it prints: the code item of a method in
    the standard or the compact layout, the instruction lengths, the list of
    lines the walk produces, the window of them that is shown and the text
    of the listing.  The mnemonic part of a line comes from libdexfile
    ([DumpString]) or from ART's name table: parameters of the model.

    Memory is a list of 16-bit code units; a read outside it is [None]. *)
From S2P Require Import Prelude.
Local Open Scope cint_scope.

Module Smali.

Definition kInstructionSizes : list Z :=
  [1; 1; 2; 3; 1; 2; 3; 1; 2; 3; 1; 1; 1; 1; 1; 1;
   1; 1; 1; 2; 3; 2; 2; 3; 5; 2; 2; 3; 2; 1; 1; 2;
   2; 1; 2; 2; 3; 3; 3; 1; 1; 2; 3; 3; 3; 2; 2; 2;
   2; 2; 2; 2; 2; 2; 2; 2; 2; 2; 2; 2; 2; 2; 1; 1;
   1; 1; 1; 1; 2; 2; 2; 2; 2; 2; 2; 2; 2; 2; 2; 2;
   2; 2; 2; 2; 2; 2; 2; 2; 2; 2; 2; 2; 2; 2; 2; 2;
   2; 2; 2; 2; 2; 2; 2; 2; 2; 2; 2; 2; 2; 2; 3; 3;
   3; 3; 3; 1; 3; 3; 3; 3; 3; 1; 1; 1; 1; 1; 1; 1;
   1; 1; 1; 1; 1; 1; 1; 1; 1; 1; 1; 1; 1; 1; 1; 1;
   2; 2; 2; 2; 2; 2; 2; 2; 2; 2; 2; 2; 2; 2; 2; 2;
   2; 2; 2; 2; 2; 2; 2; 2; 2; 2; 2; 2; 2; 2; 2; 2;
   1; 1; 1; 1; 1; 1; 1; 1; 1; 1; 1; 1; 1; 1; 1; 1;
   1; 1; 1; 1; 1; 1; 1; 1; 1; 1; 1; 1; 1; 1; 1; 1;
   2; 2; 2; 2; 2; 2; 2; 2; 2; 2; 2; 2; 2; 2; 2; 2;
   2; 2; 2; 1; 1; 1; 1; 1; 1; 1; 1; 1; 1; 1; 1; 1;
   1; 1; 1; 1; 1; 1; 1; 1; 1; 1; 4; 4; 3; 3; 2; 2].

Definition size_of_byte (opcode : Z) : Z := nth (Z.to_nat opcode) kInstructionSizes 0.

(** ** Instruction lengths *)

(** Length in code units, payload pseudo-instructions by their header. *)
Definition insn_size (mem : list Z) (p : Z) : option Z :=
  cur ← mem !!z p;
  if cur =? 0x0100 then n ← mem !!z (p + 1); Some (4 + n * 2)
  else if cur =? 0x0200 then n ← mem !!z (p + 1); Some (2 + n * 4)
  else if cur =? 0x0300 then
    elem_width ← mem !!z (p + 1);
    lo ← mem !!z (p + 2); hi ← mem !!z (p + 3);
    let elem_count := lo .| (hi << 16) in
    Some (U32 (4 + U32 (elem_width * elem_count + 1) / 2))
  else Some (size_of_byte (cur & 0xff)).

(** [dumpSmali]'s guard: a length that is 0, implausible or past the end
    counts as 1. *)
Definition guarded_size (insns_count offset size : Z) : Z :=
  if (size =? 0) || (500 <? size) || (insns_count <? offset + size) then 1 else size.
(** [formatSingleInstruction]'s and [dumpSmaliInsn]'s. *)
Definition plain_size (size : Z) : Z := if (size =? 0) || (500 <? size) then 1 else size.

(** ** Code items *)

Record CodeItem := MkCodeItem {
  registers_size : Z; ins_size : Z; outs_size : Z; insns_count : Z;
  insns : Z (* unit index of the first instruction *) }.

Definition flag (x n : Z) : bool := negb (x & (1 << n) =? 0).

(** [code_item]: the unit index of the item.  [preheader] moves down from it. *)
Definition compact_item (mem : list Z) (code_item : Z) : option CodeItem :=
  fields ← mem !!z code_item;
  insns_count_and_flags ← mem !!z (code_item + 1);
  let registers_size := (fields >> 12) & 0xF in
  let ins_size := (fields >> 8) & 0xF in
  let outs_size := (fields >> 4) & 0xF in
  let insns_count := insns_count_and_flags >> 5 in
  '(insns_count, preheader) ←
    (if flag insns_count_and_flags 4 then
       lo ← mem !!z (code_item - 1);
       hi ← mem !!z (code_item - 2);
       Some (U32 (U32 (insns_count + lo) + (hi << 16)), code_item - 2)
     else Some (insns_count, code_item));
  '(registers_size, preheader) ←
    (if flag insns_count_and_flags 0 then
       x ← mem !!z (preheader - 1); Some (U16 (registers_size + x), preheader - 1)
     else Some (registers_size, preheader));
  '(ins_size, preheader) ←
    (if flag insns_count_and_flags 1 then
       x ← mem !!z (preheader - 1); Some (U16 (ins_size + x), preheader - 1)
     else Some (ins_size, preheader));
  '(outs_size, preheader) ←
    (if flag insns_count_and_flags 2 then
       x ← mem !!z (preheader - 1); Some (U16 (outs_size + x), preheader - 1)
     else Some (outs_size, preheader));
  Some (MkCodeItem (U16 (registers_size + ins_size)) ins_size outs_size insns_count (code_item + 2)).

Definition standard_item (mem : list Z) (code_item : Z) : option CodeItem :=
  registers_size ← mem !!z code_item;
  ins_size ← mem !!z (code_item + 1);
  outs_size ← mem !!z (code_item + 2);
  lo ← mem !!z (code_item + 6);
  hi ← mem !!z (code_item + 7);
  Some (MkCodeItem registers_size ins_size outs_size (lo .| (hi << 16)) (code_item + 8)).

(** ** The walk *)

Record SmaliLine := MkLine { offset : Z; size : Z; text : list Z }.

(** [%0nx]: at least [n] digits. *)
Fixpoint hex_digits (fuel : nat) (x : Z) (acc : list Z) : list Z :=
  match fuel with
  | O => acc
  | S f =>
      let d := x mod 16 in
      let acc := (if d <? 10 then 48 + d else 87 + d) :: acc in
      if x <? 16 then acc else hex_digits f (x / 16) acc
  end.
Definition print_0x (n : nat) (x : Z) : list Z :=
  let d := hex_digits 16 x [] in replicate (n - length d) 48 ++ d.

Section Text.
(** [g_dump_string_fn] on the instruction at a unit, and
    [g_instruction_names] (an entry may be NULL); both may be missing. *)
Context (g_dump_string_fn : option (Z -> list Z)) (g_instruction_names : option (Z -> option (list Z))).

Definition smali_str (cur_insn opcode : Z) : list Z :=
  let s := match g_dump_string_fn with Some f => f cur_insn | None => [] end in
  let s := match s, g_instruction_names with
           | [], Some f => default (str "unknown_op") (f opcode)
           | _, _ => s
           end in
  match s with [] => str "op_0x" ++ print_0x 2 opcode | _ => s end.

(** The code units of a line, [pad] after one, two, three or more of them. *)
Definition unit_columns (mem : list Z) (p size : Z) (pad1 pad2 pad3 pad4 : list Z) : option (list Z) :=
  u0 ← mem !!z p;
  if size =? 1 then Some (print_0x 4 u0 ++ pad1)
  else
    u1 ← mem !!z (p + 1);
    if size =? 2 then Some (print_0x 4 u0 ++ str " " ++ print_0x 4 u1 ++ pad2)
    else if size =? 3 then
      u2 ← mem !!z (p + 2);
      Some (print_0x 4 u0 ++ str " " ++ print_0x 4 u1 ++ str " " ++ print_0x 4 u2 ++ pad3)
    else Some (print_0x 4 u0 ++ str " " ++ print_0x 4 u1 ++ pad4).

Definition line_text (mem : list Z) (insns offset size highlight_pc : Z) : option (list Z) :=
  cur ← mem !!z (insns + offset);
  let is_cur := (0 <=? highlight_pc) && (S32 offset =? highlight_pc) in
  cols ← unit_columns mem (insns + offset) size
    (str "            |  ") (str "       |  ") (str "  |  ") (str "..     |  ");
  Some ((if is_cur : bool then str " -> " else str "    ") ++ str "[0x" ++ print_0x 4 offset ++ str "] " ++ cols ++
        smali_str (insns + offset) (cur & 0xff)).

(** [while (offset < insns_count)] *)
Fixpoint walk (fuel : nat) (mem : list Z) (insns insns_count highlight_pc offset : Z) : option (list SmaliLine) :=
  match fuel with
  | O => None
  | S f =>
      if offset <? insns_count then
        size ← insn_size mem (insns + offset);
        let size := guarded_size insns_count offset size in
        text ← line_text mem insns offset size highlight_pc;
        rest ← walk f mem insns insns_count highlight_pc (U32 (offset + size));
        Some (MkLine offset size text :: rest)
      else Some []
  end.

Definition formatSingleInstruction (mem : list Z) (insn : Z) : option (list Z) :=
  cur ← mem !!z insn;
  size ← insn_size mem insn;
  cols ← unit_columns mem insn (plain_size size) (str "           |  ") (str "      |  ") (str " |  ") (str "..    |  ");
  Some (cols ++ smali_str insn (cur & 0xff)).

(** From the method's code item on; the guards before it give "". *)
Definition dumpSmaliInsn (is_compact : bool) (mem : list Z) (code_item pc : Z) : option (list Z) :=
  '(count, insns) ←
    (if is_compact then
       w ← mem !!z (code_item + 1); Some (w >> 5, code_item + 2)
     else
       lo ← mem !!z (code_item + 6); hi ← mem !!z (code_item + 7); Some (lo .| (hi << 16), code_item + 8));
  if count <=? pc then Some []
  else
    t ← formatSingleInstruction mem (insns + pc);
    Some (str "[0x" ++ print_0x 4 pc ++ str "] " ++ t).
End Text.

(** ** The window *)

(** [hi_idx] after the walk: the last line that starts at [highlight_pc]. *)
Definition hi_walk (lines : list SmaliLine) (highlight_pc : Z) : Z :=
  foldl (fun hi '(i, l) => if (0 <=? highlight_pc) && (S32 (offset l) =? highlight_pc) then i else hi) (-1)
    (zip (seqZ 0 (Z.of_nat (length lines))) lines).
(** The first line at or after [highlight_pc]. *)
Definition first_at_or_after (lines : list SmaliLine) (highlight_pc : Z) : Z :=
  match list_find (fun l => highlight_pc <= S32 (offset l)) lines with
  | Some (i, _) => Z.of_nat i
  | None => -1
  end.

(** [win_begin] and [win_end]. *)
Definition window (lines : list SmaliLine) (max_instructions highlight_pc : Z) : Z * Z :=
  let total := Z.of_nat (length lines) in
  let windowed := 0 <=? highlight_pc in
  let listing_window :=
    if windowed then (if 0 <? max_instructions then max_instructions else 21)
    else (if 0 <? max_instructions then max_instructions else total) in
  let hi_idx := hi_walk lines highlight_pc in
  let hi_idx :=
    if windowed && (hi_idx <? 0) && negb (total =? 0) then
      let i := first_at_or_after lines highlight_pc in if i <? 0 then total - 1 else i
    else hi_idx in
  if negb windowed && (0 <? max_instructions) && (max_instructions <? total) then (0, max_instructions)
  else if windowed && (listing_window <? total) && (0 <=? hi_idx) then
    let win := listing_window in
    let before := win / 2 in
    let win_begin := if before <? hi_idx then hi_idx - before else 0 in
    let win_end := win_begin + win in
    if total <? win_end then ((if win <? total then total - win else 0), total) else (win_begin, win_end)
  else (0, total).

(** The listing: what [dumpSmali] prints below the header. *)
Definition listing (lines : list SmaliLine) (max_instructions highlight_pc : Z) : list Z :=
  let '(win_begin, win_end) := window lines max_instructions highlight_pc in
  let nl := [10] in
  (if 0 <? win_begin then str "    ... (" ++ print_d win_begin ++ str " earlier instructions)" ++ nl else []) ++
  mjoin ((fun l => text l ++ nl) <$> take (Z.to_nat (win_end - win_begin)) (drop (Z.to_nat win_begin) lines)) ++
  (if win_end <? Z.of_nat (length lines)
   then str "    ... (" ++ print_d (Z.of_nat (length lines) - win_end) ++ str " more instructions)" ++ nl else []).

(** ** Access flags *)

Definition access_names : list (Z * list Z) :=
  [(0x0001, str "public"); (0x0002, str "private"); (0x0004, str "protected"); (0x0008, str "static");
   (0x0010, str "final"); (0x0020, str "synchronized"); (0x0040, str "bridge"); (0x0080, str "varargs");
   (0x0100, str "native"); (0x0200, str "interface"); (0x0400, str "abstract"); (0x0800, str "strictfp");
   (0x1000, str "synthetic"); (0x00010000, str "constructor"); (0x00020000, str "declared-synchronized")].

Definition append (s name : list Z) : list Z := (if negb (streq s []) then s ++ str " " else s) ++ name.
Definition PrettyAccessFlags (flags : Z) : list Z :=
  let s := foldl (fun s '(bit, name) => if negb (flags & bit =? 0) then append s name else s) [] access_names in
  if streq s [] then str "package-private" else s.

Example flags_sample : PrettyAccessFlags 0x10009 = str "public static constructor".
Proof. reflexivity. Qed.

End Smali.
