(* ===== verification/SmaliProofs.v ===== *)
(** * Properties of the disassembler (src/dex/pi_smali.cpp)

    The walk tiles the code, the window is a window around the highlighted
    line, the compact code item decodes what the format encodes, and the
    access flags can be read back from their text. *)
From S2P Require Import Prelude Smali.
Import Smali.
Local Open Scope cint_scope.

Module SmaliProofs.

(** ** The walk *)

(** Lines that cover [a, b) end to end. *)
Inductive tiles : Z -> Z -> list SmaliLine -> Prop :=
  | tiles_nil a : tiles a a []
  | tiles_cons a b l lines :
      offset l = a -> 1 <= size l <= 500 -> tiles (a + size l) b lines -> tiles a b (l :: lines).

Section Walk.
Context (dump : option (Z -> list Z)) (names : option (Z -> option (list Z))).
Context (mem : list Z) (ins count : Z).
Context (Hmem : Forall (in_u 16) mem) (Hins : 0 <= ins) (Hcount : in_u 32 count).
(** The three units after the code are readable: a payload's header may be
    read there before its length is rejected. *)
Context (Hend : ins + count + 3 <= Z.of_nat (length mem)).

Lemma mem_unit p : 0 <= p < Z.of_nat (length mem) -> exists u, mem !!z p = Some u /\ in_u 16 u.
Proof.
  intros Hp. destruct (zlookup_is_Some mem p Hp) as [u Hu]. exists u. split; [done|].
  by eapply zlookup_Forall.
Qed.

Lemma size_of_byte_range b : 0 <= b < 256 -> 1 <= size_of_byte b <= 5.
Proof. intros Hb. range_check 0 256. Qed.

Lemma insn_size_some p : 0 <= p -> p + 3 < Z.of_nat (length mem) -> exists s, insn_size mem p = Some s /\ 0 <= s.
Proof.
  intros Hp Hq. unfold insn_size, mbind, option_bind.
  destruct (mem_unit p ltac:(lia)) as (u & -> & Hu). destruct (mem_unit (p + 1) ltac:(lia)) as (u1 & -> & Hu1).
  destruct (mem_unit (p + 2) ltac:(lia)) as (u2 & -> & _). destruct (mem_unit (p + 3) ltac:(lia)) as (u3 & -> & _).
  unfold in_u in Hu1. repeat case_match; eexists; (split; [done|]); try lia.
  - apply wrap_in_u. lia.
  - change 0xff with (2 ^ 8 - 1). rewrite land_mask by lia.
    pose proof (wrap_in_u 8 u ltac:(lia)). pose proof (size_of_byte_range (wrap 8 u)). unfold in_u in *. lia.
Qed.

Lemma guarded_range off s : 0 <= off < count -> 0 <= s ->
  1 <= guarded_size count off s <= 500 /\ off + guarded_size count off s <= count.
Proof.
  intros Ho Hs. unfold guarded_size.
  destruct (Z.eqb_spec s 0), (Z.ltb_spec 500 s), (Z.ltb_spec count (off + s)); simpl; lia.
Qed.

Lemma line_text_some off sz hp : 0 <= off -> 1 <= sz -> off + sz <= count ->
  exists t, line_text dump names mem ins off sz hp = Some t.
Proof.
  intros Ho Hs He. unfold line_text, unit_columns, mbind, option_bind.
  destruct (mem_unit (ins + off) ltac:(lia)) as (u & -> & _).
  destruct (Z.eqb_spec sz 1); [by eexists|].
  destruct (mem_unit (ins + off + 1) ltac:(lia)) as (u1 & -> & _).
  destruct (Z.eqb_spec sz 2); [by eexists|].
  destruct (Z.eqb_spec sz 3); [|by eexists].
  destruct (mem_unit (ins + off + 2) ltac:(lia)) as (u2 & -> & _). by eexists.
Qed.

Lemma walk_from fuel : forall off hp, 0 <= off <= count -> count - off < Z.of_nat fuel ->
  exists lines, walk dump names fuel mem ins count hp off = Some lines /\ tiles off count lines /\
    Forall (fun l => exists s, insn_size mem (ins + offset l) = Some s /\ size l = guarded_size count (offset l) s) lines.
Proof.
  induction fuel as [|f IH]; intros off hp Ho Hf; [lia|]. cbn [walk].
  destruct (Z.ltb_spec off count) as [Hlt|Hge].
  2: { exists []. split; [done|]. split; [|constructor]. replace off with count by lia. constructor. }
  destruct (insn_size_some (ins + off) ltac:(lia) ltac:(lia)) as (s & Hs & Hs0).
  destruct (guarded_range off s ltac:(lia) Hs0) as [Hg He]. set (sz := guarded_size count off s) in *.
  destruct (line_text_some off sz hp ltac:(lia) ltac:(lia) He) as [t Ht].
  unfold mbind, option_bind. rewrite Hs. fold sz. rewrite Ht.
  rewrite (wrap_small 32 (off + sz)) by (unfold in_u in *; lia).
  destruct (IH (off + sz) hp ltac:(lia) ltac:(lia)) as (lines & -> & Htl & Hall).
  exists (MkLine off sz t :: lines). split; [done|]. split; [by constructor|].
  constructor; [|done]. by exists s.
Qed.

(** C34: the disassembly walk stops, reads nothing past the three units after
    the code, and its lines tile the code exactly: the first starts at 0,
    each starts where the one before ends, the last ends at [insns_count],
    and the length of each is its instruction's, or 1 where that is 0, over
    500 or past the end. *)
Theorem walk_tiles highlight_pc :
  exists lines, walk dump names (Z.to_nat count + 1) mem ins count highlight_pc 0 = Some lines /\
    tiles 0 count lines /\
    Forall (fun l => exists s, insn_size mem (ins + offset l) = Some s /\ size l = guarded_size count (offset l) s) lines.
Proof. unfold in_u in Hcount. apply walk_from; lia. Qed.

End Walk.

(** ** The window *)

Lemma of_nat_ltb_0 i : (Z.of_nat i <? 0) = false.
Proof. apply Z.ltb_ge. lia. Qed.

Lemma hi_walk_snoc lines x hp : hi_walk (lines ++ [x]) hp =
  if (0 <=? hp) && (S32 (offset x) =? hp) then Z.of_nat (length lines) else hi_walk lines hp.
Proof.
  unfold hi_walk. rewrite length_app, Nat2Z.inj_add. cbn [length].
  rewrite seqZ_app, zip_with_app by (try rewrite length_seqZ; lia).
  rewrite foldl_app. by rewrite Z.add_0_l.
Qed.

(** The highlighted line, if there is one. *)
Lemma hi_walk_cases lines hp : 0 <= hp ->
  (hi_walk lines hp = -1 /\ forall i l, lines !! i = Some l -> S32 (offset l) <> hp) \/
  exists i l, hi_walk lines hp = Z.of_nat i /\ lines !! i = Some l /\ S32 (offset l) = hp.
Proof.
  intros Hp. induction lines as [|x lines IH] using rev_ind; [by left|]. rewrite hi_walk_snoc.
  replace (0 <=? hp) with true by lia. cbn [andb]. destruct (Z.eqb_spec (S32 (offset x)) hp) as [E|E].
  - right. exists (length lines), x. by rewrite list_lookup_middle.
  - destruct IH as [[-> Hn]|(i & l & -> & Hi & Hl)].
    + left. split; [done|]. intros i l [Hi|[_ Hi]]%lookup_app_Some; [by eapply Hn|].
      by apply list_lookup_singleton_Some in Hi as [_ <-].
    + right. exists i, l. split; [done|]. split; [by apply lookup_app_l_Some|done].
Qed.

(** Offsets increase along the tiling. *)
Lemma tiles_lookup a b lines : tiles a b lines ->
  a <= b /\ (forall i l, lines !! i = Some l -> a <= offset l < b) /\
  (forall i j l l', lines !! i = Some l -> lines !! j = Some l' -> (i < j)%nat -> offset l < offset l').
Proof.
  induction 1 as [a|a b l0 lines Ho Hs _ (Hab & Hr & Hlt)]; [split_and!; done || lia|].
  split; [lia|]. split.
  - intros [|i] l Hi; simpl in Hi; [injection Hi as <-; lia|]. specialize (Hr i l Hi). lia.
  - intros [|i] [|j] l l' Hi Hj Hij; simpl in *; try lia.
    + injection Hi as <-. specialize (Hr j l' Hj). lia.
    + eapply Hlt; eauto. lia.
Qed.

(** The line the window is about: the first at or after the highlighted
    address, or else the last. *)
Definition focus (lines : list SmaliLine) (hp : Z) (i : nat) : Prop :=
  exists l, lines !! i = Some l /\
    (forall j l', (j < i)%nat -> lines !! j = Some l' -> offset l' < hp) /\
    (hp <= offset l \/ S i = length lines).

(** [hi_idx] as [dumpSmali] computes it. *)
Definition hi_index (lines : list SmaliLine) (hp : Z) : Z :=
  if (hi_walk lines hp <? 0) && negb (Z.of_nat (length lines) =? 0) then
    let i := first_at_or_after lines hp in if i <? 0 then Z.of_nat (length lines) - 1 else i
  else hi_walk lines hp.

Lemma hi_index_focus a b lines hp : tiles a b lines -> 0 <= a -> b <= 2 ^ 31 -> 0 <= hp -> lines <> [] ->
  exists i, hi_index lines hp = Z.of_nat i /\ focus lines hp i.
Proof.
  intros Ht Ha Hb Hp Hne. destruct (tiles_lookup _ _ _ Ht) as (_ & Hr & Hlt).
  assert (Hs32 : forall i l, lines !! i = Some l -> S32 (offset l) = offset l).
  { intros i l Hi. specialize (Hr i l Hi). apply swrap_small; unfold in_s; lia. }
  unfold hi_index. destruct (hi_walk_cases lines hp Hp) as [[-> Hn]|(i & l & -> & Hi & Hl)].
  - replace (Z.of_nat (length lines) =? 0) with false by (by destruct lines). cbn [andb negb Z.ltb Z.compare].
    unfold first_at_or_after. destruct (list_find _ lines) as [[i l]|] eqn:Ef.
    + apply list_find_Some in Ef as (Hi & Hle & Hj). rewrite of_nat_ltb_0.
      exists i. split; [done|]. exists l. rewrite (Hs32 i l Hi) in Hle. split_and!; [done| |by left].
      intros j l' Hij Hj'. specialize (Hj j l' Hj' Hij). rewrite (Hs32 j l' Hj') in Hj. lia.
    + pose proof (proj1 (list_find_None _ _) Ef) as Hall. cbn [Z.ltb Z.compare].
      exists (length lines - 1)%nat. assert (0 < length lines)%nat by (destruct lines; [done|simpl; lia]).
      split; [lia|]. destruct (lookup_lt_is_Some_2 lines (length lines - 1)%nat ltac:(lia)) as [l Hl].
      exists l. split_and!; [done| |right; lia].
      intros j l' _ Hj. pose proof (Forall_lookup_1 _ _ _ _ Hall Hj) as Hx. cbv beta in Hx. rewrite (Hs32 j l' Hj) in Hx. lia.
  - rewrite of_nat_ltb_0. cbn [andb]. exists i. split; [done|]. exists l.
    rewrite (Hs32 i l Hi) in Hl. split_and!; [done| |left; lia].
    intros j l' Hij Hj. specialize (Hlt j i l' l Hj Hi Hij). lia.
Qed.

(** the window shown.  It lies within the lines; unhighlighted it is the
    first [max_instructions] (all when not positive); highlighted it has
    [max_instructions] lines (21 when not positive, all when there are
    fewer) and contains the highlighted line - for an address inside an
    instruction the next line, past the end the last. *)
Theorem window_correct count lines max_instructions hp :
  tiles 0 count lines -> count <= 2 ^ 31 ->
  let '(b, e) := window lines max_instructions hp in
  let total := Z.of_nat (length lines) in
  0 <= b <= e /\ e <= total /\
  (hp < 0 -> b = 0 /\ e = if 0 <? max_instructions then Z.min total max_instructions else total) /\
  (0 <= hp -> e - b = Z.min total (if 0 <? max_instructions then max_instructions else 21) /\
    (lines <> [] -> exists i, focus lines hp i /\ b <= Z.of_nat i < e)).
Proof.
  intros Ht Hc. unfold window. set (total := Z.of_nat (length lines)).
  destruct (Z.leb_spec 0 hp) as [Hp|Hp]; cbn [negb andb].
  - set (win := if 0 <? max_instructions then max_instructions else 21).
    assert (Hwin : 0 < win) by (unfold win; case_match; lia).
    destruct (decide (lines = [])) as [->|Hne].
    { simpl in total. replace (win <? total) with false by (symmetry; apply Z.ltb_ge; lia). cbn [andb].
      split_and!; try lia. intros _. split; [lia|done]. }
    destruct (hi_index_focus _ _ _ _ Ht ltac:(lia) Hc Hp Hne) as (i & Hi & Hf).
    unfold hi_index in Hi. cbv zeta in Hi. fold total in Hi. rewrite Hi.
    assert (Hit : Z.of_nat i < total) by (destruct Hf as (l & Hl & _); apply lookup_lt_Some in Hl; lia).
    replace (0 <=? Z.of_nat i) with true by lia. rewrite andb_true_r.
    pose proof (Z.div_mod win 2 ltac:(lia)). pose proof (Z.mod_pos_bound win 2 ltac:(lia)).
    assert (Hfin : forall b e, 0 <= b <= Z.of_nat i -> Z.of_nat i < e <= total -> e - b = Z.min total win ->
      0 <= b <= e /\ e <= total /\ (hp < 0 -> b = 0 /\ e = if 0 <? max_instructions then Z.min total max_instructions else total) /\
      (0 <= hp -> e - b = Z.min total win /\ (lines <> [] -> exists i, focus lines hp i /\ b <= Z.of_nat i < e))).
    { intros b e Hb He Hw. split_and!; try lia. intros _. split; [done|]. intros _. exists i. split; [exact Hf|lia]. }
    destruct (Z.ltb_spec win total); [|apply Hfin; lia].
    destruct (Z.ltb_spec (win / 2) (Z.of_nat i));
      match goal with |- context [total <? ?x] => destruct (Z.ltb_spec total x) end; apply Hfin; lia.
  - set (win := if 0 <? max_instructions then max_instructions else total).
    destruct (Z.ltb_spec 0 max_instructions); cbn [andb]; [|split_and!; lia].
    destruct (Z.ltb_spec max_instructions total); split_and!; lia.
Qed.

(** ** Compact code items *)

(** The CompactDex encoding: four 4-bit sizes and an 11-bit count in the
    item, the rest of each - where there is one - in the words before it,
    each announced by a flag. *)
Definition high (n x : Z) : Z := x / 2 ^ n * 2 ^ n.
Definition has_high (n x : Z) : bool := negb (high n x =? 0).
Definition bit (b : bool) : Z := if b then 1 else 0.
Definition spill (n x : Z) : list Z := if has_high n x then [high n x] else [].

(** The words before the item, nearest first; registers are counted without
    the arguments. *)
Definition preheader (regs ins outs tries count : Z) : list Z :=
  (if has_high 11 count then [high 11 count mod 2 ^ 16; high 11 count / 2 ^ 16] else []) ++
  spill 4 (regs - ins) ++ spill 4 ins ++ spill 4 outs ++ spill 4 tries.
Definition compact_words (regs ins outs tries count : Z) : list Z :=
  [(regs - ins) mod 16 * 4096 + ins mod 16 * 256 + outs mod 16 * 16 + tries mod 16;
   count mod 2048 * 32 + (bit (has_high 11 count) * 16 + bit (has_high 4 tries) * 8 + bit (has_high 4 outs) * 4 +
     bit (has_high 4 ins) * 2 + bit (has_high 4 (regs - ins)))].

Lemma flag_testbit x n : 0 <= n -> flag x n = Z.testbit x n.
Proof.
  intros Hn. unfold flag. rewrite Z.shiftl_1_l.
  destruct (Z.testbit x n) eqn:Et.
  - apply negb_true_iff, Z.eqb_neq. intros H0. assert (Hb : Z.testbit (x & 2 ^ n) n = true).
    { by rewrite Z.land_spec, Et, Z.pow2_bits_true. }
    rewrite H0, Z.bits_0 in Hb. done.
  - apply negb_false_iff, Z.eqb_eq. apply Z.bits_inj'. intros i Hi. rewrite Z.land_spec, Z.bits_0.
    destruct (decide (i = n)) as [->|]; [by rewrite Et|]. by rewrite Z.pow2_bits_false, andb_false_r by lia.
Qed.

Lemma flag_low c k n : 0 <= k < 32 -> 0 <= n < 5 -> flag (c * 32 + k) n = Z.testbit k n.
Proof.
  intros Hk Hn. rewrite flag_testbit by lia.
  rewrite <- (Z.mod_pow2_bits_low _ 5) by lia. change (2 ^ 5) with 32.
  rewrite Z.add_comm, Z.mod_add, Z.mod_small by lia. done.
Qed.

Lemma high_low n x : 0 <= n -> high n x + x mod 2 ^ n = x.
Proof. intros. unfold high. pose proof (Z.div_mod x (2 ^ n)). pose proof (pow2_pos n). lia. Qed.

Lemma nibble_field a b k : 0 <= k -> 0 <= b < 2 ^ k -> 0 <= a -> ((a * 2 ^ k + b) >> k) & 0xF = a mod 16.
Proof.
  intros Hk Hb Ha. change 0xF with (2 ^ 4 - 1). rewrite land_mask, Z.shiftr_div_pow2 by lia.
  rewrite Z.add_comm, Z.div_add by lia. rewrite Z.div_small by lia. done.
Qed.

Lemma flags_ok c b4 b3 b2 b1 b0 :
  let x := c * 32 + (bit b4 * 16 + bit b3 * 8 + bit b2 * 4 + bit b1 * 2 + bit b0) in
  flag x 4 = b4 /\ flag x 0 = b0 /\ flag x 1 = b1 /\ flag x 2 = b2.
Proof. intros x. unfold x. destruct b4, b3, b2, b1, b0; rewrite !flag_low by (simpl; lia); done. Qed.

(** A size is its low part plus the spilled word, if any. *)
Lemma spill_sum n x : 0 <= n -> has_high n x = false -> x mod 2 ^ n = x.
Proof.
  intros Hn. pose proof (high_low n x Hn). unfold has_high. destruct (Z.eqb_spec (high n x) 0); simpl; intros; done || lia.
Qed.

Section Preheader.
Context (pre tail : list Z).
Abbreviation mem := (reverse pre ++ tail).
Abbreviation L := (Z.of_nat (length pre)).

Lemma preheader_lookup (k : nat) p w : pre !! k = Some w -> p = L - 1 - Z.of_nat k -> mem !!z p = Some w.
Proof.
  intros Hk ->. pose proof (lookup_lt_Some _ _ _ Hk). unfold zlookup.
  destruct (Z.leb_spec 0 (L - 1 - Z.of_nat k)); [|lia].
  apply lookup_app_l_Some, reverse_lookup_Some. split; [|lia]. rewrite <- Hk. f_equal. lia.
Qed.
Lemma item_lookup (k : nat) p : p = L + Z.of_nat k -> mem !!z p = tail !! k.
Proof.
  intros ->. unfold zlookup. destruct (Z.leb_spec 0 (L + Z.of_nat k)); [|lia].
  rewrite lookup_app_r by (rewrite length_reverse; lia). rewrite length_reverse. f_equal. lia.
Qed.

(** One size read with its spilled word, [pre1] read before. *)
Lemma read_spill pre1 pre2 x : pre = pre1 ++ spill 4 x ++ pre2 -> in_u 16 x ->
  (if has_high 4 x then
     w ← mem !!z (L - Z.of_nat (length pre1) - 1); Some (U16 (x mod 16 + w), L - Z.of_nat (length pre1) - 1)
   else Some (x mod 16, L - Z.of_nat (length pre1))) =
  Some (x, L - Z.of_nat (length (pre1 ++ spill 4 x))).
Proof.
  intros Hp Hx. rewrite length_app. unfold spill in *. destruct (has_high 4 x) eqn:Eh.
  - rewrite (preheader_lookup (length pre1) _ (high 4 x)); [|rewrite Hp; cbn [app]; by rewrite list_lookup_middle|lia].
    cbn [mbind option_bind length]. pose proof (high_low 4 x ltac:(lia)) as Hl. change (2 ^ 4) with 16 in Hl.
    rewrite (wrap_small 16) by (by rewrite Z.add_comm, Hl). do 2 f_equal; lia.
  - pose proof (spill_sum 4 x ltac:(lia) Eh) as Hl. change (2 ^ 4) with 16 in Hl. rewrite Hl. cbn [length].
    do 2 f_equal. lia.
Qed.

Lemma read_count pre2 count : in_u 32 count ->
  pre = (if has_high 11 count then [high 11 count mod 2 ^ 16; high 11 count / 2 ^ 16] else []) ++ pre2 ->
  (if has_high 11 count then
     lo ← mem !!z (L - 1); hi ← mem !!z (L - 2);
     Some (U32 (U32 (count mod 2048 + lo) + (hi << 16)), L - 2)
   else Some (count mod 2048, L)) =
  Some (count, L - Z.of_nat (length pre - length pre2)).
Proof.
  intros Hc Hp. destruct (has_high 11 count) eqn:Eh; cbn [app] in Hp.
  - rewrite (preheader_lookup 0 (L - 1) (high 11 count mod 2 ^ 16)) by (first [by rewrite Hp | lia]).
    rewrite (preheader_lookup 1 (L - 2) (high 11 count / 2 ^ 16)) by (first [by rewrite Hp | lia]).
    cbn [mbind option_bind]. pose proof (high_low 11 count ltac:(lia)) as Hl. change (2 ^ 11) with 2048 in Hl.
    pose proof (Z.div_mod (high 11 count) (2 ^ 16) ltac:(lia)). rewrite Z.shiftl_mul_pow2 by lia.
    assert (Hsum : count mod 2048 + high 11 count mod 2 ^ 16 + high 11 count / 2 ^ 16 * 2 ^ 16 = count).
    { set (h := high 11 count) in *. clearbody h. set (q := h / 2 ^ 16) in *. set (r := h mod 2 ^ 16) in *. clearbody q r. lia. }
    rewrite wrap_add_l, Hsum, wrap_small by done.
    rewrite Hp. cbn [length]. do 2 f_equal; lia.
  - pose proof (spill_sum 11 count ltac:(lia) Eh) as Hl. change (2 ^ 11) with 2048 in Hl. rewrite Hl, Hp.
    do 2 f_equal. lia.
Qed.
End Preheader.

(** the compact code item.  Whatever sizes a method has - also those that
    overflow into the preheader - decoding what the CompactDex format
    encodes gives them back, and the instructions right after the item. *)
Theorem compact_roundtrip regs ins outs tries count rest :
  in_u 16 regs -> 0 <= ins <= regs -> in_u 16 outs -> in_u 16 tries -> in_u 32 count ->
  let pre := preheader regs ins outs tries count in
  compact_item (reverse pre ++ compact_words regs ins outs tries count ++ rest) (Z.of_nat (length pre)) =
  Some (MkCodeItem regs ins outs count (Z.of_nat (length pre) + 2)).
Proof.
  intros Hr Hi Ho Ht Hc pre. unfold in_u in *.
  set (tail := compact_words regs ins outs tries count ++ rest). unfold compact_item.
  rewrite (item_lookup pre tail 0 (Z.of_nat (length pre))), (item_lookup pre tail 1 (Z.of_nat (length pre) + 1)) by lia.
  set (fields := (regs - ins) mod 16 * 4096 + ins mod 16 * 256 + outs mod 16 * 16 + tries mod 16).
  set (cf := count mod 2048 * 32 + (bit (has_high 11 count) * 16 + bit (has_high 4 tries) * 8 +
    bit (has_high 4 outs) * 4 + bit (has_high 4 ins) * 2 + bit (has_high 4 (regs - ins)))).
  change (tail !! 0%nat) with (Some fields). change (tail !! 1%nat) with (Some cf).
  clearbody tail. cbn [mbind option_bind]. cbv zeta.
  pose proof (Z.mod_pos_bound (regs - ins) 16). pose proof (Z.mod_pos_bound ins 16).
  pose proof (Z.mod_pos_bound outs 16). pose proof (Z.mod_pos_bound tries 16).
  pose proof (Z.mod_pos_bound count 2048).
  assert (F12 : (fields >> 12) & 0xF = (regs - ins) mod 16).
  { replace fields with ((regs - ins) mod 16 * 2 ^ 12 + (ins mod 16 * 256 + outs mod 16 * 16 + tries mod 16)) by (unfold fields; lia).
    rewrite nibble_field by lia. by rewrite Z.mod_mod by lia. }
  assert (F8 : (fields >> 8) & 0xF = ins mod 16).
  { replace fields with (((regs - ins) mod 16 * 16 + ins mod 16) * 2 ^ 8 + (outs mod 16 * 16 + tries mod 16)) by (unfold fields; lia).
    rewrite nibble_field by lia. by rewrite Z.add_comm, Z.mod_add, Z.mod_mod by lia. }
  assert (F4 : (fields >> 4) & 0xF = outs mod 16).
  { replace fields with (((regs - ins) mod 16 * 256 + ins mod 16 * 16 + outs mod 16) * 2 ^ 4 + tries mod 16) by (unfold fields; lia).
    rewrite nibble_field by lia.
    replace ((regs - ins) mod 16 * 256 + ins mod 16 * 16 + outs mod 16) with (outs mod 16 + ((regs - ins) mod 16 * 16 + ins mod 16) * 16) by lia.
    by rewrite Z.mod_add, Z.mod_mod by lia. }
  destruct (flags_ok (count mod 2048) (has_high 11 count) (has_high 4 tries) (has_high 4 outs) (has_high 4 ins)
    (has_high 4 (regs - ins))) as (G4 & G0 & G1 & G2). fold cf in G4, G0, G1, G2.
  assert (F5 : cf >> 5 = count mod 2048).
  { rewrite Z.shiftr_div_pow2 by lia. change (2 ^ 5) with 32. unfold cf. rewrite Z.add_comm, Z.div_add by lia.
    rewrite Z.div_small; [lia|]. unfold bit. repeat case_match; lia. }
  rewrite F12, F8, F4, F5, G4, G0, G1, G2. clearbody fields cf.
  set (p1 := if has_high 11 count then [high 11 count mod 2 ^ 16; high 11 count / 2 ^ 16] else []).
  set (q4 := spill 4 tries).
  assert (Hpre : pre = p1 ++ spill 4 (regs - ins) ++ spill 4 ins ++ spill 4 outs ++ q4) by done.
  rewrite (read_count pre tail _ count Hc Hpre). cbn [mbind option_bind].
  replace (length pre - length _)%nat with (length p1) by (rewrite Hpre, !length_app; lia).
  rewrite (read_spill pre tail p1 _ (regs - ins) Hpre) by (unfold in_u; lia). cbn [mbind option_bind].
  assert (Hpre2 : pre = (p1 ++ spill 4 (regs - ins)) ++ spill 4 ins ++ spill 4 outs ++ q4) by (by rewrite <- app_assoc).
  rewrite (read_spill pre tail _ _ ins Hpre2) by (unfold in_u; lia). cbn [mbind option_bind].
  assert (Hpre3 : pre = ((p1 ++ spill 4 (regs - ins)) ++ spill 4 ins) ++ spill 4 outs ++ q4) by (by rewrite <- !app_assoc).
  rewrite (read_spill pre tail _ _ outs Hpre3) by done. cbn [mbind option_bind].
  rewrite wrap_small by (unfold in_u; lia). do 2 f_equal. lia.
Qed.

(** ** Access flags *)

(** Splitting at spaces. *)
Fixpoint split_words (l cur : list Z) : list (list Z) :=
  match l with
  | [] => [cur]
  | c :: l => if c =? 32 then cur :: split_words l [] else split_words l (cur ++ [c])
  end.
(** The flags named in a text. *)
Definition named_flags (t : list Z) : Z :=
  foldl (fun acc p => if bool_decide (p.2 ∈ split_words t []) then acc .| p.1 else acc) 0 access_names.
Definition known_flags : Z := foldl Z.lor 0 (access_names.*1).

Definition plain_word (n : list Z) : Prop := n <> [] /\ 32 ∉ n.
#[export] Instance plain_word_dec n : Decision (plain_word n).
Proof. unfold plain_word. apply _. Defined.

Lemma split_plain n cur : 32 ∉ n -> split_words n cur = [cur ++ n].
Proof.
  revert cur. induction n as [|c n IH]; intros cur Hn; simpl; [by rewrite app_nil_r|].
  apply not_elem_of_cons in Hn as [Hc Hn]. destruct (Z.eqb_spec c 32); [congruence|].
  rewrite IH by done. by rewrite <- app_assoc.
Qed.
Lemma split_snoc s n cur : 32 ∉ n -> split_words (s ++ 32 :: n) cur = split_words s cur ++ [n].
Proof.
  intros Hn. revert cur. induction s as [|c s IH]; intros cur; simpl.
  - by rewrite split_plain.
  - destruct (c =? 32); simpl; by rewrite IH.
Qed.

(** The words of the text built so far. *)
Definition text_words (t : list Z) : list (list Z) := if streq t [] then [] else split_words t [].
Lemma text_words_append t n : plain_word n -> append t n <> [] /\ text_words (append t n) = text_words t ++ [n].
Proof.
  intros [Hne Hn]. unfold append, text_words, streq. destruct t as [|c t].
  - rewrite !bool_decide_true by done. cbn [negb app]. rewrite bool_decide_false by done.
    split; [done|]. by rewrite split_plain.
  - rewrite (bool_decide_false (c :: t = [])) by done. cbn [negb].
    rewrite bool_decide_false by (by destruct t). split; [by destruct t|].
    rewrite <- app_assoc. apply split_snoc, Hn.
Qed.

Definition selected (flags : Z) (l : list (Z * list Z)) : list (Z * list Z) :=
  filter (fun p => flags & p.1 <> 0) l.
Lemma text_selected flags l t : Forall (fun p : Z * list Z => plain_word p.2) l ->
  text_words (foldl (fun s '(bit, name) => if negb (flags & bit =? 0) then append s name else s) t l) =
  text_words t ++ (selected flags l).*2.
Proof.
  revert t. unfold selected. induction l as [|[b n] l IH]; intros t Hl; simpl; [by rewrite app_nil_r|].
  inversion Hl as [|?? Hn Hl']; subst. destruct (Z.eqb_spec (flags & b) 0) as [E|E]; cbn [negb].
  - rewrite IH, filter_cons_False by (done || (simpl; tauto)). done.
  - rewrite IH, filter_cons_True by done. rewrite (proj2 (text_words_append t n Hn)).
    by rewrite <- app_assoc.
Qed.

Lemma fold_flags flags l acc : Forall (fun p : Z * list Z => flags & p.1 = 0 \/ flags & p.1 = p.1) l ->
  foldl (fun a (p : Z * list Z) => if bool_decide (flags & p.1 <> 0) then a .| p.1 else a) acc l =
  acc .| (flags & foldl Z.lor 0 (l.*1)).
Proof.
  intros Hl. assert (Hm : forall x k, foldl Z.lor x k = x .| foldl Z.lor 0 k).
  { intros x k. revert x. induction k as [|y k IH]; intros x; simpl; [by rewrite Z.lor_0_r|].
    rewrite (IH (x .| y)), (IH (0 .| y)), Z.lor_0_l. by rewrite Z.lor_assoc. }
  revert acc. induction l as [|[b n] l IH]; intros acc; simpl; [by rewrite Z.land_0_r, Z.lor_0_r|].
  inversion Hl as [|?? Hb Hl']; subst. cbn [fst] in Hb.
  rewrite IH by done. rewrite (Hm (0 .| b)), Z.lor_0_l, Z.land_lor_distr_r, Z.lor_assoc. f_equal.
  destruct (decide (flags & b = 0)) as [E|E].
  - rewrite bool_decide_false by tauto. by rewrite E, Z.lor_0_r.
  - rewrite bool_decide_true by done. destruct Hb as [Hb|Hb]; [done|by rewrite Hb].
Qed.

Lemma single_bit x k : 0 <= k -> x & 2 ^ k = 0 \/ x & 2 ^ k = 2 ^ k.
Proof.
  intros Hk. destruct (Z.testbit x k) eqn:Et; [right|left]; apply Z.bits_inj'; intros i Hi;
    rewrite Z.land_spec, ?Z.bits_0; destruct (decide (i = k)) as [->|];
    rewrite ?Et, ?Z.pow2_bits_true, ?Z.pow2_bits_false, ?andb_false_r by lia; done.
Qed.

Lemma names_unique p q : p ∈ access_names -> q ∈ access_names -> p.2 = q.2 -> p = q.
Proof.
  assert (Hn : NoDup (access_names.*2)) by (refine (bool_decide_unpack _ _); vm_compute; exact I).
  intros [i Hi]%list_elem_of_lookup [j Hj]%list_elem_of_lookup Heq.
  assert (Hij : i = j); [|subst; congruence].
  eapply (NoDup_lookup _ _ _ p.2 Hn); rewrite list_lookup_fmap.
  - by rewrite Hi.
  - rewrite Hj. simpl. by rewrite Heq.
Qed.
Lemma default_not_named p : p ∈ access_names -> p.2 ∉ split_words (str "package-private") [].
Proof.
  assert (Hall : Forall (fun p : Z * list Z => p.2 ∉ split_words (str "package-private") []) access_names)
    by (refine (bool_decide_unpack _ _); vm_compute; exact I).
  rewrite List.Forall_forall in Hall. intros Hp. by apply Hall, list_elem_of_In.
Qed.
Lemma foldl_ext_in {A B} (f g : A -> B -> A) l : forall a,
  (forall a x, x ∈ l -> f a x = g a x) -> foldl f a l = foldl g a l.
Proof.
  induction l as [|x l IH]; intros a Hfg; simpl; [done|].
  rewrite Hfg by constructor. apply IH. intros. apply Hfg. by constructor.
Qed.

(** the access flags can be read back from their text: the words of
    [PrettyAccessFlags flags] name exactly the known flags set in [flags]
    ("package-private" names none). *)
Theorem PrettyAccessFlags_readback flags : named_flags (PrettyAccessFlags flags) = flags & known_flags.
Proof.
  assert (Hpw : Forall (fun p : Z * list Z => plain_word p.2) access_names) 
    by (refine (bool_decide_unpack _ _); vm_compute; exact I).
  assert (Hbits : Forall (fun p : Z * list Z => flags & p.1 = 0 \/ flags & p.1 = p.1) access_names).
  { assert (Hpow : Forall (fun p : Z * list Z => p.1 = 2 ^ Z.log2 p.1) access_names)
      by (refine (bool_decide_unpack _ _); vm_compute; exact I).
    eapply Forall_impl; [|exact Hpow]. intros p Hp. cbv beta in *. rewrite Hp. apply single_bit, Z.log2_nonneg. }
  pose proof (text_selected flags access_names [] Hpw) as Ht.
  change (text_words []) with (@nil (list Z)) in Ht. rewrite app_nil_l in Ht.
  assert (Hw : forall p, p ∈ access_names ->
    (p.2 ∈ split_words (PrettyAccessFlags flags) [] <-> flags & p.1 <> 0)).
  { intros p Hp. assert (Hsel : p.2 ∈ (selected flags access_names).*2 <-> flags & p.1 <> 0).
    { unfold selected. rewrite list_elem_of_fmap. setoid_rewrite list_elem_of_filter. split.
      - intros (q & Eq & Hq & Hin). replace p with q; [done|]. by apply names_unique.
      - intros Hf. by exists p. }
    rewrite <- Hsel, <- Ht. unfold PrettyAccessFlags, text_words.
    set (t := foldl _ [] access_names) in *. destruct (streq t []) eqn:Es; [|done].
    split; [|intros Hin; inversion Hin]. intros Hin. by destruct (default_not_named p Hp Hin). }
  unfold named_flags, known_flags. rewrite <- (Z.lor_0_l (flags & _)), <- (fold_flags flags access_names 0 Hbits).
  apply foldl_ext_in. intros acc p Hp. by rewrite (bool_decide_ext _ _ (Hw p Hp)).
Qed.

(** ** Instances *)

(** const/4 v0, #1; packed-switch v0, +3; return v0; a payload of one case. *)
Definition sample_mem : list Z :=
  [0x1012; 0x002b; 0x0004; 0x0000; 0x000f; 0x0100; 0x0001; 0x0000; 0x0000; 0x0003; 0x0000; 0; 0; 0].

Lemma walk_tiles_witness :
  exists lines, walk None None 12 sample_mem 0 11 4 0 = Some lines /\ tiles 0 11 lines /\
    (offset <$> lines) = [0; 1; 4; 5].
Proof.
  destruct (walk_tiles None None sample_mem 0 11 ltac:(by repeat constructor) ltac:(lia) ltac:(done) ltac:(simpl; lia) 4)
    as (lines & Hw & Ht & _).
  exists lines. split; [exact Hw|]. split; [exact Ht|].
  vm_compute in Hw. injection Hw as <-. vm_compute. reflexivity.
Defined.

Definition sample_lines : list SmaliLine :=
  [MkLine 0 1 []; MkLine 1 3 []; MkLine 4 1 []; MkLine 5 6 []].
Lemma window_correct_witness :
  let '(b, e) := window sample_lines 2 4 in e - b = 2 /\ exists i, focus sample_lines 4 i /\ b <= Z.of_nat i < e.
Proof.
  assert (Ht : tiles 0 11 sample_lines) by (repeat (constructor; [reflexivity|simpl; lia|]); constructor).
  pose proof (window_correct 11 sample_lines 2 4 Ht ltac:(lia)) as H. vm_compute window in H |- *.
  destruct H as (_ & _ & _ & H). destruct (H ltac:(lia)) as [H1 H2]. split; [exact H1|]. apply H2. discriminate.
Defined.

(** 20 registers, 17 of them arguments, 5000 code units: two spilled words
    for the count and one for the arguments. *)
Lemma compact_roundtrip_witness :
  exists mem at_, compact_item mem at_ = Some (MkCodeItem 20 17 3 5000 (at_ + 2)) /\ at_ = 3.
Proof.
  do 2 eexists. split; [apply (compact_roundtrip 20 17 3 1 5000 []); unfold in_u; lia|reflexivity].
Defined.

End SmaliProofs.
