(* ===== verification/VmEnv.v ===== *)
(** * The interpreter's machine: platform interface, frame, monad

    What [vmInterpret2] (engine/nmmvm/vm/InterpC-portable.cpp) runs on.

    - [JNI]: the table of [JNIWrapper] (engine/nmmvm/include/JNIWrapper.h)
      over an abstract world [W]; Android's JNI is not under src/.
    - [vmResolver], [vmGlobals], [vmCode], [VmTracer]: the records of
      include/vm.h, include/GlobalCache.h and include/VmTracer.h.
    - [frame]: the local variables of [vmInterpret2] that live across
      instructions, with the world.
    - [M]: a handler's control flow.  [Jump] is a [goto] out of the handler
      ([FINISH], [exceptionThrown], [returnFromMethod], [bail]); [Undef] is
      undefined behaviour: a fetch outside the code, a register outside the
      register file, a null pointer.

    Signed overflow in the handlers' additions is modelled as wrap-around.
    References, method and field ids are addresses; 0 is NULL. *)
From S2P Require Import Prelude DexCatch.
Local Open Scope cint_scope.

Module VmEnv.

(** ** Platform *)

Inductive prim := PBoolean | PByte | PChar | PShort | PInt | PFloat | PLong | PDouble.
Inductive jkind := KPrim (p : prim) | KObject | KVoid.
Inductive callkind := CallVirtual | CallNonvirtual (clazz : Z) | CallStatic (clazz : Z).

#[export] Instance prim_eq_dec : EqDecision prim.
Proof. solve_decision. Defined.

(** A value of the C type [jboolean], ..., [jdouble] (floats as bits). *)
Definition as_prim (p : prim) (v : Z) : Z :=
  match p with
  | PBoolean => U8 v | PByte => S8 v | PChar => U16 v | PShort => S16 v
  | PInt => S32 v | PFloat => U32 v | PLong => S64 v | PDouble => U64 v
  end.

(** Type characters of shorties and descriptors. *)
Definition prim_of_char (c : Z) : option prim :=
  match c with
  | 90 (* Z *) => Some PBoolean | 66 (* B *) => Some PByte | 67 (* C *) => Some PChar
  | 83 (* S *) => Some PShort | 73 (* I *) => Some PInt | 70 (* F *) => Some PFloat
  | 74 (* J *) => Some PLong | 68 (* D *) => Some PDouble
  | _ => None
  end.
Definition ch_L : Z := 76.
Definition ch_V : Z := 86.
Definition ch_array : Z := 91.
Definition ch_I : Z := 73.
Definition ch_F : Z := 70.
Definition ch_J : Z := 74.
Definition ch_D : Z := 68.

(** [GetPrimitiveArrayCritical] gives the bytes of the elements ([None]:
    NULL); [ReleasePrimitiveArrayCritical] with [copyBack] (mode 0) stores
    them, without (JNI_ABORT) drops them. *)
Class JNI (W : Type) := {
  NewLocalRef : Z -> W -> Z * W;
  DeleteLocalRef : Z -> W -> W;
  IsSameObject : Z -> Z -> W -> Z * W;
  IsInstanceOf : Z -> Z -> W -> Z * W;
  AllocObject : Z -> W -> Z * W;
  MonitorEnter : Z -> W -> Z * W;
  MonitorExit : Z -> W -> Z * W;
  ExceptionOccurred : W -> Z * W;
  ExceptionClear : W -> W;
  ExceptionCheck : W -> Z * W;
  Throw : Z -> W -> W;
  ThrowNew : Z -> option (list Z) -> W -> W;
  GetArrayLength : Z -> W -> Z * W;
  NewPrimArray : prim -> Z -> W -> Z * W;
  NewObjectArray : Z -> Z -> Z -> W -> Z * W;
  GetObjectArrayElement : Z -> Z -> W -> Z * W;
  SetObjectArrayElement : Z -> Z -> Z -> W -> W;
  GetArrayRegion1 : prim -> Z -> Z -> W -> option Z * W;
  SetArrayRegion1 : prim -> Z -> Z -> Z -> W -> W;
  GetPrimitiveArrayCritical : Z -> W -> option (list Z) * W;
  ReleasePrimitiveArrayCritical : Z -> list Z -> bool -> W -> W;
  GetField : jkind -> Z -> Z -> W -> Z * W;
  SetField : jkind -> Z -> Z -> Z -> W -> W;
  GetStaticField : jkind -> Z -> Z -> W -> Z * W;
  SetStaticField : jkind -> Z -> Z -> Z -> W -> W;
  CallMethodA : callkind -> jkind -> Z -> Z -> list Z -> W -> Z * W
}.
Definition JNI_OK : Z := 0.

Record vmField := MkVmField { f_classIdx : Z; f_type : Z; fieldId : Z }.
Record vmMethod := MkVmMethod { m_classIdx : Z; m_idx : Z; shorty : list Z; methodId : Z }.
Record vmResolver (W : Type) := MkResolver {
  dvmResolveField : Z -> bool -> W -> option vmField * W;
  dvmResolveMethod : Z -> bool -> W -> option vmMethod * W;
  dvmResolveTypeUtf : Z -> W -> option (list Z) * W;
  dvmResolveClass : Z -> W -> Z * W;
  dvmFindClass : list Z -> W -> Z * W;
  dvmConstantString : Z -> W -> Z * W
}.
Arguments dvmResolveField {W}. Arguments dvmResolveMethod {W}. Arguments dvmResolveTypeUtf {W}.
Arguments dvmResolveClass {W}. Arguments dvmFindClass {W}. Arguments dvmConstantString {W}.

(** [gVm]: the cached exception classes. *)
Record vmGlobals := MkGlobals {
  exNoClassDefFoundError : Z; exNoSuchFieldError : Z; exNoSuchFieldException : Z; exNoSuchMethodError : Z;
  exNullPointerException : Z; exArithmeticException : Z; exInternalError : Z;
  exNegativeArraySizeException : Z; exArrayIndexOutOfBoundsException : Z;
  exClassCastException : Z; exClassNotFoundException : Z; exRuntimeException : Z }.

Record vmCode := MkVmCode { insns : list Z; triesHandlers : option DexCatch.TryCatchHandler }.

(** The fields of a [VmFrameCtx] the interpreter itself writes; [regs] and
    [regFlags] point to the frame's own. *)
Record VmFrameCtx := MkFrameCtx { c_pc : Z; c_inst : Z; insns_executed : Z }.

(** Callbacks; an absent one is NULL.  [onInvokePre] may write to the
    arguments it is passed, which it returns. *)
Record VmTracer (W : Type) := MkTracer {
  onInsn : option (VmFrameCtx -> list Z -> list Z -> W -> Z * W);
  onInvokePre : option (VmFrameCtx -> vmMethod -> Z -> Z -> Z -> list Z -> W -> Z * Z * list Z * W);
  stepIn : option (VmFrameCtx -> vmMethod -> Z -> Z -> Z -> list Z -> Z -> W -> Z * Z * W);
  onInvokePost : option (VmFrameCtx -> vmMethod -> Z -> Z -> Z -> W -> W);
  onException : option (VmFrameCtx -> Z -> Z -> Z -> W -> W);
  onFrameExit : option (VmFrameCtx -> Z -> W -> W)
}.
Arguments onInsn {W}. Arguments onInvokePre {W}. Arguments stepIn {W}.
Arguments onInvokePost {W}. Arguments onException {W}. Arguments onFrameExit {W}.
Definition VM_INVOKE_JNI : Z := 0.
Definition VM_INVOKE_STEP_IN : Z := 1.
Definition VM_INVOKE_MOCK : Z := 2.

(** Everything a call of [vmInterpret2] is given, besides the registers.
    [uninit] is what uninitialised memory holds. *)
Class VmEnv (W : Type) := {
  vm_jni :: JNI W;
  dvmResolver : vmResolver W;
  gVm : vmGlobals;
  code : vmCode;
  tracer : option (VmTracer W);
  g_vmTraceHook : option (Z -> Z -> list Z -> list Z -> W -> W);
  uninit : Z -> Z
}.

(** ** Frame *)
Record frame (W : Type) := MkFrame {
  pc : Z; inst : Z;
  fp : list Z; fp_flags : list Z;
  retval : Z; args_tmp : list Z; methodCallRange : bool;
  tctx : option VmFrameCtx;
  world : W }.
Arguments pc {W}. Arguments inst {W}. Arguments fp {W}. Arguments fp_flags {W}. Arguments retval {W}.
Arguments args_tmp {W}. Arguments methodCallRange {W}. Arguments tctx {W}. Arguments world {W}.
Arguments MkFrame {W}.

Inductive ctl := Finish (offset : Z) | GotoExceptionThrown | GotoReturnFromMethod | GotoBail.

Inductive res (W A : Type) :=
  | Val (x : A) (s : frame W)
  | Jump (c : ctl) (s : frame W)
  | Undef.
Arguments Val {W A}. Arguments Jump {W A}. Arguments Undef {W A}.

Definition M (W A : Type) := frame W -> res W A.

Section Monad.
Context {W : Type}.
Definition ret {A} (x : A) : M W A := fun s => Val x s.
Definition bind {A B} (m : M W A) (k : A -> M W B) : M W B := fun s =>
  match m s with Val x s' => k x s' | Jump c s' => Jump c s' | Undef => Undef end.
Definition goto {A} (c : ctl) : M W A := fun s => Jump c s.
Definition undef {A} : M W A := fun _ => Undef.
Definition gets {A} (f : frame W -> A) : M W A := fun s => Val (f s) s.
Definition opt {A} (o : option A) : M W A := match o with Some x => ret x | None => undef end.
(** Calls out to the platform. *)
Definition call {A} (f : W -> A * W) : M W A := fun s =>
  let '(x, w) := f (world s) in
  Val x (MkFrame (pc s) (inst s) (fp s) (fp_flags s) (retval s) (args_tmp s) (methodCallRange s) (tctx s) w).
Definition call_ (f : W -> W) : M W unit := call (fun w => (tt, f w)).

Definition set_fp (l : list Z) : M W unit := fun s =>
  Val tt (MkFrame (pc s) (inst s) l (fp_flags s) (retval s) (args_tmp s) (methodCallRange s) (tctx s) (world s)).
Definition set_fp_flags (l : list Z) : M W unit := fun s =>
  Val tt (MkFrame (pc s) (inst s) (fp s) l (retval s) (args_tmp s) (methodCallRange s) (tctx s) (world s)).
Definition set_retval (v : Z) : M W unit := fun s =>
  Val tt (MkFrame (pc s) (inst s) (fp s) (fp_flags s) v (args_tmp s) (methodCallRange s) (tctx s) (world s)).
Definition set_args_tmp (l : list Z) : M W unit := fun s =>
  Val tt (MkFrame (pc s) (inst s) (fp s) (fp_flags s) (retval s) l (methodCallRange s) (tctx s) (world s)).
Definition set_methodCallRange (b : bool) : M W unit := fun s =>
  Val tt (MkFrame (pc s) (inst s) (fp s) (fp_flags s) (retval s) (args_tmp s) b (tctx s) (world s)).
Definition set_pc (p : Z) : M W unit := fun s =>
  Val tt (MkFrame p (inst s) (fp s) (fp_flags s) (retval s) (args_tmp s) (methodCallRange s) (tctx s) (world s)).
Definition set_inst (i : Z) : M W unit := fun s =>
  Val tt (MkFrame (pc s) i (fp s) (fp_flags s) (retval s) (args_tmp s) (methodCallRange s) (tctx s) (world s)).
Definition set_tctx (c : option VmFrameCtx) : M W unit := fun s =>
  Val tt (MkFrame (pc s) (inst s) (fp s) (fp_flags s) (retval s) (args_tmp s) (methodCallRange s) c (world s)).
End Monad.

Declare Scope vm_scope.
Delimit Scope vm_scope with vm.
Notation "x <- m ;; k" := (bind m (fun x => k)) (at level 100, m at next level, k at level 200, right associativity) : vm_scope.
Notation "m ;;; k" := (bind m (fun _ => k)) (at level 100, k at level 200, right associativity) : vm_scope.
Local Open Scope vm_scope.

(** ** Registers, operands and references *)

(** The low half of a 64-bit cell replaced: [union] and [float*] stores. *)
Definition put32 (old v : Z) : Z := (old >> 32) << 32 .| U32 v.

Definition INST_INST (inst : Z) : Z := inst & 0xff.
Definition INST_A (inst : Z) : Z := (inst >> 8) & 0x0f.
Definition INST_B (inst : Z) : Z := inst >> 12.
Definition INST_AA (inst : Z) : Z := inst >> 8.

Section Ops.
Context {W : Type} `{E : VmEnv W}.
Implicit Types (v : M W Z).

Definition FETCH (offset : Z) : M W Z := s <- gets pc ;; opt (insns code !!z (s + offset)).

Definition GET_RAW (idx : Z) : M W Z := r <- gets fp ;; opt (r !!z idx).
Definition PUT_RAW (idx x : Z) : M W unit := r <- gets fp ;; l <- opt (zset r idx x) ;; set_fp l.
Definition GET_REGISTER_FLAGS (idx : Z) : M W Z := r <- gets fp_flags ;; opt (r !!z idx).
Definition SET_REGISTER_FLAGS (idx x : Z) : M W unit :=
  r <- gets fp_flags ;; l <- opt (zset r idx (U8 x)) ;; set_fp_flags l.

Definition GET_REGISTER_AS_OBJECT (idx : Z) : M W Z := GET_RAW idx.
Definition GET_REGISTER (idx : Z) : M W Z := r <- GET_RAW idx ;; ret (U32 r).
Definition GET_REGISTER_INT (idx : Z) : M W Z := r <- GET_REGISTER idx ;; ret (S32 r).
Definition GET_REGISTER_FLOAT (idx : Z) : M W Z := r <- GET_RAW idx ;; ret (U32 r).
Definition GET_REGISTER_WIDE (idx : Z) : M W Z := r <- GET_RAW idx ;; ret (S64 r).
Definition GET_REGISTER_DOUBLE (idx : Z) : M W Z := GET_RAW idx.

Definition DELETE_LOCAL_REF (idx : Z) : M W unit :=
  f <- GET_REGISTER_FLAGS idx ;;
  if negb (f =? 0) then o <- GET_REGISTER_AS_OBJECT idx ;; call_ (DeleteLocalRef o) else ret tt.

(** The value is a computation: the macros evaluate [_val] after the old
    reference is deleted. *)
Definition SET_REGISTER_AS_OBJECT (idx : Z) v : M W unit :=
  DELETE_LOCAL_REF idx ;;; x <- v ;; PUT_RAW idx (U64 x) ;;; SET_REGISTER_FLAGS idx 1.
Definition SET_REGISTER (idx : Z) v : M W unit :=
  DELETE_LOCAL_REF idx ;;; x <- v ;; PUT_RAW idx (U32 x) ;;; SET_REGISTER_FLAGS idx 0.
Definition SET_REGISTER_INT (idx : Z) v : M W unit := SET_REGISTER idx (x <- v ;; ret (S32 x)).
Definition SET_REGISTER_FLOAT (idx : Z) v : M W unit :=
  DELETE_LOCAL_REF idx ;;; x <- v ;; r <- GET_RAW idx ;; PUT_RAW idx (put32 r x) ;;; SET_REGISTER_FLAGS idx 0.
Definition SET_REGISTER_WIDE (idx : Z) v : M W unit :=
  DELETE_LOCAL_REF idx ;;; x <- v ;; PUT_RAW idx (U64 x) ;;; SET_REGISTER_FLAGS idx 0.
Definition SET_REGISTER_DOUBLE (idx : Z) v : M W unit :=
  DELETE_LOCAL_REF idx ;;; x <- v ;; PUT_RAW idx (U64 x) ;;; SET_REGISTER_FLAGS idx 0.

Definition FINISH (offset : Z) : M W unit := goto (Finish offset).
Definition GOTO_exceptionThrown {A} : M W A := goto GotoExceptionThrown.
Definition GOTO_returnFromMethod {A} : M W A := goto GotoReturnFromMethod.
Definition GOTO_bail {A} : M W A := goto GotoBail.

(** [ScopedLocalRef<T> x(env, ref)]: the destructor runs however the scope
    is left. *)
Definition scoped {A} (ref : Z) (m : M W A) : M W A := fun s =>
  let del := if negb (ref =? 0) then call_ (DeleteLocalRef ref) else ret tt in
  match m s with
  | Val x s' => (del ;;; ret x) s'
  | Jump c s' => (del ;;; goto c) s'
  | Undef => Undef
  end.

(** ** Throwing (Exception.cpp) *)

Definition dvmThrowArithmeticException (msg : list Z) : M W unit :=
  call_ (ThrowNew (exArithmeticException gVm) (Some msg)).
Definition dvmThrowInternalError (msg : list Z) : M W unit :=
  call_ (ThrowNew (exInternalError gVm) (Some msg)).
Definition dvmThrowArrayIndexOutOfBoundsException (length index : Z) : M W unit :=
  call_ (ThrowNew (exArrayIndexOutOfBoundsException gVm)
    (Some (str "length=" ++ print_d length ++ str "; index=" ++ print_d index))).
Definition dvmThrowNegativeArraySizeException (size : Z) : M W unit :=
  call_ (ThrowNew (exNegativeArraySizeException gVm) (Some (print_d size))).
Definition dvmThrowClassCastException (obj clazz2 : Z) : M W unit :=
  call_ (ThrowNew (exClassCastException gVm) None).
Definition dvmThrowRuntimeException (msg : list Z) : M W unit :=
  call_ (ThrowNew (exRuntimeException gVm) (Some msg)).
Definition dvmThrowNullPointerException (msg : option (list Z)) : M W unit :=
  call_ (ThrowNew (exNullPointerException gVm) msg).
Definition dvmThrowClassNotFoundException (name : list Z) : M W unit :=
  call_ (ThrowNew (exClassNotFoundException gVm) (Some name)).

End Ops.

End VmEnv.
