(* ===== verification/VmSwitch.v ===== *)
(** * Switch tables and array data (engine/nmmvm/vm/Interp.cpp)

    [switchData] and [arrayData] point into the method's code units; an
    [s4] in a table is two of them, low half first. *)
From Stdlib Require Import Sorting.Sorted.
From S2P Require Import Prelude DexOpcodes VmEnv.
Import DexOpcodes VmEnv.
Local Open Scope cint_scope.
Local Open Scope vm_scope.

Module VmSwitch.

Definition kInstrLen : Z := 3.

Section Interp.
Context {W : Type} `{E : VmEnv W}.

(** [switchData[i]] *)
Definition unit_at (p : Z) : M W Z := opt (insns code !!z p).
(** [*(s4 * ) switchData] *)
Definition s4FromSwitchData (p : Z) : M W Z :=
  lo <- unit_at p ;; hi <- unit_at (p + 1) ;; ret (S32 (lo .| (hi << 16))).

Definition dvmInterpHandlePackedSwitch (switchData testVal : Z) : M W Z :=
  magic <- unit_at switchData ;;
  if negb (magic =? kPackedSwitchSignature) then
    dvmThrowInternalError (str "bad packed switch magic") ;;; ret kInstrLen
  else
    size <- unit_at (switchData + 1) ;;
    lo <- unit_at (switchData + 2) ;;
    hi <- unit_at (switchData + 3) ;;
    let firstKey := lo .| S32 (hi << 16) in
    let index := S32 (testVal - firstKey) in
    if (index <? 0) || (size <=? index) then ret kInstrLen
    else s4FromSwitchData (switchData + 4 + 2 * index).

(** [while (lo <= hi)] *)
Fixpoint sparse_loop (fuel : nat) (keys entries testVal lo hi : Z) : M W Z :=
  match fuel with
  | O => undef
  | S f =>
      if lo <=? hi then
        let mid := (lo + hi) >> 1 in
        foundVal <- s4FromSwitchData (keys + 2 * mid) ;;
        if testVal <? foundVal then sparse_loop f keys entries testVal lo (mid - 1)
        else if foundVal <? testVal then sparse_loop f keys entries testVal (mid + 1) hi
        else s4FromSwitchData (entries + 2 * mid)
      else ret kInstrLen
  end.

Definition dvmInterpHandleSparseSwitch (switchData testVal : Z) : M W Z :=
  magic <- unit_at switchData ;;
  if negb (magic =? kSparseSwitchSignature) then
    dvmThrowInternalError (str "bad sparse switch magic") ;;; ret kInstrLen
  else
    size <- unit_at (switchData + 1) ;;
    let keys := switchData + 2 in
    let entries := keys + 2 * size in
    sparse_loop (Z.to_nat size + 1) keys entries testVal 0 (size - 1).

(** [memcpy(arrp, &arrayData[4], n)] *)
Fixpoint units_at (p : Z) (n : nat) : M W (list Z) :=
  match n with
  | O => ret []
  | S n => u <- unit_at p ;; l <- units_at (p + 1) n ;; ret (u :: l)
  end.
Definition bytes_at (p n : Z) : M W (list Z) :=
  l <- units_at p (Z.to_nat ((n + 1) / 2)) ;; ret (take (Z.to_nat n) (concat (List.map (le_bytes 2) l))).
Definition memcpy_to (dst src : list Z) : M W (list Z) :=
  if decide (length src <= length dst)%nat then ret (src ++ drop (length src) dst) else undef.

Definition copy_array_data (arrayObj arrayData nbytes : Z) : M W unit :=
  arrp <- call (GetPrimitiveArrayCritical arrayObj) ;;
  src <- bytes_at (arrayData + 4) nbytes ;;
  dst <- opt arrp ;;
  dst <- memcpy_to dst src ;;
  call_ (ReleasePrimitiveArrayCritical arrayObj dst true).

(** [abort()] in the default case ends the process. *)
Definition dvmInterpHandleFillArrayData (arrayObj arrayData : Z) : M W bool :=
  if arrayObj =? 0 then dvmThrowNullPointerException None ;;; ret false
  else
    magic <- unit_at arrayData ;;
    if negb (magic =? kArrayDataSignature) then
      dvmThrowInternalError (str "bad array data magic") ;;; ret false
    else
      width <- unit_at (arrayData + 1) ;;
      lo <- unit_at (arrayData + 2) ;;
      hi <- unit_at (arrayData + 3) ;;
      let size := lo .| (hi << 16) in
      arrayLength <- call (GetArrayLength arrayObj) ;;
      if U32 arrayLength <? size then
        dvmThrowArrayIndexOutOfBoundsException arrayLength (S32 size) ;;; ret false
      else if width =? 1 then copy_array_data arrayObj arrayData (U32 (size * 1)) ;;; ret true
      else if width =? 2 then copy_array_data arrayObj arrayData (U32 (size * 2)) ;;; ret true
      else if width =? 4 then copy_array_data arrayObj arrayData (U32 (size * 4)) ;;; ret true
      else if width =? 8 then copy_array_data arrayObj arrayData (U32 (size * 8)) ;;; ret true
      else undef.

(** ** Tables in the code *)

(** The [n] 32-bit values at unit [p]. *)
Fixpoint s4s_at (l : list Z) (p : Z) (n : nat) : option (list Z) :=
  match n with
  | O => Some []
  | S n =>
      lo ← l !!z p; hi ← l !!z (p + 1); t ← s4s_at l (p + 2) n;
      Some (S32 (lo .| (hi << 16)) :: t)
  end.

(** A packed switch payload: consecutive keys from [first]. *)
Definition packed_payload (p first : Z) (targets : list Z) : Prop :=
  insns code !!z p = Some kPackedSwitchSignature /\
  insns code !!z (p + 1) = Some (Z.of_nat (length targets)) /\
  s4s_at (insns code) (p + 2) 1 = Some [first] /\
  s4s_at (insns code) (p + 4) (length targets) = Some targets.

(** A sparse switch payload: increasing keys. *)
Definition sparse_payload (p : Z) (keys targets : list Z) : Prop :=
  length keys = length targets /\ StronglySorted Z.lt keys /\
  insns code !!z p = Some kSparseSwitchSignature /\
  insns code !!z (p + 1) = Some (Z.of_nat (length keys)) /\
  s4s_at (insns code) (p + 2) (length keys) = Some keys /\
  s4s_at (insns code) (p + 2 + 2 * Z.of_nat (length keys)) (length targets) = Some targets.

(** The switch as the bytecode format defines it. *)
Definition switch_spec (cases : list (Z * Z)) (testVal : Z) : Z :=
  match list_find (fun kt => kt.1 = testVal) cases with Some (_, kt) => kt.2 | None => kInstrLen end.

Lemma s4_lookup l p n vs i v : s4s_at l p n = Some vs -> vs !! i = Some v ->
  exists lo hi, l !!z (p + 2 * Z.of_nat i) = Some lo /\ l !!z (p + 2 * Z.of_nat i + 1) = Some hi /\
    v = S32 (lo .| (hi << 16)).
Proof.
  revert p vs i. induction n as [|n IH]; intros p vs i Hs Hv; simpl in Hs; [by simplify_eq|].
  destruct (l !!z p) as [lo|] eqn:El; [|done]. destruct (l !!z (p + 1)) as [hi|] eqn:Eh; [|done].
  simpl in Hs. destruct (s4s_at l (p + 2) n) as [t|] eqn:Et; [|done]. simpl in Hs. injection Hs as <-.
  destruct i as [|i].
  - simpl in Hv. injection Hv as <-. exists lo, hi. rewrite Z.mul_0_r, Z.add_0_r. done.
  - destruct (IH _ _ i Et Hv) as (lo' & hi' & H1 & H2 & ->). exists lo', hi'.
    replace (p + 2 * Z.of_nat (S i)) with (p + 2 + 2 * Z.of_nat i) by lia. done.
Qed.

Lemma s4_read p n vs i v s : s4s_at (insns code) p n = Some vs -> vs !! i = Some v ->
  s4FromSwitchData (p + 2 * Z.of_nat i) s = Val v s.
Proof.
  intros Hs Hv. destruct (s4_lookup _ _ _ _ _ _ Hs Hv) as (lo & hi & H1 & H2 & ->).
  unfold s4FromSwitchData, unit_at, bind. by rewrite H1, H2.
Qed.

(** *** Packed *)

Definition packed_cases (first : Z) (targets : list Z) : list (Z * Z) :=
  zip (seqZ first (Z.of_nat (length targets))) targets.

Lemma packed_find first targets testVal :
  switch_spec (packed_cases first targets) testVal =
  match targets !!z (testVal - first) with Some t => t | None => kInstrLen end.
Proof.
  unfold switch_spec, packed_cases. revert first. induction targets as [|t l IH]; intros first.
  - simpl. unfold zlookup. rewrite lookup_nil. by destruct (0 <=? _).
  - rewrite length_cons, Nat2Z.inj_succ, seqZ_cons by lia. rewrite Z.pred_succ. simpl.
    case_decide as Hd; simpl in Hd.
    + subst. simpl. by rewrite Z.sub_diag.
    + assert (Hl : (t :: l) !!z (testVal - first) = l !!z (testVal - Z.succ first)).
      { unfold zlookup. destruct (Z.leb_spec 0 (testVal - Z.succ first)), (Z.leb_spec 0 (testVal - first)); try lia; [|done].
        by replace (Z.to_nat (testVal - first)) with (S (Z.to_nat (testVal - Z.succ first))) by lia. }
      rewrite Hl, <- IH. by destruct (list_find _ _) as [[i kt]|].
Qed.

Lemma packed_correct p first targets testVal s :
  Forall (in_u 16) (insns code) -> packed_payload p first targets ->
  first + Z.of_nat (length targets) <= 2 ^ 31 -> in_s 32 testVal ->
  dvmInterpHandlePackedSwitch p testVal s = Val (switch_spec (packed_cases first targets) testVal) s.
Proof.
  intros Hu (Hm & Hsz & Hf & Ht) Hlast Hv.
  destruct (s4_lookup _ _ _ _ 0 first Hf eq_refl) as (lo & hi & Hlo & Hhi & Hfirst).
  rewrite Z.mul_0_r, Z.add_0_r in Hlo, Hhi. replace (p + 2 + 1) with (p + 3) in Hhi by lia.
  pose proof (zlookup_Forall _ _ _ _ Hu Hlo) as Hlo16. simpl in Hlo16.
  pose proof (zlookup_Forall _ _ _ _ Hu Hsz) as Hsz16. unfold in_u in Hsz16. simpl in Hsz16.
  unfold dvmInterpHandlePackedSwitch, unit_at, bind. rewrite Hm, Hsz, Hlo, Hhi. cbn [opt ret negb Z.eqb].
  rewrite Z.eqb_refl. cbn [negb].
  assert (Hkey : lo .| S32 (hi << 16) = first)
    by (rewrite Hfirst; apply (lor_swrap_shiftl 16 16); done).
  rewrite Hkey.
  rewrite packed_find. unfold in_s in *. simpl in Hv.
  assert (Hfr : in_s 32 first) by (rewrite Hfirst; by apply swrap_in_s). unfold in_s in Hfr. simpl in Hfr.
  set (n := Z.of_nat (length targets)) in *.
  assert (Hidx : (0 <= S32 (testVal - first) < n <-> 0 <= testVal - first < n) /\
    (0 <= testVal - first < n -> S32 (testVal - first) = testVal - first)).
  { assert (Hc : testVal - first < - 2 ^ 31 \/ in_s 32 (testVal - first) \/ 2 ^ 31 <= testVal - first)
      by (unfold in_s; simpl; lia).
    destruct Hc as [Hc|[Hc|Hc]].
    - rewrite (swrap_cong 32 _ (testVal - first + 2 ^ 32)), (swrap_small 32 (_ + _)); unfold in_s; simpl; try lia.
      unfold wrap. by rewrite <- (Z.mod_add _ 1), Z.mul_1_l by done.
    - rewrite swrap_small by done. lia.
    - rewrite (swrap_cong 32 _ (testVal - first - 2 ^ 32)), (swrap_small 32 (_ - _)); unfold in_s; simpl; try lia.
      unfold wrap. by rewrite <- (Z.mod_add (_ - _ - _) 1), Z.mul_1_l, Z.sub_add by done. }
  destruct Hidx as [Hiff Heq].
  destruct (Z.ltb_spec (S32 (testVal - first)) 0), (Z.leb_spec n (S32 (testVal - first))); cbn [orb].
  4: { assert (Hr : 0 <= testVal - first < n) by (apply Hiff; lia). rewrite (Heq Hr).
       destruct (zlookup_is_Some targets (testVal - first) Hr) as [t Et]. rewrite Et.
       unfold zlookup in Et. destruct (Z.leb_spec 0 (testVal - first)); [|done].
       rewrite <- (Z2Nat.id (testVal - first)) by lia. eapply s4_read; [exact Ht|exact Et]. }
  all: assert (Hn : targets !!z (testVal - first) = None)
    by (destruct (targets !!z (testVal - first)) eqn:Et; [apply zlookup_lt_Some in Et; lia|done]);
    by rewrite Hn.
Qed.

(** *** Sparse *)

Lemma sorted_lookup_lt (keys : list Z) i j a b : StronglySorted Z.lt keys ->
  keys !! i = Some a -> keys !! j = Some b -> (i < j)%nat -> a < b.
Proof.
  intros Hs. revert i j. induction Hs as [|k l Hs IH Hk]; intros i j Ha Hb Hij; [done|].
  destruct j as [|j]; [lia|]. destruct i as [|i]; simpl in *.
  - injection Ha as ->. rewrite List.Forall_forall in Hk. by eapply Hk, list_elem_of_In, list_elem_of_lookup_2.
  - eapply IH; eauto. lia.
Qed.

Lemma switch_spec_hit keys targets i v t : StronglySorted Z.lt keys ->
  keys !! i = Some v -> targets !! i = Some t -> switch_spec (zip keys targets) v = t.
Proof.
  intros Hs Hk Ht. unfold switch_spec.
  assert (Hf : list_find (fun kt : Z * Z => kt.1 = v) (zip keys targets) = Some (i, (v, t))).
  { apply list_find_Some. split_and!; [|done|].
    - apply lookup_zip_with_Some. by exists v, t.
    - intros j [k' t'] Hj Hlt Hkv. simpl in Hkv. subst k'.
      apply lookup_zip_with_Some in Hj as (k & u & [= <- <-] & Hk' & _).
      pose proof (sorted_lookup_lt _ _ _ _ _ Hs Hk' Hk Hlt). lia. }
  by rewrite Hf.
Qed.

Lemma switch_spec_miss keys targets v : (forall i, keys !! i <> Some v) ->
  switch_spec (zip keys targets) v = kInstrLen.
Proof.
  intros Hn. unfold switch_spec. destruct (list_find _ _) as [[i [k t]]|] eqn:Ef; [|done].
  apply list_find_Some in Ef as (Hi & Hk & _). simpl in Hk. subst k.
  apply lookup_zip_with_Some in Hi as (k & u & [= <- <-] & Hk & _). by apply Hn in Hk.
Qed.

Lemma sparse_loop_correct fuel pk pt keys targets v lo hi s :
  StronglySorted Z.lt keys -> length keys = length targets ->
  s4s_at (insns code) pk (length keys) = Some keys ->
  s4s_at (insns code) pt (length targets) = Some targets ->
  0 <= lo -> hi < Z.of_nat (length keys) -> lo <= hi + 1 ->
  (forall i, keys !! i = Some v -> lo <= Z.of_nat i <= hi) ->
  hi - lo + 2 <= Z.of_nat fuel ->
  sparse_loop fuel pk pt v lo hi s = Val (switch_spec (zip keys targets) v) s.
Proof.
  intros Hs Hlen Hk Ht. revert lo hi. induction fuel as [|f IH]; intros lo hi Hlo Hhi Hlh Hin Hf; [lia|].
  cbn [sparse_loop]. destruct (Z.leb_spec lo hi) as [Hle|Hgt].
  2:{ rewrite switch_spec_miss; [done|]. intros i Hi. specialize (Hin i Hi). lia. }
  rewrite Z.shiftr_div_pow2 by lia. change (2 ^ 1) with 2.
  assert (Hm : lo <= (lo + hi) / 2 <= hi).
  { split; [apply Z.div_le_lower_bound|apply Z.lt_succ_r, Z.div_lt_upper_bound]; lia. }
  set (mid := (lo + hi) / 2) in *. clearbody mid.
  destruct (lookup_lt_is_Some_2 keys (Z.to_nat mid) ltac:(lia)) as [k Ek].
  destruct (lookup_lt_is_Some_2 targets (Z.to_nat mid) ltac:(lia)) as [t Et].
  unfold bind. rewrite <- (Z2Nat.id mid) at 1 by lia. rewrite (s4_read _ _ _ _ _ s Hk Ek).
  destruct (Z.ltb_spec v k); [|destruct (Z.ltb_spec k v)].
  - apply IH; try lia. intros i Hi. specialize (Hin i Hi). split; [lia|].
    destruct (decide (Z.of_nat i < mid)); [lia|]. exfalso.
    destruct (decide (i = Z.to_nat mid)) as [->|]; [simplify_eq; lia|].
    pose proof (sorted_lookup_lt _ _ _ _ _ Hs Ek Hi ltac:(lia)). lia.
  - apply IH; try lia. intros i Hi. specialize (Hin i Hi). split; [|lia].
    destruct (decide (mid < Z.of_nat i)); [lia|]. exfalso.
    destruct (decide (i = Z.to_nat mid)) as [->|]; [simplify_eq; lia|].
    pose proof (sorted_lookup_lt _ _ _ _ _ Hs Hi Ek ltac:(lia)). lia.
  - assert (k = v) as -> by lia. rewrite <- (Z2Nat.id mid) by lia.
    rewrite (s4_read _ _ _ _ _ s Ht Et). by rewrite (switch_spec_hit _ _ _ _ _ Hs Ek Et).
Qed.

Lemma sparse_correct p keys targets testVal s :
  sparse_payload p keys targets ->
  dvmInterpHandleSparseSwitch p testVal s = Val (switch_spec (zip keys targets) testVal) s.
Proof.
  intros (Hlen & Hs & Hm & Hsz & Hk & Ht). unfold dvmInterpHandleSparseSwitch, unit_at, bind.
  rewrite Hm, Hsz. cbn [opt ret]. rewrite Z.eqb_refl. cbn [negb].
  apply sparse_loop_correct; try done; try lia.
  intros i Hi%lookup_lt_Some. lia.
Qed.

(** C13: on well-formed payloads the two switches transfer to the target of
    the case the operand selects, and otherwise to the next instruction (3
    units); they change nothing and stay inside the payload. *)
Theorem switch_correct s testVal : Forall (in_u 16) (insns code) -> in_s 32 testVal ->
  (forall p first targets, packed_payload p first targets -> first + Z.of_nat (length targets) <= 2 ^ 31 ->
     dvmInterpHandlePackedSwitch p testVal s = Val (switch_spec (packed_cases first targets) testVal) s) /\
  (forall p keys targets, sparse_payload p keys targets ->
     dvmInterpHandleSparseSwitch p testVal s = Val (switch_spec (zip keys targets) testVal) s).
Proof. intros. split; intros; [by apply packed_correct|by apply sparse_correct]. Qed.

End Interp.

End VmSwitch.
