(* ===== verification/VmArith.v ===== *)
(** * Arithmetic handlers (engine/nmmvm/vm/InterpC-portable.cpp)

    One definition per [HANDLE_...] macro, with the macro's operator, cast
    or width arguments as parameters, then the opcodes that instantiate
    them.  Integers are computed in [Z] and narrowed by the register store,
    as the C conversions do. *)
From S2P Require Import Prelude CFloat DexOpcodes VmEnv.
Import CFloat DexOpcodes VmEnv.
Local Open Scope cint_scope.
Local Open Scope vm_scope.

Module VmArith.

Section Handlers.
Context {W : Type} `{E : VmEnv W}.

(** The register accessors a macro pastes with [GET_REGISTER##_type]. *)
Inductive rtype := RInt | RWide | RFloat | RDouble.
Definition GET (t : rtype) : Z -> M W Z :=
  match t with
  | RInt => GET_REGISTER_INT | RWide => GET_REGISTER_WIDE
  | RFloat => GET_REGISTER_FLOAT | RDouble => GET_REGISTER_DOUBLE
  end.
Definition SET (t : rtype) : Z -> M W Z -> M W unit :=
  match t with
  | RInt => SET_REGISTER_INT | RWide => SET_REGISTER_WIDE
  | RFloat => SET_REGISTER_FLOAT | RDouble => SET_REGISTER_DOUBLE
  end.

(** Value conversion between the C types the accessors have. *)
Definition convert (from to : rtype) (x : Z) : Z :=
  match from, to with
  | RInt, RInt | RInt, RWide | RWide, RWide => x
  | RWide, RInt => S32 x
  | (RInt | RWide), RFloat => int_to F32 x
  | (RInt | RWide), RDouble => int_to F64 x
  | RFloat, RDouble => fconv F32 F64 x
  | RDouble, RFloat => fconv F64 F32 x
  | RFloat, (RInt | RWide) => ftrunc F32 x
  | RDouble, (RInt | RWide) => ftrunc F64 x
  | RFloat, RFloat | RDouble, RDouble => x
  end.

Definition HANDLE_NUMCONV (from to : rtype) : M W unit :=
  inst <- gets inst ;;
  let vdst := INST_A inst in
  let vsrc1 := INST_B inst in
  SET to vdst (x <- GET from vsrc1 ;; ret (convert from to x)) ;;;
  FINISH 1.

(** The value part of [HANDLE_FLOAT_TO_INT]: [intMin] and [intMax] are
    converted to the floating type by the comparisons. *)
Definition float_to_int (t : fty) (w : Z) (val : Z) : Z :=
  let intMin := swrap w (1 << (w - 1)) in
  let intMax := Z.lnot intMin in
  if fle t (int_to t intMax) val then intMax
  else if fle t val (int_to t intMin) then intMin
  else if negb (feq t val val) then 0
  else ftrunc t val.

Definition HANDLE_FLOAT_TO_INT (from : fty) (to : rtype) : M W unit :=
  inst <- gets inst ;;
  let vdst := INST_A inst in
  let vsrc1 := INST_B inst in
  val <- GET (match from with F32 => RFloat | F64 => RDouble end) vsrc1 ;;
  let result := float_to_int from (match to with RInt => 32 | _ => 64 end) val in
  SET to vdst (ret result) ;;;
  FINISH 1.

Definition HANDLE_INT_TO_SMALL (cast : Z -> Z) : M W unit :=
  inst <- gets inst ;;
  let vdst := INST_A inst in
  let vsrc1 := INST_B inst in
  SET_REGISTER vdst (x <- GET_REGISTER vsrc1 ;; ret (cast x)) ;;;
  FINISH 1.

(** [==], [<], [>] at the C type of the operands. *)
Definition cmp_eq (t : rtype) (a b : Z) : bool :=
  match t with RFloat => feq F32 a b | RDouble => feq F64 a b | _ => a =? b end.
Definition cmp_lt (t : rtype) (a b : Z) : bool :=
  match t with RFloat => flt F32 a b | RDouble => flt F64 a b | _ => a <? b end.
Definition cmp_result (t : rtype) (nanVal val1 val2 : Z) : Z :=
  if cmp_eq t val1 val2 then 0
  else if cmp_lt t val1 val2 then -1
  else if cmp_lt t val2 val1 then 1
  else nanVal.

Definition HANDLE_OP_CMPX (t : rtype) (nanVal : Z) : M W unit :=
  inst <- gets inst ;;
  let vdst := INST_AA inst in
  regs <- FETCH 1 ;;
  let vsrc1 := regs & 0xff in
  let vsrc2 := regs >> 8 in
  val1 <- GET t vsrc1 ;;
  val2 <- GET t vsrc2 ;;
  SET_REGISTER vdst (ret (cmp_result t nanVal val1 val2)) ;;;
  FINISH 2.

(** [(s2)FETCH(1)] is only read when the branch is taken. *)
Definition branch_if (c : bool) : M W unit :=
  if c then branchOffset <- FETCH 1 ;; FINISH (S16 branchOffset) else FINISH 2.

Definition HANDLE_OP_IF_XX (cmp : Z -> Z -> bool) : M W unit :=
  inst <- gets inst ;;
  let vsrc1 := INST_A inst in
  let vsrc2 := INST_B inst in
  a <- GET_REGISTER_INT vsrc1 ;;
  b <- GET_REGISTER_INT vsrc2 ;;
  branch_if (cmp a b).

Definition HANDLE_OP_IF_XXZ (cmp : Z -> Z -> bool) : M W unit :=
  inst <- gets inst ;;
  let vsrc1 := INST_AA inst in
  a <- GET_REGISTER_INT vsrc1 ;;
  branch_if (cmp a 0).

Definition HANDLE_UNOP (t : rtype) (op : Z -> Z) : M W unit :=
  inst <- gets inst ;;
  let vdst := INST_A inst in
  let vsrc1 := INST_B inst in
  SET t vdst (x <- GET t vsrc1 ;; ret (op x)) ;;;
  FINISH 1.
(** With an empty [_type] the accessors are the unsigned ones. *)
Definition HANDLE_UNOP_u4 (op : Z -> Z) : M W unit :=
  inst <- gets inst ;;
  let vdst := INST_A inst in
  let vsrc1 := INST_B inst in
  SET_REGISTER vdst (x <- GET_REGISTER vsrc1 ;; ret (op x)) ;;;
  FINISH 1.

(** Division and remainder with the macro's checks: [None] throws.
    [chkdiv] is 1 for division, 2 for remainder. *)
Definition checked_div (w : Z) (op : Z -> Z -> Z) (chkdiv firstVal secondVal : Z) : option Z :=
  if secondVal =? 0 then None
  else if (wrap w firstVal =? 2 ^ (w - 1)) && (secondVal =? -1)
  then Some (if chkdiv =? 1 then firstVal else 0)
  else Some (op firstVal secondVal).

Definition divide_by_zero {A} : M W A :=
  dvmThrowArithmeticException (str "divide by zero") ;;; GOTO_exceptionThrown.

(** [if (_chkdiv != 0) ... else SET(vdst, a _op b)] for 32-bit operands. *)
Definition op_int (op : Z -> Z -> Z) (chkdiv vdst : Z) (first second : M W Z) : M W unit :=
  if negb (chkdiv =? 0) then
    firstVal <- first ;;
    secondVal <- second ;;
    match checked_div 32 op chkdiv firstVal secondVal with
    | None => divide_by_zero
    | Some result => SET_REGISTER vdst (ret result)
    end
  else SET_REGISTER vdst (a <- first ;; b <- second ;; ret (op a b)).

Definition HANDLE_OP_X_INT (op : Z -> Z -> Z) (chkdiv : Z) : M W unit :=
  inst <- gets inst ;;
  let vdst := INST_AA inst in
  srcRegs <- FETCH 1 ;;
  let vsrc1 := srcRegs & 0xff in
  let vsrc2 := srcRegs >> 8 in
  op_int op chkdiv vdst (GET_REGISTER_INT vsrc1) (GET_REGISTER_INT vsrc2) ;;;
  FINISH 2.

(** [_cast GET_REGISTER(a) _op (n & 0x1f)] *)
Definition HANDLE_OP_SHX_INT (cast : Z -> Z) (op : Z -> Z -> Z) : M W unit :=
  inst <- gets inst ;;
  let vdst := INST_AA inst in
  srcRegs <- FETCH 1 ;;
  let vsrc1 := srcRegs & 0xff in
  let vsrc2 := srcRegs >> 8 in
  SET_REGISTER vdst (a <- GET_REGISTER vsrc1 ;; b <- GET_REGISTER vsrc2 ;; ret (op (cast a) (b & 0x1f))) ;;;
  FINISH 2.

(** The plain branch computes on the unsigned register value. *)
Definition HANDLE_OP_X_INT_LIT16 (op : Z -> Z -> Z) (chkdiv : Z) : M W unit :=
  inst <- gets inst ;;
  let vdst := INST_A inst in
  let vsrc1 := INST_B inst in
  vsrc2 <- FETCH 1 ;;
  (if negb (chkdiv =? 0)
   then op_int op chkdiv vdst (GET_REGISTER_INT vsrc1) (ret (S16 vsrc2))
   else SET_REGISTER vdst (a <- GET_REGISTER vsrc1 ;; ret (op a (U32 (S16 vsrc2))))) ;;;
  FINISH 2.

Definition HANDLE_OP_X_INT_LIT8 (op : Z -> Z -> Z) (chkdiv : Z) : M W unit :=
  inst <- gets inst ;;
  let vdst := INST_AA inst in
  litInfo <- FETCH 1 ;;
  let vsrc1 := litInfo & 0xff in
  let vsrc2 := litInfo >> 8 in
  op_int op chkdiv vdst (GET_REGISTER_INT vsrc1) (ret (S8 vsrc2)) ;;;
  FINISH 2.

Definition HANDLE_OP_SHX_INT_LIT8 (cast : Z -> Z) (op : Z -> Z -> Z) : M W unit :=
  inst <- gets inst ;;
  let vdst := INST_AA inst in
  litInfo <- FETCH 1 ;;
  let vsrc1 := litInfo & 0xff in
  let vsrc2 := litInfo >> 8 in
  SET_REGISTER vdst (a <- GET_REGISTER vsrc1 ;; ret (op (cast a) (vsrc2 & 0x1f))) ;;;
  FINISH 2.

Definition HANDLE_OP_X_INT_2ADDR (op : Z -> Z -> Z) (chkdiv : Z) : M W unit :=
  inst <- gets inst ;;
  let vdst := INST_A inst in
  let vsrc1 := INST_B inst in
  op_int op chkdiv vdst (GET_REGISTER_INT vdst) (GET_REGISTER_INT vsrc1) ;;;
  FINISH 1.

Definition HANDLE_OP_SHX_INT_2ADDR (cast : Z -> Z) (op : Z -> Z -> Z) : M W unit :=
  inst <- gets inst ;;
  let vdst := INST_A inst in
  let vsrc1 := INST_B inst in
  SET_REGISTER vdst (a <- GET_REGISTER vdst ;; b <- GET_REGISTER vsrc1 ;; ret (op (cast a) (b & 0x1f))) ;;;
  FINISH 1.

(** The same for 64-bit operands. *)
Definition op_long (op : Z -> Z -> Z) (chkdiv vdst : Z) (first second : M W Z) : M W unit :=
  if negb (chkdiv =? 0) then
    firstVal <- first ;;
    secondVal <- second ;;
    match checked_div 64 op chkdiv firstVal secondVal with
    | None => divide_by_zero
    | Some result => SET_REGISTER_WIDE vdst (ret result)
    end
  else SET_REGISTER_WIDE vdst (a <- first ;; b <- second ;; ret (op a b)).

Definition HANDLE_OP_X_LONG (op : Z -> Z -> Z) (chkdiv : Z) : M W unit :=
  inst <- gets inst ;;
  let vdst := INST_AA inst in
  srcRegs <- FETCH 1 ;;
  let vsrc1 := srcRegs & 0xff in
  let vsrc2 := srcRegs >> 8 in
  op_long op chkdiv vdst (GET_REGISTER_WIDE vsrc1) (GET_REGISTER_WIDE vsrc2) ;;;
  FINISH 2.

Definition HANDLE_OP_SHX_LONG (cast : Z -> Z) (op : Z -> Z -> Z) : M W unit :=
  inst <- gets inst ;;
  let vdst := INST_AA inst in
  srcRegs <- FETCH 1 ;;
  let vsrc1 := srcRegs & 0xff in
  let vsrc2 := srcRegs >> 8 in
  SET_REGISTER_WIDE vdst (a <- GET_REGISTER_WIDE vsrc1 ;; b <- GET_REGISTER vsrc2 ;; ret (op (cast a) (b & 0x3f))) ;;;
  FINISH 2.

Definition HANDLE_OP_X_LONG_2ADDR (op : Z -> Z -> Z) (chkdiv : Z) : M W unit :=
  inst <- gets inst ;;
  let vdst := INST_A inst in
  let vsrc1 := INST_B inst in
  op_long op chkdiv vdst (GET_REGISTER_WIDE vdst) (GET_REGISTER_WIDE vsrc1) ;;;
  FINISH 1.

Definition HANDLE_OP_SHX_LONG_2ADDR (cast : Z -> Z) (op : Z -> Z -> Z) : M W unit :=
  inst <- gets inst ;;
  let vdst := INST_A inst in
  let vsrc1 := INST_B inst in
  SET_REGISTER_WIDE vdst (a <- GET_REGISTER_WIDE vdst ;; b <- GET_REGISTER vsrc1 ;; ret (op (cast a) (b & 0x3f))) ;;;
  FINISH 1.

Definition HANDLE_OP_X_FLOAT (op : Z -> Z -> Z) : M W unit :=
  inst <- gets inst ;;
  let vdst := INST_AA inst in
  srcRegs <- FETCH 1 ;;
  let vsrc1 := srcRegs & 0xff in
  let vsrc2 := srcRegs >> 8 in
  SET_REGISTER_FLOAT vdst (a <- GET_REGISTER_FLOAT vsrc1 ;; b <- GET_REGISTER_FLOAT vsrc2 ;; ret (op a b)) ;;;
  FINISH 2.

Definition HANDLE_OP_X_DOUBLE (op : Z -> Z -> Z) : M W unit :=
  inst <- gets inst ;;
  let vdst := INST_AA inst in
  srcRegs <- FETCH 1 ;;
  let vsrc1 := srcRegs & 0xff in
  let vsrc2 := srcRegs >> 8 in
  SET_REGISTER_DOUBLE vdst (a <- GET_REGISTER_DOUBLE vsrc1 ;; b <- GET_REGISTER_DOUBLE vsrc2 ;; ret (op a b)) ;;;
  FINISH 2.

Definition HANDLE_OP_X_FLOAT_2ADDR (op : Z -> Z -> Z) : M W unit :=
  inst <- gets inst ;;
  let vdst := INST_A inst in
  let vsrc1 := INST_B inst in
  SET_REGISTER_FLOAT vdst (a <- GET_REGISTER_FLOAT vdst ;; b <- GET_REGISTER_FLOAT vsrc1 ;; ret (op a b)) ;;;
  FINISH 1.

Definition HANDLE_OP_X_DOUBLE_2ADDR (op : Z -> Z -> Z) : M W unit :=
  inst <- gets inst ;;
  let vdst := INST_A inst in
  let vsrc1 := INST_B inst in
  SET_REGISTER_DOUBLE vdst (a <- GET_REGISTER_DOUBLE vdst ;; b <- GET_REGISTER_DOUBLE vsrc1 ;; ret (op a b)) ;;;
  FINISH 1.

Definition op_OP_RSUB_INT : M W unit :=
  inst <- gets inst ;;
  let vdst := INST_A inst in
  let vsrc1 := INST_B inst in
  vsrc2 <- FETCH 1 ;;
  SET_REGISTER vdst (a <- GET_REGISTER_INT vsrc1 ;; ret (S16 vsrc2 - a)) ;;;
  FINISH 2.

Definition op_OP_RSUB_INT_LIT8 : M W unit :=
  inst <- gets inst ;;
  let vdst := INST_AA inst in
  litInfo <- FETCH 1 ;;
  let vsrc1 := litInfo & 0xff in
  let vsrc2 := litInfo >> 8 in
  SET_REGISTER vdst (a <- GET_REGISTER_INT vsrc1 ;; ret (S8 vsrc2 - a)) ;;;
  FINISH 2.

End Handlers.

End VmArith.
