(* ===== verification/VmObject.v ===== *)
(** * Object handlers (engine/nmmvm/vm/InterpC-portable.cpp)

    Moves and constants, monitors, casts, arrays and fields: the handlers
    that call the platform.  A platform call that can fail leaves its
    exception pending in the world; the handler's checks are the source's. *)
From S2P Require Import Prelude CFloat DexOpcodes VmEnv VmSwitch VmArith.
Import CFloat DexOpcodes VmEnv VmSwitch VmArith.
Local Open Scope cint_scope.
Local Open Scope vm_scope.

Module VmObject.

Section Handlers.
Context {W : Type} `{E : VmEnv W}.

Definition throw_null {A} : M W A := dvmThrowNullPointerException None ;;; GOTO_exceptionThrown.
(** [if (x == NULL) GOTO_exceptionThrown();] *)
Definition require (x : Z) : M W unit := if x =? 0 then GOTO_exceptionThrown else ret tt.
Definition require_some {A} (x : option A) : M W A :=
  match x with None => GOTO_exceptionThrown | Some x => ret x end.
(** [if (wrapper->ExceptionCheck(env)) GOTO_exceptionThrown();] *)
Definition check_exception : M W unit :=
  b <- call ExceptionCheck ;; if negb (b =? 0) then GOTO_exceptionThrown else ret tt.

(** ** Moves *)

Definition op_OP_NOP : M W unit := FINISH 1.

(** Operand forms: (vA, vB), (vAA, vBBBB), (vAAAA, vBBBB). *)
Definition operands_AB : M W (Z * Z) := i <- gets inst ;; ret (INST_A i, INST_B i).
Definition operands_AA_16 : M W (Z * Z) := i <- gets inst ;; b <- FETCH 1 ;; ret (INST_AA i, b).
Definition operands_16_16 : M W (Z * Z) := a <- FETCH 1 ;; b <- FETCH 2 ;; ret (a, b).

Definition move_reg (operands : M W (Z * Z)) (n : Z) : M W unit :=
  o <- operands ;; SET_REGISTER o.1 (GET_REGISTER o.2) ;;; FINISH n.
Definition move_wide (operands : M W (Z * Z)) (n : Z) : M W unit :=
  o <- operands ;; SET_REGISTER_WIDE o.1 (GET_REGISTER_WIDE o.2) ;;; FINISH n.
Definition move_object (operands : M W (Z * Z)) (n : Z) : M W unit :=
  o <- operands ;;
  src <- GET_REGISTER_AS_OBJECT o.2 ;;
  newRef <- call (NewLocalRef src) ;;
  SET_REGISTER_AS_OBJECT o.1 (ret newRef) ;;;
  FINISH n.

Definition op_OP_MOVE := move_reg operands_AB 1.
Definition op_OP_MOVE_FROM16 := move_reg operands_AA_16 2.
Definition op_OP_MOVE_16 := move_reg operands_16_16 3.
Definition op_OP_MOVE_WIDE := move_wide operands_AB 1.
Definition op_OP_MOVE_WIDE_FROM16 := move_wide operands_AA_16 2.
Definition op_OP_MOVE_WIDE_16 := move_wide operands_16_16 3.
Definition op_OP_MOVE_OBJECT := move_object operands_AB 1.
Definition op_OP_MOVE_OBJECT_FROM16 := move_object operands_AA_16 2.
Definition op_OP_MOVE_OBJECT_16 := move_object operands_16_16 3.

Definition op_OP_MOVE_RESULT : M W unit :=
  i <- gets inst ;; SET_REGISTER (INST_AA i) (v <- gets retval ;; ret (S32 v)) ;;; FINISH 1.
Definition op_OP_MOVE_RESULT_WIDE : M W unit :=
  i <- gets inst ;; SET_REGISTER_WIDE (INST_AA i) (v <- gets retval ;; ret (S64 v)) ;;; FINISH 1.
Definition op_OP_MOVE_RESULT_OBJECT : M W unit :=
  i <- gets inst ;; SET_REGISTER_AS_OBJECT (INST_AA i) (gets retval) ;;; FINISH 1.
Definition op_OP_MOVE_EXCEPTION : M W unit :=
  i <- gets inst ;;
  SET_REGISTER_AS_OBJECT (INST_AA i) (call ExceptionOccurred) ;;;
  call_ ExceptionClear ;;;
  FINISH 1.

Definition op_OP_RETURN_VOID : M W unit := GOTO_returnFromMethod.
Definition op_OP_RETURN : M W unit :=
  i <- gets inst ;; v <- GET_REGISTER (INST_AA i) ;; r <- gets retval ;;
  set_retval (put32 r v) ;;; GOTO_returnFromMethod.
Definition op_OP_RETURN_WIDE : M W unit :=
  i <- gets inst ;; v <- GET_REGISTER_WIDE (INST_AA i) ;; set_retval (U64 v) ;;; GOTO_returnFromMethod.
Definition op_OP_RETURN_OBJECT : M W unit :=
  i <- gets inst ;; v <- GET_REGISTER_AS_OBJECT (INST_AA i) ;; set_retval v ;;; GOTO_returnFromMethod.

(** ** Constants *)

Definition op_OP_CONST_4 : M W unit :=
  i <- gets inst ;;
  let tmp := S32 (INST_B i << 28) >> 28 in
  SET_REGISTER (INST_A i) (ret tmp) ;;; FINISH 1.
Definition op_OP_CONST_16 : M W unit :=
  i <- gets inst ;; vsrc1 <- FETCH 1 ;; SET_REGISTER (INST_AA i) (ret (S16 vsrc1)) ;;; FINISH 2.
(** [tmp = FETCH(1); tmp |= (u4) FETCH(2) << 16] *)
Definition fetch_u4 : M W Z := lo <- FETCH 1 ;; hi <- FETCH 2 ;; ret (lo .| (hi << 16)).
Definition op_OP_CONST : M W unit :=
  i <- gets inst ;; tmp <- fetch_u4 ;; SET_REGISTER (INST_AA i) (ret tmp) ;;; FINISH 3.
Definition op_OP_CONST_HIGH16 : M W unit :=
  i <- gets inst ;; vsrc1 <- FETCH 1 ;; SET_REGISTER (INST_AA i) (ret (S32 (vsrc1 << 16))) ;;; FINISH 2.
Definition op_OP_CONST_WIDE_16 : M W unit :=
  i <- gets inst ;; vsrc1 <- FETCH 1 ;; SET_REGISTER_WIDE (INST_AA i) (ret (S16 vsrc1)) ;;; FINISH 2.
Definition op_OP_CONST_WIDE_32 : M W unit :=
  i <- gets inst ;; tmp <- fetch_u4 ;; SET_REGISTER_WIDE (INST_AA i) (ret (S32 tmp)) ;;; FINISH 3.
Definition op_OP_CONST_WIDE : M W unit :=
  i <- gets inst ;;
  a <- FETCH 1 ;; b <- FETCH 2 ;; c <- FETCH 3 ;; d <- FETCH 4 ;;
  let tmp := a .| (b << 16) .| (c << 32) .| (d << 48) in
  SET_REGISTER_WIDE (INST_AA i) (ret tmp) ;;; FINISH 5.
Definition op_OP_CONST_WIDE_HIGH16 : M W unit :=
  i <- gets inst ;; vsrc1 <- FETCH 1 ;; SET_REGISTER_WIDE (INST_AA i) (ret (vsrc1 << 48)) ;;; FINISH 2.
Definition op_OP_CONST_STRING : M W unit :=
  i <- gets inst ;; ref <- FETCH 1 ;;
  strObj <- call (dvmConstantString dvmResolver ref) ;;
  require strObj ;;;
  SET_REGISTER_AS_OBJECT (INST_AA i) (ret strObj) ;;; FINISH 2.
Definition op_OP_CONST_STRING_JUMBO : M W unit :=
  i <- gets inst ;; tmp <- fetch_u4 ;;
  strObj <- call (dvmConstantString dvmResolver tmp) ;;
  require strObj ;;;
  SET_REGISTER_AS_OBJECT (INST_AA i) (ret strObj) ;;; FINISH 3.
Definition op_OP_CONST_CLASS : M W unit :=
  i <- gets inst ;; ref <- FETCH 1 ;;
  clazz <- call (dvmResolveClass dvmResolver ref) ;;
  require clazz ;;;
  SET_REGISTER_AS_OBJECT (INST_AA i) (ret clazz) ;;; FINISH 2.

(** ** Monitors, type checks, allocation *)

Definition monitor (f : Z -> W -> Z * W) : M W unit :=
  i <- gets inst ;;
  obj <- GET_REGISTER_AS_OBJECT (INST_AA i) ;;
  if obj =? 0 then throw_null
  else r <- call (f obj) ;;
       if negb (r =? JNI_OK) then GOTO_exceptionThrown else FINISH 1.
Definition op_OP_MONITOR_ENTER : M W unit := monitor (MonitorEnter (JNI := vm_jni)).
Definition op_OP_MONITOR_EXIT : M W unit := monitor (MonitorExit (JNI := vm_jni)).

Definition op_OP_CHECK_CAST : M W unit :=
  i <- gets inst ;; ref <- FETCH 1 ;;
  obj <- GET_REGISTER_AS_OBJECT (INST_AA i) ;;
  (if obj =? 0 then ret tt
   else clazz <- call (dvmResolveClass dvmResolver ref) ;;
        scoped clazz
          (require clazz ;;;
           inst_of <- call (IsInstanceOf obj clazz) ;;
           if inst_of =? 0 then dvmThrowClassCastException obj clazz ;;; GOTO_exceptionThrown else ret tt)) ;;;
  FINISH 2.

Definition op_OP_INSTANCE_OF : M W unit :=
  i <- gets inst ;; ref <- FETCH 1 ;;
  obj <- GET_REGISTER_AS_OBJECT (INST_B i) ;;
  (if obj =? 0 then SET_REGISTER (INST_A i) (ret 0)
   else clazz <- call (dvmResolveClass dvmResolver ref) ;;
        scoped clazz
          (require clazz ;;;
           isInstanceOf <- call (IsInstanceOf obj clazz) ;;
           SET_REGISTER (INST_A i) (ret isInstanceOf))) ;;;
  FINISH 2.

Definition op_OP_ARRAY_LENGTH : M W unit :=
  i <- gets inst ;;
  arrayObj <- GET_REGISTER_AS_OBJECT (INST_B i) ;;
  if arrayObj =? 0 then throw_null
  else arrayLength <- call (GetArrayLength arrayObj) ;;
       SET_REGISTER (INST_A i) (ret arrayLength) ;;; FINISH 1.

Definition op_OP_NEW_INSTANCE : M W unit :=
  i <- gets inst ;; ref <- FETCH 1 ;;
  clazz <- call (dvmResolveClass dvmResolver ref) ;;
  scoped clazz
    (require clazz ;;;
     newObj <- call (AllocObject clazz) ;;
     require newObj ;;;
     SET_REGISTER_AS_OBJECT (INST_AA i) (ret newObj)) ;;;
  FINISH 2.

(** [NEW_ARRAY]: the element type character, the element descriptor. *)
Definition NEW_ARRAY (typeCh : Z) (type : list Z) (len : Z) : M W Z :=
  match prim_of_char typeCh with
  | Some p => call (NewPrimArray p len)
  | None =>
      if (typeCh =? ch_L) || (typeCh =? ch_array) then
        arrayClass <- call (dvmFindClass dvmResolver type) ;;
        scoped arrayClass (require arrayClass ;;; call (NewObjectArray len arrayClass 0))
      else dvmThrowRuntimeException (str "Can't new array") ;;; ret 0
  end.

(** [type[1]] of a C string. *)
Definition char_at (s : list Z) (i : Z) : M W Z := opt ((s ++ [0]) !!z i).

Definition op_OP_NEW_ARRAY : M W unit :=
  i <- gets inst ;; ref <- FETCH 1 ;;
  length <- GET_REGISTER_INT (INST_B i) ;;
  if length <? 0 then dvmThrowNegativeArraySizeException length ;;; GOTO_exceptionThrown
  else
    type <- call (dvmResolveTypeUtf dvmResolver ref) ;;
    type <- require_some type ;;
    typeCh <- char_at type 1 ;;
    newArray <- NEW_ARRAY typeCh (drop 1 type) length ;;
    require newArray ;;;
    SET_REGISTER_AS_OBJECT (INST_A i) (ret newArray) ;;; FINISH 2.

Definition op_OP_FILL_ARRAY_DATA : M W unit :=
  i <- gets inst ;;
  lo <- FETCH 1 ;; hi <- FETCH 2 ;;
  let offset := lo .| S32 (hi << 16) in
  p <- gets pc ;;
  arrayObj <- GET_REGISTER_AS_OBJECT (INST_AA i) ;;
  ok <- dvmInterpHandleFillArrayData arrayObj (p + offset) ;;
  if negb ok then GOTO_exceptionThrown else FINISH 3.

Definition op_OP_THROW : M W unit :=
  i <- gets inst ;;
  obj <- GET_REGISTER_AS_OBJECT (INST_AA i) ;;
  (if obj =? 0 then dvmThrowNullPointerException None else call_ (Throw obj)) ;;;
  GOTO_exceptionThrown.

(** ** Branches *)

Definition op_OP_GOTO : M W unit := i <- gets inst ;; FINISH (S8 (INST_AA i)).
Definition op_OP_GOTO_16 : M W unit := o <- FETCH 1 ;; FINISH (S16 o).
Definition op_OP_GOTO_32 : M W unit := lo <- FETCH 1 ;; hi <- FETCH 2 ;; FINISH (lo .| S32 (hi << 16)).

Definition switch_op (f : Z -> Z -> M W Z) : M W unit :=
  i <- gets inst ;;
  lo <- FETCH 1 ;; hi <- FETCH 2 ;;
  let offset := lo .| S32 (hi << 16) in
  p <- gets pc ;;
  testVal <- GET_REGISTER_INT (INST_AA i) ;;
  offset <- f (p + offset) testVal ;;
  FINISH offset.
Definition op_OP_PACKED_SWITCH := switch_op dvmInterpHandlePackedSwitch.
Definition op_OP_SPARSE_SWITCH := switch_op dvmInterpHandleSparseSwitch.

(** [if-eq], [if-ne]: identity for object registers, bits otherwise. *)
Definition if_same (negate : bool) : M W unit :=
  i <- gets inst ;;
  let vsrc1 := INST_A i in
  let vsrc2 := INST_B i in
  f <- GET_REGISTER_FLAGS vsrc1 ;;
  if negb (f =? 0) then
    a <- GET_REGISTER_AS_OBJECT vsrc1 ;;
    b <- GET_REGISTER_AS_OBJECT vsrc2 ;;
    same <- call (IsSameObject a b) ;;
    branch_if (xorb negate (negb (same =? 0)))
  else
    a <- GET_REGISTER_INT vsrc1 ;;
    b <- GET_REGISTER_INT vsrc2 ;;
    branch_if (xorb negate (a =? b)).
Definition op_OP_IF_EQ := if_same false.
Definition op_OP_IF_NE := if_same true.

(** ** Array elements *)

(** [HANDLE_OP_AGET] and [HANDLE_OP_APUT] around the element access. *)
Definition HANDLE_OP_ARRAY (access : Z -> Z -> Z -> M W unit) : M W unit :=
  i <- gets inst ;;
  let vdst := INST_AA i in
  arrayInfo <- FETCH 1 ;;
  let vsrc1 := arrayInfo & 0xff in
  let vsrc2 := arrayInfo >> 8 in
  arrayObj <- GET_REGISTER_AS_OBJECT vsrc1 ;;
  if arrayObj =? 0 then throw_null
  else
    idx <- GET_REGISTER vsrc2 ;;
    access vdst arrayObj idx ;;;
    check_exception ;;;
    FINISH 2.
Definition HANDLE_OP_AGET := HANDLE_OP_ARRAY.
Definition HANDLE_OP_APUT := HANDLE_OP_ARRAY.

(** The unsigned bounds check of the 32- and 64-bit accesses. *)
Definition check_index (arrayObj idx : Z) : M W unit :=
  len <- call (GetArrayLength arrayObj) ;;
  if U32 len <=? idx then
    len <- call (GetArrayLength arrayObj) ;;
    dvmThrowArrayIndexOutOfBoundsException len (S32 idx) ;;; GOTO_exceptionThrown
  else ret tt.

(** Element [idx] of [n] bytes in a critical section's memory. *)
Definition critical_load (n : nat) (arrData : list Z) (idx : Z) : option Z :=
  let off := Z.to_nat (Z.of_nat n * idx) in
  if decide (off + n <= length arrData)%nat then Some (le_combine (take n (drop off arrData))) else None.
Definition critical_store (n : nat) (arrData : list Z) (idx v : Z) : option (list Z) :=
  let off := Z.to_nat (Z.of_nat n * idx) in
  if decide (off + n <= length arrData)%nat
  then Some (take off arrData ++ le_bytes n v ++ drop (off + n) arrData) else None.

Definition aget_critical (n : nat) (set : Z -> M W Z -> M W unit) (vdst arrayObj idx : Z) : M W unit :=
  check_index arrayObj idx ;;;
  arrData <- call (GetPrimitiveArrayCritical arrayObj) ;;
  arrData <- opt arrData ;;
  val <- opt (critical_load n arrData idx) ;;
  call_ (ReleasePrimitiveArrayCritical arrayObj arrData false) ;;;
  set vdst (ret val).
Definition op_OP_AGET := HANDLE_OP_AGET (aget_critical 4 SET_REGISTER).
Definition op_OP_AGET_WIDE := HANDLE_OP_AGET (aget_critical 8 SET_REGISTER_WIDE).

Definition op_OP_AGET_OBJECT := HANDLE_OP_AGET (fun vdst arrayObj idx =>
  eleObj <- call (GetObjectArrayElement arrayObj (S32 idx)) ;;
  SET_REGISTER_AS_OBJECT vdst (ret eleObj)).

(** The local [val] keeps its indeterminate value when the region call
    fails. *)
Definition aget_region (p : prim) (vdst arrayObj idx : Z) : M W unit :=
  v <- call (GetArrayRegion1 p arrayObj (S32 idx)) ;;
  let val := match v with Some v => v | None => as_prim p (uninit 0) end in
  SET_REGISTER vdst (ret val).
Definition op_OP_AGET_small (p : prim) := HANDLE_OP_AGET (aget_region p).

Definition aput_critical (n : nat) (get : Z -> M W Z) (vdst arrayObj idx : Z) : M W unit :=
  check_index arrayObj idx ;;;
  arrData <- call (GetPrimitiveArrayCritical arrayObj) ;;
  arrData <- opt arrData ;;
  v <- get vdst ;;
  arrData <- opt (critical_store n arrData idx v) ;;
  call_ (ReleasePrimitiveArrayCritical arrayObj arrData true).
Definition op_OP_APUT := HANDLE_OP_APUT (aput_critical 4 GET_REGISTER).
Definition op_OP_APUT_WIDE := HANDLE_OP_APUT (aput_critical 8 GET_REGISTER_WIDE).

Definition op_OP_APUT_OBJECT := HANDLE_OP_APUT (fun vdst arrayObj idx =>
  v <- GET_REGISTER_AS_OBJECT vdst ;;
  call_ (SetObjectArrayElement arrayObj (S32 idx) v)).

Definition aput_region (p : prim) (vdst arrayObj idx : Z) : M W unit :=
  v <- GET_REGISTER vdst ;;
  call_ (SetArrayRegion1 p arrayObj (S32 idx) (as_prim p v)).
Definition op_OP_APUT_small (p : prim) := HANDLE_OP_APUT (aput_region p).

(** ** Fields *)

(** [HANDLE_IGET_X] and [HANDLE_IPUT_X] around the field access. *)
Definition HANDLE_IFIELD_X (access : Z -> Z -> vmField -> M W unit) : M W unit :=
  i <- gets inst ;;
  let vdst := INST_A i in
  let vsrc1 := INST_B i in
  ref <- FETCH 1 ;;
  obj <- GET_REGISTER_AS_OBJECT vsrc1 ;;
  if obj =? 0 then throw_null
  else
    ifield <- call (dvmResolveField dvmResolver ref false) ;;
    ifield <- require_some ifield ;;
    access vdst obj ifield ;;;
    FINISH 2.
Definition HANDLE_IGET_X := HANDLE_IFIELD_X.
Definition HANDLE_IPUT_X := HANDLE_IFIELD_X.

(** The field is read before [vdst], which may be the object's register,
    is overwritten. *)
Definition iget (k : jkind) (set : Z -> M W Z -> M W unit) (vdst obj : Z) (f : vmField) : M W unit :=
  v <- call (GetField k obj (fieldId f)) ;; set vdst (ret v).
Definition op_OP_IGET := HANDLE_IGET_X (fun vdst obj f =>
  if f_type f =? ch_I then iget (KPrim PInt) SET_REGISTER vdst obj f
  else iget (KPrim PFloat) SET_REGISTER_FLOAT vdst obj f).
Definition op_OP_IGET_WIDE := HANDLE_IGET_X (fun vdst obj f =>
  if f_type f =? ch_J then iget (KPrim PLong) SET_REGISTER_WIDE vdst obj f
  else iget (KPrim PDouble) SET_REGISTER_DOUBLE vdst obj f).
Definition op_OP_IGET_OBJECT := HANDLE_IGET_X (iget KObject SET_REGISTER_AS_OBJECT).
Definition op_OP_IGET_small (p : prim) := HANDLE_IGET_X (iget (KPrim p) SET_REGISTER).

Definition iput (p : prim) (get : Z -> M W Z) (vdst obj : Z) (f : vmField) : M W unit :=
  v <- get vdst ;; call_ (SetField (KPrim p) obj (fieldId f) (as_prim p v)).
Definition op_OP_IPUT := HANDLE_IPUT_X (fun vdst obj f =>
  if f_type f =? ch_I then iput PInt GET_REGISTER vdst obj f
  else if f_type f =? ch_F then iput PFloat GET_REGISTER_FLOAT vdst obj f
  else ret tt).
Definition op_OP_IPUT_WIDE := HANDLE_IPUT_X (fun vdst obj f =>
  if f_type f =? ch_J then iput PLong GET_REGISTER_WIDE vdst obj f
  else if f_type f =? ch_D then iput PDouble GET_REGISTER_DOUBLE vdst obj f
  else ret tt).
Definition op_OP_IPUT_OBJECT := HANDLE_IPUT_X (fun vdst obj f =>
  v <- GET_REGISTER_AS_OBJECT vdst ;; call_ (SetField KObject obj (fieldId f) v)).
Definition op_OP_IPUT_small (p : prim) := HANDLE_IPUT_X (iput p GET_REGISTER).

(** [HANDLE_SGET_X] and [HANDLE_SPUT_X]. *)
Definition HANDLE_SFIELD_X (access : Z -> Z -> vmField -> M W unit) : M W unit :=
  i <- gets inst ;;
  let vdst := INST_AA i in
  ref <- FETCH 1 ;;
  sfield <- call (dvmResolveField dvmResolver ref true) ;;
  sfield <- require_some sfield ;;
  clazz <- call (dvmResolveClass dvmResolver (f_classIdx sfield)) ;;
  scoped clazz (require clazz ;;; access vdst clazz sfield) ;;;
  FINISH 2.
Definition HANDLE_SGET_X := HANDLE_SFIELD_X.
Definition HANDLE_SPUT_X := HANDLE_SFIELD_X.

(** Here the field is read inside the store, after the old reference of
    [vdst] is deleted. *)
Definition sget (k : jkind) (set : Z -> M W Z -> M W unit) (vdst clazz : Z) (f : vmField) : M W unit :=
  set vdst (call (GetStaticField k clazz (fieldId f))).
Definition op_OP_SGET := HANDLE_SGET_X (fun vdst clazz f =>
  if f_type f =? ch_I then sget (KPrim PInt) SET_REGISTER vdst clazz f
  else sget (KPrim PFloat) SET_REGISTER_FLOAT vdst clazz f).
Definition op_OP_SGET_WIDE := HANDLE_SGET_X (fun vdst clazz f =>
  if f_type f =? ch_J then sget (KPrim PLong) SET_REGISTER_WIDE vdst clazz f
  else sget (KPrim PDouble) SET_REGISTER_DOUBLE vdst clazz f).
Definition op_OP_SGET_OBJECT := HANDLE_SGET_X (sget KObject SET_REGISTER_AS_OBJECT).
Definition op_OP_SGET_small (p : prim) := HANDLE_SGET_X (sget (KPrim p) SET_REGISTER).

Definition sput (p : prim) (get : Z -> M W Z) (vdst clazz : Z) (f : vmField) : M W unit :=
  v <- get vdst ;; call_ (SetStaticField (KPrim p) clazz (fieldId f) (as_prim p v)).
Definition op_OP_SPUT := HANDLE_SPUT_X (fun vdst clazz f =>
  if f_type f =? ch_I then sput PInt GET_REGISTER vdst clazz f
  else if f_type f =? ch_F then sput PFloat GET_REGISTER_FLOAT vdst clazz f
  else ret tt).
Definition op_OP_SPUT_WIDE := HANDLE_SPUT_X (fun vdst clazz f =>
  if f_type f =? ch_J then sput PLong GET_REGISTER_WIDE vdst clazz f
  else if f_type f =? ch_D then sput PDouble GET_REGISTER_DOUBLE vdst clazz f
  else ret tt).
Definition op_OP_SPUT_OBJECT := HANDLE_SPUT_X (fun vdst clazz f =>
  v <- GET_REGISTER_AS_OBJECT vdst ;; call_ (SetStaticField KObject clazz (fieldId f) v)).
Definition op_OP_SPUT_small (p : prim) := HANDLE_SPUT_X (sput p GET_REGISTER).

End Handlers.

End VmObject.
