(* ===== verification/VmInvoke.v ===== *)
(** * Method invocation (engine/nmmvm/vm/InterpC-portable.cpp)

    Argument marshalling by shorty, the tracer's invoke policy, the five
    invoke targets and filled-new-array.  A [jvalue] is its eight bytes as
    an integer, an argument array a list of them.  The [assert]s are
    compiled out. *)
From S2P Require Import Prelude DexOpcodes VmEnv VmSwitch VmArith VmObject.
Import DexOpcodes VmEnv VmObject.
Local Open Scope cint_scope.
Local Open Scope vm_scope.

Module VmInvoke.

Section Invoke.
Context {W : Type} `{E : VmEnv W}.

(** ** Arguments *)

(** [(_args)[_idx].x = ...]: [f] gives the new eight bytes from the old. *)
Definition store_arg (args : list Z) (idx : Z) (f : Z -> Z) : M W (list Z) :=
  old <- opt (args !!z idx) ;; opt (zset args idx (f old)).

(** The new array and [regwidth]. *)
Definition SET_ARGUMENT (args : list Z) (typeCh idx vsrc : Z) : M W (list Z * Z) :=
  match prim_of_char typeCh with
  | Some PFloat =>
      v <- GET_REGISTER_FLOAT vsrc ;; a <- store_arg args idx (fun old => put32 old v) ;; ret (a, 1)
  | Some PLong =>
      v <- GET_REGISTER_WIDE vsrc ;; a <- store_arg args idx (fun _ => U64 v) ;; ret (a, 2)
  | Some PDouble =>
      v <- GET_REGISTER_DOUBLE vsrc ;; a <- store_arg args idx (fun _ => U64 v) ;; ret (a, 2)
  | Some _ =>
      v <- GET_REGISTER vsrc ;; a <- store_arg args idx (fun old => put32 old v) ;; ret (a, 1)
  | None =>
      if typeCh =? ch_L then
        v <- GET_REGISTER_AS_OBJECT vsrc ;; a <- store_arg args idx (fun _ => U64 v) ;; ret (a, 1)
      else ret (args, 1)
  end.

(** The register argument word [idx] is in; [None] is the [default] case. *)
Definition arg_register (range : bool) (vsrc1 vdst idx : Z) : option Z :=
  if range then Some (vdst + idx)
  else if idx =? 4 then Some (vsrc1 & 0x0f)
  else if idx =? 3 then Some (vdst >> 12)
  else if idx =? 2 then Some ((vdst & 0x0f00) >> 8)
  else if idx =? 1 then Some ((vdst & 0x00f0) >> 4)
  else if idx =? 0 then Some (vdst & 0x0f)
  else None.

(** [for (i = 0, idx = 0; idx < count; i++)]: [this] says that argument 0 is
    the receiver, which is not stored. *)
Fixpoint copy_args (fuel : nat) (this range : bool) (paramTypes : list Z) (vsrc1 vdst count : Z)
    (args : list Z) (i idx : Z) : M W (list Z) :=
  match fuel with
  | O => ret args
  | S f =>
      if idx <? count then
        r <- (if this && (i =? 0) then ret (args, 1)
              else match arg_register range vsrc1 vdst idx with
                   | None => ret (args, 1)
                   | Some r => typeCh <- char_at paramTypes (if this then i - 1 else i) ;;
                               SET_ARGUMENT args typeCh i r
                   end) ;;
        copy_args f this range paramTypes vsrc1 vdst count r.1 (i + 1) (idx + r.2)
      else ret args
  end.

(** [malloc(sizeof(jvalue) * vsrc1)] or [args_tmp], filled. *)
Definition marshal (this : bool) (paramTypes : list Z) (vsrc1 vdst : Z) : M W (list Z) :=
  range <- gets methodCallRange ;;
  if range : bool then
    let args := List.map (fun i => U64 (uninit i)) (seqZ 0 vsrc1) in
    copy_args (Z.to_nat vsrc1) this true paramTypes vsrc1 vdst vsrc1 args 0 0
  else
    args <- gets args_tmp ;;
    let count := vsrc1 >> 4 in
    args <- copy_args (Z.to_nat count) this false paramTypes vsrc1 vdst count args 0 0 ;;
    set_args_tmp args ;;;
    ret args.

(** ** Tracing *)

Definition pack3 {A B} (x : A * B * W) : (A * B) * W := (x.1, x.2).
Definition pack4 {A B C} (x : A * B * C * W) : (A * B * C) * W := (x.1, x.2).

(** [args] after a callback that was given the pointer has left [written]
    there.  It points into [args_tmp] unless the call is a range. *)
Definition write_args (args written : list Z) : list Z :=
  List.map U64 (take (length args) written ++ drop (length written) args).
Definition store_back (tmp args : list Z) : list Z := take (length tmp - length args) tmp ++ take (length tmp) args.
Definition args_written (args written : list Z) : M W (list Z) :=
  let args := write_args args written in
  range <- gets methodCallRange ;;
  (if range : bool then ret tt
   else tmp <- gets args_tmp ;; set_args_tmp (store_back tmp args)) ;;;
  ret args.

(** The call [x] is made on the arguments as they are then. *)
Definition TRACED_INVOKE (methodToCall : vmMethod) (receiver argc : Z) (args : list Z) (x : list Z -> M W unit)
  : M W unit :=
  c <- gets tctx ;;
  match c, tracer with
  | Some c, Some tr =>
      set_retval 0 ;;;
      inst <- gets inst ;;
      let opcode := INST_INST inst in
      skip <-
        (match onInvokePre tr, stepIn tr with
         | None, None => ret (false, args)
         | pre, step =>
             pm <- (match pre with
                    | Some f =>
                        p <- call (fun w => pack4 (f c methodToCall opcode receiver argc args w)) ;;
                        args <- args_written args p.2 ;;
                        ret (p.1, args)
                    | None => ret ((VM_INVOKE_STEP_IN, 0), args)
                    end) ;;
             let policy := pm.1.1 in
             let mockRet := pm.1.2 in
             let args := pm.2 in
             if policy =? VM_INVOKE_MOCK then set_retval (U64 mockRet) ;;; ret (true, args)
             else if policy =? VM_INVOKE_STEP_IN then
               match step with
               | None => ret (false, args)
               | Some f =>
                   r <- gets retval ;;
                   sr <- call (fun w => pack3 (f c methodToCall opcode receiver argc args r w)) ;;
                   set_retval (U64 sr.2) ;;;
                   if sr.1 =? 0 then ret (true, args)
                   else if sr.1 =? 2 then set_retval 0 ;;; GOTO_bail
                   else ret (false, args)
               end
             else ret (false, args)
         end) ;;
      (if negb skip.1 then x skip.2 else ret tt) ;;;
      match onInvokePost tr with
      | None => ret tt
      | Some f =>
          exc <- call ExceptionCheck ;;
          r <- gets retval ;;
          call_ (f c methodToCall opcode r exc)
      end
  | _, _ => x args
  end.

(** ** Calls *)

(** [switch (returnCh)] around the [Call<Type>MethodA] family. *)
Definition call_method (kind : callkind) (returnCh thisPtr mid : Z) (args : list Z) : M W unit :=
  match prim_of_char returnCh with
  | Some PLong => v <- call (CallMethodA kind (KPrim PLong) thisPtr mid args) ;; set_retval (U64 v)
  | Some PDouble => v <- call (CallMethodA kind (KPrim PDouble) thisPtr mid args) ;; set_retval (U64 v)
  | Some p =>
      v <- call (CallMethodA kind (KPrim p) thisPtr mid args) ;;
      r <- gets retval ;; set_retval (put32 r v)
  | None =>
      if returnCh =? ch_L then v <- call (CallMethodA kind KObject thisPtr mid args) ;; set_retval (U64 v)
      else if returnCh =? ch_V then call (CallMethodA kind KVoid thisPtr mid args) ;;; ret tt
      else ret tt
  end.

(** [INVOKE_METHOD] and [INVOKE_STATIC_METHOD] around the call [x]. *)
Definition invoke_with (this : bool) (methodToCall : vmMethod) (thisPtr vsrc1 vdst : Z)
    (x : Z -> list Z -> M W unit) : M W unit :=
  returnCh <- char_at (shorty methodToCall) 0 ;;
  let paramTypes := drop 1 (shorty methodToCall) in
  args <- marshal this paramTypes vsrc1 vdst ;;
  let passed := if this then drop 1 args else args in
  TRACED_INVOKE methodToCall thisPtr (Z.of_nat (length paramTypes)) passed (x returnCh) ;;;
  check_exception ;;;
  FINISH 3.
Definition INVOKE_STATIC_METHOD (m : vmMethod) := invoke_with false m 0.
Definition INVOKE_METHOD := invoke_with true.

(** The receiver's register, the null check and the resolution the four
    instance targets start with. *)
Definition resolve_receiver (k : vmMethod -> Z -> Z -> Z -> M W unit) : M W unit :=
  i <- gets inst ;;
  let vsrc1 := INST_AA i in
  ref <- FETCH 1 ;;
  vdst <- FETCH 2 ;;
  range <- gets methodCallRange ;;
  thisPtr <- GET_REGISTER_AS_OBJECT (if range : bool then vdst else vdst & 0x0f) ;;
  if thisPtr =? 0 then throw_null
  else
    m <- call (dvmResolveMethod dvmResolver ref false) ;;
    m <- require_some m ;;
    k m thisPtr vsrc1 vdst.

Definition invokeVirtual : M W unit :=
  resolve_receiver (fun m thisPtr vsrc1 vdst =>
    INVOKE_METHOD m thisPtr vsrc1 vdst (fun returnCh args =>
      call_method CallVirtual returnCh thisPtr (methodId m) args)).

(** The class is resolved inside the traced call and not checked. *)
Definition nonvirtual_call (m : vmMethod) (thisPtr returnCh : Z) (args : list Z) : M W unit :=
  clazz <- call (dvmResolveClass dvmResolver (m_classIdx m)) ;;
  call_method (CallNonvirtual clazz) returnCh thisPtr (methodId m) args ;;;
  call_ (DeleteLocalRef clazz).
Definition invokeSuper : M W unit :=
  resolve_receiver (fun m thisPtr vsrc1 vdst =>
    INVOKE_METHOD m thisPtr vsrc1 vdst (nonvirtual_call m thisPtr)).
Definition invokeInterface : M W unit :=
  resolve_receiver (fun m thisPtr vsrc1 vdst =>
    INVOKE_METHOD m thisPtr vsrc1 vdst (fun returnCh args =>
      call_method CallVirtual returnCh thisPtr (methodId m) args)).
Definition invokeDirect : M W unit :=
  resolve_receiver (fun m thisPtr vsrc1 vdst =>
    INVOKE_METHOD m thisPtr vsrc1 vdst (nonvirtual_call m thisPtr)).

Definition invokeStatic : M W unit :=
  i <- gets inst ;;
  let vsrc1 := INST_AA i in
  ref <- FETCH 1 ;;
  vdst <- FETCH 2 ;;
  m <- call (dvmResolveMethod dvmResolver ref true) ;;
  m <- require_some m ;;
  INVOKE_STATIC_METHOD m vsrc1 vdst (fun returnCh args =>
    clazz <- call (dvmResolveClass dvmResolver (m_classIdx m)) ;;
    call_method (CallStatic clazz) returnCh 0 (methodId m) args ;;;
    call_ (DeleteLocalRef clazz)).

(** [GOTO_invoke(_target, _methodCallRange)] *)
Definition GOTO_invoke (target : M W unit) (range : bool) : M W unit :=
  set_methodCallRange range ;;; target.

(** ** Filled arrays *)

Definition SET_ARRAY_ELEMENT (typeCh array idx vsrc : Z) : M W unit :=
  if (typeCh =? ch_array) || (typeCh =? ch_L) then
    v <- GET_REGISTER_AS_OBJECT vsrc ;; call_ (SetObjectArrayElement array idx v)
  else
    match prim_of_char typeCh with
    | Some (PLong | PDouble) | None => ret tt
    | Some p => val <- GET_REGISTER vsrc ;; call_ (SetArrayRegion1 p array idx (as_prim p val))
    end.

(** [for (i = 0; i < vsrc1; i++)] over a register range. *)
Fixpoint fill_range (n : nat) (typeCh newArray vdst i : Z) : M W unit :=
  match n with
  | O => ret tt
  | S n => SET_ARRAY_ELEMENT typeCh newArray i (vdst + i) ;;; fill_range n typeCh newArray vdst (i + 1)
  end.
(** The same over the nibbles of [vdst]. *)
Fixpoint fill_nibbles (n : nat) (typeCh newArray vdst i : Z) : M W unit :=
  match n with
  | O => ret tt
  | S n => SET_ARRAY_ELEMENT typeCh newArray i (vdst & 0x0f) ;;;
           fill_nibbles n typeCh newArray (vdst >> 4) (i + 1)
  end.

Definition filledNewArray : M W unit :=
  inst <- gets inst ;;
  ref <- FETCH 1 ;;
  vdst <- FETCH 2 ;;
  range <- gets methodCallRange ;;
  let vsrc1 := if range : bool then INST_AA inst else INST_B inst in
  let arg5 := if range : bool then U32 (-1) else INST_A inst in
  type <- call (dvmResolveTypeUtf dvmResolver ref) ;;
  match type with
  | None => throw_null
  | Some type =>
      typeCh <- char_at type 1 ;;
      if (typeCh =? ch_D) || (typeCh =? ch_J) then
        dvmThrowRuntimeException (str "bad filled array req") ;;; GOTO_exceptionThrown
      else if negb (typeCh =? ch_L) && negb (typeCh =? ch_array) && negb (typeCh =? ch_I) then
        dvmThrowInternalError (str "filled-new-array not implemented for anything but 'int'") ;;;
        GOTO_exceptionThrown
      else
        newArray <- NEW_ARRAY typeCh (drop 1 type) vsrc1 ;;
        require newArray ;;;
        (if range : bool then fill_range (Z.to_nat vsrc1) typeCh newArray vdst 0
         else
           vsrc1 <- (if vsrc1 =? 5 then SET_ARRAY_ELEMENT typeCh newArray 4 arg5 ;;; ret (vsrc1 - 1)
                     else ret vsrc1) ;;
           fill_nibbles (Z.to_nat vsrc1) typeCh newArray vdst 0) ;;;
        set_retval (U64 newArray) ;;;
        FINISH 3
  end.

End Invoke.

End VmInvoke.
