(* ===== verification/VmInterp.v ===== *)
(** * The interpreter loop (engine/nmmvm/vm/InterpC-portable.cpp, Exception.cpp)

    The opcode table as the source instantiates it, instruction dispatch
    with its tracer hooks, exception delivery, and [vmInterpret2] as
    iteration of dispatch and delivery. *)
From S2P Require Import Prelude DexCatch CFloat DexOpcodes VmEnv VmSwitch VmArith VmObject VmInvoke.
Import DexCatch CFloat DexOpcodes VmEnv VmSwitch VmArith VmObject VmInvoke.
Local Open Scope cint_scope.
Local Open Scope vm_scope.

Module VmInterp.

Section Interp.
Context {W : Type} `{E : VmEnv W}.

(** ** Opcodes *)

(** Moves, returns, constants, allocation and jumps. *)
Definition move_const_ops (op : Opcode) : option (M W unit) :=
  match op with
  | OP_NOP => Some (op_OP_NOP)
  | OP_MOVE => Some (op_OP_MOVE)
  | OP_MOVE_FROM16 => Some (op_OP_MOVE_FROM16)
  | OP_MOVE_16 => Some (op_OP_MOVE_16)
  | OP_MOVE_WIDE => Some (op_OP_MOVE_WIDE)
  | OP_MOVE_WIDE_FROM16 => Some (op_OP_MOVE_WIDE_FROM16)
  | OP_MOVE_WIDE_16 => Some (op_OP_MOVE_WIDE_16)
  | OP_MOVE_OBJECT => Some (op_OP_MOVE_OBJECT)
  | OP_MOVE_OBJECT_FROM16 => Some (op_OP_MOVE_OBJECT_FROM16)
  | OP_MOVE_OBJECT_16 => Some (op_OP_MOVE_OBJECT_16)
  | OP_MOVE_RESULT => Some (op_OP_MOVE_RESULT)
  | OP_MOVE_RESULT_WIDE => Some (op_OP_MOVE_RESULT_WIDE)
  | OP_MOVE_RESULT_OBJECT => Some (op_OP_MOVE_RESULT_OBJECT)
  | OP_MOVE_EXCEPTION => Some (op_OP_MOVE_EXCEPTION)
  | OP_RETURN_VOID => Some (op_OP_RETURN_VOID)
  | OP_RETURN => Some (op_OP_RETURN)
  | OP_RETURN_WIDE => Some (op_OP_RETURN_WIDE)
  | OP_RETURN_OBJECT => Some (op_OP_RETURN_OBJECT)
  | OP_CONST_4 => Some (op_OP_CONST_4)
  | OP_CONST_16 => Some (op_OP_CONST_16)
  | OP_CONST => Some (op_OP_CONST)
  | OP_CONST_HIGH16 => Some (op_OP_CONST_HIGH16)
  | OP_CONST_WIDE_16 => Some (op_OP_CONST_WIDE_16)
  | OP_CONST_WIDE_32 => Some (op_OP_CONST_WIDE_32)
  | OP_CONST_WIDE => Some (op_OP_CONST_WIDE)
  | OP_CONST_WIDE_HIGH16 => Some (op_OP_CONST_WIDE_HIGH16)
  | OP_CONST_STRING => Some (op_OP_CONST_STRING)
  | OP_CONST_STRING_JUMBO => Some (op_OP_CONST_STRING_JUMBO)
  | OP_CONST_CLASS => Some (op_OP_CONST_CLASS)
  | OP_MONITOR_ENTER => Some (op_OP_MONITOR_ENTER)
  | OP_MONITOR_EXIT => Some (op_OP_MONITOR_EXIT)
  | OP_CHECK_CAST => Some (op_OP_CHECK_CAST)
  | OP_INSTANCE_OF => Some (op_OP_INSTANCE_OF)
  | OP_ARRAY_LENGTH => Some (op_OP_ARRAY_LENGTH)
  | OP_NEW_INSTANCE => Some (op_OP_NEW_INSTANCE)
  | OP_NEW_ARRAY => Some (op_OP_NEW_ARRAY)
  | OP_FILLED_NEW_ARRAY => Some (GOTO_invoke filledNewArray false)
  | OP_FILLED_NEW_ARRAY_RANGE => Some (GOTO_invoke filledNewArray true)
  | OP_FILL_ARRAY_DATA => Some (op_OP_FILL_ARRAY_DATA)
  | OP_THROW => Some (op_OP_THROW)
  | OP_GOTO => Some (op_OP_GOTO)
  | OP_GOTO_16 => Some (op_OP_GOTO_16)
  | OP_GOTO_32 => Some (op_OP_GOTO_32)
  | OP_PACKED_SWITCH => Some (op_OP_PACKED_SWITCH)
  | OP_SPARSE_SWITCH => Some (op_OP_SPARSE_SWITCH)
  | _ => None
  end.

(** Comparisons and conditional branches. *)
Definition compare_ops (op : Opcode) : option (M W unit) :=
  match op with
  | OP_CMPL_FLOAT => Some (HANDLE_OP_CMPX RFloat (-1))
  | OP_CMPG_FLOAT => Some (HANDLE_OP_CMPX RFloat (1))
  | OP_CMPL_DOUBLE => Some (HANDLE_OP_CMPX RDouble (-1))
  | OP_CMPG_DOUBLE => Some (HANDLE_OP_CMPX RDouble (1))
  | OP_CMP_LONG => Some (HANDLE_OP_CMPX RWide (0))
  | OP_IF_EQ => Some (op_OP_IF_EQ)
  | OP_IF_NE => Some (op_OP_IF_NE)
  | OP_IF_LT => Some (HANDLE_OP_IF_XX Z.ltb)
  | OP_IF_GE => Some (HANDLE_OP_IF_XX Z.geb)
  | OP_IF_GT => Some (HANDLE_OP_IF_XX Z.gtb)
  | OP_IF_LE => Some (HANDLE_OP_IF_XX Z.leb)
  | OP_IF_EQZ => Some (HANDLE_OP_IF_XXZ Z.eqb)
  | OP_IF_NEZ => Some (HANDLE_OP_IF_XXZ (fun a b => negb (a =? b)))
  | OP_IF_LTZ => Some (HANDLE_OP_IF_XXZ Z.ltb)
  | OP_IF_GEZ => Some (HANDLE_OP_IF_XXZ Z.geb)
  | OP_IF_GTZ => Some (HANDLE_OP_IF_XXZ Z.gtb)
  | OP_IF_LEZ => Some (HANDLE_OP_IF_XXZ Z.leb)
  | _ => None
  end.

(** Array elements; the labels of the six unused opcodes 0x3e-0x43 fall through to [OP_AGET]. *)
Definition array_ops (op : Opcode) : option (M W unit) :=
  match op with
  | OP_UNUSED_3E => Some (op_OP_AGET)
  | OP_UNUSED_3F => Some (op_OP_AGET)
  | OP_UNUSED_40 => Some (op_OP_AGET)
  | OP_UNUSED_41 => Some (op_OP_AGET)
  | OP_UNUSED_42 => Some (op_OP_AGET)
  | OP_UNUSED_43 => Some (op_OP_AGET)
  | OP_AGET => Some (op_OP_AGET)
  | OP_AGET_WIDE => Some (op_OP_AGET_WIDE)
  | OP_AGET_OBJECT => Some (op_OP_AGET_OBJECT)
  | OP_AGET_BOOLEAN => Some (op_OP_AGET_small PBoolean)
  | OP_AGET_BYTE => Some (op_OP_AGET_small PByte)
  | OP_AGET_CHAR => Some (op_OP_AGET_small PChar)
  | OP_AGET_SHORT => Some (op_OP_AGET_small PShort)
  | OP_APUT => Some (op_OP_APUT)
  | OP_APUT_WIDE => Some (op_OP_APUT_WIDE)
  | OP_APUT_OBJECT => Some (op_OP_APUT_OBJECT)
  | OP_APUT_BOOLEAN => Some (op_OP_APUT_small PBoolean)
  | OP_APUT_BYTE => Some (op_OP_APUT_small PByte)
  | OP_APUT_CHAR => Some (op_OP_APUT_small PChar)
  | OP_APUT_SHORT => Some (op_OP_APUT_small PShort)
  | _ => None
  end.

(** Instance and static fields. *)
Definition field_ops (op : Opcode) : option (M W unit) :=
  match op with
  | OP_IGET => Some (op_OP_IGET)
  | OP_IGET_WIDE => Some (op_OP_IGET_WIDE)
  | OP_IGET_OBJECT => Some (op_OP_IGET_OBJECT)
  | OP_IGET_BOOLEAN => Some (op_OP_IGET_small PBoolean)
  | OP_IGET_BYTE => Some (op_OP_IGET_small PByte)
  | OP_IGET_CHAR => Some (op_OP_IGET_small PChar)
  | OP_IGET_SHORT => Some (op_OP_IGET_small PShort)
  | OP_IPUT => Some (op_OP_IPUT)
  | OP_IPUT_WIDE => Some (op_OP_IPUT_WIDE)
  | OP_IPUT_OBJECT => Some (op_OP_IPUT_OBJECT)
  | OP_IPUT_BOOLEAN => Some (op_OP_IPUT_small PBoolean)
  | OP_IPUT_BYTE => Some (op_OP_IPUT_small PByte)
  | OP_IPUT_CHAR => Some (op_OP_IPUT_small PChar)
  | OP_IPUT_SHORT => Some (op_OP_IPUT_small PShort)
  | OP_SGET => Some (op_OP_SGET)
  | OP_SGET_WIDE => Some (op_OP_SGET_WIDE)
  | OP_SGET_OBJECT => Some (op_OP_SGET_OBJECT)
  | OP_SGET_BOOLEAN => Some (op_OP_SGET_small PBoolean)
  | OP_SGET_BYTE => Some (op_OP_SGET_small PByte)
  | OP_SGET_CHAR => Some (op_OP_SGET_small PChar)
  | OP_SGET_SHORT => Some (op_OP_SGET_small PShort)
  | OP_SPUT => Some (op_OP_SPUT)
  | OP_SPUT_WIDE => Some (op_OP_SPUT_WIDE)
  | OP_SPUT_OBJECT => Some (op_OP_SPUT_OBJECT)
  | OP_SPUT_BOOLEAN => Some (op_OP_SPUT_small PBoolean)
  | OP_SPUT_BYTE => Some (op_OP_SPUT_small PByte)
  | OP_SPUT_CHAR => Some (op_OP_SPUT_small PChar)
  | OP_SPUT_SHORT => Some (op_OP_SPUT_small PShort)
  | _ => None
  end.

(** Invocations. *)
Definition invoke_ops (op : Opcode) : option (M W unit) :=
  match op with
  | OP_INVOKE_VIRTUAL => Some (GOTO_invoke invokeVirtual false)
  | OP_INVOKE_SUPER => Some (GOTO_invoke invokeSuper false)
  | OP_INVOKE_DIRECT => Some (GOTO_invoke invokeDirect false)
  | OP_INVOKE_STATIC => Some (GOTO_invoke invokeStatic false)
  | OP_INVOKE_INTERFACE => Some (GOTO_invoke invokeInterface false)
  | OP_INVOKE_VIRTUAL_RANGE => Some (GOTO_invoke invokeVirtual true)
  | OP_INVOKE_SUPER_RANGE => Some (GOTO_invoke invokeSuper true)
  | OP_INVOKE_DIRECT_RANGE => Some (GOTO_invoke invokeDirect true)
  | OP_INVOKE_STATIC_RANGE => Some (GOTO_invoke invokeStatic true)
  | OP_INVOKE_INTERFACE_RANGE => Some (GOTO_invoke invokeInterface true)
  | _ => None
  end.

(** Unary operations and conversions; 0x79 and 0x7a fall through to [OP_NEG_INT]. *)
Definition unary_ops (op : Opcode) : option (M W unit) :=
  match op with
  | OP_UNUSED_79 => Some (HANDLE_UNOP_u4 Z.opp)
  | OP_UNUSED_7A => Some (HANDLE_UNOP_u4 Z.opp)
  | OP_NEG_INT => Some (HANDLE_UNOP_u4 Z.opp)
  | OP_NOT_INT => Some (HANDLE_UNOP_u4 (fun x => x .^ 0xffffffff))
  | OP_NEG_LONG => Some (HANDLE_UNOP RWide Z.opp)
  | OP_NOT_LONG => Some (HANDLE_UNOP RWide (fun x => U64 x .^ 0xffffffffffffffff))
  | OP_NEG_FLOAT => Some (HANDLE_UNOP RFloat (fneg F32))
  | OP_NEG_DOUBLE => Some (HANDLE_UNOP RDouble (fneg F64))
  | OP_INT_TO_LONG => Some (HANDLE_NUMCONV RInt RWide)
  | OP_INT_TO_FLOAT => Some (HANDLE_NUMCONV RInt RFloat)
  | OP_INT_TO_DOUBLE => Some (HANDLE_NUMCONV RInt RDouble)
  | OP_LONG_TO_INT => Some (HANDLE_NUMCONV RWide RInt)
  | OP_LONG_TO_FLOAT => Some (HANDLE_NUMCONV RWide RFloat)
  | OP_LONG_TO_DOUBLE => Some (HANDLE_NUMCONV RWide RDouble)
  | OP_FLOAT_TO_INT => Some (HANDLE_FLOAT_TO_INT F32 RInt)
  | OP_FLOAT_TO_LONG => Some (HANDLE_FLOAT_TO_INT F32 RWide)
  | OP_FLOAT_TO_DOUBLE => Some (HANDLE_NUMCONV RFloat RDouble)
  | OP_DOUBLE_TO_INT => Some (HANDLE_FLOAT_TO_INT F64 RInt)
  | OP_DOUBLE_TO_LONG => Some (HANDLE_FLOAT_TO_INT F64 RWide)
  | OP_DOUBLE_TO_FLOAT => Some (HANDLE_NUMCONV RDouble RFloat)
  | OP_INT_TO_BYTE => Some (HANDLE_INT_TO_SMALL S8)
  | OP_INT_TO_CHAR => Some (HANDLE_INT_TO_SMALL U16)
  | OP_INT_TO_SHORT => Some (HANDLE_INT_TO_SMALL S16)
  | _ => None
  end.

(** Three-address arithmetic. *)
Definition binary_ops (op : Opcode) : option (M W unit) :=
  match op with
  | OP_ADD_INT => Some (HANDLE_OP_X_INT Z.add 0)
  | OP_SUB_INT => Some (HANDLE_OP_X_INT Z.sub 0)
  | OP_MUL_INT => Some (HANDLE_OP_X_INT Z.mul 0)
  | OP_DIV_INT => Some (HANDLE_OP_X_INT Z.quot 1)
  | OP_REM_INT => Some (HANDLE_OP_X_INT Z.rem 2)
  | OP_AND_INT => Some (HANDLE_OP_X_INT Z.land 0)
  | OP_OR_INT => Some (HANDLE_OP_X_INT Z.lor 0)
  | OP_XOR_INT => Some (HANDLE_OP_X_INT Z.lxor 0)
  | OP_SHL_INT => Some (HANDLE_OP_SHX_INT S32 Z.shiftl)
  | OP_SHR_INT => Some (HANDLE_OP_SHX_INT S32 Z.shiftr)
  | OP_USHR_INT => Some (HANDLE_OP_SHX_INT U32 Z.shiftr)
  | OP_ADD_LONG => Some (HANDLE_OP_X_LONG Z.add 0)
  | OP_SUB_LONG => Some (HANDLE_OP_X_LONG Z.sub 0)
  | OP_MUL_LONG => Some (HANDLE_OP_X_LONG Z.mul 0)
  | OP_DIV_LONG => Some (HANDLE_OP_X_LONG Z.quot 1)
  | OP_REM_LONG => Some (HANDLE_OP_X_LONG Z.rem 2)
  | OP_AND_LONG => Some (HANDLE_OP_X_LONG Z.land 0)
  | OP_OR_LONG => Some (HANDLE_OP_X_LONG Z.lor 0)
  | OP_XOR_LONG => Some (HANDLE_OP_X_LONG Z.lxor 0)
  | OP_SHL_LONG => Some (HANDLE_OP_SHX_LONG S64 Z.shiftl)
  | OP_SHR_LONG => Some (HANDLE_OP_SHX_LONG S64 Z.shiftr)
  | OP_USHR_LONG => Some (HANDLE_OP_SHX_LONG U64 Z.shiftr)
  | OP_ADD_FLOAT => Some (HANDLE_OP_X_FLOAT (fadd F32))
  | OP_SUB_FLOAT => Some (HANDLE_OP_X_FLOAT (fsub F32))
  | OP_MUL_FLOAT => Some (HANDLE_OP_X_FLOAT (fmul F32))
  | OP_DIV_FLOAT => Some (HANDLE_OP_X_FLOAT (fdiv F32))
  | OP_REM_FLOAT => Some (HANDLE_OP_X_FLOAT (frem F32))
  | OP_ADD_DOUBLE => Some (HANDLE_OP_X_DOUBLE (fadd F64))
  | OP_SUB_DOUBLE => Some (HANDLE_OP_X_DOUBLE (fsub F64))
  | OP_MUL_DOUBLE => Some (HANDLE_OP_X_DOUBLE (fmul F64))
  | OP_DIV_DOUBLE => Some (HANDLE_OP_X_DOUBLE (fdiv F64))
  | OP_REM_DOUBLE => Some (HANDLE_OP_X_DOUBLE (frem F64))
  | _ => None
  end.

(** Two-address arithmetic. *)
Definition binary_2addr_ops (op : Opcode) : option (M W unit) :=
  match op with
  | OP_ADD_INT_2ADDR => Some (HANDLE_OP_X_INT_2ADDR Z.add 0)
  | OP_SUB_INT_2ADDR => Some (HANDLE_OP_X_INT_2ADDR Z.sub 0)
  | OP_MUL_INT_2ADDR => Some (HANDLE_OP_X_INT_2ADDR Z.mul 0)
  | OP_DIV_INT_2ADDR => Some (HANDLE_OP_X_INT_2ADDR Z.quot 1)
  | OP_REM_INT_2ADDR => Some (HANDLE_OP_X_INT_2ADDR Z.rem 2)
  | OP_AND_INT_2ADDR => Some (HANDLE_OP_X_INT_2ADDR Z.land 0)
  | OP_OR_INT_2ADDR => Some (HANDLE_OP_X_INT_2ADDR Z.lor 0)
  | OP_XOR_INT_2ADDR => Some (HANDLE_OP_X_INT_2ADDR Z.lxor 0)
  | OP_SHL_INT_2ADDR => Some (HANDLE_OP_SHX_INT_2ADDR S32 Z.shiftl)
  | OP_SHR_INT_2ADDR => Some (HANDLE_OP_SHX_INT_2ADDR S32 Z.shiftr)
  | OP_USHR_INT_2ADDR => Some (HANDLE_OP_SHX_INT_2ADDR U32 Z.shiftr)
  | OP_ADD_LONG_2ADDR => Some (HANDLE_OP_X_LONG_2ADDR Z.add 0)
  | OP_SUB_LONG_2ADDR => Some (HANDLE_OP_X_LONG_2ADDR Z.sub 0)
  | OP_MUL_LONG_2ADDR => Some (HANDLE_OP_X_LONG_2ADDR Z.mul 0)
  | OP_DIV_LONG_2ADDR => Some (HANDLE_OP_X_LONG_2ADDR Z.quot 1)
  | OP_REM_LONG_2ADDR => Some (HANDLE_OP_X_LONG_2ADDR Z.rem 2)
  | OP_AND_LONG_2ADDR => Some (HANDLE_OP_X_LONG_2ADDR Z.land 0)
  | OP_OR_LONG_2ADDR => Some (HANDLE_OP_X_LONG_2ADDR Z.lor 0)
  | OP_XOR_LONG_2ADDR => Some (HANDLE_OP_X_LONG_2ADDR Z.lxor 0)
  | OP_SHL_LONG_2ADDR => Some (HANDLE_OP_SHX_LONG_2ADDR S64 Z.shiftl)
  | OP_SHR_LONG_2ADDR => Some (HANDLE_OP_SHX_LONG_2ADDR S64 Z.shiftr)
  | OP_USHR_LONG_2ADDR => Some (HANDLE_OP_SHX_LONG_2ADDR U64 Z.shiftr)
  | OP_ADD_FLOAT_2ADDR => Some (HANDLE_OP_X_FLOAT_2ADDR (fadd F32))
  | OP_SUB_FLOAT_2ADDR => Some (HANDLE_OP_X_FLOAT_2ADDR (fsub F32))
  | OP_MUL_FLOAT_2ADDR => Some (HANDLE_OP_X_FLOAT_2ADDR (fmul F32))
  | OP_DIV_FLOAT_2ADDR => Some (HANDLE_OP_X_FLOAT_2ADDR (fdiv F32))
  | OP_REM_FLOAT_2ADDR => Some (HANDLE_OP_X_FLOAT_2ADDR (frem F32))
  | OP_ADD_DOUBLE_2ADDR => Some (HANDLE_OP_X_DOUBLE_2ADDR (fadd F64))
  | OP_SUB_DOUBLE_2ADDR => Some (HANDLE_OP_X_DOUBLE_2ADDR (fsub F64))
  | OP_MUL_DOUBLE_2ADDR => Some (HANDLE_OP_X_DOUBLE_2ADDR (fmul F64))
  | OP_DIV_DOUBLE_2ADDR => Some (HANDLE_OP_X_DOUBLE_2ADDR (fdiv F64))
  | OP_REM_DOUBLE_2ADDR => Some (HANDLE_OP_X_DOUBLE_2ADDR (frem F64))
  | _ => None
  end.

(** Arithmetic with a literal. *)
Definition literal_ops (op : Opcode) : option (M W unit) :=
  match op with
  | OP_ADD_INT_LIT16 => Some (HANDLE_OP_X_INT_LIT16 Z.add 0)
  | OP_RSUB_INT => Some (op_OP_RSUB_INT)
  | OP_MUL_INT_LIT16 => Some (HANDLE_OP_X_INT_LIT16 Z.mul 0)
  | OP_DIV_INT_LIT16 => Some (HANDLE_OP_X_INT_LIT16 Z.quot 1)
  | OP_REM_INT_LIT16 => Some (HANDLE_OP_X_INT_LIT16 Z.rem 2)
  | OP_AND_INT_LIT16 => Some (HANDLE_OP_X_INT_LIT16 Z.land 0)
  | OP_OR_INT_LIT16 => Some (HANDLE_OP_X_INT_LIT16 Z.lor 0)
  | OP_XOR_INT_LIT16 => Some (HANDLE_OP_X_INT_LIT16 Z.lxor 0)
  | OP_ADD_INT_LIT8 => Some (HANDLE_OP_X_INT_LIT8 Z.add 0)
  | OP_RSUB_INT_LIT8 => Some (op_OP_RSUB_INT_LIT8)
  | OP_MUL_INT_LIT8 => Some (HANDLE_OP_X_INT_LIT8 Z.mul 0)
  | OP_DIV_INT_LIT8 => Some (HANDLE_OP_X_INT_LIT8 Z.quot 1)
  | OP_REM_INT_LIT8 => Some (HANDLE_OP_X_INT_LIT8 Z.rem 2)
  | OP_AND_INT_LIT8 => Some (HANDLE_OP_X_INT_LIT8 Z.land 0)
  | OP_OR_INT_LIT8 => Some (HANDLE_OP_X_INT_LIT8 Z.lor 0)
  | OP_XOR_INT_LIT8 => Some (HANDLE_OP_X_INT_LIT8 Z.lxor 0)
  | OP_SHL_INT_LIT8 => Some (HANDLE_OP_SHX_INT_LIT8 S32 Z.shiftl)
  | OP_SHR_INT_LIT8 => Some (HANDLE_OP_SHX_INT_LIT8 S32 Z.shiftr)
  | OP_USHR_INT_LIT8 => Some (HANDLE_OP_SHX_INT_LIT8 U32 Z.shiftr)
  | _ => None
  end.

(** The label an opcode's handler starts at; control reaching an
    unimplemented opcode's label (0x73 and 0xe3 to 0xff) falls through to
    [filledNewArray]. *)
Definition handler (op : Opcode) : M W unit :=
  match move_const_ops op, compare_ops op, array_ops op, field_ops op, invoke_ops op with
  | Some h, _, _, _, _ | None, Some h, _, _, _ | None, None, Some h, _, _
  | None, None, None, Some h, _ | None, None, None, None, Some h => h
  | None, None, None, None, None =>
      match unary_ops op, binary_ops op, binary_2addr_ops op, literal_ops op with
      | Some h, _, _, _ | None, Some h, _, _ | None, None, Some h, _ | None, None, None, Some h => h
      | None, None, None, None => filledNewArray
      end
  end.

(** ** Dispatch: [FINISH] *)

Definition trace_insn : M W unit :=
  c <- gets tctx ;;
  match c with
  | None => ret tt
  | Some c =>
      p <- gets pc ;; i <- gets inst ;;
      let c := MkFrameCtx (U32 p) i (U64 (insns_executed c + 1)) in
      set_tctx (Some c) ;;;
      match tracer with
      | None => ret tt
      | Some tr =>
          match onInsn tr with
          | None => ret tt
          | Some f =>
              regs <- gets fp ;; flags <- gets fp_flags ;;
              r <- call (f c regs flags) ;;
              if negb (r =? 0) then set_retval 0 ;;; GOTO_bail else ret tt
          end
      end
  end.

Definition finish (offset : Z) : M W unit :=
  p <- gets pc ;;
  set_pc (p + offset) ;;;
  i <- FETCH 0 ;;
  set_inst i ;;;
  trace_insn ;;;
  (match g_vmTraceHook with
   | None => ret tt
   | Some f => regs <- gets fp ;; flags <- gets fp_flags ;; call_ (f (p + offset) i regs flags)
   end) ;;;
  op <- opt (handler_of (INST_INST i)) ;;
  handler op.

(** ** Exceptions *)

(** The loop of [findCatchInMethod]: the handler address, or -1. *)
Fixpoint catch_loop (fuel : nat) (pHandler : TryCatchHandler) (iterator : VmCatchIterator) (exceptObj : Z)
  : M W Z :=
  match fuel with
  | O => undef
  | S f =>
      n <- opt (vmCatchIteratorNext pHandler iterator) ;;
      match n.1 with
      | None => ret (-1)
      | Some h =>
          if typeIdx h =? kNoIndex then ret (S32 (address h))
          else
            throwable <- call (dvmResolveClass dvmResolver (typeIdx h)) ;;
            caught <- scoped throwable
              (if throwable =? 0 then call_ ExceptionClear ;;; ret false
               else r <- call (IsInstanceOf exceptObj throwable) ;; ret (negb (r =? 0))) ;;
            if caught : bool then ret (S32 (address h)) else catch_loop f pHandler n.2 exceptObj
      end
  end.

Definition findCatchInMethod (relPc : Z) (pHandler : TryCatchHandler) (exceptObj : Z) : M W Z :=
  r <- opt (vmFindCatchHandler (MkHandler (U32 (uninit 0)) (U32 (uninit 1))) pHandler (U32 relPc)) ;;
  if r.1 : bool then catch_loop (Z.to_nat (countRemaining r.2) + 2) pHandler r.2 exceptObj
  else ret (-1).

Definition dvmFindCatchBlock (relPc exception : Z) (pHandler : option TryCatchHandler) : M W Z :=
  match pHandler with
  | None => ret (-1)
  | Some h =>
      catchAddr <- findCatchInMethod relPc h exception ;;
      call_ ExceptionClear ;;;
      ret catchAddr
  end.

Definition exceptionThrown : M W unit :=
  exception <- call ExceptionOccurred ;;
  scoped exception
    (call_ ExceptionClear ;;;
     if exception =? 0 then GOTO_bail
     else
       p <- gets pc ;;
       catchRelPc <- dvmFindCatchBlock p exception (triesHandlers code) ;;
       c <- gets tctx ;;
       (match c, tracer with
        | Some c, Some tr =>
            match onException tr with
            | None => ret tt
            | Some f => call_ (f c exception (U32 p) catchRelPc)
            end
        | _, _ => ret tt
        end) ;;;
       if catchRelPc <? 0 then call_ (Throw exception) ;;; GOTO_bail
       else
         set_pc catchRelPc ;;;
         i <- FETCH 0 ;;
         if INST_INST i =? opcode_value OP_MOVE_EXCEPTION then call_ (Throw exception) else ret tt) ;;;
  FINISH 0.

(** ** The loop *)

Inductive outcome :=
  | Returned (value : Z) (s : frame W)
  | Undefined
  | OutOfFuel.

(** One transfer of control. *)
Definition transfer (c : ctl) : M W unit :=
  match c with
  | Finish offset => finish offset
  | GotoExceptionThrown => exceptionThrown
  | GotoReturnFromMethod | GotoBail => goto c
  end.

Fixpoint run (fuel : nat) (c : ctl) (s : frame W) : outcome :=
  match c with
  | GotoReturnFromMethod | GotoBail => Returned (retval s) s
  | _ =>
      match fuel with
      | O => OutOfFuel
      | S f => match transfer c s with Jump c' s' => run f c' s' | _ => Undefined end
      end
  end.

(** [retval0], [args0] and [range0] are the uninitialised locals. *)
Definition vmInterpret2 (fuel : nat) (regs reg_flags : list Z) (retval0 : Z) (args0 : list Z) (range0 : bool)
    (fctx : option VmFrameCtx) (w : W) : outcome :=
  run fuel (Finish 0) (MkFrame 0 0 regs reg_flags retval0 args0 range0 fctx w).
Definition vmInterpret (fuel : nat) (regs reg_flags : list Z) (retval0 : Z) (args0 : list Z) (range0 : bool)
    (w : W) : outcome :=
  vmInterpret2 fuel regs reg_flags retval0 args0 range0 None w.

End Interp.

Arguments outcome W : clear implicits.

End VmInterp.
