(* ===== verification/VmWorld.v ===== *)
(** * A concrete platform

    A small world the interpreter's theorems are instantiated at: a pending
    exception, and the calls made so far.  Classes, objects and methods are
    numbers; every class is a superclass of exactly itself, and calling
    method [m] returns the sum of its arguments. *)
From S2P Require Import Prelude DexCatch DexOpcodes VmEnv VmSwitch VmArith VmObject VmInvoke VmInterp.
Import DexCatch VmEnv.

Module VmWorld.

Inductive event := EvDelete (ref : Z) | EvCall (mid : Z) (args : list Z) | EvThrow (cls : Z).
Record World := MkWorld { pending : Z; trace : list event }.

Definition log (e : event) (w : World) : World := MkWorld (pending w) (trace w ++ [e]).
Definition raise (x : Z) (w : World) : World := MkWorld x (trace w).

#[export] Instance demo_jni : JNI World := {|
  NewLocalRef o w := (o, w);
  DeleteLocalRef o w := log (EvDelete o) w;
  IsSameObject a b w := ((if a =? b then 1 else 0), w);
  IsInstanceOf a b w := ((if a =? b then 1 else 0), w);
  AllocObject c w := (c, w);
  MonitorEnter _ w := (JNI_OK, w);
  MonitorExit _ w := (JNI_OK, w);
  ExceptionOccurred w := (pending w, w);
  ExceptionClear w := raise 0 w;
  ExceptionCheck w := ((if pending w =? 0 then 0 else 1), w);
  Throw x w := raise x w;
  ThrowNew c _ w := raise c (log (EvThrow c) w);
  GetArrayLength _ w := (0, w);
  NewPrimArray _ _ w := (500, w);
  NewObjectArray _ _ _ w := (501, w);
  GetObjectArrayElement _ _ w := (0, w);
  SetObjectArrayElement _ _ _ w := w;
  GetArrayRegion1 _ _ _ w := (None, w);
  SetArrayRegion1 _ _ _ _ w := w;
  GetPrimitiveArrayCritical _ w := (Some [], w);
  ReleasePrimitiveArrayCritical _ _ _ w := w;
  GetField _ _ f w := (f, w);
  SetField _ _ _ _ w := w;
  GetStaticField _ _ f w := (f, w);
  SetStaticField _ _ _ _ w := w;
  CallMethodA _ _ _ m args w := (fold_right Z.add 0 args, log (EvCall m args) w)
|}.

Definition demo_resolver : vmResolver World :=
  MkResolver World
    (fun i _ w => (Some (MkVmField i ch_I (100 + i)), w))
    (fun i _ w => (Some (MkVmMethod i i (str "IIJ") (200 + i)), w))
    (fun _ w => (Some (str "[I"), w))
    (fun i w => (300 + i, w))
    (fun _ w => (400, w))
    (fun i w => (600 + i, w)).

Definition demo_globals : vmGlobals := MkGlobals 901 902 903 904 905 906 907 908 909 910 911 912.

(** Code and, optionally, a tracer over that platform. *)
Definition demo_env (c : vmCode) (tr : option (VmTracer World)) : VmEnv World := {|
  vm_jni := demo_jni; dvmResolver := demo_resolver; gVm := demo_globals;
  code := c; tracer := tr; g_vmTraceHook := None; uninit := fun _ => 0 |}.

Definition start (nregs : nat) : frame World :=
  MkFrame 0 0 (replicate nregs 0) (replicate nregs 0) 0 [0; 0; 0; 0; 0] false None (MkWorld 0 []).

(** ** Programs *)

(** [s = 0; for (i = n; i != 0; i--) s += i; return s;] with n in v1. *)
Definition sum_code : vmCode := MkVmCode
  [0x0012;          (* const/4 v0, #0 *)
   0x0138; 0x0006;  (* if-eqz v1, +6 *)
   0x10b0;          (* add-int/2addr v0, v1 *)
   0x01d8; 0xff01;  (* add-int/lit8 v1, v1, #-1 *)
   0xfb28;          (* goto -5 *)
   0x000f]          (* return v0 *)
  None.

Example sum_of_10 :
  match VmInterp.vmInterpret (E := demo_env sum_code None) 60 [0; 10] [0; 0] 0 [0;0;0;0;0] false (MkWorld 0 []) with
  | VmInterp.Returned v _ => v = 55 | _ => False end.
Proof. vm_compute. reflexivity. Qed.

(** A division by zero caught in the method. *)
Definition catch_code : vmCode := MkVmCode
  [0x0012;                 (* const/4 v0, #0 *)
   0x0193; 0x0001;         (* div-int v1, v1, v0 *)
   0x010f;                 (* return v1 *)
   0x020d;                 (* 4: move-exception v2 *)
   0x7112; 0x010f]         (* const/4 v1, #7; return v1 *)
  (Some (MkTryCatchHandler 1 [MkTryItem 1 2 1] [1; 1; 0xde; 0x04; 4])).

Example catch_div :
  match VmInterp.vmInterpret (E := demo_env catch_code None) 60 [0; 10; 0] [0; 0; 0] 0 [0;0;0;0;0] false (MkWorld 0 []) with
  | VmInterp.Returned v s => v = 7 /\ nth 2 (fp s) 0 = 906 | _ => False end.
Proof. vm_compute. split; reflexivity. Qed.

End VmWorld.
