(* ===== verification/VmFrame.v ===== *)
(** * What a handler may do to the frame

    A footprint logic for the handler monad.  [keeps D J s0 m]: started in a
    frame that is well-formed and differs from [s0] at most in the
    registers [D], the return value, the argument buffer and the world, [m]
    again ends in such a frame, and leaves the handler only by a jump in
    [J].  The rules follow the monad's structure, so the whole opcode table
    is checked by one tactic; nothing is assumed of the platform. *)
From S2P Require Import Prelude CFloat DexOpcodes VmEnv VmSwitch VmArith VmObject VmInvoke VmInterp.
Import CFloat DexOpcodes VmEnv VmSwitch VmArith VmObject VmInvoke VmInterp.
Local Open Scope cint_scope.
Local Open Scope vm_scope.

Module VmFrame.

Definition flag_ok (f : Z) : Prop := f = 0 \/ f = 1.

(** Every cell is a 64-bit word, every flag 0 or 1, one flag per register. *)
Record frame_ok {W} (s : frame W) : Prop := {
  ok_fp : Forall (in_u 64) (fp s);
  ok_flags : Forall flag_ok (fp_flags s);
  ok_length : length (fp_flags s) = length (fp s);
  ok_retval : in_u 64 (retval s);
  ok_args : length (args_tmp s) = 5%nat /\ Forall (in_u 64) (args_tmp s) }.

(** Same program point, same registers outside [D]. *)
Record same_outside {W} (D : Z -> Prop) (s0 s : frame W) : Prop := {
  same_pc : pc s = pc s0;
  same_inst : inst s = inst s0;
  same_tctx : tctx s = tctx s0;
  same_size : length (fp s) = length (fp s0);
  same_fp i : ~ D i -> fp s !!z i = fp s0 !!z i;
  same_flags i : ~ D i -> fp_flags s !!z i = fp_flags s0 !!z i }.

Section Keeps.
Context {W : Type} `{E : VmEnv W}.
Context (D : Z -> Prop) (J : ctl -> Prop) (s0 : frame W).

Definition good (s : frame W) : Prop := frame_ok s /\ same_outside D s0 s.

Definition keeps_post {A} (Q : A -> Prop) (r : res W A) : Prop :=
  match r with
  | Val x s => good s /\ Q x
  | Jump c s => good s /\ J c
  | Undef => True
  end.
Definition keepsQ {A} (m : M W A) (Q : A -> Prop) : Prop := forall s, good s -> keeps_post Q (m s).
Definition keeps {A} (m : M W A) : Prop := keepsQ m (fun _ => True).

Lemma keepsQ_weaken {A} (m : M W A) (P Q : A -> Prop) : keepsQ m P -> (forall x, P x -> Q x) -> keepsQ m Q.
Proof. intros Hm HPQ s Hs. specialize (Hm s Hs). destruct (m s); simpl in *; [|done..]. destruct Hm; auto. Qed.

Lemma keepsQ_bind {A B} (m : M W A) (P : A -> Prop) (k : A -> M W B) Q :
  keepsQ m P -> (forall x, P x -> keepsQ (k x) Q) -> keepsQ (bind m k) Q.
Proof.
  intros Hm Hk s Hs. unfold bind. specialize (Hm s Hs). destruct (m s) as [x s'|c s'|]; simpl in *; [|done|done].
  destruct Hm as [Hg HP]. by apply (Hk x HP).
Qed.

Lemma keeps_bind {A B} (m : M W A) (k : A -> M W B) :
  keeps m -> (forall x, keeps (k x)) -> keeps (bind m k).
Proof. intros Hm Hk. eapply keepsQ_bind; [exact Hm|]. intros x _. apply Hk. Qed.

Lemma keeps_ret {A} (x : A) : keeps (ret x).
Proof. by intros s Hs. Qed.
Lemma keeps_undef {A} : keeps (A := A) undef.
Proof. by intros s Hs. Qed.
Lemma keeps_goto {A} c : J c -> keeps (A := A) (goto c).
Proof. by intros Hc s Hs. Qed.
Lemma keeps_gets {A} (f : frame W -> A) : keeps (gets f).
Proof. by intros s Hs. Qed.
Lemma keeps_opt {A} (o : option A) : keeps (opt o).
Proof. destruct o; [apply keeps_ret|apply keeps_undef]. Qed.

(** The instruction word and the code are those of [s0]. *)
Lemma keeps_bind_inst {B} (k : Z -> M W B) : keeps (k (inst s0)) -> keeps (bind (gets inst) k).
Proof. intros Hk s Hs. unfold bind, gets. rewrite (same_inst _ _ _ (proj2 Hs)). by apply Hk. Qed.
Lemma keeps_bind_pc {B} (k : Z -> M W B) : keeps (k (pc s0)) -> keeps (bind (gets pc) k).
Proof. intros Hk s Hs. unfold bind, gets. rewrite (same_pc _ _ _ (proj2 Hs)). by apply Hk. Qed.
Lemma keeps_bind_fetch {B} off (k : Z -> M W B) :
  (forall x, insns code !!z (pc s0 + off) = Some x -> keeps (k x)) -> keeps (bind (FETCH off) k).
Proof.
  intros Hk s Hs. unfold FETCH, bind, gets, opt. rewrite (same_pc _ _ _ (proj2 Hs)).
  destruct (insns code !!z (pc s0 + off)) as [x|] eqn:Ex; [by apply Hk|done].
Qed.
Lemma keeps_fetch off : keeps (FETCH off).
Proof. intros s Hs. unfold FETCH, bind, gets, opt. destruct (_ !!z _); [split; done|done]. Qed.

Lemma good_world s w : good s ->
  good (MkFrame (pc s) (inst s) (fp s) (fp_flags s) (retval s) (args_tmp s) (methodCallRange s) (tctx s) w).
Proof. intros [[] []]. by split; constructor. Qed.

Lemma keeps_call {A} (f : W -> A * W) : keeps (call f).
Proof. intros s Hs. unfold call. destruct (f (world s)). split; [by apply good_world|done]. Qed.
Lemma keeps_call_ f : keeps (call_ f).
Proof. apply keeps_call. Qed.

Lemma keeps_set_retval v : in_u 64 v -> keeps (set_retval v).
Proof. intros Hv s [[] []]. split; [split; constructor; simpl; done|done]. Qed.
Lemma keeps_set_range b : keeps (set_methodCallRange b).
Proof. intros s [[] []]. split; [split; constructor; simpl; done|done]. Qed.
Lemma keeps_set_args l : length l = 5%nat -> Forall (in_u 64) l -> keeps (set_args_tmp l).
Proof. intros ?? s [[] []]. split; [split; constructor; simpl; done|done]. Qed.

(** *** Registers *)

Lemma keepsQ_get_raw idx : keepsQ (GET_RAW idx) (in_u 64).
Proof.
  intros s Hs. unfold GET_RAW, bind, gets, opt. destruct (fp s !!z idx) as [x|] eqn:Ex; [|done].
  split; [done|]. eapply zlookup_Forall; [|exact Ex]. apply Hs.
Qed.
Lemma keepsQ_retval : keepsQ (gets retval) (in_u 64).
Proof. intros s Hs. split; [done|]. apply Hs. Qed.
Lemma keeps_get_raw idx : keeps (GET_RAW idx).
Proof. eapply keepsQ_weaken; [apply keepsQ_get_raw|done]. Qed.

Lemma keeps_put_raw idx x : D idx -> in_u 64 x -> keeps (PUT_RAW idx x).
Proof.
  intros Hd Hx s [[] []]. unfold PUT_RAW, bind, gets, opt.
  destruct (zset (fp s) idx x) as [l|] eqn:El; [|done]. cbn.
  split; [|done]. split; constructor; cbn; try done.
  - eapply zset_Forall; [| |exact El]; done.
  - by rewrite (zset_length _ _ _ _ El).
  - by rewrite (zset_length _ _ _ _ El).
  - intros i Hi. rewrite (zset_lookup_ne _ _ _ i _ El); [auto|]. by intros ->.
Qed.

Lemma keeps_get_flags idx : keeps (GET_REGISTER_FLAGS idx).
Proof. intros s Hs. unfold GET_REGISTER_FLAGS, bind, gets, opt. destruct (_ !!z _); [split; done|done]. Qed.

Lemma keeps_set_flags idx x : D idx -> flag_ok x -> keeps (SET_REGISTER_FLAGS idx x).
Proof.
  intros Hd Hx s [[] []]. unfold SET_REGISTER_FLAGS, bind, gets, opt.
  destruct (zset (fp_flags s) idx (U8 x)) as [l|] eqn:El; [|done]. cbn.
  split; [|done]. split; constructor; cbn; try done.
  - eapply zset_Forall; [| |exact El]; [done|]. by destruct Hx as [-> | ->]; [left|right].
  - by rewrite (zset_length _ _ _ _ El).
  - intros i Hi. rewrite (zset_lookup_ne _ _ _ i _ El); [auto|]. by intros ->.
Qed.

Lemma keeps_delete idx : keeps (DELETE_LOCAL_REF idx).
Proof.
  apply keeps_bind; [apply keeps_get_flags|]. intros f. case_match; [|apply keeps_ret].
  apply keeps_bind; [apply keeps_get_raw|]. intros. apply keeps_call_.
Qed.

Lemma keeps_scoped {A} ref (m : M W A) : keeps m -> keeps (scoped ref m).
Proof.
  intros Hm s Hs. unfold scoped. specialize (Hm s Hs).
  assert (Hdel : keeps (if negb (ref =? 0) then call_ (DeleteLocalRef ref) else ret tt))
    by (case_match; [apply keeps_call_|apply keeps_ret]).
  destruct (m s) as [x s'|c s'|]; simpl in *; [| |done].
  - apply keeps_bind; [done|intros; apply keeps_ret|apply Hm].
  - apply keeps_bind; [done|intros; apply keeps_goto, Hm|apply Hm].
Qed.

Lemma keeps_set_as idx v x' (P : Z -> Z) :
  D idx -> keeps v -> flag_ok x' -> (forall z, in_u 64 (P z)) ->
  keeps (DELETE_LOCAL_REF idx ;;; x <- v ;; PUT_RAW idx (P x) ;;; SET_REGISTER_FLAGS idx x').
Proof.
  intros Hd Hv Hx HP. apply keeps_bind; [apply keeps_delete|]. intros _.
  apply keeps_bind; [done|]. intros x. apply keeps_bind; [by apply keeps_put_raw|]. intros _.
  by apply keeps_set_flags.
Qed.

Lemma wrap_32_64 z : in_u 64 (U32 z).
Proof. eapply in_u_mono; [|by apply wrap_in_u]. lia. Qed.
Lemma wrap_64_64 z : in_u 64 (U64 z).
Proof. by apply wrap_in_u. Qed.
Lemma put32_in_u old v : in_u 64 old -> in_u 64 (put32 old v).
Proof.
  intros Ho. unfold put32. apply in_u_lor; [done| |apply wrap_32_64].
  apply testbit_in_u; [done|]. intros i Hi. rewrite Z.shiftl_spec by lia.
  rewrite Z.shiftr_spec by lia. rewrite (in_u_testbit 64 old); done || lia.
Qed.

Lemma keeps_SET_REGISTER idx v : D idx -> keeps v -> keeps (SET_REGISTER idx v).
Proof. intros. apply keeps_set_as; try done; [by left|apply wrap_32_64]. Qed.
Lemma keeps_SET_REGISTER_WIDE idx v : D idx -> keeps v -> keeps (SET_REGISTER_WIDE idx v).
Proof. intros. apply keeps_set_as; try done; [by left|apply wrap_64_64]. Qed.
Lemma keeps_SET_REGISTER_DOUBLE idx v : D idx -> keeps v -> keeps (SET_REGISTER_DOUBLE idx v).
Proof. intros. apply keeps_set_as; try done; [by left|apply wrap_64_64]. Qed.
Lemma keeps_SET_REGISTER_AS_OBJECT idx v : D idx -> keeps v -> keeps (SET_REGISTER_AS_OBJECT idx v).
Proof. intros. apply keeps_set_as; try done; [by right|apply wrap_64_64]. Qed.
Lemma keeps_SET_REGISTER_INT idx v : D idx -> keeps v -> keeps (SET_REGISTER_INT idx v).
Proof.
  intros. apply keeps_SET_REGISTER; [done|]. apply keeps_bind; [done|intros; apply keeps_ret].
Qed.
Lemma keeps_SET_REGISTER_FLOAT idx v : D idx -> keeps v -> keeps (SET_REGISTER_FLOAT idx v).
Proof.
  intros Hd Hv. unfold SET_REGISTER_FLOAT. apply keeps_bind; [apply keeps_delete|]. intros _.
  apply keeps_bind; [done|]. intros x. eapply keepsQ_bind; [apply keepsQ_get_raw|]. intros r Hr.
  apply keeps_bind; [apply keeps_put_raw; [done|by apply put32_in_u]|]. intros _.
  apply keeps_set_flags; [done|by left].
Qed.

End Keeps.

End VmFrame.
