(* ===== verification/VmFootprint.v ===== *)
(** * Every handler keeps to its footprint

    For each of the 256 opcodes: the only register a handler can change is
    the destination its encoding names, the frame stays well-formed, and it
    leaves by the jumps the instruction has - to the next instruction at the
    distance the disassembler's length table gives, to its branch target, to
    exception delivery if it can throw, and out of the method only for a
    return or a traced call. *)
From S2P Require Import Prelude CFloat DexOpcodes Smali VmEnv VmSwitch VmArith VmObject VmInvoke VmInterp VmFrame.
Import CFloat DexOpcodes VmEnv VmSwitch VmArith VmObject VmInvoke VmInterp VmFrame.
Local Open Scope cint_scope.
Local Open Scope vm_scope.

Module VmFootprint.

(** ** Instruction formats *)

Inductive dest := NoDest | DestA | DestAA | Dest16.

Definition between (lo hi v : Z) : bool := (lo <=? v) && (v <=? hi).

(** Where an opcode's format puts the destination register. *)
Definition dest_form (op : Opcode) : dest :=
  match op with
  | OP_MOVE | OP_MOVE_WIDE | OP_MOVE_OBJECT | OP_CONST_4 | OP_INSTANCE_OF | OP_ARRAY_LENGTH | OP_NEW_ARRAY => DestA
  | OP_MOVE_16 | OP_MOVE_WIDE_16 | OP_MOVE_OBJECT_16 => Dest16
  | OP_MOVE_FROM16 | OP_MOVE_WIDE_FROM16 | OP_MOVE_OBJECT_FROM16 | OP_MOVE_RESULT | OP_MOVE_RESULT_WIDE
  | OP_MOVE_RESULT_OBJECT | OP_MOVE_EXCEPTION | OP_NEW_INSTANCE => DestAA
  | _ =>
      let v := opcode_value op in
      if between 0x13 0x1c v (* const *) || between 0x2d 0x31 v (* cmp *)
        || between 0x3e 0x4a v (* aget *) || between 0x60 0x66 v (* sget *)
        || between 0x90 0xaf v (* binop *) || between 0xd8 0xe2 v (* binop/lit8 *) then DestAA
      else if between 0x52 0x58 v (* iget *) || between 0x79 0x8f v (* unop *)
        || between 0xb0 0xd7 v (* binop/2addr, binop/lit16 *) then DestA
      else NoDest
  end.

(** Implemented by a handler of its own. *)
Definition implemented (op : Opcode) : bool :=
  let v := opcode_value op in
  negb (between 0x3e 0x43 v || (v =? 0x73) || between 0x79 0x7a v || between 0xe3 0xff v).

Definition is_return (op : Opcode) : bool := between 0x0e 0x11 (opcode_value op).
Definition is_invoke (op : Opcode) : bool :=
  let v := opcode_value op in between 0x6e 0x72 v || between 0x74 0x78 v.
(** Opcodes that can deliver an exception. *)
Definition can_throw (op : Opcode) : bool :=
  let v := opcode_value op in
  between 0x1a 0x1f v || between 0x20 0x27 v || between 0x3e 0x6d v || is_invoke op
  || between 0x93 0x94 v || between 0x9e 0x9f v || between 0xb3 0xb4 v || between 0xbe 0xbf v
  || between 0xd3 0xd4 v || between 0xdb 0xdc v || (v =? 0x73) || between 0xe3 0xff v.

Section Footprint.
Context {W : Type} `{E : VmEnv W}.

(** The destination register of the instruction at [s]. *)
Definition dest_register (op : Opcode) (s : frame W) (i : Z) : Prop :=
  match dest_form op with
  | NoDest => False
  | DestA => i = INST_A (inst s)
  | DestAA => i = INST_AA (inst s)
  | Dest16 => insns code !!z (pc s + 1) = Some i
  end.

(** The targets of a branch; those of a switch are [VmSwitch]'s. *)
Definition branch_target (op : Opcode) (s : frame W) (n : Z) : Prop :=
  let v := opcode_value op in
  if between 0x32 0x3d v || (v =? 0x29) then exists x, insns code !!z (pc s + 1) = Some x /\ n = S16 x
  else if v =? 0x28 then n = S8 (INST_AA (inst s))
  else if v =? 0x2a then exists lo hi, insns code !!z (pc s + 1) = Some lo /\
    insns code !!z (pc s + 2) = Some hi /\ n = lo .| S32 (hi << 16)
  else between 0x2b 0x2c v = true.

(** Distance to the next instruction. *)
Definition next_insn (op : Opcode) : Z :=
  if implemented op then Smali.size_of_byte (opcode_value op)
  else if between 0x3e 0x43 (opcode_value op) then 2
  else if between 0x79 0x7a (opcode_value op) then 1 else 3.

Definition may_jump (op : Opcode) (s : frame W) (c : ctl) : Prop :=
  match c with
  | Finish n => n = next_insn op \/ branch_target op s n
  | GotoExceptionThrown => can_throw op = true
  | GotoReturnFromMethod => is_return op = true
  | GotoBail => is_invoke op = true
  end.

(** ** Argument buffers *)

Section Rules.
Context (D : Z -> Prop) (J : ctl -> Prop) (s0 : frame W).
Abbreviation keeps := (keeps D J s0).
Abbreviation keepsQ := (keepsQ D J s0).

Definition args_ok (n : nat) (a : list Z) : Prop := length a = n /\ Forall (in_u 64) a.

Lemma keepsQ_ret {A} (x : A) (Q : A -> Prop) : Q x -> keepsQ (ret x) Q.
Proof. by intros Hq s Hs. Qed.

Lemma keepsQ_store n args idx f :
  args_ok n args -> (forall z, in_u 64 z -> in_u 64 (f z)) -> keepsQ (store_arg args idx f) (args_ok n).
Proof.
  intros [Hl Ha] Hf s Hs. unfold store_arg, bind, opt.
  destruct (args !!z idx) as [old|] eqn:Eo; [|done]. cbn [ret].
  destruct (zset args idx (f old)) as [l|] eqn:El; [|done].
  split; [done|]. split; [by rewrite (zset_length _ _ _ _ El)|].
  eapply zset_Forall; [exact Ha| |exact El]. apply Hf. by eapply (zlookup_Forall (in_u 64)); [|exact Eo].
Qed.

Lemma keepsQ_set_argument n args c idx r :
  args_ok n args -> keepsQ (SET_ARGUMENT args c idx r) (fun p : list Z * Z => args_ok n p.1).
Proof.
  intros Ha. unfold SET_ARGUMENT.
  assert (Hst : forall (m : M W Z) (g : Z -> Z -> Z) w, keeps m -> (forall v z, in_u 64 z -> in_u 64 (g v z)) ->
    keepsQ (v <- m ;; a <- store_arg args idx (g v) ;; ret (a, w)) (fun p : list Z * Z => args_ok n p.1)).
  { intros m g w Hm Hg. eapply keepsQ_bind; [exact Hm|]. intros v _.
    eapply keepsQ_bind; [apply keepsQ_store; [exact Ha|apply Hg]|]. intros a Hok. by apply keepsQ_ret. }
  assert (Hraw : keeps (GET_RAW r)) by apply keeps_get_raw.
  assert (H32 : keeps (GET_REGISTER r)) by (apply keeps_bind; [done|intros; apply keeps_ret]).
  assert (H64 : keeps (GET_REGISTER_WIDE r)) by (apply keeps_bind; [done|intros; apply keeps_ret]).
  destruct (prim_of_char c) as [[]|]; try case_match; try (by apply keepsQ_ret);
    apply (Hst _ (fun v old => _)); try done; intros; (by apply put32_in_u) || (by apply wrap_in_u).
Qed.

Lemma keepsQ_copy_args n fuel this range ps v1 vd count args i idx :
  args_ok n args -> keepsQ (copy_args fuel this range ps v1 vd count args i idx) (args_ok n).
Proof.
  revert args i idx. induction fuel as [|f IH]; intros args i idx Ha; [by apply keepsQ_ret|].
  cbn [copy_args]. case_match; [|by apply keepsQ_ret].
  eapply (keepsQ_bind D J s0 _ (fun p : list Z * Z => args_ok n p.1)); [|intros p Hp; by apply IH].
  case_match; [by apply keepsQ_ret|]. destruct (arg_register _ _ _ _); [|by apply keepsQ_ret].
  eapply keepsQ_bind; [apply keeps_opt|]. intros c _. by apply keepsQ_set_argument.
Qed.

Lemma keeps_marshal this ps v1 vd : keeps (marshal this ps v1 vd).
Proof.
  unfold marshal. apply keeps_bind; [apply keeps_gets|]. intros range. case_match.
  - eapply keepsQ_weaken; [apply (keepsQ_copy_args (length (seqZ 0 v1)))|done].
    split; [apply length_map|]. apply Forall_map, List.Forall_forall. intros; apply wrap_64_64.
  - intros s Hs. unfold bind at 1, gets.
    assert (Ha : args_ok 5 (args_tmp s)) by apply Hs. revert s Hs Ha. intros s Hs Ha.
    refine (keepsQ_bind D J s0 _ (args_ok 5) _ _ _ _ s Hs); [by apply keepsQ_copy_args|].
    intros a [Hl Hf]. apply keeps_bind; [by apply keeps_set_args|]. intros; apply keeps_ret.
Qed.

End Rules.

End Footprint.

(** ** The proof search *)

Create HintDb keeps discriminated.

#[export] Hint Resolve keeps_ret keeps_undef keeps_gets keeps_opt keeps_call keeps_call_ keeps_fetch
  keeps_get_raw keeps_get_flags keeps_delete keeps_marshal keeps_set_range : keeps.

Lemma keeps_assoc {W A B C} D J (s0 : frame W) (m : M W A) (k : A -> M W B) (f : B -> M W C) :
  keeps D J s0 (x <- m ;; y <- k x ;; f y) -> keeps D J s0 (y <- (x <- m ;; k x) ;; f y).
Proof. intros Hk s Hs. specialize (Hk s Hs). revert Hk. unfold bind. by destruct (m s). Qed.

(** One step along the monad's structure. *)
Ltac keeps_step :=
  match goal with
  | |- keeps ?D ?J ?s0 (bind (ret ?x) ?k) => change (keeps D J s0 (k x))
  | |- keeps _ _ _ (bind (bind _ _) _) => apply keeps_assoc
  | |- context [negb (Zpos ?n =? 0)] => change (negb (Zpos n =? 0)) with true; cbv iota
  | |- context [negb (0 =? 0)] => change (negb (0 =? 0)) with false; cbv iota
  | |- keepsQ ?D ?J ?s0 ?m (fun _ => True) => change (keeps D J s0 m)
  | |- keeps _ _ _ (bind (gets inst) _) => apply keeps_bind_inst
  | |- keeps _ _ _ (bind (gets pc) _) => apply keeps_bind_pc
  | |- keeps _ _ _ (bind (gets retval) _) => eapply keepsQ_bind; [apply keepsQ_retval|intros ? ?]
  | |- keeps _ _ _ (bind (GET_RAW _) _) => eapply keepsQ_bind; [apply keepsQ_get_raw|intros ? ?]
  | |- keeps _ _ _ (bind (GET_REGISTER_AS_OBJECT _) _) => eapply keepsQ_bind; [apply keepsQ_get_raw|intros ? ?]
  | |- keeps _ _ _ (bind (FETCH _) _) => apply keeps_bind_fetch; intros ? ?
  | |- keeps _ _ _ (bind _ _) => apply keeps_bind; [|intros ?]
  | |- keeps _ _ _ (goto _) => apply keeps_goto
  | |- keeps _ _ _ (scoped _ _) => apply keeps_scoped
  | |- keeps _ _ _ (SET_REGISTER _ _) => apply keeps_SET_REGISTER
  | |- keeps _ _ _ (SET_REGISTER_WIDE _ _) => apply keeps_SET_REGISTER_WIDE
  | |- keeps _ _ _ (SET_REGISTER_INT _ _) => apply keeps_SET_REGISTER_INT
  | |- keeps _ _ _ (SET_REGISTER_FLOAT _ _) => apply keeps_SET_REGISTER_FLOAT
  | |- keeps _ _ _ (SET_REGISTER_DOUBLE _ _) => apply keeps_SET_REGISTER_DOUBLE
  | |- keeps _ _ _ (SET_REGISTER_AS_OBJECT _ _) => apply keeps_SET_REGISTER_AS_OBJECT
  | |- keeps _ _ _ (set_retval (put32 _ _)) => apply keeps_set_retval, put32_in_u; assumption
  | |- keeps _ _ _ (set_retval (U64 _)) => apply keeps_set_retval, wrap_64_64
  | |- keeps _ _ _ (set_retval 0) => apply keeps_set_retval; done
  | |- keeps _ _ _ (set_retval _) => apply keeps_set_retval; assumption
  | |- keeps _ _ _ (match ?x with _ => _ end) => destruct x eqn:?
  | |- keeps _ _ _ _ => solve [auto with keeps nocore]
  end.

(** Unfold the accessors and helpers that have no rule of their own. *)
Ltac keeps_unfold :=
  progress unfold GET_REGISTER, GET_REGISTER_INT, GET_REGISTER_FLOAT, GET_REGISTER_WIDE, GET_REGISTER_DOUBLE,
    GET_REGISTER_AS_OBJECT, GET, SET, FINISH, GOTO_exceptionThrown, GOTO_returnFromMethod, GOTO_bail,
    dvmThrowArithmeticException, dvmThrowInternalError, dvmThrowArrayIndexOutOfBoundsException,
    dvmThrowNegativeArraySizeException, dvmThrowClassCastException, dvmThrowRuntimeException,
    dvmThrowNullPointerException, throw_null, require, require_some, check_exception, divide_by_zero,
    branch_if, op_int, op_long, operands_AB, operands_AA_16, operands_16_16, fetch_u4, char_at, check_index,
    unit_at, s4FromSwitchData, store_arg in *.

Ltac keeps_auto := repeat (cbv beta zeta; keeps_step || keeps_unfold).

Section Helpers.
Context {W : Type} `{E : VmEnv W}.
Context (D : Z -> Prop) (J : ctl -> Prop) (s0 : frame W).
Abbreviation keeps := (keeps D J s0).

Lemma keeps_packed p v : keeps (dvmInterpHandlePackedSwitch p v).
Proof. unfold dvmInterpHandlePackedSwitch. keeps_auto. Qed.

Lemma keeps_sparse p v : keeps (dvmInterpHandleSparseSwitch p v).
Proof.
  assert (Hl : forall f k e lo hi, keeps (sparse_loop f k e v lo hi)).
  { induction f; intros; cbn [sparse_loop]; [apply keeps_undef|]. keeps_auto; auto. }
  unfold dvmInterpHandleSparseSwitch. keeps_auto.
Qed.

Lemma keeps_fill_data o p : keeps (dvmInterpHandleFillArrayData o p).
Proof.
  assert (Hu : forall n p, keeps (units_at p n)) by (induction n; intros; cbn [units_at]; keeps_auto; auto).
  assert (Hc : forall o p n, keeps (copy_array_data o p n)).
  { intros. unfold copy_array_data, bytes_at, memcpy_to. keeps_auto; auto. }
  unfold dvmInterpHandleFillArrayData. keeps_auto; auto.
Qed.

Lemma keeps_new_array c t n : J GotoExceptionThrown -> keeps (NEW_ARRAY c t n).
Proof. intros HJ. unfold NEW_ARRAY. keeps_auto; done. Qed.

Lemma keeps_set_element c a i r : keeps (SET_ARRAY_ELEMENT c a i r).
Proof. unfold SET_ARRAY_ELEMENT. keeps_auto. Qed.

Lemma keeps_fill_range n c a v i : keeps (fill_range n c a v i).
Proof. revert i. induction n; intros; cbn [fill_range]; keeps_auto; auto using keeps_set_element. Qed.
Lemma keeps_fill_nibbles n c a v i : keeps (fill_nibbles n c a v i).
Proof. revert v i. induction n; intros; cbn [fill_nibbles]; keeps_auto; auto using keeps_set_element. Qed.

Lemma keeps_filled : J GotoExceptionThrown -> J (Finish 3) -> keeps filledNewArray.
Proof.
  intros H1 H2. unfold filledNewArray.
  keeps_auto; auto using keeps_set_element, keeps_fill_range, keeps_fill_nibbles, keeps_new_array.
Qed.

Lemma keeps_args_written a n : keeps (args_written a n).
Proof.
  unfold args_written. cbv zeta. apply keeps_bind; [apply keeps_gets|]. intros r. apply keeps_bind; [|intros; apply keeps_ret].
  destruct r; [apply keeps_ret|]. intros s Hs. unfold bind, gets. destruct (ok_args _ (proj1 Hs)) as [Hl Hf].
  apply (keeps_set_args D J s0 (store_back (args_tmp s) (write_args a n))); [| |done]; unfold store_back.
  - rewrite length_app, !length_take. lia.
  - apply Forall_app. split; apply Forall_take; [done|]. unfold write_args. apply Forall_map, List.Forall_forall.
    intros; apply wrap_64_64.
Qed.
Lemma keeps_traced m r n a x : J GotoBail -> (forall a, keeps (x a)) -> keeps (TRACED_INVOKE m r n a x).
Proof. intros HJ Hx. unfold TRACED_INVOKE. keeps_auto; try apply keeps_args_written; done. Qed.

Lemma keeps_call_method k c t m a : keeps (call_method k c t m a).
Proof. unfold call_method. keeps_auto. Qed.

Lemma keeps_invoke_with this m t v1 vd x :
  J GotoExceptionThrown -> J GotoBail -> J (Finish 3) -> (forall c a, keeps (x c a)) ->
  keeps (invoke_with this m t v1 vd x).
Proof. intros H1 H2 H3 Hx. unfold invoke_with. keeps_auto; auto using keeps_traced. Qed.

Lemma keeps_receiver k : J GotoExceptionThrown -> (forall m t a b, keeps (k m t a b)) ->
  keeps (resolve_receiver k).
Proof. intros H1 Hk. unfold resolve_receiver. keeps_auto; auto. Qed.

Lemma keeps_invoke_target range t : J GotoExceptionThrown -> J GotoBail -> J (Finish 3) ->
  t ∈ [invokeVirtual; invokeSuper; invokeInterface; invokeDirect; invokeStatic] ->
  keeps (GOTO_invoke t range).
Proof.
  intros H1 H2 H3 Ht. unfold GOTO_invoke. keeps_auto.
  assert (Hn : forall m t c a, keeps (nonvirtual_call m t c a))
    by (intros; unfold nonvirtual_call; keeps_auto; try apply keeps_call_method).
  rewrite !elem_of_cons, elem_of_nil in Ht.
  destruct Ht as [->|[->|[->|[->|[->|[]]]]]];
    unfold invokeVirtual, invokeSuper, invokeInterface, invokeDirect, INVOKE_METHOD;
    try (apply keeps_receiver; [done|]; intros; apply keeps_invoke_with; auto using keeps_call_method).
  unfold invokeStatic, INVOKE_STATIC_METHOD. keeps_auto; auto.
  apply keeps_invoke_with; auto. intros. keeps_auto; apply keeps_call_method.
Qed.

End Helpers.

(** Unfold an opcode's handler down to the monad. *)
Ltac handler_unfold :=
  cbv [handler move_const_ops compare_ops array_ops field_ops invoke_ops unary_ops binary_ops binary_2addr_ops
    literal_ops];
  repeat progress unfold operands_AB, operands_AA_16, operands_16_16, op_OP_NOP, move_reg, move_wide, move_object, op_OP_MOVE, op_OP_MOVE_FROM16, op_OP_MOVE_16, op_OP_MOVE_WIDE,
    op_OP_MOVE_WIDE_FROM16, op_OP_MOVE_WIDE_16, op_OP_MOVE_OBJECT, op_OP_MOVE_OBJECT_FROM16, op_OP_MOVE_OBJECT_16,
    op_OP_MOVE_RESULT, op_OP_MOVE_RESULT_WIDE, op_OP_MOVE_RESULT_OBJECT, op_OP_MOVE_EXCEPTION, op_OP_RETURN_VOID,
    op_OP_RETURN, op_OP_RETURN_WIDE, op_OP_RETURN_OBJECT, op_OP_CONST_4, op_OP_CONST_16, op_OP_CONST,
    op_OP_CONST_HIGH16, op_OP_CONST_WIDE_16, op_OP_CONST_WIDE_32, op_OP_CONST_WIDE, op_OP_CONST_WIDE_HIGH16,
    op_OP_CONST_STRING, op_OP_CONST_STRING_JUMBO, op_OP_CONST_CLASS, monitor, op_OP_MONITOR_ENTER,
    op_OP_MONITOR_EXIT, op_OP_CHECK_CAST, op_OP_INSTANCE_OF, op_OP_ARRAY_LENGTH, op_OP_NEW_INSTANCE,
    op_OP_NEW_ARRAY, op_OP_FILL_ARRAY_DATA, op_OP_THROW, op_OP_GOTO, op_OP_GOTO_16, op_OP_GOTO_32, switch_op,
    op_OP_PACKED_SWITCH, op_OP_SPARSE_SWITCH, if_same, op_OP_IF_EQ, op_OP_IF_NE, HANDLE_OP_ARRAY, HANDLE_OP_AGET,
    HANDLE_OP_APUT, aget_critical, op_OP_AGET, op_OP_AGET_WIDE, op_OP_AGET_OBJECT, aget_region, op_OP_AGET_small,
    aput_critical, op_OP_APUT, op_OP_APUT_WIDE, op_OP_APUT_OBJECT, aput_region, op_OP_APUT_small, HANDLE_IFIELD_X,
    HANDLE_IGET_X, HANDLE_IPUT_X, iget, op_OP_IGET, op_OP_IGET_WIDE, op_OP_IGET_OBJECT, op_OP_IGET_small, iput,
    op_OP_IPUT, op_OP_IPUT_WIDE, op_OP_IPUT_OBJECT, op_OP_IPUT_small, HANDLE_SFIELD_X, HANDLE_SGET_X,
    HANDLE_SPUT_X, sget, op_OP_SGET, op_OP_SGET_WIDE, op_OP_SGET_OBJECT, op_OP_SGET_small, sput, op_OP_SPUT,
    op_OP_SPUT_WIDE, op_OP_SPUT_OBJECT, op_OP_SPUT_small, HANDLE_NUMCONV, HANDLE_FLOAT_TO_INT,
    HANDLE_INT_TO_SMALL, HANDLE_OP_CMPX, HANDLE_OP_IF_XX, HANDLE_OP_IF_XXZ, HANDLE_UNOP, HANDLE_UNOP_u4,
    HANDLE_OP_X_INT, HANDLE_OP_SHX_INT, HANDLE_OP_X_INT_LIT16, HANDLE_OP_X_INT_LIT8, HANDLE_OP_SHX_INT_LIT8,
    HANDLE_OP_X_INT_2ADDR, HANDLE_OP_SHX_INT_2ADDR, HANDLE_OP_X_LONG, HANDLE_OP_SHX_LONG, HANDLE_OP_X_LONG_2ADDR,
    HANDLE_OP_SHX_LONG_2ADDR, HANDLE_OP_X_FLOAT, HANDLE_OP_X_DOUBLE, HANDLE_OP_X_FLOAT_2ADDR,
    HANDLE_OP_X_DOUBLE_2ADDR, op_OP_RSUB_INT, op_OP_RSUB_INT_LIT8.

(** A side condition: the register written is the destination, the jump is
    one the instruction has. *)
Ltac footprint_side :=
  solve [ done | assumption | reflexivity | left; reflexivity | right; reflexivity
        | right; eexists; split; [eassumption|reflexivity]
        | right; do 2 eexists; split; [eassumption|split; [eassumption|reflexivity]] ].

(** What [keeps_auto] leaves of a handler. *)
Ltac handler_rest :=
  match goal with
  | |- keeps _ _ _ filledNewArray => apply keeps_filled; footprint_side
  | |- keeps _ _ _ (dvmInterpHandlePackedSwitch _ _) => apply keeps_packed
  | |- keeps _ _ _ (dvmInterpHandleSparseSwitch _ _) => apply keeps_sparse
  | |- keeps _ _ _ (dvmInterpHandleFillArrayData _ _) => apply keeps_fill_data
  | |- keeps _ _ _ (NEW_ARRAY _ _ _) => apply keeps_new_array; footprint_side
  | |- _ => footprint_side
  end.

Section Opcodes.
Context {W : Type} `{E : VmEnv W}.

Lemma handler_keeps op (s : frame W) : keeps (dest_register op s) (may_jump op s) s (handler op).
Proof.
  destruct op; handler_unfold;
    lazymatch goal with
    | |- keeps _ _ _ (GOTO_invoke filledNewArray _) => unfold GOTO_invoke; keeps_auto; handler_rest
    | |- keeps _ _ _ (GOTO_invoke _ _) =>
        apply keeps_invoke_target; [footprint_side..|rewrite !elem_of_cons; tauto]
    | |- _ => keeps_auto; handler_rest
    end.
Qed.

(** ** No handler runs off its end *)

Definition ends {A} (m : M W A) : Prop := forall s, match m s with Val _ _ => False | _ => True end.

Lemma ends_bind {A B} (m : M W A) (k : A -> M W B) : (forall x, ends (k x)) -> ends (bind m k).
Proof. intros Hk s. unfold bind. destruct (m s); [apply Hk|done..]. Qed.
Lemma ends_bind_l {A B} (m : M W A) (k : A -> M W B) : ends m -> ends (bind m k).
Proof. intros Hm s. specialize (Hm s). unfold bind. by destruct (m s). Qed.
Lemma ends_goto {A} c : ends (A := A) (goto c).
Proof. done. Qed.
Lemma ends_undef {A} : ends (A := A) undef.
Proof. done. Qed.
Lemma ends_scoped {A} ref (m : M W A) : ends m -> ends (scoped ref m).
Proof.
  intros Hm s. unfold scoped. specialize (Hm s). destruct (m s) as [|c s'|]; [done| |done].
  exact (ends_bind (if negb (ref =? 0) then call_ (DeleteLocalRef ref) else ret tt) (fun _ => goto c)
    (fun _ => ends_goto c) s').
Qed.

Ltac ends_step :=
  match goal with
  | |- ends (goto _) => apply ends_goto
  | |- ends undef => apply ends_undef
  | |- ends throw_null => apply ends_bind; intros ?; apply ends_goto
  | |- ends (scoped _ _) => apply ends_scoped
  | |- ends (bind _ _) => apply ends_bind; intros ?
  | |- ends (match ?x with _ => _ end) => destruct x
  | |- ends (branch_if _) => unfold branch_if
  | |- ends filledNewArray => unfold filledNewArray
  | |- ends (GOTO_invoke _ _) => unfold GOTO_invoke
  | |- ends invokeVirtual => unfold invokeVirtual
  | |- ends invokeSuper => unfold invokeSuper
  | |- ends invokeInterface => unfold invokeInterface
  | |- ends invokeDirect => unfold invokeDirect
  | |- ends invokeStatic => unfold invokeStatic
  | |- ends (resolve_receiver _) => unfold resolve_receiver
  | |- ends (INVOKE_METHOD _ _ _ _ _) => unfold INVOKE_METHOD
  | |- ends (INVOKE_STATIC_METHOD _ _ _ _) => unfold INVOKE_STATIC_METHOD
  | |- ends (invoke_with _ _ _ _ _ _) => unfold invoke_with
  | |- ends _ => progress unfold FINISH, GOTO_exceptionThrown, GOTO_returnFromMethod, GOTO_bail
  end.

Lemma handler_ends op : ends (handler op).
Proof. destruct op; handler_unfold; repeat (cbv beta zeta; ends_step). Qed.

(** C2: every handler, on every well-formed frame and whatever the platform
    does: it ends in a jump, the frame is again well-formed and as large,
    no register but the one the instruction's format names as destination is
    changed, and the jump is to the next instruction - at the distance in
    the disassembler's length table -, to the branch target, to exception
    delivery for the opcodes that can throw, or out of the method for a
    return or a traced call. *)
Theorem handler_footprint op (s : frame W) : frame_ok s ->
  match handler op s with
  | Val _ _ => False
  | Jump c s' => frame_ok s' /\ same_outside (dest_register op s) s s' /\ may_jump op s c
  | Undef => True
  end.
Proof.
  intros Hs. pose proof (handler_ends op s) as He.
  assert (Hg : good (dest_register op s) s s) by (split; [done|by split]).
  pose proof (handler_keeps op s s Hg) as Hk.
  destruct (handler op s); simpl in *; [done| |done]. destruct Hk as [[? ?] ?]. done.
Qed.

(** ** Whole runs *)

Definition safe {A} (m : M W A) : Prop := forall s, frame_ok s ->
  match m s with
  | Val _ s' | Jump _ s' => frame_ok s' /\ length (fp s') = length (fp s)
  | Undef => True
  end.

Lemma safe_keeps {A} (m : M W A) :
  (forall s0, keeps (fun _ => True) (fun _ => True) s0 m) -> safe m.
Proof.
  intros Hm s Hs. assert (Hg : good (fun _ => True) s s) by (split; [done|by split]). specialize (Hm s s Hg).
  destruct (m s); simpl in *; [|..|done]; destruct Hm as [[? []] _]; by split.
Qed.

Lemma safe_bind {A B} (m : M W A) (k : A -> M W B) : safe m -> (forall x, safe (k x)) -> safe (bind m k).
Proof.
  intros Hm Hk s Hs. specialize (Hm s Hs). unfold bind. destruct (m s) as [x s1| |]; [|done..].
  destruct Hm as [H1 H2]. specialize (Hk x s1 H1). destruct (k x s1); [..|done]; destruct Hk; split; congruence.
Qed.

Lemma safe_scoped {A} ref (m : M W A) : safe m -> safe (scoped ref m).
Proof.
  intros Hm s Hs. unfold scoped. specialize (Hm s Hs).
  assert (Hdel : safe (if negb (ref =? 0) then call_ (DeleteLocalRef ref) else ret tt))
    by (apply safe_keeps; intros s0; destruct (negb _); [apply keeps_call_|apply keeps_ret]).
  destruct (m s) as [x s1|c s1|]; [..|done]; destruct Hm as [H1 H2].
  - pose proof (safe_bind (B := A) _ (fun _ => ret x) Hdel (fun _ _ Hs => conj Hs eq_refl) s1 H1) as H.
    destruct (bind _ _ s1); [..|done]; destruct H; split; congruence.
  - pose proof (safe_bind (B := A) _ (fun _ => goto c) Hdel (fun _ _ Hs => conj Hs eq_refl) s1 H1) as H.
    destruct (bind _ _ s1); [..|done]; destruct H; split; congruence.
Qed.

Lemma safe_set_pc p : safe (set_pc p).
Proof. by intros s []. Qed.
Lemma safe_set_inst p : safe (set_inst p).
Proof. by intros s []. Qed.
Lemma safe_set_tctx p : safe (set_tctx p).
Proof. by intros s []. Qed.

Lemma safe_handler op : safe (handler op).
Proof.
  intros s Hs. assert (Hg : good (dest_register op s) s s) by (split; [done|by split]).
  pose proof (handler_keeps op s s Hg) as Hk.
  destruct (handler op s); simpl in *; [..|done]; destruct Hk as [[? []] _]; by split.
Qed.

Lemma safe_finish off : safe (finish off).
Proof.
  unfold finish, trace_insn.
  repeat first
    [ apply safe_set_pc | apply safe_set_inst | apply safe_set_tctx | apply safe_handler
    | apply safe_keeps; intros ?; solve [keeps_auto; done]
    | apply safe_bind; [|intros ?] | case_match ].
Qed.

Lemma safe_catch_block p x h : safe (dvmFindCatchBlock p x h).
Proof.
  assert (Hl : forall f hd it x, safe (catch_loop f hd it x)).
  { induction f as [|f IH]; intros; cbn [catch_loop]; [by intros ? ?|].
    repeat first [ apply IH | apply safe_scoped | apply safe_keeps; intros ?; solve [keeps_auto; done]
      | apply safe_bind; [|intros ?] | case_match ]. }
  unfold dvmFindCatchBlock, findCatchInMethod.
  repeat first [ apply Hl | apply safe_keeps; intros ?; solve [keeps_auto; done]
    | apply safe_bind; [|intros ?] | case_match ].
Qed.

Lemma safe_exception : safe exceptionThrown.
Proof.
  unfold exceptionThrown.
  repeat first [ apply safe_catch_block | apply safe_set_pc | apply safe_scoped
    | apply safe_keeps; intros ?; solve [keeps_auto; done] | apply safe_bind; [|intros ?] | case_match ].
Qed.

(** C4: an entire run, through branches, exceptions and tracer callbacks,
    keeps the frame well-formed and the register file its size, and what
    [vmInterpret2] returns is a 64-bit [jvalue]. *)
Theorem vmInterpret2_safe fuel regs flags r0 a0 b0 fctx (w : W) :
  frame_ok (MkFrame 0 0 regs flags r0 a0 b0 fctx w) ->
  match vmInterpret2 fuel regs flags r0 a0 b0 fctx w with
  | Returned v s => in_u 64 v /\ frame_ok s /\ length (fp s) = length regs
  | Undefined | OutOfFuel => True
  end.
Proof.
  unfold vmInterpret2. generalize (Finish 0). set (s := MkFrame _ _ _ _ _ _ _ _ _).
  assert (Hlen : length (fp s) = length regs) by done. clearbody s. intros c Hs. revert c s Hs Hlen.
  induction fuel as [|f IH]; intros c s Hs Hlen; destruct c; simpl; try done;
    try (split_and!; [apply Hs|done|done]).
  - pose proof (safe_finish offset s Hs) as H. destruct (finish offset s); try done.
    apply IH; [apply H|]. rewrite <- Hlen. apply H.
  - pose proof (safe_exception s Hs) as H. destruct (exceptionThrown s); try done.
    apply IH; [apply H|]. rewrite <- Hlen. apply H.
Qed.

End Opcodes.

End VmFootprint.
