(* ===== verification/VmIsa.v ===== *)
(** * The register instructions, as the Dalvik documentation has them

    An abstract instruction set for the opcodes that touch only registers:
    moves, constants, arithmetic, conversions, comparisons, branches.  It
    is written from the Dalvik bytecode format - operands by numeric field,
    operations by their Java meaning on mathematical integers - and not from
    the interpreter's macros.  [VmRefine] proves the handlers implement it. *)
From Stdlib Require Import Floats.SpecFloat.
From S2P Require Import Prelude CFloat DexOpcodes VmEnv.
Import CFloat DexOpcodes VmEnv.

Module VmIsa.

(** ** Java arithmetic *)

Inductive iop := Add | Sub | Rsub | Mul | Div | Rem | And | Or | Xor | Shl | Shr | Ushr.

(** [a] and [b] are signed integers of [w] bits (the shift distance may be
    narrower); [None] is ArithmeticException. *)
Definition java_int (w : Z) (o : iop) (a b : Z) : option Z :=
  match o with
  | Add => Some (swrap w (a + b))
  | Sub => Some (swrap w (a - b))
  | Rsub => Some (swrap w (b - a))
  | Mul => Some (swrap w (a * b))
  | Div => if b =? 0 then None else Some (swrap w (Z.quot a b))
  | Rem => if b =? 0 then None else Some (Z.rem a b)
  | And => Some (Z.land a b)
  | Or => Some (Z.lor a b)
  | Xor => Some (Z.lxor a b)
  | Shl => Some (swrap w (a * 2 ^ (b mod w)))
  | Shr => Some (a / 2 ^ (b mod w))
  | Ushr => Some (swrap w (wrap w a / 2 ^ (b mod w)))
  end.

Inductive fop := FAdd | FSub | FMul | FDiv | FRem.
Definition java_float (t : fty) (o : fop) : Z -> Z -> Z :=
  match o with FAdd => fadd t | FSub => fsub t | FMul => fmul t | FDiv => fdiv t | FRem => frem t end.

(** Narrowing of a floating value to [w] signed bits (JLS 5.1.3): NaN is 0,
    the rest is rounded toward zero and clamped. *)
Definition clamp (w z : Z) : Z := Z.max (- 2 ^ (w - 1)) (Z.min (2 ^ (w - 1) - 1) z).
Definition java_d2i (t : fty) (w bits : Z) : Z :=
  match dec t bits with
  | S754_nan => 0
  | S754_infinity true => - 2 ^ (w - 1)
  | S754_infinity false => 2 ^ (w - 1) - 1
  | x => clamp w (trunc (fprec t) (femax t) x)
  end.

(** Three-way comparison; [bias] is the answer for unordered operands. *)
Definition java_cmp (c : option comparison) (bias : Z) : Z :=
  match c with Some Eq => 0 | Some Lt => -1 | Some Gt => 1 | None => bias end.

Inductive test := TEq | TNe | TLt | TGe | TGt | TLe.
Definition java_test (t : test) (a b : Z) : bool :=
  match t with
  | TEq => a =? b | TNe => negb (a =? b) | TLt => a <? b
  | TGe => b <=? a | TGt => b <? a | TLe => a <=? b
  end.

(** ** Effects *)

(** How a result is stored: a 32-bit value clears the upper half of the
    64-bit cell, a [float] leaves it. *)
Inductive cellkind := KInt | KFloat | KLong.
Definition cell (k : cellkind) (old v : Z) : Z :=
  match k with
  | KInt => v mod 2 ^ 32
  | KFloat => old / 2 ^ 32 * 2 ^ 32 + v mod 2 ^ 32
  | KLong => v mod 2 ^ 64
  end.

Inductive effect :=
  | Write (k : cellkind) (dst v len : Z)
  | ThrowArithmetic
  | Branch (offset : Z).

Section Isa.
Context {W : Type} `{E : VmEnv W}.
Implicit Type s : frame W.

Definition with_world s (w : W) : frame W :=
  MkFrame (pc s) (inst s) (fp s) (fp_flags s) (retval s) (args_tmp s) (methodCallRange s) (tctx s) w.

(** Storing releases the reference the register held. *)
Definition write s (dst x flag : Z) (old f : Z) : frame W :=
  MkFrame (pc s) (inst s) (<[Z.to_nat dst := x]> (fp s)) (<[Z.to_nat dst := flag]> (fp_flags s))
    (retval s) (args_tmp s) (methodCallRange s) (tctx s)
    (if f =? 0 then world s else DeleteLocalRef old (world s)).

Definition apply_effect (e : effect) s : res W unit :=
  match e with
  | Branch n => Jump (Finish n) s
  | ThrowArithmetic =>
      Jump GotoExceptionThrown
        (with_world s (ThrowNew (exArithmeticException gVm) (Some (str "divide by zero")) (world s)))
  | Write k dst v n =>
      match fp s !!z dst, fp_flags s !!z dst with
      | Some old, Some f => Jump (Finish n) (write s dst (cell k old v) 0 old f)
      | _, _ => Undef
      end
  end.

(** ** Operands *)

Definition unit_of s (k : Z) : option Z := insns code !!z (pc s + k).
Definition int_reg s (i : Z) : option Z := S32 <$> fp s !!z i.
Definition long_reg s (i : Z) : option Z := S64 <$> fp s !!z i.
Definition float_reg s (i : Z) : option Z := U32 <$> fp s !!z i.
Definition double_reg s (i : Z) : option Z := fp s !!z i.

(** Fields of the first unit: A, B, AA. *)
Definition fA (i : Z) : Z := i / 256 mod 16.
Definition fB (i : Z) : Z := i / 4096.
Definition fAA (i : Z) : Z := i / 256.

(** The formats: destination, first source, second source, length. *)
Definition form_12x s {A} (k : Z -> Z -> option A) : option A := k (fA (inst s)) (fB (inst s)).
Definition form_23x s {A} (k : Z -> Z -> Z -> option A) : option A :=
  u ← unit_of s 1; k (fAA (inst s)) (u mod 256) (u / 256).

(** ** Instructions by opcode number *)

Definition iops : list iop := [Add; Sub; Mul; Div; Rem; And; Or; Xor; Shl; Shr; Ushr].
Definition lit_iops : list iop := [Add; Rsub; Mul; Div; Rem; And; Or; Xor; Shl; Shr; Ushr].
Definition fops : list fop := [FAdd; FSub; FMul; FDiv; FRem].
Definition tests : list test := [TEq; TNe; TLt; TGe; TGt; TLe].

Definition int_result (k : cellkind) (r : option Z) (dst len : Z) : effect :=
  match r with Some v => Write k dst v len | None => ThrowArithmetic end.

(** The shift distance of a [long] is an [int]. *)
Definition second_long (o : iop) s (b : Z) : option Z :=
  match o with Shl | Shr | Ushr => int_reg s b | _ => long_reg s b end.

(** Operation [k] of the block 0x90-0xaf, on registers. *)
Definition binop s (k dst a b len : Z) : option effect :=
  if k <? 11 then
    o ← iops !!z k; x ← int_reg s a; y ← int_reg s b; Some (int_result KInt (java_int 32 o x y) dst len)
  else if k <? 22 then
    o ← iops !!z (k - 11); x ← long_reg s a; y ← second_long o s b;
    Some (int_result KLong (java_int 64 o x y) dst len)
  else if k <? 27 then
    o ← fops !!z (k - 22); x ← float_reg s a; y ← float_reg s b;
    Some (Write KFloat dst (java_float F32 o x y) len)
  else
    o ← fops !!z (k - 27); x ← double_reg s a; y ← double_reg s b;
    Some (Write KLong dst (java_float F64 o x y) len).

(** Unary operation [k] of the block 0x7b-0x8f. *)
Definition unop s (k dst a : Z) : option effect :=
  match k with
  | 0 => x ← int_reg s a; Some (Write KInt dst (- x) 1)
  | 1 => x ← int_reg s a; Some (Write KInt dst (- x - 1) 1)
  | 2 => x ← long_reg s a; Some (Write KLong dst (- x) 1)
  | 3 => x ← long_reg s a; Some (Write KLong dst (- x - 1) 1)
  | 4 => x ← float_reg s a; Some (Write KFloat dst (fneg F32 x) 1)
  | 5 => x ← double_reg s a; Some (Write KLong dst (fneg F64 x) 1)
  | 6 => x ← int_reg s a; Some (Write KLong dst x 1)
  | 7 => x ← int_reg s a; Some (Write KFloat dst (int_to F32 x) 1)
  | 8 => x ← int_reg s a; Some (Write KLong dst (int_to F64 x) 1)
  | 9 => x ← long_reg s a; Some (Write KInt dst (swrap 32 x) 1)
  | 10 => x ← long_reg s a; Some (Write KFloat dst (int_to F32 x) 1)
  | 11 => x ← long_reg s a; Some (Write KLong dst (int_to F64 x) 1)
  | 12 => x ← float_reg s a; Some (Write KInt dst (java_d2i F32 32 x) 1)
  | 13 => x ← float_reg s a; Some (Write KLong dst (java_d2i F32 64 x) 1)
  | 14 => x ← float_reg s a; Some (Write KLong dst (fconv F32 F64 x) 1)
  | 15 => x ← double_reg s a; Some (Write KInt dst (java_d2i F64 32 x) 1)
  | 16 => x ← double_reg s a; Some (Write KLong dst (java_d2i F64 64 x) 1)
  | 17 => x ← double_reg s a; Some (Write KFloat dst (fconv F64 F32 x) 1)
  | 18 => x ← int_reg s a; Some (Write KInt dst (swrap 8 x) 1)
  | 19 => x ← int_reg s a; Some (Write KInt dst (wrap 16 x) 1)
  | 20 => x ← int_reg s a; Some (Write KInt dst (swrap 16 x) 1)
  | _ => None
  end.

(** Comparison [k] of the block 0x2d-0x31. *)
Definition compare s (k dst a b : Z) : option effect :=
  match k with
  | 0 | 1 =>
      x ← float_reg s a; y ← float_reg s b;
      Some (Write KInt dst (java_cmp (SFcompare (dec F32 x) (dec F32 y)) (2 * k - 1)) 2)
  | 2 | 3 =>
      x ← double_reg s a; y ← double_reg s b;
      Some (Write KInt dst (java_cmp (SFcompare (dec F64 x) (dec F64 y)) (2 * k - 5)) 2)
  | _ => x ← long_reg s a; y ← long_reg s b; Some (Write KInt dst (java_cmp (Some (x ?= y)) 0) 2)
  end.

Definition branch (taken : bool) (offset : Z) : effect := Branch (if taken then offset else 2).

(** Moves and constants, by opcode number. *)
Definition move_const s (v : Z) : option effect :=
  let i := inst s in
  match v with
  | 0x01 => x ← int_reg s (fB i); Some (Write KInt (fA i) x 1)
  | 0x02 => b ← unit_of s 1; x ← int_reg s b; Some (Write KInt (fAA i) x 2)
  | 0x03 => a ← unit_of s 1; b ← unit_of s 2; x ← int_reg s b; Some (Write KInt a x 3)
  | 0x04 => x ← long_reg s (fB i); Some (Write KLong (fA i) x 1)
  | 0x05 => b ← unit_of s 1; x ← long_reg s b; Some (Write KLong (fAA i) x 2)
  | 0x06 => a ← unit_of s 1; b ← unit_of s 2; x ← long_reg s b; Some (Write KLong a x 3)
  | 0x0a => Some (Write KInt (fAA i) (retval s) 1)
  | 0x0b => Some (Write KLong (fAA i) (retval s) 1)
  | 0x12 => Some (Write KInt (fA i) (swrap 4 (fB i)) 1)
  | 0x13 => u ← unit_of s 1; Some (Write KInt (fAA i) (swrap 16 u) 2)
  | 0x14 => lo ← unit_of s 1; hi ← unit_of s 2; Some (Write KInt (fAA i) (lo + hi * 2 ^ 16) 3)
  | 0x15 => u ← unit_of s 1; Some (Write KInt (fAA i) (u * 2 ^ 16) 2)
  | 0x16 => u ← unit_of s 1; Some (Write KLong (fAA i) (swrap 16 u) 2)
  | 0x17 => lo ← unit_of s 1; hi ← unit_of s 2; Some (Write KLong (fAA i) (swrap 32 (lo + hi * 2 ^ 16)) 3)
  | 0x18 =>
      a ← unit_of s 1; b ← unit_of s 2; c ← unit_of s 3; d ← unit_of s 4;
      Some (Write KLong (fAA i) (a + b * 2 ^ 16 + c * 2 ^ 32 + d * 2 ^ 48) 5)
  | 0x19 => u ← unit_of s 1; Some (Write KLong (fAA i) (u * 2 ^ 48) 2)
  | _ => None
  end.

Definition within (lo hi v : Z) : bool := (lo <=? v) && (v <=? hi).

(** The effect of the instruction at [s], whose first unit is [inst s]. *)
Definition isa (op : Opcode) s : option effect :=
  let v := opcode_value op in
  let i := inst s in
  if v =? 0 then Some (Branch 1)
  else if within 0x01 0x19 v then move_const s v
  else if v =? 0x28 then Some (Branch (swrap 8 (fAA i)))
  else if v =? 0x29 then u ← unit_of s 1; Some (Branch (swrap 16 u))
  else if v =? 0x2a then lo ← unit_of s 1; hi ← unit_of s 2; Some (Branch (swrap 32 (lo + hi * 2 ^ 16)))
  else if within 0x2d 0x31 v then form_23x s (compare s (v - 0x2d))
  else if within 0x34 0x37 v then
    t ← tests !!z (v - 0x32); u ← unit_of s 1; x ← int_reg s (fA i); y ← int_reg s (fB i);
    Some (branch (java_test t x y) (swrap 16 u))
  else if within 0x38 0x3d v then
    t ← tests !!z (v - 0x38); u ← unit_of s 1; x ← int_reg s (fAA i);
    Some (branch (java_test t x 0) (swrap 16 u))
  else if within 0x7b 0x8f v then form_12x s (unop s (v - 0x7b))
  else if within 0x90 0xaf v then form_23x s (fun dst a b => binop s (v - 0x90) dst a b 2)
  else if within 0xb0 0xcf v then form_12x s (fun dst b => binop s (v - 0xb0) dst dst b 1)
  else if within 0xd0 0xd7 v then
    o ← lit_iops !!z (v - 0xd0); u ← unit_of s 1; x ← int_reg s (fB i);
    Some (int_result KInt (java_int 32 o x (swrap 16 u)) (fA i) 2)
  else if within 0xd8 0xe2 v then
    o ← lit_iops !!z (v - 0xd8); u ← unit_of s 1; x ← int_reg s (u mod 256);
    Some (int_result KInt (java_int 32 o x (swrap 8 (u / 256))) (fAA i) 2)
  else None.

End Isa.

End VmIsa.
