(* ===== verification/VmRefine.v ===== *)
(** * The handlers implement the register instructions

    Each macro of engine/nmmvm/vm/InterpC-portable.cpp is evaluated once, in
    closed form; the table of opcodes then follows case by case.  The final
    theorem says that for every instruction [VmIsa] gives an effect for, the
    handler has exactly that effect. *)
From Stdlib Require Import Floats.SpecFloat.
From S2P Require Import Prelude CFloat DexOpcodes VmEnv VmSwitch VmArith VmObject VmInvoke VmInterp VmFrame VmIsa.
Import CFloat DexOpcodes VmEnv VmSwitch VmArith VmObject VmInvoke VmInterp VmFrame VmIsa.
Local Open Scope cint_scope.
Local Open Scope vm_scope.

Module VmRefine.

(** ** Arithmetic *)

Lemma wrap_cong2 (f : Z -> Z -> Z) w :
  (forall a b, wrap w (f (wrap w a) (wrap w b)) = wrap w (f a b)) ->
  forall a b a' b', wrap w a = wrap w a' -> wrap w b = wrap w b' -> wrap w (f a b) = wrap w (f a' b').
Proof. intros Hf a b a' b' Ha Hb. by rewrite <- (Hf a b), Ha, Hb, Hf. Qed.

Lemma wrap_add2 w a b : wrap w (wrap w a + wrap w b) = wrap w (a + b).
Proof. by rewrite wrap_add_l, wrap_add_r. Qed.
Lemma wrap_sub2 w a b : wrap w (wrap w a - wrap w b) = wrap w (a - b).
Proof. by rewrite wrap_sub_l, wrap_sub_r. Qed.
Lemma wrap_mul2 w a b : wrap w (wrap w a * wrap w b) = wrap w (a * b).
Proof. by rewrite wrap_mul_l, wrap_mul_r. Qed.
Lemma wrap_land2 w a b : 0 <= w -> wrap w (wrap w a & wrap w b) = wrap w (a & b).
Proof. intros. zbits. Qed.
Lemma wrap_lor2 w a b : 0 <= w -> wrap w (wrap w a .| wrap w b) = wrap w (a .| b).
Proof. intros. zbits. Qed.
Lemma wrap_lxor2 w a b : 0 <= w -> wrap w (wrap w a .^ wrap w b) = wrap w (a .^ b).
Proof. intros. zbits. Qed.

(** An operator of the plain (unchecked) macros and the Java operation. *)
Definition plain_op (o : iop) : option (Z -> Z -> Z) :=
  match o with
  | Add => Some Z.add | Sub => Some Z.sub | Mul => Some Z.mul
  | And => Some Z.land | Or => Some Z.lor | Xor => Some Z.lxor | _ => None
  end.

Lemma plain_op_java w o f a b a' b' : 0 < w -> plain_op o = Some f ->
  wrap w a = wrap w a' -> wrap w b = wrap w b' ->
  exists v, java_int w o a b = Some v /\ wrap w v = wrap w (f a' b').
Proof.
  intros Hw Hf Ha Hb. destruct o; simplify_eq/=; eexists; (split; [reflexivity|]); rewrite ?wrap_swrap.
  all: apply wrap_cong2; [intros|done|done];
    first [apply wrap_add2|apply wrap_sub2|apply wrap_mul2|apply wrap_land2|apply wrap_lor2|apply wrap_lxor2]; lia.
Qed.

(** Division and remainder never overflow once the macro has checked. *)
Definition chk_op (o : iop) : option (Z * (Z -> Z -> Z)) :=
  match o with Div => Some (1, Z.quot) | Rem => Some (2, Z.rem) | _ => None end.

Lemma quot_m1 a : Z.quot a (-1) = - a.
Proof. change (-1) with (Z.opp 1). by rewrite Z.quot_opp_r, Z.quot_1_r by lia. Qed.
Lemma rem_m1 a : Z.rem a (-1) = 0.
Proof. change (-1) with (Z.opp 1). by rewrite Z.rem_opp_r, Z.rem_1_r by lia. Qed.

Lemma quot_in_s w a b : 0 < w -> in_s w a -> b <> 0 -> a <> - 2 ^ (w - 1) \/ b <> -1 -> in_s w (Z.quot a b).
Proof.
  unfold in_s. intros Hw Ha Hb Hex. pose proof (pow2_pos (w - 1) ltac:(lia)).
  pose proof (Z.quot_abs a b Hb) as Hq. pose proof (Z.quot_rem' a b) as Hr.
  destruct (decide (b = -1)) as [->|]; [rewrite quot_m1; lia|].
  destruct (decide (b = 1)) as [->|]; [rewrite Z.quot_1_r; lia|].
  assert (Z.abs (Z.quot a b) <= Z.abs a / 2).
  { rewrite <- Hq, Z.quot_div_nonneg by lia. apply Z.div_le_compat_l; lia. }
  pose proof (Z.div_mod (Z.abs a) 2). pose proof (Z.mod_pos_bound (Z.abs a) 2). lia.
Qed.

Lemma checked_div_java w o c f a b : 0 < w -> in_s w a -> in_s w b -> chk_op o = Some (c, f) ->
  checked_div w f c a b = java_int w o a b.
Proof.
  intros Hw Ha Hb Ho. unfold checked_div.
  assert (Hmin : (wrap w a =? 2 ^ (w - 1)) = (a =? - 2 ^ (w - 1))).
  { pose proof (half_pow2 w Hw). unfold in_s in Ha.
    destruct (Z.eqb_spec a (- 2 ^ (w - 1))) as [->|Hne].
    - apply Z.eqb_eq. symmetry. apply (Z.mod_unique_pos _ _ (-1)); lia.
    - apply Z.eqb_neq. intros Heq. apply Hne. unfold wrap in Heq.
      pose proof (Z.div_mod a (2 ^ w) ltac:(lia)). assert (a / 2 ^ w = -1 \/ a / 2 ^ w = 0) as [E|E].
      { assert (-1 <= a / 2 ^ w) by (apply Z.div_le_lower_bound; lia).
        assert (a / 2 ^ w < 1) by (apply Z.div_lt_upper_bound; lia). lia. }
      + nia.
      + nia. }
  rewrite Hmin.
  destruct o; simplify_eq/=; destruct (Z.eqb_spec b 0) as [|Hb0]; try done;
    destruct (Z.eqb_spec a (- 2 ^ (w - 1))) as [->|], (Z.eqb_spec b (-1)) as [->|]; cbn [andb Z.eqb Pos.eqb]; f_equal.
  - rewrite quot_m1. unfold swrap.
    pose proof (half_pow2 w Hw). rewrite Z.opp_involutive.
    replace (2 ^ (w - 1) + 2 ^ (w - 1)) with (2 ^ w) by lia. rewrite Z.mod_same by lia. lia.
  - symmetry. apply swrap_small; [done|]. apply quot_in_s; auto.
  - symmetry. apply swrap_small; [done|]. apply quot_in_s; auto.
  - symmetry. apply swrap_small; [done|]. apply quot_in_s; auto.
  - by rewrite rem_m1.
Qed.

(** Shifts: the macros' cast and operator. *)
Definition shift_op (w : Z) (o : iop) : option ((Z -> Z) * (Z -> Z -> Z)) :=
  match o with
  | Shl => Some (swrap w, Z.shiftl) | Shr => Some (swrap w, Z.shiftr) | Ushr => Some (wrap w, Z.shiftr)
  | _ => None
  end.

Lemma shift_op_java w k o cast f a b b' : 0 <= k -> w = 2 ^ k -> shift_op w o = Some (cast, f) ->
  wrap k b = b' mod w ->
  exists v, java_int w o (swrap w a) b' = Some v /\ wrap w v = wrap w (f (cast a) (wrap k b)).
Proof.
  intros Hk Hw Ho Hb. assert (0 < w) by (rewrite Hw; by apply pow2_pos).
  pose proof (Z.mod_pos_bound b' w ltac:(lia)).
  destruct o; try discriminate; injection Ho as <- <-; cbn [java_int];
    eexists; (split; [reflexivity|]); rewrite ?wrap_swrap, Hb.
  - by rewrite Z.shiftl_mul_pow2 by lia.
  - by rewrite Z.shiftr_div_pow2 by lia.
  - by rewrite Z.shiftr_div_pow2 by lia.
Qed.

(** ** Float to integer *)

(** What the conversion needs of the two limits: in units of [2^emin] the
    lower one is exact and the upper one at most one too large. *)
Definition limits_ok (t : fty) (w : Z) : Prop :=
  let K := 2 ^ (- emin (fprec t) (femax t)) in
  let lo := dec t (int_to t (- 2 ^ (w - 1))) in
  let hi := dec t (int_to t (2 ^ (w - 1) - 1)) in
  is_finite lo = true /\ is_finite hi = true /\
  scaled (fprec t) (femax t) lo = - 2 ^ (w - 1) * K /\
  exists M, scaled (fprec t) (femax t) hi = M * K /\ 2 ^ (w - 1) - 1 <= M <= 2 ^ (w - 1).

Lemma limits_all t w : w = 32 \/ w = 64 -> limits_ok t w.
Proof.
  intros [-> | ->]; destruct t; unfold limits_ok; cbv zeta;
    (split; [vm_compute; reflexivity|]); (split; [vm_compute; reflexivity|]);
    (split; [vm_compute; reflexivity|]).
  - exists (2 ^ 31). split; [vm_compute; reflexivity|lia].
  - exists (2 ^ 31 - 1). split; [vm_compute; reflexivity|lia].
  - exists (2 ^ 63). split; [vm_compute; reflexivity|lia].
  - exists (2 ^ 63). split; [vm_compute; reflexivity|lia].
Qed.

Lemma SFleb_scaled t x y :
  canonical (fprec t) (femax t) x -> canonical (fprec t) (femax t) y -> is_finite x = true -> is_finite y = true ->
  SFleb x y = (scaled (fprec t) (femax t) x <=? scaled (fprec t) (femax t) y).
Proof.
  intros. unfold SFleb. rewrite (SFcompare_scaled t) by done. unfold Z.leb. by case_match.
Qed.

Lemma SFeqb_refl x : x <> S754_nan -> SFeqb x x = true.
Proof.
  intros Hx. unfold SFeqb. destruct x as [s|[]| |[] m e]; simpl; try done;
    by rewrite Z.compare_refl, Pos.compare_cont_refl.
Qed.

Lemma quot_bounds S K : 0 < K ->
  (forall M, M * K <= S -> 0 <= M -> M <= Z.quot S K) /\ (forall M, S <= - M * K -> 0 <= M -> Z.quot S K <= - M) /\
  (forall M, S < M * K -> 0 < M -> Z.quot S K < M) /\ (forall M, - M * K < S -> 0 <= M -> - M <= Z.quot S K).
Proof.
  intros HK. pose proof (Z.quot_rem' S K) as Hq. pose proof (Z.rem_bound_pos S K) as H1.
  destruct (Z.le_ge_cases 0 S) as [Hs|Hs].
  - specialize (H1 Hs HK). split_and!; intros; nia.
  - pose proof (Z.rem_bound_pos (- S) K ltac:(lia) HK) as H2. rewrite Z.rem_opp_l in H2 by lia.
    split_and!; intros; nia.
Qed.

Lemma float_to_int_java t w bits : w = 32 \/ w = 64 -> float_to_int t w bits = java_d2i t w bits.
Proof.
  intros Hw. destruct (limits_all t w Hw) as (Flo & Fhi & Slo & M & Shi & HM).
  assert (Emin : swrap w (1 << (w - 1)) = - 2 ^ (w - 1)) by (by destruct Hw as [-> | ->]).
  unfold float_to_int, java_d2i, ftrunc, fle, feq. rewrite Emin.
  replace (Z.lnot (- 2 ^ (w - 1))) with (2 ^ (w - 1) - 1) by (unfold Z.lnot; lia).
  pose proof (dec_canonical t (int_to t (- 2 ^ (w - 1)))) as Clo.
  pose proof (dec_canonical t (int_to t (2 ^ (w - 1) - 1))) as Chi.
  pose proof (dec_canonical t bits) as Cx.
  set (lo := dec t (int_to t (- 2 ^ (w - 1)))) in *. set (hi := dec t (int_to t (2 ^ (w - 1) - 1))) in *.
  set (x := dec t bits) in *. clearbody lo hi x.
  assert (HK : 0 < 2 ^ (- emin (fprec t) (femax t))).
  { apply pow2_pos. pose proof (fty_ok_all t) as (_ & _ & _ & _ & _ & ?). lia. }
  assert (Hp : 2 <= 2 ^ (w - 1)) by (destruct Hw as [-> | ->]; lia).
  destruct (is_finite x) eqn:Fx.
  - rewrite !(SFleb_scaled t), Slo, Shi by done. rewrite SFeqb_refl by (by destruct x).
    transitivity (clamp w (trunc (fprec t) (femax t) x)); [|by destruct x].
    unfold trunc, clamp. set (S := scaled _ _ x). set (K := 2 ^ (- _)) in *.
    destruct (quot_bounds S K HK) as (B1 & B2 & B3 & B4). cbn [negb].
    destruct (Z.leb_spec (M * K) S) as [H1|H1]; [specialize (B1 M H1); lia|].
    destruct (Z.leb_spec S (- 2 ^ (w - 1) * K)) as [H2|H2]; [specialize (B2 _ H2); lia|].
    specialize (B3 M H1 ltac:(lia)). specialize (B4 (2 ^ (w - 1)) H2 ltac:(lia)). lia.
  - destruct x as [|[]| |]; try done; destruct lo as [| | |[]], hi as [| | |[]]; done.
Qed.

(** ** Evaluation of the register macros *)
Section Eval.
Context {W : Type} `{E : VmEnv W}.
Implicit Type s : frame W.

(** [v] reads [x] from the registers of [s], whatever the world. *)
Definition reads (v : M W Z) s (x : Z) : Prop := forall w, v (with_world s w) = Val x (with_world s w).

Lemma reads_ret x s : reads (ret x) s x.
Proof. done. Qed.
Lemma reads_bind (v : M W Z) k s x y : reads v s x -> reads (k x) s y -> reads (bind v k) s y.
Proof. intros Hv Hk w. unfold bind. by rewrite Hv. Qed.
Lemma reads_now (v : M W Z) s x : reads v s x -> v s = Val x s.
Proof. intros Hv. specialize (Hv (world s)). by destruct s. Qed.
Lemma reads_gets f s x : (forall w, f (with_world s w) = x) -> reads (gets f) s x.
Proof. intros Hf w. unfold gets. by rewrite Hf. Qed.

Lemma reads_raw i s r : fp s !!z i = Some r -> reads (GET_RAW i) s r.
Proof. intros Hr w. unfold GET_RAW, bind, gets, opt. simpl. by rewrite Hr. Qed.

(** What each accessor reads. *)
Definition reg_of (t : rtype) s (i : Z) : option Z :=
  match t with
  | RInt => int_reg s i | RWide => long_reg s i | RFloat => float_reg s i | RDouble => double_reg s i
  end.
Lemma reads_GET t i s x : reg_of t s i = Some x -> reads (GET t i) s x.
Proof.
  intros Hx. destruct t; simpl in Hx; unfold int_reg, long_reg, float_reg, double_reg in Hx;
    (destruct (fp s !!z i) as [r|] eqn:Er; [|done]); simplify_eq/=; unfold GET, GET_REGISTER_INT, GET_REGISTER,
    GET_REGISTER_WIDE, GET_REGISTER_FLOAT, GET_REGISTER_DOUBLE.
  - eapply reads_bind; [eapply reads_bind; [by apply reads_raw|apply reads_ret]|]. rewrite swrap_wrap. apply reads_ret.
  - eapply reads_bind; [by apply reads_raw|apply reads_ret].
  - eapply reads_bind; [by apply reads_raw|apply reads_ret].
  - by apply reads_raw.
Qed.
Lemma reads_u4 i s x : int_reg s i = Some x -> reads (GET_REGISTER i) s (U32 x).
Proof.
  unfold int_reg. destruct (fp s !!z i) as [r|] eqn:Er; [|done]. intros [= <-]. rewrite wrap_swrap.
  eapply reads_bind; [by apply reads_raw|apply reads_ret].
Qed.
Lemma reads_fetch k s u : unit_of s k = Some u -> reads (FETCH k) s u.
Proof. intros Hu w. unfold FETCH, bind, gets, opt. simpl. unfold unit_of in Hu. by rewrite Hu. Qed.

(** The four setters. *)
Definition SETK (k : cellkind) : Z -> M W Z -> M W unit :=
  match k with KInt => SET_REGISTER | KFloat => SET_REGISTER_FLOAT | KLong => SET_REGISTER_WIDE end.

Lemma with_same_flags s i x : length (fp_flags s) = length (fp s) -> fp s !!z i = Some x ->
  exists f, fp_flags s !!z i = Some f.
Proof. intros Hl Hx. apply zlookup_is_Some. rewrite Hl. by eapply zlookup_lt_Some. Qed.

Lemma put32_cell old v : put32 old v = cell KFloat old v.
Proof. unfold put32. rewrite Z.shiftr_div_pow2 by lia. apply lor_shiftl_add; [lia|by apply wrap_in_u]. Qed.

(** A setter followed by [FINISH] is a [Write]. *)
Lemma set_finish k dst v x n s : frame_ok s -> reads v s x ->
  (SETK k dst v ;;; FINISH n) s = apply_effect (Write k dst x n) s.
Proof.
  intros Hs Hv. pose proof (ok_length _ Hs) as Hl. unfold apply_effect.
  assert (Hdel : DELETE_LOCAL_REF dst s =
    match fp s !!z dst, fp_flags s !!z dst with
    | Some old, Some f => Val tt (with_world s (if f =? 0 then world s else DeleteLocalRef old (world s)))
    | _, _ => Undef
    end).
  { unfold DELETE_LOCAL_REF, GET_REGISTER_AS_OBJECT, GET_REGISTER_FLAGS, GET_RAW, bind, gets, opt.
    destruct (fp s !!z dst) as [old|] eqn:Eo.
    - destruct (with_same_flags _ _ _ Hl Eo) as [f Ef]. rewrite Ef. simpl. destruct (f =? 0); [by destruct s|].
      simpl. by rewrite Eo.
    - destruct (fp_flags s !!z dst) as [f|] eqn:Ef; [|done]. exfalso.
      apply zlookup_lt_Some in Ef. rewrite Hl in Ef. apply zlookup_is_Some in Ef as [? ?]. congruence. }
  assert (Hset : forall (g : Z -> M W Z) y, (forall w, g x (with_world s w) = Val y (with_world s w)) ->
    (DELETE_LOCAL_REF dst ;;; x <- v ;; y <- g x ;; PUT_RAW dst y ;;; SET_REGISTER_FLAGS dst 0 ;;; FINISH n) s =
    match fp s !!z dst, fp_flags s !!z dst with
    | Some old, Some f => Jump (Finish n) (write s dst y 0 old f)
    | _, _ => Undef
    end).
  { intros g y Hg. unfold bind at 1. rewrite Hdel.
    destruct (fp s !!z dst) as [old|] eqn:Eo; [|done].
    destruct (with_same_flags _ _ _ Hl Eo) as [f Ef]. rewrite Ef. cbv beta iota zeta.
    unfold bind at 1. rewrite Hv. unfold bind at 1. rewrite Hg.
    pose proof (zlookup_lt_Some _ _ _ Eo) as Hi. pose proof (zlookup_lt_Some _ _ _ Ef) as Hj.
    unfold PUT_RAW, SET_REGISTER_FLAGS, bind, gets, opt. cbn [with_world fp fp_flags].
    rewrite zset_Some by done. cbn. rewrite zset_Some by done. cbn. done. }
  destruct k; cbn [SETK cell].
  - rewrite <- (Hset (fun x => ret (U32 x)) (x mod 2 ^ 32) (fun _ => eq_refl)).
    unfold SET_REGISTER, bind, ret. destruct (DELETE_LOCAL_REF dst s) as [? s1| |]; try done.
    destruct (v s1) as [? s2| |]; try done. by destruct (PUT_RAW dst _ s2).
  - destruct (fp s !!z dst) as [old|] eqn:Eo.
    + assert (Hg : forall w, (r <- GET_RAW dst ;; ret (put32 r x)) (with_world s w) =
        Val (cell KFloat old x) (with_world s w)).
      { intros w. unfold bind, ret. rewrite (reads_raw _ _ _ Eo). by rewrite put32_cell. }
      specialize (Hset (fun x => r <- GET_RAW dst ;; ret (put32 r x)) _ Hg).
      etransitivity; [|exact Hset].
      unfold SET_REGISTER_FLOAT, bind, ret. destruct (DELETE_LOCAL_REF dst s) as [? s1| |]; try done.
      destruct (v s1) as [? s2| |]; try done. destruct (GET_RAW dst s2) as [? s3| |]; try done.
      by destruct (PUT_RAW dst _ s3).
    + unfold SET_REGISTER_FLOAT, bind. by rewrite Hdel.
  - rewrite <- (Hset (fun x => ret (U64 x)) (x mod 2 ^ 64) (fun _ => eq_refl)).
    unfold SET_REGISTER_WIDE, bind, ret. destruct (DELETE_LOCAL_REF dst s) as [? s1| |]; try done.
    destruct (v s1) as [? s2| |]; try done. by destruct (PUT_RAW dst _ s2).
Qed.

(** Only the stored bits of the value matter. *)
Definition kind_width (k : cellkind) : Z := match k with KLong => 64 | _ => 32 end.
Lemma set_finish_cong k dst v x y n s : frame_ok s -> reads v s x ->
  wrap (kind_width k) x = wrap (kind_width k) y ->
  (SETK k dst v ;;; FINISH n) s = apply_effect (Write k dst y n) s.
Proof.
  intros Hs Hv Hxy. rewrite (set_finish k dst v x n s Hs Hv). unfold apply_effect.
  replace (cell k) with (fun old v => cell k old v) by done.
  destruct (fp s !!z dst), (fp_flags s !!z dst); try done. do 2 f_equal.
  destruct k; unfold wrap in Hxy; simpl in *; by rewrite ?Hxy.
Qed.

Lemma bind_reads {A} (v : M W Z) s x (k : Z -> M W A) : reads v s x -> bind v k s = k x s.
Proof. intros Hv. unfold bind. by rewrite (reads_now _ _ _ Hv). Qed.

(** *** Fields *)
Lemma INST_A_fA i : INST_A i = fA i.
Proof.
  unfold INST_A, fA. change 0x0f with (2 ^ 4 - 1). rewrite land_mask, Z.shiftr_div_pow2 by lia. done.
Qed.
Lemma INST_B_fB i : INST_B i = fB i.
Proof. unfold INST_B, fB. by rewrite Z.shiftr_div_pow2 by lia. Qed.
Lemma INST_AA_fAA i : INST_AA i = fAA i.
Proof. unfold INST_AA, fAA. by rewrite Z.shiftr_div_pow2 by lia. Qed.
Lemma low_byte u : u & 0xff = u mod 256.
Proof. change 0xff with (2 ^ 8 - 1). by rewrite land_mask by lia. Qed.
Lemma high_byte u : u >> 8 = u / 256.
Proof. by rewrite Z.shiftr_div_pow2 by lia. Qed.

(** *** Checked and plain integer operations *)
Definition macro_op (o : iop) (chk : Z) (f : Z -> Z -> Z) : Prop :=
  (chk = 0 /\ plain_op o = Some f) \/ chk_op o = Some (chk, f).

Definition int_kind (w : Z) : cellkind := if w =? 64 then KLong else KInt.
Lemma kind_width_int w : w = 32 \/ w = 64 -> kind_width (int_kind w) = w.
Proof. by intros [-> | ->]. Qed.

(** [op_int] and [op_long] are the same at two widths. *)
Definition op_any (w : Z) (op : Z -> Z -> Z) (chkdiv vdst : Z) (first second : M W Z) : M W unit :=
  if negb (chkdiv =? 0) then
    firstVal <- first ;; secondVal <- second ;;
    match checked_div w op chkdiv firstVal secondVal with
    | None => divide_by_zero
    | Some result => SETK (int_kind w) vdst (ret result)
    end
  else SETK (int_kind w) vdst (a <- first ;; b <- second ;; ret (op a b)).

Lemma op_any_ok w o chk f dst first second a b s n :
  w = 32 \/ w = 64 -> frame_ok s -> macro_op o chk f -> reads first s a -> reads second s b ->
  in_s w a -> in_s w b ->
  (op_any w f chk dst first second ;;; FINISH n) s =
  apply_effect (int_result (int_kind w) (java_int w o a b) dst n) s.
Proof.
  intros Hw Hs Ho Ha Hb Ia Ib. assert (0 < w) by lia. unfold op_any.
  destruct Ho as [[-> Hp]|Hc].
  - destruct (plain_op_java w o f a b a b) as (v & -> & Hv); try done. simpl.
    eapply set_finish_cong; [done| |by rewrite kind_width_int].
    eapply reads_bind; [exact Ha|]. eapply reads_bind; [exact Hb|]. apply reads_ret.
  - rewrite <- (checked_div_java w o chk f) by done.
    replace (chk =? 0) with false by (destruct o; simplify_eq/=; done). cbn [negb].
    set (k := fun r => match r with None => divide_by_zero | Some result => SETK (int_kind w) dst (ret result) end).
    assert (Hk : (k (checked_div w f chk a b) ;;; FINISH n) s =
      apply_effect (int_result (int_kind w) (checked_div w f chk a b) dst n) s).
    { unfold k. destruct (checked_div w f chk a b) as [v|]; [|done]. by apply set_finish. }
    rewrite <- Hk. unfold bind at 1 2 3. rewrite (reads_now _ _ _ Ha), (reads_now _ _ _ Hb). done.
Qed.

Lemma reg_in_s w s i x : w = 32 \/ w = 64 ->
  (if w =? 64 then long_reg s i else int_reg s i) = Some x -> in_s w x.
Proof.
  intros [-> | ->]; simpl; unfold int_reg, long_reg; destruct (fp s !!z i); intros [= <-]; by apply swrap_in_s.
Qed.

End Eval.

End VmRefine.
