(* ===== verification/VmRefineOps.v ===== *)
(** * The opcode table refines the register instruction set

    One lemma per macro, then the theorem over all opcodes. *)
From Stdlib Require Import Floats.SpecFloat.
From S2P Require Import Prelude CFloat DexOpcodes VmEnv VmSwitch VmArith VmObject VmInvoke VmInterp.
From S2P Require Import VmFrame VmIsa VmRefine.
Import CFloat DexOpcodes VmEnv VmSwitch VmArith VmObject VmInvoke VmInterp VmFrame VmIsa VmRefine.
Local Open Scope cint_scope.
Local Open Scope vm_scope.

Module VmRefineOps.

Section Macros.
Context {W : Type} `{E : VmEnv W}.
Context (s : frame W) (Hs : frame_ok s).

Lemma bind_gets {A B} (f : frame W -> A) (k : A -> M W B) : bind (gets f) k s = k (f s) s.
Proof. done. Qed.
Lemma reads_int i x : int_reg s i = Some x -> reads (GET_REGISTER_INT i) s x.
Proof. apply (reads_GET RInt). Qed.
Lemma reads_wide i x : long_reg s i = Some x -> reads (GET_REGISTER_WIDE i) s x.
Proof. apply (reads_GET RWide). Qed.
Lemma reads_float i x : float_reg s i = Some x -> reads (GET_REGISTER_FLOAT i) s x.
Proof. apply (reads_GET RFloat). Qed.
Lemma reads_double i x : double_reg s i = Some x -> reads (GET_REGISTER_DOUBLE i) s x.
Proof. apply (reads_GET RDouble). Qed.
Lemma int_in_s i x : int_reg s i = Some x -> in_s 32 x.
Proof. apply (reg_in_s 32). by left. Qed.
Lemma long_in_s i x : long_reg s i = Some x -> in_s 64 x.
Proof. apply (reg_in_s 64). by right. Qed.

(** Opens the operand lookups of a hypothesis [isa ... = Some e]. *)
Ltac operands H :=
  unfold form_23x, form_12x, mbind, option_bind in H; cbv beta in H;
  repeat match type of H with
  | context [match ?x with _ => _ end] =>
      lazymatch x with
      | unit_of _ _ => let E := fresh "Eu" in destruct x eqn:E
      | int_reg _ _ => let E := fresh "Ei" in destruct x eqn:E
      | long_reg _ _ => let E := fresh "El" in destruct x eqn:E
      | float_reg _ _ => let E := fresh "Ef" in destruct x eqn:E
      | double_reg _ _ => let E := fresh "Ed" in destruct x eqn:E
      end; [|discriminate H]
  end;
  injection H as <-.
Ltac reads_auto :=
  repeat first
    [ eassumption | apply reads_ret
    | apply reads_int; eassumption | apply reads_wide; eassumption | apply reads_float; eassumption
    | apply reads_double; eassumption | apply reads_u4; eassumption | apply reads_fetch; eassumption
    | eapply reads_bind ].
Ltac fields := rewrite ?INST_AA_fAA, ?INST_A_fA, ?INST_B_fB, ?low_byte, ?high_byte.
(** Runs a handler up to its register store. *)
Ltac run_handler :=
  repeat first
    [ rewrite bind_gets | erewrite bind_reads by (reads_auto; done) | progress cbv beta zeta | progress fields ].
Ltac in_range := first [eapply int_in_s; eassumption | eapply long_in_s; eassumption | by apply swrap_in_s].

(** ** Integer arithmetic *)
Section Integers.
Context (o : iop) (chk : Z) (f : Z -> Z -> Z) (Ho : macro_op o chk f).

Lemma X_INT e :
  form_23x s (fun dst a b => x ← int_reg s a; y ← int_reg s b;
    Some (int_result KInt (java_int 32 o x y) dst 2)) = Some e ->
  HANDLE_OP_X_INT f chk s = apply_effect e s.
Proof.
  intros H. operands H. unfold HANDLE_OP_X_INT. run_handler.
  eapply (op_any_ok 32); [by left|done|done|reads_auto|reads_auto|in_range|in_range].
Qed.
Lemma X_INT_2ADDR e :
  form_12x s (fun dst b => x ← int_reg s dst; y ← int_reg s b;
    Some (int_result KInt (java_int 32 o x y) dst 1)) = Some e ->
  HANDLE_OP_X_INT_2ADDR f chk s = apply_effect e s.
Proof.
  intros H. operands H. unfold HANDLE_OP_X_INT_2ADDR. run_handler.
  eapply (op_any_ok 32); [by left|done|done|reads_auto|reads_auto|in_range|in_range].
Qed.
Lemma X_INT_LIT8 e :
  (u ← unit_of s 1; x ← int_reg s (u mod 256);
    Some (int_result KInt (java_int 32 o x (swrap 8 (u / 256))) (fAA (inst s)) 2)) = Some e ->
  HANDLE_OP_X_INT_LIT8 f chk s = apply_effect e s.
Proof.
  intros H. operands H. unfold HANDLE_OP_X_INT_LIT8. run_handler.
  eapply (op_any_ok 32); [by left|done|done|reads_auto|reads_auto|in_range|].
  pose proof (swrap_in_s 8 (z / 256) ltac:(lia)). unfold in_s in *. lia.
Qed.
Lemma X_INT_LIT16 e :
  (u ← unit_of s 1; x ← int_reg s (fB (inst s));
    Some (int_result KInt (java_int 32 o x (swrap 16 u)) (fA (inst s)) 2)) = Some e ->
  HANDLE_OP_X_INT_LIT16 f chk s = apply_effect e s.
Proof.
  intros H. operands H. unfold HANDLE_OP_X_INT_LIT16. run_handler.
  assert (Hlit : in_s 32 (S16 z)) by (pose proof (swrap_in_s 16 z ltac:(lia)); unfold in_s in *; lia).
  destruct (chk =? 0) eqn:Ec; cbn [negb].
  - destruct Ho as [[_ Hp]|Hc]; [|by destruct o; simplify_eq/=].
    destruct (plain_op_java 32 o f z0 (S16 z) (U32 z0) (U32 (S16 z))) as (v & -> & Hv);
      [lia|done|by rewrite wrap_wrap|by rewrite wrap_wrap|].
    eapply (set_finish_cong KInt); [done|reads_auto|by symmetry].
  - eapply (op_any_ok 32); [by left|done|done|reads_auto|reads_auto|in_range|done].
Qed.
Lemma X_LONG e :
  form_23x s (fun dst a b => x ← long_reg s a; y ← long_reg s b;
    Some (int_result KLong (java_int 64 o x y) dst 2)) = Some e ->
  HANDLE_OP_X_LONG f chk s = apply_effect e s.
Proof.
  intros H. operands H. unfold HANDLE_OP_X_LONG. run_handler.
  eapply (op_any_ok 64); [by right|done|done|reads_auto|reads_auto|in_range|in_range].
Qed.
Lemma X_LONG_2ADDR e :
  form_12x s (fun dst b => x ← long_reg s dst; y ← long_reg s b;
    Some (int_result KLong (java_int 64 o x y) dst 1)) = Some e ->
  HANDLE_OP_X_LONG_2ADDR f chk s = apply_effect e s.
Proof.
  intros H. operands H. unfold HANDLE_OP_X_LONG_2ADDR. run_handler.
  eapply (op_any_ok 64); [by right|done|done|reads_auto|reads_auto|in_range|in_range].
Qed.
End Integers.

Lemma RSUB_INT e :
  (u ← unit_of s 1; x ← int_reg s (fB (inst s));
    Some (int_result KInt (java_int 32 Rsub x (swrap 16 u)) (fA (inst s)) 2)) = Some e ->
  op_OP_RSUB_INT s = apply_effect e s.
Proof.
  intros H. operands H. unfold op_OP_RSUB_INT. run_handler.
  eapply (set_finish_cong KInt); [done|reads_auto|by rewrite wrap_swrap].
Qed.
Lemma RSUB_INT_LIT8 e :
  (u ← unit_of s 1; x ← int_reg s (u mod 256);
    Some (int_result KInt (java_int 32 Rsub x (swrap 8 (u / 256))) (fAA (inst s)) 2)) = Some e ->
  op_OP_RSUB_INT_LIT8 s = apply_effect e s.
Proof.
  intros H. operands H. unfold op_OP_RSUB_INT_LIT8. run_handler.
  eapply (set_finish_cong KInt); [done|reads_auto|by rewrite wrap_swrap].
Qed.

(** ** Shifts *)
Section Shifts.
Context (o : iop) (cast : Z -> Z) (f : Z -> Z -> Z).

Lemma shift_ok w k (v : M W Z) dst a a' b b' n :
  w = 32 \/ w = 64 -> 0 <= k -> w = 2 ^ k -> shift_op w o = Some (cast, f) ->
  wrap k b = b' mod w -> swrap w a = a' -> reads v s (f (cast a) (wrap k b)) ->
  (SETK (int_kind w) dst v ;;; FINISH n) s =
  apply_effect (int_result (int_kind w) (java_int w o a' b') dst n) s.
Proof.
  intros Hw Hk Ew Ho Hb <- Hv. destruct (shift_op_java w k o cast f a b b') as (r & -> & Hr); try done.
  simpl. eapply set_finish_cong; [done|exact Hv|]. by rewrite kind_width_int.
Qed.

Lemma mask5 b : b & 0x1f = wrap 5 b.
Proof. by apply (land_mask 5). Qed.
Lemma mask6 b : b & 0x3f = wrap 6 b.
Proof. by apply (land_mask 6). Qed.
Lemma dist_wrap k b : 0 <= k <= 32 -> wrap k (U32 b) = b mod 2 ^ k.
Proof. intros. by rewrite wrap_wrap_le. Qed.
Lemma dist_lit u : wrap 5 u = S8 u mod 32.
Proof.
  change (S8 u mod 32) with (wrap 5 (S8 u)).
  by rewrite <- (wrap_wrap_le 5 8 u), <- (wrap_wrap_le 5 8 (S8 u)), wrap_swrap by lia.
Qed.
Lemma swrap_u32 z : in_s 32 z -> S32 (U32 z) = z.
Proof. intros. rewrite swrap_wrap. by apply swrap_small. Qed.

Section Int.
Context (Ho : shift_op 32 o = Some (cast, f)).
Lemma SHX_INT e :
  form_23x s (fun dst a b => x ← int_reg s a; y ← int_reg s b;
    Some (int_result KInt (java_int 32 o x y) dst 2)) = Some e ->
  HANDLE_OP_SHX_INT cast f s = apply_effect e s.
Proof.
  intros H. operands H. unfold HANDLE_OP_SHX_INT. run_handler.
  eapply (shift_ok 32 5); [by left|lia|done|done|by apply dist_wrap|by eapply swrap_u32, int_in_s|].
  rewrite <- mask5. reads_auto.
Qed.
Lemma SHX_INT_2ADDR e :
  form_12x s (fun dst b => x ← int_reg s dst; y ← int_reg s b;
    Some (int_result KInt (java_int 32 o x y) dst 1)) = Some e ->
  HANDLE_OP_SHX_INT_2ADDR cast f s = apply_effect e s.
Proof.
  intros H. operands H. unfold HANDLE_OP_SHX_INT_2ADDR. run_handler.
  eapply (shift_ok 32 5); [by left|lia|done|done|by apply dist_wrap|by eapply swrap_u32, int_in_s|].
  rewrite <- mask5. reads_auto.
Qed.
Lemma SHX_INT_LIT8 e :
  (u ← unit_of s 1; x ← int_reg s (u mod 256);
    Some (int_result KInt (java_int 32 o x (swrap 8 (u / 256))) (fAA (inst s)) 2)) = Some e ->
  HANDLE_OP_SHX_INT_LIT8 cast f s = apply_effect e s.
Proof.
  intros H. operands H. unfold HANDLE_OP_SHX_INT_LIT8. run_handler.
  eapply (shift_ok 32 5); [by left|lia|done|done|by apply dist_lit|by eapply swrap_u32, int_in_s|].
  rewrite <- mask5. reads_auto.
Qed.
End Int.

Section Long.
Context (Ho : shift_op 64 o = Some (cast, f)).
Lemma SHX_LONG e :
  form_23x s (fun dst a b => x ← long_reg s a; y ← int_reg s b;
    Some (int_result KLong (java_int 64 o x y) dst 2)) = Some e ->
  HANDLE_OP_SHX_LONG cast f s = apply_effect e s.
Proof.
  intros H. operands H. unfold HANDLE_OP_SHX_LONG. run_handler.
  eapply (shift_ok 64 6); [by right|lia|done|done|by apply dist_wrap|by eapply swrap_small, long_in_s|].
  rewrite <- mask6. reads_auto.
Qed.
Lemma SHX_LONG_2ADDR e :
  form_12x s (fun dst b => x ← long_reg s dst; y ← int_reg s b;
    Some (int_result KLong (java_int 64 o x y) dst 1)) = Some e ->
  HANDLE_OP_SHX_LONG_2ADDR cast f s = apply_effect e s.
Proof.
  intros H. operands H. unfold HANDLE_OP_SHX_LONG_2ADDR. run_handler.
  eapply (shift_ok 64 6); [by right|lia|done|done|by apply dist_wrap|by eapply swrap_small, long_in_s|].
  rewrite <- mask6. reads_auto.
Qed.
End Long.
End Shifts.

(** ** Floating point *)
Section Floats.
Context (f : Z -> Z -> Z).
Lemma X_FLOAT e :
  form_23x s (fun dst a b => x ← float_reg s a; y ← float_reg s b; Some (Write KFloat dst (f x y) 2)) = Some e ->
  HANDLE_OP_X_FLOAT f s = apply_effect e s.
Proof.
  intros H. operands H. unfold HANDLE_OP_X_FLOAT. run_handler. eapply (set_finish KFloat); [done|reads_auto].
Qed.
Lemma X_FLOAT_2ADDR e :
  form_12x s (fun dst b => x ← float_reg s dst; y ← float_reg s b; Some (Write KFloat dst (f x y) 1)) = Some e ->
  HANDLE_OP_X_FLOAT_2ADDR f s = apply_effect e s.
Proof.
  intros H. operands H. unfold HANDLE_OP_X_FLOAT_2ADDR. run_handler. eapply (set_finish KFloat); [done|reads_auto].
Qed.
Lemma X_DOUBLE e :
  form_23x s (fun dst a b => x ← double_reg s a; y ← double_reg s b; Some (Write KLong dst (f x y) 2)) = Some e ->
  HANDLE_OP_X_DOUBLE f s = apply_effect e s.
Proof.
  intros H. operands H. unfold HANDLE_OP_X_DOUBLE. run_handler. eapply (set_finish KLong); [done|reads_auto].
Qed.
Lemma X_DOUBLE_2ADDR e :
  form_12x s (fun dst b => x ← double_reg s dst; y ← double_reg s b; Some (Write KLong dst (f x y) 1)) = Some e ->
  HANDLE_OP_X_DOUBLE_2ADDR f s = apply_effect e s.
Proof.
  intros H. operands H. unfold HANDLE_OP_X_DOUBLE_2ADDR. run_handler. eapply (set_finish KLong); [done|reads_auto].
Qed.
End Floats.

(** ** Unary operations and conversions *)

Definition reg_kind (t : rtype) : cellkind :=
  match t with RInt => KInt | RFloat => KFloat | RWide | RDouble => KLong end.

(** [SET(_type)] is a [SETK] up to the stored bits. *)
Lemma SET_finish t dst v x n :
  reads v s x -> (SET t dst v ;;; FINISH n) s = apply_effect (Write (reg_kind t) dst x n) s.
Proof.
  intros Hv. destruct t; simpl.
  - eapply (set_finish_cong KInt); [done|eapply reads_bind; [exact Hv|apply reads_ret]|apply wrap_swrap].
  - by eapply (set_finish KLong).
  - by eapply (set_finish KFloat).
  - by eapply (set_finish KLong).
Qed.

Lemma UNOP t f g e :
  (forall x, wrap (kind_width (reg_kind t)) (f x) = wrap (kind_width (reg_kind t)) (g x)) ->
  form_12x s (fun dst a => x ← reg_of t s a; Some (Write (reg_kind t) dst (g x) 1)) = Some e ->
  HANDLE_UNOP t f s = apply_effect e s.
Proof.
  intros Hf H. unfold form_12x, mbind, option_bind in H. destruct (reg_of t s _) as [x|] eqn:Ex; [|done].
  injection H as <-. unfold HANDLE_UNOP. run_handler.
  assert (Hv : reads (x <- GET t (fB (inst s)) ;; ret (f x)) s (f x))
    by (eapply reads_bind; [by apply reads_GET|apply reads_ret]).
  specialize (Hf x). destruct t; simpl.
  - eapply (set_finish_cong KInt); [done|eapply reads_bind; [exact Hv|apply reads_ret]|]. by rewrite wrap_swrap.
  - by eapply (set_finish_cong KLong).
  - by eapply (set_finish_cong KFloat).
  - by eapply (set_finish_cong KLong).
Qed.

(** On the unsigned register value. *)
Lemma UNOP_u4 f g e : (forall x, U32 (f (U32 x)) = U32 (g x)) ->
  form_12x s (fun dst a => x ← int_reg s a; Some (Write KInt dst (g x) 1)) = Some e ->
  HANDLE_UNOP_u4 f s = apply_effect e s.
Proof.
  intros Hf H. operands H. unfold HANDLE_UNOP_u4. run_handler.
  eapply (set_finish_cong KInt); [done|reads_auto|apply Hf].
Qed.
Lemma INT_TO_SMALL c g e : (forall x, U32 (c (U32 x)) = U32 (g x)) ->
  form_12x s (fun dst a => x ← int_reg s a; Some (Write KInt dst (g x) 1)) = Some e ->
  HANDLE_INT_TO_SMALL c s = apply_effect e s.
Proof.
  intros Hf H. operands H. unfold HANDLE_INT_TO_SMALL. run_handler.
  eapply (set_finish_cong KInt); [done|reads_auto|apply Hf].
Qed.

Lemma NUMCONV from to e :
  form_12x s (fun dst a => x ← reg_of from s a; Some (Write (reg_kind to) dst (convert from to x) 1)) = Some e ->
  HANDLE_NUMCONV from to s = apply_effect e s.
Proof.
  intros H. unfold form_12x, mbind, option_bind in H. destruct (reg_of from s _) as [x|] eqn:Ex; [|done].
  injection H as <-. unfold HANDLE_NUMCONV. run_handler.
  apply SET_finish. eapply reads_bind; [by apply reads_GET|apply reads_ret].
Qed.

Definition src_of (t : fty) : rtype := match t with F32 => RFloat | F64 => RDouble end.
Lemma FLOAT_TO_INT t to e : to = RInt \/ to = RWide ->
  form_12x s (fun dst a => x ← reg_of (src_of t) s a;
    Some (Write (reg_kind to) dst (java_d2i t (match to with RInt => 32 | _ => 64 end) x) 1)) = Some e ->
  HANDLE_FLOAT_TO_INT t to s = apply_effect e s.
Proof.
  intros Hto H. unfold form_12x, mbind, option_bind in H. destruct (reg_of _ s _) as [x|] eqn:Ex; [|done].
  injection H as <-. unfold HANDLE_FLOAT_TO_INT. rewrite bind_gets. cbv zeta.
  rewrite INST_A_fA, INST_B_fB. fold (src_of t). rewrite (bind_reads _ _ _ _ (reads_GET _ _ _ _ Ex)).
  rewrite float_to_int_java by (destruct Hto as [-> | ->]; auto). apply SET_finish, reads_ret.
Qed.

(** ** Comparisons *)

Lemma SFcompare_swap x y : SFcompare y x = option_map CompOpp (SFcompare x y).
Proof.
  destruct x as [sx|sx| |sx mx ex], y as [sy|sy| |sy my ey];
    try destruct sx; try destruct sy; try done; cbn [SFcompare option_map]; f_equal;
    rewrite (Z.compare_antisym ex ey); destruct (ex ?= ey); simpl; try done;
    by rewrite (Pos.compare_cont_antisym mx my Eq), ?CompOpp_involutive.
Qed.

(** What each accessor type compares. *)
Definition compare_as (t : rtype) (x y : Z) : option comparison :=
  match t with
  | RFloat => SFcompare (dec F32 x) (dec F32 y)
  | RDouble => SFcompare (dec F64 x) (dec F64 y)
  | _ => Some (x ?= y)
  end.

Lemma cmp_result_java t bias x y : cmp_result t bias x y = java_cmp (compare_as t x y) bias.
Proof.
  unfold cmp_result, cmp_eq, cmp_lt, feq, flt, SFeqb, SFltb, compare_as. destruct t.
  1,2: destruct (Z.compare_spec x y), (Z.eqb_spec x y), (Z.ltb_spec x y), (Z.ltb_spec y x); simpl; lia.
  - rewrite (SFcompare_swap (dec F32 x) (dec F32 y)). by destruct (SFcompare _ _) as [[]|].
  - rewrite (SFcompare_swap (dec F64 x) (dec F64 y)). by destruct (SFcompare _ _) as [[]|].
Qed.

Lemma CMPX t bias e :
  form_23x s (fun dst a b => x ← reg_of t s a; y ← reg_of t s b;
    Some (Write KInt dst (java_cmp (compare_as t x y) bias) 2)) = Some e ->
  HANDLE_OP_CMPX t bias s = apply_effect e s.
Proof.
  intros H. unfold form_23x, mbind, option_bind in H. destruct (unit_of s 1) as [u|] eqn:Eu; [|done].
  destruct (reg_of t s (u mod 256)) as [x|] eqn:Ex; [|done].
  destruct (reg_of t s (u / 256)) as [y|] eqn:Ey; [|done]. injection H as <-.
  unfold HANDLE_OP_CMPX. run_handler.
  rewrite (bind_reads _ _ _ _ (reads_GET _ _ _ _ Ex)), (bind_reads _ _ _ _ (reads_GET _ _ _ _ Ey)).
  rewrite <- cmp_result_java. apply (set_finish KInt); [done|apply reads_ret].
Qed.

(** ** Branches *)

Lemma branch_if_ok c u : unit_of s 1 = Some u ->
  branch_if c s = apply_effect (branch c (swrap 16 u)) s.
Proof.
  intros Hu. unfold branch_if, branch. destruct c; [|done]. by rewrite (bind_reads _ _ _ _ (reads_fetch _ _ _ Hu)).
Qed.
Lemma IF_XX t cmp e : (forall a b, cmp a b = java_test t a b) ->
  (u ← unit_of s 1; x ← int_reg s (fA (inst s)); y ← int_reg s (fB (inst s));
    Some (branch (java_test t x y) (swrap 16 u))) = Some e ->
  HANDLE_OP_IF_XX cmp s = apply_effect e s.
Proof.
  intros Hc H. operands H. unfold HANDLE_OP_IF_XX. run_handler. rewrite Hc. by apply branch_if_ok.
Qed.
Lemma IF_XXZ t cmp e : (forall a b, cmp a b = java_test t a b) ->
  (u ← unit_of s 1; x ← int_reg s (fAA (inst s)); Some (branch (java_test t x 0) (swrap 16 u))) = Some e ->
  HANDLE_OP_IF_XXZ cmp s = apply_effect e s.
Proof.
  intros Hc H. operands H. unfold HANDLE_OP_IF_XXZ. run_handler. rewrite Hc. by apply branch_if_ok.
Qed.

(** ** Moves and constants *)
Section Units.
Context (Hu : Forall (in_u 16) (insns code)).

Lemma unit_ok k u : unit_of s k = Some u -> in_u 16 u.
Proof. by apply zlookup_Forall. Qed.
Lemma or_units lo hi : in_u 16 lo -> lo .| (hi << 16) = lo + hi * 2 ^ 16.
Proof. intros. rewrite Z.lor_comm, lor_shiftl_add by done. lia. Qed.
Lemma or_more k lo hi : 0 <= k -> in_u k lo -> lo .| (hi << k) = lo + hi * 2 ^ k.
Proof. intros. rewrite Z.lor_comm, lor_shiftl_add by done. lia. Qed.

Lemma const_4_value i : S32 (INST_B i << 28) >> 28 = swrap 4 (fB i).
Proof.
  change 32 with (4 + 28). rewrite swrap_shiftl, INST_B_fB by lia.
  by rewrite Z.shiftr_shiftl_l, Z.sub_diag, Z.shiftl_0_r by lia.
Qed.

Lemma bind_bind {A B C} (m : M W A) (k : A -> M W B) (l : B -> M W C) s' :
  bind (bind m k) l s' = bind m (fun x => bind (k x) l) s'.
Proof. unfold bind. by destruct (m s'). Qed.
Lemma bind_ret {A B} (x : A) (k : A -> M W B) s' : bind (ret x) k s' = k x s'.
Proof. done. Qed.

Ltac run_move :=
  repeat first [ rewrite bind_bind | rewrite bind_ret | progress cbv beta zeta; cbn [fst snd] | run_handler ];
  fields.

Lemma wide_bits a b c d : in_u 16 a -> in_u 16 b -> in_u 16 c ->
  a .| (b << 16) .| (c << 32) .| (d << 48) = a + b * 2 ^ 16 + c * 2 ^ 32 + d * 2 ^ 48.
Proof.
  intros Ha Hb Hc. assert (H1 : in_u 32 (a + b * 2 ^ 16)) by (unfold in_u in *; lia).
  assert (H2 : in_u 48 (a + b * 2 ^ 16 + c * 2 ^ 32)) by (unfold in_u in *; lia).
  by rewrite (or_more 16), (or_more 32), (or_more 48) by (lia || done).
Qed.

Lemma NOP e : Some (Branch 1) = Some e -> op_OP_NOP s = apply_effect e s.
Proof. by intros [= <-]. Qed.
Lemma GOTO e : Some (Branch (swrap 8 (fAA (inst s)))) = Some e -> op_OP_GOTO s = apply_effect e s.
Proof. intros [= <-]. unfold op_OP_GOTO. by run_move. Qed.
Lemma GOTO_16 e : (u ← unit_of s 1; Some (Branch (swrap 16 u))) = Some e -> op_OP_GOTO_16 s = apply_effect e s.
Proof. intros H. operands H. unfold op_OP_GOTO_16. by run_move. Qed.
Lemma GOTO_32 e :
  (lo ← unit_of s 1; hi ← unit_of s 2; Some (Branch (swrap 32 (lo + hi * 2 ^ 16)))) = Some e ->
  op_OP_GOTO_32 s = apply_effect e s.
Proof.
  intros H. operands H. unfold op_OP_GOTO_32. run_move.
  rewrite (lor_swrap_shiftl 16 16), or_units by (done || by eapply unit_ok). done.
Qed.

Tactic Notation "open_move" hyp(H) reference(h) :=
  cbn [move_const] in H; operands H; unfold h, move_reg, move_wide, operands_AB, operands_AA_16, operands_16_16, fetch_u4;
  run_move.
Ltac store k := eapply (set_finish_cong k); [done|reads_auto|].

Lemma MOVE e : move_const s 0x01 = Some e -> op_OP_MOVE s = apply_effect e s.
Proof. intros H. open_move H op_OP_MOVE. store KInt. by rewrite wrap_wrap. Qed.
Lemma MOVE_FROM16 e : move_const s 0x02 = Some e -> op_OP_MOVE_FROM16 s = apply_effect e s.
Proof. intros H. open_move H op_OP_MOVE_FROM16. store KInt. by rewrite wrap_wrap. Qed.
Lemma MOVE_16 e : move_const s 0x03 = Some e -> op_OP_MOVE_16 s = apply_effect e s.
Proof. intros H. open_move H op_OP_MOVE_16. store KInt. by rewrite wrap_wrap. Qed.
Lemma MOVE_WIDE e : move_const s 0x04 = Some e -> op_OP_MOVE_WIDE s = apply_effect e s.
Proof. intros H. open_move H op_OP_MOVE_WIDE. by store KLong. Qed.
Lemma MOVE_WIDE_FROM16 e : move_const s 0x05 = Some e -> op_OP_MOVE_WIDE_FROM16 s = apply_effect e s.
Proof. intros H. open_move H op_OP_MOVE_WIDE_FROM16. by store KLong. Qed.
Lemma MOVE_WIDE_16 e : move_const s 0x06 = Some e -> op_OP_MOVE_WIDE_16 s = apply_effect e s.
Proof. intros H. open_move H op_OP_MOVE_WIDE_16. by store KLong. Qed.
Lemma MOVE_RESULT e : move_const s 0x0a = Some e -> op_OP_MOVE_RESULT s = apply_effect e s.
Proof.
  intros H. open_move H op_OP_MOVE_RESULT.
  eapply (set_finish_cong KInt); [done|eapply reads_bind; [exact (reads_gets retval s (retval s) (fun _ => eq_refl))|apply reads_ret]|apply wrap_swrap].
Qed.
Lemma MOVE_RESULT_WIDE e : move_const s 0x0b = Some e -> op_OP_MOVE_RESULT_WIDE s = apply_effect e s.
Proof.
  intros H. open_move H op_OP_MOVE_RESULT_WIDE.
  eapply (set_finish_cong KLong); [done|eapply reads_bind; [exact (reads_gets retval s (retval s) (fun _ => eq_refl))|apply reads_ret]|apply wrap_swrap].
Qed.
Lemma CONST_4 e : move_const s 0x12 = Some e -> op_OP_CONST_4 s = apply_effect e s.
Proof.
  intros H. injection H as <-. unfold op_OP_CONST_4. rewrite bind_gets. cbv zeta. rewrite const_4_value, INST_A_fA.
  by store KInt.
Qed.
Lemma CONST_16 e : move_const s 0x13 = Some e -> op_OP_CONST_16 s = apply_effect e s.
Proof. intros H. open_move H op_OP_CONST_16. by store KInt. Qed.
Lemma CONST e : move_const s 0x14 = Some e -> op_OP_CONST s = apply_effect e s.
Proof. intros H. open_move H op_OP_CONST. store KInt. by rewrite or_units by by eapply unit_ok. Qed.
Lemma CONST_HIGH16 e : move_const s 0x15 = Some e -> op_OP_CONST_HIGH16 s = apply_effect e s.
Proof. intros H. open_move H op_OP_CONST_HIGH16. store KInt. by rewrite wrap_swrap, Z.shiftl_mul_pow2. Qed.
Lemma CONST_WIDE_16 e : move_const s 0x16 = Some e -> op_OP_CONST_WIDE_16 s = apply_effect e s.
Proof. intros H. open_move H op_OP_CONST_WIDE_16. by store KLong. Qed.
Lemma CONST_WIDE_32 e : move_const s 0x17 = Some e -> op_OP_CONST_WIDE_32 s = apply_effect e s.
Proof. intros H. open_move H op_OP_CONST_WIDE_32. store KLong. by rewrite or_units by by eapply unit_ok. Qed.
Lemma CONST_WIDE e : move_const s 0x18 = Some e -> op_OP_CONST_WIDE s = apply_effect e s.
Proof. intros H. open_move H op_OP_CONST_WIDE. store KLong. by rewrite wide_bits by by eapply unit_ok. Qed.
Lemma CONST_WIDE_HIGH16 e : move_const s 0x19 = Some e -> op_OP_CONST_WIDE_HIGH16 s = apply_effect e s.
Proof. intros H. open_move H op_OP_CONST_WIDE_HIGH16. store KLong. by rewrite Z.shiftl_mul_pow2. Qed.

End Units.

End Macros.

(** ** The table *)

(** The operation a macro instance stands for. *)
Ltac iop_of f :=
  lazymatch f with
  | Z.add => constr:(Add) | Z.sub => constr:(Sub) | Z.mul => constr:(Mul) | Z.quot => constr:(Div)
  | Z.rem => constr:(Rem) | Z.land => constr:(And) | Z.lor => constr:(Or) | Z.lxor => constr:(Xor)
  end.
Ltac shift_of c f :=
  lazymatch f with
  | Z.shiftl => constr:(Shl)
  | _ => lazymatch c with wrap _ => constr:(Ushr) | _ => constr:(Shr) end
  end.
Ltac macro_side := solve [left; split; reflexivity | right; reflexivity | left; reflexivity | reflexivity].

(** Unary operators on the unsigned value and the narrowing casts. *)
Lemma u4_neg x : U32 (- U32 x) = U32 (- x).
Proof. rewrite <- !Z.sub_0_l. apply wrap_sub_r. Qed.
Lemma u4_not x : U32 (U32 x .^ 0xffffffff) = U32 (- x - 1).
Proof.
  replace (- x - 1) with (Z.lnot x) by (unfold Z.lnot; lia). change 0xffffffff with (wrap 32 (-1)).
  rewrite wrap_lxor2 by lia. by rewrite Z.lxor_m1_r.
Qed.
Lemma s8_not x : U64 (U64 x .^ 0xffffffffffffffff) = U64 (- x - 1).
Proof.
  replace (- x - 1) with (Z.lnot x) by (unfold Z.lnot; lia). change 0xffffffffffffffff with (wrap 64 (-1)).
  rewrite wrap_lxor2 by lia. by rewrite Z.lxor_m1_r.
Qed.
Lemma u4_s8 x : U32 (S8 (U32 x)) = U32 (S8 x).
Proof. f_equal. apply swrap_cong. by apply wrap_wrap_le. Qed.
Lemma u4_s16 x : U32 (S16 (U32 x)) = U32 (S16 x).
Proof. f_equal. apply swrap_cong. by apply wrap_wrap_le. Qed.
Lemma u4_u16 x : U32 (U16 (U32 x)) = U32 (U16 x).
Proof. f_equal. by apply wrap_wrap_le. Qed.

Ltac test_of c :=
  lazymatch c with
  | Z.eqb => constr:(TEq) | Z.ltb => constr:(TLt) | Z.geb => constr:(TGe) | Z.gtb => constr:(TGt)
  | Z.leb => constr:(TLe) | _ => constr:(TNe)
  end.
Ltac handler_cases Hs H :=
  lazymatch goal with
  | |- HANDLE_OP_X_INT ?f _ _ = _ => let o := iop_of f in eapply (X_INT _ Hs o); [macro_side|exact H]
  | |- HANDLE_OP_X_INT_2ADDR ?f _ _ = _ => let o := iop_of f in eapply (X_INT_2ADDR _ Hs o); [macro_side|exact H]
  | |- HANDLE_OP_X_INT_LIT8 ?f _ _ = _ => let o := iop_of f in eapply (X_INT_LIT8 _ Hs o); [macro_side|exact H]
  | |- HANDLE_OP_X_INT_LIT16 ?f _ _ = _ => let o := iop_of f in eapply (X_INT_LIT16 _ Hs o); [macro_side|exact H]
  | |- HANDLE_OP_X_LONG ?f _ _ = _ => let o := iop_of f in eapply (X_LONG _ Hs o); [macro_side|exact H]
  | |- HANDLE_OP_X_LONG_2ADDR ?f _ _ = _ => let o := iop_of f in eapply (X_LONG_2ADDR _ Hs o); [macro_side|exact H]
  | |- HANDLE_OP_SHX_INT ?c ?f _ = _ => let o := shift_of c f in eapply (SHX_INT _ Hs o); [macro_side|exact H]
  | |- HANDLE_OP_SHX_INT_2ADDR ?c ?f _ = _ =>
      let o := shift_of c f in eapply (SHX_INT_2ADDR _ Hs o); [macro_side|exact H]
  | |- HANDLE_OP_SHX_INT_LIT8 ?c ?f _ = _ =>
      let o := shift_of c f in eapply (SHX_INT_LIT8 _ Hs o); [macro_side|exact H]
  | |- HANDLE_OP_SHX_LONG ?c ?f _ = _ => let o := shift_of c f in eapply (SHX_LONG _ Hs o); [macro_side|exact H]
  | |- HANDLE_OP_SHX_LONG_2ADDR ?c ?f _ = _ =>
      let o := shift_of c f in eapply (SHX_LONG_2ADDR _ Hs o); [macro_side|exact H]
  | |- HANDLE_OP_X_FLOAT _ _ = _ => eapply (X_FLOAT _ Hs); exact H
  | |- HANDLE_OP_X_FLOAT_2ADDR _ _ = _ => eapply (X_FLOAT_2ADDR _ Hs); exact H
  | |- HANDLE_OP_X_DOUBLE _ _ = _ => eapply (X_DOUBLE _ Hs); exact H
  | |- HANDLE_OP_X_DOUBLE_2ADDR _ _ = _ => eapply (X_DOUBLE_2ADDR _ Hs); exact H
  | |- HANDLE_UNOP _ _ _ = _ => eapply (UNOP _ Hs); [first [exact s8_not | by intros]|exact H]
  | |- HANDLE_UNOP_u4 _ _ = _ => eapply (UNOP_u4 _ Hs); [first [exact u4_neg|exact u4_not]|exact H]
  | |- HANDLE_INT_TO_SMALL _ _ = _ => eapply (INT_TO_SMALL _ Hs); [first [exact u4_s8|exact u4_s16|exact u4_u16]|exact H]
  | |- HANDLE_NUMCONV _ _ _ = _ => eapply (NUMCONV _ Hs); exact H
  | |- HANDLE_FLOAT_TO_INT _ _ _ = _ => eapply (FLOAT_TO_INT _ Hs); [first [by left|by right]|exact H]
  | |- HANDLE_OP_CMPX _ _ _ = _ => eapply (CMPX _ Hs); exact H
  | |- HANDLE_OP_IF_XX ?c _ = _ =>
      let t := test_of c in eapply (IF_XX _ t); [by intros; rewrite ?Z.geb_leb, ?Z.gtb_ltb|exact H]
  | |- HANDLE_OP_IF_XXZ ?c _ = _ =>
      let t := test_of c in eapply (IF_XXZ _ t); [by intros; rewrite ?Z.geb_leb, ?Z.gtb_ltb|exact H]
  | |- op_OP_IF_EQ _ = _ => discriminate H
  | |- op_OP_IF_NE _ = _ => discriminate H
  | |- op_OP_RSUB_INT _ = _ => eapply (RSUB_INT _ Hs); exact H
  | |- op_OP_RSUB_INT_LIT8 _ = _ => eapply (RSUB_INT_LIT8 _ Hs); exact H
  end.

Section Table.
Context {W : Type} `{E : VmEnv W}.

Lemma binary_refines op (s : frame W) e : frame_ok s -> isa op s = Some e ->
  match binary_ops op, binary_2addr_ops op, literal_ops op with
  | Some h, _, _ | None, Some h, _ | None, None, Some h => h s = apply_effect e s
  | None, None, None => True
  end.
Proof. intros Hs H. destruct op; try exact I; cbn [binary_ops binary_2addr_ops literal_ops]. all: first [discriminate H | handler_cases Hs H].
Qed.

Lemma unary_refines op (s : frame W) e : frame_ok s -> isa op s = Some e ->
  match unary_ops op, compare_ops op with
  | Some h, _ | None, Some h => h s = apply_effect e s
  | None, None => True
  end.
Proof. intros Hs H. destruct op; try exact I; cbn [unary_ops compare_ops]. all: first [discriminate H | handler_cases Hs H].
Qed.

Lemma moves_refine op (s : frame W) e : frame_ok s -> Forall (in_u 16) (insns code) -> isa op s = Some e ->
  match move_const_ops op with
  | Some h => h s = apply_effect e s
  | None => True
  end.
Proof.
  intros Hs Hu H. destruct op; try exact I; cbn [move_const_ops]; try discriminate H;
    lazymatch goal with
    | |- op_OP_NOP _ = _ => eapply NOP; exact H
    | |- op_OP_GOTO _ = _ => eapply GOTO; exact H
    | |- op_OP_GOTO_16 _ = _ => eapply GOTO_16; exact H
    | |- op_OP_GOTO_32 _ = _ => eapply (GOTO_32 _ Hu); exact H
    | |- op_OP_MOVE _ = _ => apply (MOVE _ Hs _ H)
    | |- op_OP_MOVE_FROM16 _ = _ => apply (MOVE_FROM16 _ Hs _ H)
    | |- op_OP_MOVE_16 _ = _ => apply (MOVE_16 _ Hs _ H)
    | |- op_OP_MOVE_WIDE _ = _ => apply (MOVE_WIDE _ Hs _ H)
    | |- op_OP_MOVE_WIDE_FROM16 _ = _ => apply (MOVE_WIDE_FROM16 _ Hs _ H)
    | |- op_OP_MOVE_WIDE_16 _ = _ => apply (MOVE_WIDE_16 _ Hs _ H)
    | |- op_OP_MOVE_RESULT _ = _ => apply (MOVE_RESULT _ Hs _ H)
    | |- op_OP_MOVE_RESULT_WIDE _ = _ => apply (MOVE_RESULT_WIDE _ Hs _ H)
    | |- op_OP_CONST_4 _ = _ => apply (CONST_4 _ Hs _ H)
    | |- op_OP_CONST_16 _ = _ => apply (CONST_16 _ Hs _ H)
    | |- op_OP_CONST _ = _ => apply (CONST _ Hs Hu _ H)
    | |- op_OP_CONST_HIGH16 _ = _ => apply (CONST_HIGH16 _ Hs _ H)
    | |- op_OP_CONST_WIDE_16 _ = _ => apply (CONST_WIDE_16 _ Hs _ H)
    | |- op_OP_CONST_WIDE_32 _ = _ => apply (CONST_WIDE_32 _ Hs Hu _ H)
    | |- op_OP_CONST_WIDE _ = _ => apply (CONST_WIDE _ Hs Hu _ H)
    | |- op_OP_CONST_WIDE_HIGH16 _ = _ => apply (CONST_WIDE_HIGH16 _ Hs _ H)
    end.
Qed.

Lemma refines op (s : frame W) e : frame_ok s -> Forall (in_u 16) (insns code) -> isa op s = Some e ->
  handler op s = apply_effect e s.
Proof.
  intros Hs Hu H. pose proof (moves_refine op s e Hs Hu H) as Hm. pose proof (unary_refines op s e Hs H) as Hn.
  pose proof (binary_refines op s e Hs H) as Hb.
  destruct op; first [exact Hm | exact Hn | exact Hb | discriminate H].
Qed.


End Table.

End VmRefineOps.
