(* ===== verification/VmMachine.v ===== *)
(** * Runs of the abstract machine are runs of the interpreter

    Lifts [VmRefineOps.refines] from one instruction to whole runs: fetch,
    decode, execute, until a return.  With it the behaviour of concrete
    bytecode is a calculation on the instruction set; a loop is worked out
    as an example. *)
From S2P Require Import Prelude CFloat DexOpcodes VmEnv VmSwitch VmArith VmObject VmInvoke VmInterp.
From S2P Require Import VmFrame VmFootprint VmIsa VmRefine VmRefineOps VmWorld.
Import CFloat DexOpcodes VmEnv VmSwitch VmArith VmObject VmInvoke VmInterp VmFrame VmFootprint VmIsa VmRefine VmRefineOps.
Local Open Scope vm_scope.

Module VmMachine.

Section Machine.
Context {W : Type} `{E : VmEnv W}.
Implicit Type s : frame W.

(** The program point [n] units ahead, its instruction word loaded. *)
Definition advance (n i : Z) s : frame W :=
  MkFrame (pc s + n) i (fp s) (fp_flags s) (retval s) (args_tmp s) (methodCallRange s) (tctx s) (world s).

(** What a return leaves as the method's value: [return] keeps the upper
    half of the 8-byte result. *)
Definition isa_return (op : Opcode) s : option Z :=
  match op with
  | OP_RETURN_VOID => Some (retval s)
  | OP_RETURN => x ← fp s !!z fAA (inst s); Some (cell KFloat (retval s) x)
  | OP_RETURN_WIDE | OP_RETURN_OBJECT => x ← fp s !!z fAA (inst s); Some (x mod 2 ^ 64)
  | _ => None
  end.

Definition isa_fetch (n : Z) s : option (Opcode * frame W) :=
  i ← insns code !!z (pc s + n); op ← handler_of (i mod 256); Some (op, advance n i s).

(** [exec k n s v]: in [k] instructions from program point [n] ahead, the
    abstract machine returns [v]. *)
Inductive exec : nat -> Z -> frame W -> Z -> Prop :=
  | exec_return n s op s1 v :
      isa_fetch n s = Some (op, s1) -> isa_return op s1 = Some v -> exec 1 n s v
  | exec_step k n s op s1 e m s2 v :
      isa_fetch n s = Some (op, s1) -> isa op s1 = Some e -> apply_effect e s1 = Jump (Finish m) s2 ->
      exec k m s2 v -> exec (S k) n s v.

(** No tracer and no hook: the plain [vmInterpret]. *)
Definition quiet s : Prop := tctx s = None /\ g_vmTraceHook (W := W) = None.

Lemma frame_ok_advance n i s : frame_ok s -> frame_ok (advance n i s).
Proof. by intros []. Qed.

Lemma finish_quiet n s op s1 : quiet s -> isa_fetch n s = Some (op, s1) -> finish n s = handler op s1.
Proof.
  intros [Ht Hh] Hf. unfold isa_fetch, mbind, option_bind in Hf.
  destruct (insns code !!z (pc s + n)) as [i|] eqn:Ei; [|done].
  destruct (handler_of (i mod 256)) as [op'|] eqn:Eo; [|done]. injection Hf as -> <-.
  unfold finish, trace_insn, bind, FETCH, gets, opt, set_pc, set_inst. cbn.
  rewrite Z.add_0_r, Ei. cbn. rewrite Ht, Hh. cbn. unfold INST_INST. rewrite low_byte, Eo. cbn.
  unfold advance. by rewrite Ht.
Qed.

Lemma return_handler op s v : frame_ok s -> isa_return op s = Some v ->
  exists s', handler op s = Jump GotoReturnFromMethod s' /\ retval s' = v.
Proof.
  intros Hs Hr. destruct op; try discriminate Hr; unfold isa_return, mbind, option_bind in Hr.
  1: { injection Hr as <-. by exists s. }
  all: destruct (fp s !!z fAA (inst s)) as [x|] eqn:Ex; [|done]; injection Hr as <-.
  - cbv [handler move_const_ops]. unfold op_OP_RETURN. rewrite bind_gets, INST_AA_fAA.
    erewrite bind_reads by (eapply reads_bind; [by apply reads_raw|apply reads_ret]).
    rewrite bind_gets, put32_cell. eexists. split; [reflexivity|]. simpl.
    unfold wrap. by rewrite Z.mod_mod by lia.
  - cbv [handler move_const_ops]. unfold op_OP_RETURN_WIDE. rewrite bind_gets, INST_AA_fAA.
    erewrite bind_reads by (eapply reads_bind; [by apply reads_raw|apply reads_ret]).
    rewrite wrap_swrap. by eexists.
  - cbv [handler move_const_ops]. unfold op_OP_RETURN_OBJECT. rewrite bind_gets, INST_AA_fAA.
    unfold GET_REGISTER_AS_OBJECT. erewrite bind_reads by by apply reads_raw.
    eexists. split; [reflexivity|]. simpl. symmetry. apply (wrap_small 64).
    eapply zlookup_Forall; [|exact Ex]. apply Hs.
Qed.

Lemma run_exec k n s v : Forall (in_u 16) (insns code) -> quiet s -> frame_ok s -> exec k n s v ->
  exists s', run k (Finish n) s = Returned v s'.
Proof.
  intros Hu Hq Hs Hx. revert Hq Hs. induction Hx as [n s op s1 v Hf Hr|k n s op s1 e m s2 v Hf He Ha Hx IH]; intros Hq Hs.
  - assert (Hs1 : frame_ok s1).
    { unfold isa_fetch, mbind, option_bind in Hf. repeat case_match; simplify_eq. by apply frame_ok_advance. }
    destruct (return_handler op s1 v Hs1 Hr) as (s' & Hh & <-).
    exists s'. cbn [run transfer]. by rewrite (finish_quiet _ _ _ _ Hq Hf), Hh.
  - assert (Hs1 : frame_ok s1 /\ tctx s1 = tctx s).
    { unfold isa_fetch, mbind, option_bind in Hf. repeat case_match; simplify_eq. split; [by apply frame_ok_advance|done]. }
    destruct Hs1 as [Hs1 Ht]. pose proof (refines op s1 e Hs1 Hu He) as Hh. rewrite Ha in Hh.
    cbn [run transfer]. rewrite (finish_quiet _ _ _ _ Hq Hf), Hh. apply IH.
    + split; [|apply Hq]. destruct Hq as [Hq _]. rewrite <- Hq, <- Ht. clear -Ha.
      destruct e; simpl in Ha; repeat case_match; by simplify_eq/=.
    + pose proof (safe_handler op s1 Hs1) as Hk. rewrite Hh in Hk. apply Hk.
Qed.


End Machine.

(** ** A loop *)
Section Sum.
Context {W : Type} (E : VmEnv W).
Context (Hcode : code (W := W) = VmWorld.sum_code).

Definition sum_frame (p i acc x r0 : Z) (a0 : list Z) b0 (w : W) : frame W :=
  MkFrame p i [acc; x] [0; 0] r0 a0 b0 None w.

Lemma sum_fetch c i op p n i0 acc x r0 a0 b0 w : p + n = c -> insns VmWorld.sum_code !!z c = Some i ->
  handler_of (i mod 256) = Some op ->
  isa_fetch n (sum_frame p i0 acc x r0 a0 b0 w) = Some (op, sum_frame c i acc x r0 a0 b0 w).
Proof.
  intros Hc Hi Ho. unfold isa_fetch, mbind, option_bind, advance, sum_frame. cbn [pc fp fp_flags retval args_tmp
    methodCallRange tctx world]. by rewrite Hcode, Hc, Hi, Ho.
Qed.

Lemma sum_unit c k i acc x r0 a0 b0 w : unit_of (sum_frame c i acc x r0 a0 b0 w) k = insns VmWorld.sum_code !!z (c + k).
Proof. unfold unit_of. by rewrite Hcode. Qed.

Lemma wrap_swrap_add w a b c : wrap w (swrap w (swrap w a + b) + c) = wrap w (a + b + c).
Proof.
  rewrite <- (wrap_add_l w (swrap w (swrap w a + b))), wrap_swrap, wrap_add_l.
  rewrite <- Z.add_assoc, <- (wrap_add_l w (swrap w a)), wrap_swrap, wrap_add_l. f_equal. lia.
Qed.

Lemma cell_wrap r0 a b : wrap 32 a = wrap 32 b -> cell KFloat r0 a = cell KFloat r0 b.
Proof. unfold wrap, cell. by intros ->. Qed.

(** From the loop head (the [if-eqz] at unit 1). *)
Lemma sum_loop (x : nat) : forall acc n p i r0 a0 b0 w, Z.of_nat x < 2 ^ 31 -> p + n = 1 ->
  exec (4 * x + 2) n (sum_frame p i acc (Z.of_nat x) r0 a0 b0 w)
    (cell KFloat r0 (acc + Z.of_nat x * (Z.of_nat x + 1) / 2)).
Proof.
  induction x as [|x IH]; intros acc n p i r0 a0 b0 w Hx Hp.
  - eapply (exec_step _ _ _ _ _ (Branch 6)); [by eapply (sum_fetch 1)|..].
    { unfold isa. cbn. by rewrite sum_unit. }
    { reflexivity. }
    eapply exec_return; [by eapply (sum_fetch 7)|]. cbn. f_equal. by rewrite Z.add_0_r.
  - remember (Z.of_nat (S x)) as z eqn:Hz.
    assert (Hxs : S32 z = z) by (apply swrap_small; unfold in_s; lia).
    replace (4 * S x + 2)%nat with (S (S (S (S (4 * x + 2))))) by lia.
    eapply (exec_step _ _ _ _ _ (Branch 2)); [by eapply (sum_fetch 1)|..].
    { transitivity (u ← unit_of (sum_frame 1 0x138 acc z r0 a0 b0 w) 1; Some (branch (S32 z =? 0) (S16 u))); [done|].
      rewrite sum_unit, Hxs. cbn. unfold branch. by replace (z =? 0) with false by lia. }
    { reflexivity. }
    eapply (exec_step _ _ _ _ _ (Write KInt 0 (S32 (S32 acc + S32 z)) 1)); [by eapply (sum_fetch 3)|done|done|].
    eapply (exec_step _ _ _ _ _ (Write KInt 1 (S32 (S32 z + -1)) 2)); [by eapply (sum_fetch 4)|..].
    { transitivity (u ← unit_of (sum_frame 4 0x1d8 (U32 (S32 (S32 acc + S32 z))) z r0 a0 b0 w) 1;
        x ← int_reg (sum_frame 4 0x1d8 (U32 (S32 (S32 acc + S32 z))) z r0 a0 b0 w) (u mod 256);
        Some (Write KInt 1 (S32 (x + swrap 8 (u / 256))) 2)); [done|].
      by rewrite sum_unit. }
    { reflexivity. }
    eapply (exec_step _ _ _ _ _ (Branch (-5))); [by eapply (sum_fetch 6)|done|done|].
    assert (Hx' : cell KInt z (S32 (S32 z + -1)) = Z.of_nat x).
    { change (U32 (S32 (S32 z + -1)) = Z.of_nat x). rewrite wrap_swrap, Hxs. rewrite wrap_small by (unfold in_u; lia). lia. }
    assert (Hacc : cell KFloat r0 (acc + z * (z + 1) / 2) =
      cell KFloat r0 (U32 (S32 (S32 acc + S32 z)) + Z.of_nat x * (Z.of_nat x + 1) / 2)).
    { apply cell_wrap. rewrite wrap_add_l, wrap_swrap_add, Hxs. f_equal.
      assert (Hd : z * (z + 1) / 2 = z + Z.of_nat x * (Z.of_nat x + 1) / 2).
      { rewrite Hz, Nat2Z.inj_succ, <- Z.div_add_l by lia. f_equal. lia. }
      rewrite Hd. lia. }
    rewrite Hacc. change (exec (4 * x + 2) (-5)
      (sum_frame 6 0xfb28 (U32 (S32 (S32 acc + S32 z))) (cell KInt z (S32 (S32 z + -1))) r0 a0 b0 w)
      (cell KFloat r0 (U32 (S32 (S32 acc + S32 z)) + Z.of_nat x * (Z.of_nat x + 1) / 2))).
    rewrite Hx'. by apply IH; [lia|].
Qed.

(** the interpreter on a loop: for every [n], started on
    [for (s = 0, i = n; i != 0; i--) s += i; return s] with [n] in v1,
    [vmInterpret] stops after [4 n + 3] instructions and returns the sum
    [n (n + 1) / 2] in 32-bit arithmetic. *)
Theorem sum_terminates (n : nat) x0 r0 a0 b0 (w : W) :
  g_vmTraceHook (W := W) = None -> Z.of_nat n < 2 ^ 31 ->
  in_u 64 x0 -> in_u 64 r0 -> length a0 = 5%nat -> Forall (in_u 64) a0 ->
  exists v s', vmInterpret (4 * n + 3) [x0; Z.of_nat n] [0; 0] r0 a0 b0 w = Returned v s' /\
    S32 v = S32 (Z.of_nat n * (Z.of_nat n + 1) / 2).
Proof.
  intros Hh Hn Hx0 Hr Hl Ha.
  set (v := cell KFloat r0 (0 + Z.of_nat n * (Z.of_nat n + 1) / 2)).
  destruct (run_exec (4 * n + 3) 0 (sum_frame 0 0 x0 (Z.of_nat n) r0 a0 b0 w) v) as [s' Hrun].
  - rewrite Hcode. repeat (constructor; [unfold in_u; lia|]). constructor.
  - done.
  - split; simpl; try done; repeat constructor; try done; try (by left); unfold in_u in *; lia.
  - replace (4 * n + 3)%nat with (S (4 * n + 2)) by lia.
    eapply (exec_step _ _ _ _ _ (Write KInt 0 0 1)); [by eapply (sum_fetch 0)|done|done|].
    exact (sum_loop n 0 1 0 0x12 r0 a0 b0 w Hn eq_refl).
  - exists v, s'. split; [exact Hrun|]. subst v. apply swrap_cong.
    unfold cell, wrap. by rewrite Z.add_comm, Z.mod_add, Z.mod_mod by lia.
Qed.

End Sum.

End VmMachine.
