(* ===== verification/VmThrow.v ===== *)
(** * Exception delivery

    What [exceptionThrown] (InterpC-portable.cpp) and [dvmFindCatchBlock]
    (Exception.cpp) do, for a platform that keeps one pending exception: the
    handler chosen is the first clause, in table order, of the try range the
    program counter lies in, whose class the exception is an instance of. *)
From S2P Require Import Prelude DexCatch DexOpcodes VmEnv VmSwitch VmArith VmObject VmInvoke VmInterp VmIsa.
Import DexCatch DexOpcodes VmEnv VmObject VmInterp VmIsa.
Local Open Scope cint_scope.
Local Open Scope vm_scope.

Module VmThrow.

Section Throw.
Context {W : Type} `{E : VmEnv W}.

(** The platform's pending exception, the class of a type index (0 if it
    cannot be resolved), and the instance relation. *)
Context (pending : W -> Z) (cls : Z -> Z) (instance : Z -> Z -> bool).

(** What JNI documents of the calls used; tracers only observe. *)
Record exn_laws : Prop := {
  law_occurred w : (ExceptionOccurred w).1 = pending w;
  law_occurred_w w : pending (ExceptionOccurred w).2 = pending w;
  law_clear w : pending (ExceptionClear w) = 0;
  law_throw x w : pending (Throw x w) = x;
  law_delete r w : pending (DeleteLocalRef r w) = pending w;
  law_instance o c w : negb ((IsInstanceOf o c w).1 =? 0) = instance o c;
  law_resolve i w : (dvmResolveClass dvmResolver i w).1 = cls i;
  law_tracer tr f c x p q w : tracer = Some tr -> onException tr = Some f -> pending (f c x p q w) = pending w }.
Context (laws : exn_laws).

(** ** The clause *)

Definition matches (exc : Z) (h : VmCatchHandler) : bool :=
  (typeIdx h =? kNoIndex) || (negb (cls (typeIdx h) =? 0) && instance exc (cls (typeIdx h))).

Fixpoint first_match (exc : Z) (hs : list VmCatchHandler) : Z :=
  match hs with
  | [] => -1
  | h :: hs => if matches exc h then S32 (address h) else first_match exc hs
  end.

(** The handler address for an exception at [p], negative if there is none. *)
Definition target (tbl : option TryCatchHandler) (p exc : Z) : option Z :=
  match tbl with
  | None => Some (-1)
  | Some tbl =>
      match find_try (tryItems tbl) p with
      | None => Some (-1)
      | Some t => '(hs, _) ← handlers_at (handlerData tbl) (handlerOff t); Some (first_match exc hs)
      end
  end.

Definition table_ok (tbl : TryCatchHandler) : Prop :=
  tries_ok (tryItems tbl) /\ triesSize tbl = Z.of_nat (length (tryItems tbl)) /\ bytes_ok (handlerData tbl).

(** A computation that returns [x] and only touches the world. *)
Definition yields {A} (m : M W A) (s : frame W) (x : A) : Prop := exists w, m s = Val x (with_world s w).

Lemma yields_bind {A B} (m : M W A) (k : A -> M W B) s x y :
  yields m s x -> (forall w, yields (k x) (with_world s w) y) -> yields (bind m k) s y.
Proof.
  intros [w Hm] Hk. destruct (Hk w) as [w' Hw]. exists w'. unfold bind. by rewrite Hm, Hw.
Qed.
Lemma yields_call {A} (f : W -> A * W) s x : (f (world s)).1 = x -> yields (call f) s x.
Proof. intros <-. exists (f (world s)).2. unfold call. by destruct (f (world s)). Qed.
Lemma yields_ret {A} (x : A) s : yields (ret x) s x.
Proof. exists (world s). by destruct s. Qed.
Lemma yields_delete ref s : yields (if negb (ref =? 0) then call_ (DeleteLocalRef ref) else ret tt) s tt.
Proof. destruct (negb _); [by apply yields_call|apply yields_ret]. Qed.
Lemma yields_scoped {A} ref (m : M W A) s x : yields m s x -> yields (scoped ref m) s x.
Proof.
  intros [w Hm]. unfold yields, scoped. rewrite Hm. destruct (yields_delete ref (with_world s w)) as [w' Hw].
  exists w'. unfold bind. by rewrite Hw.
Qed.

Lemma catch_loop_first pHandler exc f : forall it hs it' s,
  drain pHandler f it = Some (hs, it') -> yields (catch_loop f pHandler it exc) s (first_match exc hs).
Proof.
  induction f as [|f IH]; intros it hs it' s Hd; [done|]. cbn [drain catch_loop] in *.
  unfold mbind, option_bind in Hd.
  destruct (vmCatchIteratorNext pHandler it) as [[[h|] it1]|] eqn:En; [|..|done]; cbn [opt].
  2: { injection Hd as <- <-. apply yields_ret. }
  destruct (drain pHandler f it1) as [[hs1 it2]|] eqn:Ed; [|done]. injection Hd as <- <-.
  change (yields (if typeIdx h =? kNoIndex then ret (S32 (address h))
    else throwable <- call (dvmResolveClass dvmResolver (typeIdx h)) ;;
         caught <- scoped throwable
           (if throwable =? 0 then call_ ExceptionClear ;;; ret false
            else r <- call (IsInstanceOf exc throwable) ;; ret (negb (r =? 0))) ;;
         if caught : bool then ret (S32 (address h)) else catch_loop f pHandler it1 exc) s (first_match exc (h :: hs1))).
  cbn [first_match]. unfold matches. destruct (typeIdx h =? kNoIndex); [apply yields_ret|]. cbn [orb].
  eapply yields_bind; [apply yields_call, (law_resolve laws)|]. intros w.
  eapply (yields_bind _ _ _ (negb (cls (typeIdx h) =? 0) && instance exc (cls (typeIdx h)))).
  - apply yields_scoped. destruct (cls (typeIdx h) =? 0); cbn [negb andb].
    + eapply yields_bind; [by apply yields_call|]. intros. apply yields_ret.
    + eapply yields_bind; [by apply yields_call|]. intros.
      cbn [world with_world]. rewrite (law_instance laws). apply yields_ret.
  - intros w1. destruct (negb _ && _); [apply yields_ret|]. by eapply IH.
Qed.

Lemma find_block_target tbl p exc a s :
  match tbl with Some tbl => table_ok tbl | None => True end -> in_u 32 p -> target tbl p exc = Some a ->
  exists w, dvmFindCatchBlock p exc tbl s = Val a (with_world s w) /\ (0 <= a -> pending w = 0).
Proof.
  intros Ht Hp Ha. destruct tbl as [tbl|]; cbn [dvmFindCatchBlock target] in *.
  2: { injection Ha as <-. destruct (yields_ret (-1) s) as [w Hw]. exists w. split; [done|lia]. }
  assert (Hf : yields (findCatchInMethod p tbl exc) s a).
  { destruct Ht as (Hok & Hsz & Hb). unfold findCatchInMethod. rewrite (wrap_small 32 p) by done.
    rewrite vmFindCatchHandler_offset by done. destruct (find_try (tryItems tbl) p) as [t|].
    - unfold mbind, option_bind in Ha. destruct (handlers_at _ _) as [[hs e]|] eqn:Eh; [|done]. injection Ha as <-.
      destruct (handlers_drain tbl _ _ _ (MkHandler (U32 (uninit 0)) (U32 (uninit 1))) Hb Eh) as (it & it' & Hi & Hd & _).
      unfold mbind, option_bind. rewrite Hi. cbn [opt]. eapply catch_loop_first. exact Hd.
    - injection Ha as <-. apply yields_ret. }
  destruct Hf as [w Hw]. exists (ExceptionClear w). unfold bind. rewrite Hw. split; [done|].
  intros _. apply (law_clear laws).
Qed.

(** ** Delivery *)

(** A scoped jump: the reference is deleted, the pending exception stays. *)
Lemma scoped_jump {A} ref (m : M W A) s c s1 : m s = Jump c s1 ->
  exists w, scoped ref m s = Jump c (with_world s1 w) /\ pending w = pending (world s1).
Proof.
  intros Hm. unfold scoped. rewrite Hm. destruct (negb (ref =? 0)).
  - exists (DeleteLocalRef ref (world s1)). split; [done|]. apply (law_delete laws).
  - exists (world s1). split; [by destruct s1|done].
Qed.
Lemma scoped_val {A} ref (m : M W A) s x s1 : m s = Val x s1 ->
  exists w, scoped ref m s = Val x (with_world s1 w) /\ pending w = pending (world s1).
Proof.
  intros Hm. unfold scoped. rewrite Hm. destruct (negb (ref =? 0)).
  - exists (DeleteLocalRef ref (world s1)). split; [done|]. apply (law_delete laws).
  - exists (world s1). split; [by destruct s1|done].
Qed.

(** The notification of the tracer. *)
Lemma notify_yields c exc p a s :
  exists w, (match c, tracer with
     | Some c, Some tr =>
         match onException tr with
         | None => ret tt
         | Some f => call_ (f c exc (U32 p) a)
         end
     | _, _ => ret tt
     end) s = Val tt (with_world s w) /\ pending w = pending (world s).
Proof.
  assert (Hn : exists w, ret tt s = Val tt (with_world s w) /\ pending w = pending (world s))
    by (exists (world s); by destruct s).
  destruct c as [c|]; [|done]. destruct tracer as [tr|] eqn:Et; [|done].
  destruct (onException tr) as [f|] eqn:Ef; [|done].
  exists (f c exc (U32 p) a (world s)). split; [done|]. by eapply (law_tracer laws).
Qed.

(** Registers, return value and buffers as before, at another point. *)
Definition at_pc (p : Z) (w : W) (s : frame W) : frame W :=
  MkFrame p (inst s) (fp s) (fp_flags s) (retval s) (args_tmp s) (methodCallRange s) (tctx s) w.

(** [exceptionThrown] inside the scope of its local reference. *)
Definition deliver (exception : Z) : M W unit :=
  call_ ExceptionClear ;;;
  if exception =? 0 then GOTO_bail
  else
    p <- gets pc ;;
    catchRelPc <- dvmFindCatchBlock p exception (triesHandlers code) ;;
    c <- gets tctx ;;
    (match c, tracer with
     | Some c, Some tr =>
         match onException tr with
         | None => ret tt
         | Some f => call_ (f c exception (U32 p) catchRelPc)
         end
     | _, _ => ret tt
     end) ;;;
    if catchRelPc <? 0 then call_ (Throw exception) ;;; GOTO_bail
    else
      set_pc catchRelPc ;;;
      i <- FETCH 0 ;;
      if INST_INST i =? opcode_value OP_MOVE_EXCEPTION then call_ (Throw exception) else ret tt.

Lemma exceptionThrown_deliver :
  exceptionThrown = (exception <- call ExceptionOccurred ;; scoped exception (deliver exception) ;;; FINISH 0).
Proof. done. Qed.

Lemma bind_val {A B} (m : M W A) (k : A -> M W B) s x s1 : m s = Val x s1 -> bind m k s = k x s1.
Proof. intros Hm. unfold bind. by rewrite Hm. Qed.
Lemma bind_jump {A B} (m : M W A) (k : A -> M W B) s c s1 : m s = Jump c s1 -> bind m k s = Jump c s1.
Proof. intros Hm. unfold bind. by rewrite Hm. Qed.

Lemma deliver_cases exc a s :
  match triesHandlers code with Some tbl => table_ok tbl | None => True end -> in_u 32 (pc s) ->
  target (triesHandlers code) (pc s) exc = Some a ->
  (exc = 0 -> deliver exc s = Jump GotoBail (with_world s (ExceptionClear (world s)))) /\
  (exc <> 0 -> a < 0 -> exists w, deliver exc s = Jump GotoBail (with_world s w) /\ pending w = exc) /\
  (forall i, exc <> 0 -> 0 <= a -> insns code !!z a = Some i ->
    exists w, deliver exc s = Val tt (at_pc a w s) /\ pending w = if i mod 256 =? 0x0d then exc else 0).
Proof.
  intros Ht Hp Ha. split; [by intros ->|].
  destruct (find_block_target (triesHandlers code) (pc s) exc a (with_world s (ExceptionClear (world s))) Ht Hp Ha)
    as (w1 & Hf & Hw1).
  set (s2 := with_world s w1). destruct (notify_yields (tctx s) exc (pc s) a s2) as (w2 & Hn & Hw2).
  assert (Hd : exc <> 0 -> deliver exc s =
    (if a <? 0 then call_ (Throw exc) ;;; GOTO_bail
     else set_pc a ;;; i <- FETCH 0 ;;
       if INST_INST i =? opcode_value OP_MOVE_EXCEPTION then call_ (Throw exc) else ret tt) (with_world s w2)).
  { intros He. unfold deliver. rewrite (bind_val _ _ _ tt (with_world s (ExceptionClear (world s)))) by done.
    replace (exc =? 0) with false by lia. rewrite (bind_val _ _ _ (pc s) (with_world s (ExceptionClear (world s)))) by done.
    rewrite (bind_val _ _ _ _ _ Hf). rewrite (bind_val _ _ _ (tctx s) s2) by done.
    by rewrite (bind_val _ _ _ _ _ Hn). }
  split.
  - intros He Hneg. rewrite (Hd He). replace (a <? 0) with true by lia.
    exists (Throw exc w2). split; [done|]. apply (law_throw laws).
  - intros i He Hpos Hi. rewrite (Hd He). replace (a <? 0) with false by lia.
    rewrite (bind_val _ _ _ tt (at_pc a w2 s)) by done.
    rewrite (bind_val _ _ _ i (at_pc a w2 s)).
    2: { unfold FETCH, bind, gets, opt. simpl. by rewrite Z.add_0_r, Hi. }
    unfold INST_INST. change 0xff with (2 ^ 8 - 1). rewrite land_mask by lia. change (wrap 8 i) with (i mod 256).
    change (opcode_value OP_MOVE_EXCEPTION) with 0x0d. destruct (i mod 256 =? 0x0d).
    + exists (Throw exc w2). split; [done|]. apply (law_throw laws).
    + exists w2. split; [done|]. rewrite Hw2. by apply Hw1.
Qed.

(** C6: exception delivery.  With an exception pending, control goes to the
    clause [target] selects, the exception pending again exactly if the
    handler starts with move-exception, or, when no clause matches, out of
    the method with the exception pending; registers and flags are kept.
    Without a pending exception the method is left. *)
Theorem exceptionThrown_correct s a :
  match triesHandlers code with Some tbl => table_ok tbl | None => True end -> in_u 32 (pc s) ->
  target (triesHandlers code) (pc s) (pending (world s)) = Some a ->
  let exc := pending (world s) in
  (exc = 0 -> exists w, exceptionThrown s = Jump GotoBail (with_world s w) /\ pending w = 0) /\
  (exc <> 0 -> a < 0 -> exists w, exceptionThrown s = Jump GotoBail (with_world s w) /\ pending w = exc) /\
  (forall i, exc <> 0 -> 0 <= a -> insns code !!z a = Some i ->
    exists w, exceptionThrown s = Jump (Finish 0) (at_pc a w s) /\
      pending w = if i mod 256 =? 0x0d then exc else 0).
Proof.
  intros Ht Hp Ha exc. set (s1 := with_world s (ExceptionOccurred (world s)).2).
  assert (Hocc : call ExceptionOccurred s = Val exc s1).
  { unfold call. pose proof (law_occurred laws (world s)). unfold s1.
    destruct (ExceptionOccurred (world s)). by simplify_eq/=. }
  rewrite exceptionThrown_deliver, (bind_val _ _ _ _ _ Hocc).
  destruct (deliver_cases exc a s1 Ht Hp Ha) as (B0 & B1 & B2). split_and!.
  - intros H0. destruct (scoped_jump exc _ s1 _ _ (B0 H0)) as (w & Hs & Hw). exists w.
    rewrite (bind_jump _ _ _ _ _ Hs), Hw. split; [done|]. apply (law_clear laws).
  - intros H1 H2. destruct (B1 H1 H2) as (w & Hb & Hw). destruct (scoped_jump exc _ s1 _ _ Hb) as (w' & Hs & Hw').
    exists w'. rewrite (bind_jump _ _ _ _ _ Hs), Hw'. done.
  - intros i H1 H2 Hi. destruct (B2 i H1 H2 Hi) as (w & Hb & Hw).
    destruct (scoped_val exc _ s1 _ _ Hb) as (w' & Hs & Hw'). exists w'.
    rewrite (bind_val _ _ _ _ _ Hs), Hw'. done.
Qed.

End Throw.

End VmThrow.
