(* ===== verification/VmMarshal.v ===== *)
(** * Argument marshalling and the tracer's policy

    What [marshal] (the argument loops of [INVOKE_METHOD] and
    [INVOKE_STATIC_METHOD], InterpC-portable.cpp) puts in the [jvalue]
    array, for both encodings of the register list, and what
    [TRACED_INVOKE] makes of the tracer's answer. *)
From S2P Require Import Prelude DexOpcodes VmEnv VmSwitch VmArith VmObject VmInvoke VmInterp VmFrame.
From S2P Require Import VmIsa VmRefine VmRefineOps.
Import DexOpcodes VmEnv VmObject VmInvoke VmFrame VmIsa VmRefine VmRefineOps.
Local Open Scope cint_scope.
Local Open Scope vm_scope.

Module VmMarshal.

(** ** Specification *)

(** Register words a parameter takes; the types a shorty may have. *)
Definition width (c : Z) : nat := if (c =? ch_J) || (c =? ch_D) then 2 else 1.
Definition words (types : list Z) : nat := sum_list (width <$> types).
Definition type_ok (c : Z) : Prop := is_Some (prim_of_char c) \/ c = ch_L.

(** The parameters' values among the values of the register words: a wide
    one is all in its first register. *)
Fixpoint passed (types vals : list Z) : list (Z * Z) :=
  match types, vals with
  | c :: types, v :: _ => (c, v) :: passed types (drop (width c) vals)
  | _, _ => []
  end.

(** The [jvalue] [a] holds [v]: 64 bits for J, D and L, the low 32 otherwise. *)
Definition holds (c a v : Z) : Prop :=
  if (c =? ch_J) || (c =? ch_D) || (c =? ch_L) then a = v else U32 a = U32 v.

(** The registers of the argument words: consecutive, or the five nibbles. *)
Definition arg_registers (range : bool) (vsrc1 vdst : Z) : list Z :=
  if range then (fun k => vdst + k) <$> seqZ 0 vsrc1
  else take (Z.to_nat (vsrc1 / 16))
    [vdst mod 16; vdst / 16 mod 16; vdst / 256 mod 16; vdst / 4096; vsrc1 mod 16].

Section Marshal.
Context {W : Type} `{E : VmEnv W}.
Context (s : frame W) (Hs : frame_ok s).

(** The array entry after the store. *)
Definition stored (c old v : Z) : Z :=
  match prim_of_char c with Some (PLong | PDouble) | None => v | Some _ => put32 old v end.

Lemma prim_char c p : prim_of_char c = Some p ->
  c = match p with PBoolean => 90 | PByte => 66 | PChar => 67 | PShort => 83 | PInt => 73 | PFloat => 70
      | PLong => 74 | PDouble => 68 end.
Proof.
  unfold prim_of_char. destruct c as [|q|]; try done.
  repeat (destruct q as [q|q|]; try done; try by intros [= <-]).
Qed.

Lemma put32_low old v : U32 (put32 old v) = U32 v.
Proof.
  rewrite put32_cell. unfold cell, wrap. by rewrite Z.add_comm, Z.mod_add, Z.mod_mod by lia.
Qed.

Lemma stored_holds c old v : type_ok c -> holds c (stored c old v) v.
Proof.
  intros [[p Hp]| ->]; [|done]. unfold stored, holds. rewrite Hp. rewrite (prim_char _ _ Hp).
  destruct p; cbn; try done; apply put32_low.
Qed.

Lemma store_arg_eval args (i : nat) f old : args !! i = Some old ->
  store_arg args (Z.of_nat i) f s = Val (<[i := f old]> args) s.
Proof.
  intros Hi. unfold store_arg, bind, opt. pose proof (lookup_lt_Some _ _ _ Hi).
  unfold zlookup. destruct (Z.leb_spec 0 (Z.of_nat i)); [|lia]. rewrite Nat2Z.id, Hi. cbn [ret].
  rewrite zset_Some by lia. by rewrite Nat2Z.id.
Qed.

Lemma set_argument_eval args c (i : nat) r v old :
  type_ok c -> fp s !!z r = Some v -> in_u 64 v -> args !! i = Some old ->
  SET_ARGUMENT args c (Z.of_nat i) r s = Val (<[i := stored c old v]> args, Z.of_nat (width c)) s.
Proof.
  intros Hc Hv Hr Hi.
  assert (Hst : forall (m : M W Z) x f w, reads m s x -> f x old = stored c old v -> w = Z.of_nat (width c) ->
    (v <- m ;; a <- store_arg args (Z.of_nat i) (f v) ;; ret (a, w)) s =
    Val (<[i := stored c old v]> args, Z.of_nat (width c)) s).
  { intros m x f w Hm Hf ->. rewrite (bind_reads _ _ _ _ Hm). unfold bind at 1.
    by rewrite (store_arg_eval _ _ _ _ Hi), Hf. }
  assert (H32 : reads (GET_REGISTER r) s (U32 v)) by (eapply reads_bind; [by apply reads_raw|apply reads_ret]).
  assert (H64 : reads (GET_REGISTER_WIDE r) s (S64 v)) by (eapply reads_bind; [by apply reads_raw|apply reads_ret]).
  assert (Hraw : reads (GET_RAW r) s v) by by apply reads_raw.
  assert (Hp32 : put32 old (U32 v) = put32 old v) by (unfold put32; by rewrite wrap_wrap).
  unfold SET_ARGUMENT. destruct Hc as [[p Hp]| ->].
  - unfold stored in *. rewrite Hp in *. pose proof (prim_char _ _ Hp) as Ec.
    destruct p; subst c; first
      [ apply (Hst _ _ (fun v old => put32 old v) 1 H32); [exact Hp32|done]
      | apply (Hst _ _ (fun v _ => U64 v) 2 H64); [by rewrite wrap_swrap, wrap_small|done]
      | apply (Hst _ _ (fun v _ => U64 v) 2 Hraw); [by rewrite wrap_small|done] ].
  - apply (Hst _ _ (fun v _ => U64 v) 1 Hraw); [by rewrite wrap_small|done].
Qed.

(** ** The loop *)

(** The array after storing the parameters from entry [i] on. *)
Fixpoint fill (args : list Z) (i : nat) (types vals : list Z) : list Z :=
  match types, vals with
  | c :: types, v :: _ =>
      fill (<[i := stored c (default 0 (args !! i)) v]> args) (S i) types (drop (width c) vals)
  | _, _ => args
  end.

Lemma width_pos c : (1 <= width c <= 2)%nat.
Proof. unfold width. case_match; lia. Qed.
Lemma length_fill types : forall args i vals, length (fill args i types vals) = length args.
Proof.
  induction types as [|c types IH]; intros args i [|v vals]; simpl; try done. by rewrite IH, length_insert.
Qed.

Section Loop.
Context (this range : bool) (types : list Z) (vsrc1 vdst : Z).
Context (regs vals : list Z).
Context (Hregs : forall k r, regs !! k = Some r -> arg_register range vsrc1 vdst (Z.of_nat k) = Some r).
Context (Hvals : Forall2 (fun r v => fp s !!z r = Some v) regs vals).
Let n0 : nat := if this then 1 else 0.

Lemma regs_value k v : vals !! k = Some v -> exists r, arg_register range vsrc1 vdst (Z.of_nat k) = Some r /\
  fp s !!z r = Some v /\ in_u 64 v.
Proof.
  intros Hv. destruct (Forall2_lookup_r _ _ _ _ _ Hvals Hv) as (r & Hr & Hf).
  exists r. split; [by apply Hregs|]. split; [done|]. eapply zlookup_Forall; [apply Hs|exact Hf].
Qed.

Lemma copy_args_fill ts : forall pre args (idx : nat) fuel,
  types = pre ++ ts -> Forall type_ok ts -> (idx + words ts = length vals)%nat ->
  (n0 + length pre + length ts <= length args)%nat -> (length vals <= fuel + idx)%nat ->
  copy_args fuel this range types vsrc1 vdst (Z.of_nat (length vals)) args (Z.of_nat (n0 + length pre)) (Z.of_nat idx) s =
  Val (fill args (n0 + length pre) ts (drop idx vals)) s.
Proof.
  induction ts as [|c ts IH]; intros pre args idx fuel Ht Hok Hw Hlen Hf.
  - unfold words in Hw; simpl in Hw. destruct fuel as [|fuel]; cbn [copy_args]; [done|].
    by replace (Z.of_nat idx <? Z.of_nat (length vals)) with false by lia.
  - change (idx + (width c + words ts) = length vals)%nat in Hw. pose proof (width_pos c).
    destruct fuel as [|fuel]; [lia|]. cbn [copy_args].
    replace (Z.of_nat idx <? Z.of_nat (length vals)) with true by lia.
    destruct (lookup_lt_is_Some_2 vals idx ltac:(lia)) as [v Hv].
    destruct (regs_value idx v Hv) as (r & Hr & Hfp & Hu).
    destruct (lookup_lt_is_Some_2 args (n0 + length pre)%nat ltac:(simpl in Hlen; lia)) as [old Hold].
    assert (Hthis : this && (Z.of_nat (n0 + length pre) =? 0) = false)
      by (subst n0; destruct this; [|done]; apply Z.eqb_neq; lia).
    rewrite Hthis, Hr. inversion Hok as [|?? Hc Hok']; subst.
    assert (Hchar : char_at (pre ++ c :: ts) (if this then Z.of_nat (n0 + length pre) - 1 else Z.of_nat (n0 + length pre)) s
      = Val c s).
    { unfold char_at. replace (if this then _ else _) with (Z.of_nat (length pre)) by (subst n0; destruct this; lia).
      unfold zlookup. destruct (Z.leb_spec 0 (Z.of_nat (length pre))); [|lia].
      rewrite Nat2Z.id, <- app_assoc. cbn [app]. by rewrite list_lookup_middle. }
    unfold bind at 1. unfold bind at 1. rewrite Hchar. rewrite (set_argument_eval args c _ r v old) by done.
    rewrite (drop_S _ _ _ Hv). cbn [fst snd fill]. rewrite Hold. cbn [default].
    replace (Z.of_nat (n0 + length pre) + 1) with (Z.of_nat (n0 + length (pre ++ [c])))
      by (rewrite length_app; simpl; lia).
    replace (Z.of_nat idx + Z.of_nat (width c)) with (Z.of_nat (idx + width c)) by lia.
    rewrite (IH (pre ++ [c])).
    + replace (S (n0 + length pre)) with (n0 + length (pre ++ [c]))%nat by (rewrite length_app; simpl; lia).
      rewrite <- (drop_S _ _ _ Hv), drop_drop. done.
    + by rewrite <- app_assoc.
    + done.
    + lia.
    + rewrite length_insert, length_app. simpl in *. lia.
    + lia.
Qed.

End Loop.

Lemma fill_below types : forall args i vals j, (j < i)%nat -> fill args i types vals !! j = args !! j.
Proof.
  induction types as [|c types IH]; intros args i [|v vals] j Hj; simpl; try done.
  rewrite IH by lia. apply list_lookup_insert_ne. lia.
Qed.

Lemma fill_passed types : forall args i vals k c v,
  Forall type_ok types -> passed types vals !! k = Some (c, v) -> (i + length types <= length args)%nat ->
  exists a, fill args i types vals !! (i + k)%nat = Some a /\ holds c a v.
Proof.
  induction types as [|c0 types IH]; intros args i [|v0 vals] k c v Hok Hk Hl; simpl in *; try done.
  inversion Hok as [|?? Hc Hok']; subst. destruct k as [|k]; simpl in Hk.
  - injection Hk as <- <-. rewrite fill_below by lia. rewrite Nat.add_0_r, list_lookup_insert_eq by lia.
    eexists. split; [done|]. by apply stored_holds.
  - destruct (IH (<[i:=stored c0 (default 0 (args !! i)) v0]> args) (S i) (drop (width c0) (v0 :: vals)) k c v)
      as (a & Ha & Hh); [done|done|rewrite length_insert; lia|].
    exists a. split; [|done]. rewrite <- Ha. f_equal. lia.
Qed.

Lemma low_nibble x : x & 0x0f = x mod 16.
Proof. by apply (land_mask 4). Qed.
Lemma mid_nibble x m n : 0 <= n -> m >> n = 0x0f -> (x & m) >> n = x / 2 ^ n mod 16.
Proof. intros Hn Hm. by rewrite Z.shiftr_land, Hm, low_nibble, Z.shiftr_div_pow2. Qed.

Lemma arg_registers_spec range vsrc1 vdst (k : nat) r :
  arg_registers range vsrc1 vdst !! k = Some r -> arg_register range vsrc1 vdst (Z.of_nat k) = Some r.
Proof.
  unfold arg_registers, arg_register. destruct range.
  - rewrite list_lookup_fmap. destruct (seqZ 0 vsrc1 !! k) as [z|] eqn:Ez; [|done]. apply lookup_seqZ in Ez as [-> _].
    simpl. by intros [= <-].
  - intros [Hk _]%lookup_take_Some.
    do 5 (destruct k as [|k]; [injection Hk as <-; cbn; f_equal;
      first [apply low_nibble | by apply (mid_nibble _ _ 4) | by apply (mid_nibble _ _ 8)
            | by rewrite Z.shiftr_div_pow2] |]). done.
Qed.

(** [marshal] is [fill]. *)
Lemma marshal_fill (this : bool) types vsrc1 vdst vals :
  let range := methodCallRange s in
  let n0 := if this then 1%nat else 0%nat in
  0 <= vsrc1 -> Forall type_ok types ->
  Forall2 (fun r v => fp s !!z r = Some v) (arg_registers range vsrc1 vdst) vals ->
  length vals = Z.to_nat (if range then vsrc1 else vsrc1 / 16) -> (n0 + words types = length vals)%nat ->
  exists args0, (n0 + length types <= length args0)%nat /\
    let args := fill args0 n0 types (drop n0 vals) in
    marshal this types vsrc1 vdst s =
      Val args (if range then s else MkFrame (pc s) (inst s) (fp s) (fp_flags s) (retval s) args
                                       (methodCallRange s) (tctx s) (world s)).
Proof.
  intros range n0 H0 Hok Hvals Hlen Hw.
  assert (Hts : (length types <= words types)%nat).
  { clear. induction types as [|c ts IH]; [done|]. change (words (c :: ts)) with (width c + words ts)%nat.
    pose proof (width_pos c). simpl. lia. }
  set (count := if range then vsrc1 else vsrc1 / 16).
  assert (Hcount : count = Z.of_nat (length vals)).
  { rewrite Hlen. unfold count. destruct range; [lia|]. pose proof (Z.div_pos vsrc1 16). lia. }
  assert (Hloop : forall args, (n0 + length types <= length args)%nat ->
    copy_args (Z.to_nat count) this range types vsrc1 vdst count args 0 0 s =
    Val (fill args n0 types (drop n0 vals)) s).
  { intros args Hl. pose proof (fun args idx fuel => copy_args_fill this range types vsrc1 vdst _ vals
      (arg_registers_spec range vsrc1 vdst) Hvals types [] args idx fuel eq_refl Hok) as Hc.
    cbn [length] in Hc. fold n0 in Hc. rewrite Hcount, Nat2Z.id. destruct this.
    - destruct (length vals) as [|n] eqn:En; [unfold n0 in Hw; lia|]. cbn [copy_args].
      change (0 <? Z.of_nat (S n)) with true. cbn [andb Z.eqb].
      unfold bind at 1. cbn [ret fst snd]. rewrite <- En in *.
      apply (Hc args 1%nat n); unfold n0 in *; cbn [Nat.add] in *; lia.
    - apply (Hc args 0%nat (length vals)); unfold n0 in *; lia. }
  unfold marshal. rewrite bind_gets. fold range. destruct range eqn:Er.
  - set (args0 := List.map _ _). exists args0.
    assert (Hl0 : length args0 = Z.to_nat vsrc1) by (unfold args0; by rewrite length_map, length_seqZ).
    split; [lia|]. apply Hloop. lia.
  - assert (Hl5 : length (args_tmp s) = 5%nat) by apply Hs.
    assert (Hv5 : (length vals <= 5)%nat).
    { rewrite <- (Forall2_length Hvals). unfold arg_registers. rewrite length_take. simpl. lia. }
    exists (args_tmp s). split; [lia|]. cbv zeta. rewrite bind_gets. rewrite Z.shiftr_div_pow2 by lia.
    change (vsrc1 / 2 ^ 4) with count. unfold bind at 1. rewrite Hloop by lia. by rewrite <- Er.
Qed.

(** C7: argument marshalling, for range and register-list invokes, static or
    with a receiver: the loops stop, and every parameter's entry of the
    [jvalue] array holds the value of its register at the parameter's type -
    wide ones in one entry, taking two words - while nothing else of the
    frame but the scratch array changes. *)
Theorem marshal_correct (this : bool) types vsrc1 vdst vals :
  let range := methodCallRange s in
  let n0 := if this then 1%nat else 0%nat in
  0 <= vsrc1 -> Forall type_ok types ->
  Forall2 (fun r v => fp s !!z r = Some v) (arg_registers range vsrc1 vdst) vals ->
  length vals = Z.to_nat (if range then vsrc1 else vsrc1 / 16) -> (n0 + words types = length vals)%nat ->
  exists args, marshal this types vsrc1 vdst s =
      Val args (if range then s else MkFrame (pc s) (inst s) (fp s) (fp_flags s) (retval s) args
                                       (methodCallRange s) (tctx s) (world s)) /\
    forall k c v, passed types (drop n0 vals) !! k = Some (c, v) ->
      exists a, args !! (n0 + k)%nat = Some a /\ holds c a v.
Proof.
  intros range n0 H0 Hok Hvals Hlen Hw.
  destruct (marshal_fill this types vsrc1 vdst vals) as (args0 & Hl & Hm); [done..|].
  eexists. split; [exact Hm|]. intros k c v Hk. by apply fill_passed.
Qed.

End Marshal.

(** ** The tracer's policy *)
Section Trace.
Context {W : Type} `{E : VmEnv W}.
Context (s : frame W) (c : VmFrameCtx) (tr : VmTracer W).
Context (m : vmMethod) (receiver argc : Z) (args : list Z).

(** The frame with another return value, argument buffer and world. *)
Definition with_result (v : Z) (tmp : list Z) (w : W) : frame W :=
  MkFrame (pc s) (inst s) (fp s) (fp_flags s) v tmp (methodCallRange s) (tctx s) w.

Let opcode := INST_INST (inst s).

(** The callback after the call. *)
Definition notify_post : M W unit :=
  match onInvokePost tr with
  | None => ret tt
  | Some f => exc <- call ExceptionCheck ;; r <- gets retval ;; call_ (f c m opcode r exc)
  end.

(** The policy of this call, the mock, and the arguments, the buffer and the
    world after asking for it; without [onInvokePre] it is to step in. *)
Definition asked : Z * Z * list Z * list Z * W :=
  match onInvokePre tr with
  | Some f =>
      let '(p, mock, written, w) := f c m opcode receiver argc args (world s) in
      let a := write_args args written in
      (p, mock, a, if methodCallRange s then args_tmp s else store_back (args_tmp s) a, w)
  | None => (VM_INVOKE_STEP_IN, 0, args, args_tmp s, world s)
  end.
Definition step_in_is (a : list Z) (w : W) (r out : Z) (w' : W) : Prop :=
  exists g, stepIn tr = Some g /\ g c m opcode receiver argc a 0 w = (r, out, w').

(** the tracer's policy.  A mocked call is not made and its result is the
    mock; a call stepped into and handled is not made and has the result of
    the step; a step that aborts leaves the method with result 0; otherwise
    the call is made, with the result preset to 0; and without a tracer the
    invocation is the plain call.  The step and the call get the arguments
    as the callback left them. *)
Theorem TRACED_INVOKE_policy (x : list Z -> M W unit) :
  let go := TRACED_INVOKE m receiver argc args x in
  (tctx s = None \/ tracer (W := W) = None -> go s = x args s) /\
  (tctx s = Some c -> tracer = Some tr -> forall p mock a tmp w, asked = (p, mock, a, tmp, w) ->
    (p = VM_INVOKE_MOCK -> go s = notify_post (with_result (U64 mock) tmp w)) /\
    (forall out w', p = VM_INVOKE_STEP_IN -> step_in_is a w 0 out w' ->
      go s = notify_post (with_result (U64 out) tmp w')) /\
    (forall out w', p = VM_INVOKE_STEP_IN -> step_in_is a w 2 out w' ->
      go s = Jump GotoBail (with_result 0 tmp w')) /\
    (forall r out w', p = VM_INVOKE_STEP_IN -> step_in_is a w r out w' -> r <> 0 -> r <> 2 ->
      go s = (x a ;;; notify_post) (with_result (U64 out) tmp w')) /\
    (p <> VM_INVOKE_MOCK -> p <> VM_INVOKE_STEP_IN \/ stepIn tr = None ->
      go s = (x a ;;; notify_post) (with_result 0 tmp w))).
Proof.
  intros go. unfold go, TRACED_INVOKE. rewrite bind_gets. split.
  { intros [-> | Hn]; [done|]. destruct (tctx s); [|done]. by rewrite Hn. }
  intros Hc Ht. rewrite Hc, Ht. unfold asked, step_in_is, with_result, VM_INVOKE_MOCK, VM_INVOKE_STEP_IN.
  intros p mock a tmp w Hp.
  assert (Hset : forall A (k : M W A), (set_retval 0 ;;; k) s = k (with_result 0 (args_tmp s) (world s))) by done.
  rewrite Hset, bind_gets. cbv zeta. change (inst (with_result 0 (args_tmp s) (world s))) with (inst s). fold opcode.
  unfold bind, call, pack4, pack3, notify_post, with_result, args_written.
  destruct (onInvokePre tr) as [f|].
  - cbn. destruct (f c m opcode receiver argc args (world s)) as [[[p' mock'] wr] w1] eqn:Ef. cbn.
    injection Hp as <- <- <- <- <-. destruct (methodCallRange s); cbn; split_and!.
    all: try (intros ->; cbn; done).
    all: try (intros out w' -> (g & -> & Hr); cbn; by rewrite Hr).
    all: try (intros r out w' -> (g & -> & Hr) H0 H2; cbn; rewrite Hr; cbn;
              replace (r =? 0) with false by lia; by replace (r =? 2) with false by lia).
    all: intros Hm Hs; replace (p' =? 2) with false by lia; destruct Hs as [Hs| ->];
      [by replace (p' =? 1) with false by lia|by destruct (p' =? 1)].
  - injection Hp as <- <- <- <- <-. split_and!.
    + done.
    + intros out w' _ (g & -> & Hr). cbn. by rewrite Hr.
    + intros out w' _ (g & -> & Hr). cbn. by rewrite Hr.
    + intros r out w' _ (g & -> & Hr) H0 H2. cbn. rewrite Hr. cbn.
      replace (r =? 0) with false by lia. by replace (r =? 2) with false by lia.
    + intros _ [Hs|Hs]; [done|]. by rewrite Hs.
Qed.

End Trace.

End VmMarshal.
