(* ===== verification/VmProgress.v ===== *)
(** * When a handler is defined

    The footprint theorem leaves room for undefined behaviour.  Here it is
    excluded: a handler whose instruction lies in the code, names registers
    of the frame and meets what the bytecode verifier checks - payloads,
    array types, the arity of invocations - always ends in a jump.  The
    registers and lengths come from the instruction formats of the Dalvik
    documentation, not from the handlers. *)
From S2P Require Import Prelude CFloat DexOpcodes VmEnv VmSwitch VmArith VmObject VmInvoke VmInterp.
From S2P Require Import VmFrame VmFootprint VmIsa VmRefine VmRefineOps VmMarshal.
Import CFloat DexOpcodes VmEnv VmSwitch VmArith VmObject VmInvoke VmInterp.
Import VmFrame VmFootprint VmIsa VmRefine VmRefineOps VmMarshal.
Local Open Scope cint_scope.
Local Open Scope vm_scope.

Module VmProgress.

(** ** Instruction formats *)

(** The documentation's names: units, registers, kind of extra data. *)
Inductive fmt :=
  | F10x | F12x | F11n | F11x | F10t | F20t | F22x | F21t | F21s | F21h | F21c | F23x | F22b | F22t | F22s | F22c
  | F30t | F32x | F31i | F31t | F31c | F35c | F3rc | F51l.

Definition format (op : Opcode) : fmt :=
  match op with
  | OP_NOP | OP_RETURN_VOID => F10x
  | OP_MOVE | OP_MOVE_WIDE | OP_MOVE_OBJECT | OP_ARRAY_LENGTH => F12x
  | OP_MOVE_FROM16 | OP_MOVE_WIDE_FROM16 | OP_MOVE_OBJECT_FROM16 => F22x
  | OP_MOVE_16 | OP_MOVE_WIDE_16 | OP_MOVE_OBJECT_16 => F32x
  | OP_CONST_4 => F11n
  | OP_CONST_16 | OP_CONST_WIDE_16 => F21s
  | OP_CONST_HIGH16 | OP_CONST_WIDE_HIGH16 => F21h
  | OP_CONST | OP_CONST_WIDE_32 => F31i
  | OP_CONST_WIDE => F51l
  | OP_CONST_STRING_JUMBO => F31c
  | OP_CONST_STRING | OP_CONST_CLASS | OP_CHECK_CAST | OP_NEW_INSTANCE => F21c
  | OP_INSTANCE_OF | OP_NEW_ARRAY => F22c
  | OP_FILLED_NEW_ARRAY => F35c
  | OP_FILLED_NEW_ARRAY_RANGE => F3rc
  | OP_FILL_ARRAY_DATA | OP_PACKED_SWITCH | OP_SPARSE_SWITCH => F31t
  | OP_GOTO => F10t | OP_GOTO_16 => F20t | OP_GOTO_32 => F30t
  | _ =>
      let v := opcode_value op in
      if between 0x0a 0x11 v || between 0x1d 0x1e v || (v =? 0x27) then F11x
      else if between 0x2d 0x31 v || between 0x44 0x51 v || between 0x90 0xaf v then F23x
      else if between 0x32 0x37 v then F22t
      else if between 0x38 0x3d v then F21t
      else if between 0x52 0x5f v then F22c
      else if between 0x60 0x6d v then F21c
      else if between 0x6e 0x72 v then F35c
      else if between 0x74 0x78 v then F3rc
      else if between 0x7b 0x8f v || between 0xb0 0xcf v then F12x
      else if between 0xd0 0xd7 v then F22s
      else if between 0xd8 0xe2 v then F22b
      else F10x
  end.

Definition fmt_size (f : fmt) : Z :=
  match f with
  | F10x | F12x | F11n | F11x | F10t => 1
  | F20t | F22x | F21t | F21s | F21h | F21c | F23x | F22b | F22t | F22s | F22c => 2
  | F30t | F32x | F31i | F31t | F31c | F35c | F3rc => 3
  | F51l => 5
  end.

(** The formats have the lengths of the disassembler's table. *)
Lemma format_size op : implemented op = true -> fmt_size (format op) = Smali.Smali.size_of_byte (opcode_value op).
Proof. by destruct op. Qed.

Section Progress.
Context {W : Type} `{E : VmEnv W}.

(** The registers the instruction at [s] names; [None] when part of it is
    not in the code. *)
Definition named (f : fmt) (s : frame W) : option (list Z) :=
  let i := inst s in
  match f with
  | F10x | F10t => Some []
  | F12x => Some [fA i; fB i]
  | F11n => Some [fA i]
  | F11x => Some [fAA i]
  | F20t => _ ← unit_of s 1; Some []
  | F22x => b ← unit_of s 1; Some [fAA i; b]
  | F21t | F21s | F21h | F21c => _ ← unit_of s 1; Some [fAA i]
  | F23x => u ← unit_of s 1; Some [fAA i; u mod 256; u / 256]
  | F22b => u ← unit_of s 1; Some [fAA i; u mod 256]
  | F22t | F22s | F22c => _ ← unit_of s 1; Some [fA i; fB i]
  | F30t => _ ← unit_of s 1; _ ← unit_of s 2; Some []
  | F32x => a ← unit_of s 1; b ← unit_of s 2; Some [a; b]
  | F31i | F31t | F31c => _ ← unit_of s 1; _ ← unit_of s 2; Some [fAA i]
  | F35c => _ ← unit_of s 1; u ← unit_of s 2;
            if fB i <=? 5 then Some (arg_registers false (fAA i) u) else None
  | F3rc => _ ← unit_of s 1; u ← unit_of s 2; Some (arg_registers true (fAA i) u)
  | F51l => _ ← unit_of s 1; _ ← unit_of s 2; _ ← unit_of s 3; _ ← unit_of s 4; Some [fAA i]
  end.

Definition fits (op : Opcode) (s : frame W) : Prop :=
  exists l, named (format op) s = Some l /\ Forall (fun r => 0 <= r < Z.of_nat (length (fp s))) l.

(** ** What the verifier and the platform add *)

(** Pinning array [o] gives [n] bytes for each of its elements. *)
Definition pinned (n o : Z) (w : W) : Prop :=
  let '(len, w) := GetArrayLength o w in
  exists bytes, (GetPrimitiveArrayCritical o w).1 = Some bytes /\ n * U32 len <= Z.of_nat (length bytes).

(** The register, if it does not hold null, holds such an array. *)
Definition holds_array (n : Z) (s : frame W) (r : Z) : Prop :=
  forall o, fp s !!z r = Some o -> o <> 0 -> pinned n o (world s).

Definition payload_at (s : frame W) (p : Z) : Prop :=
  exists lo hi, unit_of s 1 = Some lo /\ unit_of s 2 = Some hi /\ p = pc s + (lo .| S32 (hi << 16)).

(** Array data of [width] bytes per element, all of it in the code. *)
Definition array_payload (p width : Z) : Prop :=
  exists lo hi, insns code !!z p = Some 0x0300 /\ insns code !!z (p + 1) = Some width /\
    insns code !!z (p + 2) = Some lo /\ insns code !!z (p + 3) = Some hi /\ width ∈ [1; 2; 4; 8] /\
    p + 4 + (width * (lo + hi * 2 ^ 16) + 1) / 2 <= Z.of_nat (length (insns code)).

(** The descriptor of a resolved type is not empty. *)
Definition type_resolves (s : frame W) : Prop :=
  forall ref t, unit_of s 1 = Some ref -> (dvmResolveTypeUtf dvmResolver ref (world s)).1 = Some t -> t <> [].

(** The shorty of a resolved method is one, and its words are the words
    passed. *)
Definition method_resolves (static range : bool) (s : frame W) : Prop :=
  forall ref m, unit_of s 1 = Some ref -> (dvmResolveMethod dvmResolver ref static (world s)).1 = Some m ->
  exists c types, shorty m = c :: types /\ Forall type_ok types /\
    ((if static then 0 else 1) + words types)%nat = Z.to_nat (if range then fAA (inst s) else fB (inst s)).

Definition verified (op : Opcode) (s : frame W) : Prop :=
  match op with
  | OP_AGET | OP_APUT => forall u, unit_of s 1 = Some u -> holds_array 4 s (u mod 256)
  | OP_AGET_WIDE | OP_APUT_WIDE => forall u, unit_of s 1 = Some u -> holds_array 8 s (u mod 256)
  | OP_FILL_ARRAY_DATA => exists p width, payload_at s p /\ array_payload p width /\ holds_array width s (fAA (inst s))
  | OP_PACKED_SWITCH => exists p first targets, payload_at s p /\ packed_payload p first targets /\
      first + Z.of_nat (length targets) <= 2 ^ 31
  | OP_SPARSE_SWITCH => exists p keys targets, payload_at s p /\ sparse_payload p keys targets
  | OP_NEW_ARRAY | OP_FILLED_NEW_ARRAY | OP_FILLED_NEW_ARRAY_RANGE => type_resolves s
  | OP_INVOKE_STATIC => method_resolves true false s
  | OP_INVOKE_STATIC_RANGE => method_resolves true true s
  | OP_INVOKE_VIRTUAL | OP_INVOKE_SUPER | OP_INVOKE_DIRECT | OP_INVOKE_INTERFACE =>
      (0 < fB (inst s)) /\ method_resolves false false s
  | OP_INVOKE_VIRTUAL_RANGE | OP_INVOKE_SUPER_RANGE | OP_INVOKE_DIRECT_RANGE | OP_INVOKE_INTERFACE_RANGE =>
      (0 < fAA (inst s)) /\ method_resolves false true s
  | _ => True
  end.

(** ** Definedness *)

Section Defined.
Context (s0 : frame W).
Abbreviation n := (Z.of_nat (length (fp s0))).
Abbreviation here := (good (fun _ => True) s0).

(** From any frame at this instruction, [m] has a result: a value with [Q],
    at the same instruction, or a jump. *)
Definition defined {A} (m : M W A) (Q : A -> Prop) : Prop := forall s, here s ->
  match m s with Val x s' => here s' /\ Q x | Jump _ _ => True | Undef => False end.
Abbreviation ok m := (defined m (fun _ => True)).

Lemma defined_keeps {A} (m : M W A) Q :
  keepsQ (fun _ => True) (fun _ => True) s0 m Q -> (forall s, here s -> m s <> Undef) -> defined m Q.
Proof. intros Hk Hd s Hs. specialize (Hk s Hs). specialize (Hd s Hs). by destruct (m s). Qed.

Lemma defined_weaken {A} (m : M W A) (P Q : A -> Prop) : defined m P -> (forall x, P x -> Q x) -> defined m Q.
Proof. intros Hm HPQ s Hs. specialize (Hm s Hs). destruct (m s); [|done..]. destruct Hm; auto. Qed.
Lemma defined_bindQ {A B} (m : M W A) P (k : A -> M W B) Q :
  defined m P -> (forall x, P x -> defined (k x) Q) -> defined (bind m k) Q.
Proof.
  intros Hm Hk s Hs. unfold bind. specialize (Hm s Hs). destruct (m s) as [x s1| |]; [|done..].
  destruct Hm as [Hs1 HP]. by apply (Hk x HP).
Qed.
Lemma ok_bind {A B} (m : M W A) (k : A -> M W B) : ok m -> (forall x, ok (k x)) -> ok (bind m k).
Proof. intros Hm Hk. eapply defined_bindQ; [exact Hm|]. auto. Qed.
Lemma ok_ret {A} (x : A) : ok (ret x).
Proof. by intros s Hs. Qed.
Lemma ok_goto {A} c : ok (goto (A := A) c).
Proof. by intros s Hs. Qed.
Lemma ok_gets {A} (f : frame W -> A) : ok (gets f).
Proof. by intros s Hs. Qed.
Lemma ok_bind_inst {B} (k : Z -> M W B) : ok (k (inst s0)) -> ok (bind (gets inst) k).
Proof. intros Hk s Hs. unfold bind, gets. rewrite (same_inst _ _ _ (proj2 Hs)). by apply Hk. Qed.
Lemma ok_bind_fetch {B} off u (k : Z -> M W B) :
  unit_of s0 off = Some u -> ok (k u) -> ok (bind (FETCH off) k).
Proof.
  intros Hu Hk s Hs. unfold FETCH, bind, gets, opt. rewrite (same_pc _ _ _ (proj2 Hs)). unfold unit_of in Hu.
  rewrite Hu. by apply Hk.
Qed.
Lemma ok_call {A} (f : W -> A * W) : ok (call f).
Proof. apply defined_keeps; [apply keeps_call|]. intros s _. unfold call. by destruct (f (world s)). Qed.
Lemma ok_call_ f : ok (call_ f).
Proof. apply ok_call. Qed.
Lemma ok_retval : defined (gets retval) (in_u 64).
Proof. apply defined_keeps; [apply keepsQ_retval|]. by intros ? _. Qed.
Lemma ok_set_retval v : in_u 64 v -> ok (set_retval v).
Proof. intros. apply defined_keeps; [by apply keeps_set_retval|done]. Qed.
Lemma ok_set_range b : ok (set_methodCallRange b).
Proof. apply defined_keeps; [apply keeps_set_range|]. by intros ? _. Qed.

Lemma here_reg s r : here s -> 0 <= r < n -> is_Some (fp s !!z r) /\ is_Some (fp_flags s !!z r).
Proof.
  intros [Hok Hs] Hr. split; apply zlookup_is_Some; rewrite ?(ok_length _ Hok), (same_size _ _ _ Hs); exact Hr.
Qed.

Lemma ok_get_raw r : 0 <= r < n -> defined (GET_RAW r) (in_u 64).
Proof.
  intros Hr. apply defined_keeps; [apply keepsQ_get_raw|]. intros s Hs.
  destruct (here_reg s r Hs Hr) as [[x Hx] _]. unfold GET_RAW, bind, gets, opt. by rewrite Hx.
Qed.
Lemma ok_put_raw r x : 0 <= r < n -> in_u 64 x -> ok (PUT_RAW r x).
Proof.
  intros Hr Hx. apply defined_keeps; [by apply keeps_put_raw|]. intros s Hs.
  unfold PUT_RAW, bind, gets, opt. rewrite zset_Some; [done|]. by rewrite (same_size _ _ _ (proj2 Hs)).
Qed.
Lemma ok_get_flags r : 0 <= r < n -> ok (GET_REGISTER_FLAGS r).
Proof.
  intros Hr. apply defined_keeps; [apply keeps_get_flags|]. intros s Hs.
  destruct (here_reg s r Hs Hr) as [_ [x Hx]]. unfold GET_REGISTER_FLAGS, bind, gets, opt. by rewrite Hx.
Qed.
Lemma ok_set_flags r x : 0 <= r < n -> flag_ok x -> ok (SET_REGISTER_FLAGS r x).
Proof.
  intros Hr Hx. apply defined_keeps; [by apply keeps_set_flags|]. intros s [Hok Hs].
  unfold SET_REGISTER_FLAGS, bind, gets, opt. rewrite zset_Some; [done|].
  by rewrite (ok_length _ Hok), (same_size _ _ _ Hs).
Qed.
Lemma ok_raw r : 0 <= r < n -> ok (GET_RAW r).
Proof. intros. by eapply defined_weaken; [apply ok_get_raw|]. Qed.
Lemma ok_delete r : 0 <= r < n -> ok (DELETE_LOCAL_REF r).
Proof.
  intros Hr. apply ok_bind; [by apply ok_get_flags|]. intros f. case_match; [|apply ok_ret].
  apply ok_bind; [by apply ok_raw|]. intros. apply ok_call_.
Qed.

Lemma ok_scoped {A} ref (m : M W A) : ok m -> ok (scoped ref m).
Proof.
  intros Hm s Hs. unfold scoped. specialize (Hm s Hs).
  assert (Hdel : ok (if negb (ref =? 0) then call_ (DeleteLocalRef ref) else ret tt))
    by (destruct (negb _); [apply ok_call_|apply ok_ret]).
  destruct (m s) as [x s'|c s'|]; simpl in *; [| |done].
  - apply (ok_bind _ (fun _ => ret x) Hdel (fun _ => ok_ret x)). apply Hm.
  - by destruct (negb _).
Qed.

Lemma ok_set_as r v x (P : Z -> Z) : 0 <= r < n -> ok v -> flag_ok x -> (forall z, in_u 64 (P z)) ->
  ok (DELETE_LOCAL_REF r ;;; y <- v ;; PUT_RAW r (P y) ;;; SET_REGISTER_FLAGS r x).
Proof.
  intros Hr Hv Hx HP. apply ok_bind; [by apply ok_delete|]. intros _. apply ok_bind; [done|]. intros y.
  apply ok_bind; [by apply ok_put_raw|]. intros _. by apply ok_set_flags.
Qed.
Lemma ok_SET_REGISTER r v : 0 <= r < n -> ok v -> ok (SET_REGISTER r v).
Proof. intros. apply ok_set_as; try done; [by left|apply wrap_32_64]. Qed.
Lemma ok_SET_REGISTER_WIDE r v : 0 <= r < n -> ok v -> ok (SET_REGISTER_WIDE r v).
Proof. intros. apply ok_set_as; try done; [by left|apply wrap_64_64]. Qed.
Lemma ok_SET_REGISTER_DOUBLE r v : 0 <= r < n -> ok v -> ok (SET_REGISTER_DOUBLE r v).
Proof. intros. apply ok_set_as; try done; [by left|apply wrap_64_64]. Qed.
Lemma ok_SET_REGISTER_AS_OBJECT r v : 0 <= r < n -> ok v -> ok (SET_REGISTER_AS_OBJECT r v).
Proof. intros. apply ok_set_as; try done; [by right|apply wrap_64_64]. Qed.
Lemma ok_SET_REGISTER_INT r v : 0 <= r < n -> ok v -> ok (SET_REGISTER_INT r v).
Proof. intros. apply ok_SET_REGISTER; [done|]. apply ok_bind; [done|intros; apply ok_ret]. Qed.
Lemma ok_SET_REGISTER_FLOAT r v : 0 <= r < n -> ok v -> ok (SET_REGISTER_FLOAT r v).
Proof.
  intros Hr Hv. apply ok_bind; [by apply ok_delete|]. intros _. apply ok_bind; [done|]. intros x.
  eapply defined_bindQ; [by apply ok_get_raw|]. intros o Ho.
  apply ok_bind; [apply ok_put_raw; [done|by apply put32_in_u]|]. intros _. apply ok_set_flags; [done|by left].
Qed.

Lemma ok_assoc {A B C} (m : M W A) (k : A -> M W B) (f : B -> M W C) :
  ok (x <- m ;; y <- k x ;; f y) -> ok (y <- (x <- m ;; k x) ;; f y).
Proof. intros Hk s Hs. specialize (Hk s Hs). revert Hk. unfold bind. by destruct (m s). Qed.

End Defined.
End Progress.

Abbreviation ok s0 m := (defined s0 m (fun _ => True)).

(** One step along the monad's structure; the registers are in range by an
    assumption on their numeric fields. *)
Ltac ok_reg := rewrite ?INST_AA_fAA, ?INST_A_fA, ?INST_B_fB, ?low_byte, ?high_byte; first [assumption | split; assumption].
Ltac ok_step :=
  match goal with
  | |- defined ?s0 (bind (ret ?x) ?k) _ => change (ok s0 (k x))
  | |- defined _ (bind (bind _ _) _) _ => apply ok_assoc
  | |- context [negb (Zpos ?n =? 0)] => change (negb (Zpos n =? 0)) with true; cbv iota
  | |- context [negb (0 =? 0)] => change (negb (0 =? 0)) with false; cbv iota
  | |- defined _ (bind (gets inst) _) _ => apply ok_bind_inst
  | |- defined _ (bind (gets retval) _) _ => eapply defined_bindQ; [apply ok_retval|intros ? ?]
  | |- defined _ (bind (GET_RAW _) _) _ => eapply defined_bindQ; [apply ok_get_raw; ok_reg|intros ? ?]
  | |- defined _ (bind (GET_REGISTER_AS_OBJECT _) _) _ => eapply defined_bindQ; [apply ok_get_raw; ok_reg|intros ? ?]
  | |- defined _ (bind (FETCH _) _) _ => eapply ok_bind_fetch; [eassumption|]
  | |- defined _ (bind _ _) _ => apply ok_bind; [|intros ?]
  | |- defined _ (ret _) _ => apply ok_ret
  | |- defined _ (goto _) _ => apply ok_goto
  | |- defined _ (gets _) _ => apply ok_gets
  | |- defined _ (call _) _ => apply ok_call
  | |- defined _ (call_ _) _ => apply ok_call_
  | |- defined _ (scoped _ _) _ => apply ok_scoped
  | |- defined _ (GET_RAW _) _ => apply ok_raw; ok_reg
  | |- defined _ (GET_REGISTER_FLAGS _) _ => apply ok_get_flags; ok_reg
  | |- defined _ (SET_REGISTER _ _) _ => apply ok_SET_REGISTER; [ok_reg|]
  | |- defined _ (SET_REGISTER_WIDE _ _) _ => apply ok_SET_REGISTER_WIDE; [ok_reg|]
  | |- defined _ (SET_REGISTER_INT _ _) _ => apply ok_SET_REGISTER_INT; [ok_reg|]
  | |- defined _ (SET_REGISTER_FLOAT _ _) _ => apply ok_SET_REGISTER_FLOAT; [ok_reg|]
  | |- defined _ (SET_REGISTER_DOUBLE _ _) _ => apply ok_SET_REGISTER_DOUBLE; [ok_reg|]
  | |- defined _ (SET_REGISTER_AS_OBJECT _ _) _ => apply ok_SET_REGISTER_AS_OBJECT; [ok_reg|]
  | |- defined _ (set_retval (put32 _ _)) _ => apply ok_set_retval, put32_in_u; assumption
  | |- defined _ (set_retval (U64 _)) _ => apply ok_set_retval, wrap_64_64
  | |- defined _ (set_retval 0) _ => apply ok_set_retval; done
  | |- defined _ (set_retval _) _ => apply ok_set_retval; assumption
  | |- defined _ (set_methodCallRange _) _ => apply ok_set_range
  | |- defined _ (match ?x with _ => _ end) _ => destruct x eqn:?
  end.
(** The exception check comes first: it is not to be unfolded under [bind]. *)
Ltac ok_auto := repeat (cbv beta zeta; cbn [fst snd]; ok_step || keeps_unfold).

(** Registers and units of the instruction, as hypotheses. *)
Ltac unpack_fits H :=
  let l := fresh "l" in let Hl := fresh "Hl" in let Hr := fresh "Hr" in
  destruct H as (l & Hl & Hr);
  match type of Hl with named (format ?op) _ = _ =>
    let f := eval vm_compute in (format op) in change (format op) with f in Hl end;
  cbn [named] in Hl; simplify_option_eq; rewrite ?List.Forall_cons_iff in Hr; destruct_and?.

Section Opcodes.
Context {W : Type} `{E : VmEnv W}.

(** The handlers whose definedness rests on [verified]. *)
Definition special (op : Opcode) : bool :=
  match op with
  | OP_AGET | OP_APUT | OP_AGET_WIDE | OP_APUT_WIDE | OP_FILL_ARRAY_DATA | OP_PACKED_SWITCH | OP_SPARSE_SWITCH
  | OP_NEW_ARRAY | OP_FILLED_NEW_ARRAY | OP_FILLED_NEW_ARRAY_RANGE => true
  | _ => is_invoke op
  end.

Lemma plain_handler op (s0 : frame W) : implemented op = true -> special op = false -> fits op s0 ->
  ok s0 (handler op).
Proof.
  intros Hi Hp Hf. destruct op; try discriminate Hi; try discriminate Hp; unpack_fits Hf; handler_unfold; ok_auto.
Qed.

(** ** The handlers that rely on [verified] *)

Section Special.
Context (s : frame W) (Hs : frame_ok s) (Hu : Forall (in_u 16) (insns code)).

Lemma here_world w : good (fun _ => True) s (with_world s w).
Proof. apply (good_world _ s s w). split; [done|by split]. Qed.

(** What is defined from every frame at the instruction is defined here. *)
Lemma ok_at {A} (m : M W A) w : ok s m -> m (with_world s w) <> Undef.
Proof. intros Hm Hx. specialize (Hm _ (here_world w)). by rewrite Hx in Hm. Qed.
Lemma ok_now {A} (m : M W A) : ok s m -> m s <> Undef.
Proof. intros Hm. replace s with (with_world s (world s)) by (by destruct s). by apply ok_at. Qed.

Lemma reg_some r : 0 <= r < Z.of_nat (length (fp s)) -> exists o, fp s !!z r = Some o.
Proof. intros Hr. by apply zlookup_is_Some. Qed.

(** *** Arrays pinned in memory *)

Lemma check_index_or o idx (m : M W unit) :
  (forall len w, GetArrayLength o (world s) = (len, w) -> idx < U32 len -> m (with_world s w) <> Undef) ->
  (check_index o idx ;;; m) s <> Undef.
Proof.
  intros Hm. unfold check_index, bind, call. destruct (GetArrayLength o (world s)) as [len w] eqn:El.
  destruct (Z.leb_spec (U32 len) idx); [by simpl; destruct (GetArrayLength o w)|]. by apply (Hm len w).
Qed.

Lemma critical_bound (k : nat) (bytes : list Z) idx len : 0 <= idx < len ->
  Z.of_nat k * len <= Z.of_nat (length bytes) -> (Z.to_nat (Z.of_nat k * idx) + k <= length bytes)%nat.
Proof. nia. Qed.

Lemma array_access access :
  fits OP_AGET s ->
  (forall vdst o idx, 0 <= vdst < Z.of_nat (length (fp s)) -> o <> 0 -> 0 <= idx ->
     (forall u, unit_of s 1 = Some u -> fp s !!z (u mod 256) = Some o) ->
     (access vdst o idx ;;; check_exception ;;; FINISH 2) s <> Undef) ->
  HANDLE_OP_ARRAY access s <> Undef.
Proof.
  intros Hf Ha. unpack_fits Hf. unfold HANDLE_OP_ARRAY. rewrite bind_gets. cbv zeta.
  erewrite bind_reads by (by apply reads_fetch).
  destruct (reg_some (H mod 256)) as [o Ho]; [by split|]. destruct (reg_some (H / 256)) as [x Hx]; [by split|].
  rewrite low_byte, high_byte. erewrite bind_reads by (by apply reads_raw).
  destruct (Z.eqb_spec o 0) as [->|Hne]; [by apply ok_now; ok_auto|].
  erewrite bind_reads by (apply (reads_u4 _ _ (S32 x)); unfold int_reg; by rewrite Hx).
  apply Ha; [rewrite INST_AA_fAA; by split|done|by apply wrap_in_u|]. intros u Hu1. by simplify_eq.
Qed.

Lemma pinned_at n r o len w : holds_array n s r -> fp s !!z r = Some o -> o <> 0 ->
  GetArrayLength o (world s) = (len, w) ->
  exists bytes w', GetPrimitiveArrayCritical o w = (Some bytes, w') /\ n * U32 len <= Z.of_nat (length bytes).
Proof.
  intros Hh Ho Hne Hl. specialize (Hh o Ho Hne). unfold pinned in Hh. rewrite Hl in Hh.
  destruct (GetPrimitiveArrayCritical o w) as [d w']. destruct Hh as (bytes & Hd & Hb). simpl in Hd. subst. eauto.
Qed.

Lemma aget_ok k set : fits OP_AGET s -> (forall u, unit_of s 1 = Some u -> holds_array (Z.of_nat k) s (u mod 256)) ->
  (forall r v, 0 <= r < Z.of_nat (length (fp s)) -> ok s v -> ok s (set r v)) ->
  HANDLE_OP_AGET (aget_critical k set) s <> Undef.
Proof.
  intros Hf Hh Hset. pose proof Hf as Hf'. apply array_access; [done|]. unpack_fits Hf'.
  intros vdst o idx Hv Hne Hi Ho. unfold aget_critical. rewrite bind_bind. apply check_index_or.
  intros len w Hl Hlt. destruct (pinned_at _ _ _ _ _ (Hh _ eq_refl) (Ho _ eq_refl) Hne Hl) as (bytes & w' & Hc & Hb).
  unfold bind at 1 2, call. simpl. rewrite Hc. unfold bind at 1. simpl.
  unfold critical_load. rewrite decide_True by (by apply (critical_bound k bytes idx (U32 len))). simpl.
  apply (ok_at (_ ;;; check_exception ;;; FINISH 2) w'). ok_auto. apply Hset; [done|apply ok_ret].
Qed.

Lemma aput_ok k get : fits OP_APUT s -> (forall u, unit_of s 1 = Some u -> holds_array (Z.of_nat k) s (u mod 256)) ->
  (forall r, 0 <= r < Z.of_nat (length (fp s)) -> exists x, reads (get r) s x) ->
  HANDLE_OP_APUT (aput_critical k get) s <> Undef.
Proof.
  intros Hf Hh Hget. pose proof Hf as Hf'. apply array_access; [done|]. unpack_fits Hf'.
  intros vdst o idx Hv Hne Hi Ho. unfold aput_critical. rewrite bind_bind. apply check_index_or.
  intros len w Hl Hlt. destruct (pinned_at _ _ _ _ _ (Hh _ eq_refl) (Ho _ eq_refl) Hne Hl) as (bytes & w' & Hc & Hb).
  destruct (Hget vdst Hv) as [x Hx].
  unfold bind at 1 2, call. simpl. rewrite Hc. unfold bind at 1. simpl.
  specialize (Hx w'). unfold with_world in Hx. simpl in Hx. unfold bind at 1. rewrite Hx.
  unfold critical_store. rewrite decide_True by (by apply (critical_bound k bytes idx (U32 len))). simpl.
  apply (ok_at (check_exception ;;; FINISH 2) (ReleasePrimitiveArrayCritical o _ true w')). ok_auto.
Qed.

(** *** Payloads in the code *)

Lemma unit_somes p n : 0 <= p -> p + Z.of_nat n <= Z.of_nat (length (insns code)) ->
  exists l, length l = n /\ forall s', units_at p n s' = Val l s'.
Proof.
  revert p. induction n as [|n IH]; intros p Hp Hn; [by exists []|].
  destruct (zlookup_is_Some (insns code) p) as [u Hu']; [lia|]. destruct (IH (p + 1)) as (l & Hl & He); [lia..|].
  exists (u :: l). split; [by rewrite <- Hl|]. intros s'. cbn [units_at]. unfold unit_at, bind. rewrite Hu'. simpl.
  by rewrite He.
Qed.

Lemma bytes_somes p nb : 0 <= p -> 0 <= nb -> p + (nb + 1) / 2 <= Z.of_nat (length (insns code)) ->
  exists l, Z.of_nat (length l) <= nb /\ forall s', bytes_at p nb s' = Val l s'.
Proof.
  intros Hp Hn Hl. pose proof (Z.div_pos (nb + 1) 2). destruct (unit_somes p (Z.to_nat ((nb + 1) / 2))) as (l & _ & He); [lia|lia|].
  eexists. split; [|intros s'; unfold bytes_at, bind; by rewrite He]. rewrite length_take. lia.
Qed.

Lemma copy_ok o p nb w :
  (exists bytes, (GetPrimitiveArrayCritical o w).1 = Some bytes /\ nb <= Z.of_nat (length bytes)) ->
  0 <= p + 4 -> 0 <= nb -> p + 4 + (nb + 1) / 2 <= Z.of_nat (length (insns code)) ->
  exists w', copy_array_data o p nb (with_world s w) = Val tt (with_world s w').
Proof.
  intros (bytes & Hb & Hl) Hp Hn Hc. destruct (bytes_somes (p + 4) nb) as (l & Hle & He); [done..|].
  unfold copy_array_data, bind, call. simpl. destruct (GetPrimitiveArrayCritical o w) as [d w1].
  simpl in Hb. subst d. rewrite He. simpl. unfold memcpy_to. rewrite decide_True by lia. simpl. by eexists.
Qed.

Lemma payload_off p lo hi : payload_at s p -> unit_of s 1 = Some lo -> unit_of s 2 = Some hi ->
  pc s + (lo .| S32 (hi << 16)) = p.
Proof. intros (? & ? & ? & ? & ->) ??. by simplify_eq. Qed.

Lemma fill_data_ok p width r o : array_payload p width -> holds_array width s r -> fp s !!z r = Some o ->
  exists b w, dvmInterpHandleFillArrayData o p s = Val b (with_world s w).
Proof.
  intros (lo & hi & Hm & Hw & Hlo & Hhi & Hwidth & Hend) Hh Ho. unfold dvmInterpHandleFillArrayData.
  destruct (Z.eqb_spec o 0) as [->|Hne]; [by do 2 eexists|].
  pose proof (zlookup_Forall _ _ _ _ Hu Hlo) as Hlo16. pose proof (zlookup_Forall _ _ _ _ Hu Hhi) as Hhi16.
  simpl in Hlo16, Hhi16.
  assert (Hsz : lo .| (hi << 16) = lo + hi * 2 ^ 16).
  { rewrite Z.lor_comm, Z.add_comm. apply lor_shiftl_add; [lia|done]. }
  unfold unit_at, bind. rewrite Hm, Hw, Hlo, Hhi. simpl. rewrite Hsz. unfold call.
  destruct (GetArrayLength o (world s)) as [len w] eqn:El.
  destruct (pinned_at _ _ _ _ _ Hh Ho Hne El) as (bytes & w' & Hc & Hb).
  destruct (Z.ltb_spec (U32 len) (lo + hi * 2 ^ 16)) as [?|Hle]; [by do 2 eexists|].
  pose proof (zlookup_lt_Some _ _ _ Hm). unfold in_u in *. simpl in Hlo16, Hhi16.
  set (size := lo + hi * 2 ^ 16) in *.
  assert (Hcopy : exists w2, copy_array_data o p (U32 (size * width)) (with_world s w) = Val tt (with_world s w2)).
  { rewrite !elem_of_cons, elem_of_nil in Hwidth.
    assert (Hub : U32 (size * width) <= size * width).
    { apply Z.mod_le; [|done]. destruct Hwidth as [->|[->|[->|[->|[]]]]]; lia. }
    pose proof (wrap_in_u 32 (size * width) ltac:(done)) as Hr. unfold in_u in Hr.
    apply copy_ok; [|lia..|].
    - exists bytes. rewrite Hc. split; [done|]. nia.
    - etransitivity; [|exact Hend]. apply Z.add_le_mono_l, Z.div_le_mono; lia. }
  destruct Hcopy as [w2 Hcopy]. unfold with_world in Hcopy. simpl in Hcopy.
  rewrite !elem_of_cons, elem_of_nil in Hwidth.
  destruct Hwidth as [->|[->|[->|[->|[]]]]]; simpl; rewrite Hcopy; simpl; by do 2 eexists.
Qed.

Lemma switch_ok f p v : fits OP_PACKED_SWITCH s -> payload_at s p ->
  (forall testVal, in_s 32 testVal -> f p testVal s = Val (v testVal) s) -> switch_op f s <> Undef.
Proof.
  intros Hf Hp Hv. unpack_fits Hf. unfold switch_op. rewrite bind_gets.
  do 2 erewrite bind_reads by (by apply reads_fetch). cbv zeta. rewrite bind_gets, (payload_off p _ _ Hp) by done.
  destruct (reg_some (fAA (inst s))) as [o Ho]; [by split|]. rewrite INST_AA_fAA.
  erewrite bind_reads by (apply (reads_int _ _ (S32 o)); unfold int_reg; by rewrite Ho).
  unfold bind. by rewrite Hv by (by apply swrap_in_s).
Qed.

Lemma fill_array_ok p width : fits OP_FILL_ARRAY_DATA s -> payload_at s p -> array_payload p width ->
  holds_array width s (fAA (inst s)) -> op_OP_FILL_ARRAY_DATA s <> Undef.
Proof.
  intros Hf Hp Hd Hh. unpack_fits Hf. unfold op_OP_FILL_ARRAY_DATA. rewrite bind_gets.
  do 2 erewrite bind_reads by (by apply reads_fetch). cbv zeta. rewrite bind_gets, (payload_off p _ _ Hp) by done.
  destruct (reg_some (fAA (inst s))) as [o Ho]; [by split|]. rewrite INST_AA_fAA.
  erewrite bind_reads by (by apply reads_raw). destruct (fill_data_ok p width _ o Hd Hh Ho) as (b & w & He).
  unfold bind. rewrite He. by destruct b.
Qed.

(** *** Allocation *)

Lemma char_at_some (l : list Z) i : 0 <= i <= Z.of_nat (length l) -> exists c, forall s' : frame W, char_at l i s' = Val c s'.
Proof.
  intros Hi. destruct (zlookup_is_Some (l ++ [0]) i) as [c Hc]; [rewrite length_app; simpl; lia|].
  exists c. intros s'. unfold char_at. by rewrite Hc.
Qed.

Lemma ok_new_array c t len : ok s (NEW_ARRAY c t len).
Proof. unfold NEW_ARRAY. ok_auto. Qed.

Lemma ok_set_element c a i r : 0 <= r < Z.of_nat (length (fp s)) -> ok s (SET_ARRAY_ELEMENT c a i r).
Proof. intros Hr. unfold SET_ARRAY_ELEMENT. ok_auto. Qed.

Lemma ok_fill_range (k : nat) c a r i :
  (forall j, 0 <= j < Z.of_nat k -> 0 <= r + (i + j) < Z.of_nat (length (fp s))) -> ok s (fill_range k c a r i).
Proof.
  revert i. induction k as [|k IH]; intros i Hr; cbn [fill_range]; [apply ok_ret|].
  apply ok_bind; [apply ok_set_element; specialize (Hr 0); lia|]. intros _. apply IH. intros j Hj.
  specialize (Hr (j + 1)). lia.
Qed.
Lemma ok_fill_nibbles (k : nat) c a v i :
  (forall j, 0 <= j < Z.of_nat k -> 0 <= v / 16 ^ j mod 16 < Z.of_nat (length (fp s))) -> ok s (fill_nibbles k c a v i).
Proof.
  revert v i. induction k as [|k IH]; intros v i Hr; cbn [fill_nibbles]; [apply ok_ret|].
  apply ok_bind; [apply ok_set_element; specialize (Hr 0); rewrite low_nibble; rewrite Z.div_1_r in Hr; lia|].
  intros _. apply IH. intros j Hj. specialize (Hr (j + 1) ltac:(lia)).
  rewrite Z.shiftr_div_pow2, Z.div_div by lia. by rewrite Z.pow_add_r, Z.mul_comm in Hr by lia.
Qed.

Lemma new_array_ok : fits OP_NEW_ARRAY s -> type_resolves s -> op_OP_NEW_ARRAY s <> Undef.
Proof.
  intros Hf Ht. unpack_fits Hf. unfold op_OP_NEW_ARRAY. rewrite bind_gets.
  erewrite bind_reads by (by apply reads_fetch). destruct (reg_some (fB (inst s))) as [o Ho]; [by split|].
  rewrite INST_B_fB. erewrite bind_reads by (apply (reads_int _ _ (S32 o)); unfold int_reg; by rewrite Ho).
  case_match; [by apply ok_now; ok_auto|]. specialize (Ht H). unfold bind at 1, call at 1.
  destruct (dvmResolveTypeUtf _ _ _) as [t w]. destruct t as [t|]; [|done]. cbn [require_some].
  assert (Hl : (0 < length t)%nat) by (destruct t; [by destruct (Ht [])|simpl; lia]).
  rewrite bind_ret. destruct (char_at_some t 1) as [c Hc]; [lia|]. unfold bind at 1. rewrite Hc.
  apply (ok_at (x <- NEW_ARRAY c (drop 1 t) (S32 o) ;; _) w). apply ok_bind; [apply ok_new_array|]. intros x. ok_auto.
Qed.

(** The registers of a register list, range or nibbles. *)
Definition listed (u : Z) : Prop :=
  Forall (fun r => 0 <= r < Z.of_nat (length (fp s))) (arg_registers (methodCallRange s) (fAA (inst s)) u).

Lemma listed_fill c a u : listed u -> in_u 16 u -> in_u 16 (inst s) ->
  (methodCallRange s = false -> fB (inst s) <= 5) ->
  ok s (if methodCallRange s then fill_range (Z.to_nat (fAA (inst s))) c a u 0
        else vsrc1 <- (if fB (inst s) =? 5 then SET_ARRAY_ELEMENT c a 4 (fA (inst s)) ;;; ret (fB (inst s) - 1)
                       else ret (fB (inst s))) ;;
             fill_nibbles (Z.to_nat vsrc1) c a u 0).
Proof.
  intros Hl Hu16 Hi H5. unfold listed, arg_registers in Hl. rewrite List.Forall_forall in Hl.
  assert (HfB : fAA (inst s) / 16 = fB (inst s)) by (unfold fAA, fB; by rewrite Z.div_div).
  assert (HfA : fAA (inst s) mod 16 = fA (inst s)) by done.
  unfold in_u in *. simpl in Hu16, Hi. assert (Hb : 0 <= fB (inst s)) by (apply Z.div_pos; lia).
  destruct (methodCallRange s).
  - apply ok_fill_range. intros j Hj. apply Hl, list_elem_of_In, list_elem_of_fmap. exists j. split; [lia|].
    apply elem_of_seqZ. lia.
  - specialize (H5 eq_refl). rewrite HfB, HfA in Hl.
    assert (Hn : forall k, 0 <= k < Z.min 4 (fB (inst s)) -> 0 <= u / 16 ^ k mod 16 < Z.of_nat (length (fp s))).
    { intros k Hk. apply Hl, list_elem_of_In, (list_elem_of_lookup_2 _ (Z.to_nat k)), lookup_take_Some. split; [|lia].
      assert (k = 0 \/ k = 1 \/ k = 2 \/ k = 3) as [->|[->|[->| ->]]] by lia; simpl; rewrite ?Z.div_1_r; try done.
      f_equal. symmetry. apply Z.mod_small. split; [apply Z.div_pos; lia|apply Z.div_lt_upper_bound; lia]. }
    destruct (Z.eqb_spec (fB (inst s)) 5) as [E5|N5].
    + apply ok_assoc, ok_bind.
      * apply ok_set_element, Hl, list_elem_of_In, (list_elem_of_lookup_2 _ 4%nat), lookup_take_Some. split; [done|lia].
      * intros _. change (ok s (fill_nibbles (Z.to_nat (fB (inst s) - 1)) c a u 0)). apply ok_fill_nibbles. intros j Hj. apply Hn. lia.
    + change (ok s (fill_nibbles (Z.to_nat (fB (inst s))) c a u 0)). apply ok_fill_nibbles. intros j Hj. apply Hn. lia.
Qed.

Lemma filled_ok u : unit_of s 2 = Some u -> is_Some (unit_of s 1) -> listed u ->
  (methodCallRange s = false -> fB (inst s) <= 5) -> in_u 16 (inst s) -> type_resolves s -> filledNewArray s <> Undef.
Proof.
  intros Hu2 [r Hr] Hl H5 Hi Ht. unfold filledNewArray. rewrite bind_gets.
  do 2 erewrite bind_reads by (by apply reads_fetch). rewrite bind_gets. cbv zeta.
  specialize (Ht r). unfold bind at 1, call at 1.
  destruct (dvmResolveTypeUtf _ _ _) as [t w]. destruct t as [t|]; [|done].
  assert (Hlen : (0 < length t)%nat) by (destruct t; [by destruct (Ht [])|simpl; lia]).
  destruct (char_at_some t 1) as [c Hc]; [lia|]. unfold bind at 1. rewrite Hc.
  assert (Hu16 : in_u 16 u) by (eapply (zlookup_Forall (in_u 16)); [exact Hu|exact Hu2]).
  pose proof (fun a => listed_fill c a u Hl Hu16 Hi H5) as Hfill.
  destruct (_ || _); [done|]. destruct (_ && _); [done|].
  apply (ok_at (x <- NEW_ARRAY c (drop 1 t) _ ;; _) w). apply ok_bind; [apply ok_new_array|]. intros a.
  rewrite INST_B_fB, INST_A_fA, INST_AA_fAA. specialize (Hfill a).
  apply ok_bind; [ok_auto|]. intros _. destruct (methodCallRange s); (apply ok_bind; [exact Hfill|]; intros _; ok_auto).
Qed.

(** *** Invocations *)

Lemma ok_args_written a n : ok s (args_written a n).
Proof.
  intros s1 Hs1. pose proof (keeps_args_written (fun _ => True) (fun _ => True) s a n s1 Hs1) as Hk. revert Hk.
  unfold args_written, bind, gets. by destruct (methodCallRange s1).
Qed.
Lemma ok_traced m r k a x : (forall a, ok s (x a)) -> ok s (TRACED_INVOKE m r k a x).
Proof. intros Hx. unfold TRACED_INVOKE. ok_auto; try apply ok_args_written; done. Qed.
Lemma ok_call_method k c t m a : ok s (call_method k c t m a).
Proof. unfold call_method. ok_auto. Qed.
Lemma ok_nonvirtual m t c a : ok s (nonvirtual_call m t c a).
Proof. unfold nonvirtual_call. ok_auto; apply ok_call_method. Qed.

Lemma regs_values l : Forall (fun r => 0 <= r < Z.of_nat (length (fp s))) l ->
  exists vals, Forall2 (fun r v => fp s !!z r = Some v) l vals.
Proof.
  induction 1 as [|r l Hr _ (vals & IH)]; [by exists []|]. destruct (reg_some r Hr) as [v Hv].
  exists (v :: vals). by constructor.
Qed.

Lemma invoke_with_ok (this : bool) m t u x w c types : listed u -> in_u 16 (inst s) ->
  (methodCallRange s = false -> fB (inst s) <= 5) ->
  shorty m = c :: types -> Forall type_ok types ->
  ((if this : bool then 1 else 0) + words types)%nat = Z.to_nat (if methodCallRange s then fAA (inst s) else fB (inst s)) ->
  (forall c a, ok s (x c a)) -> invoke_with this m t (fAA (inst s)) u x (with_world s w) <> Undef.
Proof.
  intros Hl Hi H5 Hsh Hok Hw Hx. destruct (regs_values _ Hl) as [vals Hvals]. unfold invoke_with.
  rewrite Hsh. unfold bind at 1. cbn [char_at app zlookup]. change (char_at (c :: types) 0 (with_world s w)) with (Val c (with_world s w)).
  cbv beta iota zeta. change (drop 1 (c :: types)) with types.
  assert (HfB : fAA (inst s) / 16 = fB (inst s)) by (unfold fAA, fB; by rewrite Z.div_div).
  unfold in_u in Hi. simpl in Hi. assert (HA : 0 <= fAA (inst s)) by (apply Z.div_pos; lia).
  assert (Hlen : length vals = Z.to_nat (if methodCallRange s then fAA (inst s) else fAA (inst s) / 16)).
  { rewrite <- (Forall2_length Hvals). unfold arg_registers. destruct (methodCallRange s).
    - by rewrite length_fmap, length_seqZ.
    - specialize (H5 eq_refl). rewrite length_take. simpl. lia. }
  destruct (marshal_fill (with_world s w) (proj1 (here_world w)) this types (fAA (inst s)) u vals)
    as (args0 & _ & Hm); [done..|rewrite Hlen; simpl; destruct (methodCallRange s); by rewrite ?HfB|].
  unfold bind at 1. rewrite Hm.
  pose proof (keeps_marshal (fun _ => True) (fun _ => True) s this types (fAA (inst s)) u _ (here_world w)) as Hg.
  rewrite Hm in Hg. destruct Hg as [Hg _].
  intros Hundef. revert Hundef. match goal with |- ?k _ = Undef -> _ => assert (Hk : ok s k) end.
  - ok_auto; [by apply ok_traced|..].
  - intros Hundef. specialize (Hk _ Hg). by rewrite Hundef in Hk.
Qed.

Lemma shorty_fits static u m w : method_resolves static (methodCallRange s) s -> unit_of s 1 = Some u ->
  dvmResolveMethod dvmResolver u static (world s) = (Some m, w) -> exists c types,
    shorty m = c :: types /\ Forall type_ok types /\
    ((if negb static then 1 else 0) + words types)%nat =
      Z.to_nat (if methodCallRange s then fAA (inst s) else fB (inst s)).
Proof.
  intros Hm Hu1 Hr. destruct (Hm u m Hu1) as (c & types & Hs1 & Hok & Hw); [by rewrite Hr|].
  exists c, types. by destruct static.
Qed.

Lemma instance_ok u x : unit_of s 2 = Some u -> is_Some (unit_of s 1) -> listed u -> in_u 16 (inst s) ->
  (methodCallRange s = false -> fB (inst s) <= 5) -> 0 < (if methodCallRange s then fAA (inst s) else fB (inst s)) ->
  method_resolves false (methodCallRange s) s -> (forall m t c a, ok s (x m t c a)) ->
  resolve_receiver (fun m t v1 vd => INVOKE_METHOD m t v1 vd (x m t)) s <> Undef.
Proof.
  intros Hu2 [r Hr] Hl Hi H5 Hpos Hm Hx. unfold resolve_receiver. rewrite bind_gets.
  do 2 erewrite bind_reads by (by apply reads_fetch). cbv zeta. rewrite bind_gets.
  assert (Hthis : 0 <= (if methodCallRange s then u else u & 0x0f) < Z.of_nat (length (fp s))).
  { assert (HfB : fAA (inst s) / 16 = fB (inst s)) by (unfold fAA, fB; by rewrite Z.div_div).
    unfold listed, arg_registers in Hl. rewrite List.Forall_forall in Hl. destruct (methodCallRange s).
    - replace u with (u + 0) by lia. apply Hl, list_elem_of_In, list_elem_of_fmap. exists 0. split; [done|].
      apply elem_of_seqZ. lia.
    - rewrite low_nibble. apply Hl, list_elem_of_In, (list_elem_of_lookup_2 _ 0%nat), lookup_take_Some. split; [done|lia]. }
  destruct (reg_some _ Hthis) as [o Ho]. erewrite bind_reads by (by apply reads_raw).
  destruct (o =? 0); [done|]. unfold bind at 1, call at 1.
  destruct (dvmResolveMethod _ _ _ _) as [m w] eqn:Em. destruct m as [m|]; [|done].
  destruct (shorty_fits false r m w Hm Hr Em) as (c & types & Hsh & Hok & Hw).
  rewrite INST_AA_fAA. exact (invoke_with_ok true m o u (x m o) w c types Hl Hi H5 Hsh Hok Hw (Hx m o)).
Qed.

Lemma static_ok u : unit_of s 2 = Some u -> is_Some (unit_of s 1) -> listed u -> in_u 16 (inst s) ->
  (methodCallRange s = false -> fB (inst s) <= 5) -> method_resolves true (methodCallRange s) s ->
  invokeStatic s <> Undef.
Proof.
  intros Hu2 [r Hr] Hl Hi H5 Hm. unfold invokeStatic. rewrite bind_gets.
  do 2 erewrite bind_reads by (by apply reads_fetch). cbv zeta. unfold bind at 1, call at 1.
  destruct (dvmResolveMethod _ _ _ _) as [m w] eqn:Em. destruct m as [m|]; [|done].
  destruct (shorty_fits true r m w Hm Hr Em) as (c & types & Hsh & Hok & Hw).
  rewrite INST_AA_fAA. refine (invoke_with_ok false m 0 u _ w c types Hl Hi H5 Hsh Hok Hw _).
  intros c' a. ok_auto; apply ok_call_method.
Qed.

End Special.

Definition with_range (b : bool) (s : frame W) : frame W :=
  MkFrame (pc s) (inst s) (fp s) (fp_flags s) (retval s) (args_tmp s) b (tctx s) (world s).
Lemma with_range_ok b s : frame_ok s -> frame_ok (with_range b s).
Proof. by intros []. Qed.

(** The register list of the two list formats. *)
Lemma list_operands op s (range : bool) : format op = (if range then F3rc else F35c) -> fits op s ->
  exists u, unit_of s 2 = Some u /\ is_Some (unit_of s 1) /\ listed (with_range range s) u /\
    (range = false -> fB (inst s) <= 5).
Proof.
  intros Hop (l & Hl & Hr). rewrite Hop in Hl. destruct range; cbn [named] in Hl;
    destruct (unit_of s 1) as [r|]; try done; destruct (unit_of s 2) as [u|]; try done; simpl in Hl; exists u.
  - injection Hl as <-. split_and!; [done|by eexists|exact Hr|done].
  - destruct (Z.leb_spec (fB (inst s)) 5); [|done]. injection Hl as <-. split_and!; [done|by eexists|exact Hr|done].
Qed.

(** A handler that goes to an invoke target or to [filledNewArray]. *)
Lemma invoke_handler (t : M W unit) (range static : bool) op s : frame_ok s -> Forall (in_u 16) (insns code) -> in_u 16 (inst s) ->
  format op = (if range then F3rc else F35c) -> fits op s -> method_resolves static range s ->
  (static = false -> 0 < (if range then fAA (inst s) else fB (inst s))) ->
  t ∈ (if static then [invokeStatic] else [invokeVirtual; invokeSuper; invokeInterface; invokeDirect]) ->
  GOTO_invoke t range s <> Undef.
Proof.
  intros Hs Hu Hi Hop Hf Hm Hpos Ht. destruct (list_operands op s range Hop Hf) as (u & Hu2 & Hu1 & Hl & H5).
  change (t (with_range range s) <> Undef).
  pose proof (with_range_ok range s Hs) as Hs'. destruct static; rewrite !elem_of_cons, elem_of_nil in Ht.
  - destruct Ht as [->|[]]. by apply (static_ok (with_range range s) Hs' u).
  - specialize (Hpos eq_refl).
    destruct Ht as [->|[->|[->|[->|[]]]]]; eapply (instance_ok (with_range range s) Hs' u); try done; intros;
      first [apply ok_call_method | apply ok_nonvirtual].
Qed.

Lemma filled_handler (range : bool) op s : frame_ok s -> Forall (in_u 16) (insns code) -> in_u 16 (inst s) ->
  format op = (if range then F3rc else F35c) -> fits op s -> type_resolves s ->
  GOTO_invoke filledNewArray range s <> Undef.
Proof.
  intros Hs Hu Hi Hop Hf Ht. destruct (list_operands op s range Hop Hf) as (u & Hu2 & Hu1 & Hl & H5).
  change (filledNewArray (with_range range s) <> Undef).
  by apply (filled_ok (with_range range s) (with_range_ok range s Hs) Hu u).
Qed.

Lemma special_handler op s : frame_ok s -> Forall (in_u 16) (insns code) -> in_u 16 (inst s) ->
  special op = true -> fits op s -> verified op s -> handler op s <> Undef.
Proof.
  intros Hs Hu Hi Hp Hf Hv.
  destruct op; try discriminate Hp; clear Hp; cbn [verified] in Hv.
  all: lazymatch goal with
    | |- handler OP_FILLED_NEW_ARRAY _ <> _ => by apply (filled_handler false OP_FILLED_NEW_ARRAY)
    | |- handler OP_FILLED_NEW_ARRAY_RANGE _ <> _ => by apply (filled_handler true OP_FILLED_NEW_ARRAY_RANGE)
    | |- handler OP_INVOKE_STATIC _ <> _ =>
        apply (invoke_handler invokeStatic false true OP_INVOKE_STATIC); try done; by apply list_elem_of_singleton
    | |- handler OP_INVOKE_STATIC_RANGE _ <> _ =>
        apply (invoke_handler invokeStatic true true OP_INVOKE_STATIC_RANGE); try done; by apply list_elem_of_singleton
    | |- handler ?op _ <> _ =>
        try (destruct Hv as [Hpos Hv];
             let r := eval vm_compute in (match format op with F3rc => true | _ => false end) in
             eapply (invoke_handler _ r false op); try done; simpl; rewrite !elem_of_cons;
             solve [left; reflexivity | right; left; reflexivity | right; right; left; reflexivity
                   | right; right; right; left; reflexivity])
    end.
  - by apply new_array_ok.
  - destruct Hv as (p & width & Hp & Hd & Hh). by apply (fill_array_ok s Hu p width).
  - destruct Hv as (p & first & targets & Hp & Hd & Hl).
    apply (switch_ok s _ p (switch_spec (packed_cases first targets)) Hf Hp). intros. by apply packed_correct.
  - destruct Hv as (p & keys & targets & Hp & Hd).
    apply (switch_ok s _ p (switch_spec (zip keys targets)) Hf Hp). intros. by apply sparse_correct.
  - apply (aget_ok s Hs 4); [done|done|]. intros; by apply ok_SET_REGISTER.
  - apply (aget_ok s Hs 8); [done|done|]. intros; by apply ok_SET_REGISTER_WIDE.
  - apply (aput_ok s Hs 4); [done|done|]. intros r Hr. destruct (reg_some s r Hr) as [x Hx].
    eexists. apply (reads_u4 _ _ (S32 x)). unfold int_reg. by rewrite Hx.
  - apply (aput_ok s Hs 8); [done|done|]. intros r Hr. destruct (reg_some s r Hr) as [x Hx].
    eexists. apply (reads_wide _ _ (S64 x)). unfold long_reg. by rewrite Hx.
Qed.


End Opcodes.

End VmProgress.
