(* ===== verification/VmWitness.v ===== *)
(** * The interpreter's theorems at concrete inputs

    Each theorem of the interpreter's files applied to a small program over
    the platform of [VmWorld]. *)
From S2P Require Import Prelude DexCatch CFloat DexOpcodes VmEnv VmSwitch VmArith VmObject VmInvoke.
From S2P Require Import VmInterp VmWorld VmFrame VmFootprint VmIsa VmRefine VmRefineOps VmMachine.
From S2P Require Import VmThrow VmMarshal VmProgress.
Import DexCatch DexOpcodes VmEnv VmInvoke VmInterp VmFrame VmIsa VmMarshal.

Module VmWitness.

(** Closes side conditions on concrete frames and code. *)
Ltac concrete :=
  repeat first [split | constructor]; try done; try (by left); try (by right); unfold in_u, in_s, flag_ok in *; simpl in *; lia.

(** ** Switches *)

(** A packed switch on 10..12 at unit 0 and a sparse one on -1, 7 at unit 10. *)
Definition switch_code : vmCode := MkVmCode
  [0x0100; 3; 10; 0; 30; 0; 31; 0; 32; 0;
   0x0200; 2; 0xffff; 0xffff; 7; 0; 40; 0; 41; 0] None.

Lemma switch_correct_witness :
  VmSwitch.dvmInterpHandlePackedSwitch (E := VmWorld.demo_env switch_code None) 0 11 (VmWorld.start 1) =
    Val 31 (VmWorld.start 1) /\
  VmSwitch.dvmInterpHandleSparseSwitch (E := VmWorld.demo_env switch_code None) 10 7 (VmWorld.start 1) =
    Val 41 (VmWorld.start 1).
Proof.
  split.
  - refine (proj1 (VmSwitch.switch_correct (E := VmWorld.demo_env switch_code None) (VmWorld.start 1) 11 _ _)
      0 10 [30; 31; 32] _ _); [concrete..| |simpl; lia].
    unfold VmSwitch.packed_payload. split_and!; reflexivity || (simpl; lia).
  - refine (proj2 (VmSwitch.switch_correct (E := VmWorld.demo_env switch_code None) (VmWorld.start 1) 7 _ _)
      10 [-1; 7] [40; 41] _); [concrete..|].
    unfold VmSwitch.sparse_payload. split_and!; try reflexivity; try (simpl; lia). concrete.
Defined.

(** ** One instruction *)

(** div-int v2, v0, v1 with 7 and 0, or 7 and -2, in v0 and v1. *)
Definition div_code : vmCode := MkVmCode [0x0293; 0x0100] None.
Definition div_frame (b : Z) : frame VmWorld.World :=
  MkFrame 0 0x0293 [7; b; 0] [0; 0; 0] 0 [0; 0; 0; 0; 0] false None (VmWorld.MkWorld 0 []).
Abbreviation div_env := (VmWorld.demo_env div_code None).

Lemma handler_footprint_witness :
  frame_ok (div_frame 0) /\
  match handler (E := div_env) OP_DIV_INT (div_frame 0) with
  | Jump c s => c = GotoExceptionThrown /\ frame_ok s /\ VmFootprint.may_jump (E := div_env) OP_DIV_INT (div_frame 0) c
  | _ => False
  end.
Proof.
  assert (H0 : frame_ok (div_frame 0)) by concrete. split; [exact H0|].
  pose proof (VmFootprint.handler_footprint (E := div_env) OP_DIV_INT (div_frame 0) H0) as H.
  assert (E : exists s, handler (E := div_env) OP_DIV_INT (div_frame 0) = Jump GotoExceptionThrown s)
    by (eexists; vm_compute; reflexivity).
  destruct E as [s E]. rewrite E in H |- *. destruct H as (H1 & _ & H2). split; [reflexivity|]. split; assumption.
Defined.


(** ** Whole runs *)

Abbreviation sum_env := (VmWorld.demo_env VmWorld.sum_code None).

Lemma vmInterpret2_safe_witness :
  frame_ok (MkFrame 0 0 [0; 4] [0; 0] 0 [0; 0; 0; 0; 0] false None (VmWorld.MkWorld 0 [])) /\
  match vmInterpret2 (E := sum_env) 30 [0; 4] [0; 0] 0 [0; 0; 0; 0; 0] false None (VmWorld.MkWorld 0 []) with
  | Returned v s => v = 10 /\ frame_ok s
  | _ => False
  end.
Proof.
  assert (H0 : frame_ok (MkFrame 0 0 [0; 4] [0; 0] 0 [0; 0; 0; 0; 0] false None (VmWorld.MkWorld 0 []))) by concrete.
  split; [exact H0|].
  pose proof (VmFootprint.vmInterpret2_safe (E := sum_env) 30 [0; 4] [0; 0] 0 [0; 0; 0; 0; 0] false None
    (VmWorld.MkWorld 0 []) H0) as H.
  assert (E : exists s, vmInterpret2 (E := sum_env) 30 [0; 4] [0; 0] 0 [0; 0; 0; 0; 0] false None
    (VmWorld.MkWorld 0 []) = Returned 10 s) by (eexists; vm_compute; reflexivity).
  destruct E as [s E]. rewrite E in H |- *. destruct H as (_ & H & _). split; [reflexivity|exact H].
Defined.

(** const/4 v0, #7; return v0 *)
Definition const_code : vmCode := MkVmCode [0x7012; 0x000f] None.
Abbreviation const_env := (VmWorld.demo_env const_code None).


Lemma sum_terminates_witness :
  exists v s, vmInterpret (E := sum_env) 403 [0; 100] [0; 0] 0 [0; 0; 0; 0; 0] false (VmWorld.MkWorld 0 []) =
    Returned v s /\ swrap 32 v = 5050.
Proof. apply (VmMachine.sum_terminates sum_env eq_refl 100); try done; concrete. Defined.

(** ** Exceptions *)

(** At the division of [catch_code], ArithmeticException pending. *)
Abbreviation catch_env := (VmWorld.demo_env VmWorld.catch_code None).
Definition thrown_frame : frame VmWorld.World :=
  MkFrame 1 0x0193 [0; 10; 0] [0; 0; 0] 0 [0; 0; 0; 0; 0] false None (VmWorld.MkWorld 906 []).

Lemma demo_laws : VmThrow.exn_laws (E := catch_env) VmWorld.pending (fun i => 300 + i) Z.eqb.
Proof. split; try done. intros o c w. simpl. by destruct (o =? c). Qed.

Lemma exceptionThrown_correct_witness :
  exists w, exceptionThrown (E := catch_env) thrown_frame = Jump (Finish 0) (VmThrow.at_pc 4 w thrown_frame) /\
    VmWorld.pending w = 906.
Proof.
  refine (proj2 (proj2 (VmThrow.exceptionThrown_correct (E := catch_env) _ _ _ demo_laws thrown_frame 4 _ _ _)) 0x020d _ _ _).
  - simpl. unfold VmThrow.table_ok. split; [split; [|]|split; [reflexivity|]]; concrete.
  - concrete.
  - reflexivity.
  - discriminate.
  - lia.
  - reflexivity.
Defined.

(** ** Invocation *)

(** {v1, v2, v3} with shorty parameters IJ and a receiver in v1: five-nibble
    encoding 0x0321, three words. *)
Definition invoke_frame : frame VmWorld.World :=
  MkFrame 0 0x306e [0; 77; 5; 0x123456789] [0; 1; 0; 0] 0 [0; 0; 0; 0; 0] false None (VmWorld.MkWorld 0 []).

Lemma marshal_correct_witness :
  exists args, marshal (E := sum_env) true [ch_I; ch_J] 0x40 0x3321 invoke_frame =
      Val args (MkFrame 0 0x306e (fp invoke_frame) (fp_flags invoke_frame) 0 args false None (VmWorld.MkWorld 0 [])) /\
    exists a, args !! 2%nat = Some a /\ holds ch_J a 0x123456789.
Proof.
  destruct (VmMarshal.marshal_correct (E := sum_env) invoke_frame ltac:(concrete) true [ch_I; ch_J] 0x40 0x3321
    [77; 5; 0x123456789; 0x123456789]) as (args & H1 & H2).
  - lia.
  - repeat (constructor; [left; eexists; reflexivity|]). constructor.
  - vm_compute arg_registers. repeat constructor.
  - reflexivity.
  - reflexivity.
  - exists args. split; [exact H1|]. apply (H2 1%nat ch_J 0x123456789). reflexivity.
Defined.

(** A tracer that mocks every call with 42. *)
Definition mock_tracer : VmTracer VmWorld.World :=
  MkTracer _ None (Some (fun _ _ _ _ _ _ w => (VM_INVOKE_MOCK, 42, [], w))) None None None None.
Definition traced_frame : frame VmWorld.World :=
  MkFrame 0 0x306e [0] [0] 0 [0; 0; 0; 0; 0] false (Some (MkFrameCtx 0 0 0)) (VmWorld.MkWorld 0 []).
Abbreviation traced_env := (VmWorld.demo_env VmWorld.sum_code (Some mock_tracer)).

Lemma TRACED_INVOKE_policy_witness :
  TRACED_INVOKE (E := traced_env) (MkVmMethod 0 0 [ch_V] 0) 0 0 [] (fun _ => undef) traced_frame =
  Val tt (with_result traced_frame 42 [0; 0; 0; 0; 0] (VmWorld.MkWorld 0 [])).
Proof.
  destruct (proj2 (VmMarshal.TRACED_INVOKE_policy (E := traced_env) traced_frame (MkFrameCtx 0 0 0) mock_tracer
    (MkVmMethod 0 0 [ch_V] 0) 0 0 [] (fun _ => undef)) eq_refl eq_refl _ _ _ _ _ eq_refl) as (H & _).
  exact (H eq_refl).
Defined.

(** ** Progress *)

(** invoke-static {v1, v2, v3}, meth@7, whose shorty is IIJ. *)
Definition call_code : vmCode := MkVmCode [0x3071; 7; 0x0321] None.
Definition call_frame : frame VmWorld.World :=
  MkFrame 0 0x3071 [0; 77; 5; 6] [0; 1; 0; 0] 0 [0; 0; 0; 0; 0] false None (VmWorld.MkWorld 0 []).
Abbreviation call_env := (VmWorld.demo_env call_code None).


End VmWitness.
