(* ===== verification/VmWorldRel.v ===== *)
(** * What a run does to the world

    The interpreter touches the world only through the platform, the
    resolver and the callbacks.  So a preorder on worlds that each of those
    calls follows is followed by every handler, by exception delivery and by
    whole runs.  [follows R m] is the judgement, [platform_follows R] the
    condition, one field for each call the interpreter can make. *)
From S2P Require Import Prelude.
From S2P Require Import DexCatch.
From S2P Require Import CFloat.
From S2P Require Import DexOpcodes.
From S2P Require Import VmEnv.
From S2P Require Import VmSwitch.
From S2P Require Import VmArith.
From S2P Require Import VmObject.
From S2P Require Import VmInvoke.
From S2P Require Import VmInterp.
From S2P Require Import VmFootprint.
Import DexCatch CFloat DexOpcodes VmEnv VmSwitch VmArith VmObject VmInvoke VmInterp VmFootprint.
Local Open Scope cint_scope.
Local Open Scope vm_scope.

Module VmWorldRel.

Section Platform.
Context {W : Type} `{E : VmEnv W}.
Context (R : relation W).

Record jni_follows (jni : JNI W) : Prop := {
  fl_NewLocalRef o w : R w (NewLocalRef o w).2;
  fl_DeleteLocalRef o w : R w (DeleteLocalRef o w);
  fl_IsSameObject a b w : R w (IsSameObject a b w).2;
  fl_IsInstanceOf a b w : R w (IsInstanceOf a b w).2;
  fl_AllocObject c w : R w (AllocObject c w).2;
  fl_MonitorEnter o w : R w (MonitorEnter o w).2;
  fl_MonitorExit o w : R w (MonitorExit o w).2;
  fl_ExceptionOccurred w : R w (ExceptionOccurred w).2;
  fl_ExceptionClear w : R w (ExceptionClear w);
  fl_ExceptionCheck w : R w (ExceptionCheck w).2;
  fl_Throw o w : R w (Throw o w);
  fl_ThrowNew c m w : R w (ThrowNew c m w);
  fl_GetArrayLength a w : R w (GetArrayLength a w).2;
  fl_NewPrimArray p n w : R w (NewPrimArray p n w).2;
  fl_NewObjectArray n c o w : R w (NewObjectArray n c o w).2;
  fl_GetObjectArrayElement a i w : R w (GetObjectArrayElement a i w).2;
  fl_SetObjectArrayElement a i o w : R w (SetObjectArrayElement a i o w);
  fl_GetArrayRegion1 p a i w : R w (GetArrayRegion1 p a i w).2;
  fl_SetArrayRegion1 p a i v w : R w (SetArrayRegion1 p a i v w);
  fl_GetPrimitiveArrayCritical a w : R w (GetPrimitiveArrayCritical a w).2;
  fl_ReleasePrimitiveArrayCritical a l b w : R w (ReleasePrimitiveArrayCritical a l b w);
  fl_GetField k o f w : R w (GetField k o f w).2;
  fl_SetField k o f v w : R w (SetField k o f v w);
  fl_GetStaticField k o f w : R w (GetStaticField k o f w).2;
  fl_SetStaticField k o f v w : R w (SetStaticField k o f v w);
  fl_CallMethodA c k o m a w : R w (CallMethodA c k o m a w).2 }.

Record resolver_follows (r : vmResolver W) : Prop := {
  fl_field i st w : R w (dvmResolveField r i st w).2;
  fl_method i st w : R w (dvmResolveMethod r i st w).2;
  fl_type i w : R w (dvmResolveTypeUtf r i w).2;
  fl_class i w : R w (dvmResolveClass r i w).2;
  fl_find t w : R w (dvmFindClass r t w).2;
  fl_string i w : R w (dvmConstantString r i w).2 }.

Record tracer_follows (tr : VmTracer W) : Prop := {
  fl_onInvokePre f c m op o n a w : onInvokePre tr = Some f -> R w (f c m op o n a w).2;
  fl_stepIn f c m op o n a r w : stepIn tr = Some f -> R w (f c m op o n a r w).2;
  fl_onInvokePost f c m op r e w : onInvokePost tr = Some f -> R w (f c m op r e w);
  fl_onException f c e p q w : onException tr = Some f -> R w (f c e p q w) }.

Record platform_follows : Prop := {
  fl_jni : jni_follows vm_jni;
  fl_resolver : resolver_follows dvmResolver;
  fl_tracer tr : tracer = Some tr -> tracer_follows tr;
  fl_hook f p i regs flags w : g_vmTraceHook = Some f -> R w (f p i regs flags w) }.
(** Before each instruction. *)
Definition insn_follows : Prop :=
  forall tr f c regs flags w, tracer = Some tr -> onInsn tr = Some f -> R w (f c regs flags w).2.

(** Of the frame: a call that is traced stays traced. *)
Definition moves (s s' : frame W) : Prop := R (world s) (world s') /\ (is_Some (tctx s) -> is_Some (tctx s')).
Definition follows {A} (m : M W A) : Prop := forall s,
  match m s with Val _ s' | Jump _ s' => moves s s' | Undef => True end.

Context {HR : PreOrder R}.

#[local] Instance moves_preorder : PreOrder moves.
Proof. split; [by split|]. intros s1 s2 s3 [] []. split; [by etransitivity|auto]. Qed.

Lemma follows_bind {A B} (m : M W A) (k : A -> M W B) : follows m -> (forall x, follows (k x)) -> follows (bind m k).
Proof.
  intros Hm Hk s. unfold bind. specialize (Hm s). destruct (m s) as [x s'| |]; [|done..].
  specialize (Hk x s'). by destruct (k x s'); [etransitivity..|].
Qed.
Lemma follows_ret {A} (x : A) : follows (ret x).
Proof. intros s. change (moves s s). reflexivity. Qed.
Lemma follows_undef {A} : follows (A := A) undef.
Proof. done. Qed.
Lemma follows_goto {A} c : follows (A := A) (goto c).
Proof. intros s. change (moves s s). reflexivity. Qed.
Lemma follows_gets {A} (f : frame W -> A) : follows (gets f).
Proof. intros s. change (moves s s). reflexivity. Qed.
Lemma follows_opt {A} (o : option A) : follows (opt o).
Proof. destruct o; [apply follows_ret|done]. Qed.
Lemma follows_call {A} (f : W -> A * W) : (forall w, R w (f w).2) -> follows (call f).
Proof. intros Hf s. unfold call. specialize (Hf (world s)). by destruct (f (world s)). Qed.
Lemma follows_call_ (f : W -> W) : (forall w, R w (f w)) -> follows (call_ f).
Proof. intros Hf. by apply follows_call. Qed.
Lemma follows_set_fp l : follows (set_fp l).
Proof. intros s. split; [cbn; reflexivity|done]. Qed.
Lemma follows_set_fp_flags l : follows (set_fp_flags l).
Proof. intros s. split; [cbn; reflexivity|done]. Qed.
Lemma follows_set_retval v : follows (set_retval v).
Proof. intros s. split; [cbn; reflexivity|done]. Qed.
Lemma follows_set_args_tmp l : follows (set_args_tmp l).
Proof. intros s. split; [cbn; reflexivity|done]. Qed.
Lemma follows_set_range b : follows (set_methodCallRange b).
Proof. intros s. split; [cbn; reflexivity|done]. Qed.
Lemma follows_set_pc p : follows (set_pc p).
Proof. intros s. split; [cbn; reflexivity|done]. Qed.
Lemma follows_set_inst i : follows (set_inst i).
Proof. intros s. split; [cbn; reflexivity|done]. Qed.
Lemma follows_set_tctx c : follows (set_tctx (Some c)).
Proof. intros s. split; [cbn; reflexivity|done]. Qed.

Lemma follows_scoped {A} ref (m : M W A) : (forall w, R w (DeleteLocalRef ref w)) -> follows m -> follows (scoped ref m).
Proof.
  intros Hd Hm s. unfold scoped. specialize (Hm s).
  assert (Hdel : follows (if negb (ref =? 0) then call_ (DeleteLocalRef ref) else ret tt))
    by (destruct (negb _); [by apply follows_call_|apply follows_ret]).
  destruct (m s) as [x s'|c s'|]; [..|done].
  - pose proof (follows_bind _ (fun _ => ret x) Hdel (fun _ => follows_ret x) s') as H.
    destruct (bind _ _ s'); [by etransitivity..|done].
  - pose proof (follows_bind _ (fun _ => goto (A := A) c) Hdel (fun _ => follows_goto c) s') as H.
    destruct (bind _ _ s'); [by etransitivity..|done].
Qed.

End Platform.

Create HintDb follows discriminated.
#[export] Hint Resolve follows_ret follows_undef follows_goto follows_gets follows_opt follows_set_fp
  follows_set_fp_flags follows_set_retval follows_set_args_tmp follows_set_range follows_set_pc follows_set_inst
  follows_set_tctx : follows.
(** A call of the platform follows the relation. *)
Ltac platform_call :=
  match goal with
  | HP : platform_follows ?R |- ?R _ _ =>
      first
        [ apply (fl_NewLocalRef _ _ (fl_jni _ HP)) | apply (fl_DeleteLocalRef _ _ (fl_jni _ HP)) |
          apply (fl_IsSameObject _ _ (fl_jni _ HP)) | apply (fl_IsInstanceOf _ _ (fl_jni _ HP)) |
          apply (fl_AllocObject _ _ (fl_jni _ HP)) | apply (fl_MonitorEnter _ _ (fl_jni _ HP)) |
          apply (fl_MonitorExit _ _ (fl_jni _ HP)) | apply (fl_ExceptionOccurred _ _ (fl_jni _ HP)) |
          apply (fl_ExceptionClear _ _ (fl_jni _ HP)) | apply (fl_ExceptionCheck _ _ (fl_jni _ HP)) |
          apply (fl_Throw _ _ (fl_jni _ HP)) | apply (fl_ThrowNew _ _ (fl_jni _ HP)) |
          apply (fl_GetArrayLength _ _ (fl_jni _ HP)) | apply (fl_NewPrimArray _ _ (fl_jni _ HP)) |
          apply (fl_NewObjectArray _ _ (fl_jni _ HP)) | apply (fl_GetObjectArrayElement _ _ (fl_jni _ HP)) |
          apply (fl_SetObjectArrayElement _ _ (fl_jni _ HP)) | apply (fl_GetArrayRegion1 _ _ (fl_jni _ HP)) |
          apply (fl_SetArrayRegion1 _ _ (fl_jni _ HP)) | apply (fl_GetPrimitiveArrayCritical _ _ (fl_jni _ HP)) |
          apply (fl_ReleasePrimitiveArrayCritical _ _ (fl_jni _ HP)) | apply (fl_GetField _ _ (fl_jni _ HP)) |
          apply (fl_SetField _ _ (fl_jni _ HP)) | apply (fl_GetStaticField _ _ (fl_jni _ HP)) |
          apply (fl_SetStaticField _ _ (fl_jni _ HP)) | apply (fl_CallMethodA _ _ (fl_jni _ HP)) |
          apply (fl_field _ _ (fl_resolver _ HP)) | apply (fl_method _ _ (fl_resolver _ HP)) |
          apply (fl_type _ _ (fl_resolver _ HP)) | apply (fl_class _ _ (fl_resolver _ HP)) |
          apply (fl_find _ _ (fl_resolver _ HP)) | apply (fl_string _ _ (fl_resolver _ HP))
        | eapply (fl_onInvokePre _ _ (fl_tracer _ HP _ ltac:(eassumption))); eassumption
        | eapply (fl_stepIn _ _ (fl_tracer _ HP _ ltac:(eassumption))); eassumption
        | eapply (fl_onInvokePost _ _ (fl_tracer _ HP _ ltac:(eassumption))); eassumption
        | eapply (fl_onException _ _ (fl_tracer _ HP _ ltac:(eassumption))); eassumption
        | eapply (fl_hook _ HP); eassumption ]
  end.

Ltac follows_step :=
  match goal with
  | |- follows ?R (bind _ _) => apply (follows_bind R); [|intros ?]
  | |- follows ?R (scoped _ _) => apply (follows_scoped R); [intros ?; platform_call|]
  | |- follows ?R (call _) => apply (follows_call R); intros ?; cbn [snd pack3 pack4]; platform_call
  | |- follows ?R (call_ _) => apply (follows_call_ R); intros ?; platform_call
  | |- follows _ (match ?x with _ => _ end) => destruct x eqn:?
  | |- follows _ _ => solve [auto with follows nocore]
  end.
Ltac follows_unfold :=
  progress unfold FETCH, GET_RAW, PUT_RAW, GET_REGISTER_FLAGS, SET_REGISTER_FLAGS, DELETE_LOCAL_REF,
    SET_REGISTER_AS_OBJECT, SET_REGISTER, SET_REGISTER_INT, SET_REGISTER_FLOAT, SET_REGISTER_WIDE, SET_REGISTER_DOUBLE,
    GET_REGISTER, GET_REGISTER_INT, GET_REGISTER_FLOAT, GET_REGISTER_WIDE, GET_REGISTER_DOUBLE,
    GET_REGISTER_AS_OBJECT, GET, SET, FINISH, GOTO_exceptionThrown, GOTO_returnFromMethod, GOTO_bail,
    dvmThrowArithmeticException, dvmThrowInternalError, dvmThrowArrayIndexOutOfBoundsException,
    dvmThrowNegativeArraySizeException, dvmThrowClassCastException, dvmThrowRuntimeException,
    dvmThrowNullPointerException, dvmThrowClassNotFoundException, throw_null, require, require_some, check_exception, divide_by_zero,
    branch_if, op_int, op_long, operands_AB, operands_AA_16, operands_16_16, fetch_u4, char_at, check_index,
    unit_at, s4FromSwitchData, store_arg in *.
Ltac follows_auto := repeat (cbv beta zeta; follows_step || follows_unfold).

Section Handlers.
Context {W : Type} `{E : VmEnv W}.
Context (R : relation W) {HR : PreOrder R} (HP : platform_follows R).
Abbreviation follows := (follows R).

Lemma follows_packed p v : follows (dvmInterpHandlePackedSwitch p v).
Proof. unfold dvmInterpHandlePackedSwitch. follows_auto. Qed.
Lemma follows_sparse p v : follows (dvmInterpHandleSparseSwitch p v).
Proof.
  assert (Hl : forall f k e lo hi, follows (sparse_loop f k e v lo hi)).
  { induction f; intros; cbn [sparse_loop]; follows_auto; auto. }
  unfold dvmInterpHandleSparseSwitch. follows_auto.
Qed.

Lemma follows_fill_data o p : follows (dvmInterpHandleFillArrayData o p).
Proof.
  assert (Hu : forall n p, follows (units_at p n)) by (induction n; intros; cbn [units_at]; follows_auto; auto).
  assert (Hc : forall o p n, follows (copy_array_data o p n)).
  { intros. unfold copy_array_data, bytes_at, memcpy_to. follows_auto; auto. }
  unfold dvmInterpHandleFillArrayData. follows_auto; auto.
Qed.
Lemma follows_new_array c t n : follows (NEW_ARRAY c t n).
Proof. unfold NEW_ARRAY. follows_auto. Qed.
Lemma follows_set_element c a i r : follows (SET_ARRAY_ELEMENT c a i r).
Proof. unfold SET_ARRAY_ELEMENT. follows_auto. Qed.
Lemma follows_fill_range n c a v i : follows (fill_range n c a v i).
Proof. revert i. induction n; intros; cbn [fill_range]; follows_auto; auto using follows_set_element. Qed.
Lemma follows_fill_nibbles n c a v i : follows (fill_nibbles n c a v i).
Proof. revert v i. induction n; intros; cbn [fill_nibbles]; follows_auto; auto using follows_set_element. Qed.
Lemma follows_filled : follows filledNewArray.
Proof.
  unfold filledNewArray.
  follows_auto; auto using follows_set_element, follows_fill_range, follows_fill_nibbles, follows_new_array.
Qed.

Lemma follows_set_argument a c i r : follows (SET_ARGUMENT a c i r).
Proof. unfold SET_ARGUMENT. follows_auto. Qed.
Lemma follows_copy_args f this range ts v1 vd n a i j : follows (copy_args f this range ts v1 vd n a i j).
Proof.
  revert a i j. induction f; intros; cbn [copy_args]; follows_auto; auto using follows_set_argument.
Qed.
Lemma follows_marshal this ts v1 vd : follows (marshal this ts v1 vd).
Proof. unfold marshal. follows_auto; auto using follows_copy_args. Qed.
Lemma follows_args_written a n : follows (args_written a n).
Proof. unfold args_written. follows_auto. Qed.
Lemma follows_traced m r n a x : (forall a, follows (x a)) -> follows (TRACED_INVOKE m r n a x).
Proof. intros Hx. unfold TRACED_INVOKE. follows_auto; auto using follows_args_written. Qed.
Lemma follows_call_method k c t m a : follows (call_method k c t m a).
Proof. unfold call_method. follows_auto. Qed.
Lemma follows_nonvirtual m t c a : follows (nonvirtual_call m t c a).
Proof. unfold nonvirtual_call. follows_auto; apply follows_call_method. Qed.
Lemma follows_invoke_with this m t v1 vd x : (forall c a, follows (x c a)) -> follows (invoke_with this m t v1 vd x).
Proof. intros Hx. unfold invoke_with. follows_auto; auto using follows_traced, follows_marshal. Qed.
Lemma follows_receiver k : (forall m t a b, follows (k m t a b)) -> follows (resolve_receiver k).
Proof. intros Hk. unfold resolve_receiver. follows_auto; auto. Qed.

Lemma follows_invoke_target range t :
  t ∈ [invokeVirtual; invokeSuper; invokeInterface; invokeDirect; invokeStatic; filledNewArray] -> follows (GOTO_invoke t range).
Proof.
  intros Ht. unfold GOTO_invoke. follows_auto.
  rewrite !elem_of_cons, elem_of_nil in Ht.
  destruct Ht as [->|[->|[->|[->|[->|[->|[]]]]]]];
    unfold invokeVirtual, invokeSuper, invokeInterface, invokeDirect, INVOKE_METHOD;
    try (apply follows_receiver; intros; apply follows_invoke_with; auto using follows_call_method, follows_nonvirtual).
  - unfold invokeStatic, INVOKE_STATIC_METHOD. follows_auto.
    apply follows_invoke_with; auto. intros. follows_auto; apply follows_call_method.
  - apply follows_filled.
Qed.

Ltac follows_rest :=
  match goal with
  | |- VmWorldRel.follows _ filledNewArray => apply follows_filled
  | |- VmWorldRel.follows _ (dvmInterpHandlePackedSwitch _ _) => apply follows_packed
  | |- VmWorldRel.follows _ (dvmInterpHandleSparseSwitch _ _) => apply follows_sparse
  | |- VmWorldRel.follows _ (dvmInterpHandleFillArrayData _ _) => apply follows_fill_data
  | |- VmWorldRel.follows _ (NEW_ARRAY _ _ _) => apply follows_new_array
  end.

Lemma handler_follows op : follows (handler op).
Proof.
  destruct op; handler_unfold;
    lazymatch goal with
    | |- VmWorldRel.follows _ (GOTO_invoke _ _) => apply follows_invoke_target; rewrite !elem_of_cons; tauto
    | |- _ => follows_auto; follows_rest
    end.
Qed.

(** ** Runs *)

Lemma catch_loop_follows f h it e : follows (catch_loop f h it e).
Proof. revert it. induction f; intros; cbn [catch_loop]; follows_auto; auto. Qed.
Lemma exceptionThrown_follows : follows exceptionThrown.
Proof.
  unfold exceptionThrown, dvmFindCatchBlock, findCatchInMethod. follows_auto; apply catch_loop_follows.
Qed.
(** The rest of [finish] once the tracer has been asked. *)
Definition dispatch (p i : Z) : M W unit :=
  (match g_vmTraceHook with
   | None => ret tt
   | Some f => regs <- gets fp ;; flags <- gets fp_flags ;; call_ (f p i regs flags)
   end) ;;;
  op <- opt (handler_of (INST_INST i)) ;;
  handler op.
Lemma dispatch_follows p i : follows (dispatch p i).
Proof. unfold dispatch. follows_auto. apply handler_follows. Qed.

Context (HI : insn_follows R).
Lemma finish_follows n : follows (finish n).
Proof.
  apply follows_bind; [done|follows_auto|intros p]. apply follows_bind; [done|follows_auto|intros _].
  apply follows_bind; [done|follows_auto|intros i]. apply follows_bind; [done|follows_auto|intros _].
  apply follows_bind; [done| |intros _; apply dispatch_follows].
  unfold trace_insn. follows_auto. apply (follows_call R). intros w. by eapply HI.
Qed.
Lemma transfer_follows c : follows (transfer c).
Proof. destruct c; [apply finish_follows|apply exceptionThrown_follows|apply (follows_goto R)..]. Qed.

Lemma run_follows fuel : forall c s v s', run fuel c s = Returned v s' -> R (world s) (world s').
Proof.
  induction fuel as [|fuel IH]; intros c s v s'.
  { destruct c; simpl; intros H; injection H as <- <- || done; reflexivity. }
  assert (Hstep : forall c, match transfer c s with Jump c' s1 => run fuel c' s1 | _ => Undefined end = Returned v s' ->
    R (world s) (world s')).
  { clear c. intros c. pose proof (transfer_follows c s) as Ht. destruct (transfer c s) as [|c' s1|]; [done| |done].
    intros H. etransitivity; [apply Ht|]. by eapply IH. }
  destruct c; simpl; [apply (Hstep (Finish offset))|apply (Hstep GotoExceptionThrown)|..];
    intros H; injection H as <- <-; reflexivity.
Qed.
Lemma vmInterpret2_follows fuel regs flags r0 a0 b0 fctx w v s' :
  vmInterpret2 fuel regs flags r0 a0 b0 fctx w = Returned v s' -> R w (world s').
Proof. apply run_follows. Qed.

End Handlers.

End VmWorldRel.
