(* ===== verification/SlicerIsa.v ===== *)
(** * The instruction set of the assembler (external/dexter/slicer)

    dex_instruction_list.h, dex_bytecode.h and dex_bytecode.cc of the copy of
    slicer the DEX writer assembles with: the descriptor of every opcode, the
    width of every format, and [DecodeInstruction].  An opcode is the byte it
    is in the source ([enum Opcode : u1]); code is a list of 16-bit units and
    a pointer into it the list from there on. *)
From S2P Require Import Prelude.

Module SlicerIsa.
Local Open Scope cint_scope.

(** ** Failure

    [Trap] is a failed SLICER_CHECK, which unwinds to the enclosing
    RunGuarded (common.h); [Stop] is what nothing unwinds from: SLICER_FATAL,
    a failed assert, a read outside an array or through a null pointer. *)
Inductive outcome (A : Type) : Type :=
  | Ret (a : A)
  | Trap
  | Stop.
#[global] Arguments Ret {A} a.
#[global] Arguments Trap {A}.
#[global] Arguments Stop {A}.

#[global] Instance outcome_ret : MRet outcome := fun A a => Ret a.
#[global] Instance outcome_bind : MBind outcome := fun A B f m =>
  match m with Ret a => f a | Trap => Trap | Stop => Stop end.

Definition SLICER_CHECK (b : bool) : outcome unit := if b then Ret () else Trap.
Definition assert_ (b : bool) : outcome unit := if b then Ret () else Stop.
(** An access C leaves undefined when there is nothing there. *)
Definition deref {A} (o : option A) : outcome A := match o with Some a => Ret a | None => Stop end.

(** ** Opcodes and descriptors *)
Definition Opcode : Type := Z.
Definition kNumPackedOpcodes : nat := 256.
Definition kPackedSwitchSignature : Z := 0x0100.
Definition kSparseSwitchSignature : Z := 0x0200.
Definition kArrayDataSignature : Z := 0x0300.

Definition OP_NOP : Opcode := 0x00.
Definition OP_MOVE : Opcode := 0x01.
Definition OP_MOVE_FROM16 : Opcode := 0x02.
Definition OP_MOVE_16 : Opcode := 0x03.
Definition OP_MOVE_OBJECT : Opcode := 0x07.
Definition OP_MOVE_OBJECT_FROM16 : Opcode := 0x08.
Definition OP_MOVE_OBJECT_16 : Opcode := 0x09.
Definition OP_MOVE_RESULT : Opcode := 0x0a.
Definition OP_MOVE_RESULT_OBJECT : Opcode := 0x0c.
Definition OP_RETURN_VOID : Opcode := 0x0e.
Definition OP_RETURN : Opcode := 0x0f.
Definition OP_RETURN_WIDE : Opcode := 0x10.
Definition OP_RETURN_OBJECT : Opcode := 0x11.
Definition OP_CONST_4 : Opcode := 0x12.
Definition OP_CONST_16 : Opcode := 0x13.
Definition OP_CONST : Opcode := 0x14.
Definition OP_CONST_HIGH16 : Opcode := 0x15.
Definition OP_CONST_WIDE_HIGH16 : Opcode := 0x19.
Definition OP_CONST_STRING : Opcode := 0x1a.
Definition OP_CONST_CLASS : Opcode := 0x1c.
Definition OP_CHECK_CAST : Opcode := 0x1f.
Definition OP_INSTANCE_OF : Opcode := 0x20.
Definition OP_NEW_INSTANCE : Opcode := 0x22.
Definition OP_FILL_ARRAY_DATA : Opcode := 0x26.
Definition OP_THROW : Opcode := 0x27.
Definition OP_GOTO : Opcode := 0x28.
Definition OP_GOTO_16 : Opcode := 0x29.
Definition OP_GOTO_32 : Opcode := 0x2a.
Definition OP_PACKED_SWITCH : Opcode := 0x2b.
Definition OP_SPARSE_SWITCH : Opcode := 0x2c.
Definition OP_IF_EQ : Opcode := 0x32.
Definition OP_IF_NE : Opcode := 0x33.
Definition OP_IF_LT : Opcode := 0x34.
Definition OP_IF_GE : Opcode := 0x35.
Definition OP_IF_GT : Opcode := 0x36.
Definition OP_IF_LE : Opcode := 0x37.
Definition OP_IF_EQZ : Opcode := 0x38.
Definition OP_IF_NEZ : Opcode := 0x39.
Definition OP_IF_LTZ : Opcode := 0x3a.
Definition OP_IF_GEZ : Opcode := 0x3b.
Definition OP_IF_GTZ : Opcode := 0x3c.
Definition OP_IF_LEZ : Opcode := 0x3d.
Definition OP_IGET : Opcode := 0x52.
Definition OP_IGET_OBJECT : Opcode := 0x54.
Definition OP_IGET_BOOLEAN : Opcode := 0x55.
Definition OP_IPUT : Opcode := 0x59.
Definition OP_IPUT_OBJECT : Opcode := 0x5b.
Definition OP_IPUT_BOOLEAN : Opcode := 0x5c.
Definition OP_SGET : Opcode := 0x60.
Definition OP_SGET_OBJECT : Opcode := 0x62.
Definition OP_SPUT : Opcode := 0x67.
Definition OP_SPUT_OBJECT : Opcode := 0x69.
Definition OP_INVOKE_VIRTUAL : Opcode := 0x6e.
Definition OP_INVOKE_SUPER : Opcode := 0x6f.
Definition OP_INVOKE_DIRECT : Opcode := 0x70.
Definition OP_INVOKE_STATIC : Opcode := 0x71.
Definition OP_INVOKE_INTERFACE : Opcode := 0x72.
Definition OP_ADD_INT : Opcode := 0x90.
Definition OP_SUB_INT : Opcode := 0x91.
Definition OP_MUL_INT : Opcode := 0x92.
Definition OP_DIV_INT : Opcode := 0x93.
Definition OP_REM_INT : Opcode := 0x94.
Definition OP_AND_INT : Opcode := 0x95.
Definition OP_OR_INT : Opcode := 0x96.
Definition OP_XOR_INT : Opcode := 0x97.
Definition OP_SHL_INT : Opcode := 0x98.
Definition OP_SHR_INT : Opcode := 0x99.
Definition OP_USHR_INT : Opcode := 0x9a.

Inductive InstructionFormat :=
  | k10x | k12x | k11n | k11x | k10t | k20t | k20bc | k22x | k21t | k21s |
  k21h | k21c | k23x | k22b | k22t | k22s | k22c | k22cs | k30t | k32x |
  k31i | k31t | k31c | k35c | k35ms | k3rc | k3rms | k35mi | k3rmi | k45cc |
  k4rcc | k51l.

Inductive InstructionIndexType :=
  | kIndexUnknown | kIndexNone | kIndexVaries | kIndexTypeRef | kIndexStringRef
  | kIndexMethodRef | kIndexFieldRef | kIndexInlineMethod | kIndexVtableOffset
  | kIndexFieldOffset | kIndexMethodAndProtoRef | kIndexCallSiteRef
  | kIndexMethodHandleRef | kIndexProtoRef.

#[export] Instance InstructionFormat_eq_dec : EqDecision InstructionFormat.
Proof. solve_decision. Defined.
#[export] Instance InstructionIndexType_eq_dec : EqDecision InstructionIndexType.
Proof. solve_decision. Defined.

Definition kBranch : Z := 0x01.
Definition kContinue : Z := 0x02.
Definition kSwitch : Z := 0x04.
Definition kThrow : Z := 0x08.
Definition kReturn : Z := 0x10.
Definition kInvoke : Z := 0x20.
Definition kUnconditional : Z := 0x40.
Definition kExperimental : Z := 0x80.
Definition kVerifyNothing : Z := 0x0000000.
Definition kVerifyRegA : Z := 0x0000001.
Definition kVerifyRegAWide : Z := 0x0000002.
Definition kVerifyRegB : Z := 0x0000004.
Definition kVerifyRegBField : Z := 0x0000008.
Definition kVerifyRegBMethod : Z := 0x0000010.
Definition kVerifyRegBNewInstance : Z := 0x0000020.
Definition kVerifyRegBString : Z := 0x0000040.
Definition kVerifyRegBType : Z := 0x0000080.
Definition kVerifyRegBWide : Z := 0x0000100.
Definition kVerifyRegC : Z := 0x0000200.
Definition kVerifyRegCField : Z := 0x0000400.
Definition kVerifyRegCNewArray : Z := 0x0000800.
Definition kVerifyRegCType : Z := 0x0001000.
Definition kVerifyRegCWide : Z := 0x0002000.
Definition kVerifyArrayData : Z := 0x0004000.
Definition kVerifyBranchTarget : Z := 0x0008000.
Definition kVerifySwitchTargets : Z := 0x0010000.
Definition kVerifyVarArg : Z := 0x0020000.
Definition kVerifyVarArgNonZero : Z := 0x0040000.
Definition kVerifyVarArgRange : Z := 0x0080000.
Definition kVerifyVarArgRangeNonZero : Z := 0x0100000.
Definition kVerifyRuntimeOnly : Z := 0x0200000.
Definition kVerifyError : Z := 0x0400000.
Definition kVerifyRegHPrototype : Z := 0x0800000.
Definition kVerifyRegBCallSite : Z := 0x1000000.
Definition kVerifyRegBMethodHandle : Z := 0x2000000.
Definition kVerifyRegBPrototype : Z := 0x4000000.

Record InstructionDescriptor := Descr {
  opcode_name : String.string;
  format : InstructionFormat;
  index_type : InstructionIndexType;
  flags : Z;
  verify_flags : Z
}.

Section Table.
Local Open Scope string_scope.
(** Opcodes 0x00 to 0x7f. *)
Definition instruction_list_low : list InstructionDescriptor :=
  [
    Descr "nop" k10x kIndexNone kContinue kVerifyNothing;
    Descr "move" k12x kIndexNone kContinue (kVerifyRegA .| kVerifyRegB);
    Descr "move/from16" k22x kIndexNone kContinue (kVerifyRegA .| kVerifyRegB);
    Descr "move/16" k32x kIndexNone kContinue (kVerifyRegA .| kVerifyRegB);
    Descr "move-wide" k12x kIndexNone kContinue (kVerifyRegAWide .| kVerifyRegBWide);
    Descr "move-wide/from16" k22x kIndexNone kContinue (kVerifyRegAWide .| kVerifyRegBWide);
    Descr "move-wide/16" k32x kIndexNone kContinue (kVerifyRegAWide .| kVerifyRegBWide);
    Descr "move-object" k12x kIndexNone kContinue (kVerifyRegA .| kVerifyRegB);
    Descr "move-object/from16" k22x kIndexNone kContinue (kVerifyRegA .| kVerifyRegB);
    Descr "move-object/16" k32x kIndexNone kContinue (kVerifyRegA .| kVerifyRegB);
    Descr "move-result" k11x kIndexNone kContinue kVerifyRegA;
    Descr "move-result-wide" k11x kIndexNone kContinue kVerifyRegAWide;
    Descr "move-result-object" k11x kIndexNone kContinue kVerifyRegA;
    Descr "move-exception" k11x kIndexNone kContinue kVerifyRegA;
    Descr "return-void" k10x kIndexNone kReturn kVerifyNothing;
    Descr "return" k11x kIndexNone kReturn kVerifyRegA;
    Descr "return-wide" k11x kIndexNone kReturn kVerifyRegAWide;
    Descr "return-object" k11x kIndexNone kReturn kVerifyRegA;
    Descr "const/4" k11n kIndexNone kContinue kVerifyRegA;
    Descr "const/16" k21s kIndexNone kContinue kVerifyRegA;
    Descr "const" k31i kIndexNone kContinue kVerifyRegA;
    Descr "const/high16" k21h kIndexNone kContinue kVerifyRegA;
    Descr "const-wide/16" k21s kIndexNone kContinue kVerifyRegAWide;
    Descr "const-wide/32" k31i kIndexNone kContinue kVerifyRegAWide;
    Descr "const-wide" k51l kIndexNone kContinue kVerifyRegAWide;
    Descr "const-wide/high16" k21h kIndexNone kContinue kVerifyRegAWide;
    Descr "const-string" k21c kIndexStringRef (kContinue .| kThrow) (kVerifyRegA .| kVerifyRegBString);
    Descr "const-string/jumbo" k31c kIndexStringRef (kContinue .| kThrow) (kVerifyRegA .| kVerifyRegBString);
    Descr "const-class" k21c kIndexTypeRef (kContinue .| kThrow) (kVerifyRegA .| kVerifyRegBType);
    Descr "monitor-enter" k11x kIndexNone (kContinue .| kThrow) kVerifyRegA;
    Descr "monitor-exit" k11x kIndexNone (kContinue .| kThrow) kVerifyRegA;
    Descr "check-cast" k21c kIndexTypeRef (kContinue .| kThrow) (kVerifyRegA .| kVerifyRegBType);
    Descr "instance-of" k22c kIndexTypeRef (kContinue .| kThrow) (kVerifyRegA .| kVerifyRegB .| kVerifyRegCType);
    Descr "array-length" k12x kIndexNone (kContinue .| kThrow) (kVerifyRegA .| kVerifyRegB);
    Descr "new-instance" k21c kIndexTypeRef (kContinue .| kThrow) (kVerifyRegA .| kVerifyRegBNewInstance);
    Descr "new-array" k22c kIndexTypeRef (kContinue .| kThrow) (kVerifyRegA .| kVerifyRegB .| kVerifyRegCNewArray);
    Descr "filled-new-array" k35c kIndexTypeRef (kContinue .| kThrow) (kVerifyRegBType .| kVerifyVarArg);
    Descr "filled-new-array/range" k3rc kIndexTypeRef (kContinue .| kThrow) (kVerifyRegBType .| kVerifyVarArgRange);
    Descr "fill-array-data" k31t kIndexNone (kContinue .| kThrow) (kVerifyRegA .| kVerifyArrayData);
    Descr "throw" k11x kIndexNone kThrow kVerifyRegA;
    Descr "goto" k10t kIndexNone (kBranch .| kUnconditional) kVerifyBranchTarget;
    Descr "goto/16" k20t kIndexNone (kBranch .| kUnconditional) kVerifyBranchTarget;
    Descr "goto/32" k30t kIndexNone (kBranch .| kUnconditional) kVerifyBranchTarget;
    Descr "packed-switch" k31t kIndexNone (kContinue .| kSwitch) (kVerifyRegA .| kVerifySwitchTargets);
    Descr "sparse-switch" k31t kIndexNone (kContinue .| kSwitch) (kVerifyRegA .| kVerifySwitchTargets);
    Descr "cmpl-float" k23x kIndexNone kContinue (kVerifyRegA .| kVerifyRegB .| kVerifyRegC);
    Descr "cmpg-float" k23x kIndexNone kContinue (kVerifyRegA .| kVerifyRegB .| kVerifyRegC);
    Descr "cmpl-double" k23x kIndexNone kContinue (kVerifyRegA .| kVerifyRegBWide .| kVerifyRegCWide);
    Descr "cmpg-double" k23x kIndexNone kContinue (kVerifyRegA .| kVerifyRegBWide .| kVerifyRegCWide);
    Descr "cmp-long" k23x kIndexNone kContinue (kVerifyRegA .| kVerifyRegBWide .| kVerifyRegCWide);
    Descr "if-eq" k22t kIndexNone (kContinue .| kBranch) (kVerifyRegA .| kVerifyRegB .| kVerifyBranchTarget);
    Descr "if-ne" k22t kIndexNone (kContinue .| kBranch) (kVerifyRegA .| kVerifyRegB .| kVerifyBranchTarget);
    Descr "if-lt" k22t kIndexNone (kContinue .| kBranch) (kVerifyRegA .| kVerifyRegB .| kVerifyBranchTarget);
    Descr "if-ge" k22t kIndexNone (kContinue .| kBranch) (kVerifyRegA .| kVerifyRegB .| kVerifyBranchTarget);
    Descr "if-gt" k22t kIndexNone (kContinue .| kBranch) (kVerifyRegA .| kVerifyRegB .| kVerifyBranchTarget);
    Descr "if-le" k22t kIndexNone (kContinue .| kBranch) (kVerifyRegA .| kVerifyRegB .| kVerifyBranchTarget);
    Descr "if-eqz" k21t kIndexNone (kContinue .| kBranch) (kVerifyRegA .| kVerifyBranchTarget);
    Descr "if-nez" k21t kIndexNone (kContinue .| kBranch) (kVerifyRegA .| kVerifyBranchTarget);
    Descr "if-ltz" k21t kIndexNone (kContinue .| kBranch) (kVerifyRegA .| kVerifyBranchTarget);
    Descr "if-gez" k21t kIndexNone (kContinue .| kBranch) (kVerifyRegA .| kVerifyBranchTarget);
    Descr "if-gtz" k21t kIndexNone (kContinue .| kBranch) (kVerifyRegA .| kVerifyBranchTarget);
    Descr "if-lez" k21t kIndexNone (kContinue .| kBranch) (kVerifyRegA .| kVerifyBranchTarget);
    Descr "unused-3e" k10x kIndexUnknown 0 kVerifyError;
    Descr "unused-3f" k10x kIndexUnknown 0 kVerifyError
  ] ++
  [
    Descr "unused-40" k10x kIndexUnknown 0 kVerifyError;
    Descr "unused-41" k10x kIndexUnknown 0 kVerifyError;
    Descr "unused-42" k10x kIndexUnknown 0 kVerifyError;
    Descr "unused-43" k10x kIndexUnknown 0 kVerifyError;
    Descr "aget" k23x kIndexNone (kContinue .| kThrow) (kVerifyRegA .| kVerifyRegB .| kVerifyRegC);
    Descr "aget-wide" k23x kIndexNone (kContinue .| kThrow) (kVerifyRegAWide .| kVerifyRegB .| kVerifyRegC);
    Descr "aget-object" k23x kIndexNone (kContinue .| kThrow) (kVerifyRegA .| kVerifyRegB .| kVerifyRegC);
    Descr "aget-boolean" k23x kIndexNone (kContinue .| kThrow) (kVerifyRegA .| kVerifyRegB .| kVerifyRegC);
    Descr "aget-byte" k23x kIndexNone (kContinue .| kThrow) (kVerifyRegA .| kVerifyRegB .| kVerifyRegC);
    Descr "aget-char" k23x kIndexNone (kContinue .| kThrow) (kVerifyRegA .| kVerifyRegB .| kVerifyRegC);
    Descr "aget-short" k23x kIndexNone (kContinue .| kThrow) (kVerifyRegA .| kVerifyRegB .| kVerifyRegC);
    Descr "aput" k23x kIndexNone (kContinue .| kThrow) (kVerifyRegA .| kVerifyRegB .| kVerifyRegC);
    Descr "aput-wide" k23x kIndexNone (kContinue .| kThrow) (kVerifyRegAWide .| kVerifyRegB .| kVerifyRegC);
    Descr "aput-object" k23x kIndexNone (kContinue .| kThrow) (kVerifyRegA .| kVerifyRegB .| kVerifyRegC);
    Descr "aput-boolean" k23x kIndexNone (kContinue .| kThrow) (kVerifyRegA .| kVerifyRegB .| kVerifyRegC);
    Descr "aput-byte" k23x kIndexNone (kContinue .| kThrow) (kVerifyRegA .| kVerifyRegB .| kVerifyRegC);
    Descr "aput-char" k23x kIndexNone (kContinue .| kThrow) (kVerifyRegA .| kVerifyRegB .| kVerifyRegC);
    Descr "aput-short" k23x kIndexNone (kContinue .| kThrow) (kVerifyRegA .| kVerifyRegB .| kVerifyRegC);
    Descr "iget" k22c kIndexFieldRef (kContinue .| kThrow) (kVerifyRegA .| kVerifyRegB .| kVerifyRegCField);
    Descr "iget-wide" k22c kIndexFieldRef (kContinue .| kThrow) (kVerifyRegAWide .| kVerifyRegB .| kVerifyRegCField);
    Descr "iget-object" k22c kIndexFieldRef (kContinue .| kThrow) (kVerifyRegA .| kVerifyRegB .| kVerifyRegCField);
    Descr "iget-boolean" k22c kIndexFieldRef (kContinue .| kThrow) (kVerifyRegA .| kVerifyRegB .| kVerifyRegCField);
    Descr "iget-byte" k22c kIndexFieldRef (kContinue .| kThrow) (kVerifyRegA .| kVerifyRegB .| kVerifyRegCField);
    Descr "iget-char" k22c kIndexFieldRef (kContinue .| kThrow) (kVerifyRegA .| kVerifyRegB .| kVerifyRegCField);
    Descr "iget-short" k22c kIndexFieldRef (kContinue .| kThrow) (kVerifyRegA .| kVerifyRegB .| kVerifyRegCField);
    Descr "iput" k22c kIndexFieldRef (kContinue .| kThrow) (kVerifyRegA .| kVerifyRegB .| kVerifyRegCField);
    Descr "iput-wide" k22c kIndexFieldRef (kContinue .| kThrow) (kVerifyRegAWide .| kVerifyRegB .| kVerifyRegCField);
    Descr "iput-object" k22c kIndexFieldRef (kContinue .| kThrow) (kVerifyRegA .| kVerifyRegB .| kVerifyRegCField);
    Descr "iput-boolean" k22c kIndexFieldRef (kContinue .| kThrow) (kVerifyRegA .| kVerifyRegB .| kVerifyRegCField);
    Descr "iput-byte" k22c kIndexFieldRef (kContinue .| kThrow) (kVerifyRegA .| kVerifyRegB .| kVerifyRegCField);
    Descr "iput-char" k22c kIndexFieldRef (kContinue .| kThrow) (kVerifyRegA .| kVerifyRegB .| kVerifyRegCField);
    Descr "iput-short" k22c kIndexFieldRef (kContinue .| kThrow) (kVerifyRegA .| kVerifyRegB .| kVerifyRegCField);
    Descr "sget" k21c kIndexFieldRef (kContinue .| kThrow) (kVerifyRegA .| kVerifyRegBField);
    Descr "sget-wide" k21c kIndexFieldRef (kContinue .| kThrow) (kVerifyRegAWide .| kVerifyRegBField);
    Descr "sget-object" k21c kIndexFieldRef (kContinue .| kThrow) (kVerifyRegA .| kVerifyRegBField);
    Descr "sget-boolean" k21c kIndexFieldRef (kContinue .| kThrow) (kVerifyRegA .| kVerifyRegBField);
    Descr "sget-byte" k21c kIndexFieldRef (kContinue .| kThrow) (kVerifyRegA .| kVerifyRegBField);
    Descr "sget-char" k21c kIndexFieldRef (kContinue .| kThrow) (kVerifyRegA .| kVerifyRegBField);
    Descr "sget-short" k21c kIndexFieldRef (kContinue .| kThrow) (kVerifyRegA .| kVerifyRegBField);
    Descr "sput" k21c kIndexFieldRef (kContinue .| kThrow) (kVerifyRegA .| kVerifyRegBField);
    Descr "sput-wide" k21c kIndexFieldRef (kContinue .| kThrow) (kVerifyRegAWide .| kVerifyRegBField);
    Descr "sput-object" k21c kIndexFieldRef (kContinue .| kThrow) (kVerifyRegA .| kVerifyRegBField);
    Descr "sput-boolean" k21c kIndexFieldRef (kContinue .| kThrow) (kVerifyRegA .| kVerifyRegBField);
    Descr "sput-byte" k21c kIndexFieldRef (kContinue .| kThrow) (kVerifyRegA .| kVerifyRegBField);
    Descr "sput-char" k21c kIndexFieldRef (kContinue .| kThrow) (kVerifyRegA .| kVerifyRegBField);
    Descr "sput-short" k21c kIndexFieldRef (kContinue .| kThrow) (kVerifyRegA .| kVerifyRegBField);
    Descr "invoke-virtual" k35c kIndexMethodRef (kContinue .| kThrow .| kInvoke) (kVerifyRegBMethod .| kVerifyVarArgNonZero);
    Descr "invoke-super" k35c kIndexMethodRef (kContinue .| kThrow .| kInvoke) (kVerifyRegBMethod .| kVerifyVarArgNonZero);
    Descr "invoke-direct" k35c kIndexMethodRef (kContinue .| kThrow .| kInvoke) (kVerifyRegBMethod .| kVerifyVarArgNonZero);
    Descr "invoke-static" k35c kIndexMethodRef (kContinue .| kThrow .| kInvoke) (kVerifyRegBMethod .| kVerifyVarArg);
    Descr "invoke-interface" k35c kIndexMethodRef (kContinue .| kThrow .| kInvoke) (kVerifyRegBMethod .| kVerifyVarArgNonZero);
    Descr "return-void-no-barrier" k10x kIndexNone kReturn kVerifyNothing;
    Descr "invoke-virtual/range" k3rc kIndexMethodRef (kContinue .| kThrow .| kInvoke) (kVerifyRegBMethod .| kVerifyVarArgRangeNonZero);
    Descr "invoke-super/range" k3rc kIndexMethodRef (kContinue .| kThrow .| kInvoke) (kVerifyRegBMethod .| kVerifyVarArgRangeNonZero);
    Descr "invoke-direct/range" k3rc kIndexMethodRef (kContinue .| kThrow .| kInvoke) (kVerifyRegBMethod .| kVerifyVarArgRangeNonZero);
    Descr "invoke-static/range" k3rc kIndexMethodRef (kContinue .| kThrow .| kInvoke) (kVerifyRegBMethod .| kVerifyVarArgRange);
    Descr "invoke-interface/range" k3rc kIndexMethodRef (kContinue .| kThrow .| kInvoke) (kVerifyRegBMethod .| kVerifyVarArgRangeNonZero);
    Descr "unused-79" k10x kIndexUnknown 0 kVerifyError;
    Descr "unused-7a" k10x kIndexUnknown 0 kVerifyError;
    Descr "neg-int" k12x kIndexNone kContinue (kVerifyRegA .| kVerifyRegB);
    Descr "not-int" k12x kIndexNone kContinue (kVerifyRegA .| kVerifyRegB);
    Descr "neg-long" k12x kIndexNone kContinue (kVerifyRegAWide .| kVerifyRegBWide);
    Descr "not-long" k12x kIndexNone kContinue (kVerifyRegAWide .| kVerifyRegBWide);
    Descr "neg-float" k12x kIndexNone kContinue (kVerifyRegA .| kVerifyRegB)
  ].

(** Opcodes 0x80 to 0xff. *)
Definition instruction_list_high : list InstructionDescriptor :=
  [
    Descr "neg-double" k12x kIndexNone kContinue (kVerifyRegAWide .| kVerifyRegBWide);
    Descr "int-to-long" k12x kIndexNone kContinue (kVerifyRegAWide .| kVerifyRegB);
    Descr "int-to-float" k12x kIndexNone kContinue (kVerifyRegA .| kVerifyRegB);
    Descr "int-to-double" k12x kIndexNone kContinue (kVerifyRegAWide .| kVerifyRegB);
    Descr "long-to-int" k12x kIndexNone kContinue (kVerifyRegA .| kVerifyRegBWide);
    Descr "long-to-float" k12x kIndexNone kContinue (kVerifyRegA .| kVerifyRegBWide);
    Descr "long-to-double" k12x kIndexNone kContinue (kVerifyRegAWide .| kVerifyRegBWide);
    Descr "float-to-int" k12x kIndexNone kContinue (kVerifyRegA .| kVerifyRegB);
    Descr "float-to-long" k12x kIndexNone kContinue (kVerifyRegAWide .| kVerifyRegB);
    Descr "float-to-double" k12x kIndexNone kContinue (kVerifyRegAWide .| kVerifyRegB);
    Descr "double-to-int" k12x kIndexNone kContinue (kVerifyRegA .| kVerifyRegBWide);
    Descr "double-to-long" k12x kIndexNone kContinue (kVerifyRegAWide .| kVerifyRegBWide);
    Descr "double-to-float" k12x kIndexNone kContinue (kVerifyRegA .| kVerifyRegBWide);
    Descr "int-to-byte" k12x kIndexNone kContinue (kVerifyRegA .| kVerifyRegB);
    Descr "int-to-char" k12x kIndexNone kContinue (kVerifyRegA .| kVerifyRegB);
    Descr "int-to-short" k12x kIndexNone kContinue (kVerifyRegA .| kVerifyRegB);
    Descr "add-int" k23x kIndexNone kContinue (kVerifyRegA .| kVerifyRegB .| kVerifyRegC);
    Descr "sub-int" k23x kIndexNone kContinue (kVerifyRegA .| kVerifyRegB .| kVerifyRegC);
    Descr "mul-int" k23x kIndexNone kContinue (kVerifyRegA .| kVerifyRegB .| kVerifyRegC);
    Descr "div-int" k23x kIndexNone (kContinue .| kThrow) (kVerifyRegA .| kVerifyRegB .| kVerifyRegC);
    Descr "rem-int" k23x kIndexNone (kContinue .| kThrow) (kVerifyRegA .| kVerifyRegB .| kVerifyRegC);
    Descr "and-int" k23x kIndexNone kContinue (kVerifyRegA .| kVerifyRegB .| kVerifyRegC);
    Descr "or-int" k23x kIndexNone kContinue (kVerifyRegA .| kVerifyRegB .| kVerifyRegC);
    Descr "xor-int" k23x kIndexNone kContinue (kVerifyRegA .| kVerifyRegB .| kVerifyRegC);
    Descr "shl-int" k23x kIndexNone kContinue (kVerifyRegA .| kVerifyRegB .| kVerifyRegC);
    Descr "shr-int" k23x kIndexNone kContinue (kVerifyRegA .| kVerifyRegB .| kVerifyRegC);
    Descr "ushr-int" k23x kIndexNone kContinue (kVerifyRegA .| kVerifyRegB .| kVerifyRegC);
    Descr "add-long" k23x kIndexNone kContinue (kVerifyRegAWide .| kVerifyRegBWide .| kVerifyRegCWide);
    Descr "sub-long" k23x kIndexNone kContinue (kVerifyRegAWide .| kVerifyRegBWide .| kVerifyRegCWide);
    Descr "mul-long" k23x kIndexNone kContinue (kVerifyRegAWide .| kVerifyRegBWide .| kVerifyRegCWide);
    Descr "div-long" k23x kIndexNone (kContinue .| kThrow) (kVerifyRegAWide .| kVerifyRegBWide .| kVerifyRegCWide);
    Descr "rem-long" k23x kIndexNone (kContinue .| kThrow) (kVerifyRegAWide .| kVerifyRegBWide .| kVerifyRegCWide);
    Descr "and-long" k23x kIndexNone kContinue (kVerifyRegAWide .| kVerifyRegBWide .| kVerifyRegCWide);
    Descr "or-long" k23x kIndexNone kContinue (kVerifyRegAWide .| kVerifyRegBWide .| kVerifyRegCWide);
    Descr "xor-long" k23x kIndexNone kContinue (kVerifyRegAWide .| kVerifyRegBWide .| kVerifyRegCWide);
    Descr "shl-long" k23x kIndexNone kContinue (kVerifyRegAWide .| kVerifyRegBWide .| kVerifyRegC);
    Descr "shr-long" k23x kIndexNone kContinue (kVerifyRegAWide .| kVerifyRegBWide .| kVerifyRegC);
    Descr "ushr-long" k23x kIndexNone kContinue (kVerifyRegAWide .| kVerifyRegBWide .| kVerifyRegC);
    Descr "add-float" k23x kIndexNone kContinue (kVerifyRegA .| kVerifyRegB .| kVerifyRegC);
    Descr "sub-float" k23x kIndexNone kContinue (kVerifyRegA .| kVerifyRegB .| kVerifyRegC);
    Descr "mul-float" k23x kIndexNone kContinue (kVerifyRegA .| kVerifyRegB .| kVerifyRegC);
    Descr "div-float" k23x kIndexNone kContinue (kVerifyRegA .| kVerifyRegB .| kVerifyRegC);
    Descr "rem-float" k23x kIndexNone kContinue (kVerifyRegA .| kVerifyRegB .| kVerifyRegC);
    Descr "add-double" k23x kIndexNone kContinue (kVerifyRegAWide .| kVerifyRegBWide .| kVerifyRegCWide);
    Descr "sub-double" k23x kIndexNone kContinue (kVerifyRegAWide .| kVerifyRegBWide .| kVerifyRegCWide);
    Descr "mul-double" k23x kIndexNone kContinue (kVerifyRegAWide .| kVerifyRegBWide .| kVerifyRegCWide);
    Descr "div-double" k23x kIndexNone kContinue (kVerifyRegAWide .| kVerifyRegBWide .| kVerifyRegCWide);
    Descr "rem-double" k23x kIndexNone kContinue (kVerifyRegAWide .| kVerifyRegBWide .| kVerifyRegCWide);
    Descr "add-int/2addr" k12x kIndexNone kContinue (kVerifyRegA .| kVerifyRegB);
    Descr "sub-int/2addr" k12x kIndexNone kContinue (kVerifyRegA .| kVerifyRegB);
    Descr "mul-int/2addr" k12x kIndexNone kContinue (kVerifyRegA .| kVerifyRegB);
    Descr "div-int/2addr" k12x kIndexNone (kContinue .| kThrow) (kVerifyRegA .| kVerifyRegB);
    Descr "rem-int/2addr" k12x kIndexNone (kContinue .| kThrow) (kVerifyRegA .| kVerifyRegB);
    Descr "and-int/2addr" k12x kIndexNone kContinue (kVerifyRegA .| kVerifyRegB);
    Descr "or-int/2addr" k12x kIndexNone kContinue (kVerifyRegA .| kVerifyRegB);
    Descr "xor-int/2addr" k12x kIndexNone kContinue (kVerifyRegA .| kVerifyRegB);
    Descr "shl-int/2addr" k12x kIndexNone kContinue (kVerifyRegA .| kVerifyRegB);
    Descr "shr-int/2addr" k12x kIndexNone kContinue (kVerifyRegA .| kVerifyRegB);
    Descr "ushr-int/2addr" k12x kIndexNone kContinue (kVerifyRegA .| kVerifyRegB);
    Descr "add-long/2addr" k12x kIndexNone kContinue (kVerifyRegAWide .| kVerifyRegBWide);
    Descr "sub-long/2addr" k12x kIndexNone kContinue (kVerifyRegAWide .| kVerifyRegBWide);
    Descr "mul-long/2addr" k12x kIndexNone kContinue (kVerifyRegAWide .| kVerifyRegBWide);
    Descr "div-long/2addr" k12x kIndexNone (kContinue .| kThrow) (kVerifyRegAWide .| kVerifyRegBWide);
    Descr "rem-long/2addr" k12x kIndexNone (kContinue .| kThrow) (kVerifyRegAWide .| kVerifyRegBWide)
  ] ++
  [
    Descr "and-long/2addr" k12x kIndexNone kContinue (kVerifyRegAWide .| kVerifyRegBWide);
    Descr "or-long/2addr" k12x kIndexNone kContinue (kVerifyRegAWide .| kVerifyRegBWide);
    Descr "xor-long/2addr" k12x kIndexNone kContinue (kVerifyRegAWide .| kVerifyRegBWide);
    Descr "shl-long/2addr" k12x kIndexNone kContinue (kVerifyRegAWide .| kVerifyRegB);
    Descr "shr-long/2addr" k12x kIndexNone kContinue (kVerifyRegAWide .| kVerifyRegB);
    Descr "ushr-long/2addr" k12x kIndexNone kContinue (kVerifyRegAWide .| kVerifyRegB);
    Descr "add-float/2addr" k12x kIndexNone kContinue (kVerifyRegA .| kVerifyRegB);
    Descr "sub-float/2addr" k12x kIndexNone kContinue (kVerifyRegA .| kVerifyRegB);
    Descr "mul-float/2addr" k12x kIndexNone kContinue (kVerifyRegA .| kVerifyRegB);
    Descr "div-float/2addr" k12x kIndexNone kContinue (kVerifyRegA .| kVerifyRegB);
    Descr "rem-float/2addr" k12x kIndexNone kContinue (kVerifyRegA .| kVerifyRegB);
    Descr "add-double/2addr" k12x kIndexNone kContinue (kVerifyRegAWide .| kVerifyRegBWide);
    Descr "sub-double/2addr" k12x kIndexNone kContinue (kVerifyRegAWide .| kVerifyRegBWide);
    Descr "mul-double/2addr" k12x kIndexNone kContinue (kVerifyRegAWide .| kVerifyRegBWide);
    Descr "div-double/2addr" k12x kIndexNone kContinue (kVerifyRegAWide .| kVerifyRegBWide);
    Descr "rem-double/2addr" k12x kIndexNone kContinue (kVerifyRegAWide .| kVerifyRegBWide);
    Descr "add-int/lit16" k22s kIndexNone kContinue (kVerifyRegA .| kVerifyRegB);
    Descr "rsub-int" k22s kIndexNone kContinue (kVerifyRegA .| kVerifyRegB);
    Descr "mul-int/lit16" k22s kIndexNone kContinue (kVerifyRegA .| kVerifyRegB);
    Descr "div-int/lit16" k22s kIndexNone (kContinue .| kThrow) (kVerifyRegA .| kVerifyRegB);
    Descr "rem-int/lit16" k22s kIndexNone (kContinue .| kThrow) (kVerifyRegA .| kVerifyRegB);
    Descr "and-int/lit16" k22s kIndexNone kContinue (kVerifyRegA .| kVerifyRegB);
    Descr "or-int/lit16" k22s kIndexNone kContinue (kVerifyRegA .| kVerifyRegB);
    Descr "xor-int/lit16" k22s kIndexNone kContinue (kVerifyRegA .| kVerifyRegB);
    Descr "add-int/lit8" k22b kIndexNone kContinue (kVerifyRegA .| kVerifyRegB);
    Descr "rsub-int/lit8" k22b kIndexNone kContinue (kVerifyRegA .| kVerifyRegB);
    Descr "mul-int/lit8" k22b kIndexNone kContinue (kVerifyRegA .| kVerifyRegB);
    Descr "div-int/lit8" k22b kIndexNone (kContinue .| kThrow) (kVerifyRegA .| kVerifyRegB);
    Descr "rem-int/lit8" k22b kIndexNone (kContinue .| kThrow) (kVerifyRegA .| kVerifyRegB);
    Descr "and-int/lit8" k22b kIndexNone kContinue (kVerifyRegA .| kVerifyRegB);
    Descr "or-int/lit8" k22b kIndexNone kContinue (kVerifyRegA .| kVerifyRegB);
    Descr "xor-int/lit8" k22b kIndexNone kContinue (kVerifyRegA .| kVerifyRegB);
    Descr "shl-int/lit8" k22b kIndexNone kContinue (kVerifyRegA .| kVerifyRegB);
    Descr "shr-int/lit8" k22b kIndexNone kContinue (kVerifyRegA .| kVerifyRegB);
    Descr "ushr-int/lit8" k22b kIndexNone kContinue (kVerifyRegA .| kVerifyRegB);
    Descr "iget-quick" k22c kIndexFieldOffset (kContinue .| kThrow) (kVerifyRegA .| kVerifyRegB .| kVerifyRuntimeOnly);
    Descr "iget-wide-quick" k22c kIndexFieldOffset (kContinue .| kThrow) (kVerifyRegAWide .| kVerifyRegB .| kVerifyRuntimeOnly);
    Descr "iget-object-quick" k22c kIndexFieldOffset (kContinue .| kThrow) (kVerifyRegA .| kVerifyRegB .| kVerifyRuntimeOnly);
    Descr "iput-quick" k22c kIndexFieldOffset (kContinue .| kThrow) (kVerifyRegA .| kVerifyRegB .| kVerifyRuntimeOnly);
    Descr "iput-wide-quick" k22c kIndexFieldOffset (kContinue .| kThrow) (kVerifyRegAWide .| kVerifyRegB .| kVerifyRuntimeOnly);
    Descr "iput-object-quick" k22c kIndexFieldOffset (kContinue .| kThrow) (kVerifyRegA .| kVerifyRegB .| kVerifyRuntimeOnly);
    Descr "invoke-virtual-quick" k35c kIndexVtableOffset (kContinue .| kThrow .| kInvoke) (kVerifyVarArgNonZero .| kVerifyRuntimeOnly);
    Descr "invoke-virtual/range-quick" k3rc kIndexVtableOffset (kContinue .| kThrow .| kInvoke) (kVerifyVarArgRangeNonZero .| kVerifyRuntimeOnly);
    Descr "iput-boolean-quick" k22c kIndexFieldOffset (kContinue .| kThrow) (kVerifyRegA .| kVerifyRegB .| kVerifyRuntimeOnly);
    Descr "iput-byte-quick" k22c kIndexFieldOffset (kContinue .| kThrow) (kVerifyRegA .| kVerifyRegB .| kVerifyRuntimeOnly);
    Descr "iput-char-quick" k22c kIndexFieldOffset (kContinue .| kThrow) (kVerifyRegA .| kVerifyRegB .| kVerifyRuntimeOnly);
    Descr "iput-short-quick" k22c kIndexFieldOffset (kContinue .| kThrow) (kVerifyRegA .| kVerifyRegB .| kVerifyRuntimeOnly);
    Descr "iget-boolean-quick" k22c kIndexFieldOffset (kContinue .| kThrow) (kVerifyRegA .| kVerifyRegB .| kVerifyRuntimeOnly);
    Descr "iget-byte-quick" k22c kIndexFieldOffset (kContinue .| kThrow) (kVerifyRegA .| kVerifyRegB .| kVerifyRuntimeOnly);
    Descr "iget-char-quick" k22c kIndexFieldOffset (kContinue .| kThrow) (kVerifyRegA .| kVerifyRegB .| kVerifyRuntimeOnly);
    Descr "iget-short-quick" k22c kIndexFieldOffset (kContinue .| kThrow) (kVerifyRegA .| kVerifyRegB .| kVerifyRuntimeOnly);
    Descr "unused-f3" k10x kIndexUnknown 0 kVerifyError;
    Descr "unused-f4" k10x kIndexUnknown 0 kVerifyError;
    Descr "unused-f5" k10x kIndexUnknown 0 kVerifyError;
    Descr "unused-f6" k10x kIndexUnknown 0 kVerifyError;
    Descr "unused-f7" k10x kIndexUnknown 0 kVerifyError;
    Descr "unused-f8" k10x kIndexUnknown 0 kVerifyError;
    Descr "unused-f9" k10x kIndexUnknown 0 kVerifyError;
    Descr "invoke-polymorphic" k45cc kIndexMethodAndProtoRef (kContinue .| kThrow .| kInvoke) (kVerifyRegBMethod .| kVerifyVarArgNonZero .| kVerifyRegHPrototype);
    Descr "invoke-polymorphic/range" k4rcc kIndexMethodAndProtoRef (kContinue .| kThrow .| kInvoke) (kVerifyRegBMethod .| kVerifyVarArgRangeNonZero .| kVerifyRegHPrototype);
    Descr "invoke-custom" k35c kIndexCallSiteRef (kContinue .| kThrow) (kVerifyRegBCallSite .| kVerifyVarArg);
    Descr "invoke-custom/range" k3rc kIndexCallSiteRef (kContinue .| kThrow) (kVerifyRegBCallSite .| kVerifyVarArgRange);
    Descr "const-method-handle" k21c kIndexMethodHandleRef (kContinue .| kThrow) (kVerifyRegA .| kVerifyRegBMethodHandle);
    Descr "const-method-type" k21c kIndexProtoRef (kContinue .| kThrow) (kVerifyRegA .| kVerifyRegBPrototype)
  ].

Definition gInstructionDescriptors : list InstructionDescriptor := instruction_list_low ++ instruction_list_high.
End Table.

(** The tables are indexed by an [Opcode], a byte, so no index is outside. *)
Definition descriptor (opcode : Opcode) : InstructionDescriptor :=
  nth (Z.to_nat opcode) gInstructionDescriptors (Descr String.EmptyString k10x kIndexUnknown 0 0).
Definition GetIndexTypeFromOpcode (opcode : Opcode) : InstructionIndexType := index_type (descriptor opcode).
Definition GetFormatFromOpcode (opcode : Opcode) : InstructionFormat := format (descriptor opcode).
Definition GetFlagsFromOpcode (opcode : Opcode) : Z := flags (descriptor opcode).
Definition GetVerifyFlagsFromOpcode (opcode : Opcode) : Z := verify_flags (descriptor opcode).
Definition GetOpcodeName (opcode : Opcode) : list Z := str (opcode_name (descriptor opcode)).

Definition OpcodeFromBytecode (bytecode : Z) : Opcode := bytecode & 0xff.

(** ** Widths, in 16-bit units *)
Definition GetWidthFromFormat (f : InstructionFormat) : Z :=
  match f with
  | k10x | k12x | k11n | k11x | k10t => 1
  | k20t | k20bc | k21c | k22x | k21s | k21t | k21h | k23x | k22b | k22s | k22t | k22c | k22cs => 2
  | k30t | k31t | k31c | k32x | k31i | k35c | k35ms | k35mi | k3rc | k3rms | k3rmi => 3
  | k45cc | k4rcc => 4
  | k51l => 5
  end.

Definition GetWidthFromBytecode (bytecode : list Z) : outcome Z :=
  w0 ← deref (bytecode !! 0%nat);
  if w0 =? kPackedSwitchSignature then
    size ← deref (bytecode !! 1%nat);
    Ret (4 + size * 2)
  else if w0 =? kSparseSwitchSignature then
    size ← deref (bytecode !! 1%nat);
    Ret (2 + size * 4)
  else if w0 =? kArrayDataSignature then
    elemWidth ← deref (bytecode !! 1%nat);
    lo ← deref (bytecode !! 2%nat);
    hi ← deref (bytecode !! 3%nat);
    let len := lo .| (hi << 16) in
    Ret (U32 (4 + U32 (U32 (elemWidth * len) + 1) / 2))
  else Ret (GetWidthFromFormat (GetFormatFromOpcode (OpcodeFromBytecode w0))).

(** ** Decoding *)
Record Instruction := MkInstruction {
  vA : Z;
  vB : Z;
  vB_wide : Z;
  vC : Z;
  arg : list Z;
  dec_opcode : Opcode
}.

Definition InstA (inst : Z) : Z := (inst >> 8) & 0x0f.
Definition InstB (inst : Z) : Z := inst >> 12.
Definition InstAA (inst : Z) : Z := inst >> 8.

Definition FetchU4 (ptr : list Z) : outcome Z :=
  lo ← deref (ptr !! 0%nat);
  hi ← deref (ptr !! 1%nat);
  Ret (lo .| (hi << 16)).
Definition FetchU8 (ptr : list Z) : outcome Z :=
  lo ← FetchU4 ptr;
  hi ← FetchU4 (drop 2 ptr);
  Ret (lo .| (hi << 32)).

(** [dec] with the fields a format fills in; the others are zero. *)
Definition dec_with (opcode : Opcode) (a b c : Z) : Instruction := MkInstruction a b 0 c [0; 0; 0; 0; 0] opcode.

(** The argument registers of formats 35c, 35ms and 35mi, from the count
    [vA], the field [InstA] and the third unit. *)
Definition decode_35 (f : InstructionFormat) (opcode : Opcode) (inst b regList : Z) : outcome Instruction :=
  let n := InstB inst in
  let a0 := regList & 0x0f in
  let a1 := (regList >> 4) & 0x0f in
  let a2 := (regList >> 8) & 0x0f in
  let a3 := (regList >> 12) & 0x0f in
  let dec c args := Ret (MkInstruction n b 0 c args opcode) in
  if n =? 5 then
    _ ← SLICER_CHECK (bool_decide (f <> k35mi));
    dec a0 [a0; a1; a2; a3; InstA inst]
  else if n =? 4 then dec a0 [a0; a1; a2; a3; 0]
  else if n =? 3 then dec a0 [a0; a1; a2; 0; 0]
  else if n =? 2 then dec a0 [a0; a1; 0; 0; 0]
  else if n =? 1 then dec a0 [a0; 0; 0; 0; 0]
  else if n =? 0 then dec 0 [0; 0; 0; 0; 0]
  else Trap.

Definition DecodeInstruction (bytecode : list Z) : outcome Instruction :=
  inst ← deref (bytecode !! 0%nat);
  let opcode := OpcodeFromBytecode inst in
  let dec := dec_with opcode in
  let unit k := deref (bytecode !! k) in
  match GetFormatFromOpcode opcode with
  | k10x => Ret (dec 0 0 0)
  | k12x => Ret (dec (InstA inst) (InstB inst) 0)
  | k11n => Ret (dec (InstA inst) (U32 (S32 (InstB inst << 28) >> 28)) 0)
  | k11x => Ret (dec (InstAA inst) 0 0)
  | k10t => Ret (dec (U32 (S8 (InstAA inst))) 0 0)
  | k20t => u ← unit 1%nat; Ret (dec (U32 (S16 u)) 0 0)
  | k20bc | k21c | k22x => u ← unit 1%nat; Ret (dec (InstAA inst) u 0)
  | k21s | k21t => u ← unit 1%nat; Ret (dec (InstAA inst) (U32 (S16 u)) 0)
  | k21h => u ← unit 1%nat; Ret (dec (InstAA inst) u 0)
  | k23x => u ← unit 1%nat; Ret (dec (InstAA inst) (u & 0xff) (u >> 8))
  | k22b => u ← unit 1%nat; Ret (dec (InstAA inst) (u & 0xff) (U32 (S8 (u >> 8))))
  | k22s | k22t => u ← unit 1%nat; Ret (dec (InstA inst) (InstB inst) (U32 (S16 u)))
  | k22c | k22cs => u ← unit 1%nat; Ret (dec (InstA inst) (InstB inst) u)
  | k30t => v ← FetchU4 (drop 1 bytecode); Ret (dec v 0 0)
  | k31t | k31c => v ← FetchU4 (drop 1 bytecode); Ret (dec (InstAA inst) v 0)
  | k32x => u ← unit 1%nat; v ← unit 2%nat; Ret (dec u v 0)
  | k31i => v ← FetchU4 (drop 1 bytecode); Ret (dec (InstAA inst) v 0)
  | (k35c | k35ms | k35mi) as f =>
      b ← unit 1%nat;
      regList ← unit 2%nat;
      decode_35 f opcode inst b regList
  | k3rc | k3rms | k3rmi => u ← unit 1%nat; v ← unit 2%nat; Ret (dec (InstAA inst) u v)
  | k45cc =>
      b ← unit 1%nat;
      regList ← unit 2%nat;
      h ← unit 3%nat;
      Ret (MkInstruction (InstB inst) b 0 (regList & 0xf)
             [(regList >> 4) & 0xf; (regList >> 8) & 0xf; regList >> 12; InstA inst; h] opcode)
  | k4rcc =>
      b ← unit 1%nat;
      c ← unit 2%nat;
      h ← unit 3%nat;
      Ret (MkInstruction (InstAA inst) b 0 c [0; 0; 0; 0; h] opcode)
  | k51l => v ← FetchU8 (drop 1 bytecode); Ret (MkInstruction (InstAA inst) 0 v 0 [0; 0; 0; 0; 0] opcode)
  end.

End SlicerIsa.
