(* ===== verification/SlicerEncode.v ===== *)
(** * The bytecode encoder (external/dexter/slicer)

    The code IR of code_ir.h and BytecodeEncoder of bytecode_encoder.cc, which
    CodeIr::Assemble runs.  The buffer of bytes is the list of 16-bit units it
    holds (every push is one or two units); a [Label*] is a key [label] and
    its offset field an entry of [label_offset], absent while it holds
    kInvalidOffset. *)
From stdpp Require Import gmap.
From S2P Require Import Prelude.
From S2P Require Import SlicerIsa.

Module Lir.
Export SlicerIsa.
Local Open Scope cint_scope.

(** ** Code IR *)
Definition label : Type := Z.
Definition kInvalidOffset : Z := 0xffffffff.

(** The subclasses of IndexedOperand. *)
Inductive IndexedKind := String | Type_ | Field | Method | MethodHandle | Proto.
#[export] Instance IndexedKind_eq_dec : EqDecision IndexedKind.
Proof. solve_decision. Defined.

Inductive Operand :=
  | Const32 (u4_value : Z)
  | Const64 (u8_value : Z)
  | VReg (reg : Z)
  | VRegPair (base_reg : Z)
  | VRegList (registers : list Z)
  | VRegRange (base_reg count : Z)
  | Indexed (kind : IndexedKind) (index : Z)
  | CodeLocation (target : label).

Inductive LirInstruction :=
  | Bytecode (opcode : Opcode) (operands : list Operand)
  | PackedSwitchPayload (first_key : Z) (targets : list label)
  | SparseSwitchPayload (switch_cases : list (Z * label))
  | ArrayData (data : list Z)
  | Label (id : label) (aligned : bool)
  | DbgInfoHeader
  | DbgInfoAnnotation
  | TryBlockBegin
  | TryBlockEnd.

(** ** Packing fields into units *)
Definition Pack_Z_8 (a : Z) : outcome Z :=
  let fa := a & 0xff in
  _ ← SLICER_CHECK (fa =? a);
  Ret fa.

Definition Pack_8_8 (a b : Z) : outcome Z :=
  let fa := a & 0xff in
  _ ← SLICER_CHECK (fa =? a);
  let fb := b & 0xff in
  _ ← SLICER_CHECK (fb =? b);
  Ret (U16 (fa << 8 .| fb)).

Definition Pack_4_4_8 (a b c : Z) : outcome Z :=
  let fa := a & 0xf in
  _ ← SLICER_CHECK (fa =? a);
  let fb := b & 0xf in
  _ ← SLICER_CHECK (fb =? b);
  let fc := c & 0xff in
  _ ← SLICER_CHECK (fc =? c);
  Ret (U16 ((fa << 12 .| (fb << 8)) .| fc)).

Definition Pack_4_4_4_4 (a b c d : Z) : outcome Z :=
  let fa := a & 0xf in
  _ ← SLICER_CHECK (fa =? a);
  let fb := b & 0xf in
  _ ← SLICER_CHECK (fb =? b);
  let fc := c & 0xf in
  _ ← SLICER_CHECK (fc =? c);
  let fd := d & 0xf in
  _ ← SLICER_CHECK (fd =? d);
  Ret (U16 (((fa << 12 .| (fb << 8)) .| (fc << 4)) .| fd)).

Definition Pack_16 (a : Z) : outcome Z :=
  let fa := a & 0xffff in
  _ ← SLICER_CHECK (fa =? a);
  Ret fa.

Definition Trim_S0 (value : Z) : outcome Z :=
  let trim := value & 0xf in
  _ ← SLICER_CHECK (U32 (S32 (trim << 28) >> 28) =? value);
  Ret trim.
Definition Trim_S1 (value : Z) : outcome Z :=
  let trim := value & 0xff in
  _ ← SLICER_CHECK (U32 (S32 (trim << 24) >> 24) =? value);
  Ret trim.
Definition Trim_S2 (value : Z) : outcome Z :=
  let trim := value & 0xffff in
  _ ← SLICER_CHECK (U32 (S32 (trim << 16) >> 16) =? value);
  Ret trim.

(** ** Operands

    [CastOperand<T>]: a cast that fails leaves nullptr and traps.  [operands]
    is a std::vector, an index past its end is undefined. *)
Section Cast.
Variable operands : list Operand.

Definition cast {A} (index : nat) (pick : Operand -> option A) : outcome A :=
  op ← deref (operands !! index);
  match pick op with Some a => Ret a | None => Trap end.

Definition CastVReg i := cast i (fun op => match op with VReg r => Some r | _ => None end).
Definition CastVRegPair i := cast i (fun op => match op with VRegPair r => Some r | _ => None end).
Definition CastConst32 i := cast i (fun op => match op with Const32 v => Some v | _ => None end).
Definition CastConst64 i := cast i (fun op => match op with Const64 v => Some v | _ => None end).
Definition CastVRegList i := cast i (fun op => match op with VRegList l => Some l | _ => None end).
Definition CastVRegRange i := cast i (fun op => match op with VRegRange b n => Some (b, n) | _ => None end).
Definition CastIndexed i := cast i (fun op => match op with Indexed _ n => Some n | _ => None end).
Definition CastCodeLocation i := cast i (fun op => match op with CodeLocation l => Some l | _ => None end).

Definition get_reg (wide : Z) (opcode : Opcode) (index : nat) : outcome Z :=
  if negb (GetVerifyFlagsFromOpcode opcode & wide =? 0) then CastVRegPair index else CastVReg index.
Definition GetRegA := get_reg kVerifyRegAWide.
Definition GetRegB := get_reg kVerifyRegBWide.
Definition GetRegC := get_reg kVerifyRegCWide.
Definition operands_size (n : nat) : outcome unit := SLICER_CHECK (bool_decide (length operands = n)).
End Cast.

(** ** The encoder's state *)
Record LabelFixup := MkFixup {
  fix_offset : Z;
  fix_label : label;
  short_fixup : bool
}.

Record BytecodeEncoder := MkEncoder {
  bytecode_ : list Z;
  fixups_ : list LabelFixup;
  offset_ : Z;
  outs_count_ : Z;
  label_offset : gmap label Z;
  packed_switches_ : gmap Z (list label);
  sparse_switches_ : gmap Z (list (Z * label))
}.

Definition initial : BytecodeEncoder := MkEncoder [] [] 0 0 ∅ ∅ ∅.
Definition offset_of (labels : gmap label Z) (l : label) : Z := default kInvalidOffset (labels !! l).

(** What the case of a format produces: the units it pushes, the fixups it
    records and the number of outgoing arguments it reports. *)
Record Emit := MkEmit { units : list Z; new_fixups : list LabelFixup; outs : Z }.
Definition push (us : list Z) : outcome Emit := Ret (MkEmit us [] 0).

(** The relative offset of a branch from [offset] to [l]; zero, and a fixup,
    while the label has not been reached.  The flags say whether the branch
    may have offset 0, and whether the offset must fit 16 bits. *)
Definition branch_offset (labels : gmap label Z) (offset : Z) (l : label) (self_ok short : bool) : outcome (Z * list LabelFixup) :=
  let target := offset_of labels l in
  if negb (target =? kInvalidOffset) then
    _ ← assert_ (target <=? offset);
    let A := U32 (target - offset) in
    _ ← SLICER_CHECK (self_ok || negb (A =? 0));
    _ ← SLICER_CHECK (negb short || (A >> 16 =? 0xffff));
    Ret (A, [])
  else Ret (0, [MkFixup offset l short]).

(** The argument registers of formats 35c and 45cc. *)
Definition nth_reg (regs : list Z) (i : nat) : Z := nth i regs 0.

(** The count of outgoing arguments is tracked for invocations only. *)
Definition invoke_outs (opcode : Opcode) (A : Z) : Z :=
  if negb (GetFlagsFromOpcode opcode & kInvoke =? 0) then A else 0.

Definition encode_format (labels : gmap label Z) (offset : Z) (opcode : Opcode) (operands : list Operand) : outcome Emit :=
  let size := operands_size operands in
  match GetFormatFromOpcode opcode with
  | k10x =>
      _ ← size 0%nat;
      u0 ← Pack_Z_8 opcode;
      push [u0]
  | k12x =>
      _ ← size 2%nat;
      vA ← GetRegA operands opcode 0; vB ← GetRegB operands opcode 1;
      u0 ← Pack_4_4_8 vB vA opcode;
      push [u0]
  | k22x =>
      _ ← size 2%nat;
      vA ← GetRegA operands opcode 0; vB ← GetRegB operands opcode 1;
      u0 ← Pack_8_8 vA opcode; u1 ← Pack_16 vB;
      push [u0; u1]
  | k32x =>
      _ ← size 2%nat;
      vA ← GetRegA operands opcode 0; vB ← GetRegB operands opcode 1;
      u0 ← Pack_Z_8 opcode; u1 ← Pack_16 vA; u2 ← Pack_16 vB;
      push [u0; u1; u2]
  | k11n =>
      _ ← size 2%nat;
      vA ← GetRegA operands opcode 0;
      c ← CastConst32 operands 1; B ← Trim_S0 c;
      u0 ← Pack_4_4_8 B vA opcode;
      push [u0]
  | k21s =>
      _ ← size 2%nat;
      vA ← GetRegA operands opcode 0;
      c ← CastConst32 operands 1; B ← Trim_S2 c;
      u0 ← Pack_8_8 vA opcode; u1 ← Pack_16 B;
      push [u0; u1]
  | k11x =>
      _ ← size 1%nat;
      vA ← GetRegA operands opcode 0;
      u0 ← Pack_8_8 vA opcode;
      push [u0]
  | k31i =>
      _ ← size 2%nat;
      vA ← GetRegA operands opcode 0;
      B ← CastConst32 operands 1;
      u0 ← Pack_8_8 vA opcode; u1 ← Pack_16 (B & 0xffff); u2 ← Pack_16 (B >> 16);
      push [u0; u1; u2]
  | k20t =>
      _ ← size 1%nat;
      l ← CastCodeLocation operands 0;
      '(A, fx) ← branch_offset labels offset l false true;
      u0 ← Pack_Z_8 opcode; u1 ← Pack_16 (A & 0xffff);
      Ret (MkEmit [u0; u1] fx 0)
  | k30t =>
      _ ← size 1%nat;
      l ← CastCodeLocation operands 0;
      '(A, fx) ← branch_offset labels offset l true false;
      u0 ← Pack_Z_8 opcode; u1 ← Pack_16 (A & 0xffff); u2 ← Pack_16 (A >> 16);
      Ret (MkEmit [u0; u1; u2] fx 0)
  | k21t =>
      _ ← size 2%nat;
      vA ← GetRegA operands opcode 0;
      l ← CastCodeLocation operands 1;
      '(B, fx) ← branch_offset labels offset l false true;
      u0 ← Pack_8_8 vA opcode; u1 ← Pack_16 (B & 0xffff);
      Ret (MkEmit [u0; u1] fx 0)
  | k22t =>
      _ ← size 3%nat;
      vA ← GetRegA operands opcode 0; vB ← GetRegB operands opcode 1;
      l ← CastCodeLocation operands 2;
      '(C, fx) ← branch_offset labels offset l false true;
      u0 ← Pack_4_4_8 vB vA opcode; u1 ← Pack_16 (C & 0xffff);
      Ret (MkEmit [u0; u1] fx 0)
  | k31t =>
      _ ← size 2%nat;
      vA ← GetRegA operands opcode 0;
      l ← CastCodeLocation operands 1;
      '(B, fx) ← branch_offset labels offset l false false;
      u0 ← Pack_8_8 vA opcode; u1 ← Pack_16 (B & 0xffff); u2 ← Pack_16 (B >> 16);
      Ret (MkEmit [u0; u1; u2] fx 0)
  | k23x =>
      _ ← size 3%nat;
      vA ← GetRegA operands opcode 0; vB ← GetRegB operands opcode 1; vC ← GetRegC operands opcode 2;
      u0 ← Pack_8_8 vA opcode; u1 ← Pack_8_8 vC vB;
      push [u0; u1]
  | k22b =>
      _ ← size 3%nat;
      vA ← GetRegA operands opcode 0; vB ← GetRegB operands opcode 1;
      c ← CastConst32 operands 2; C ← Trim_S1 c;
      u0 ← Pack_8_8 vA opcode; u1 ← Pack_8_8 C vB;
      push [u0; u1]
  | k22s =>
      _ ← size 3%nat;
      vA ← GetRegA operands opcode 0; vB ← GetRegB operands opcode 1;
      c ← CastConst32 operands 2; C ← Trim_S2 c;
      u0 ← Pack_4_4_8 vB vA opcode; u1 ← Pack_16 C;
      push [u0; u1]
  | k22c =>
      _ ← size 3%nat;
      vA ← GetRegA operands opcode 0; vB ← GetRegB operands opcode 1;
      C ← CastIndexed operands 2;
      u0 ← Pack_4_4_8 vB vA opcode; u1 ← Pack_16 C;
      push [u0; u1]
  | k21c =>
      _ ← size 2%nat;
      vA ← GetRegA operands opcode 0;
      B ← CastIndexed operands 1;
      u0 ← Pack_8_8 vA opcode; u1 ← Pack_16 B;
      push [u0; u1]
  | k31c =>
      _ ← size 2%nat;
      vA ← GetRegA operands opcode 0;
      B ← CastIndexed operands 1;
      u0 ← Pack_8_8 vA opcode; u1 ← Pack_16 (B & 0xffff); u2 ← Pack_16 (B >> 16);
      push [u0; u1; u2]
  | k35c =>
      _ ← size 2%nat;
      regs ← CastVRegList operands 0;
      B ← CastIndexed operands 1;
      let A := Z.of_nat (length regs) in
      let r := nth_reg regs in
      u0 ← Pack_4_4_8 A (r 4%nat) opcode; u1 ← Pack_16 B;
      u2 ← Pack_4_4_4_4 (r 3%nat) (r 2%nat) (r 1%nat) (r 0%nat);
      Ret (MkEmit [u0; u1; u2] [] (invoke_outs opcode A))
  | k3rc =>
      _ ← size 2%nat;
      '(C, count) ← CastVRegRange operands 0;
      let A := U32 count in
      B ← CastIndexed operands 1;
      u0 ← Pack_8_8 A opcode; u1 ← Pack_16 B; u2 ← Pack_16 C;
      Ret (MkEmit [u0; u1; u2] [] (invoke_outs opcode A))
  | k51l =>
      _ ← size 2%nat;
      vA ← GetRegA operands opcode 0;
      B ← CastConst64 operands 1;
      u0 ← Pack_8_8 vA opcode;
      u1 ← Pack_16 ((B >> 0) & 0xffff); u2 ← Pack_16 ((B >> 16) & 0xffff);
      u3 ← Pack_16 ((B >> 32) & 0xffff); u4 ← Pack_16 ((B >> 48) & 0xffff);
      push [u0; u1; u2; u3; u4]
  | k45cc =>
      _ ← size 3%nat;
      regs ← CastVRegList operands 0;
      B ← CastIndexed operands 1; H ← CastIndexed operands 2;
      let A := Z.of_nat (length regs) in
      let r := nth_reg regs in
      u0 ← Pack_4_4_8 A (r 4%nat) opcode; u1 ← Pack_16 B;
      u2 ← Pack_4_4_4_4 (r 3%nat) (r 2%nat) (r 1%nat) (r 0%nat);
      u3 ← Pack_16 H;
      Ret (MkEmit [u0; u1; u2; u3] [] (invoke_outs opcode A))
  | k4rcc =>
      _ ← size 3%nat;
      '(C, count) ← CastVRegRange operands 0;
      let A := U32 count in
      B ← CastIndexed operands 1; H ← CastIndexed operands 2;
      u0 ← Pack_8_8 A opcode; u1 ← Pack_16 B; u2 ← Pack_16 C; u3 ← Pack_16 H;
      Ret (MkEmit [u0; u1; u2; u3] [] (invoke_outs opcode A))
  | k21h =>
      _ ← size 2%nat;
      if opcode =? OP_CONST_HIGH16 then
        vA ← GetRegA operands opcode 0;
        c ← CastConst32 operands 1;
        u0 ← Pack_8_8 vA opcode; u1 ← Pack_16 (c >> 16);
        push [u0; u1]
      else if opcode =? OP_CONST_WIDE_HIGH16 then
        vA ← GetRegA operands opcode 0;
        c ← CastConst64 operands 1;
        u0 ← Pack_8_8 vA opcode; u1 ← Pack_16 (U32 (c >> 48));
        push [u0; u1]
      else Stop
  | k10t | k20bc | k22cs | k35ms | k3rms | k35mi | k3rmi => Stop
  end.

(** ** Visiting an instruction *)

(** Unconditional 8-bit branches become 16-bit ones. *)
Definition effective_opcode (opcode : Opcode) : Opcode := if opcode =? OP_GOTO then OP_GOTO_16 else opcode.

Definition Visit_Bytecode (e : BytecodeEncoder) (op : Opcode) (operands : list Operand) : outcome BytecodeEncoder :=
  let opcode := effective_opcode op in
  em ← encode_format (label_offset e) (offset_ e) opcode operands;
  let width := GetWidthFromFormat (GetFormatFromOpcode opcode) in
  _ ← SLICER_CHECK (2 * Z.of_nat (length (units em)) =? 2 * width);
  Ret (MkEncoder (bytecode_ e ++ units em) (fixups_ e ++ new_fixups em) (U32 (offset_ e + width))
         (Z.max (outs_count_ e) (outs em)) (label_offset e) (packed_switches_ e) (sparse_switches_ e)).

(** A 32-bit value pushed into the little-endian buffer. *)
Definition push_s4 (v : Z) : list Z := [U16 v; U16 (v >> 16)].

(** Push [us] and advance the offset by their number. *)
Definition pushed (e : BytecodeEncoder) (us : list Z) : BytecodeEncoder :=
  MkEncoder (bytecode_ e ++ us) (fixups_ e) (U32 (offset_ e + Z.of_nat (length us))) (outs_count_ e)
    (label_offset e) (packed_switches_ e) (sparse_switches_ e).

Definition Visit_PackedSwitch (e : BytecodeEncoder) (first_key : Z) (targets : list label) : outcome BytecodeEncoder :=
  _ ← SLICER_CHECK (offset_ e mod 2 =? 0);
  _ ← SLICER_CHECK (bool_decide (packed_switches_ e !! offset_ e = None));
  n ← Pack_16 (U32 (Z.of_nat (length targets)));
  let e' := pushed e ([kPackedSwitchSignature; n] ++ push_s4 first_key ++ replicate (2 * length targets) 0) in
  Ret (MkEncoder (bytecode_ e') (fixups_ e') (offset_ e') (outs_count_ e') (label_offset e')
         (<[offset_ e := targets]> (packed_switches_ e')) (sparse_switches_ e')).

Definition Visit_SparseSwitch (e : BytecodeEncoder) (cases : list (Z * label)) : outcome BytecodeEncoder :=
  _ ← SLICER_CHECK (offset_ e mod 2 =? 0);
  _ ← SLICER_CHECK (bool_decide (sparse_switches_ e !! offset_ e = None));
  n ← Pack_16 (U32 (Z.of_nat (length cases)));
  let e' := pushed e ([kSparseSwitchSignature; n] ++ concat (map (fun c => push_s4 c.1) cases)
                        ++ replicate (2 * length cases) 0) in
  Ret (MkEncoder (bytecode_ e') (fixups_ e') (offset_ e') (outs_count_ e') (label_offset e')
         (packed_switches_ e') (<[offset_ e := cases]> (sparse_switches_ e'))).

Definition Visit_ArrayData (e : BytecodeEncoder) (data : list Z) : outcome BytecodeEncoder :=
  _ ← SLICER_CHECK (offset_ e mod 2 =? 0);
  Ret (pushed e data).

Definition Visit_Label (e : BytecodeEncoder) (l : label) (aligned : bool) : outcome BytecodeEncoder :=
  let e' := if aligned && (offset_ e mod 2 =? 1) then pushed e [OP_NOP] else e in
  Ret (MkEncoder (bytecode_ e') (fixups_ e') (offset_ e') (outs_count_ e')
         (<[l := offset_ e']> (label_offset e')) (packed_switches_ e') (sparse_switches_ e')).

Definition Visit (e : BytecodeEncoder) (instr : LirInstruction) : outcome BytecodeEncoder :=
  match instr with
  | Bytecode op operands => Visit_Bytecode e op operands
  | PackedSwitchPayload k ts => Visit_PackedSwitch e k ts
  | SparseSwitchPayload cs => Visit_SparseSwitch e cs
  | ArrayData data => Visit_ArrayData e data
  | Label l aligned => Visit_Label e l aligned
  | DbgInfoHeader | DbgInfoAnnotation | TryBlockBegin | TryBlockEnd => Ret e
  end.

Fixpoint Visit_all (e : BytecodeEncoder) (instrs : list LirInstruction) : outcome BytecodeEncoder :=
  match instrs with
  | [] => Ret e
  | i :: rest => e' ← Visit e i; Visit_all e' rest
  end.

(** ** Fixing up *)

(** [bytecode_.ptr<T>(offset)]: [n] units at [offset] lie in the buffer. *)
Definition ptr (code : list Z) (offset n : Z) : outcome unit :=
  SLICER_CHECK (offset + n <=? Z.of_nat (length code)).
Definition store (code : list Z) (i v : Z) : outcome (list Z) := deref (zset code i v).
(** [assert(instr[k] == 0)]. *)
Definition unit_is_0 (code : list Z) (i : Z) : outcome unit := u ← deref (code !!z i); assert_ (u =? 0).

Definition FixupLabel (labels : gmap label Z) (code : list Z) (fx : LabelFixup) : outcome (list Z) :=
  let target := offset_of labels (fix_label fx) in
  let o := fix_offset fx in
  _ ← assert_ (negb (target =? kInvalidOffset));
  _ ← assert_ (o <? target);
  let rel := U32 (target - o) in
  _ ← SLICER_CHECK (negb (rel =? 0));
  _ ← ptr code o 1;
  if short_fixup fx then
    _ ← SLICER_CHECK (rel <=? 0x7fff);
    _ ← unit_is_0 code (o + 1);
    u ← Pack_16 rel;
    store code (o + 1) u
  else
    _ ← unit_is_0 code (o + 1);
    _ ← unit_is_0 code (o + 2);
    lo ← Pack_16 (rel & 0xffff);
    hi ← Pack_16 (rel >> 16);
    code ← store code (o + 1) lo;
    store code (o + 2) hi.

Fixpoint FixupLabels (labels : gmap label Z) (fixups : list LabelFixup) (code : list Z) : outcome (list Z) :=
  match fixups with
  | [] => Ret code
  | fx :: rest => code' ← FixupLabel labels code fx; FixupLabels labels rest code'
  end.

(** The relative offsets of a switch's targets, stored from unit [at_] on.
    The loops below run to the payload's size and index the LIR node's
    vector, whose end they must not pass. *)
Fixpoint store_targets (labels : gmap label Z) (base at_ : Z) (targets : list label) (code : list Z) : outcome (list Z) :=
  match targets with
  | [] => Ret code
  | l :: rest =>
      let target := offset_of labels l in
      _ ← assert_ (negb (target =? kInvalidOffset));
      let rel := U32 (target - base) in
      code ← store code at_ (U16 rel);
      code ← store code (at_ + 1) (rel >> 16);
      store_targets labels base (at_ + 2) rest code
  end.

Definition FixupPackedSwitch (e : BytecodeEncoder) (base payload : Z) (code : list Z) : outcome (list Z) :=
  match packed_switches_ e !! payload with
  | None => Trap
  | Some targets =>
      let payload := U32 (payload * 2) / 2 in
      _ ← ptr code payload 4;
      ident ← deref (code !!z payload);
      _ ← SLICER_CHECK (ident =? kPackedSwitchSignature);
      size ← deref (code !!z (payload + 1));
      _ ← SLICER_CHECK (payload + 4 + 2 * size <=? Z.of_nat (length code));
      _ ← assert_ (bool_decide (Z.to_nat size <= length targets)%nat);
      store_targets (label_offset e) base (payload + 4) (take (Z.to_nat size) targets) code
  end.

Definition FixupSparseSwitch (e : BytecodeEncoder) (base payload : Z) (code : list Z) : outcome (list Z) :=
  match sparse_switches_ e !! payload with
  | None => Trap
  | Some cases =>
      let payload := U32 (payload * 2) / 2 in
      _ ← ptr code payload 2;
      ident ← deref (code !!z payload);
      _ ← SLICER_CHECK (ident =? kSparseSwitchSignature);
      size ← deref (code !!z (payload + 1));
      _ ← SLICER_CHECK (payload + 2 + 4 * size <=? Z.of_nat (length code));
      _ ← assert_ (bool_decide (Z.to_nat size <= length cases)%nat);
      store_targets (label_offset e) base (payload + 2 + 2 * size) (take (Z.to_nat size) (map snd cases)) code
  end.

(** The walk over the finished code, [ptr] being its position; every step
    advances, so the number of units is fuel enough. *)
Fixpoint switch_walk (fuel : nat) (e : BytecodeEncoder) (p : Z) (code : list Z) : outcome (list Z) :=
  let end_ := Z.of_nat (length code) in
  if p <? end_ then
    match fuel with
    | O => Stop
    | S fuel =>
        let here := drop (Z.to_nat p) code in
        w ← deref (here !! 0%nat);
        let opcode := OpcodeFromBytecode w in
        code ← (if opcode =? OP_PACKED_SWITCH then
                  dex_instr ← DecodeInstruction here;
                  FixupPackedSwitch e p (U32 (p + S32 (vB dex_instr))) code
                else if opcode =? OP_SPARSE_SWITCH then
                  dex_instr ← DecodeInstruction here;
                  FixupSparseSwitch e p (U32 (p + S32 (vB dex_instr))) code
                else Ret code);
        isize ← GetWidthFromBytecode (drop (Z.to_nat p) code);
        _ ← SLICER_CHECK (0 <? isize);
        switch_walk fuel e (p + isize) code
    end
  else
    _ ← SLICER_CHECK (p =? end_);
    Ret code.

Definition FixupSwitchOffsets (e : BytecodeEncoder) (code : list Z) : outcome (list Z) :=
  _ ← ptr code 0 1;
  switch_walk (length code) e 0 code.

(** ** Encode: the new instructions and outs_count of the ir::Code. *)
Definition Encode (instructions : list LirInstruction) : outcome (list Z * Z) :=
  e ← Visit_all initial instructions;
  code ← FixupLabels (label_offset e) (fixups_ e) (bytecode_ e);
  code ← FixupSwitchOffsets e code;
  _ ← ptr code 0 1;
  Ret (code, outs_count_ e).

End Lir.
