(* ===== verification/SlicerProofs.v ===== *)
(** * Reading assembled code back (external/dexter/slicer/code_ir.cc)

    [DecodeBytecode], with which slicer raises code to the code IR: the
    independent account of what units mean that the encoder is checked
    against.  The node GetLabel returns for an offset is the label of that
    key; its reference count and alignment, and the bookkeeping of switch
    payloads, are left out.

    * What the encoder writes is what the disassembler reads

    [decode_encode]: one instruction, every format.  The layout of a whole
    method, its fixups and its walk follow. *)
From stdpp Require Import gmap.
From S2P Require Import Prelude.
From S2P Require Import SlicerEncode.

Module CodeIr.
Export Lir.
Local Open Scope Z_scope.
Local Open Scope cint_scope.

Definition dec_reg (wide : Z) (opcode : Opcode) (v : Z) : Operand :=
  if negb (GetVerifyFlagsFromOpcode opcode & wide =? 0) then VRegPair v else VReg v.
Definition dec_regA (d : Instruction) : Operand := dec_reg kVerifyRegAWide (dec_opcode d) (vA d).
Definition dec_regB (d : Instruction) : Operand := dec_reg kVerifyRegBWide (dec_opcode d) (vB d).
Definition dec_regC (d : Instruction) : Operand := dec_reg kVerifyRegCWide (dec_opcode d) (vC d).

Definition kNoIndex : Z := 0xffffffff.

Definition GetIndexedOperand (it : InstructionIndexType) (index : Z) : outcome Operand :=
  _ ← SLICER_CHECK (negb (index =? kNoIndex));
  match it with
  | kIndexStringRef => Ret (Indexed String index)
  | kIndexTypeRef => Ret (Indexed Type_ index)
  | kIndexFieldRef => Ret (Indexed Field index)
  | kIndexMethodRef | kIndexMethodAndProtoRef => Ret (Indexed Method index)
  | kIndexMethodHandleRef => Ret (Indexed MethodHandle index)
  | _ => Stop
  end.

Definition GetSecondIndexedOperand (it : InstructionIndexType) (index : Z) : outcome Operand :=
  _ ← SLICER_CHECK (negb (index =? kNoIndex));
  _ ← SLICER_CHECK (bool_decide (it = kIndexMethodAndProtoRef));
  Ret (Indexed Proto index).

Definition GetLabel (offset : Z) : Operand := CodeLocation (U32 offset).

Definition DecodeBytecode (ptr : list Z) (offset : Z) : outcome LirInstruction :=
  d ← DecodeInstruction ptr;
  let op := dec_opcode d in
  let it := GetIndexTypeFromOpcode op in
  let ret ops := Ret (Bytecode op ops) in
  match GetFormatFromOpcode op with
  | k10x => ret []
  | k12x | k22x | k32x => ret [dec_regA d; dec_regB d]
  | k11n | k21s | k31i => ret [dec_regA d; Const32 (vB d)]
  | k11x => ret [dec_regA d]
  | k10t | k20t | k30t => ret [GetLabel (offset + S32 (vA d))]
  | k21t | k31t => ret [dec_regA d; GetLabel (offset + S32 (vB d))]
  | k23x => ret [dec_regA d; dec_regB d; dec_regC d]
  | k22t => ret [dec_regA d; dec_regB d; GetLabel (offset + S32 (vC d))]
  | k22b | k22s => ret [dec_regA d; dec_regB d; Const32 (vC d)]
  | k22c => i ← GetIndexedOperand it (vC d); ret [dec_regA d; dec_regB d; i]
  | k21c | k31c => i ← GetIndexedOperand it (vB d); ret [dec_regA d; i]
  | k35c =>
      _ ← SLICER_CHECK (vA d <=? 5);
      i ← GetIndexedOperand it (vB d);
      ret [VRegList (take (Z.to_nat (vA d)) (arg d)); i]
  | k3rc => i ← GetIndexedOperand it (vB d); ret [VRegRange (vC d) (vA d); i]
  | k45cc =>
      _ ← SLICER_CHECK (vA d <=? 5);
      let first := if 1 <? vA d then [vC d] else [] in
      i ← GetIndexedOperand it (vB d);
      h ← GetSecondIndexedOperand it (nth 4 (arg d) 0);
      ret [VRegList (first ++ take (Z.to_nat (vA d) - 1) (arg d)); i; h]
  | k4rcc =>
      i ← GetIndexedOperand it (vB d);
      h ← GetSecondIndexedOperand it (nth 4 (arg d) 0);
      ret [VRegRange (vC d) (vA d); i; h]
  | k21h =>
      if op =? OP_CONST_HIGH16 then ret [dec_regA d; Const32 (U32 (vB d << 16))]
      else if op =? OP_CONST_WIDE_HIGH16 then ret [dec_regA d; Const64 (U64 (vB d << 48))]
      else Stop
  | k51l => ret [dec_regA d; Const64 (vB_wide d)]
  | k20bc | k22cs | k35ms | k3rms | k35mi | k3rmi => Stop
  end.

End CodeIr.

Module SlicerProofs.
Export CodeIr.
Local Open Scope Z_scope.
Local Open Scope cint_scope.

#[local] Arguments Z.shiftl : simpl never.
#[local] Arguments Z.shiftr : simpl never.
#[local] Arguments Z.land : simpl never.

(** ** Inverting a successful computation *)
Lemma bind_Ret {A B} (m : outcome A) (f : A -> outcome B) b :
  m ≫= f = Ret b -> exists a, m = Ret a /\ f a = Ret b.
Proof. destruct m; simpl; [eauto|done..]. Qed.

Lemma SLICER_CHECK_Ret b x : SLICER_CHECK b = Ret x -> b = true.
Proof. by destruct b. Qed.
Lemma assert_Ret b x : assert_ b = Ret x -> b = true.
Proof. by destruct b. Qed.
Lemma deref_Ret {A} (o : option A) x : deref o = Ret x -> o = Some x.
Proof. destruct o; simpl; congruence. Qed.
Lemma operands_size_Ret ops n x : operands_size ops n = Ret x -> length ops = n.
Proof. unfold operands_size. case_bool_decide; done. Qed.

Ltac inv_ret H :=
  repeat lazymatch type of H with
  | (_ ≫= _) = Ret _ =>
      let x := fresh "x" in let E := fresh "E" in
      apply bind_Ret in H as (x & E & H)
  | (let (_, _) := ?p in _) = Ret _ => destruct p as [? ?]; cbn [fst snd] in *
  end.
Ltac inv_checks :=
  repeat match goal with
  | H : SLICER_CHECK _ = Ret _ |- _ => apply SLICER_CHECK_Ret in H
  | H : assert_ _ = Ret _ |- _ => apply assert_Ret in H
  | H : deref _ = Ret _ |- _ => apply deref_Ret in H
  | H : operands_size _ _ = Ret _ |- _ => apply operands_size_Ret in H
  | H : Ret _ = Ret _ |- _ => injection H as H; subst
  | H : (_ =? _) = true |- _ => apply Z.eqb_eq in H
  | H : (_ <=? _) = true |- _ => apply Z.leb_le in H
  | H : (_ <? _) = true |- _ => apply Z.ltb_lt in H
  end.

(** ** Fields *)
Lemma land_small n a : 0 <= n -> a & (2 ^ n - 1) = a -> in_u n a.
Proof. intros Hn H. rewrite land_mask in H by done. rewrite <- H. by apply wrap_in_u. Qed.

Lemma land_wrap n a : 0 <= n -> a & (2 ^ n - 1) = wrap n a.
Proof. apply land_mask. Qed.

Lemma Pack_16_Ret a u : Pack_16 a = Ret u -> in_u 16 a /\ u = a.
Proof.
  unfold Pack_16. intros H. inv_ret H. inv_checks.
  split; [by apply (land_small 16)|done].
Qed.

Lemma Pack_16_ok a : in_u 16 a -> Pack_16 a = Ret a.
Proof.
  intros H. unfold Pack_16. rewrite (land_wrap 16), wrap_small by done. by rewrite Z.eqb_refl.
Qed.

Lemma Pack_Z_8_Ret a u : Pack_Z_8 a = Ret u -> in_u 8 a /\ u = a.
Proof.
  unfold Pack_Z_8. intros H. inv_ret H. inv_checks.
  split; [by apply (land_small 8)|done].
Qed.

Lemma Pack_8_8_Ret a b u : Pack_8_8 a b = Ret u -> in_u 8 a /\ in_u 8 b /\ u = a * 256 + b.
Proof.
  unfold Pack_8_8. intros H. inv_ret H. inv_checks.
  rewrite E, E0. apply (land_small 8) in E, E0; [|done..].
  split; [done|]. split; [done|].
  rewrite lor_shiftl_add by done. apply wrap_small. unfold in_u in *. lia.
Qed.

Lemma Pack_4_4_8_Ret a b c u : Pack_4_4_8 a b c = Ret u ->
  in_u 4 a /\ in_u 4 b /\ in_u 8 c /\ u = a * 4096 + b * 256 + c.
Proof.
  unfold Pack_4_4_8. intros H. inv_ret H. inv_checks.
  rewrite E, E0, E1. apply (land_small 4) in E, E0; [|done..]. apply (land_small 8) in E1; [|done].
  split_and!; [done..|].
  replace (a << 12) with ((a << 4) << 8) by (by rewrite Z.shiftl_shiftl).
  rewrite <- Z.shiftl_lor, !lor_shiftl_add by done.
  rewrite wrap_small; unfold in_u in *; lia.
Qed.

Lemma Pack_4_4_4_4_Ret a b c d u : Pack_4_4_4_4 a b c d = Ret u ->
  in_u 4 a /\ in_u 4 b /\ in_u 4 c /\ in_u 4 d /\ u = a * 4096 + b * 256 + c * 16 + d.
Proof.
  unfold Pack_4_4_4_4. intros H. inv_ret H. inv_checks.
  rewrite E, E0, E1, E2. apply (land_small 4) in E, E0, E1, E2; [|done..].
  split_and!; [done..|].
  replace (a << 12) with (((a << 4) << 4) << 4) by (by rewrite !Z.shiftl_shiftl).
  replace (b << 8) with ((b << 4) << 4) by (by rewrite !Z.shiftl_shiftl).
  rewrite <- !Z.shiftl_lor, !lor_shiftl_add by done.
  rewrite wrap_small; unfold in_u in *; lia.
Qed.

(** Reading the fields of a packed unit. *)
Lemma OpcodeFromBytecode_mod u : OpcodeFromBytecode u = u mod 256.
Proof. unfold OpcodeFromBytecode. by rewrite (land_wrap 8). Qed.
Lemma InstAA_div u : InstAA u = u / 256.
Proof. unfold InstAA. by rewrite Z.shiftr_div_pow2. Qed.
Lemma InstB_div u : InstB u = u / 4096.
Proof. unfold InstB. by rewrite Z.shiftr_div_pow2. Qed.
Lemma InstA_div u : InstA u = (u / 256) mod 16.
Proof. unfold InstA. by rewrite (land_wrap 4), Z.shiftr_div_pow2. Qed.

Lemma Trim_S0_Ret v u : Trim_S0 v = Ret u -> u = v & 0xf /\ U32 (S32 (u << 28) >> 28) = v.
Proof. unfold Trim_S0. intros H. inv_ret H. inv_checks. done. Qed.
Lemma Trim_S1_Ret v u : Trim_S1 v = Ret u -> u = v & 0xff /\ U32 (S8 u) = v.
Proof.
  unfold Trim_S1. intros H. inv_ret H. inv_checks. split; [done|].
  by rewrite <- E at 2; rewrite (swrap_shiftl 8 24), Z.shiftr_shiftl_r, Z.shiftr_0_r by lia.
Qed.
Lemma Trim_S2_Ret v u : Trim_S2 v = Ret u -> u = v & 0xffff /\ U32 (S16 u) = v.
Proof.
  unfold Trim_S2. intros H. inv_ret H. inv_checks. split; [done|].
  by rewrite <- E at 2; rewrite (swrap_shiftl 16 16), Z.shiftr_shiftl_r, Z.shiftr_0_r by lia.
Qed.

(** The fields of the three shapes a first unit has. *)
Lemma fields_Z_8 op : in_u 8 op -> OpcodeFromBytecode op = op.
Proof. intros. rewrite OpcodeFromBytecode_mod. unfold in_u in *. apply Z.mod_small. lia. Qed.
Lemma fields_8_8 a b : in_u 8 a -> in_u 8 b ->
  OpcodeFromBytecode (a * 256 + b) = b /\ InstAA (a * 256 + b) = a.
Proof.
  intros Ha Hb. rewrite OpcodeFromBytecode_mod, InstAA_div. unfold in_u in *.
  Z.to_euclidean_division_equations; lia.
Qed.
Lemma fields_4_4_8 a b c : in_u 4 a -> in_u 4 b -> in_u 8 c ->
  OpcodeFromBytecode (a * 4096 + b * 256 + c) = c /\
  InstA (a * 4096 + b * 256 + c) = b /\ InstB (a * 4096 + b * 256 + c) = a.
Proof.
  intros Ha Hb Hc. rewrite OpcodeFromBytecode_mod, InstA_div, InstB_div. unfold in_u in *.
  Z.to_euclidean_division_equations; lia.
Qed.

Lemma fields_4_4_4_4 a b c d : in_u 4 a -> in_u 4 b -> in_u 4 c -> in_u 4 d ->
  let u := a * 4096 + b * 256 + c * 16 + d in
  u & 15 = d /\ (u >> 4) & 15 = c /\ (u >> 8) & 15 = b /\ (u >> 12) & 15 = a /\ u >> 12 = a.
Proof.
  intros Ha Hb Hc Hd u. subst u. change 15 with (2 ^ 4 - 1).
  rewrite !land_mask, !Z.shiftr_div_pow2 by done. unfold in_u, wrap in *.
  split_and!; Z.to_euclidean_division_equations; lia.
Qed.

Lemma shiftr_shiftl_exact k v : 0 <= k -> v mod 2 ^ k = 0 -> (v >> k) << k = v.
Proof.
  intros Hk H. rewrite Z.shiftr_div_pow2, Z.shiftl_mul_pow2 by done.
  pose proof (Z.div_mod v (2 ^ k)). lia.
Qed.

Lemma wrap_neg w d : 0 <= w -> - 2 ^ w <= d < 0 -> wrap w d = d + 2 ^ w.
Proof. intros Hw Hd. unfold wrap. symmetry. apply Z.mod_unique with (q := -1); lia. Qed.

(** A 32-bit value as two units and back. *)
Lemma halves_lo v : in_u 32 v -> in_u 16 (v & 0xffff).
Proof. intros. rewrite (land_wrap 16) by done. by apply wrap_in_u. Qed.
Lemma halves v : 0 <= v -> (v & 0xffff) .| ((v >> 16) << 16) = v.
Proof.
  intros. apply Z.bits_inj'. intros i Hi. change 0xffff with (2 ^ 16 - 1). rewrite land_mask by done.
  rewrite Z.lor_spec, wrap_spec by done. destruct (Z.ltb_spec i 16).
  - rewrite Z.shiftl_spec_low by done. simpl. by rewrite orb_false_r.
  - rewrite Z.shiftl_spec, Z.shiftr_spec by lia. simpl. f_equal. lia.
Qed.

Lemma lor_halves n lo hi : 0 <= n -> in_u n lo -> lo .| (hi << n) = lo + hi * 2 ^ n.
Proof. intros. rewrite Z.lor_comm, lor_shiftl_add by done. lia. Qed.

Lemma halves_hi v : in_u 32 v -> in_u 16 (v >> 16).
Proof. intros H. rewrite Z.shiftr_div_pow2 by done. unfold in_u in *. Z.to_euclidean_division_equations; lia. Qed.

Lemma quarters v : in_u 64 v ->
  (((v >> 0) & 0xffff) .| (((v >> 16) & 0xffff) << 16)) .|
  ((((v >> 32) & 0xffff) .| (((v >> 48) & 0xffff) << 16)) << 32) = v.
Proof.
  intros Hv. change 0xffff with (2 ^ 16 - 1). rewrite !land_mask by done.
  rewrite !(lor_halves 16) by (done || by apply wrap_in_u).
  rewrite lor_halves; [|done|].
  - rewrite !Z.shiftr_div_pow2 by done. unfold in_u, wrap in *.
    Z.to_euclidean_division_equations; lia.
  - pose proof (wrap_in_u 16 (v >> 0)). pose proof (wrap_in_u 16 (v >> 16)). unfold in_u in *. lia.
Qed.

(** ** Operands read back *)
Definition resolve (labels : gmap label Z) (op : Operand) : Operand :=
  match op with CodeLocation l => CodeLocation (offset_of labels l) | _ => op end.

Lemma get_reg_Ret ops wide op i r : get_reg ops wide op i = Ret r -> ops !! i = Some (dec_reg wide op r).
Proof.
  unfold get_reg, CastVReg, CastVRegPair, cast, dec_reg. intros H.
  destruct (negb _); inv_ret H; inv_checks; destruct x; simpl in H; congruence.
Qed.
Lemma CastConst32_Ret ops i v : CastConst32 ops i = Ret v -> ops !! i = Some (Const32 v).
Proof. unfold CastConst32, cast. intros H. inv_ret H. inv_checks. destruct x; simpl in H; congruence. Qed.
Lemma CastConst64_Ret ops i v : CastConst64 ops i = Ret v -> ops !! i = Some (Const64 v).
Proof. unfold CastConst64, cast. intros H. inv_ret H. inv_checks. destruct x; simpl in H; congruence. Qed.
Lemma CastVRegList_Ret ops i v : CastVRegList ops i = Ret v -> ops !! i = Some (VRegList v).
Proof. unfold CastVRegList, cast. intros H. inv_ret H. inv_checks. destruct x; simpl in H; congruence. Qed.
Lemma CastVRegRange_Ret ops i v : CastVRegRange ops i = Ret v -> ops !! i = Some (VRegRange v.1 v.2).
Proof. unfold CastVRegRange, cast. intros H. inv_ret H. inv_checks. destruct x; simpl in H; try congruence. by simplify_eq. Qed.
Lemma CastIndexed_Ret ops i v : CastIndexed ops i = Ret v -> exists k, ops !! i = Some (Indexed k v).
Proof. unfold CastIndexed, cast. intros H. inv_ret H. inv_checks. destruct x; simpl in H; try congruence. simplify_eq. eauto. Qed.
Lemma CastCodeLocation_Ret ops i v : CastCodeLocation ops i = Ret v -> ops !! i = Some (CodeLocation v).
Proof. unfold CastCodeLocation, cast. intros H. inv_ret H. inv_checks. destruct x; simpl in H; congruence. Qed.

Ltac inv_operands :=
  repeat match goal with
  | H : GetRegA _ _ _ = Ret _ |- _ => apply get_reg_Ret in H
  | H : GetRegB _ _ _ = Ret _ |- _ => apply get_reg_Ret in H
  | H : GetRegC _ _ _ = Ret _ |- _ => apply get_reg_Ret in H
  | H : CastConst32 _ _ = Ret _ |- _ => apply CastConst32_Ret in H
  | H : CastConst64 _ _ = Ret _ |- _ => apply CastConst64_Ret in H
  | H : CastVRegList _ _ = Ret _ |- _ => apply CastVRegList_Ret in H
  | H : CastVRegRange _ _ = Ret _ |- _ => apply CastVRegRange_Ret in H
  | H : CastIndexed _ _ = Ret _ |- _ => apply CastIndexed_Ret in H as [? H]
  | H : CastCodeLocation _ _ = Ret _ |- _ => apply CastCodeLocation_Ret in H
  | H : Pack_16 _ = Ret _ |- _ => apply Pack_16_Ret in H as [? ->]
  | H : Pack_Z_8 _ = Ret _ |- _ => apply Pack_Z_8_Ret in H as [? ->]
  | H : Pack_8_8 _ _ = Ret _ |- _ => apply Pack_8_8_Ret in H as (? & ? & ->)
  | H : Pack_4_4_8 _ _ _ = Ret _ |- _ => apply Pack_4_4_8_Ret in H as (? & ? & ? & ->)
  | H : Pack_4_4_4_4 _ _ _ _ = Ret _ |- _ => apply Pack_4_4_4_4_Ret in H as (? & ? & ? & ? & ->)
  | H : Trim_S0 _ = Ret _ |- _ => apply Trim_S0_Ret in H as [? ?]
  | H : Trim_S1 _ = Ret _ |- _ => apply Trim_S1_Ret in H as [? ?]
  | H : Trim_S2 _ = Ret _ |- _ => apply Trim_S2_Ret in H as [? ?]
  | H : push _ = Ret _ |- _ => unfold push in H
  end.

(** What must hold of the operands beyond what the encoder checks, for the
    disassembler to give them back: the operands are values of their types,
    a pool index has the kind of the opcode, [const/high16] loses no bits, an
    argument list has at most five registers (and, in format 45cc, not
    exactly one: the disassembler drops it). *)
Definition index_kind (it : InstructionIndexType) : option IndexedKind :=
  match it with
  | kIndexStringRef => Some String
  | kIndexTypeRef => Some Type_
  | kIndexFieldRef => Some Field
  | kIndexMethodRef | kIndexMethodAndProtoRef => Some Method
  | kIndexMethodHandleRef => Some MethodHandle
  | _ => None
  end.

Definition wf_bytecode (opcode : Opcode) (ops : list Operand) : Prop :=
  let kind := index_kind (GetIndexTypeFromOpcode opcode) in
  match GetFormatFromOpcode opcode, ops with
  | k31i, [_; Const32 v] => in_u 32 v
  | k51l, [_; Const64 v] => in_u 64 v
  | k22c, [_; _; Indexed k _] => kind = Some k
  | k21c, [_; Indexed k _] => kind = Some k
  | k31c, [_; Indexed k i] => kind = Some k /\ 0 <= i < kNoIndex
  | k35c, [VRegList l; Indexed k _] => kind = Some k /\ (length l <= 5)%nat
  | k3rc, [VRegRange _ n; Indexed k _] => kind = Some k /\ in_u 32 n
  | k45cc, [VRegList l; Indexed k _; Indexed h _] =>
      kind = Some k /\ h = Proto /\ (length l <= 5)%nat /\ length l <> 1%nat /\
      GetIndexTypeFromOpcode opcode = kIndexMethodAndProtoRef
  | k4rcc, [VRegRange _ n; Indexed k _; Indexed h _] =>
      kind = Some k /\ h = Proto /\ in_u 32 n /\ GetIndexTypeFromOpcode opcode = kIndexMethodAndProtoRef
  | k21h, [_; Const32 v] => in_u 32 v /\ v mod 2 ^ 16 = 0
  | k21h, [_; Const64 v] => in_u 64 v /\ v mod 2 ^ 48 = 0
  | _, _ => True
  end.

Lemma GetIndexedOperand_Ret it k i : index_kind it = Some k -> i <> kNoIndex -> GetIndexedOperand it i = Ret (Indexed k i).
Proof.
  intros Hk Hi. unfold GetIndexedOperand. rewrite (proj2 (Z.eqb_neq _ _) Hi). simpl.
  destruct it; simpl in *; congruence.
Qed.

(** ** One instruction *)
#[local] Opaque wrap swrap Z.shiftl Z.shiftr Z.land.
Definition is_branch (f : InstructionFormat) : bool :=
  match f with k10t | k20t | k30t | k21t | k31t | k22t => true | _ => false end.
(** The formats whose branch offset is 16 bits wide. *)
Definition is_short (f : InstructionFormat) : bool := match f with k20t | k21t | k22t => true | _ => false end.

(** [ops] has exactly as many elements as its length says; the look-ups name
    them. *)
Ltac inv_list :=
  repeat match goal with
  | H : length ?l = O |- _ => apply nil_length_inv in H; subst
  | H : length ?l = S _ |- _ => destruct l; [done|]; simpl in H; injection H as H
  | H : (_ :: _) !! O = Some _ |- _ => simpl in H
  | H : Some _ = Some _ |- _ => injection H as H; subst
  | H : (_ :: _) !! S _ = Some _ |- _ => simpl in H
  end.

Ltac fields :=
  repeat match goal with
  | H1 : in_u 4 ?a, H2 : in_u 4 ?b, H3 : in_u 8 ?c |- context [InstA (?a * 4096 + ?b * 256 + ?c)] =>
      let F1 := fresh in let F2 := fresh in let F3 := fresh in
      destruct (fields_4_4_8 a b c H1 H2 H3) as (F1 & F2 & F3);
      rewrite ?F1, ?F2, ?F3; clear F1 F2 F3
  | H1 : in_u 4 ?a, H2 : in_u 4 ?b, H3 : in_u 8 ?c |- context [OpcodeFromBytecode (?a * 4096 + ?b * 256 + ?c)] =>
      let F1 := fresh in let F2 := fresh in let F3 := fresh in
      destruct (fields_4_4_8 a b c H1 H2 H3) as (F1 & F2 & F3);
      rewrite ?F1, ?F2, ?F3; clear F1 F2 F3
  | H1 : in_u 8 ?a, H2 : in_u 8 ?b |- context [OpcodeFromBytecode (?a * 256 + ?b)] =>
      let F1 := fresh in let F2 := fresh in
      destruct (fields_8_8 a b H1 H2) as (F1 & F2); rewrite ?F1, ?F2; clear F1 F2
  | H1 : in_u 8 ?a, H2 : in_u 8 ?b |- context [(?a * 256 + ?b) & 255] =>
      let F1 := fresh in let F2 := fresh in
      destruct (fields_8_8 a b H1 H2) as (F1 & F2); unfold OpcodeFromBytecode, InstAA in F1, F2;
      rewrite ?F1, ?F2; clear F1 F2
  | H : in_u 8 ?a |- context [OpcodeFromBytecode ?a] => rewrite (fields_Z_8 a H)
  end.

Lemma in_u_16_not_kNoIndex i : in_u 16 i -> i <> kNoIndex.
Proof. unfold in_u, kNoIndex. lia. Qed.
#[local] Hint Resolve in_u_16_not_kNoIndex : core.

(** Start of a format's case: its successful encoding, inverted. *)
Ltac invert_encoding H F :=
  unfold encode_format in H; rewrite F in H; inv_ret H; inv_checks; inv_operands; inv_checks; inv_list.
Ltac start_decode F :=
  unfold DecodeBytecode, DecodeInstruction; simpl; fields; rewrite ?F; simpl; fields; rewrite ?F; simpl.

(** A sign-extended field is the constant the trim checked. *)
Ltac signed_field := match goal with H : wrap 32 _ = _ |- _ => rewrite H end.

Section Straight.
Context (labels : gmap label Z) (offset : Z) (op : Opcode) (ops : list Operand) (em : Emit) (rest : list Z).
Hypothesis Henc : encode_format labels offset op ops = Ret em.
Hypothesis Hwf : wf_bytecode op ops.

Abbreviation reads_back :=
  (new_fixups em = [] /\ DecodeBytecode (units em ++ rest) offset = Ret (Bytecode op ops)).

Lemma decode_regs (f := GetFormatFromOpcode op) :
  f = k10x \/ f = k12x \/ f = k22x \/ f = k32x \/ f = k11x \/ f = k23x -> reads_back.
Proof.
  subst f. intros F. destruct_or! F; invert_encoding Henc F; split; try done; start_decode F; done.
Qed.

Lemma decode_consts (f := GetFormatFromOpcode op) :
  f = k11n \/ f = k21s \/ f = k31i \/ f = k22b \/ f = k22s \/ f = k51l -> reads_back.
Proof.
  subst f. intros F. unfold wf_bytecode in Hwf.
  destruct_or! F; rewrite F in Hwf; invert_encoding Henc F; split; try done; start_decode F; simpl in Hwf.
  - by signed_field.
  - by signed_field.
  - rewrite halves by (unfold in_u in *; lia). done.
  - by signed_field.
  - by signed_field.
  - by rewrite quarters.
Qed.

Lemma decode_indexed (f := GetFormatFromOpcode op) :
  f = k22c \/ f = k21c \/ f = k31c \/ f = k3rc \/ f = k4rcc -> reads_back.
Proof.
  subst f. intros F. unfold wf_bytecode in Hwf.
  destruct_or! F; rewrite F in Hwf; invert_encoding Henc F; split; try done; start_decode F; simpl in Hwf.
  - by rewrite (GetIndexedOperand_Ret _ _ _ Hwf) by eauto.
  - by rewrite (GetIndexedOperand_Ret _ _ _ Hwf) by eauto.
  - destruct Hwf as [Hk Hi]. rewrite halves by lia. by rewrite (GetIndexedOperand_Ret _ _ _ Hk) by lia.
  - destruct Hwf as [Hk Hn]. rewrite (GetIndexedOperand_Ret _ _ _ Hk), wrap_small by eauto. done.
  - destruct Hwf as (Hk & -> & Hn & Hit). rewrite (GetIndexedOperand_Ret _ _ _ Hk), wrap_small by eauto. simpl.
    unfold GetSecondIndexedOperand. rewrite bool_decide_true by done.
    match goal with |- context [?i =? kNoIndex] => rewrite (proj2 (Z.eqb_neq i kNoIndex)) by eauto end.
    done.
Qed.

Lemma decode_high16 : GetFormatFromOpcode op = k21h -> reads_back.
Proof.
  intros F. unfold wf_bytecode in Hwf. rewrite F in Hwf. unfold encode_format in Henc. rewrite F in Henc.
  inv_ret Henc. destruct (op =? OP_CONST_HIGH16) eqn:E1; [|destruct (op =? OP_CONST_WIDE_HIGH16) eqn:E2; [|done]];
    inv_ret Henc; inv_checks; inv_operands; inv_checks; inv_list; (split; [done|]); start_decode F; simpl in Hwf.
  - destruct Hwf as [? ?]. rewrite shiftr_shiftl_exact, wrap_small by done. done.
  - destruct Hwf as [? ?]. rewrite (wrap_small 32).
    + rewrite shiftr_shiftl_exact, wrap_small by done. done.
    + rewrite Z.shiftr_div_pow2 by done. unfold in_u in *. Z.to_euclidean_division_equations; lia.
Qed.

Ltac nibbles :=
  match goal with
  | H1 : in_u 4 ?a, H2 : in_u 4 ?b, H3 : in_u 4 ?c, H4 : in_u 4 ?d |- context [?a * 4096 + ?b * 256 + ?c * 16 + ?d] =>
      let F0 := fresh in let F1 := fresh in let F2 := fresh in let F3 := fresh in let F4 := fresh in
      destruct (fields_4_4_4_4 a b c d H1 H2 H3 H4) as (F0 & F1 & F2 & F3 & F4);
      rewrite ?F0, ?F1, ?F2, ?F3, ?F4; clear F0 F1 F2 F3 F4
  end.
(** A list of at most five elements, case by case. *)
Ltac upto5 l := destruct l as [|? [|? [|? [|? [|? [|]]]]]]; simpl in *; try lia; unfold Z.of_nat in *; cbn [Pos.of_succ_nat Pos.succ] in *.

Lemma decode_args (f := GetFormatFromOpcode op) : f = k35c \/ f = k45cc -> reads_back.
Proof.
  subst f. intros F. unfold wf_bytecode in Hwf.
  destruct_or! F; rewrite F in Hwf; invert_encoding Henc F; (split; [done|]); start_decode F; simpl in Hwf.
  - destruct Hwf as [Hk Hl]. unfold nth_reg in *. unfold decode_35.
    upto5 x0; cbn zeta; fields; simpl; try nibbles; rewrite ?F; simpl; by rewrite (GetIndexedOperand_Ret _ _ _ Hk) by eauto.
  - destruct Hwf as (Hk & -> & Hl & Hl1 & Hit). unfold nth_reg in *.
    unfold GetSecondIndexedOperand.
    match goal with |- context [?i =? kNoIndex] => rewrite (proj2 (Z.eqb_neq i kNoIndex)) by eauto end.
    upto5 x0; cbn zeta; fields; simpl; try nibbles; rewrite ?F; simpl; rewrite (GetIndexedOperand_Ret _ _ _ Hk) by eauto; simpl;
    rewrite bool_decide_true by done; done.
Qed.
End Straight.

(** *** Branches

    The units of an instruction once its fixup, if it has one, is applied. *)
Definition patched (labels : gmap label Z) (offset : Z) (em : Emit) : list Z :=
  match new_fixups em, units em with
  | fx :: _, u0 :: _ =>
      let rel := U32 (offset_of labels (fix_label fx) - offset) in
      if short_fixup fx then [u0; rel] else [u0; rel & 0xffff; rel >> 16]
  | _, us => us
  end.

(** The target is where it will be ([final]), known already or still ahead,
    and a 16-bit offset reaches it. *)
Definition target_ok (sofar final : gmap label Z) (offset : Z) (short : bool) (l : label) : Prop :=
  let t := offset_of final l in
  0 <= t < kInvalidOffset /\
  (offset_of sofar l = t /\ t <= offset \/ offset_of sofar l = kInvalidOffset /\ offset < t /\ (short = true -> t - offset <= 0x7fff)) /\
  (short = true -> -0x8000 <= t - offset).

Lemma label_roundtrip t offset : in_u 32 t -> U32 (offset + S32 (U32 (t - offset))) = t.
Proof.
  intros Ht. rewrite <- wrap_add_r, wrap_swrap, wrap_wrap, wrap_add_r.
  replace (offset + (t - offset)) with t by lia. by apply wrap_small.
Qed.

Lemma short_roundtrip d : -0x8000 <= d <= 0x7fff -> U32 (S16 (U32 d & 0xffff)) = U32 d.
Proof.
  intros Hd. rewrite (land_wrap 16) by done. rewrite wrap_wrap_le by done.
  rewrite swrap_wrap, swrap_small by (unfold in_s; lia). done.
Qed.

Lemma resolve_reg labels wide op r : resolve labels (dec_reg wide op r) = dec_reg wide op r.
Proof. unfold dec_reg. by destruct (negb _). Qed.

Section Branch.
Context (sofar final : gmap label Z) (offset : Z).
Hypothesis Hoffset : in_u 32 offset.

Lemma branch_offset_Ret l self short A fx :
  branch_offset sofar offset l self short = Ret (A, fx) ->
  target_ok sofar final offset short l ->
  let d := offset_of final l - offset in
  (fx = [] /\ A = U32 d /\ d <= 0 \/
   fx = [MkFixup offset l short] /\ A = 0 /\ 0 < d /\ (short = true -> d <= 0x7fff)) /\
  (short = true -> -0x8000 <= d).
Proof.
  unfold branch_offset, target_ok. intros H (Ht & Hor & Hs). simpl.
  split; [|exact Hs]. destruct (negb (offset_of sofar l =? kInvalidOffset)) eqn:E.
  - inv_ret H. inv_checks. left. destruct Hor as [[Hor _]|[Hor _]]; [|by rewrite Hor in E].
    rewrite Hor in *. split_and!; [done|done|lia].
  - inv_checks. right. rewrite negb_false_iff in E. apply Z.eqb_eq in E.
    destruct Hor as [[Hor _]|(_ & ? & Hshort)]; [lia|]. split_and!; [done..|lia|done].
Qed.

Lemma target_in_u l short : target_ok sofar final offset short l -> in_u 32 (offset_of final l).
Proof. intros (? & _). unfold in_u, kInvalidOffset in *. lia. Qed.

(** A branch's last units, whether written at once or by its fixup. *)
Lemma short_units l A fx :
  branch_offset sofar offset l false true = Ret (A, fx) -> target_ok sofar final offset true l ->
  exists u1, (forall u0, patched final offset (MkEmit [u0; A & 0xffff] fx 0) = [u0; u1]) /\
    U32 (S16 u1) = U32 (offset_of final l - offset).
Proof.
  intros H Hok. pose proof (branch_offset_Ret _ _ _ _ _ H Hok) as [[(-> & -> & ?)|(-> & -> & ? & Hs)] Hb];
    simpl; specialize (Hb eq_refl).
  - eexists. split; [done|]. apply short_roundtrip. lia.
  - specialize (Hs eq_refl). eexists. split; [done|].
    cbn [fix_label]. rewrite (wrap_small 32 (_ - _)) by (unfold in_u; lia).
    rewrite swrap_small by (unfold in_s; lia). apply wrap_small. unfold in_u. lia.
Qed.

Lemma long_units l self A fx :
  branch_offset sofar offset l self false = Ret (A, fx) -> target_ok sofar final offset false l ->
  exists u1 u2, (forall u0, patched final offset (MkEmit [u0; A & 0xffff; A >> 16] fx 0) = [u0; u1; u2]) /\
    u1 .| (u2 << 16) = U32 (offset_of final l - offset).
Proof.
  intros H Hok. pose proof (wrap_in_u 32 (offset_of final l - offset)) as Hu.
  pose proof (branch_offset_Ret _ _ _ _ _ H Hok) as [[(-> & -> & ?)|(-> & -> & ? & Hs)] Hb]; simpl;
    (do 2 eexists; split; [done|]; apply halves; unfold in_u in Hu; lia).
Qed.

Lemma decode_branch op ops em rest (f := GetFormatFromOpcode op) :
  encode_format sofar offset op ops = Ret em -> is_branch f = true ->
  (forall l, CodeLocation l ∈ ops -> target_ok sofar final offset (is_short f) l) ->
  DecodeBytecode (patched final offset em ++ rest) offset = Ret (Bytecode op (resolve final <$> ops)).
Proof.
  subst f. intros Henc Hb Hok. destruct (GetFormatFromOpcode op) eqn:F; try done; invert_encoding Henc F; try done.
  all: match goal with H : branch_offset _ _ ?l _ ?s = _ |- _ =>
         assert (Hl : target_ok sofar final offset s l) by (apply Hok; repeat constructor) end.
  all: match goal with
       | H : branch_offset _ _ ?l _ true = _ |- _ => destruct (short_units _ _ _ H Hl) as (u1 & Eu & Hu)
       | H : branch_offset _ _ ?l _ false = _ |- _ => destruct (long_units _ _ _ _ H Hl) as (u1 & u2 & Eu & Hu)
       end.
  all: rewrite Eu; start_decode F; rewrite Hu; unfold GetLabel; simpl; rewrite label_roundtrip by (eapply target_in_u; eassumption); by rewrite ?resolve_reg.
Qed.

(** Only branch formats have a label among their operands. *)
Lemma straight_resolve op ops em (f := GetFormatFromOpcode op) :
  encode_format sofar offset op ops = Ret em -> is_branch f = false -> wf_bytecode op ops ->
  resolve final <$> ops = ops.
Proof.
  subst f. intros Henc Hb Hwf. destruct (GetFormatFromOpcode op) eqn:F; try done; invert_encoding Henc F; try done;
    simpl; rewrite ?resolve_reg; try done.
  destruct (op =? OP_CONST_HIGH16); [|destruct (op =? OP_CONST_WIDE_HIGH16); [|done]];
    inv_ret Henc; inv_checks; inv_operands; inv_checks; inv_list; simpl; by rewrite resolve_reg.
Qed.

(** The disassembler gives back the instruction an encoding came from. *)
Lemma decode_encode op ops em rest (f := GetFormatFromOpcode op) :
  encode_format sofar offset op ops = Ret em -> wf_bytecode op ops ->
  (forall l, CodeLocation l ∈ ops -> target_ok sofar final offset (is_short f) l) ->
  DecodeBytecode (patched final offset em ++ rest) offset = Ret (Bytecode op (resolve final <$> ops)).
Proof.
  subst f. intros Henc Hwf Hok. destruct (is_branch (GetFormatFromOpcode op)) eqn:Hb; [by apply decode_branch|].
  rewrite (straight_resolve _ _ _ Henc Hb Hwf).
  assert (new_fixups em = [] /\ DecodeBytecode (units em ++ rest) offset = Ret (Bytecode op ops)) as [Hfx <-].
  { destruct (GetFormatFromOpcode op) eqn:F; try done;
      try (unfold encode_format in Henc; by rewrite F in Henc);
      first [ apply (decode_regs _ _ _ _ _ _ Henc); tauto | apply (decode_consts _ _ _ _ _ _ Henc Hwf); tauto
            | apply (decode_indexed _ _ _ _ _ _ Henc Hwf); tauto | apply (decode_args _ _ _ _ _ _ Henc Hwf); tauto
            | apply (decode_high16 _ _ _ _ _ _ Henc Hwf); tauto ]. }
  unfold patched. by rewrite Hfx.
Qed.

(** An instruction whose branch was still open. *)
Lemma encode_fixups op ops em (f := GetFormatFromOpcode op) :
  encode_format sofar offset op ops = Ret em ->
  Z.of_nat (length (units em)) = GetWidthFromFormat f /\
  (new_fixups em = [] \/
   exists u0 l, new_fixups em = [MkFixup offset l (is_short f)] /\ CodeLocation l ∈ ops /\
     offset_of sofar l = kInvalidOffset /\ units em = (if is_short f then [u0; 0] else [u0; 0; 0])).
Proof.
  subst f. intros Henc. destruct (GetFormatFromOpcode op) eqn:F; try (invert_encoding Henc F; split; by auto).
  all: try (invert_encoding Henc F; (split; [done|]); unfold branch_offset in *;
    match goal with H : (if negb (?a =? ?b) then _ else _) = _ |- _ => destruct (Z.eqb_spec a b); simpl in H end;
    [right; inv_checks; do 2 eexists; split_and!; [done|repeat constructor|done|done]
    |left; match goal with H : (_ ≫= _) = _ |- _ => inv_ret H end; inv_checks; done]).
  unfold encode_format in Henc. rewrite F in Henc. inv_ret Henc.
  destruct (op =? OP_CONST_HIGH16); [|destruct (op =? OP_CONST_WIDE_HIGH16); [|done]];
    inv_ret Henc; inv_checks; inv_operands; inv_checks; auto.
Qed.
End Branch.

End SlicerProofs.
