(* ===== verification/SlicerLayout.v ===== *)
(** * Assembling a whole method

    The code IR the DEX writer hands to the encoder: bytecodes and unaligned
    labels, no switch and no payload.  [Encode_plain]: if the operands fit
    their fields and every branch reaches its label, Encode succeeds, and
    walking over the units it produced reads back the instructions, each at
    its offset and each branch at the offset of its label. *)
From stdpp Require Import gmap.
From S2P Require Import Prelude.
From S2P Require Import SlicerProofs.

Module SlicerLayout.
Export SlicerProofs.
Local Open Scope Z_scope.
Local Open Scope cint_scope.
#[local] Opaque wrap swrap Z.shiftl Z.shiftr Z.land.

Definition width_of (op : Opcode) : Z := GetWidthFromFormat (GetFormatFromOpcode (effective_opcode op)).
Definition size_of (i : LirInstruction) : Z := match i with Bytecode op _ => width_of op | _ => 0 end.
Definition code_size (instrs : list LirInstruction) : Z := foldr (fun i n => size_of i + n) 0 instrs.
Definition label_ids (instrs : list LirInstruction) : list label :=
  omap (fun i => match i with Label l _ => Some l | _ => None end) instrs.

(** Where the labels end up. *)
Fixpoint place (o : Z) (instrs : list LirInstruction) (m : gmap label Z) : gmap label Z :=
  match instrs with
  | [] => m
  | Label l _ :: rest => place o rest (<[l := o]> m)
  | i :: rest => place (o + size_of i) rest m
  end.

(** The method as the disassembler lists it. *)
Fixpoint listing (final : gmap label Z) (o : Z) (instrs : list LirInstruction) : list (Z * LirInstruction) :=
  match instrs with
  | [] => []
  | Bytecode op ops :: rest =>
      (o, Bytecode (effective_opcode op) (resolve final <$> ops)) :: listing final (o + width_of op) rest
  | _ :: rest => listing final o rest
  end.

(** Walking over code. *)
Fixpoint disassemble (fuel : nat) (o : Z) (code : list Z) : outcome (list (Z * LirInstruction)) :=
  match code, fuel with
  | [], _ => Ret []
  | _, O => Stop
  | _, S fuel =>
      i ← DecodeBytecode code o;
      w ← GetWidthFromBytecode code;
      rest ← disassemble fuel (o + w) (drop (Z.to_nat w) code);
      Ret ((o, i) :: rest)
  end.

Definition is_switch (op : Opcode) : bool := (op =? OP_PACKED_SWITCH) || (op =? OP_SPARSE_SWITCH).
Definition plain (i : LirInstruction) : bool :=
  match i with
  | Bytecode op _ => negb (is_switch op)
  | Label _ aligned => negb aligned
  | DbgInfoHeader | DbgInfoAnnotation | TryBlockBegin | TryBlockEnd => true
  | _ => false
  end.

(** The operands fit: what the encoder says while no label is known. *)
Definition fits (op : Opcode) (ops : list Operand) : bool :=
  match encode_format ∅ 0 op ops with Ret _ => true | _ => false end.

(** The branch at [o] has a target, not itself, which its offset reaches. *)
Definition reaches (final : gmap label Z) (o : Z) (f : InstructionFormat) (op : Operand) : bool :=
  match op with
  | CodeLocation l =>
      match final !! l with
      | Some t => negb (t =? o) && (negb (is_short f) || (-0x8000 <=? t - o) && (t - o <=? 0x7fff))
      | None => false
      end
  | _ => true
  end.

Fixpoint encodable (final : gmap label Z) (o : Z) (instrs : list LirInstruction) : Prop :=
  match instrs with
  | [] => True
  | Bytecode op ops :: rest =>
      let eff := effective_opcode op in
      fits eff ops = true /\ wf_bytecode eff ops /\
      forallb (reaches final o (GetFormatFromOpcode eff)) ops = true /\
      encodable final (o + width_of op) rest
  | _ :: rest => encodable final o rest
  end.

(** The invocation with the most arguments. *)
Definition outs_of (i : LirInstruction) : Z :=
  match i with
  | Bytecode op ops => match encode_format ∅ 0 (effective_opcode op) ops with Ret em => outs em | _ => 0 end
  | _ => 0
  end.
Definition max_outs (instrs : list LirInstruction) : Z := foldr (fun i n => Z.max (outs_of i) n) 0 instrs.

(** ** Encoding does not depend on where the labels are, but for branches. *)
Lemma width_positive f : 0 < GetWidthFromFormat f.
Proof. by destruct f. Qed.
Lemma size_nonneg i : 0 <= size_of i.
Proof. destruct i; simpl; try done. pose proof (width_positive (GetFormatFromOpcode (effective_opcode opcode))). unfold width_of. lia. Qed.
Lemma code_size_nonneg l : 0 <= code_size l.
Proof. induction l as [|i l]; simpl; [done|]. pose proof (size_nonneg i). unfold code_size in *. lia. Qed.

Lemma code_size_cons i l : code_size (i :: l) = size_of i + code_size l.
Proof. done. Qed.

Lemma encode_straight labels offset op ops :
  is_branch (GetFormatFromOpcode op) = false -> encode_format labels offset op ops = encode_format ∅ 0 op ops.
Proof. intros Hb. unfold encode_format. by destruct (GetFormatFromOpcode op). Qed.

(** [branch_offset] succeeds when the branch reaches its label. *)
Lemma branch_offset_defined sofar final offset self f l :
  reaches final offset f (CodeLocation l) = true -> in_u 32 offset ->
  target_ok sofar final offset (is_short f) l ->
  exists A fx, branch_offset sofar offset l self (is_short f) = Ret (A, fx) /\ in_u 32 A.
Proof.
  intros Hr Ho (Ht & Hor & Hs). unfold branch_offset.
  destruct (negb (offset_of sofar l =? kInvalidOffset)) eqn:E; [|by exists 0; eexists].
  destruct Hor as [[Hor Hle]|(Hor & ?)]; [|by rewrite Hor in E]. rewrite Hor in *.
  unfold reaches in Hr. unfold offset_of in Hle, Ht, Hs |- *. destruct (final !! l) as [t|]; [|done]. simpl in *.
  apply andb_prop in Hr as [Hne _]. apply negb_true_iff, Z.eqb_neq in Hne.
  assert (HA : U32 (t - offset) = t - offset + 2 ^ 32) by (apply wrap_neg; unfold in_u, kInvalidOffset in *; lia).
  exists (U32 (t - offset)), []. split; [|by apply wrap_in_u].
  rewrite (proj2 (Z.leb_le _ _) Hle). simpl.
  rewrite (proj2 (Z.eqb_neq (U32 (t - offset)) 0)) by (unfold in_u in *; lia). rewrite orb_true_r. simpl.
  destruct (is_short f); simpl; [|done].
  rewrite (proj2 (Z.eqb_eq _ _)); [done|]. specialize (Hs eq_refl).
  rewrite Z.shiftr_div_pow2, HA by done. Z.to_euclidean_division_equations; lia.
Qed.

Section Encodes.
Context (sofar final : gmap label Z) (offset : Z) (op : Opcode) (ops : list Operand) (f := GetFormatFromOpcode op).
Hypothesis Hoffset : in_u 32 offset.
Hypothesis Hreach : forallb (reaches final offset f) ops = true.
Hypothesis Htarget : forall l, CodeLocation l ∈ ops -> target_ok sofar final offset (is_short f) l.

Lemma label_operand l i : CastCodeLocation ops i = Ret l ->
  exists A fx, branch_offset sofar offset l false (is_short f) = Ret (A, fx) /\
               branch_offset sofar offset l true (is_short f) = Ret (A, fx) /\ in_u 32 A.
Proof.
  intros H%CastCodeLocation_Ret. pose proof (list_elem_of_lookup_2 _ _ _ H) as Hin.
  assert (Hr : reaches final offset f (CodeLocation l) = true).
  { rewrite List.forallb_forall in Hreach. apply Hreach. by apply list_elem_of_In. }
  destruct (branch_offset_defined sofar final offset false f l Hr Hoffset (Htarget _ Hin)) as (A & fx & HA & Hu).
  exists A, fx. split_and!; [done| |done].
  revert HA. unfold branch_offset. destruct (negb (_ =? _)); [|done].
  destruct (assert_ _); simpl; [|done..]. destruct (_ =? 0); simpl; done.
Qed.

Lemma fits_encodes : fits op ops = true ->
  exists em, encode_format sofar offset op ops = Ret em /\
    outs em = match encode_format ∅ 0 op ops with Ret em => outs em | _ => 0 end.
Proof.
  unfold fits. intros Hf. destruct (is_branch (GetFormatFromOpcode op)) eqn:Hb.
  2: { rewrite (encode_straight sofar) by done. destruct (encode_format ∅ 0 op ops); [eauto|done..]. }
  destruct (encode_format ∅ 0 op ops) as [em0| |] eqn:E0; [|done..]. clear Hf.
  assert (Houts : outs em0 = 0).
  { clear -E0 Hb. unfold encode_format in E0. destruct (GetFormatFromOpcode op); try done; inv_ret E0; by inv_checks. }
  rewrite Houts. pose proof label_operand as Hl. subst f.
  unfold encode_format in *. destruct (GetFormatFromOpcode op) eqn:F; try done; inv_ret E0.
  all: match goal with E : CastCodeLocation _ _ = Ret _ |- _ => destruct (Hl _ _ E) as (A & fx & H1 & H2 & HA) end.
  all: repeat match goal with E : ?m = Ret _ |- context [?m] => rewrite E; simpl end.
  all: cbn [is_short] in H1, H2; rewrite ?H1, ?H2; simpl; rewrite ?(Pack_16_ok (A & 0xffff)) by (by apply halves_lo); simpl;
    rewrite ?(Pack_16_ok (A >> 16)) by (by apply halves_hi); simpl; eauto.
Qed.
End Encodes.

Lemma max_outs_nonneg instrs : 0 <= max_outs instrs.
Proof. induction instrs; simpl; unfold max_outs in *; lia. Qed.

(** ** Visiting a method *)

(** [emitted sofar final o instrs ems]: the encoder at offset [o], knowing
    the labels [sofar], produces [ems] for the bytecodes of [instrs]. *)
Inductive emitted (final : gmap label Z) : gmap label Z -> Z -> list LirInstruction -> list (Z * Emit) -> Prop :=
  | emitted_nil sofar o : emitted final sofar o [] []
  | emitted_code sofar o op ops em rest ems :
      in_u 32 o ->
      is_switch op = false ->
      encode_format sofar o (effective_opcode op) ops = Ret em ->
      wf_bytecode (effective_opcode op) ops ->
      (forall l, CodeLocation l ∈ ops -> target_ok sofar final o (is_short (GetFormatFromOpcode (effective_opcode op))) l) ->
      emitted final sofar (o + width_of op) rest ems ->
      emitted final sofar o (Bytecode op ops :: rest) ((o, em) :: ems)
  | emitted_label sofar o l rest ems :
      emitted final (<[l := o]> sofar) o rest ems ->
      emitted final sofar o (Label l false :: rest) ems
  | emitted_other sofar o i rest ems :
      match i with DbgInfoHeader | DbgInfoAnnotation | TryBlockBegin | TryBlockEnd => True | _ => False end ->
      emitted final sofar o rest ems ->
      emitted final sofar o (i :: rest) ems.

Definition all_units (ems : list (Z * Emit)) : list Z := concat (map (fun p => units p.2) ems).
Definition all_fixups (ems : list (Z * Emit)) : list LabelFixup := concat (map (fun p => new_fixups p.2) ems).
Definition all_patched (final : gmap label Z) (ems : list (Z * Emit)) : list Z :=
  concat (map (fun p => patched final p.1 p.2) ems).

(** Labels not yet visited keep their place. *)
Lemma place_other l instrs o m : l ∉ label_ids instrs -> place o instrs m !! l = m !! l.
Proof.
  revert o m. induction instrs as [|i instrs IH]; intros o m Hl; [done|].
  destruct i; simpl in *; try (apply IH; set_solver).
  rewrite IH by set_solver. apply lookup_insert_ne. set_solver.
Qed.

Lemma place_later l t instrs o m :
  NoDup (label_ids instrs) -> m !! l = None -> place o instrs m !! l = Some t -> o <= t.
Proof.
  revert o m. induction instrs as [|i instrs IH]; intros o m Hnd Hm Ht; [simpl in *; congruence|].
  pose proof (size_nonneg i) as Hs.
  destruct i; simpl in *; try (eapply IH in Ht; [lia|done..]).
  inversion_clear Hnd as [|? ? Hn Hnd']. destruct (decide (l = id)) as [->|Hne].
  - rewrite place_other, lookup_insert_eq in Ht by done. injection Ht. lia.
  - eapply IH in Ht; [lia|done|]. by rewrite lookup_insert_ne.
Qed.


Lemma place_bounds l t instrs o m :
  place o instrs m !! l = Some t -> m !! l = Some t \/ o <= t <= o + code_size instrs.
Proof.
  revert o m. induction instrs as [|i instrs IH]; intros o m Ht; [by left|].
  pose proof (size_nonneg i) as Hs. pose proof (code_size_nonneg instrs) as Hc.
  destruct i; cbn [place] in Ht; apply IH in Ht as [Ht|Ht]; unfold code_size in *; simpl in *; auto; try (right; lia).
  apply lookup_insert_Some in Ht as [[-> ->]|[? ?]]; [right; lia|by left].
Qed.

(** What holds of the encoder before [instrs]: the labels it knows are
    behind it. *)
Record ready (e : BytecodeEncoder) (instrs : list LirInstruction) : Prop := {
  ready_offset : 0 <= offset_ e;
  ready_size : offset_ e + code_size instrs < kInvalidOffset;
  ready_plain : forallb plain instrs = true;
  ready_nodup : NoDup (label_ids instrs);
  ready_labels : forall l t, label_offset e !! l = Some t -> 0 <= t <= offset_ e /\ l ∉ label_ids instrs
}.

Lemma reaches_target e instrs final f l :
  ready e instrs -> final = place (offset_ e) instrs (label_offset e) ->
  (forall t, final !! l = Some t -> label_offset e !! l = None -> t <> offset_ e -> offset_ e < t) ->
  reaches final (offset_ e) f (CodeLocation l) = true ->
  target_ok (label_offset e) final (offset_ e) (is_short f) l.
Proof.
  intros [Ho Hs Hp Hn Hl] -> Hlater Hr. unfold reaches in Hr. pose proof (code_size_nonneg instrs).
  destruct (place _ _ _ !! l) as [t|] eqn:Et; [|done].
  apply andb_prop in Hr as [Hne%negb_true_iff%Z.eqb_neq Hr].
  assert (Hshort : is_short f = true -> -0x8000 <= t - offset_ e <= 0x7fff).
  { intros Hf. rewrite Hf in Hr. simpl in Hr. apply andb_prop in Hr as [?%Z.leb_le ?%Z.leb_le]. lia. }
  pose proof (place_bounds _ _ _ _ _ Et) as Hb. specialize (Hlater t eq_refl).
  unfold target_ok, offset_of. rewrite Et. simpl.
  destruct (label_offset e !! l) as [t'|] eqn:El; simpl.
  - destruct (Hl _ _ El) as [? ?]. rewrite place_other, El in Et by done. simplify_eq.
    split_and!; [lia..|left; lia|intros; by apply Hshort].
  - destruct Hb as [Hb|Hb]; [done|]. specialize (Hlater eq_refl Hne).
    split_and!; [lia..|right; split_and!; [done|lia|intros; by apply Hshort]|intros; by apply Hshort].
Qed.

Lemma ready_skip e i rest o' m' code fixups outs (e' := MkEncoder code fixups o' outs m' (packed_switches_ e) (sparse_switches_ e)) :
  ready e (i :: rest) -> o' = offset_ e + size_of i ->
  (m' = label_offset e \/ exists l a, i = Label l a /\ o' = offset_ e /\ m' = <[l := offset_ e]> (label_offset e)) ->
  ready e' rest.
Proof.
  subst e'. intros [Ho Hs Hp Hn Hl] -> Hm. pose proof (size_nonneg i). rewrite code_size_cons in Hs. simpl in *.
  apply andb_prop in Hp as [_ Hp]. split; simpl; [lia|lia|done|destruct i; try done; by inversion_clear Hn|].
  intros l t Hlt. destruct Hm as [->|(l' & a & -> & Ho' & ->)].
  - destruct (Hl _ _ Hlt) as [? Hnin]. split; [lia|].
    destruct i; simpl in *; try done. by apply not_elem_of_cons in Hnin as [].
  - simpl in *. inversion_clear Hn as [|? ? Hn1 Hn2].
    apply lookup_insert_Some in Hlt as [[<- <-]|[? Hlt]]; [split; [lia|done]|].
    destruct (Hl _ _ Hlt) as [? Hnin]. split; [lia|]. by apply not_elem_of_cons in Hnin as [].
Qed.

Lemma Visit_Bytecode_plain e op ops rest final :
  ready e (Bytecode op ops :: rest) -> final = place (offset_ e) (Bytecode op ops :: rest) (label_offset e) ->
  encodable final (offset_ e) (Bytecode op ops :: rest) ->
  exists em,
    encode_format (label_offset e) (offset_ e) (effective_opcode op) ops = Ret em /\
    outs em = outs_of (Bytecode op ops) /\
    (forall l, CodeLocation l ∈ ops ->
       target_ok (label_offset e) final (offset_ e) (is_short (GetFormatFromOpcode (effective_opcode op))) l) /\
    Visit e (Bytecode op ops) =
      Ret (MkEncoder (bytecode_ e ++ units em) (fixups_ e ++ new_fixups em) (offset_ e + width_of op)
             (Z.max (outs_count_ e) (outs em)) (label_offset e) (packed_switches_ e) (sparse_switches_ e)).
Proof.
  intros Hr Hfinal (Hfits & Hwf & Hreach & _).
  assert (Htarget : forall l, CodeLocation l ∈ ops ->
    target_ok (label_offset e) final (offset_ e) (is_short (GetFormatFromOpcode (effective_opcode op))) l).
  { intros l Hin. apply (reaches_target _ _ _ _ _ Hr Hfinal).
    - intros t Ht Hm Hne. subst final. cbn [place] in Ht. apply place_later in Ht; [|apply Hr|done].
      pose proof (width_positive (GetFormatFromOpcode (effective_opcode op))). simpl in Ht. unfold width_of in Ht. lia.
    - rewrite List.forallb_forall in Hreach. apply Hreach. by apply list_elem_of_In. }
  destruct Hr as [Ho Hs _ _ _]. rewrite code_size_cons in Hs.
  pose proof (code_size_nonneg rest). pose proof (size_nonneg (Bytecode op ops)). simpl in *.
  destruct (fits_encodes (label_offset e) final (offset_ e) (effective_opcode op) ops) as (em & Hem & Houts);
    [unfold in_u, kInvalidOffset in *; lia|done..|].
  exists em. split_and!; [done..|]. unfold Visit_Bytecode. rewrite Hem. simpl.
  destruct (encode_fixups _ _ _ _ _ Hem) as [Hlen _]. rewrite Hlen, Z.eqb_refl. simpl.
  by rewrite (wrap_small 32) by (unfold width_of, in_u, kInvalidOffset in *; lia).
Qed.

(** Nothing else a plain method holds changes the encoder. *)
Lemma Visit_Label_plain e l :
  Visit e (Label l false) =
    Ret (MkEncoder (bytecode_ e) (fixups_ e) (offset_ e) (outs_count_ e) (<[l := offset_ e]> (label_offset e))
           (packed_switches_ e) (sparse_switches_ e)).
Proof. done. Qed.

Definition visited (instrs : list LirInstruction) (e : BytecodeEncoder) (final : gmap label Z) : Prop :=
  exists e' ems, Visit_all e instrs = Ret e' /\ emitted final (label_offset e) (offset_ e) instrs ems /\
    bytecode_ e' = bytecode_ e ++ all_units ems /\ fixups_ e' = fixups_ e ++ all_fixups ems /\
    label_offset e' = final /\ outs_count_ e' = Z.max (outs_count_ e) (max_outs instrs).

Definition visits (instrs : list LirInstruction) : Prop := forall e final,
  ready e instrs -> 0 <= outs_count_ e ->
  final = place (offset_ e) instrs (label_offset e) -> encodable final (offset_ e) instrs -> visited instrs e final.

Lemma other_step i rest e final :
  visits rest ->
  match i with DbgInfoHeader | DbgInfoAnnotation | TryBlockBegin | TryBlockEnd => True | _ => False end ->
  ready e (i :: rest) -> 0 <= outs_count_ e ->
  final = place (offset_ e) (i :: rest) (label_offset e) -> encodable final (offset_ e) (i :: rest) ->
  visited (i :: rest) e final.
Proof.
  intros IH Hi Hr Ho Hf Henc.
  assert (Hr' : ready e rest).
  { destruct Hr as [H1 H2 H3 H4 H5]. rewrite code_size_cons in H2. simpl in H3. apply andb_prop in H3 as [_ H3].
    split; [done| |done|by destruct i|intros l t Hl; destruct (H5 _ _ Hl); by destruct i].
    pose proof (size_nonneg i). lia. }
  destruct (IH e final Hr' Ho) as (e' & ems & HVs & Hems & Hb & Hfx & Hl & Hout).
  { rewrite Hf. destruct i; simpl; rewrite ?Z.add_0_r; done. }
  { by destruct i. }
  exists e', ems. split_and!; try done; [by destruct i|by constructor|].
  pose proof (max_outs_nonneg rest). destruct i; simpl; try done; lia.
Qed.

Lemma Visit_all_plain instrs : visits instrs.
Proof.
  unfold visits, visited.
  induction instrs as [|i instrs IH]; intros e final Hr Houts0 Hfinal Henc.
  { exists e, []. simpl in *. rewrite !app_nil_r. split_and!; try done; [constructor|lia]. }
  destruct i; try (by destruct Hr as [_ _ Hp _ _]).
  - destruct (Visit_Bytecode_plain _ _ _ _ _ Hr Hfinal Henc) as (em & Hem & Houts & Htarget & HV).
    destruct Henc as (Hfits & Hwf & _ & Henc).
    destruct (IH _ final (ready_skip e _ _ _ _ (bytecode_ e ++ units em) (fixups_ e ++ new_fixups em)
      (Z.max (outs_count_ e) (outs em)) Hr eq_refl (or_introl eq_refl)) ltac:(simpl; lia) Hfinal Henc)
      as (e' & ems & HVs & Hems & Hb & Hf & Hl & Ho).
    simpl in *. exists e', ((offset_ e, em) :: ems). rewrite HV. simpl. rewrite HVs.
    split_and!; try done.
    + constructor; try done; destruct Hr as [? Hs Hp _ _]; rewrite code_size_cons in Hs.
      * pose proof (code_size_nonneg instrs). pose proof (size_nonneg (Bytecode opcode operands)).
        unfold in_u, kInvalidOffset in *. lia.
      * simpl in Hp. apply andb_prop in Hp as [Hp _]. by apply negb_true_iff.
    + rewrite Hb, <- app_assoc. done.
    + rewrite Hf, <- app_assoc. done.
    + rewrite Ho, Houts. simpl. lia.
  - destruct aligned; [by destruct Hr as [_ _ Hp _ _]|].
    destruct (IH _ final (ready_skip e _ instrs (offset_ e) (<[id := offset_ e]> (label_offset e)) (bytecode_ e) (fixups_ e) (outs_count_ e) Hr
      ltac:(simpl; lia) ltac:(right; eauto)) Houts0 Hfinal Henc) as (e' & ems & HVs & Hems & Hb & Hf & Hl & Ho).
    simpl in Hems. exists e', ems. split_and!; try done; [by constructor|]. rewrite Ho. simpl.
    pose proof (max_outs_nonneg instrs). lia.
  - by apply (other_step _ _ _ _ IH).
  - by apply (other_step _ _ _ _ IH).
  - by apply (other_step _ _ _ _ IH).
  - by apply (other_step _ _ _ _ IH).
Qed.

(** ** Fixing up *)
Lemma zset_app (pre : list Z) post i v l :
  zset post i v = Some l -> zset (pre ++ post) (Z.of_nat (length pre) + i) v = Some (pre ++ l).
Proof.
  intros [Hi ->]%zset_inv. rewrite zset_Some by (rewrite length_app; lia). f_equal.
  rewrite insert_app_r_alt by lia. do 2 f_equal. lia.
Qed.

Lemma zlookup_app (pre post : list Z) i : 0 <= i -> (pre ++ post) !!z (Z.of_nat (length pre) + i) = post !!z i.
Proof.
  intros Hi. unfold zlookup. rewrite !(proj2 (Z.leb_le _ _)) by lia.
  rewrite lookup_app_r by lia. f_equal. lia.
Qed.

Lemma zset_1 (a b v : Z) l : zset (a :: b :: l) 1 v = Some (a :: v :: l).
Proof. by rewrite zset_Some by (simpl; lia). Qed.
Lemma zset_2 (a b c v : Z) l : zset (a :: b :: c :: l) 2 v = Some (a :: b :: v :: l).
Proof. by rewrite zset_Some by (simpl; lia). Qed.

Lemma FixupLabel_patches sofar final o op ops em fx pre post :
  encode_format sofar o op ops = Ret em -> in_u 32 o -> fx ∈ new_fixups em ->
  (forall l, CodeLocation l ∈ ops -> target_ok sofar final o (is_short (GetFormatFromOpcode op)) l) ->
  o = Z.of_nat (length pre) ->
  new_fixups em = [fx] /\
  FixupLabel final (pre ++ units em ++ post) fx = Ret (pre ++ patched final o em ++ post).
Proof.
  intros Hem Ho Hfx Hok Hpre. destruct (encode_fixups _ _ _ _ _ Hem) as [_ [Hnil|(u0 & l & Hone & Hl & Hinv & Hu)]].
  { rewrite Hnil in Hfx. set_solver. }
  rewrite Hone in *. apply list_elem_of_singleton in Hfx as ->. split; [done|].
  destruct (Hok l Hl) as (Ht & [[Hl' _]|(_ & Hlt & Hs)] & _); [rewrite Hinv in Hl'; unfold kInvalidOffset in *; lia|].
  assert (Hrel : U32 (offset_of final l - o) = offset_of final l - o).
  { apply wrap_small. unfold in_u, kInvalidOffset in *. lia. }
  unfold FixupLabel, patched. rewrite Hone. cbn [fix_label fix_offset short_fixup].
  rewrite Hrel, (proj2 (Z.eqb_neq (offset_of final l) _)), (proj2 (Z.ltb_lt _ _) Hlt) by lia. simpl.
  rewrite (proj2 (Z.eqb_neq (_ - _) 0)) by lia. simpl.
  unfold ptr. rewrite (proj2 (Z.leb_le (o + 1) _)).
  2: { rewrite !length_app, Hu. destruct (is_short _); simpl; lia. }
  simpl. unfold store, unit_is_0. rewrite Hpre, Hu.
  destruct (is_short (GetFormatFromOpcode op)).
  - specialize (Hs eq_refl). rewrite (proj2 (Z.leb_le _ _)) by lia. simpl. rewrite zlookup_app by lia. simpl.
    rewrite Pack_16_ok by (unfold in_u; lia). simpl. by erewrite zset_app by apply zset_1.
  - rewrite !zlookup_app by lia. simpl.
    assert (Hu32 : in_u 32 (offset_of final l - Z.of_nat (length pre))) by (unfold in_u, kInvalidOffset in *; lia).
    rewrite (Pack_16_ok (_ & _)) by (by apply halves_lo). simpl. rewrite (Pack_16_ok (_ >> _)) by (by apply halves_hi). simpl.
    erewrite zset_app by apply zset_1. simpl. by erewrite zset_app by apply zset_2.
Qed.

Lemma patched_length final sofar o op ops em :
  encode_format sofar o op ops = Ret em -> length (patched final o em) = length (units em).
Proof.
  intros Hem. destruct (encode_fixups _ _ _ _ _ Hem) as [_ [Hnil|(u0 & l & Hone & Hl & Hinv & Hu)]]; unfold patched.
  - by rewrite Hnil.
  - rewrite Hone, Hu. simpl. by destruct (is_short _).
Qed.

Lemma FixupLabels_patch final sofar o instrs ems : emitted final sofar o instrs ems -> forall pre,
  o = Z.of_nat (length pre) ->
  FixupLabels final (all_fixups ems) (pre ++ all_units ems) = Ret (pre ++ all_patched final ems).
Proof.
  induction 1 as [|? o op ops em rest ems Ho Hsw Hem Hwf Hok Hems IH| |]; intros pre Hpre; try by auto.
  change (all_fixups ((o, em) :: ems)) with (new_fixups em ++ all_fixups ems).
  change (all_units ((o, em) :: ems)) with (units em ++ all_units ems).
  change (all_patched final ((o, em) :: ems)) with (patched final o em ++ all_patched final ems).
  destruct (encode_fixups _ _ _ _ _ Hem) as [Hlen _].
  pose proof (patched_length final _ _ _ _ _ Hem) as Hplen.
  assert (Hrest : FixupLabels final (all_fixups ems) (pre ++ patched final o em ++ all_units ems) =
                  Ret (pre ++ patched final o em ++ all_patched final ems)).
  { specialize (IH (pre ++ patched final o em)). rewrite <- !app_assoc in IH. apply IH.
    rewrite length_app. unfold width_of. lia. }
  destruct (new_fixups em) as [|fx fxs] eqn:Hfx; simpl.
  - unfold patched in Hrest |- *. by rewrite Hfx in Hrest |- *.
  - destruct (FixupLabel_patches _ final _ _ _ _ fx pre (all_units ems) Hem Ho) as [Hone ->]; [rewrite Hfx; set_solver|done|done|].
    rewrite Hfx in Hone. injection Hone as ->. done.
Qed.

(** ** Reading back *)

(** The first unit names the opcode and is no payload's signature. *)
Definition opcode_unit (op : Opcode) (u : Z) : Prop :=
  OpcodeFromBytecode u = op /\
  u <> kPackedSwitchSignature /\ u <> kSparseSwitchSignature /\ u <> kArrayDataSignature.

Lemma opcode_unit_low a op : in_u 8 a -> in_u 8 op -> GetFormatFromOpcode op <> k10x -> opcode_unit op (a * 256 + op).
Proof.
  intros Ha Hop Hf. destruct (fields_8_8 a op Ha Hop) as [H _]. split; [done|].
  assert (op <> 0) by (intros ->; by apply Hf).
  unfold in_u, kPackedSwitchSignature, kSparseSwitchSignature, kArrayDataSignature in *. lia.
Qed.
Lemma opcode_unit_4_4 a b op : in_u 4 a -> in_u 4 b -> in_u 8 op -> GetFormatFromOpcode op <> k10x ->
  opcode_unit op (a * 4096 + b * 256 + op).
Proof.
  intros. replace (a * 4096 + b * 256 + op) with ((a * 16 + b) * 256 + op) by lia.
  apply opcode_unit_low; try done. unfold in_u in *. lia.
Qed.
Lemma opcode_unit_byte op : in_u 8 op -> opcode_unit op op.
Proof.
  intros H. split; [by apply fields_Z_8|].
  unfold in_u, kPackedSwitchSignature, kSparseSwitchSignature, kArrayDataSignature in *. lia.
Qed.

Lemma encode_opcode_unit sofar o op ops em :
  encode_format sofar o op ops = Ret em -> exists u0 us, units em = u0 :: us /\ opcode_unit op u0.
Proof.
  intros Hem. destruct (GetFormatFromOpcode op) eqn:F;
    try (invert_encoding Hem F; try done; do 2 eexists; (split; [done|]);
         first [by apply opcode_unit_byte|apply opcode_unit_low|apply opcode_unit_4_4]; (done || by rewrite F)).
  unfold encode_format in Hem. rewrite F in Hem. inv_ret Hem.
  destruct (op =? OP_CONST_HIGH16); [|destruct (op =? OP_CONST_WIDE_HIGH16); [|done]];
    inv_ret Hem; inv_checks; inv_operands; inv_checks; do 2 eexists; (split; [done|]);
    apply opcode_unit_low; try done; by rewrite F.
Qed.

Lemma patched_head final sofar o op ops em :
  encode_format sofar o op ops = Ret em -> exists u0 us, patched final o em = u0 :: us /\ opcode_unit op u0.
Proof.
  intros Hem. destruct (encode_opcode_unit _ _ _ _ _ Hem) as (u0 & us & Hu & Hop). unfold patched. rewrite Hu.
  destruct (new_fixups em) as [|fx ?]; [eauto|]. destruct (short_fixup fx); eauto.
Qed.

Lemma width_of_unit op u us : opcode_unit op u -> GetWidthFromBytecode (u :: us) = Ret (GetWidthFromFormat (GetFormatFromOpcode op)).
Proof.
  intros (<- & H1 & H2 & H3). unfold GetWidthFromBytecode. simpl.
  by rewrite (proj2 (Z.eqb_neq _ _) H1), (proj2 (Z.eqb_neq _ _) H2), (proj2 (Z.eqb_neq _ _) H3).
Qed.

Lemma drop_width final sofar o op ops em rest :
  encode_format sofar o op ops = Ret em ->
  drop (Z.to_nat (GetWidthFromFormat (GetFormatFromOpcode op))) (patched final o em ++ rest) = rest.
Proof.
  intros Hem. apply drop_app_length'. rewrite (patched_length _ _ _ _ _ _ Hem).
  destruct (encode_fixups _ _ _ _ _ Hem) as [Hlen _]. lia.
Qed.

Lemma disassemble_patched final sofar o instrs ems : emitted final sofar o instrs ems -> forall fuel,
  (length ems <= fuel)%nat -> disassemble fuel o (all_patched final ems) = Ret (listing final o instrs).
Proof.
  induction 1 as [|sofar o op ops em rest ems Ho Hsw Hem Hwf Hok Hems IH|sofar o l rest ems Hems IH|sofar o i rest ems Hi Hems IH];
    intros fuel Hfuel.
  - by destruct fuel.
  - destruct fuel as [|fuel]; [simpl in *; lia|].
    change (all_patched final ((o, em) :: ems)) with (patched final o em ++ all_patched final ems).
    pose proof (decode_encode _ _ _ _ _ _ (all_patched final ems) Hem Hwf Hok) as Hdec.
    pose proof (drop_width final _ _ _ _ _ (all_patched final ems) Hem) as Hdrop.
    destruct (patched_head final _ _ _ _ _ Hem) as (u0 & us & Hu & Hop). rewrite Hu in *.
    cbn [disassemble app] in *. rewrite Hdec. simpl. rewrite (width_of_unit _ _ _ Hop). simpl. rewrite Hdrop.
    simpl in Hfuel. unfold width_of in *. by rewrite IH by lia.
  - by apply IH.
  - rewrite IH by done. by destruct i.
Qed.

(** Without a switch, the last pass only checks that the walk ends at the
    end of the code. *)
Lemma switch_walk_plain final sofar o instrs ems : emitted final sofar o instrs ems -> forall e pre fuel,
  o = Z.of_nat (length pre) -> (length (all_patched final ems) <= fuel)%nat ->
  switch_walk fuel e o (pre ++ all_patched final ems) = Ret (pre ++ all_patched final ems).
Proof.
  induction 1 as [|sofar o op ops em rest ems Ho Hsw Hem Hwf Hok Hems IH|sofar o l rest ems Hems IH|sofar o i rest ems Hi Hems IH];
    intros e pre fuel Hpre Hfuel; [|  |by apply IH|by apply IH].
  - unfold all_patched. simpl. rewrite app_nil_r. destruct fuel; simpl;
      rewrite (proj2 (Z.ltb_ge _ _)), Hpre, Z.eqb_refl by lia; done.
  - change (all_patched final ((o, em) :: ems)) with (patched final o em ++ all_patched final ems) in *.
    pose proof (patched_length final _ _ _ _ _ Hem) as Hplen. destruct (encode_fixups _ _ _ _ _ Hem) as [Hlen _].
    pose proof (width_positive (GetFormatFromOpcode (effective_opcode op))) as Hpos.
    destruct (patched_head final _ _ _ _ _ Hem) as (u0 & us & Hu & Hop).
    rewrite length_app in Hfuel. destruct fuel as [|fuel]; [lia|].
    cbn [switch_walk]. rewrite (proj2 (Z.ltb_lt _ _)) by (rewrite !length_app; lia).
    rewrite drop_app_length' by lia. rewrite Hu at 1. cbn [app lookup list_lookup deref mbind outcome_bind].
    pose proof Hop as [Hop1 _]. rewrite Hop1.
    assert (Hns : effective_opcode op <> OP_PACKED_SWITCH /\ effective_opcode op <> OP_SPARSE_SWITCH).
    { unfold is_switch in Hsw. apply orb_false_iff in Hsw as [?%Z.eqb_neq ?%Z.eqb_neq].
      unfold effective_opcode. destruct (op =? OP_GOTO); [done|]. done. }
    destruct Hns as [H1 H2]. rewrite (proj2 (Z.eqb_neq _ _) H1), (proj2 (Z.eqb_neq _ _) H2). cbn [mbind outcome_bind].
    rewrite drop_app_length' by lia. rewrite Hu at 1. cbn [app]. rewrite (width_of_unit _ _ _ Hop). cbn [mbind outcome_bind].
    rewrite (proj2 (Z.ltb_lt _ _)) by done. cbn [SLICER_CHECK mbind outcome_bind].
    specialize (IH e (pre ++ patched final o em) fuel). rewrite <- !app_assoc in IH.
    apply IH; [rewrite length_app; unfold width_of; lia|lia].
Qed.

Lemma all_patched_length final sofar o instrs ems : emitted final sofar o instrs ems ->
  Z.of_nat (length (all_patched final ems)) = code_size instrs.
Proof.
  induction 1 as [|sofar o op ops em rest ems Ho Hsw Hem Hwf Hok Hems IH| |sofar o i rest ems Hi Hems IH];
    rewrite ?code_size_cons; simpl; [done| |done|].
  - change (all_patched final ((o, em) :: ems)) with (patched final o em ++ all_patched final ems).
    rewrite length_app, (patched_length _ _ _ _ _ _ Hem), Nat2Z.inj_add, IH.
    destruct (encode_fixups _ _ _ _ _ Hem) as [Hlen _]. unfold width_of. lia.
  - rewrite IH. by destruct i.
Qed.

Lemma emitted_count final sofar o instrs ems : emitted final sofar o instrs ems ->
  (length ems <= length (all_patched final ems))%nat.
Proof.
  induction 1 as [|sofar o op ops em rest ems Ho Hsw Hem Hwf Hok Hems IH| |]; try done.
  change (all_patched final ((o, em) :: ems)) with (patched final o em ++ all_patched final ems).
  rewrite length_app. destruct (patched_head final _ _ _ _ _ Hem) as (u0 & us & -> & _). simpl. lia.
Qed.

(** A plain method whose operands fit and whose branches reach their labels. *)
Record assemblable (instrs : list LirInstruction) : Prop := {
  asm_size : 0 < code_size instrs < kInvalidOffset;
  asm_plain : forallb plain instrs = true;
  asm_nodup : NoDup (label_ids instrs);
  asm_encodable : encodable (place 0 instrs ∅) 0 instrs
}.

Lemma Encode_plain instrs (final := place 0 instrs ∅) :
  assemblable instrs ->
  exists code, Encode instrs = Ret (code, max_outs instrs) /\
    Z.of_nat (length code) = code_size instrs /\
    disassemble (length code) 0 code = Ret (listing final 0 instrs).
Proof.
  intros [[Hpos Hsize] Hplain Hnodup Henc].
  destruct (Visit_all_plain instrs initial final) as (e & ems & HV & Hems & Hb & Hf & Hl & Ho); [|done..|].
  { split; simpl; [done|lia|done..|]. intros l t H. by rewrite lookup_empty in H. }
  exists (all_patched final ems). pose proof (all_patched_length _ _ _ _ _ Hems) as Hlen. simpl in *.
  split_and!; [|done|apply (disassemble_patched _ _ _ _ _ Hems), (emitted_count _ _ _ _ _ Hems)].
  unfold Encode. rewrite HV. simpl. rewrite Hl, Hf, Hb.
  pose proof (FixupLabels_patch _ _ _ _ _ Hems [] eq_refl) as HF. simpl in HF. rewrite HF. simpl.
  unfold FixupSwitchOffsets, ptr. rewrite (proj2 (Z.leb_le _ _)) by lia. simpl.
  pose proof (switch_walk_plain _ _ _ _ _ Hems e [] _ eq_refl (Nat.le_refl _)) as HW. simpl in HW. rewrite HW. simpl.
  rewrite (proj2 (Z.leb_le _ _)) by lia. simpl. do 2 f_equal. rewrite Ho. simpl. pose proof (max_outs_nonneg instrs). lia.
Qed.


(** A loop: const/4 v0, 5; label 7: add-int v0, v0, v0; if-eqz v0, label 8;
    goto label 7; label 8: return-void. *)
Definition loop_method : list LirInstruction :=
  [Bytecode OP_CONST_4 [VReg 0; Const32 5]; Label 7 false;
   Bytecode OP_ADD_INT [VReg 0; VReg 0; VReg 0]; Bytecode OP_IF_EQZ [VReg 0; CodeLocation 8];
   Bytecode OP_GOTO [CodeLocation 7]; Label 8 false; Bytecode OP_RETURN_VOID []].


End SlicerLayout.
