(* ===== verification/DexWriter.v ===== *)
(** * The DEX writer (src/dex/pi_dex_writer.h, pi_dex_writer.cpp)

    Class Writer: the symbolic instructions it collects, the [Put] functions
    that append them, and the descriptor and signature helpers they use.  A
    [Put] function returns the writer and the bool of the source.  A
    std::string is the list of its bytes. *)
From stdpp Require Import gmap.
From S2P Require Import Prelude.
From S2P Require Import SlicerIsa.

Module DexWriter.
Local Open Scope Z_scope.

(** ** Text helpers *)

(** std::isspace in the C locale. *)
Definition isspace (c : Z) : bool := (c =? 32) || (9 <=? c) && (c <=? 13).

Fixpoint skip_spaces (s : list Z) : list Z :=
  match s with
  | c :: t => if isspace c then skip_spaces t else s
  | [] => []
  end.
Definition Trim (s : list Z) : list Z := rev (skip_spaces (rev (skip_spaces s))).

(** The text before the first [c] and from it on: find and two substr. *)
Fixpoint cut_at (c : Z) (s : list Z) : option (list Z * list Z) :=
  match s with
  | [] => None
  | x :: t => if x =? c then Some ([], s) else '(a, b) ← cut_at c t; Some (x :: a, b)
  end.

(** The text before and after the first "->". *)
Fixpoint cut_arrow (s : list Z) : option (list Z * list Z) :=
  match s with
  | [] => None
  | x :: t =>
      match t with
      | y :: u => if (x =? 45) && (y =? 62) then Some ([], u) else '(a, b) ← cut_arrow t; Some (x :: a, b)
      | [] => None
      end
  end.

(** The text before and after the last character in [set]: find_last_of. *)
Fixpoint cut_last (set : list Z) (s : list Z) : option (list Z * list Z) :=
  match s with
  | [] => None
  | x :: t =>
      match cut_last set t with
      | Some (a, b) => Some (x :: a, b)
      | None => if bool_decide (x ∈ set) then Some ([], t) else None
      end
  end.

(** ** Descriptors *)
Definition slashes (s : list Z) : list Z := map (fun c => if c =? 46 then 47 else c) s.

(** The names and letters of the primitive types, in the order tested. *)
Definition primitives : list (list Z * list Z) :=
  [(str "void", str "V"); (str "boolean", str "Z"); (str "byte", str "B"); (str "short", str "S");
   (str "char", str "C"); (str "int", str "I"); (str "long", str "J"); (str "float", str "F");
   (str "double", str "D")].
Definition primitive (s : list Z) : option (list Z) :=
  option_map snd (List.find (fun p => streq s p.1 || streq s p.2) primitives).

(** Recursive on the text after a '['; one unit of fuel per character is
    enough ([NormalizeType_array]). *)
Fixpoint normalize (fuel : nat) (raw : list Z) : list Z :=
  let s := Trim raw in
  match s with
  | [] => str "V"
  | c :: t =>
      match primitive s with
      | Some p => p
      | None =>
          if c =? 91 then
            match fuel with
            | O => []
            | S fuel => 91 :: normalize fuel t
            end
          else if (c =? 76) && (List.last s 0 =? 59) then slashes s
          else str "L" ++ slashes s ++ str ";"
      end
  end.
Definition NormalizeType (raw : list Z) : list Z := normalize (length raw) raw.

(** Parent, name and signature of "Lcom/foo/Bar;->method(I)V" or
    "com.foo.Bar.method(I)V". *)
Definition ParseMethodSpec (raw : list Z) : option (list Z * list Z * list Z) :=
  let s := Trim raw in
  match cut_arrow s with
  | Some (parent, rest) =>
      '(name, sig) ← cut_at 40 rest;
      Some (NormalizeType parent, name, sig)
  | None =>
      '(full_name, sig) ← cut_at 40 s;
      '(parent, name) ← cut_last [46; 47] full_name;
      Some (NormalizeType parent, name, sig)
  end.

(** Parent, name and type of "Lcom/foo/Bar;->field:I" or
    "com.foo.Bar.field:I". *)
Definition ParseFieldSpec (raw : list Z) : option (list Z * list Z * list Z) :=
  let s := Trim raw in
  '(prefix, type) ← cut_last [58] s;
  match cut_arrow prefix with
  | Some (parent, name) => Some (NormalizeType parent, name, NormalizeType type)
  | None =>
      '(parent, name) ← cut_last [46; 47] prefix;
      Some (NormalizeType parent, name, NormalizeType type)
  end.

(** ** State *)
Inductive SymbolicOperand :=
  | VReg (reg : Z)
  | VRegList (reg_list : list Z)
  | Const32 (const32 : Z)
  | StringRef (str_val : list Z)
  | TypeRef (str_val : list Z)
  | FieldRef (parent name type : list Z)
  | MethodRef (parent name sig : list Z)
  | LabelTarget (label_id : Z).

Inductive SymbolicInstruction :=
  | Bytecode (opcode : SlicerIsa.Opcode) (operands : list SymbolicOperand)
  | Label (label_id : Z)
  | Nop.

Record Writer := MkWriter {
  registers_ : Z;
  ins_ : Z;
  outs_ : Z;
  next_label_id_ : Z;
  instructions_ : list SymbolicInstruction;
  named_labels_ : gmap (list Z) Z
}.

Definition new_Writer : Writer := MkWriter 4 1 4 1 [] ∅.

Definition SetRegisters (w : Writer) (total ins outs : Z) : Writer :=
  MkWriter (Z.max total ins) ins outs (next_label_id_ w) (instructions_ w) (named_labels_ w).

Definition MakeLabel (w : Writer) : Writer * Z :=
  (MkWriter (registers_ w) (ins_ w) (outs_ w) (S32 (next_label_id_ w + 1)) (instructions_ w) (named_labels_ w),
   next_label_id_ w).

(** [instructions_.push_back(si)]. *)
Definition push_back (w : Writer) (si : SymbolicInstruction) : Writer :=
  MkWriter (registers_ w) (ins_ w) (outs_ w) (next_label_id_ w) (instructions_ w ++ [si]) (named_labels_ w).
Definition put (w : Writer) (op : SlicerIsa.Opcode) (operands : list SymbolicOperand) : Writer * bool :=
  (push_back w (Bytecode op operands), true).

(** ** Labels and branches *)
Definition PutLabel (w : Writer) (label_id : Z) : Writer * bool := (push_back w (Label label_id), true).
Definition PutGoto (w : Writer) (l : Z) := put w SlicerIsa.OP_GOTO [LabelTarget l].

Definition PutIfEqz (w : Writer) (reg l : Z) := put w SlicerIsa.OP_IF_EQZ [VReg reg; LabelTarget l].
Definition PutIfNez (w : Writer) (reg l : Z) := put w SlicerIsa.OP_IF_NEZ [VReg reg; LabelTarget l].
Definition PutIfLtz (w : Writer) (reg l : Z) := put w SlicerIsa.OP_IF_LTZ [VReg reg; LabelTarget l].
Definition PutIfGez (w : Writer) (reg l : Z) := put w SlicerIsa.OP_IF_GEZ [VReg reg; LabelTarget l].
Definition PutIfGtz (w : Writer) (reg l : Z) := put w SlicerIsa.OP_IF_GTZ [VReg reg; LabelTarget l].
Definition PutIfLez (w : Writer) (reg l : Z) := put w SlicerIsa.OP_IF_LEZ [VReg reg; LabelTarget l].

Definition PutIfEq (w : Writer) (r1 r2 l : Z) := put w SlicerIsa.OP_IF_EQ [VReg r1; VReg r2; LabelTarget l].
Definition PutIfNe (w : Writer) (r1 r2 l : Z) := put w SlicerIsa.OP_IF_NE [VReg r1; VReg r2; LabelTarget l].
Definition PutIfLt (w : Writer) (r1 r2 l : Z) := put w SlicerIsa.OP_IF_LT [VReg r1; VReg r2; LabelTarget l].
Definition PutIfGe (w : Writer) (r1 r2 l : Z) := put w SlicerIsa.OP_IF_GE [VReg r1; VReg r2; LabelTarget l].
Definition PutIfGt (w : Writer) (r1 r2 l : Z) := put w SlicerIsa.OP_IF_GT [VReg r1; VReg r2; LabelTarget l].
Definition PutIfLe (w : Writer) (r1 r2 l : Z) := put w SlicerIsa.OP_IF_LE [VReg r1; VReg r2; LabelTarget l].

(** ** Constants *)
Definition PutConst (w : Writer) (reg val : Z) : Writer * bool :=
  if (reg <=? 15) && (-8 <=? val) && (val <=? 7) then put w SlicerIsa.OP_CONST_4 [VReg reg; Const32 val]
  else if (reg <=? 255) && (-32768 <=? val) && (val <=? 32767) then put w SlicerIsa.OP_CONST_16 [VReg reg; Const32 val]
  else put w SlicerIsa.OP_CONST [VReg reg; Const32 val].
Definition PutConst4 (w : Writer) (reg val : Z) : Writer * bool :=
  if (15 <? reg) || (val <? -8) || (7 <? val) then PutConst w reg val
  else put w SlicerIsa.OP_CONST_4 [VReg reg; Const32 val].
Definition PutConst16 (w : Writer) (reg val : Z) : Writer * bool :=
  if (255 <? reg) || (val <? -32768) || (32767 <? val) then PutConst w reg val
  else put w SlicerIsa.OP_CONST_16 [VReg reg; Const32 val].
Definition PutConstString (w : Writer) (reg : Z) (s : list Z) := put w SlicerIsa.OP_CONST_STRING [VReg reg; StringRef s].
Definition PutConstClass (w : Writer) (reg : Z) (type_name : list Z) :=
  put w SlicerIsa.OP_CONST_CLASS [VReg reg; TypeRef (NormalizeType type_name)].

(** ** Moves and returns *)
Definition PutMove (w : Writer) (dst src : Z) : Writer * bool :=
  let opcode :=
    if (dst <=? 15) && (src <=? 15) then SlicerIsa.OP_MOVE
    else if (dst <=? 255) && (src <=? 65535) then SlicerIsa.OP_MOVE_FROM16
    else SlicerIsa.OP_MOVE_16 in
  put w opcode [VReg dst; VReg src].
Definition PutMoveObject (w : Writer) (dst src : Z) : Writer * bool :=
  let opcode :=
    if (dst <=? 15) && (src <=? 15) then SlicerIsa.OP_MOVE_OBJECT
    else if (dst <=? 255) && (src <=? 65535) then SlicerIsa.OP_MOVE_OBJECT_FROM16
    else SlicerIsa.OP_MOVE_OBJECT_16 in
  put w opcode [VReg dst; VReg src].
Definition PutMoveResult (w : Writer) (dst : Z) := put w SlicerIsa.OP_MOVE_RESULT [VReg dst].
Definition PutMoveResultObject (w : Writer) (dst : Z) := put w SlicerIsa.OP_MOVE_RESULT_OBJECT [VReg dst].
Definition PutReturnVoid (w : Writer) := put w SlicerIsa.OP_RETURN_VOID [].
Definition PutReturn (w : Writer) (reg : Z) := put w SlicerIsa.OP_RETURN [VReg reg].
Definition PutReturnObject (w : Writer) (reg : Z) := put w SlicerIsa.OP_RETURN_OBJECT [VReg reg].

(** ** Invocations *)
Definition PutInvokeInternal (w : Writer) (opcode : SlicerIsa.Opcode) (method_sig : list Z) (regs : list Z) : Writer * bool :=
  if bool_decide (5 < length regs)%nat then (w, false)
  else if existsb (fun r => 15 <? r) regs then (w, false)
  else
    match ParseMethodSpec method_sig with
    | None => (w, false)
    | Some (parent, name, sig) =>
        let w' := push_back w (Bytecode opcode [VRegList regs; MethodRef parent name sig]) in
        (MkWriter (registers_ w') (ins_ w') (Z.max (outs_ w') (Z.of_nat (length regs))) (next_label_id_ w')
           (instructions_ w') (named_labels_ w'), true)
    end.
Definition PutInvokeVirtual (w : Writer) := PutInvokeInternal w SlicerIsa.OP_INVOKE_VIRTUAL.
Definition PutInvokeDirect (w : Writer) := PutInvokeInternal w SlicerIsa.OP_INVOKE_DIRECT.
Definition PutInvokeStatic (w : Writer) := PutInvokeInternal w SlicerIsa.OP_INVOKE_STATIC.
Definition PutInvokeSuper (w : Writer) := PutInvokeInternal w SlicerIsa.OP_INVOKE_SUPER.
Definition PutInvokeInterface (w : Writer) := PutInvokeInternal w SlicerIsa.OP_INVOKE_INTERFACE.

(** ** Objects and fields *)
Definition PutNewInstance (w : Writer) (reg : Z) (type_name : list Z) :=
  put w SlicerIsa.OP_NEW_INSTANCE [VReg reg; TypeRef (NormalizeType type_name)].
Definition PutCheckCast (w : Writer) (reg : Z) (type_name : list Z) :=
  put w SlicerIsa.OP_CHECK_CAST [VReg reg; TypeRef (NormalizeType type_name)].
Definition PutInstanceOf (w : Writer) (dst_reg obj_reg : Z) (type_name : list Z) :=
  put w SlicerIsa.OP_INSTANCE_OF [VReg dst_reg; VReg obj_reg; TypeRef (NormalizeType type_name)].

Definition PutIFieldInternal (w : Writer) (opcode : SlicerIsa.Opcode) (val_reg obj_reg : Z) (field_spec : list Z) : Writer * bool :=
  match ParseFieldSpec field_spec with
  | None => (w, false)
  | Some (parent, name, type) => put w opcode [VReg val_reg; VReg obj_reg; FieldRef parent name type]
  end.
Definition PutIget (w : Writer) := PutIFieldInternal w SlicerIsa.OP_IGET.
Definition PutIput (w : Writer) := PutIFieldInternal w SlicerIsa.OP_IPUT.
Definition PutIgetObject (w : Writer) := PutIFieldInternal w SlicerIsa.OP_IGET_OBJECT.
Definition PutIputObject (w : Writer) := PutIFieldInternal w SlicerIsa.OP_IPUT_OBJECT.
Definition PutIgetBoolean (w : Writer) := PutIFieldInternal w SlicerIsa.OP_IGET_BOOLEAN.
Definition PutIputBoolean (w : Writer) := PutIFieldInternal w SlicerIsa.OP_IPUT_BOOLEAN.

Definition PutSFieldInternal (w : Writer) (opcode : SlicerIsa.Opcode) (val_reg : Z) (field_spec : list Z) : Writer * bool :=
  match ParseFieldSpec field_spec with
  | None => (w, false)
  | Some (parent, name, type) => put w opcode [VReg val_reg; FieldRef parent name type]
  end.
Definition PutSget (w : Writer) := PutSFieldInternal w SlicerIsa.OP_SGET.
Definition PutSput (w : Writer) := PutSFieldInternal w SlicerIsa.OP_SPUT.
Definition PutSgetObject (w : Writer) := PutSFieldInternal w SlicerIsa.OP_SGET_OBJECT.
Definition PutSputObject (w : Writer) := PutSFieldInternal w SlicerIsa.OP_SPUT_OBJECT.

Definition PutThrow (w : Writer) (reg : Z) := put w SlicerIsa.OP_THROW [VReg reg].
Definition PutNop (w : Writer) : Writer * bool := (push_back w Nop, true).
Definition PutBinaryOp (w : Writer) (op : SlicerIsa.Opcode) (dst src1 src2 : Z) := put w op [VReg dst; VReg src1; VReg src2].

Definition is_bytecode (si : SymbolicInstruction) : bool := match si with Bytecode _ _ => true | _ => false end.
Definition GetBytecodeInstructionCount (w : Writer) : nat := length (filter (fun si => is_bytecode si = true) (instructions_ w)).

End DexWriter.
