(* ===== verification/DexSmali.v ===== *)
(** * The Smali text assembler (src/dex/pi_dex_writer.cpp)

    ParseRegister, ParseLiteral, TokenizeLine and Writer::EmitSmali.  A line
    is executed in a state-and-error monad over the writer: an error carries
    the text in parentheses of the message (empty for none), and leaves the
    writer as the calls before it made it. *)
From stdpp Require Import gmap.
From S2P Require Import Prelude.
From S2P Require Import SlicerIsa.
From S2P Require Import DexWriter.

Module DexSmali.
Export DexWriter.
Local Open Scope Z_scope.

(** ** Numbers *)
Definition digit_value (c : Z) : option Z :=
  if (48 <=? c) && (c <=? 57) then Some (c - 48)
  else if (97 <=? c) && (c <=? 122) then Some (c - 87)
  else if (65 <=? c) && (c <=? 90) then Some (c - 55)
  else None.

(** The digits of base [base] at the front of [s], after [acc]. *)
Fixpoint read_digits (base : Z) (s : list Z) (acc : Z) : Z :=
  match s with
  | [] => acc
  | c :: t =>
      match digit_value c with
      | Some d => if d <? base then read_digits base t (acc * base + d) else acc
      | None => acc
      end
  end.

(** strtoll: blanks, a sign, for base 16 a "0x" that a digit follows, digits;
    what does not fit 64 bits is clamped. *)
Definition clamp64 (v : Z) : Z := Z.max (- 2 ^ 63) (Z.min v (2 ^ 63 - 1)).
Definition hex_prefix (s : list Z) : list Z :=
  match s with
  | 48 :: x :: c :: t =>
      if ((x =? 120) || (x =? 88)) && (default 16 (digit_value c) <? 16) then c :: t else s
  | _ => s
  end.
Definition strtoll (base : Z) (s : list Z) : Z :=
  let number s := read_digits base (if base =? 16 then hex_prefix s else s) 0 in
  match skip_spaces s with
  | 45 :: t => clamp64 (- number t)
  | 43 :: t => clamp64 (number t)
  | t => clamp64 (number t)
  end.
(** bionic's atoi is strtol, 64 bits wide, narrowed to int. *)
Definition atoi (s : list Z) : Z := S32 (strtoll 10 s).

(** -1 for what is not a register. *)
Definition ParseRegister (token : list Z) (totalRegs insRegs : Z) : Z :=
  match token with
  | [] => -1
  | prefix :: digits =>
      if negb ((prefix =? 118) || (prefix =? 112) || (prefix =? 86) || (prefix =? 80)) then -1
      else
        let num := atoi digits in
        if num <? 0 then -1
        else if (prefix =? 118) || (prefix =? 86) then num
        else
          let base := totalRegs - insRegs in
          let base := if base <? 0 then 0 else base in
          S32 (base + num)
  end.

Definition ParseLiteral (token : list Z) : Z :=
  let s := Trim token in
  match s with
  | [] => 0
  | _ =>
      if bool_decide (2 < length s)%nat && (streq (take 2 s) (str "0x") || streq (take 2 s) (str "0X"))
      then strtoll 16 s
      else strtoll 10 s
  end.

(** ** Tokens *)
Definition flush (cur : list Z) : list (list Z) := match cur with [] => [] | _ => [cur] end.

(** The loop of TokenizeLine from a character on: [cur] is the token being
    read; the result is the tokens still to be pushed. *)
Fixpoint tokenize (line cur : list Z) (in_quote escaped : bool) : list (list Z) :=
  match line with
  | [] => flush cur
  | c :: rest =>
      if in_quote then
        if escaped then
          let e := if c =? 110 then 10 else if c =? 114 then 13 else if c =? 116 then 9 else c in
          tokenize rest (cur ++ [e]) true false
        else if c =? 92 then tokenize rest cur true true
        else if c =? 34 then cur :: tokenize rest [] false false
        else tokenize rest (cur ++ [c]) true false
      else if c =? 35 then flush cur
      else if c =? 34 then tokenize rest cur true escaped
      else if isspace c || (c =? 44) then flush cur ++ tokenize rest [] false escaped
      else if (c =? 123) || (c =? 125) then flush cur ++ [c] :: tokenize rest [] false escaped
      else tokenize rest (cur ++ [c]) false escaped
  end.
Definition TokenizeLine (line : list Z) : list (list Z) := tokenize line [] false false.

(** ** Lines *)
Definition Line (A : Type) : Type := Writer -> Writer * (A + list Z).
#[export] Instance line_ret : MRet Line := fun A a w => (w, inl a).
#[export] Instance line_bind : MBind Line := fun A B f m w =>
  match m w with
  | (w', inl a) => f a w'
  | (w', inr e) => (w', inr e)
  end.
Definition syntax_err {A} (detail_err : list Z) : Line A := fun w => (w, inr detail_err).
(** Call a [Put] function. *)
Definition call (p : Writer -> Writer * bool) : Line bool := fun w => let '(w', ok) := p w in (w', inl ok).

(** The label id of a name, with or without its colon. *)
Definition getOrCreateNamedLabel (name : list Z) : Line Z := fun w =>
  let n := match name with 58 :: t => t | _ => name end in
  match named_labels_ w !! n with
  | Some id => (w, inl id)
  | None =>
      let '(w', id) := MakeLabel w in
      (MkWriter (registers_ w') (ins_ w') (outs_ w') (next_label_id_ w') (instructions_ w')
         (<[n := id]> (named_labels_ w')), inl id)
  end.

Section Instruction.
Variable tokens : list (list Z).
(** [tokens[i]], behind a test of [tokens.size()]. *)
Definition token (i : nat) : list Z := nth i tokens [].
Definition need (n : nat) : Line unit := if bool_decide (length tokens < n)%nat then syntax_err [] else mret ().

(** A register operand: [int r = ParseRegister(...)]; where the source tests
    [r < 0] it is [reg_checked].  Passed on, an int becomes a uint32_t. *)
Definition reg (i : nat) : Line Z := fun w => (w, inl (ParseRegister (token i) (registers_ w) (ins_ w))).
Definition nonneg (r : Z) : Line unit := if r <? 0 then syntax_err [] else mret ().
Definition label_ (i : nat) : Line Z := getOrCreateNamedLabel (token i).
Definition uint32 (r : Z) : Z := U32 r.

(** The tokens before the next "}" and those after it. *)
Fixpoint until_brace (ts : list (list Z)) : list (list Z) * list (list Z) :=
  match ts with
  | [] => ([], [])
  | t :: rest => if streq t (str "}") then ([], rest) else let '(a, b) := until_brace rest in (t :: a, b)
  end.

(** The braces of an invoke: what does not parse as a register is left out.
    With the registers, the tokens that follow. *)
Definition invoke_regs : Line (list Z * list (list Z)) := fun w =>
  match drop 1 tokens with
  | t :: rest =>
      if streq t (str "{") then
        let '(inside, after) := until_brace rest in
        let regs := filter (fun r => 0 <= r) (map (fun t => ParseRegister t (registers_ w) (ins_ w)) inside) in
        (w, inl (regs, after))
      else (w, inl ([], t :: rest))
  | [] => (w, inl ([], []))
  end.

Definition invoke_of (op : list Z) : option (Writer -> list Z -> list Z -> Writer * bool) :=
  if streq op (str "invoke-virtual") then Some PutInvokeVirtual
  else if streq op (str "invoke-direct") then Some PutInvokeDirect
  else if streq op (str "invoke-static") then Some PutInvokeStatic
  else if streq op (str "invoke-super") then Some PutInvokeSuper
  else if streq op (str "invoke-interface") then Some PutInvokeInterface
  else None.

Definition emit_invoke (op : list Z) : Line bool :=
  '(regs, after) ← invoke_regs;
  if bool_decide (5 < length regs)%nat then
    syntax_err (str "invoke register list exceeds DEX limit of 5 (got " ++ print_d (Z.of_nat (length regs)) ++ str ")")
  else
    match after with
    | [] => syntax_err (str "missing target method in invoke instruction")
    | meth :: _ =>
        match invoke_of op with
        | None => syntax_err (str "unsupported invoke opcode: " ++ op)
        | Some p =>
            ok ← call (fun w => p w meth regs);
            if (ok : bool) then mret true
            else syntax_err (str "failed to encode " ++ op ++ str " (invalid signature or registers)")
        end
    end.

(** The arithmetic mnemonics. *)
Definition binary_op (op : list Z) : option SlicerIsa.Opcode :=
  if streq op (str "add-int") then Some SlicerIsa.OP_ADD_INT
  else if streq op (str "sub-int") then Some SlicerIsa.OP_SUB_INT
  else if streq op (str "mul-int") then Some SlicerIsa.OP_MUL_INT
  else if streq op (str "div-int") then Some SlicerIsa.OP_DIV_INT
  else if streq op (str "rem-int") then Some SlicerIsa.OP_REM_INT
  else if streq op (str "and-int") then Some SlicerIsa.OP_AND_INT
  else if streq op (str "or-int") then Some SlicerIsa.OP_OR_INT
  else if streq op (str "xor-int") then Some SlicerIsa.OP_XOR_INT
  else if streq op (str "shl-int") then Some SlicerIsa.OP_SHL_INT
  else if streq op (str "shr-int") then Some SlicerIsa.OP_SHR_INT
  else if streq op (str "ushr-int") then Some SlicerIsa.OP_USHR_INT
  else None.

(** [op == "..."]. *)
Definition op_is (op : list Z) (s : String.string) : bool := streq op (str s).
#[global] Arguments op_is op s%_string.

Definition emit_instruction (op : list Z) : Line bool :=
  if op_is op "return-void" then
    call PutReturnVoid
  else if op_is op "return" then
    _ ← need 2; r ← reg 1; _ ← nonneg r;
    call (fun w => PutReturn w (uint32 r))
  else if op_is op "return-object" then
    _ ← need 2; r ← reg 1; _ ← nonneg r;
    call (fun w => PutReturnObject w (uint32 r))
  else if op_is op "const/4" || op_is op "const/16" || op_is op "const" then
    _ ← need 3; r ← reg 1;
    let val := S32 (ParseLiteral (token 2)) in
    _ ← nonneg r;
    if op_is op "const/4" then call (fun w => PutConst4 w (uint32 r) val)
    else if op_is op "const/16" then call (fun w => PutConst16 w (uint32 r) val)
    else call (fun w => PutConst w (uint32 r) val)
  else if op_is op "const-string" then
    _ ← need 3; r ← reg 1; _ ← nonneg r;
    call (fun w => PutConstString w (uint32 r) (token 2))
  else if op_is op "const-class" then
    _ ← need 3; r ← reg 1; _ ← nonneg r;
    call (fun w => PutConstClass w (uint32 r) (token 2))
  else if op_is op "move" then
    _ ← need 3; d ← reg 1; s ← reg 2; _ ← nonneg d; _ ← nonneg s;
    call (fun w => PutMove w (uint32 d) (uint32 s))
  else if op_is op "move-object" then
    _ ← need 3; d ← reg 1; s ← reg 2; _ ← nonneg d; _ ← nonneg s;
    call (fun w => PutMoveObject w (uint32 d) (uint32 s))
  else if op_is op "move-result" then
    _ ← need 2; r ← reg 1; _ ← nonneg r;
    call (fun w => PutMoveResult w (uint32 r))
  else if op_is op "move-result-object" then
    _ ← need 2; r ← reg 1; _ ← nonneg r;
    call (fun w => PutMoveResultObject w (uint32 r))
  else if op_is op "goto" then
    _ ← need 2; l ← label_ 1;
    call (fun w => PutGoto w l)
  else if op_is op "if-eqz" then
    _ ← need 3; r ← reg 1; l ← label_ 2;
    call (fun w => PutIfEqz w (uint32 r) l)
  else if op_is op "if-nez" then
    _ ← need 3; r ← reg 1; l ← label_ 2;
    call (fun w => PutIfNez w (uint32 r) l)
  else if op_is op "if-eq" then
    _ ← need 4; r1 ← reg 1; r2 ← reg 2; l ← label_ 3;
    call (fun w => PutIfEq w (uint32 r1) (uint32 r2) l)
  else if op_is op "if-ne" then
    _ ← need 4; r1 ← reg 1; r2 ← reg 2; l ← label_ 3;
    call (fun w => PutIfNe w (uint32 r1) (uint32 r2) l)
  else if op_is op "if-ltz" then
    _ ← need 3; r ← reg 1; l ← label_ 2;
    call (fun w => PutIfLtz w (uint32 r) l)
  else if op_is op "if-gez" then
    _ ← need 3; r ← reg 1; l ← label_ 2;
    call (fun w => PutIfGez w (uint32 r) l)
  else if op_is op "if-gtz" then
    _ ← need 3; r ← reg 1; l ← label_ 2;
    call (fun w => PutIfGtz w (uint32 r) l)
  else if op_is op "if-lez" then
    _ ← need 3; r ← reg 1; l ← label_ 2;
    call (fun w => PutIfLez w (uint32 r) l)
  else if op_is op "if-lt" then
    _ ← need 4; r1 ← reg 1; r2 ← reg 2; l ← label_ 3;
    call (fun w => PutIfLt w (uint32 r1) (uint32 r2) l)
  else if op_is op "if-ge" then
    _ ← need 4; r1 ← reg 1; r2 ← reg 2; l ← label_ 3;
    call (fun w => PutIfGe w (uint32 r1) (uint32 r2) l)
  else if op_is op "if-gt" then
    _ ← need 4; r1 ← reg 1; r2 ← reg 2; l ← label_ 3;
    call (fun w => PutIfGt w (uint32 r1) (uint32 r2) l)
  else if op_is op "if-le" then
    _ ← need 4; r1 ← reg 1; r2 ← reg 2; l ← label_ 3;
    call (fun w => PutIfLe w (uint32 r1) (uint32 r2) l)
  else if starts_with (str "invoke-") op then
    emit_invoke op
  else if op_is op "new-instance" then
    _ ← need 3; r ← reg 1;
    call (fun w => PutNewInstance w (uint32 r) (token 2))
  else if op_is op "check-cast" then
    _ ← need 3; r ← reg 1;
    call (fun w => PutCheckCast w (uint32 r) (token 2))
  else if op_is op "instance-of" then
    _ ← need 4; v ← reg 1; o ← reg 2;
    call (fun w => PutInstanceOf w (uint32 v) (uint32 o) (token 3))
  else if op_is op "iget" then
    _ ← need 4; v ← reg 1; o ← reg 2;
    call (fun w => PutIget w (uint32 v) (uint32 o) (token 3))
  else if op_is op "iput" then
    _ ← need 4; v ← reg 1; o ← reg 2;
    call (fun w => PutIput w (uint32 v) (uint32 o) (token 3))
  else if op_is op "iget-object" then
    _ ← need 4; v ← reg 1; o ← reg 2;
    call (fun w => PutIgetObject w (uint32 v) (uint32 o) (token 3))
  else if op_is op "iput-object" then
    _ ← need 4; v ← reg 1; o ← reg 2;
    call (fun w => PutIputObject w (uint32 v) (uint32 o) (token 3))
  else if op_is op "iget-boolean" then
    _ ← need 4; v ← reg 1; o ← reg 2;
    call (fun w => PutIgetBoolean w (uint32 v) (uint32 o) (token 3))
  else if op_is op "iput-boolean" then
    _ ← need 4; v ← reg 1; o ← reg 2;
    call (fun w => PutIputBoolean w (uint32 v) (uint32 o) (token 3))
  else if op_is op "sget" then
    _ ← need 3; v ← reg 1;
    call (fun w => PutSget w (uint32 v) (token 2))
  else if op_is op "sput" then
    _ ← need 3; v ← reg 1;
    call (fun w => PutSput w (uint32 v) (token 2))
  else if op_is op "sget-object" then
    _ ← need 3; v ← reg 1;
    call (fun w => PutSgetObject w (uint32 v) (token 2))
  else if op_is op "sput-object" then
    _ ← need 3; v ← reg 1;
    call (fun w => PutSputObject w (uint32 v) (token 2))
  else if op_is op "throw" then
    _ ← need 2; r ← reg 1;
    call (fun w => PutThrow w (uint32 r))
  else if op_is op "nop" then
    call PutNop
  else
    match binary_op op with
    | Some binOp =>
        _ ← need 4; d ← reg 1; s1 ← reg 2; s2 ← reg 3; _ ← nonneg d; _ ← nonneg s1; _ ← nonneg s2;
        call (fun w => PutBinaryOp w binOp (uint32 d) (uint32 s1) (uint32 s2))
    | None => syntax_err (str "unrecognized or unsupported opcode '" ++ op ++ str "'")
    end.
End Instruction.

(** A line that has tokens, [op] being the first. *)
Definition emit_line (tokens : list (list Z)) (op : list Z) : Line unit :=
  if streq op (str ".registers") then
    if bool_decide (1 < length tokens)%nat then
      fun w => (SetRegisters w (U16 (ParseLiteral (token tokens 1))) (ins_ w) (outs_ w), inl ())
    else mret ()
  else if streq op (str ".locals") then
    if bool_decide (1 < length tokens)%nat then
      fun w => (SetRegisters w (U16 (U16 (ParseLiteral (token tokens 1)) + ins_ w)) (ins_ w) (outs_ w), inl ())
    else mret ()
  else if List.hd 0 op =? 58 then
    lbl ← getOrCreateNamedLabel op;
    _ ← call (fun w => PutLabel w lbl);
    mret ()
  else
    ok ← emit_instruction tokens op;
    if (ok : bool) then mret ()
    else syntax_err (str "failed to encode opcode '" ++ op ++ str "' (check operands and register range)").

(** std::getline until it fails: a last line without a newline counts. *)
Fixpoint getlines (s cur : list Z) : list (list Z) :=
  match s with
  | [] => flush cur
  | c :: t => if c =? 10 then cur :: getlines t [] else getlines t (cur ++ [c])
  end.

(** The message of a failed line. *)
Definition syntax_message (line_no : Z) (raw_line detail_err : list Z) : list Z :=
  str "Smali syntax error at line " ++ print_d line_no ++ str ": " ++ raw_line ++
  (match detail_err with [] => [] | _ => str " (" ++ detail_err ++ str ")" end).

Fixpoint emit_lines (lines : list (list Z)) (line_no : Z) (w : Writer) : Writer * option (list Z) :=
  match lines with
  | [] => (w, None)
  | raw_line :: rest =>
      let tokens := TokenizeLine raw_line in
      match tokens with
      | [] => emit_lines rest (line_no + 1) w
      | op :: _ =>
          match emit_line tokens op w with
          | (w', inl _) => emit_lines rest (line_no + 1) w'
          | (w', inr detail_err) => (w', Some (syntax_message line_no raw_line detail_err))
          end
      end
  end.

(** EmitSmali: [None] is true, [Some] the message with which it returns
    false. *)
Definition EmitSmali (w : Writer) (smali_code : list Z) : Writer * option (list Z) :=
  emit_lines (getlines smali_code []) 1 w.

End DexSmali.
