(* ===== verification/DexAsm.v ===== *)
(** * Writer::AssembleInto (src/dex/pi_dex_writer.cpp)

    The checks before assembling and the bridge to slicer's encoder.  The
    functions of IrContext, which intern strings, types, fields and methods
    in the file being built, are those of an interface [IrContext] over a
    state; the one pi_dex_gen.cpp passes is in DexGen.v.  lir::CodeIr is
    created on a method that has no code yet, so its instruction list starts
    empty, and without debug information or try blocks CodeIr::Assemble is
    [Encode]. *)
From stdpp Require Import gmap.
From S2P Require Import Prelude.
From S2P Require Import SlicerIsa.
From S2P Require Import SlicerEncode.
From S2P Require Import DexWriter.

Module DexAsm.
Export DexWriter.
Local Open Scope Z_scope.

(** ** The interning context: each gives the index of the node in its pool
    ([orig_index]). *)
Record IrContext (S : Type) := MkContext {
  get_str : list Z -> S -> SlicerIsa.outcome (Z * S);
  get_type : list Z -> S -> SlicerIsa.outcome (Z * S);
  get_field : list Z -> list Z -> list Z -> S -> SlicerIsa.outcome (Z * S);
  get_method : list Z -> list Z -> list Z -> S -> SlicerIsa.outcome (Z * S)
}.
#[global] Arguments get_str {S}.
#[global] Arguments get_type {S}.
#[global] Arguments get_field {S}.
#[global] Arguments get_method {S}.

(** ** Results

    [SlicerError] is the false of RunGuarded, with slicer's message;
    [Crash] is the end of the process. *)
Inductive result :=
  | Assembled (instructions : list Z) (outs_count : Z)
  | Error (message : list Z)
  | SlicerError
  | Crash.

(** ** Terminal instruction *)
Definition last_op (w : Writer) : SlicerIsa.Opcode :=
  match List.find is_bytecode (rev (instructions_ w)) with
  | Some (Bytecode op _) => op
  | _ => SlicerIsa.OP_NOP
  end.
Definition terminal (op : SlicerIsa.Opcode) : bool :=
  existsb (Z.eqb op)
    [SlicerIsa.OP_RETURN_VOID; SlicerIsa.OP_RETURN; SlicerIsa.OP_RETURN_WIDE; SlicerIsa.OP_RETURN_OBJECT;
     SlicerIsa.OP_THROW; SlicerIsa.OP_GOTO; SlicerIsa.OP_GOTO_16; SlicerIsa.OP_GOTO_32].

(** ** Register bounds *)
Definition eff_format (op : SlicerIsa.Opcode) : SlicerIsa.InstructionFormat :=
  SlicerIsa.GetFormatFromOpcode (if op =? SlicerIsa.OP_GOTO then SlicerIsa.OP_GOTO_16 else op).

Definition exceeds_count (r registers : Z) : list Z :=
  str "register v" ++ print_d r ++ str " exceeds declared register count (" ++ print_d registers ++ str ")".

Definition check_reg (registers : Z) (fmt : SlicerIsa.InstructionFormat) (r : Z) : option (list Z) :=
  if registers <=? r then Some (exceeds_count r registers)
  else
    match fmt with
    | SlicerIsa.k12x | SlicerIsa.k22c | SlicerIsa.k22t =>
        if 15 <? r then Some (str "register v" ++ print_d r ++ str " exceeds 4-bit limit (0..15)") else None
    | SlicerIsa.k21c | SlicerIsa.k21t | SlicerIsa.k23x | SlicerIsa.k11x | SlicerIsa.k22b =>
        if 255 <? r then Some (str "register v" ++ print_d r ++ str " exceeds 8-bit limit (0..255)") else None
    | _ => None
    end.

Fixpoint check_reg_list (registers : Z) (rs : list Z) : option (list Z) :=
  match rs with
  | [] => None
  | r :: rest =>
      if registers <=? r then Some (exceeds_count r registers)
      else if 15 <? r then Some (str "invoke register v" ++ print_d r ++ str " exceeds 4-bit limit (0..15)")
      else check_reg_list registers rest
  end.

Definition check_operand (registers : Z) (fmt : SlicerIsa.InstructionFormat) (op : SymbolicOperand) : option (list Z) :=
  match op with
  | VReg r => check_reg registers fmt r
  | VRegList rs =>
      if bool_decide (5 < length rs)%nat then
        Some (str "invoke instruction register list exceeds 5 registers (format 35c limit)")
      else check_reg_list registers rs
  | _ => None
  end.

(** The first failure of a list of checks. *)
Fixpoint first_error {A} (check : A -> option (list Z)) (l : list A) : option (list Z) :=
  match l with
  | [] => None
  | x :: rest => match check x with Some e => Some e | None => first_error check rest end
  end.

Definition check_registers (w : Writer) : option (list Z) :=
  first_error (fun si =>
    match si with
    | Bytecode op operands => first_error (check_operand (registers_ w) (eff_format op)) operands
    | _ => None
    end) (instructions_ w).

(** ** Branch offsets *)
Record BranchCheck := MkBranch {
  branch_at : Z;
  target_label_id : Z;
  branch_opcode : SlicerIsa.Opcode
}.

Definition label_targets (operands : list SymbolicOperand) : list Z :=
  omap (fun op => match op with LabelTarget l => Some l | _ => None end) operands.

(** The offsets of labels and branches; a label put twice keeps the last. *)
Fixpoint simulate (instrs : list SymbolicInstruction) (sim_offset : Z) (labels : gmap Z Z) : gmap Z Z * list BranchCheck :=
  match instrs with
  | [] => (labels, [])
  | Label l :: rest => simulate rest sim_offset (<[l := sim_offset]> labels)
  | Nop :: rest => simulate rest (U32 (sim_offset + 1)) labels
  | Bytecode op operands :: rest =>
      let eff_op := if op =? SlicerIsa.OP_GOTO then SlicerIsa.OP_GOTO_16 else op in
      let width := SlicerIsa.GetWidthFromFormat (SlicerIsa.GetFormatFromOpcode eff_op) in
      let '(labels', checks) := simulate rest (U32 (sim_offset + width)) labels in
      (labels', map (fun l => MkBranch sim_offset l eff_op) (label_targets operands) ++ checks)
  end.

Definition check_branch (labels : gmap Z Z) (bc : BranchCheck) : option (list Z) :=
  match labels !! target_label_id bc with
  | None => Some (str "unresolved label reference in bytecode")
  | Some target_offset =>
      if target_offset =? branch_at bc then Some (str "branch instruction has offset 0 (branches to itself)")
      else
        let rel_offset := S32 (S32 target_offset - S32 (branch_at bc)) in
        match SlicerIsa.GetFormatFromOpcode (branch_opcode bc) with
        | SlicerIsa.k20t | SlicerIsa.k21t | SlicerIsa.k22t =>
            if (rel_offset <? -32768) || (32767 <? rel_offset)
            then Some (str "16-bit branch offset out of range: " ++ print_d rel_offset) else None
        | _ => None
        end
  end.

Definition check_branches (w : Writer) : option (list Z) :=
  let '(labels, checks) := simulate (instructions_ w) 0 ∅ in
  first_error (check_branch labels) checks.

(** All that is checked before slicer is called. *)
Definition validate (w : Writer) : option (list Z) :=
  if bool_decide (GetBytecodeInstructionCount w = 0%nat) then Some (str "empty bytecode writer (no instructions emitted)")
  else if negb (terminal (last_op w)) then Some (str "bytecode method must end with a return, throw, or goto instruction")
  else
    match check_registers w with
    | Some e => Some e
    | None => check_branches w
    end.

(** ** Emitting the code IR

    The node of a label is keyed by its id.  Only the first of several puts
    of a label is emitted; [nodes] are the ids that have a node. *)
Section Emit.
Context {S : Type} (ctx : IrContext S) (nodes : list Z).

Definition emit_operand (op : SymbolicOperand) (s : S) : SlicerIsa.outcome (Lir.Operand * S) :=
  match op with
  | VReg r => SlicerIsa.Ret (Lir.VReg r, s)
  | VRegList rs => SlicerIsa.Ret (Lir.VRegList rs, s)
  | Const32 c => SlicerIsa.Ret (Lir.Const32 (U32 c), s)
  | StringRef v => '(i, s) ← get_str ctx v s; SlicerIsa.Ret (Lir.Indexed Lir.String i, s)
  | TypeRef v => '(i, s) ← get_type ctx v s; SlicerIsa.Ret (Lir.Indexed Lir.Type_ i, s)
  | FieldRef p n t => '(i, s) ← get_field ctx p n t s; SlicerIsa.Ret (Lir.Indexed Lir.Field i, s)
  | MethodRef p n g => '(i, s) ← get_method ctx p n g s; SlicerIsa.Ret (Lir.Indexed Lir.Method i, s)
  | LabelTarget l => if bool_decide (l ∈ nodes) then SlicerIsa.Ret (Lir.CodeLocation l, s) else SlicerIsa.Stop
  end.

Fixpoint emit_operands (ops : list SymbolicOperand) (s : S) : SlicerIsa.outcome (list Lir.Operand * S) :=
  match ops with
  | [] => SlicerIsa.Ret ([], s)
  | op :: rest =>
      '(o, s) ← emit_operand op s;
      '(os, s) ← emit_operands rest s;
      SlicerIsa.Ret (o :: os, s)
  end.

Fixpoint emit_code (instrs : list SymbolicInstruction) (emitted : list Z) (s : S) :
    SlicerIsa.outcome (list Lir.LirInstruction * S) :=
  match instrs with
  | [] => SlicerIsa.Ret ([], s)
  | Label l :: rest =>
      if bool_decide (l ∈ emitted) then emit_code rest emitted s
      else
        '(is_, s) ← emit_code rest (l :: emitted) s;
        SlicerIsa.Ret (Lir.Label l false :: is_, s)
  | Nop :: rest =>
      '(is_, s) ← emit_code rest emitted s;
      SlicerIsa.Ret (Lir.Bytecode SlicerIsa.OP_NOP [] :: is_, s)
  | Bytecode op operands :: rest =>
      '(os, s) ← emit_operands operands s;
      '(is_, s) ← emit_code rest emitted s;
      SlicerIsa.Ret (Lir.Bytecode op os :: is_, s)
  end.
End Emit.

Definition label_nodes (w : Writer) : list Z :=
  omap (fun si => match si with Label l => Some l | _ => None end) (instructions_ w).

(** ** AssembleInto

    [ctx] and the two pointers may be null; of [encoded_method] and
    [ir_code] the model needs no more.  With the result, the state of the
    context. *)
Definition AssembleInto {S} (w : Writer) (ctx : option (IrContext S)) (encoded_method ir_code : option unit) (s : S) :
    result * option S :=
  match ctx, encoded_method, ir_code with
  | Some ctx, Some _, Some _ =>
      match validate w with
      | Some message => (Error message, Some s)
      | None =>
          match emit_code ctx (label_nodes w) (instructions_ w) [] s with
          | SlicerIsa.Ret (instrs, s) =>
              match Lir.Encode instrs with
              | SlicerIsa.Ret (code, outs) => (Assembled code outs, Some s)
              | SlicerIsa.Trap => (SlicerError, Some s)
              | SlicerIsa.Stop => (Crash, None)
              end
          | _ => (Crash, None)
          end
      end
  | _, _, _ => (Error (str "invalid DexWriter assembly context"), Some s)
  end.

End DexAsm.
