(* ===== verification/DexAsmProofs.v ===== *)
(** * What AssembleInto assembles

    [shaped]: the instructions the [Put] functions append.  [assembled_as]:
    what code means the writer's instructions.  [AssembleInto_refines]: when
    the checks pass, the code slicer produces does. *)
From stdpp Require Import gmap.
From S2P Require Import Prelude.
From S2P Require Import SlicerIsa.
From S2P Require Import SlicerEncode.
From S2P Require Import SlicerProofs.
From S2P Require Import SlicerLayout.
From S2P Require Import DexWriter.
From S2P Require Import DexAsm.

Module DexAsmProofs.
Export DexAsm.
Local Open Scope Z_scope.
Local Open Scope cint_scope.

(** ** Packing what fits *)
Section Packing.
Import SlicerLayout.

Lemma land_id n m a : 0 <= n -> m = 2 ^ n - 1 -> in_u n a -> (a & m =? a) = true.
Proof. intros ? -> ?. rewrite land_mask, wrap_small by done. apply Z.eqb_refl. Qed.

Lemma Pack_Z_8_ok a : in_u 8 a -> exists u, Pack_Z_8 a = Ret u.
Proof. intros Ha. unfold Pack_Z_8. rewrite (land_id 8 _ a) by done. by eexists. Qed.
Lemma Pack_8_8_ok a b : in_u 8 a -> in_u 8 b -> exists u, Pack_8_8 a b = Ret u.
Proof. intros Ha Hb. unfold Pack_8_8. rewrite (land_id 8 _ a), (land_id 8 _ b) by done. by eexists. Qed.
Lemma Pack_4_4_8_ok a b c : in_u 4 a -> in_u 4 b -> in_u 8 c -> exists u, Pack_4_4_8 a b c = Ret u.
Proof.
  intros. unfold Pack_4_4_8. rewrite (land_id 4 _ a), (land_id 4 _ b), (land_id 8 _ c) by done. by eexists.
Qed.
Lemma Pack_4_4_4_4_ok a b c d : in_u 4 a -> in_u 4 b -> in_u 4 c -> in_u 4 d -> exists u, Pack_4_4_4_4 a b c d = Ret u.
Proof.
  intros. unfold Pack_4_4_4_4.
  rewrite (land_id 4 _ a), (land_id 4 _ b), (land_id 4 _ c), (land_id 4 _ d) by done. by eexists.
Qed.
Lemma Pack_16_some a : in_u 16 a -> exists u, Pack_16 a = Ret u.
Proof. intros. rewrite Pack_16_ok by done. by eexists. Qed.

Lemma Trim_S0_ok c : -8 <= c <= 7 -> exists u, Trim_S0 (U32 c) = Ret u /\ in_u 4 u.
Proof.
  intros Hc. exists (U32 c & 0xf). split; [|rewrite (land_mask 4) by done; by apply wrap_in_u].
  unfold Trim_S0. rewrite (proj2 (Z.eqb_eq _ _)); [done|].
  assert (Hr : -8 <= c < -8 + 16) by lia. revert Hr. clear. intros. range_check (-8) 16.
Qed.

Lemma Trim_S2_ok c : -32768 <= c <= 32767 -> exists u, Trim_S2 (U32 c) = Ret u /\ in_u 16 u.
Proof.
  intros Hc. exists (U32 c & 0xffff). split; [|rewrite (land_mask 16) by done; by apply wrap_in_u].
  unfold Trim_S2. rewrite (proj2 (Z.eqb_eq _ _)); [done|].
  rewrite (swrap_shiftl 16 16), Z.shiftr_shiftl_r, Z.shiftr_0_r by lia. by apply short_roundtrip.
Qed.
End Packing.

(** ** Shapes *)
Definition no_wide (op : SlicerIsa.Opcode) : bool :=
  SlicerIsa.GetVerifyFlagsFromOpcode op &
    (SlicerIsa.kVerifyRegAWide .| SlicerIsa.kVerifyRegBWide .| SlicerIsa.kVerifyRegCWide) =? 0.

(** A reference of the kind the opcode indexes. *)
Definition ref_ok (it : SlicerIsa.InstructionIndexType) (op : SymbolicOperand) : bool :=
  match it, op with
  | SlicerIsa.kIndexStringRef, StringRef _ => true
  | SlicerIsa.kIndexTypeRef, TypeRef _ => true
  | SlicerIsa.kIndexFieldRef, FieldRef _ _ _ => true
  | SlicerIsa.kIndexMethodRef, MethodRef _ _ _ => true
  | _, _ => false
  end.

(** The operands suit the format of the opcode slicer encodes; fields
    AssembleInto does not check are in range already. *)
Definition shape_of (fmt : SlicerIsa.InstructionFormat) (it : SlicerIsa.InstructionIndexType) (ops : list SymbolicOperand) : bool :=
  match fmt, ops with
  | SlicerIsa.k10x, [] => true
  | SlicerIsa.k11x, [VReg a] => 0 <=? a
  | SlicerIsa.k12x, [VReg a; VReg b] => (0 <=? a) && (0 <=? b)
  | SlicerIsa.k22x, [VReg a; VReg b] => (0 <=? a) && (a <=? 255) && (0 <=? b)
  | SlicerIsa.k32x, [VReg a; VReg b] => (0 <=? a) && (0 <=? b)
  | SlicerIsa.k23x, [VReg a; VReg b; VReg c] => (0 <=? a) && (0 <=? b) && (0 <=? c)
  | SlicerIsa.k11n, [VReg a; Const32 v] => (0 <=? a) && (a <=? 15) && (-8 <=? v) && (v <=? 7)
  | SlicerIsa.k21s, [VReg a; Const32 v] => (0 <=? a) && (a <=? 255) && (-32768 <=? v) && (v <=? 32767)
  | SlicerIsa.k31i, [VReg a; Const32 v] => (0 <=? a)
  | SlicerIsa.k20t, [LabelTarget _] => true
  | SlicerIsa.k21t, [VReg a; LabelTarget _] => 0 <=? a
  | SlicerIsa.k22t, [VReg a; VReg b; LabelTarget _] => (0 <=? a) && (0 <=? b)
  | SlicerIsa.k21c, [VReg a; x] => (0 <=? a) && ref_ok it x
  | SlicerIsa.k22c, [VReg a; VReg b; x] => (0 <=? a) && (0 <=? b) && ref_ok it x
  | SlicerIsa.k35c, [VRegList l; x] => forallb (Z.leb 0) l && ref_ok it x
  | _, _ => false
  end.

Definition shape_ok (op : SlicerIsa.Opcode) (ops : list SymbolicOperand) : bool :=
  shape_of (SlicerIsa.GetFormatFromOpcode op) (SlicerIsa.GetIndexTypeFromOpcode op) ops.

Definition shaped (si : SymbolicInstruction) : bool :=
  match si with
  | Bytecode op ops =>
      let eff := Lir.effective_opcode op in
      (0 <=? eff) && (eff <? 256) && no_wide eff && shape_ok eff ops
  | _ => true
  end.

(** Pool indexes that an instruction can name. *)
Definition small_index (o : Lir.Operand) : bool :=
  match o with Lir.Indexed _ i => (0 <=? i) && (i <? 65536) | _ => true end.
Definition small_indexes (i : Lir.LirInstruction) : bool :=
  match i with Lir.Bytecode _ os => forallb small_index os | _ => true end.

(** Registers AssembleInto does not check against the format: that of
    [const], those of [move/16] and the second of [move/from16]. *)
Definition unchecked_ok (fmt : SlicerIsa.InstructionFormat) (ops : list SymbolicOperand) : bool :=
  match fmt, ops with
  | SlicerIsa.k31i, VReg a :: _ => a <=? 255
  | SlicerIsa.k22x, [_; VReg b] => b <=? 65535
  | SlicerIsa.k32x, [VReg a; VReg b] => (a <=? 65535) && (b <=? 65535)
  | _, _ => true
  end.

(** ** What code means a writer's instructions

    [pos] is where the labels are.  The context is asked in order. *)
Section Meaning.
Context {S : Type} (ctx : IrContext S) (pos : Z -> option Z).

Inductive operand_as : S -> SymbolicOperand -> Lir.Operand -> S -> Prop :=
  | as_reg s r : operand_as s (VReg r) (Lir.VReg r) s
  | as_regs s rs : operand_as s (VRegList rs) (Lir.VRegList rs) s
  | as_const s c : operand_as s (Const32 c) (Lir.Const32 (U32 c)) s
  | as_string v i s s' : get_str ctx v s = SlicerIsa.Ret (i, s') ->
      operand_as s (StringRef v) (Lir.Indexed Lir.String i) s'
  | as_type v i s s' : get_type ctx v s = SlicerIsa.Ret (i, s') ->
      operand_as s (TypeRef v) (Lir.Indexed Lir.Type_ i) s'
  | as_field p n t i s s' : get_field ctx p n t s = SlicerIsa.Ret (i, s') ->
      operand_as s (FieldRef p n t) (Lir.Indexed Lir.Field i) s'
  | as_method p n g i s s' : get_method ctx p n g s = SlicerIsa.Ret (i, s') ->
      operand_as s (MethodRef p n g) (Lir.Indexed Lir.Method i) s'
  | as_label s l t : pos l = Some t -> operand_as s (LabelTarget l) (Lir.CodeLocation t) s.

Inductive operands_as : S -> list SymbolicOperand -> list Lir.Operand -> S -> Prop :=
  | operands_nil s : operands_as s [] [] s
  | operands_cons s o o' s1 os os' s2 :
      operand_as s o o' s1 -> operands_as s1 os os' s2 -> operands_as s (o :: os) (o' :: os') s2.

(** The instructions listed from offset [o] on. *)
Inductive assembled_as : S -> Z -> list SymbolicInstruction -> list (Z * Lir.LirInstruction) -> S -> Prop :=
  | assembled_nil s o : assembled_as s o [] [] s
  | assembled_label s o l rest ls s' :
      pos l = Some o -> assembled_as s o rest ls s' -> assembled_as s o (Label l :: rest) ls s'
  | assembled_nop s o rest ls s' :
      assembled_as s (o + 1) rest ls s' ->
      assembled_as s o (Nop :: rest) ((o, Lir.Bytecode SlicerIsa.OP_NOP []) :: ls) s'
  | assembled_code s o op ops os s1 rest ls s' :
      operands_as s ops os s1 ->
      assembled_as s1 (o + SlicerLayout.width_of op) rest ls s' ->
      assembled_as s o (Bytecode op ops :: rest) ((o, Lir.Bytecode (Lir.effective_opcode op) os) :: ls) s'.
End Meaning.

(** The most arguments of an invocation. *)
Definition invoke_arguments (op : SlicerIsa.Opcode) (ops : list SymbolicOperand) : Z :=
  match ops with VRegList l :: _ => Lir.invoke_outs op (Z.of_nat (length l)) | _ => 0 end.
Definition arguments (si : SymbolicInstruction) : Z :=
  match si with Bytecode op ops => invoke_arguments (Lir.effective_opcode op) ops | _ => 0 end.
Definition max_arguments (instrs : list SymbolicInstruction) : Z := foldr (fun i n => Z.max (arguments i) n) 0 instrs.

(** ** The checks imply the encoder's *)
Section Fits.
Import SlicerLayout.
Lemma first_error_None {A} (check : A -> option (list Z)) l x : first_error check l = None -> x ∈ l -> check x = None.
Proof.
  induction l as [|y l IH]; simpl; [set_solver|]. destruct (check y) eqn:E; [done|].
  intros H [->|Hx]%elem_of_cons; [done|by apply IH].
Qed.

Lemma check_reg_None registers fmt r : check_reg registers fmt r = None ->
  r < registers /\
  match fmt with
  | k12x | k22c | k22t => r <= 15
  | k21c | k21t | k23x | k11x | k22b => r <= 255
  | _ => True
  end.
Proof.
  unfold check_reg. destruct (Z.leb_spec registers r); [done|].
  destruct fmt; repeat match goal with |- context [(?a <? ?b)] => destruct (Z.ltb_spec a b) end; done || lia.
Qed.

Lemma check_reg_list_None registers rs : check_reg_list registers rs = None -> Forall (fun r => r <= 15) rs.
Proof.
  induction rs as [|r rs IH]; simpl; [constructor|].
  destruct (_ <=? _); [done|]. destruct (Z.ltb_spec 15 r); [done|]. constructor; [lia|by apply IH].
Qed.

Lemma check_list_None registers fmt rs : check_operand registers fmt (DexWriter.VRegList rs) = None ->
  (length rs <= 5)%nat /\ Forall (fun r => r <= 15) rs.
Proof.
  cbn [check_operand]. case_bool_decide; [done|]. intros ?%check_reg_list_None. split; [lia|done].
Qed.

Lemma nth_reg_small rs : forallb (Z.leb 0) rs = true -> Forall (fun r => r <= 15) rs -> forall i, in_u 4 (nth_reg rs i).
Proof.
  intros H0 H i. unfold nth_reg. destruct (nth_in_or_default i rs 0) as [Hin| ->]; [|done].
  rewrite List.forallb_forall in H0. specialize (H0 _ Hin). apply Z.leb_le in H0.
  rewrite List.Forall_forall in H. specialize (H _ Hin). unfold in_u. lia.
Qed.

Lemma no_wide_reg op i ops r (wide : Z) :
  no_wide op = true -> wide = kVerifyRegAWide \/ wide = kVerifyRegBWide \/ wide = kVerifyRegCWide ->
  ops !! i = Some (Lir.VReg r) -> get_reg ops wide op i = Ret r.
Proof.
  intros Hw Hwide Hi. unfold get_reg. unfold no_wide in Hw. apply Z.eqb_eq in Hw.
  rewrite (proj2 (Z.eqb_eq _ 0)).
  - unfold CastVReg, cast. by rewrite Hi.
  - apply Z.bits_inj'. intros k Hk. rewrite Z.bits_0. apply (f_equal (fun z => Z.testbit z k)) in Hw.
    rewrite Z.bits_0, !Z.land_spec, !Z.lor_spec in *. 
    destruct (Z.testbit (GetVerifyFlagsFromOpcode op) k); [|done]. simpl in *.
    destruct Hwide as [->|[->| ->]]; repeat match type of Hw with context [Z.testbit ?a k] => destruct (Z.testbit a k) end; done.
Qed.


Lemma in_u_bound n a b : b < 2 ^ n -> 0 <= a -> a <= b -> in_u n a.
Proof. unfold in_u. lia. Qed.

Definition encodes op ops : Prop := exists em, encode_format ∅ 0 op ops = Ret em.
Lemma encodes_fits op ops : encodes op ops -> fits op ops = true.
Proof. unfold encodes, fits. by intros [em ->]. Qed.

Section Registers.
Context {S : Type} (ctx : IrContext S) (pos : Z -> option Z) (op : Opcode).
Hypothesis Hop : in_u 8 op.
Hypothesis Hwide : no_wide op = true.

Lemma GetRegA_ok ops i r : ops !! i = Some (Lir.VReg r) -> GetRegA ops op i = Ret r.
Proof. apply no_wide_reg; auto. Qed.
Lemma GetRegB_ok ops i r : ops !! i = Some (Lir.VReg r) -> GetRegB ops op i = Ret r.
Proof. apply no_wide_reg; auto. Qed.
Lemma GetRegC_ok ops i r : ops !! i = Some (Lir.VReg r) -> GetRegC ops op i = Ret r.
Proof. apply no_wide_reg; auto. Qed.

Lemma ref_index it x y s s' : ref_ok it x = true -> operand_as ctx pos s x y s' -> small_index y = true ->
  exists k i, y = Indexed k i /\ index_kind it = Some k /\ in_u 16 i.
Proof.
  intros Hr H Hs. unfold small_index in Hs. destruct H; destruct it; try done; apply andb_prop in Hs as [?%Z.leb_le ?%Z.ltb_lt];
    do 2 eexists; (split_and!; [done|done|unfold in_u; lia]).
Qed.

Lemma branch_offset_unknown l w short : exists fx, branch_offset ∅ 0 l w short = Ret (0, fx).
Proof. unfold branch_offset. eexists. reflexivity. Qed.

Ltac bounds :=
  repeat match goal with
  | H : _ && _ = true |- _ => apply andb_prop in H as [? ?]
  | H : (_ <=? _) = true |- _ => apply Z.leb_le in H
  end.
Ltac invert_operands :=
  repeat match goal with
  | H : operands_as _ _ _ [] _ _ |- _ => inversion H; clear H; subst
  | H : operands_as _ _ _ (_ :: _) _ _ |- _ => inversion H; clear H; subst
  | H : operand_as _ _ _ (DexWriter.VReg _) _ _ |- _ => inversion H; clear H; subst
  | H : operand_as _ _ _ (DexWriter.VRegList _) _ _ |- _ => inversion H; clear H; subst
  | H : operand_as _ _ _ (DexWriter.Const32 _) _ _ |- _ => inversion H; clear H; subst
  | H : operand_as _ _ _ (LabelTarget _) _ _ |- _ => inversion H; clear H; subst
  end.

#[local] Opaque wrap swrap Z.shiftl Z.shiftr Z.land.
Ltac range := first [done|by auto|unfold in_u in *; lia].
Ltac encode_step :=
  match goal with
  | |- context [SLICER_CHECK true] => cbn [SLICER_CHECK mbind outcome_bind]
  | |- context [GetRegA ?ops _ ?i] => erewrite (GetRegA_ok ops i) by reflexivity; cbn [mbind outcome_bind]
  | |- context [GetRegB ?ops _ ?i] => erewrite (GetRegB_ok ops i) by reflexivity; cbn [mbind outcome_bind]
  | |- context [GetRegC ?ops _ ?i] => erewrite (GetRegC_ok ops i) by reflexivity; cbn [mbind outcome_bind]
  | |- context [CastConst32 ?ops ?i] => unfold CastConst32, cast; simpl
  | |- context [CastIndexed ?ops ?i] => unfold CastIndexed, cast; simpl
  | |- context [CastVRegList ?ops ?i] => unfold CastVRegList, cast; simpl
  | |- context [CastCodeLocation ?ops ?i] => unfold CastCodeLocation, cast; simpl
  | |- context [branch_offset ∅ 0 ?l ?w ?short] =>
      destruct (branch_offset_unknown l w short) as [? ->]; cbn [mbind outcome_bind]
  | |- context [Trim_S0 (U32 ?c)] => destruct (Trim_S0_ok c) as (? & -> & ?); [range|cbn [mbind outcome_bind]]
  | |- context [Trim_S2 (U32 ?c)] => destruct (Trim_S2_ok c) as (? & -> & ?); [range|cbn [mbind outcome_bind]]
  | |- context [Pack_Z_8 ?a] => destruct (Pack_Z_8_ok a) as [? ->]; [range|cbn [mbind outcome_bind]]
  | |- context [Pack_8_8 ?a ?b] => destruct (Pack_8_8_ok a b) as [? ->]; [range..|cbn [mbind outcome_bind]]
  | |- context [Pack_4_4_8 ?a ?b ?c] => destruct (Pack_4_4_8_ok a b c) as [? ->]; [range..|cbn [mbind outcome_bind]]
  | |- context [Pack_4_4_4_4 ?a ?b ?c ?d] =>
      destruct (Pack_4_4_4_4_ok a b c d) as [? ->]; [range..|cbn [mbind outcome_bind]]
  | |- context [Pack_16 ?a] => rewrite (Pack_16_ok a) by (first [by apply halves_lo, wrap_in_u|by apply halves_hi, wrap_in_u|range]); cbn [mbind outcome_bind]
  end.

Lemma shape_encodes registers ops os s s' (fmt := GetFormatFromOpcode op) :
  shape_ok op ops = true ->
  Forall (fun x => check_operand registers fmt x = None) ops ->
  unchecked_ok fmt ops = true ->
  operands_as ctx pos s ops os s' ->
  forallb small_index os = true ->
  exists em, encode_format ∅ 0 op os = Ret em /\ wf_bytecode op os /\ outs em = invoke_arguments op ops.
Proof.
  unfold shape_ok, shape_of, encode_format, wf_bytecode, fmt. intros Hs Hc Hu Has Hsm.
  destruct (GetFormatFromOpcode op) eqn:F; try done;
    repeat (lazymatch type of Hs with (match ?x with _ => _ end) = true => destruct x end; try done);
    invert_operands; simpl in Hu, Hsm; bounds;
    repeat match goal with
    | H : Forall _ (_ :: _) |- _ => inversion H; clear H; subst
    | H : Forall _ [] |- _ => clear H
    | H : check_operand _ _ (DexWriter.VReg _) = None |- _ => apply check_reg_None in H as [? ?]
    | H : ref_ok _ _ = true, H' : operand_as _ _ _ _ _ _, H'' : small_index _ = true |- _ =>
        destruct (ref_index _ _ _ _ _ H H' H'') as (k & i & -> & ? & ?); clear H H' H''
    end; bounds; cbn [operands_size length].
  all: repeat (case_bool_decide; [|done]).
  all: try match goal with
    | H : check_operand _ _ (DexWriter.VRegList ?l) = None, Hn : forallb (Z.leb 0) ?l = true |- _ =>
        destruct (check_list_None _ _ _ H) as [? Hl]; pose proof (nth_reg_small l Hn Hl)
    end.
  all: repeat encode_step; eexists; split_and!; first [reflexivity|done|apply wrap_in_u; lia].
Qed.
End Registers.

(** ** The emitted code IR *)
Section Emission.
Context {S : Type} (ctx : IrContext S).

Definition labels_of (instrs : list SymbolicInstruction) : list Z :=
  omap (fun si => match si with DexWriter.Label l => Some l | _ => None end) instrs.

(** One LIR instruction each, labels staying their own keys. *)
Inductive lowered : S -> list SymbolicInstruction -> list LirInstruction -> S -> Prop :=
  | lowered_nil s : lowered s [] [] s
  | lowered_label s l rest is_ s' : lowered s rest is_ s' -> lowered s (DexWriter.Label l :: rest) (Label l false :: is_) s'
  | lowered_nop s rest is_ s' : lowered s rest is_ s' -> lowered s (Nop :: rest) (Bytecode OP_NOP [] :: is_) s'
  | lowered_code s op ops os s1 rest is_ s' :
      operands_as ctx Some s ops os s1 -> lowered s1 rest is_ s' ->
      lowered s (DexWriter.Bytecode op ops :: rest) (Bytecode op os :: is_) s'.

Lemma emit_operand_as nodes x s y s' : emit_operand ctx nodes x s = Ret (y, s') -> operand_as ctx Some s x y s'.
Proof.
  destruct x; simpl; intros H; inv_ret H; try case_bool_decide; try done; injection H as <- <-; by econstructor.
Qed.

Lemma emit_operands_as nodes xs : forall s ys s', emit_operands ctx nodes xs s = Ret (ys, s') -> operands_as ctx Some s xs ys s'.
Proof.
  induction xs as [|x xs IH]; simpl; intros s ys s' H; inv_ret H; injection H as <- <-; [constructor|].
  econstructor; [by eapply emit_operand_as|by apply IH].
Qed.

Lemma emit_code_lowered nodes instrs : forall emitted s is_ s',
  NoDup (labels_of instrs) -> (forall l, l ∈ labels_of instrs -> l ∉ emitted) ->
  emit_code ctx nodes instrs emitted s = Ret (is_, s') -> lowered s instrs is_ s'.
Proof.
  induction instrs as [|[op ops|l|] instrs IH]; simpl; intros emitted s is_ s' Hnd Hem H.
  - injection H as <- <-. constructor.
  - inv_ret H. injection H as <- <-. econstructor; [by eapply emit_operands_as|by eapply IH].
  - inversion_clear Hnd as [|? ? Hl Hnd']. rewrite bool_decide_eq_false_2 in H by (apply Hem; set_solver).
    inv_ret H. injection H as <- <-. constructor. eapply (IH (l :: emitted)); [done| |done].
    intros l' Hl'. apply not_elem_of_cons. split; [by intros ->|apply Hem; set_solver].
  - inv_ret H. injection H as <- <-. constructor. by eapply IH.
Qed.

Definition units_of (si : SymbolicInstruction) : Z :=
  match si with DexWriter.Bytecode op _ => width_of op | Nop => 1 | DexWriter.Label _ => 0 end.
Definition code_units (instrs : list SymbolicInstruction) : Z := foldr (fun si n => units_of si + n) 0 instrs.

Lemma code_units_cons si instrs : code_units (si :: instrs) = units_of si + code_units instrs.
Proof. done. Qed.

Lemma lowered_size s instrs is_ s' : lowered s instrs is_ s' -> code_size is_ = code_units instrs.
Proof. induction 1; rewrite ?code_size_cons; simpl; rewrite ?IHlowered; done. Qed.

Lemma lowered_labels s instrs is_ s' : lowered s instrs is_ s' -> label_ids is_ = labels_of instrs.
Proof. induction 1; simpl; f_equal; done. Qed.

Lemma lowered_place s instrs is_ s' : lowered s instrs is_ s' -> forall o m,
  0 <= o -> o + code_units instrs < 2 ^ 31 -> (simulate instrs o m).1 = place o is_ m.
Proof.
  induction 1 as [|s l rest is_ s' H IH|s rest is_ s' H IH|s op ops os s1 rest is_ s' Has H IH]; intros o m Ho Hs;
    [done|by apply IH|..];
    pose proof (code_size_nonneg is_) as Hpos; rewrite (lowered_size _ _ _ _ H) in Hpos; rewrite code_units_cons in Hs;
    cbn [units_of simulate place size_of] in *.
  - change (width_of OP_NOP) with 1. rewrite (wrap_small 32) by (unfold in_u; lia). apply IH; lia.
  - pose proof (size_nonneg (Bytecode op [])). cbn [size_of] in *.
    change (GetWidthFromFormat _) with (width_of op).
    rewrite (wrap_small 32) by (unfold in_u; lia). specialize (IH (o + width_of op) m).
    destruct (simulate rest _ m). apply IH; lia.
Qed.

Lemma operands_as_labels s ops os s' l : operands_as ctx Some s ops os s' -> CodeLocation l ∈ os -> l ∈ label_targets ops.
Proof.
  unfold label_targets. intros H Hl. apply list_elem_of_omap. exists (LabelTarget l). split; [|done].
  induction H as [|s o o' s1 os os' s2 Ho Hos IH]; [set_solver|].
  apply elem_of_cons in Hl as [<-|Hl]; [inversion Ho; subst; set_solver|set_solver].
Qed.

(** What the checks say of one instruction. *)
Definition checked (registers : Z) (si : SymbolicInstruction) : Prop :=
  match si with
  | DexWriter.Bytecode op ops =>
      Forall (fun x => check_operand registers (eff_format op) x = None) ops /\ unchecked_ok (eff_format op) ops = true
  | _ => True
  end.

Lemma shaped_encodes registers op ops os s s' :
  shaped (DexWriter.Bytecode op ops) = true -> checked registers (DexWriter.Bytecode op ops) ->
  operands_as ctx Some s ops os s' -> forallb small_index os = true ->
  exists em, encode_format ∅ 0 (effective_opcode op) os = Ret em /\
    wf_bytecode (effective_opcode op) os /\ outs em = invoke_arguments (effective_opcode op) ops.
Proof.
  intros Hs [Hc Hu] Has Hsm. unfold shaped in Hs. apply andb_prop in Hs as [[[?%Z.leb_le ?%Z.ltb_lt]%andb_prop Hw]%andb_prop Hs].
  by eapply shape_encodes.
Qed.

Lemma shaped_not_switch op ops : shaped (DexWriter.Bytecode op ops) = true -> is_switch op = false.
Proof.
  unfold shaped. intros [_ Hs]%andb_prop. apply not_true_is_false. intros Hsw.
  unfold is_switch in Hsw. apply orb_prop in Hsw as [->%Z.eqb_eq| ->%Z.eqb_eq]; done.
Qed.

Lemma check_branch_reaches final o l op :
  (forall l t, final !! l = Some t -> 0 <= t < 2 ^ 31) -> 0 <= o < 2 ^ 31 ->
  check_branch final (MkBranch o l op) = None -> reaches final o (GetFormatFromOpcode op) (CodeLocation l) = true.
Proof.
  unfold check_branch, reaches, label. cbn [target_label_id branch_at branch_opcode]. intros Hf Ho H.
  destruct (final !! l) as [t|] eqn:Et; [|done]. apply Hf in Et.
  destruct (t =? o) eqn:E; [done|]. simpl.
  rewrite !(swrap_small 32) in H by (unfold in_s; rewrite ?(swrap_small 32 t), ?(swrap_small 32 o) by (unfold in_s; lia); lia).
  destruct (GetFormatFromOpcode op); simpl in *; try done;
    destruct (Z.ltb_spec (t - o) (-32768)), (Z.ltb_spec 32767 (t - o)); simpl in *; try done;
    apply andb_true_intro; split; apply Z.leb_le; lia.
Qed.

Lemma lowered_plain s instrs is_ s' : lowered s instrs is_ s' -> forallb shaped instrs = true -> forallb plain is_ = true.
Proof.
  induction 1; cbn [forallb plain]; intros Hs; try (apply andb_prop in Hs as [Hs1 Hs]); auto.
  rewrite (shaped_not_switch _ _ Hs1). auto.
Qed.

Lemma max_outs_cons i is_ : max_outs (i :: is_) = Z.max (outs_of i) (max_outs is_).
Proof. done. Qed.
Lemma max_arguments_cons si instrs : max_arguments (si :: instrs) = Z.max (arguments si) (max_arguments instrs).
Proof. done. Qed.

Lemma lowered_encodable registers final s instrs is_ s' :
  (forall l t, final !! l = Some t -> 0 <= t < 2 ^ 31) ->
  lowered s instrs is_ s' -> forall o m,
  0 <= o -> o + code_units instrs < 2 ^ 31 ->
  forallb shaped instrs = true -> Forall (checked registers) instrs -> forallb small_indexes is_ = true ->
  (forall bc, bc ∈ (simulate instrs o m).2 -> check_branch final bc = None) ->
  encodable final o is_ /\ max_outs is_ = max_arguments instrs.
Proof.
  intros Hfin. induction 1 as [|s l rest is_ s' H IH|s rest is_ s' H IH|s op ops os s1 rest is_ s' Has H IH];
    intros o m Ho Hsz Hsh Hck Hsm Hbr; [done|..];
    cbn [forallb] in Hsh, Hsm; apply andb_prop in Hsh as [Hsh1 Hsh], Hsm as [Hsm1 Hsm]; inversion_clear Hck as [|? ? Hck1 Hck'];
    pose proof (code_size_nonneg is_) as Hpos; rewrite (lowered_size _ _ _ _ H) in Hpos; rewrite code_units_cons in Hsz;
    cbn [units_of simulate] in *.
  - destruct (IH o (<[l := o]> m)) as [? Hm]; try done. split; [done|]. by rewrite max_outs_cons, max_arguments_cons, Hm.
  - rewrite (wrap_small 32) in Hbr by (unfold in_u; lia).
    destruct (IH (o + 1) m) as [He Hm]; try done; [lia..|]. split; [by repeat split|].
    by rewrite max_outs_cons, max_arguments_cons, Hm.
  - pose proof (size_nonneg (Bytecode op [])) as Hw. cbn [size_of] in Hw.
    change (GetWidthFromFormat _) with (width_of op) in Hbr. rewrite (wrap_small 32) in Hbr by (unfold in_u; lia).
    destruct (simulate rest (o + width_of op) m) as [m' checks] eqn:Esim. cbn [snd] in Hbr.
    destruct (IH (o + width_of op) m) as [He Hm]; try done; [lia..| |].
    { rewrite Esim. intros bc Hbc. apply Hbr. apply elem_of_app. by right. }
    destruct (shaped_encodes _ _ _ _ _ _ Hsh1 Hck1 Has Hsm1) as (em & Hem & Hwf & Houts).
    split.
    + cbn [encodable]. split_and!; [unfold fits; by rewrite Hem|done| |done].
      apply List.forallb_forall. intros x Hx%list_elem_of_In. destruct x; try done.
      apply check_branch_reaches; [done|lia|]. apply Hbr, elem_of_app. left.
      apply list_elem_of_fmap. eexists. split; [done|]. by eapply operands_as_labels.
    + rewrite max_outs_cons, max_arguments_cons, Hm. cbn [outs_of arguments]. by rewrite Hem, Houts.
Qed.

Lemma operands_resolve final s ops os s' :
  operands_as ctx Some s ops os s' -> forallb (fun x => match x with CodeLocation l => bool_decide (is_Some (final !! l)) | _ => true end) os = true ->
  operands_as ctx (fun l => final !! l) s ops (resolve final <$> os) s'.
Proof.
  induction 1 as [|s o o' s1 os os' s2 Ho Hos IH]; simpl; intros Hd; [constructor|]. apply andb_prop in Hd as [Hd1 Hd].
  econstructor; [|by apply IH]. inversion Ho; subst; try by econstructor. simpl in *. constructor. simplify_eq.
  apply bool_decide_eq_true in Hd1 as [t' Ht]. unfold offset_of, label in *. by rewrite Ht.
Qed.

Lemma reaches_defined final o f os :
  forallb (reaches final o f) os = true ->
  forallb (fun x => match x with CodeLocation l => bool_decide (is_Some (final !! l)) | _ => true end) os = true.
Proof.
  rewrite !List.forallb_forall. intros H x Hx. specialize (H x Hx). destruct x; try done. unfold reaches in H.
  destruct (final !! target); [|done]. by apply bool_decide_eq_true.
Qed.

Lemma lowered_listing final s instrs is_ s' : lowered s instrs is_ s' -> forall o m,
  final = place o is_ m -> NoDup (label_ids is_) -> encodable final o is_ ->
  assembled_as ctx (fun l => final !! l) s o instrs (listing final o is_) s'.
Proof.
  induction 1 as [|s l rest is_ s' H IH|s rest is_ s' H IH|s op ops os s1 rest is_ s' Has H IH]; intros o m Hf Hnd He;
    cbn [place label_ids omap list_omap encodable listing] in *.
  - constructor.
  - inversion_clear Hnd as [|? ? Hl Hnd']. econstructor; [|by eapply IH].
    rewrite Hf, place_other by done. apply lookup_insert_eq.
  - destruct He as (_ & _ & _ & He). constructor. by eapply IH.
  - destruct He as (_ & _ & Hr & He). econstructor; [|by eapply IH].
    eapply operands_resolve; [done|by eapply reaches_defined].
Qed.

Lemma count_code_units w : GetBytecodeInstructionCount w <> 0%nat -> 0 < code_units (instructions_ w).
Proof.
  unfold GetBytecodeInstructionCount. assert (Hnn : forall l, 0 <= code_units l).
  { induction l as [|si l IH]; [done|]. rewrite code_units_cons. destruct si; simpl units_of; [|lia..].
    pose proof (width_positive (GetFormatFromOpcode (effective_opcode opcode))). unfold width_of. lia. }
  induction (instructions_ w) as [|si l IH]; [done|]. rewrite code_units_cons. intros Hc. specialize (Hnn l).
  destruct si; cbn [units_of]; [|by apply IH|lia].
  pose proof (width_positive (GetFormatFromOpcode (effective_opcode opcode))). unfold width_of. lia.
Qed.

Lemma validate_None w : validate w = None ->
  GetBytecodeInstructionCount w <> 0%nat /\ terminal (last_op w) = true /\ check_registers w = None /\ check_branches w = None.
Proof.
  unfold validate. case_bool_decide; [done|]. destruct (terminal _); [|done]. by destruct (check_registers w).
Qed.

Lemma check_registers_checked w : check_registers w = None ->
  forallb (fun si => match si with DexWriter.Bytecode op ops => unchecked_ok (eff_format op) ops | _ => true end) (instructions_ w) = true ->
  Forall (checked (registers_ w)) (instructions_ w).
Proof.
  unfold check_registers. rewrite List.forallb_forall, Forall_forall. intros Hc Hu si Hsi.
  pose proof (first_error_None _ _ _ Hc (proj2 (list_elem_of_In _ _) Hsi)) as Hc1. specialize (Hu _ Hsi).
  destruct si; try done. split; [|done]. apply Forall_forall. intros x Hx%list_elem_of_In. by eapply first_error_None in Hc1.
Qed.
End Emission.
End Fits.

(** ** The main theorem *)
Definition unchecked (si : SymbolicInstruction) : bool :=
  match si with Bytecode op ops => unchecked_ok (eff_format op) ops | _ => true end.

Lemma AssembleInto_meaning {S} (ctx : IrContext S) w s s' lir :
  validate w = None ->
  code_units (instructions_ w) < 2 ^ 31 ->
  NoDup (label_nodes w) ->
  forallb shaped (instructions_ w) = true ->
  forallb unchecked (instructions_ w) = true ->
  emit_code ctx (label_nodes w) (instructions_ w) [] s = SlicerIsa.Ret (lir, s') ->
  forallb small_indexes lir = true ->
  exists code pos ls,
    AssembleInto w (Some ctx) (Some ()) (Some ()) s = (Assembled code (max_arguments (instructions_ w)), Some s') /\
    SlicerLayout.disassemble (length code) 0 code = SlicerIsa.Ret ls /\
    assembled_as ctx pos s 0 (instructions_ w) ls s'.
Proof.
  intros Hv Hsz Hnd Hsh Hun Hem Hsm. destruct (validate_None _ Hv) as (Hcount & _ & Hregs & Hbr).
  apply emit_code_lowered in Hem as Hlow; [|done|set_solver].
  set (final := SlicerLayout.place 0 lir ∅).
  assert (Hfin : forall l t, final !! l = Some t -> 0 <= t < 2 ^ 31).
  { intros l t [Ht|Ht]%SlicerLayout.place_bounds; [by rewrite lookup_empty in Ht|].
    rewrite (lowered_size _ _ _ _ _ Hlow) in Ht. lia. }
  pose proof (lowered_place ctx _ _ _ _ Hlow 0 ∅ ltac:(done) Hsz) as Hplace.
  unfold check_branches in Hbr. destruct (simulate (instructions_ w) 0 ∅) as [labels checks] eqn:Esim.
  cbn [fst] in Hplace. subst labels.
  destruct (lowered_encodable ctx (registers_ w) final _ _ _ _ Hfin Hlow 0 ∅) as [Henc Houts]; try done.
  { by apply check_registers_checked. }
  { rewrite Esim. intros bc Hbc. by eapply first_error_None in Hbr. }
  assert (Hids : NoDup (SlicerLayout.label_ids lir)) by (by rewrite (lowered_labels _ _ _ _ _ Hlow)).
  destruct (SlicerLayout.Encode_plain lir) as (code & HE & _ & Hdis).
  { split; [|by eapply lowered_plain|done|done]. rewrite (lowered_size _ _ _ _ _ Hlow).
    pose proof (count_code_units _ Hcount). unfold Lir.kInvalidOffset. lia. }
  exists code, (fun l => final !! l), (SlicerLayout.listing final 0 lir). split_and!; [|done|by eapply lowered_listing].
  unfold AssembleInto. by rewrite Hv, Hem, HE, Houts.
Qed.


(** A context that numbers what it is asked for. *)
Definition counting : IrContext Z :=
  MkContext Z (fun _ n => SlicerIsa.Ret (n, n + 1)) (fun _ n => SlicerIsa.Ret (n, n + 1))
    (fun _ _ _ n => SlicerIsa.Ret (n, n + 1)) (fun _ _ _ n => SlicerIsa.Ret (n, n + 1)).

(** A method with a loop, a string and an invocation. *)
Definition looping : Writer :=
  let w := SetRegisters new_Writer 3 1 0 in
  let '(w, top) := MakeLabel w in
  let '(w, out) := MakeLabel w in
  let w := (PutConst w 0 1000).1 in
  let w := (PutLabel w top).1 in
  let w := (PutIfEqz w 2 out).1 in
  let w := (PutConstString w 1 (str "hi")).1 in
  let w := (PutInvokeStatic w (str "LLog;->d(Ljava/lang/String;I)V") [1; 0]).1 in
  let w := (PutGoto w top).1 in
  let w := (PutLabel w out).1 in
  (PutReturnVoid w).1.


End DexAsmProofs.
