(* ===== verification/DexSmaliProofs.v ===== *)
(** * What EmitSmali makes of a text

    The invariant of a writer ([writer_ok]) and that assembling text keeps
    it: whatever the text, AssembleInto gets instructions of the shapes it
    relies on.  Then the readers of tokens, registers and literals give back
    what is printed. *)
From stdpp Require Import gmap.
From S2P Require Import Prelude.
From S2P Require Import SlicerIsa.
From S2P Require Import SlicerEncode.
From S2P Require Import DexWriter.
From S2P Require Import DexSmali.
From S2P Require Import DexAsm.
From S2P Require Import DexAsmProofs.

Module DexSmaliProofs.
Export DexSmali.
Export DexAsmProofs.
Local Open Scope Z_scope.

(** ** The invariant *)

(** An id that MakeLabel has given out. *)
Definition made (w : Writer) (l : Z) : Prop := 1 <= l < next_label_id_ w.

Definition labels_in (si : SymbolicInstruction) : list Z :=
  match si with Bytecode _ ops => label_targets ops | Label l => [l] | Nop => [] end.

Record writer_ok (w : Writer) : Prop := {
  ok_next : 1 <= next_label_id_ w;
  ok_shaped : Forall (fun si => shaped si = true) (instructions_ w);
  ok_made : Forall (fun si => Forall (made w) (labels_in si)) (instructions_ w);
  ok_named : forall n l, named_labels_ w !! n = Some l -> made w l;
  ok_distinct : forall n n' l, named_labels_ w !! n = Some l -> named_labels_ w !! n' = Some l -> n = n';
  ok_registers : in_u 16 (registers_ w) /\ in_u 16 (ins_ w) /\ ins_ w <= registers_ w
}.

(** The writer has grown, by at most [n] labels. *)
Record grows (n : Z) (w w' : Writer) : Prop := {
  grows_next : next_label_id_ w <= next_label_id_ w' <= next_label_id_ w + n;
  grows_instructions : exists new, instructions_ w' = instructions_ w ++ new;
  grows_named : named_labels_ w ⊆ named_labels_ w';
  grows_ins : ins_ w' = ins_ w
}.

Lemma grows_refl n w : 0 <= n -> grows n w w.
Proof. split; [lia|by exists []; rewrite app_nil_r|done..]. Qed.

Lemma grows_trans n m w1 w2 w3 : grows n w1 w2 -> grows m w2 w3 -> grows (n + m) w1 w3.
Proof.
  intros [? [l1 E1] ? ?] [? [l2 E2] ? ?].
  split; [lia|by exists (l1 ++ l2); rewrite E2, E1, app_assoc|by etrans|congruence].
Qed.

(** A line's computation, from [P] to [Q]. *)
Definition triple {A} (n : Z) (P : Writer -> Prop) (m : Line A) (Q : A -> Writer -> Prop) : Prop :=
  forall w, writer_ok w -> P w -> next_label_id_ w + n < 2 ^ 31 ->
    writer_ok (m w).1 /\ grows n w (m w).1 /\ match (m w).2 with inl a => Q a (m w).1 | inr _ => True end.

Abbreviation any := (fun _ => True).
Abbreviation anyway := (fun _ _ => True).

Lemma triple_bind {A B} n k P (m : Line A) (f : A -> Line B) Q R :
  0 <= k -> triple n P m Q -> (forall a, triple k (Q a) (f a) R) -> triple (n + k) P (m ≫= f) R.
Proof.
  intros Hk Hm Hf w Hok HP Hn. destruct (Hm w Hok HP) as (Hok1 & Hg1 & HQ); [lia|].
  unfold mbind, line_bind. destruct (m w) as [w1 [a|e]]; simpl in *.
  - destruct (Hf a w1 Hok1 HQ) as (Hok2 & Hg2 & HR); [destruct Hg1; lia|].
    split_and!; [done|by eapply grows_trans|done].
  - split_and!; [done| |done]. destruct Hg1. split; [lia|done..].
Qed.

Lemma triple_bind_0 {A B} n P (m : Line A) (f : A -> Line B) Q R :
  0 <= n -> triple 0 P m Q -> (forall a, triple n (Q a) (f a) R) -> triple n P (m ≫= f) R.
Proof. intros. replace n with (0 + n) by lia. by eapply triple_bind. Qed.

Lemma triple_weaken {A} n (P : Writer -> Prop) (m : Line A) (Q : A -> Writer -> Prop) : 0 <= n -> triple 0 P m Q -> triple n P m Q.
Proof.
  intros Hn Hm w Hok HP Hlt. destruct (Hm w Hok HP) as (? & [] & ?); [lia|]. split_and!; [done|split; (lia || done)|done].
Qed.

Lemma triple_ret {A} P (a : A) : triple 0 P (mret a) (fun _ => P).
Proof. intros w Hok HP _. split_and!; [done|by apply grows_refl|done]. Qed.
Lemma triple_error {A} P Q e : triple 0 P (syntax_err e : Line A) Q.
Proof. intros w Hok HP _. split_and!; [done|by apply grows_refl|done]. Qed.

Lemma triple_need tokens n : triple 0 any (need tokens n) anyway.
Proof. unfold need. case_bool_decide; [apply triple_error|apply triple_ret]. Qed.
Lemma triple_nonneg r : triple 0 any (nonneg r) anyway.
Proof. unfold nonneg. case_match; [apply triple_error|apply triple_ret]. Qed.
Lemma triple_reg tokens i : triple 0 any (reg tokens i) anyway.
Proof. intros w Hok HP _. split_and!; [done|by apply grows_refl|done]. Qed.

Lemma made_mono w w' l : next_label_id_ w <= next_label_id_ w' -> made w l -> made w' l.
Proof. unfold made. lia. Qed.

Lemma triple_label name : triple 1 any (getOrCreateNamedLabel name) (fun l w => made w l).
Proof.
  intros w Hok _ Hn. unfold getOrCreateNamedLabel. set (n := match name with 58 :: t => t | _ => name end).
  destruct (named_labels_ w !! n) as [l|] eqn:El; simpl.
  - split_and!; [done|by apply grows_refl|by eapply ok_named].
  - destruct Hok as [Hnext Hsh Hmade Hnamed Hdist Hregs]. rewrite (swrap_small 32) by (unfold in_s; lia).
    set (w' := MkWriter _ _ _ _ _ _).
    assert (Hmono : forall l, made w l -> made w' l) by (intros l; apply made_mono; simpl; lia).
    split_and!; [split; simpl|split; simpl|].
    + lia.
    + done.
    + revert Hmade. apply List.Forall_impl. intros si. by apply List.Forall_impl.
    + intros n' l [[<- <-]|[_ Hl]]%lookup_insert_Some; [unfold made; simpl; lia|by eauto].
    + intros n1 n2 l [[<- <-]|[? H1]]%lookup_insert_Some [[<- ?]|[? H2]]%lookup_insert_Some; try done; [..|by eauto].
      * apply Hnamed in H2. unfold made in H2. lia.
      * subst l. apply Hnamed in H1. unfold made in H1. lia.
    + done.
    + lia.
    + by exists []; rewrite app_nil_r.
    + by apply insert_subseteq.
    + done.
    + unfold made. simpl. lia.
Qed.

(** Appending an instruction. *)
Lemma triple_push (P : Writer -> Prop) (f : Writer -> Writer * bool) si :
  (forall w, exists o, f w = (MkWriter (registers_ w) (ins_ w) o (next_label_id_ w) (instructions_ w ++ [si]) (named_labels_ w), true)) ->
  shaped si = true -> (forall w, P w -> Forall (made w) (labels_in si)) ->
  triple 0 P (call f) anyway.
Proof.
  intros Hf Hs Hl w [? ? Hmade ? ? ?] HP _. unfold call. destruct (Hf w) as [o ->]. simpl.
  split_and!; [|split; simpl; [lia|by eexists|done..]|done].
  split; simpl; try done; rewrite Forall_app, Forall_singleton; auto; exact (conj Hmade (Hl w HP)).
Qed.

Lemma shaped_intro op ops f it :
  SlicerIsa.GetFormatFromOpcode (Lir.effective_opcode op) = f ->
  SlicerIsa.GetIndexTypeFromOpcode (Lir.effective_opcode op) = it ->
  (let eff := Lir.effective_opcode op in (0 <=? eff) && (eff <? 256) && no_wide eff) = true ->
  shape_of f it ops = true -> shaped (Bytecode op ops) = true.
Proof. intros <- <- Hop Hs. unfold shaped, shape_ok. cbv zeta in *. by rewrite Hop, Hs. Qed.

Lemma triple_put (P : Writer -> Prop) op ops f it :
  SlicerIsa.GetFormatFromOpcode (Lir.effective_opcode op) = f ->
  SlicerIsa.GetIndexTypeFromOpcode (Lir.effective_opcode op) = it ->
  (let eff := Lir.effective_opcode op in (0 <=? eff) && (eff <? 256) && no_wide eff) = true ->
  shape_of f it ops = true ->
  (forall w, P w -> Forall (made w) (label_targets ops)) ->
  triple 0 P (call (fun w => put w op ops)) anyway.
Proof.
  intros Hf Hi Hop Hs Hl. apply (triple_push P _ (Bytecode op ops)); [intros w; by exists (outs_ w)| |done].
  by eapply shaped_intro.
Qed.


Lemma U32_nonneg r : (0 <=? U32 r) = true.
Proof. apply Z.leb_le. by apply wrap_in_u. Qed.
Lemma below r n : (r <=? n) = true -> r <= n.
Proof. apply Z.leb_le. Qed.

(** A call of [put] with registers that are uint32_t. *)
Ltac shape :=
  cbn [shape_of ref_ok forallb]; unfold uint32; rewrite ?U32_nonneg; cbn [andb];
  repeat match goal with H : ?b = true |- context [?b] => rewrite H; cbn [andb] end; reflexivity.
Ltac put_line :=
  eapply triple_put; [vm_compute; reflexivity|vm_compute; reflexivity|vm_compute; reflexivity|shape
    |intros ? ?; repeat (apply List.Forall_cons; [assumption|]); apply List.Forall_nil].

Lemma triple_const r v : triple 0 any (call (fun w => PutConst w (U32 r) v)) anyway.
Proof.
  unfold PutConst. destruct ((U32 r <=? 15) && (-8 <=? v) && (v <=? 7)) eqn:E1.
  - apply andb_prop in E1 as [[? ?]%andb_prop ?]. put_line.
  - destruct ((U32 r <=? 255) && (-32768 <=? v) && (v <=? 32767)) eqn:E2; [|put_line].
    apply andb_prop in E2 as [[? ?]%andb_prop ?]. put_line.
Qed.

Lemma triple_const4 r v : triple 0 any (call (fun w => PutConst4 w (U32 r) v)) anyway.
Proof.
  unfold PutConst4. destruct ((15 <? U32 r) || (v <? -8) || (7 <? v)) eqn:E; [apply triple_const|].
  apply orb_false_iff in E as [[H1 H2]%orb_false_iff H3]. rewrite Z.ltb_antisym in H1, H2, H3.
  apply negb_false_iff in H1, H2, H3. put_line.
Qed.
Lemma triple_const16 r v : triple 0 any (call (fun w => PutConst16 w (U32 r) v)) anyway.
Proof.
  unfold PutConst16. destruct ((255 <? U32 r) || (v <? -32768) || (32767 <? v)) eqn:E; [apply triple_const|].
  apply orb_false_iff in E as [[H1 H2]%orb_false_iff H3]. rewrite Z.ltb_antisym in H1, H2, H3.
  apply negb_false_iff in H1, H2, H3. put_line.
Qed.

Lemma triple_move d s : triple 0 any (call (fun w => PutMove w (U32 d) (U32 s))) anyway.
Proof.
  unfold PutMove. destruct (_ && _); [put_line|]. destruct (U32 d <=? 255) eqn:E; [|put_line].
  destruct (U32 s <=? 65535); put_line.
Qed.
Lemma triple_move_object d s : triple 0 any (call (fun w => PutMoveObject w (U32 d) (U32 s))) anyway.
Proof.
  unfold PutMoveObject. destruct (_ && _); [put_line|]. destruct (U32 d <=? 255) eqn:E; [|put_line].
  destruct (U32 s <=? 65535); put_line.
Qed.

(** A [Put] function that refuses leaves the writer as it was. *)
Lemma triple_refused P : triple 0 P (call (fun w => (w, false))) anyway.
Proof. intros w Hok HP _. split_and!; [done|by apply grows_refl|done]. Qed.

Lemma triple_ifield op v o spec :
  op ∈ [SlicerIsa.OP_IGET; SlicerIsa.OP_IPUT; SlicerIsa.OP_IGET_OBJECT; SlicerIsa.OP_IPUT_OBJECT;
        SlicerIsa.OP_IGET_BOOLEAN; SlicerIsa.OP_IPUT_BOOLEAN] ->
  triple 0 any (call (fun w => PutIFieldInternal w op (U32 v) (U32 o) spec)) anyway.
Proof.
  unfold PutIFieldInternal. destruct (ParseFieldSpec spec) as [[[? ?] ?]|]; [|intros; apply triple_refused].
  rewrite !elem_of_cons, elem_of_nil. intros [->|[->|[->|[->|[->|[->|[]]]]]]]; put_line.
Qed.
Lemma triple_sfield op v spec :
  op ∈ [SlicerIsa.OP_SGET; SlicerIsa.OP_SPUT; SlicerIsa.OP_SGET_OBJECT; SlicerIsa.OP_SPUT_OBJECT] ->
  triple 0 any (call (fun w => PutSFieldInternal w op (U32 v) spec)) anyway.
Proof.
  unfold PutSFieldInternal. destruct (ParseFieldSpec spec) as [[[? ?] ?]|]; [|intros; apply triple_refused].
  rewrite !elem_of_cons, elem_of_nil. intros [->|[->|[->|[->|[]]]]]; put_line.
Qed.

Lemma triple_invoke op meth regs :
  op ∈ [SlicerIsa.OP_INVOKE_VIRTUAL; SlicerIsa.OP_INVOKE_DIRECT; SlicerIsa.OP_INVOKE_STATIC;
        SlicerIsa.OP_INVOKE_SUPER; SlicerIsa.OP_INVOKE_INTERFACE] ->
  forallb (Z.leb 0) regs = true ->
  triple 0 any (call (fun w => PutInvokeInternal w op meth regs)) anyway.
Proof.
  unfold PutInvokeInternal. intros Hop Hregs. case_bool_decide; [apply triple_refused|].
  destruct (existsb _ _); [apply triple_refused|].
  destruct (ParseMethodSpec meth) as [[[p n] g]|]; [|apply triple_refused].
  apply (triple_push any _ (Bytecode op [VRegList regs; MethodRef p n g])); [intros w; by eexists| |intros w _; constructor].
  rewrite !elem_of_cons, elem_of_nil in Hop.
  destruct Hop as [->|[->|[->|[->|[->|[]]]]]]; 
    (eapply shaped_intro; [vm_compute; reflexivity..|cbn [shape_of ref_ok]; by rewrite Hregs]).
Qed.

Lemma triple_call_label {B} name (f : Z -> Line B) :
  (forall l, triple 0 (fun w => made w l) (f l) anyway) -> triple 1 any (l ← getOrCreateNamedLabel name; f l) anyway.
Proof. intros Hf. apply (triple_bind 1 0 _ _ _ (fun l w => made w l)); [done|apply triple_label|done]. Qed.

(** Registers in braces. *)
Lemma invoke_regs_nonneg tokens w w' regs after :
  invoke_regs tokens w = (w', inl (regs, after)) -> w' = w /\ forallb (Z.leb 0) regs = true.
Proof.
  unfold invoke_regs. destruct (drop 1 tokens) as [|t rest]; [by intros [= <- <- <-]|].
  destruct (streq t (str "{")); [|by intros [= <- <- <-]].
  destruct (until_brace rest). intros [= <- <- <-]. split; [done|].
  apply List.forallb_forall. intros r Hr%list_elem_of_In. apply list_elem_of_filter in Hr as [? _]. by apply Z.leb_le.
Qed.

Lemma triple_pure {A} n (φ : Prop) (m : Line A) Q : (φ -> triple n any m Q) -> triple n (fun _ => φ) m Q.
Proof. intros H w Hok Hφ. by apply H. Qed.

Lemma triple_emit_invoke tokens op : triple 0 any (emit_invoke tokens op) anyway.
Proof.
  unfold emit_invoke. eapply (triple_bind_0 0) with (Q := fun ra _ => forallb (Z.leb 0) ra.1 = true); [done| |].
  { intros w Hok _ _. destruct (invoke_regs tokens w) as [w' [[regs after]|]] eqn:E; simpl.
    - apply invoke_regs_nonneg in E as [-> ?]. split_and!; [done|by apply grows_refl|done].
    - exfalso. revert E. unfold invoke_regs. repeat case_match; done. }
  intros [regs after]. apply triple_pure. cbn [fst]. intros Hregs.
  case_bool_decide; [apply triple_error|]. destruct after as [|meth ?]; [apply triple_error|].
  destruct (invoke_of op) as [p|] eqn:Ep; [|apply triple_error].
  apply (triple_bind_0 0 _ _ _ anyway); [done| |intros []; [apply triple_ret|apply triple_error]].
  unfold invoke_of in Ep. repeat case_match; try done; injection Ep as <-;
    (apply triple_invoke; [set_solver|done]).
Qed.

(** One line of text. *)
Lemma triple_emit_instruction tokens op : triple 1 any (emit_instruction tokens op) anyway.
Proof.
  unfold emit_instruction.
  repeat match goal with |- triple _ _ (if ?b then _ else _) _ => destruct b end.
  all: repeat match goal with
    | |- triple 1 _ (getOrCreateNamedLabel _ ≫= _) _ => apply triple_call_label; intros ?
    | |- triple 1 _ (label_ _ _ ≫= _) _ => apply triple_call_label; intros ?
    | |- triple _ _ (need _ _ ≫= _) _ => eapply triple_bind_0; [done|apply triple_need|intros ?]
    | |- triple _ _ (nonneg _ ≫= _) _ => eapply triple_bind_0; [done|apply triple_nonneg|intros ?]
    | |- triple _ _ (reg _ _ ≫= _) _ => eapply triple_bind_0; [done|apply triple_reg|intros ?]
    | |- triple 0 _ (call _) _ => idtac
    | |- triple _ _ (if ?b then _ else _) _ => destruct b
    | |- triple 1 _ _ _ => apply triple_weaken; [done|]
    end.
  all: try lazymatch goal with
    | |- context [PutConst] => apply triple_const
    | |- context [PutConst4] => apply triple_const4
    | |- context [PutConst16] => apply triple_const16
    | |- context [PutMove] => apply triple_move
    | |- context [PutMoveObject] => apply triple_move_object
    | |- context [emit_invoke] => apply triple_emit_invoke
    end.
  all: try lazymatch goal with
    | |- context [PutIget] => apply triple_ifield
    | |- context [PutIput] => apply triple_ifield
    | |- context [PutIgetObject] => apply triple_ifield
    | |- context [PutIputObject] => apply triple_ifield
    | |- context [PutIgetBoolean] => apply triple_ifield
    | |- context [PutIputBoolean] => apply triple_ifield
    | |- context [PutSget] => apply triple_sfield
    | |- context [PutSput] => apply triple_sfield
    | |- context [PutSgetObject] => apply triple_sfield
    | |- context [PutSputObject] => apply triple_sfield
    end.
  all: try by apply (bool_decide_unpack _).
  all: try solve [put_line].
  - apply (triple_push any _ Nop); [intros w; by exists (outs_ w)|done|constructor].
  - destruct (binary_op op) as [b|] eqn:Eb; [|apply triple_error].
    repeat (eapply triple_bind_0; [done|first [apply triple_need|apply triple_nonneg|apply triple_reg]|intros ?]).
    unfold binary_op in Eb.
    repeat (lazymatch type of Eb with (if ?c then _ else _) = _ => destruct c end; [injection Eb as <-; put_line|]). done.
Qed.

Lemma triple_SetRegisters total :
  in_u 16 total -> triple 0 any (fun w => (SetRegisters w total (ins_ w) (outs_ w), inl ())) anyway.
Proof.
  intros Ht w Hok _ _. destruct Hok as [? ? ? ? ? (? & ? & ?)].
  split_and!; [split; simpl; try done|split; simpl; [lia|by exists []; rewrite app_nil_r|done..]|done].
  unfold in_u in *. lia.
Qed.

Lemma triple_emit_line tokens op : triple 1 any (emit_line tokens op) anyway.
Proof.
  unfold emit_line. destruct (streq op (str ".registers")); [|destruct (streq op (str ".locals")); [|destruct (_ =? 58)]].
  - apply triple_weaken; [done|]. case_bool_decide; [by apply triple_SetRegisters, wrap_in_u|apply triple_ret].
  - apply triple_weaken; [done|]. case_bool_decide; [|apply triple_ret]. intros w.
    by apply (triple_SetRegisters _ (wrap_in_u 16 (U16 (ParseLiteral (token tokens 1)) + ins_ w) ltac:(done)) w).
  - apply triple_call_label. intros l. apply (triple_bind_0 0 _ _ _ anyway); [done| |intros _; apply triple_ret].
    apply (triple_push _ _ (Label l)); [intros w; by exists (outs_ w)|done|]. intros w Hw. by apply Forall_singleton.
  - apply (triple_bind 1 0 _ _ _ anyway); [done|apply triple_emit_instruction|].
    intros []; [apply triple_ret|apply triple_error].
Qed.

Lemma emit_lines_ok lines : forall line_no w,
  writer_ok w -> next_label_id_ w + Z.of_nat (length lines) < 2 ^ 31 ->
  writer_ok (emit_lines lines line_no w).1 /\ grows (Z.of_nat (length lines)) w (emit_lines lines line_no w).1.
Proof.
  induction lines as [|line lines IH]; intros line_no w Hok Hn; [split; [done|by apply grows_refl]|].
  cbn [emit_lines length] in *. rewrite Nat2Z.inj_succ in *.
  destruct (TokenizeLine line) as [|op tokens].
  - destruct (IH (line_no + 1) w Hok) as [? []]; [lia|]. split; [done|split; (lia || done)].
  - destruct (triple_emit_line (op :: tokens) op w Hok I) as (Hok1 & Hg1 & _); [lia|].
    destruct (emit_line _ _ w) as [w1 [u|e]]; simpl in *.
    + destruct (IH (line_no + 1) w1 Hok1) as [? Hg2]; [destruct Hg1; lia|]. split; [done|].
      replace (Z.succ _) with (1 + Z.of_nat (length lines)) by lia. by eapply grows_trans.
    + split; [done|]. destruct Hg1. split; (lia || done).
Qed.

Lemma EmitSmali_ok w text :
  writer_ok w -> next_label_id_ w + Z.of_nat (length (getlines text [])) < 2 ^ 31 -> writer_ok (EmitSmali w text).1.
Proof. intros Hok Hn. by apply (emit_lines_ok _ 1 _ Hok Hn). Qed.

(** Assembling text keeps the writer's invariant.  Whatever the text, and
    whether or not a line fails, EmitSmali leaves every instruction with
    operands of the shape its opcode's format has (what AssembleInto relies
    on), every label used or named one that MakeLabel gave out, different
    names different labels, and at least as many registers as parameters; it
    only appends instructions, forgets no label and makes at most one per
    line, provided the ids do not run out. *)
Theorem EmitSmali_writer_ok w text :
  writer_ok w -> next_label_id_ w + Z.of_nat (length (getlines text [])) < 2 ^ 31 ->
  writer_ok (EmitSmali w text).1 /\ grows (Z.of_nat (length (getlines text []))) w (EmitSmali w text).1.
Proof. apply emit_lines_ok. Qed.

Lemma new_Writer_ok : writer_ok new_Writer.
Proof. by split; simpl; [|constructor|constructor|..]. Qed.

Definition sample_text : list Z :=
  str ".registers 3" ++ [10] ++ str ":top  # again" ++ [10] ++ str "if-eqz p0, :out" ++ [10] ++ str "goto :top" ++ [10] ++
  str ":out" ++ [10] ++ str "return-void" ++ [10] ++ str "bogus v0".

Lemma EmitSmali_writer_ok_witness :
  writer_ok (EmitSmali new_Writer sample_text).1 /\ grows 7 new_Writer (EmitSmali new_Writer sample_text).1.
Proof. apply (EmitSmali_writer_ok new_Writer sample_text new_Writer_ok). by vm_compute. Defined.

(** ** Texts the checks let through *)
Definition lines (ls : list (list Z)) : list Z := concat (map (fun l => l ++ [10]) ls).
Definition assembled (text : list Z) : result := (AssembleInto (EmitSmali new_Writer text).1 (Some counting) (Some ()) (Some ()) 0).1.

(** A label put twice: the checks take its last place, the code its first. *)
Definition twice_text : list Z := lines [str ":a"; str "goto :a"; str ":a"; str "return-void"].
Example label_put_twice : validate (EmitSmali new_Writer twice_text).1 = None /\ assembled twice_text = SlicerError.
Proof. split; vm_compute; reflexivity. Qed.

(** [const] has an eight-bit register field, which no check covers. *)
Definition wide_const_text : list Z := lines [str ".registers 300"; str "const v256, 1"; str "return-void"].
Example const_register_unchecked : validate (EmitSmali new_Writer wide_const_text).1 = None /\ assembled wide_const_text = SlicerError.
Proof. split; vm_compute; reflexivity. Qed.

(** What is not a register is left out of an argument list. *)
Example invoke_drops_token :
  EmitSmali new_Writer (str "invoke-static {v0, x1, v2}, La/B;->f(II)V") =
  EmitSmali new_Writer (str "invoke-static {v0, v2}, La/B;->f(II)V").
Proof. vm_compute. reflexivity. Qed.

End DexSmaliProofs.
