(* ===== verification/DexTextProofs.v ===== *)
(** * Reading the text of the DEX writer back

    What TokenizeLine, ParseLiteral, ParseRegister, NormalizeType,
    ParseMethodSpec and ParseFieldSpec read is what is printed. *)
From stdpp Require Import gmap.
From S2P Require Import Prelude.
From S2P Require Import DexSmali.

Module DexTextProofs.
Export DexSmali.
Local Open Scope Z_scope.

(** ** Tokens *)
Definition special (c : Z) : bool :=
  isspace c || (c =? 44) || (c =? 35) || (c =? 34) || (c =? 123) || (c =? 125).

(** A token as text: as it is when that is possible, else quoted. *)
Definition escape (c : Z) : list Z :=
  if c =? 10 then [92; 110] else if c =? 13 then [92; 114] else if c =? 9 then [92; 116]
  else if (c =? 92) || (c =? 34) then [92; c] else [c].
Definition quote (t : list Z) : list Z := 34 :: concat (map escape t) ++ [34].
Definition plain_token (t : list Z) : bool := match t with [] => false | _ => forallb (fun c => negb (special c)) t end.
Definition print_token (t : list Z) : list Z := if plain_token t then t else quote t.
Definition print_line (ts : list (list Z)) : list Z := concat (map (fun t => print_token t ++ [32]) ts).

Lemma tokenize_escape c rest cur :
  tokenize (escape c ++ rest) cur true false = tokenize rest (cur ++ [c]) true false.
Proof.
  unfold escape. destruct (Z.eqb_spec c 10) as [->|]; [done|]. destruct (Z.eqb_spec c 13) as [->|]; [done|].
  destruct (Z.eqb_spec c 9) as [->|]; [done|].
  destruct (Z.eqb_spec c 92) as [->|]; [done|]. destruct (Z.eqb_spec c 34) as [->|]; [done|]. simpl.
  by rewrite (proj2 (Z.eqb_neq c 92)), (proj2 (Z.eqb_neq c 34)).
Qed.

Lemma tokenize_quoted t : forall rest cur,
  tokenize (concat (map escape t) ++ 34 :: rest) cur true false = (cur ++ t) :: tokenize rest [] false false.
Proof.
  induction t as [|c t IH]; intros rest cur; simpl; [by rewrite app_nil_r|].
  rewrite <- app_assoc, tokenize_escape, IH, <- app_assoc. done.
Qed.

Lemma tokenize_plain t : forall rest cur, forallb (fun c => negb (special c)) t = true ->
  tokenize (t ++ rest) cur false false = tokenize rest (cur ++ t) false false.
Proof.
  induction t as [|c t IH]; intros rest cur H; simpl in *; [by rewrite app_nil_r|].
  apply andb_prop in H as [Hc H]. unfold special in Hc. apply negb_true_iff in Hc. rewrite !orb_false_iff in Hc.
  destruct Hc as [[[[[-> ->] ->] ->] ->] ->]. simpl. rewrite IH, <- app_assoc by done. done.
Qed.

Lemma tokenize_token t rest : tokenize (print_token t ++ 32 :: rest) [] false false = t :: tokenize rest [] false false.
Proof.
  unfold print_token. destruct (plain_token t) eqn:E.
  - destruct t; [done|]. rewrite tokenize_plain by done. done.
  - unfold quote. simpl. rewrite <- app_assoc. cbn [app]. by rewrite tokenize_quoted.
Qed.

(** TokenizeLine splits a printed line into its tokens, whatever bytes
    they hold: commas, braces, quotes, a comment sign and control characters
    survive in quotes, and an empty quoted token is kept. *)
Theorem TokenizeLine_roundtrip ts : TokenizeLine (print_line ts) = ts.
Proof.
  unfold TokenizeLine. induction ts as [|t ts IH]; [done|].
  unfold print_line. cbn [map concat]. rewrite <- app_assoc. simpl. rewrite tokenize_token. by f_equal.
Qed.

(** ** Numbers *)
Definition digit_char (d : Z) : Z := if d <? 10 then 48 + d else 87 + d.

(** [n] in base [base]. *)
Fixpoint number (base : Z) (fuel : nat) (n : Z) (acc : list Z) : list Z :=
  match fuel with
  | O => acc
  | S f => let acc := digit_char (n mod base) :: acc in if n <? base then acc else number base f (n / base) acc
  end.

Lemma digits_number f : forall n acc, digits f n acc = number 10 f n acc.
Proof.
  induction f as [|f IH]; intros n acc; simpl; [done|]. unfold digit_char.
  rewrite (proj2 (Z.ltb_lt (n mod 10) 10)) by (apply Z.mod_pos_bound; lia). by destruct (n <? 10).
Qed.

Lemma digit_value_char d : 0 <= d < 36 -> digit_value (digit_char d) = Some d.
Proof. intros H. assert (0 <= d < 0 + 36) by lia. range_check 0 36. Qed.
Lemma digit_char_range d : 0 <= d < 16 -> 48 <= digit_char d <= 57 \/ 97 <= digit_char d <= 102.
Proof. unfold digit_char. case_match; lia. Qed.

Section Number.
Context (base : Z) (Hbase : 1 < base <= 16).

Lemma number_reads f : forall n acc a, 0 <= n < base ^ Z.of_nat f -> (0 < f)%nat ->
  exists k, 0 <= k /\ read_digits base (number base f n acc) a = read_digits base acc (a * base ^ k + n).
Proof.
  induction f as [|f IH]; intros n acc a Hn Hf; [lia|]. simpl.
  pose proof (Z.mod_pos_bound n base). pose proof (Z.div_mod n base).
  destruct (Z.ltb_spec n base).
  - exists 1. split; [done|]. simpl. rewrite digit_value_char, (proj2 (Z.ltb_lt _ _)), Z.pow_1_r, Z.mod_small by lia. done.
  - assert (Hp : base ^ Z.of_nat (S f) = base * base ^ Z.of_nat f) by (rewrite Nat2Z.inj_succ, Z.pow_succ_r; lia).
    destruct f as [|f]; [simpl in Hn; lia|].
    destruct (IH (n / base) (digit_char (n mod base) :: acc) a) as (k & Hk & ->).
    { split; [apply Z.div_pos; lia|]. apply Z.div_lt_upper_bound; lia. }
    { lia. }
    exists (k + 1). split; [lia|]. simpl. rewrite digit_value_char, (proj2 (Z.ltb_lt _ _)) by lia.
    f_equal. rewrite Z.pow_add_r, Z.pow_1_r by lia. lia.
Qed.

Definition digit_like (c : Z) : Prop := 48 <= c <= 57 \/ 97 <= c <= 102.
Lemma number_digits f : forall n acc, Forall digit_like acc -> Forall digit_like (number base f n acc).
Proof.
  induction f as [|f IH]; intros n acc Hacc; [done|]. simpl.
  assert (Forall digit_like (digit_char (n mod base) :: acc)).
  { constructor; [|done]. apply digit_char_range. pose proof (Z.mod_pos_bound n base). lia. }
  destruct (n <? base); [done|by apply IH].
Qed.
Lemma number_cons f n : (0 < f)%nat -> exists c t, number base f n [] = c :: t.
Proof.
  destruct f as [|f]; [lia|]. intros _. simpl. set (d := digit_char _). clearbody d.
  assert (H : forall f n acc, acc <> [] -> number base f n acc <> []).
  { clear. induction f; intros n acc Hacc; [done|]. simpl. destruct (_ <? _); [done|by apply IHf]. }
  destruct (n <? base); [eauto|]. specialize (H f (n / base) [d] ltac:(done)).
  destruct (number base f (n / base) [d]); [done|eauto].
Qed.
Lemma number_value f n : 0 <= n < base ^ Z.of_nat f -> (0 < f)%nat -> read_digits base (number base f n []) 0 = n.
Proof. intros Hn Hf. by destruct (number_reads f n [] 0 Hn Hf) as (k & _ & ->). Qed.
End Number.

Lemma Trim_id c s : isspace c = false -> isspace (List.last (c :: s) 0) = false -> Trim (c :: s) = c :: s.
Proof.
  intros Hc Hl. unfold Trim. cbn [skip_spaces]. rewrite Hc.
  destruct (exists_last (l := c :: s)) as (l & x & E); [done|]. rewrite E in *. rewrite List.last_last in Hl.
  rewrite rev_app_distr. cbn [rev app skip_spaces]. rewrite Hl. cbn [rev]. by rewrite rev_involutive.
Qed.

Lemma digit_like_space c : digit_like c -> isspace c = false.
Proof.
  unfold digit_like, isspace. intros H. apply orb_false_iff. split; [apply Z.eqb_neq; lia|].
  apply andb_false_iff. right. apply Z.leb_gt. lia.
Qed.

Lemma last_digit_like s d : Forall digit_like s -> s <> [] -> digit_like (List.last s d).
Proof.
  intros H Hs. destruct (exists_last Hs) as (l & x & ->). rewrite List.last_last.
  apply Forall_app in H as [_ H]. by inversion H.
Qed.

Lemma Trim_digits s : Forall digit_like s -> Trim s = s.
Proof.
  destruct s as [|c s]; [done|]. intros H. apply Trim_id; apply digit_like_space; [by inversion H|].
  by apply last_digit_like.
Qed.


Lemma print_d_digits n : 0 <= n -> print_d n = number 10 20 n [].
Proof. intros. unfold print_d. rewrite (proj2 (Z.ltb_ge _ _)) by done. apply digits_number. Qed.

Lemma digits_not_hex s : Forall digit_like s -> streq (take 2 s) (str "0x") || streq (take 2 s) (str "0X") = false.
Proof.
  intros H. apply orb_false_iff. unfold streq.
  split; apply bool_decide_eq_false; intros E; apply (Forall_take _ 2) in H; rewrite E in H;
    inversion H as [|? ? _ Hx]; inversion Hx as [|? ? Hc _]; unfold digit_like in Hc; simpl in Hc; lia.
Qed.

Lemma clamp64_id v : in_s 64 v -> clamp64 v = v.
Proof. unfold clamp64, in_s. lia. Qed.

Lemma strtoll_unsigned base c t : isspace c = false -> c <> 45 -> c <> 43 ->
  strtoll base (c :: t) = clamp64 (read_digits base (if base =? 16 then hex_prefix (c :: t) else c :: t) 0).
Proof.
  intros Hc H1 H2. unfold strtoll. cbn [skip_spaces]. rewrite Hc. cbv zeta.
  destruct c as [|c|]; [done| |done]. do 6 (destruct c as [c|c|]; try done).
Qed.

Lemma strtoll_digits s : Forall digit_like s -> s <> [] -> strtoll 10 s = clamp64 (read_digits 10 s 0).
Proof.
  intros Hs Hne. destruct s as [|c t]; [done|]. inversion_clear Hs as [|? ? Hc Ht].
  apply strtoll_unsigned; [by apply digit_like_space|unfold digit_like in Hc; lia..].
Qed.

Lemma strtoll_minus s : strtoll 10 (45 :: s) = clamp64 (- read_digits 10 s 0).
Proof. done. Qed.

(** A hexadecimal literal without its prefix. *)
Definition print_hex (n : Z) : list Z := number 16 16 n [].

Lemma digit_like_value c : digit_like c -> default 16 (digit_value c) < 16.
Proof.
  intros H. unfold digit_value. destruct H;
    repeat (case_match; [simpl; lia|]); repeat match goal with H : _ && _ = false |- _ => apply andb_false_iff in H as [?%Z.leb_gt|?%Z.leb_gt] end; lia.
Qed.

Lemma ParseLiteral_hex n : 0 <= n < 2 ^ 63 -> ParseLiteral (str "0x" ++ print_hex n) = n.
Proof.
  intros Hn. unfold print_hex. pose proof (number_digits 16 ltac:(lia) 16 n [] ltac:(constructor)) as Hd.
  pose proof (number_value 16 ltac:(lia) 16 n ltac:(lia) ltac:(lia)) as Hv.
  destruct (number_cons 16 16 n) as (c & t & E); [lia|]. rewrite E in *. clear E.
  change (str "0x" ++ c :: t) with (48 :: 120 :: c :: t). unfold ParseLiteral.
  assert (Hl : digit_like (List.last (c :: t) 0)) by (by apply last_digit_like).
  rewrite Trim_id; [|done|by apply digit_like_space].
  rewrite bool_decide_eq_true_2 by (simpl; lia). simpl. unfold strtoll. simpl.
  inversion_clear Hd as [|? ? Hc Ht]. rewrite (proj2 (Z.ltb_lt _ _)) by (by apply digit_like_value).
  rewrite Hv. apply clamp64_id. unfold in_s. lia.
Qed.

Lemma ParseLiteral_decimal n : in_s 64 n -> ParseLiteral (print_d n) = n.
Proof.
  intros Hn. unfold in_s in Hn. unfold print_d.
  assert (Hpos : forall m, 0 <= m <= 2 ^ 63 -> exists c t, digits 20 m [] = c :: t /\ Forall digit_like (c :: t) /\ read_digits 10 (c :: t) 0 = m).
  { intros m Hm. rewrite digits_number. destruct (number_cons 10 20 m) as (c & t & E); [lia|]. exists c, t. rewrite <- E.
    split_and!; [done|by apply number_digits; [lia|]|apply number_value; lia]. }
  destruct (Z.ltb_spec n 0).
  - destruct (Hpos (- n)) as (c & t & -> & Hd & Hv); [lia|]. unfold ParseLiteral.
    assert (Hl : digit_like (List.last (c :: t) 0)) by (by apply last_digit_like).
    rewrite Trim_id; [|done|by apply digit_like_space].
    replace (streq (take 2 (45 :: c :: t)) (str "0x") || streq (take 2 (45 :: c :: t)) (str "0X")) with false
      by (symmetry; apply orb_false_iff; split; by apply bool_decide_eq_false).
    rewrite andb_false_r, strtoll_minus, Hv, Z.opp_involutive. apply clamp64_id. unfold in_s. lia.
  - destruct (Hpos n) as (c & t & -> & Hd & Hv); [lia|]. unfold ParseLiteral.
    rewrite Trim_digits, digits_not_hex, andb_false_r by done.
    rewrite strtoll_digits, Hv by done. apply clamp64_id. unfold in_s. lia.
Qed.

(** ParseLiteral reads back every 64-bit number printed in decimal and
    every nonnegative one printed in hexadecimal. *)
Theorem ParseLiteral_reads n : in_s 64 n ->
  ParseLiteral (print_d n) = n /\ (0 <= n -> ParseLiteral (str "0x" ++ print_hex n) = n).
Proof.
  intros Hn. split; [by apply ParseLiteral_decimal|]. intros. apply ParseLiteral_hex. unfold in_s in *. lia.
Qed.


Lemma ParseLiteral_reads_witness :
  ParseLiteral (print_d (-128)) = -128 /\ ParseLiteral (print_d 4096) = 4096 /\ (0 <= 4096 -> ParseLiteral (str "0x1000") = 4096).
Proof.
  split; [apply (ParseLiteral_reads (-128)); by apply (bool_decide_unpack _)|].
  apply (ParseLiteral_reads 4096). by apply (bool_decide_unpack _).
Defined.

(** A minus sign before a hexadecimal literal gives zero. *)
Example negative_hex : ParseLiteral (str "-0x10") = 0.
Proof. reflexivity. Qed.

Lemma atoi_reads n : 0 <= n < 2 ^ 31 -> atoi (print_d n) = n.
Proof.
  intros Hn. unfold atoi. rewrite print_d_digits by lia.
  destruct (number_cons 10 20 n) as (c & t & E); [lia|].
  rewrite strtoll_digits; [|apply number_digits; [lia|done]|by rewrite E].
  rewrite number_value, clamp64_id, (swrap_small 32); unfold in_s; lia.
Qed.

(** ParseRegister reads [v<n>] as register n and [p<n>] as the n-th of
    the registers after the locals, in either case of the letter. *)
Theorem ParseRegister_reads c n total ins :
  0 <= n -> 0 <= ins <= total -> total - ins + n < 2 ^ 31 ->
  (c = 118 \/ c = 86 -> ParseRegister (c :: print_d n) total ins = n) /\
  (c = 112 \/ c = 80 -> ParseRegister (c :: print_d n) total ins = total - ins + n).
Proof.
  intros Hn Hi Hlt. unfold ParseRegister. rewrite atoi_reads, (proj2 (Z.ltb_ge n 0)) by lia.
  split; intros [-> | ->]; simpl; try done; rewrite (proj2 (Z.ltb_ge _ _)) by lia;
    apply (swrap_small 32); unfold in_s; lia.
Qed.

Lemma ParseRegister_reads_witness :
  (118 = 118 \/ 118 = 86 -> ParseRegister (str "v12") 16 2 = 12) /\
  (112 = 112 \/ 112 = 80 -> ParseRegister (str "p1") 16 2 = 15).
Proof.
  split; [apply (ParseRegister_reads 118 12 16 2); lia|apply (ParseRegister_reads 112 1 16 2); lia].
Defined.

(** ** Descriptors *)
Inductive descriptor : list Z -> Prop :=
  | desc_primitive c : c ∈ str "VZBSCIJFD" -> descriptor [c]
  | desc_array d : descriptor d -> descriptor (91 :: d)
  | desc_class t : 46 ∉ t -> descriptor (76 :: t ++ [59]).

Lemma skip_spaces_length s : (length (skip_spaces s) <= length s)%nat.
Proof. induction s as [|c s]; simpl; [done|]. destruct (isspace c); simpl; lia. Qed.
Lemma Trim_length s : (length (Trim s) <= length s)%nat.
Proof.
  unfold Trim. rewrite length_rev. pose proof (skip_spaces_length (rev (skip_spaces s))) as H.
  rewrite length_rev in H. pose proof (skip_spaces_length s). lia.
Qed.

Lemma normalize_fuel f : forall g raw, (length raw <= f)%nat -> (length raw <= g)%nat -> normalize f raw = normalize g raw.
Proof.
  induction f as [|f IH]; intros g raw Hf Hg; pose proof (Trim_length raw).
  - destruct raw; [|simpl in *; lia]. by destruct g.
  - destruct g as [|g].
    { destruct raw; [|simpl in *; lia]. done. }
    simpl. destruct (Trim raw) as [|c t]; [done|]. simpl in *. destruct (primitive _); [done|].
    destruct (c =? 91); [|done]. f_equal. apply IH; lia.
Qed.

(** The recursion of the source. *)
Lemma NormalizeType_array raw t : Trim raw = 91 :: t -> NormalizeType raw = 91 :: NormalizeType t.
Proof.
  intros E. pose proof (Trim_length raw) as Hl. rewrite E in Hl. simpl in Hl.
  assert (Hp : primitive (91 :: t) = None) by done.
  unfold NormalizeType. destruct raw as [|c raw]; [done|]. cbn [length normalize]. rewrite E, Hp.
  change (91 =? 91) with true. cbv iota. f_equal. apply normalize_fuel; simpl in *; lia.
Qed.

Lemma primitive_letter s p : primitive s = Some p -> exists c, p = [c] /\ c ∈ str "VZBSCIJFD".
Proof.
  unfold primitive. destruct (List.find _ _) as [[a b]|] eqn:E; [|done]. intros [= <-].
  apply find_some in E as [E _]. repeat (destruct E as [[= <- <-]|E]; [eexists; split; [done|]; by apply (bool_decide_unpack _)|]).
  done.
Qed.

Lemma slashes_no_dot s : 46 ∉ slashes s.
Proof.
  unfold slashes. rewrite list_elem_of_In, in_map_iff. intros (c & H & _). case_match; [done|].
  subst. done.
Qed.
Lemma slashes_id s : 46 ∉ s -> slashes s = s.
Proof.
  induction s as [|c s IH]; [done|]. intros [Hc Hs]%not_elem_of_cons. unfold slashes in *. simpl. rewrite IH by done.
  by rewrite (proj2 (Z.eqb_neq _ _)) by done.
Qed.
Lemma slashes_app a b : slashes (a ++ b) = slashes a ++ slashes b.
Proof. apply map_app. Qed.

Lemma primitive_class t : primitive (76 :: t) = None.
Proof. done. Qed.

Lemma NormalizeType_step raw c t : Trim raw = c :: t -> c <> 91 ->
  NormalizeType raw =
    match primitive (c :: t) with
    | Some p => p
    | None => if (c =? 76) && (List.last (c :: t) 0 =? 59) then slashes (c :: t) else str "L" ++ slashes (c :: t) ++ str ";"
    end.
Proof.
  intros E Hc. unfold NormalizeType. destruct raw as [|x raw]; [done|]. cbn [length normalize]. rewrite E.
  by rewrite (proj2 (Z.eqb_neq c 91)).
Qed.

Lemma NormalizeType_blank raw : Trim raw = [] -> NormalizeType raw = str "V".
Proof. intros E. unfold NormalizeType. destruct (length raw); cbn [normalize]; by rewrite E. Qed.

Lemma NormalizeType_is_descriptor n : forall raw, (length raw <= n)%nat -> descriptor (NormalizeType raw).
Proof.
  induction n as [|n IH]; intros raw Hn; pose proof (Trim_length raw) as Hl.
  { destruct raw; [|simpl in *; lia]. apply desc_primitive. by apply (bool_decide_unpack _). }
  destruct (Trim raw) as [|c t] eqn:E.
  { rewrite NormalizeType_blank by done. apply desc_primitive. by apply (bool_decide_unpack _). }
  simpl in Hl. destruct (decide (c = 91)) as [->|Hc].
  { rewrite (NormalizeType_array _ _ E). apply desc_array, IH. lia. }
  rewrite (NormalizeType_step _ _ _ E Hc). destruct (primitive (c :: t)) as [p|] eqn:Ep.
  { apply primitive_letter in Ep as (x & -> & ?). by apply desc_primitive. }
  destruct ((c =? 76) && _) eqn:Eq; [|apply (desc_class (slashes (c :: t))), slashes_no_dot].
  apply andb_prop in Eq as [->%Z.eqb_eq Hlast%Z.eqb_eq].
  destruct t as [|x t] using rev_ind; [done|]. rewrite app_comm_cons, List.last_last in Hlast. subst x.
  change (76 :: t ++ [59]) with ([76] ++ t ++ [59]). rewrite !slashes_app. apply (desc_class (slashes t)), slashes_no_dot.
Qed.

(** A descriptor is printable text: no blank at either end. *)
Lemma descriptor_ends d : descriptor d -> exists c t, d = c :: t /\ isspace c = false /\ forall x, isspace (List.last d x) = false.
Proof.
  induction 1 as [c Hc|d H (c & t & -> & Hc & Hl)|t Ht].
  - exists c, []. apply list_elem_of_In in Hc. split_and!; [done|..|intros x; simpl]; by repeat (destruct Hc as [<-|Hc]).
  - exists 91, (c :: t). split_and!; [done..|]. intros x. by apply Hl.
  - exists 76, (t ++ [59]). split_and!; [done..|]. intros x. by rewrite app_comm_cons, List.last_last.
Qed.

Lemma descriptor_Trim d : descriptor d -> Trim d = d.
Proof. intros (c & t & -> & Hc & Hl)%descriptor_ends. by apply Trim_id. Qed.

Lemma descriptor_normal d : descriptor d -> NormalizeType d = d.
Proof.
  induction 1 as [c Hc|d H IH|t Ht].
  - apply list_elem_of_In in Hc. by repeat (destruct Hc as [<-|Hc]).
  - rewrite (NormalizeType_array _ d); [by rewrite IH|]. apply descriptor_Trim. by constructor.
  - rewrite (NormalizeType_step _ 76 (t ++ [59])); [|by apply descriptor_Trim; constructor|done].
    rewrite primitive_class, app_comm_cons, List.last_last. change ((76 =? 76) && (59 =? 59)) with true. cbv iota.
    apply slashes_id. rewrite not_elem_of_app, not_elem_of_cons, list_elem_of_singleton. done.
Qed.

(** NormalizeType always gives a type descriptor in the form the DEX
    format has (a primitive's letter, an array, or a class name between L
    and a semicolon, with slashes), and leaves a descriptor as it is. *)
Theorem NormalizeType_descriptor raw :
  descriptor (NormalizeType raw) /\ (descriptor raw -> NormalizeType raw = raw).
Proof. split; [by apply (NormalizeType_is_descriptor (length raw))|apply descriptor_normal]. Qed.

Lemma NormalizeType_descriptor_witness :
  NormalizeType (str "[ com.a.B ") = str "[Lcom/a/B;" /\ NormalizeType (str "[Lcom/a/B;") = str "[Lcom/a/B;".
Proof.
  split; [reflexivity|]. apply (NormalizeType_descriptor (str "[Lcom/a/B;")).
  apply (desc_array (str "Lcom/a/B;")), (desc_class (str "com/a/B")). by apply (bool_decide_unpack _).
Defined.

(** ** Members *)
Lemma cut_at_app c a b : c ∉ a -> cut_at c (a ++ c :: b) = Some (a, c :: b).
Proof.
  induction a as [|x a IH]; simpl; intros H; [by rewrite Z.eqb_refl|]. apply not_elem_of_cons in H as [? ?].
  rewrite (proj2 (Z.eqb_neq x c)) by done. by rewrite IH.
Qed.
Lemma cut_arrow_app a b : 45 ∉ a -> cut_arrow (a ++ 45 :: 62 :: b) = Some (a, b).
Proof.
  induction a as [|x a IH]; intros H; [done|]. apply not_elem_of_cons in H as [Hx ?]. simpl.
  rewrite (proj2 (Z.eqb_neq x 45)), IH by done. by destruct a.
Qed.
Lemma cut_last_app c a b : c ∉ b -> cut_last [c] (a ++ c :: b) = Some (a, b).
Proof.
  intros Hb. assert (Hnone : cut_last [c] b = None).
  { induction b as [|x b IH]; [done|]. apply not_elem_of_cons in Hb as [? ?]. simpl. rewrite IH by done.
    rewrite bool_decide_eq_false_2; [done|]. by rewrite list_elem_of_singleton. }
  induction a as [|x a IH]; simpl.
  - rewrite Hnone, bool_decide_eq_true_2; [done|]. by rewrite list_elem_of_singleton.
  - by rewrite IH.
Qed.

Lemma last_after (a b : list Z) c x : List.last (a ++ c :: b) x = List.last (c :: b) x.
Proof.
  destruct (exists_last (l := c :: b)) as (l & y & ->); [done|]. by rewrite app_assoc, !List.last_last.
Qed.

Lemma Trim_text d c b : isspace c = false -> isspace (List.last (d ++ c :: b) 0) = false ->
  (forall x t, d = x :: t -> isspace x = false) -> Trim (d ++ c :: b) = d ++ c :: b.
Proof. intros Hc Hl Hd. destruct d as [|x t]; [by apply Trim_id|]. apply Trim_id; [by eapply Hd|done]. Qed.

(** A smali member reference is taken apart where it was put together:
    [class->name(signature)] for a method, [class->name:type] for a field. *)
Theorem ParseMemberSpec_smali d name rest t :
  descriptor d -> 45 ∉ d -> 40 ∉ name ->
  isspace (List.last (40 :: rest) 0) = false ->
  descriptor t -> 58 ∉ t ->
  ParseMethodSpec (d ++ str "->" ++ name ++ 40 :: rest) = Some (d, name, 40 :: rest) /\
  ParseFieldSpec (d ++ str "->" ++ name ++ str ":" ++ t) = Some (d, name, t).
Proof.
  intros Hd Hd45 Hname Hrest Ht Ht58.
  assert (Hhead : forall x u, d = x :: u -> isspace x = false).
  { intros x u ->. by destruct (descriptor_ends _ Hd) as (? & ? & [= -> ->] & ? & _). }
  destruct (descriptor_ends _ Ht) as (c & u & -> & _ & Htl).
  change (str "->" ++ name ++ 40 :: rest) with (45 :: 62 :: name ++ 40 :: rest).
  change (str "->" ++ name ++ str ":" ++ c :: u) with (45 :: 62 :: name ++ 58 :: c :: u).
  split.
  - unfold ParseMethodSpec. rewrite Trim_text; [|done| |done].
    + by rewrite cut_arrow_app, cut_at_app, descriptor_normal by done.
    + by rewrite !app_comm_cons, app_assoc, last_after.
  - unfold ParseFieldSpec. rewrite Trim_text; [|done| |done].
    + rewrite !app_comm_cons, app_assoc. rewrite cut_last_app by done. simpl. by rewrite cut_arrow_app, !descriptor_normal by done.
    + rewrite !app_comm_cons, app_assoc, last_after. apply (Htl 0).
Qed.

Lemma ParseMemberSpec_smali_witness :
  ParseMethodSpec (str "Lcom/a/B;->f(I)V") = Some (str "Lcom/a/B;", str "f", str "(I)V") /\
  ParseFieldSpec (str "Lcom/a/B;->f:[I") = Some (str "Lcom/a/B;", str "f", str "[I").
Proof.
  apply (ParseMemberSpec_smali (str "Lcom/a/B;") (str "f") (str "I)V") (str "[I")).
  - apply (desc_class (str "com/a/B")). by apply (bool_decide_unpack _).
  - by apply (bool_decide_unpack _).
  - by apply (bool_decide_unpack _).
  - reflexivity.
  - apply (desc_array (str "I")), (desc_primitive 73). by apply (bool_decide_unpack _).
  - by apply (bool_decide_unpack _).
Defined.

End DexTextProofs.
