(* ===== verification/DexUtf.v ===== *)
(** * Strings of a DEX image

    Utf8ToUtf16 and AppendMutf8Unit of src/dex/pi_dex_gen.cpp, which make a
    string_data_item, and the readers of external/dexter/slicer that depend on
    it: ir::String::c_str (dex_ir.h), ReadULeb128 and WriteULeb128
    (dex_leb128.h), GetUtf16FromUtf8 and Utf8Cmp (dex_utf8.cc).  A
    [const char*] is the list of the bytes from it on; reading past its end
    is [None].

    * The strings of a DEX image are read as they were meant

    UTF-8 in, UTF-16 units in the image: [Utf8ToUtf16] decodes the standard's
    encoding, slicer's reader decodes what [AppendMutf8Unit] writes, and
    [Utf8Cmp] orders strings by their units, as the format requires. *)
From S2P Require Import Prelude.

Module DexUtf.
Local Open Scope Z_scope.
Local Open Scope cint_scope.

(** ** UTF-8 to UTF-16 *)

(** The lead byte: its payload and the number of bytes that follow. *)
Definition lead (c : Z) : option (Z * nat) :=
  if c <? 0x80 then Some (c, 0%nat)
  else if c & 0xe0 =? 0xc0 then Some (c & 0x1f, 1%nat)
  else if c & 0xf0 =? 0xe0 then Some (c & 0x0f, 2%nat)
  else if c & 0xf8 =? 0xf0 then Some (c & 0x07, 3%nat)
  else None.

(** The loop over the continuation bytes; [None] also when they are missing. *)
Fixpoint continue_ (extra : nat) (cp : Z) (s : list Z) : option (Z * list Z) :=
  match extra with
  | O => Some (cp, s)
  | S k =>
      match s with
      | [] => None
      | cc :: rest => if negb (cc & 0xc0 =? 0x80) then None else continue_ k ((cp << 6) .| (cc & 0x3f)) rest
      end
  end.

Definition units_of_cp (cp : Z) : option (list Z) :=
  if cp <=? 0xffff then Some [U16 cp]
  else if cp <=? 0x10ffff then
    let cp := cp - 0x10000 in
    Some [U16 (0xd800 + (cp >> 10)); U16 (0xdc00 + (cp & 0x3ff))]
  else None.

(** Every round takes at least one byte, so their number is fuel enough. *)
Fixpoint utf16_loop (fuel : nat) (s : list Z) : option (list Z) :=
  match s, fuel with
  | [], _ => Some []
  | _, O => None
  | c :: rest, S fuel =>
      '(cp, extra) ← lead c;
      '(cp, rest) ← continue_ extra cp rest;
      us ← units_of_cp cp;
      tail ← utf16_loop fuel rest;
      Some (us ++ tail)
  end.
Definition Utf8ToUtf16 (s : list Z) : option (list Z) := utf16_loop (length s) s.

(** ** MUTF-8 *)
Definition AppendMutf8Unit (unit : Z) : list Z :=
  if negb (unit =? 0) && (unit <=? 0x7f) then [U8 unit]
  else if unit <=? 0x7ff then [U8 (0xc0 .| (unit >> 6)); U8 (0x80 .| (unit & 0x3f))]
  else [U8 (0xe0 .| (unit >> 12)); U8 (0x80 .| ((unit >> 6) & 0x3f)); U8 (0x80 .| (unit & 0x3f))].
Definition mutf8 (units : list Z) : list Z := concat (map AppendMutf8Unit units).

(** ** LEB128 in slicer *)
Fixpoint uleb_loop (fuel : nat) (data : Z) : list Z :=
  match fuel with
  | O => []
  | S fuel =>
      let out := U8 (data & 0x7f) in
      if negb (out =? data) then U8 (out .| 0x80) :: uleb_loop fuel (data >> 7) else [out]
  end.
(** 32 bits take at most five rounds. *)
Definition WriteULeb128 (data : Z) : list Z := uleb_loop 5 data.

(** Buffer::PushULeb128 has room for four bytes. *)
Definition PushULeb128 (value : Z) : option (list Z) :=
  let out := WriteULeb128 value in
  if bool_decide (length out <= 4)%nat then Some out else None.

Definition head_tail (p : list Z) : option (Z * list Z) := match p with [] => None | x :: t => Some (x, t) end.

(** ReadULeb128: the value and the bytes behind it. *)
Definition ReadULeb128 (p : list Z) : option (Z * list Z) :=
  '(result, p) ← head_tail p;
  if negb (0x7f <? result) then Some (result, p) else
  '(cur, p) ← head_tail p;
  let result := (result & 0x7f) .| ((cur & 0x7f) << 7) in
  if negb (0x7f <? cur) then Some (result, p) else
  '(cur, p) ← head_tail p;
  let result := result .| ((cur & 0x7f) << 14) in
  if negb (0x7f <? cur) then Some (result, p) else
  '(cur, p) ← head_tail p;
  let result := result .| ((cur & 0x7f) << 21) in
  if negb (0x7f <? cur) then Some (result, p) else
  '(cur, p) ← head_tail p;
  Some (U32 (result .| (cur << 28)), p).

(** ** Making a string_data_item: the start of Builder::Str *)

(** Text that is not UTF-8 is taken byte by byte. *)
Definition string_units (value : list Z) : list Z := default value (Utf8ToUtf16 value).
Definition string_data_item (value : list Z) : option (list Z) :=
  let units := string_units value in
  size ← PushULeb128 (U32 (Z.of_nat (length units)));
  Some (size ++ mutf8 units ++ [0]).

(** ** Readers of a string_data_item *)

(** ir::String::c_str *)
Definition c_str (data : list Z) : option (list Z) := option_map snd (ReadULeb128 data).

(** GetUtf16FromUtf8: a char is sign-extended to u4 before it is masked. *)
Definition GetUtf16FromUtf8 (p : list Z) : option (Z * list Z) :=
  '(c, p) ← head_tail p;
  let one := U32 (S8 c) in
  if negb (one & 0x80 =? 0) then
    '(c, p) ← head_tail p;
    let two := U32 (S8 c) in
    if negb (one & 0x20 =? 0) then
      '(c, p) ← head_tail p;
      let three := U32 (S8 c) in
      Some (U16 ((((one & 0x0f) << 12) .| ((two & 0x3f) << 6)) .| (three & 0x3f)), p)
    else Some (U16 (((one & 0x1f) << 6) .| (two & 0x3f)), p)
  else Some (U16 one, p).

(** Every round takes a byte of each. *)
Fixpoint cmp_loop (fuel : nat) (s1 s2 : list Z) : option Z :=
  match fuel with
  | O => None
  | S fuel =>
      '(c1, _) ← head_tail s1;
      '(c2, _) ← head_tail s2;
      if c1 =? 0 then Some (if c2 =? 0 then 0 else -1)
      else if c2 =? 0 then Some 1
      else
        '(utf1, s1) ← GetUtf16FromUtf8 s1;
        '(utf2, s2) ← GetUtf16FromUtf8 s2;
        let diff := utf1 - utf2 in
        if negb (diff =? 0) then Some diff else cmp_loop fuel s1 s2
  end.
Definition Utf8Cmp (s1 s2 : list Z) : option Z := cmp_loop (S (length s1)) s1 s2.

End DexUtf.

Module DexUtfProofs.
Export DexUtf.
Local Open Scope Z_scope.
Local Open Scope cint_scope.

(** ** The standards' encodings *)
Definition utf8 (cp : Z) : list Z :=
  if cp <? 0x80 then [cp]
  else if cp <? 0x800 then [0xc0 + cp / 64; 0x80 + cp mod 64]
  else if cp <? 0x10000 then [0xe0 + cp / 4096; 0x80 + (cp / 64) mod 64; 0x80 + cp mod 64]
  else [0xf0 + cp / 262144; 0x80 + (cp / 4096) mod 64; 0x80 + (cp / 64) mod 64; 0x80 + cp mod 64].

Definition utf16 (cp : Z) : list Z :=
  if cp <? 0x10000 then [cp] else [0xd800 + (cp - 0x10000) / 1024; 0xdc00 + (cp - 0x10000) mod 1024].

Definition encode8 (cps : list Z) : list Z := concat (map utf8 cps).
Definition encode16 (cps : list Z) : list Z := concat (map utf16 cps).
Definition code_point (cp : Z) : Prop := 0 <= cp <= 0x10ffff.

(** ** Decoding UTF-8 *)
Lemma lead_1 x : 0 <= x < 0 + 0x80 -> lead x = Some (x, 0%nat).
Proof. intros. range_check 0 0x80. Qed.
Lemma lead_2 x : 0 <= x < 0 + 32 -> lead (0xc0 + x) = Some (x, 1%nat).
Proof. intros. range_check 0 32. Qed.
Lemma lead_3 x : 0 <= x < 0 + 16 -> lead (0xe0 + x) = Some (x, 2%nat).
Proof. intros. range_check 0 16. Qed.
Lemma lead_4 x : 0 <= x < 0 + 8 -> lead (0xf0 + x) = Some (x, 3%nat).
Proof. intros. range_check 0 8. Qed.

Lemma continuation y : 0 <= y < 0 + 64 -> (0x80 + y) & 0xc0 = 0x80 /\ (0x80 + y) & 0x3f = y.
Proof. intros. range_check 0 64. Qed.

Lemma continue_step k cp y rest : 0 <= y < 64 ->
  continue_ (S k) cp (0x80 + y :: rest) = continue_ k (cp * 64 + y) rest.
Proof.
  intros Hy. destruct (continuation y) as [H1 H2]; [lia|]. cbn [continue_]. rewrite H1, H2.
  change (negb (0x80 =? 0x80)) with false. cbv iota. f_equal. by apply lor_shiftl_add.
Qed.

Lemma units_of_utf16 cp : code_point cp -> units_of_cp cp = Some (utf16 cp).
Proof.
  intros Hcp. unfold code_point, units_of_cp, utf16 in *.
  destruct (Z.leb_spec cp 0xffff), (Z.ltb_spec cp 0x10000); try lia.
  - rewrite wrap_small; [done|unfold in_u; lia].
  - rewrite (proj2 (Z.leb_le _ _)) by lia. change 0x3ff with (2 ^ 10 - 1). rewrite land_mask, Z.shiftr_div_pow2 by done.
    change (wrap 10 (cp - 0x10000)) with ((cp - 0x10000) mod 1024). change (2 ^ 10) with 1024.
    rewrite !(wrap_small 16) by (unfold in_u; Z.to_euclidean_division_equations; lia). done.
Qed.

Lemma utf16_loop_step fuel cp rest :
  code_point cp -> utf16_loop (S fuel) (utf8 cp ++ rest) = us ← utf16_loop fuel rest; Some (utf16 cp ++ us).
Proof.
  intros Hcp. pose proof (units_of_utf16 cp Hcp) as Hu. unfold code_point, utf8 in *.
  destruct (Z.ltb_spec cp 0x80); [|destruct (Z.ltb_spec cp 0x800); [|destruct (Z.ltb_spec cp 0x10000)]];
    cbn [app utf16_loop].
  - rewrite lead_1 by lia. simpl. by rewrite Hu.
  - rewrite lead_2 by (Z.to_euclidean_division_equations; lia). cbn [mbind option_bind].
    rewrite continue_step by (Z.to_euclidean_division_equations; lia). simpl.
    replace (cp / 64 * 64 + cp mod 64) with cp by (Z.to_euclidean_division_equations; lia). by rewrite Hu.
  - rewrite lead_3 by (Z.to_euclidean_division_equations; lia). cbn [mbind option_bind].
    rewrite !continue_step by (Z.to_euclidean_division_equations; lia). simpl.
    replace ((cp / 4096 * 64 + (cp / 64) mod 64) * 64 + cp mod 64) with cp by (Z.to_euclidean_division_equations; lia).
    by rewrite Hu.
  - rewrite lead_4 by (Z.to_euclidean_division_equations; lia). cbn [mbind option_bind].
    rewrite !continue_step by (Z.to_euclidean_division_equations; lia). simpl.
    replace (((cp / 262144 * 64 + (cp / 4096) mod 64) * 64 + (cp / 64) mod 64) * 64 + cp mod 64) with cp
      by (Z.to_euclidean_division_equations; lia).
    by rewrite Hu.
Qed.

Lemma utf16_loop_encode8 cps : forall fuel, Forall code_point cps -> (length cps <= fuel)%nat ->
  utf16_loop fuel (encode8 cps) = Some (encode16 cps).
Proof.
  induction cps as [|cp cps IH]; intros fuel Hcps Hf; [by destruct fuel|].
  inversion_clear Hcps. destruct fuel as [|fuel]; [simpl in Hf; lia|].
  change (encode8 (cp :: cps)) with (utf8 cp ++ encode8 cps). rewrite utf16_loop_step by done.
  simpl in Hf. rewrite IH by (done || lia). done.
Qed.

Lemma encode8_length cps : (length cps <= length (encode8 cps))%nat.
Proof.
  induction cps as [|cp cps IH]; [done|]. change (encode8 (cp :: cps)) with (utf8 cp ++ encode8 cps).
  rewrite length_app. unfold utf8. repeat case_match; simpl; lia.
Qed.

Lemma Utf8ToUtf16_encode8 cps : Forall code_point cps -> Utf8ToUtf16 (encode8 cps) = Some (encode16 cps).
Proof. intros. apply utf16_loop_encode8; [done|apply encode8_length]. Qed.

(** ** MUTF-8 *)
Lemma char_1 x : 1 <= x < 1 + 0x7f -> U8 x <> 0 /\ U32 (S8 (U8 x)) & 0x80 = 0 /\ U16 (U32 (S8 (U8 x))) = x.
Proof. intros. range_check 1 0x7f. Qed.
Lemma char_2 x : 0 <= x < 0 + 32 ->
  U8 (0xc0 .| x) <> 0 /\ U32 (S8 (U8 (0xc0 .| x))) & 0x80 <> 0 /\ U32 (S8 (U8 (0xc0 .| x))) & 0x20 = 0 /\ U32 (S8 (U8 (0xc0 .| x))) & 0x1f = x.
Proof. intros. range_check 0 32. Qed.
Lemma char_3 x : 0 <= x < 0 + 16 ->
  U8 (0xe0 .| x) <> 0 /\ U32 (S8 (U8 (0xe0 .| x))) & 0x80 <> 0 /\ U32 (S8 (U8 (0xe0 .| x))) & 0x0f = x.
Proof. intros. range_check 0 16. Qed.
Lemma char_3_bit x : 0 <= x < 0 + 16 -> U32 (S8 (U8 (0xe0 .| x))) & 0x20 <> 0.
Proof. intros. range_check 0 16. Qed.
Lemma char_next y : 0 <= y < 0 + 64 -> U8 (0x80 .| y) <> 0 /\ U32 (S8 (U8 (0x80 .| y))) & 0x3f = y.
Proof. intros. range_check 0 64. Qed.


Lemma AppendMutf8Unit_cases u : in_u 16 u ->
  (1 <= u < 0x80 /\ AppendMutf8Unit u = [U8 u]) \/
  ((u = 0 \/ 0x80 <= u < 0x800) /\ AppendMutf8Unit u = [U8 (0xc0 .| u / 64); U8 (0x80 .| u mod 64)]) \/
  (0x800 <= u < 0x10000 /\ AppendMutf8Unit u = [U8 (0xe0 .| u / 4096); U8 (0x80 .| (u / 64) mod 64); U8 (0x80 .| u mod 64)]).
Proof.
  intros Hu. unfold in_u, AppendMutf8Unit in *. change 0x3f with (2 ^ 6 - 1). rewrite !land_mask, !Z.shiftr_div_pow2 by done.
  destruct (Z.eqb_spec u 0), (Z.leb_spec u 0x7f), (Z.leb_spec u 0x7ff); simpl; try lia; auto with lia.
Qed.

Lemma read_unit u rest : in_u 16 u -> GetUtf16FromUtf8 (AppendMutf8Unit u ++ rest) = Some (u, rest).
Proof.
  intros Hu. destruct (AppendMutf8Unit_cases u Hu) as [[Hr ->]|[[Hr ->]|[Hr ->]]]; unfold GetUtf16FromUtf8; cbn [app head_tail mbind option_bind].
  - destruct (char_1 u) as (_ & -> & ->); [lia|]. done.
  - destruct (char_2 (u / 64)) as (_ & H1 & -> & ->); [Z.to_euclidean_division_equations; lia|].
    destruct (char_next (u mod 64)) as (_ & ->); [Z.to_euclidean_division_equations; lia|].
    rewrite (proj2 (Z.eqb_neq _ _) H1). cbn [negb Z.eqb]. do 2 f_equal.
    rewrite lor_shiftl_add by (unfold in_u; Z.to_euclidean_division_equations; lia).
    replace (u / 64 * 2 ^ 6 + u mod 64) with u by (Z.to_euclidean_division_equations; lia). by apply wrap_small.
  - destruct (char_3 (u / 4096)) as (_ & H1 & ->); [Z.to_euclidean_division_equations; lia|].
    pose proof (char_3_bit (u / 4096) ltac:(Z.to_euclidean_division_equations; lia)) as H2.
    destruct (char_next ((u / 64) mod 64)) as (_ & ->); [Z.to_euclidean_division_equations; lia|].
    destruct (char_next (u mod 64)) as (_ & ->); [Z.to_euclidean_division_equations; lia|].
    rewrite (proj2 (Z.eqb_neq _ _) H1), (proj2 (Z.eqb_neq _ _) H2). cbn [negb]. do 2 f_equal.
    replace ((u / 4096) << 12) with (((u / 4096) << 6) << 6) by (by rewrite Z.shiftl_shiftl).
    rewrite <- Z.shiftl_lor, !lor_shiftl_add by (done || unfold in_u; Z.to_euclidean_division_equations; lia).
    replace ((u / 4096 * 2 ^ 6 + (u / 64) mod 64) * 2 ^ 6 + u mod 64) with u by (Z.to_euclidean_division_equations; lia).
    by apply wrap_small.
Qed.

(** A unit's first byte is never the terminator. *)
Lemma unit_head u : in_u 16 u -> exists c t, AppendMutf8Unit u = c :: t /\ c <> 0.
Proof.
  intros Hu. destruct (AppendMutf8Unit_cases u Hu) as [[Hr ->]|[[Hr ->]|[Hr ->]]]; do 2 eexists; (split; [done|]).
  - apply (char_1 u). lia.
  - apply (char_2 (u / 64)). Z.to_euclidean_division_equations; lia.
  - apply (char_3 (u / 4096)). Z.to_euclidean_division_equations; lia.
Qed.

Lemma string_step x a rest : in_u 16 x -> exists c t,
  head_tail (mutf8 (x :: a) ++ rest) = Some (c, t) /\ c <> 0 /\
  GetUtf16FromUtf8 (mutf8 (x :: a) ++ rest) = Some (x, mutf8 a ++ rest).
Proof.
  intros Hx. destruct (unit_head x Hx) as (c & t & E & Hc). unfold mutf8. cbn [map concat]. rewrite <- app_assoc.
  exists c, (t ++ concat (map AppendMutf8Unit a) ++ rest). split_and!; [by rewrite E|done|by apply read_unit].
Qed.

Lemma unit_length u : (1 <= length (AppendMutf8Unit u))%nat.
Proof. unfold AppendMutf8Unit. repeat case_match; simpl; lia. Qed.

(** ** The order of strings *)

(** By the first unit that differs; a prefix comes first. *)
Fixpoint unit_order (a b : list Z) : Z :=
  match a, b with
  | [], [] => 0
  | [], _ => -1
  | _, [] => 1
  | x :: a, y :: b => if x =? y then unit_order a b else x - y
  end.

Lemma cmp_loop_units a : forall b r1 r2 fuel,
  Forall (in_u 16) a -> Forall (in_u 16) b -> (length a < fuel)%nat ->
  cmp_loop fuel (mutf8 a ++ 0 :: r1) (mutf8 b ++ 0 :: r2) = Some (unit_order a b).
Proof.
  induction a as [|x a IH]; intros b r1 r2 fuel Ha Hb Hf; (destruct fuel as [|fuel]; [simpl in Hf; lia|]).
  - destruct b as [|y b]; [done|]. inversion_clear Hb as [|? ? Hy _].
    destruct (string_step y b (0 :: r2) Hy) as (c & t & E & Hc & _). cbn [cmp_loop]. rewrite E. cbn. by rewrite (proj2 (Z.eqb_neq c 0)).
  - inversion_clear Ha as [|? ? Hx Ha'].
    destruct (string_step x a (0 :: r1) Hx) as (c & u1 & Hhead & Hc & Hread). cbn [cmp_loop]. rewrite Hhead. cbn [mbind option_bind].
    destruct b as [|y b]; [simpl; by rewrite (proj2 (Z.eqb_neq c 0))|]. inversion_clear Hb as [|? ? Hy Hb'].
    destruct (string_step y b (0 :: r2) Hy) as (d & u2 & Hhead2 & Hd & Hread2). rewrite Hhead2. cbn [mbind option_bind].
    rewrite (proj2 (Z.eqb_neq c 0)), (proj2 (Z.eqb_neq d 0)) by done. rewrite Hread, Hread2. cbn [mbind option_bind].
    simpl in Hf. cbn [unit_order]. destruct (Z.eqb_spec x y) as [->|Hne].
    + rewrite Z.sub_diag. cbn. apply IH; (done || lia).
    + rewrite (proj2 (Z.eqb_neq (x - y) 0)) by lia. done.
Qed.

Lemma mutf8_length a : (length a <= length (mutf8 a))%nat.
Proof.
  induction a as [|x a IH]; [done|]. unfold mutf8 in *. cbn [map concat length]. rewrite length_app.
  pose proof (unit_length x). lia.
Qed.

(** Utf8Cmp, which slicer sorts the string pool with, compares any two
    strings the generator wrote by their UTF-16 units, as the DEX format
    requires, whatever characters they hold (NUL included). *)
Theorem Utf8Cmp_orders_units a b r1 r2 :
  Forall (in_u 16) a -> Forall (in_u 16) b ->
  Utf8Cmp (mutf8 a ++ 0 :: r1) (mutf8 b ++ 0 :: r2) = Some (unit_order a b).
Proof.
  intros. apply cmp_loop_units; [done..|]. rewrite length_app. pose proof (mutf8_length a). simpl. lia.
Qed.

Lemma Utf8Cmp_orders_units_witness : Utf8Cmp (mutf8 [0x41; 0; 0x20ac] ++ [0]) (mutf8 [0x41; 0; 0xd83d; 0xde00] ++ [0]) = Some (0x20ac - 0xd83d).
Proof. apply (Utf8Cmp_orders_units [0x41; 0; 0x20ac] [0x41; 0; 0xd83d; 0xde00] [] []); by apply (bool_decide_unpack _). Defined.

(** ** string_data_item *)
Lemma leb_last x : 0 <= x < 0 + 0x80 -> U8 (x & 0x7f) = x /\ (0x7f <? x) = false.
Proof. intros. range_check 0 0x80. Qed.
Lemma leb_more x : 0 <= x < 0 + 0x80 -> (0x7f <? U8 (x .| 0x80)) = true /\ U8 (x .| 0x80) & 0x7f = x.
Proof. intros. range_check 0 0x80. Qed.

Lemma leb_digit d : U8 (d & 0x7f) = d mod 128.
Proof.
  change 0x7f with (2 ^ 7 - 1). rewrite land_mask by done. apply wrap_small. unfold in_u, wrap. Z.to_euclidean_division_equations; lia.
Qed.

Lemma uleb_loop_step fuel d : 0 <= d ->
  uleb_loop (S fuel) d = if d <? 128 then [d] else U8 (d mod 128 .| 0x80) :: uleb_loop fuel (d / 128).
Proof.
  intros Hd. cbn [uleb_loop]. rewrite leb_digit, Z.shiftr_div_pow2 by done. change (2 ^ 7) with 128.
  destruct (Z.ltb_spec d 128).
  - rewrite Z.mod_small, Z.eqb_refl by lia. done.
  - rewrite (proj2 (Z.eqb_neq _ _)) by (Z.to_euclidean_division_equations; lia). done.
Qed.

Lemma land_digit x : 0 <= x < 128 -> x & 127 = x.
Proof. intros H. change 127 with (2 ^ 7 - 1). rewrite land_mask by done. by apply wrap_small. Qed.
Lemma lor_digit k lo hi : 0 <= k -> in_u k lo -> lo .| (hi << k) = lo + hi * 2 ^ k.
Proof. intros. rewrite Z.lor_comm, lor_shiftl_add by done. lia. Qed.

Lemma ReadULeb128_write n rest : 0 <= n < 2 ^ 28 ->
  ReadULeb128 (WriteULeb128 n ++ rest) = Some (n, rest) /\ (length (WriteULeb128 n) <= 4)%nat.
Proof.
  intros Hn. unfold WriteULeb128.
  assert (Hm : forall d, 0 <= d mod 128 < 0 + 0x80) by (intros d; Z.to_euclidean_division_equations; lia).
  rewrite uleb_loop_step by lia. destruct (Z.ltb_spec n 128); [|
  rewrite uleb_loop_step by (Z.to_euclidean_division_equations; lia); destruct (Z.ltb_spec (n / 128) 128); [|
  rewrite uleb_loop_step by (Z.to_euclidean_division_equations; lia); destruct (Z.ltb_spec (n / 128 / 128) 128); [|
  rewrite uleb_loop_step by (Z.to_euclidean_division_equations; lia);
  rewrite (proj2 (Z.ltb_lt (n / 128 / 128 / 128) 128)) by (Z.to_euclidean_division_equations; lia)]]];
  (split; [|simpl; lia]); unfold ReadULeb128; cbn [app head_tail mbind option_bind].
  all: repeat match goal with
    | |- context [U8 (?d mod 128 .| 128)] =>
        let H1 := fresh in let H2 := fresh in
        destruct (leb_more (d mod 128) (Hm d)) as [H1 H2]; rewrite ?H1, ?H2; cbn [negb]; clear H1 H2; generalize (U8 (d mod 128 .| 128)); intros ?
    | |- context [(0x7f <? ?x)] => destruct (leb_last x) as [_ ->]; [Z.to_euclidean_division_equations; lia|]; cbn [negb]
    end.
  all: rewrite ?land_digit by (Z.to_euclidean_division_equations; lia).
  all: rewrite ?(lor_digit 7) by (done || (unfold in_u; Z.to_euclidean_division_equations; lia)).
  all: rewrite ?(lor_digit 14) by (done || (unfold in_u; Z.to_euclidean_division_equations; lia)).
  all: rewrite ?(lor_digit 21) by (done || (unfold in_u; Z.to_euclidean_division_equations; lia)).
  all: do 2 f_equal; Z.to_euclidean_division_equations; lia.
Qed.

(** What the reader of a pool sees: the units before the terminator. *)
Fixpoint decode_units (fuel : nat) (p : list Z) : option (list Z) :=
  match fuel with
  | O => None
  | S fuel =>
      '(c, _) ← head_tail p;
      if c =? 0 then Some [] else '(u, p) ← GetUtf16FromUtf8 p; us ← decode_units fuel p; Some (u :: us)
  end.

Lemma decode_mutf8 units : forall fuel rest, Forall (in_u 16) units -> (length units < fuel)%nat ->
  decode_units fuel (mutf8 units ++ 0 :: rest) = Some units.
Proof.
  induction units as [|u units IH]; intros fuel rest Hu Hf; (destruct fuel as [|fuel]; [simpl in Hf; lia|]); [done|].
  inversion_clear Hu. destruct (string_step u units (0 :: rest)) as (c & t & Hh & Hc & Hr); [done|].
  cbn [decode_units]. rewrite Hh. cbn [mbind option_bind]. rewrite (proj2 (Z.eqb_neq c 0)), Hr by done. cbn [mbind option_bind].
  simpl in Hf. by rewrite IH by (done || lia).
Qed.

Lemma utf16_units cps : Forall code_point cps -> Forall (in_u 16) (encode16 cps).
Proof.
  induction 1 as [|cp cps Hcp _ IH]; [constructor|]. change (encode16 (cp :: cps)) with (utf16 cp ++ encode16 cps).
  apply Forall_app. split; [|done]. unfold code_point, utf16 in *.
  destruct (Z.ltb_spec cp 0x10000); repeat constructor; unfold in_u; Z.to_euclidean_division_equations; lia.
Qed.

(** C40: A string put in the image is read back as it was given: for text in
    UTF-8 of fewer than 2^28 units, the string_data_item holds the number of
    its UTF-16 units and then the units, supplementary characters as
    surrogate pairs, up to a terminator no character can be taken for. *)
Theorem string_data_item_reads cps :
  Forall code_point cps -> Z.of_nat (length (encode16 cps)) < 2 ^ 28 ->
  exists data chars,
    string_data_item (encode8 cps) = Some data /\
    ReadULeb128 data = Some (Z.of_nat (length (encode16 cps)), chars) /\ c_str data = Some chars /\
    decode_units (S (length chars)) chars = Some (encode16 cps).
Proof.
  intros Hcps Hlen. unfold string_data_item, string_units, PushULeb128. rewrite Utf8ToUtf16_encode8 by done. cbn [default from_option id].
  rewrite (wrap_small 32) by (unfold in_u; lia).
  destruct (ReadULeb128_write (Z.of_nat (length (encode16 cps))) (mutf8 (encode16 cps) ++ [0])) as [Hr Hl]; [lia|].
  rewrite bool_decide_eq_true_2 by done. do 2 eexists. split_and!; [done|exact Hr|unfold c_str; by rewrite Hr|].
  apply decode_mutf8; [by apply utf16_units|]. rewrite length_app. pose proof (mutf8_length (encode16 cps)). lia.
Qed.

Lemma string_data_item_reads_witness : exists data chars,
    string_data_item (encode8 [0x48; 0; 0x20ac; 0x1f600]) = Some data /\
    ReadULeb128 data = Some (5, chars) /\ c_str data = Some chars /\
    decode_units (S (length chars)) chars = Some [0x48; 0; 0x20ac; 0xd83d; 0xde00].
Proof. apply (string_data_item_reads [0x48; 0; 0x20ac; 0x1f600]); [|by vm_compute]. unfold code_point. repeat constructor; lia. Defined.

(** An overlong sequence is not refused: "A" in two bytes is "A". *)
Example overlong_accepted : Utf8ToUtf16 [0xc1; 0x81] = Utf8ToUtf16 (str "A").
Proof. reflexivity. Qed.
End DexUtfProofs.
