(* ===== verification/DexGen.v ===== *)
(** * The DEX generator (src/dex/pi_dex_gen.cpp)

    Descriptors and signatures, and class Builder, which interns strings,
    types, prototypes, methods and fields in an ir::DexFile and adds classes
    to it.  A pointer to a node is its position in the pool's vector; its
    [orig_index] is the one IndexMap allocated.  The sorting of the pools and
    the layout of the file (ir::DexFile::Normalize, dex::Writer) are not
    modelled. *)
From stdpp Require Import gmap.
From S2P Require Import Prelude.
From S2P Require Import SlicerIsa.
From S2P Require Import DexUtf.
From S2P Require Import DexWriter.
From S2P Require Import DexAsm.

Module DexGen.
Export DexUtf.
Local Open Scope Z_scope.

(** ** Descriptors and signatures *)
Definition IsPrimitiveChar (c : Z) : bool := bool_decide (c ∈ str "VZBSCIJFD").

(** The characters [c] at the front, and the rest. *)
Fixpoint span (c : Z) (s : list Z) : list Z * list Z :=
  match s with
  | x :: t => if x =? c then let '(a, b) := span c t in (x :: a, b) else ([], s)
  | [] => ([], [])
  end.

(** The descriptor at the front of [s] and what follows it. *)
Definition ReadDescriptor (s : list Z) : option (list Z * list Z) :=
  let '(brackets, p) := span 91 s in
  match p with
  | [] => None
  | c :: rest =>
      if IsPrimitiveChar c then
        match brackets with [] => Some ([c], rest) | _ => None end
      else if c =? 76 then
        match DexWriter.cut_at 59 p with
        | Some (body, semi :: rest) =>
            if bool_decide (length body = 1%nat) then None else Some (brackets ++ body ++ [semi], rest)
        | _ => None
        end
      else None
  end.

(** The parameters up to ")" and what follows; each takes a character, so
    their number is fuel enough. *)
Fixpoint read_params (fuel : nat) (s : list Z) : option (list (list Z) * list Z) :=
  match s, fuel with
  | [], _ => None
  | _, O => None
  | c :: rest, S fuel =>
      if c =? 41 then Some ([], rest)
      else
        '(t, s) ← ReadDescriptor s;
        '(ts, s) ← read_params fuel s;
        Some (t :: ts, s)
  end.

(** ParseSignature: the return type and the parameters. *)
Definition ParseSignature (sig : list Z) : option (list Z * list (list Z)) :=
  if bool_decide (length sig < 3)%nat then None
  else
    match sig with
    | 40 :: s =>
        '(params, s) ← read_params (length s) s;
        '(ret, s) ← ReadDescriptor s;
        match s with [] => Some (ret, params) | _ => None end
    | _ => None
    end.

Definition is_wide (a : list Z) : bool := streq a (str "J") || streq a (str "D") || streq a (str "long") || streq a (str "double").
Definition CalculateInsWords (params : list (list Z)) (is_static : bool) : Z :=
  fold_left (fun words a => U16 (words + (if is_wide a then 2 else 1))) params (if is_static then 0 else 1).

Definition ToDescriptor (type : list Z) : list Z :=
  match type with
  | [] => type
  | c :: t =>
      if (c =? 76) && (List.last type 0 =? 59) then type
      else if c =? 91 then type
      else if bool_decide (t = []) && IsPrimitiveChar c then type
      else str "L" ++ DexWriter.slashes type ++ str ";"
  end.

Definition ValidateSignature (signature : list Z) : option (list Z) :=
  match ParseSignature signature with
  | None => Some (str "malformed signature: " ++ signature)
  | Some _ => None
  end.

Definition in_range (a b c : Z) : bool := (a <=? c) && (c <=? b).
Definition identifier_char (c : Z) : bool :=
  in_range 97 122 c || in_range 65 90 c || in_range 48 57 c || (c =? 95) || (c =? 36).
Definition hex_digit (d : Z) : Z := if d <? 10 then 48 + d else 87 + d.
Fixpoint until_nul (s : list Z) : list Z := match s with [] => [] | c :: t => if c =? 0 then [] else c :: until_nul t end.

(** The snprintf into 96 bytes. *)
Definition illegal_character (c : Z) (name : list Z) : list Z :=
  take 95 (str "illegal character 0x" ++ [hex_digit (c / 16); hex_digit (c mod 16)] ++
           str " in identifier '" ++ until_nul name ++ str "'").

Definition ValidateIdentifier (name : list Z) : option (list Z) :=
  match name with
  | [] => Some (str "empty identifier")
  | _ =>
      DexAsm.first_error (fun c =>
        if identifier_char c then None
        else if streq name (str "<init>") || streq name (str "<clinit>") then None
        else Some (illegal_character c name)) name
  end.

(** ** dex::DescriptorToShorty, on the bytes of a C string; a failed check
    aborts, since no guard is set here. *)
Definition byte_at (s : list Z) (i : nat) : Z := nth i (s ++ [0]) 0.
Definition DescriptorToShorty (descriptor : list Z) : SlicerIsa.outcome Z :=
  let '(brackets, d) := span 91 (until_nul descriptor) in
  let short_descriptor := byte_at d 0 in
  d ← (if short_descriptor =? 76 then
         match DexWriter.cut_at 59 d with Some (_, d) => SlicerIsa.Ret d | None => SlicerIsa.Stop end
       else SlicerIsa.Ret d);
  if negb (byte_at d 1 =? 0) then SlicerIsa.Stop
  else if negb ((short_descriptor =? 76) || IsPrimitiveChar short_descriptor) then SlicerIsa.Stop
  else SlicerIsa.Ret (match brackets with [] => short_descriptor | _ => 76 end).

(** ** ir::IndexMap

    The position is a u4; pools have fewer than 2^32 nodes. *)
Record IndexMap := MkIndexMap { indexes_map_ : list bool; alloc_pos_ : Z }.
Definition fresh_IndexMap : IndexMap := MkIndexMap [] 0.

Fixpoint skip_used (m : list bool) (pos : Z) : Z :=
  match m with
  | true :: m => skip_used m (pos + 1)
  | _ => pos
  end.
Definition MarkUsedIndex (m : IndexMap) (index : Z) : SlicerIsa.outcome IndexMap :=
  let l := indexes_map_ m in
  let l := l ++ replicate (Z.to_nat (index + 1) - length l) false in
  match zset l index true, l !!z index with
  | Some l', Some false => SlicerIsa.Ret (MkIndexMap l' (alloc_pos_ m))
  | _, _ => SlicerIsa.Stop
  end.
Definition AllocateIndex (m : IndexMap) : SlicerIsa.outcome (Z * IndexMap) :=
  let pos := skip_used (drop (Z.to_nat (alloc_pos_ m)) (indexes_map_ m)) (alloc_pos_ m) in
  m ← MarkUsedIndex (MkIndexMap (indexes_map_ m) pos) pos;
  SlicerIsa.Ret (pos, MkIndexMap (indexes_map_ m) (pos + 1)).


(** ** Pools

    [nodes] is the vector of ir::DexFile (filled by Alloc), with the
    orig_index of each; [by_index] its map from indexes; [cache] the map of
    Builder. *)
Abbreviation ptr := nat.
Record Pool (A : Type) := MkPool {
  nodes : list (A * Z);
  indexes : IndexMap;
  by_index : gmap Z ptr;
  cache : gmap (list Z) ptr
}.
#[global] Arguments MkPool {A}.
#[global] Arguments nodes {A}.
#[global] Arguments indexes {A}.
#[global] Arguments by_index {A}.
#[global] Arguments cache {A}.
Definition empty_Pool {A} : Pool A := MkPool [] fresh_IndexMap ∅ ∅.

(** Alloc, AllocateIndex, and the two maps. *)
Definition add_node {A} (pool : Pool A) (key : list Z) (node : A) : SlicerIsa.outcome (ptr * Pool A) :=
  let p := length (nodes pool) in
  '(new_index, ix) ← AllocateIndex (indexes pool);
  SlicerIsa.Ret (p, MkPool (nodes pool ++ [(node, new_index)]) ix (<[new_index := p]> (by_index pool)) (<[key := p]> (cache pool))).

Definition get_node {A} (pool : Pool A) (p : ptr) : SlicerIsa.outcome A := SlicerIsa.deref (option_map fst (nodes pool !! p)).
Definition orig_index {A} (pool : Pool A) (p : ptr) : SlicerIsa.outcome Z := SlicerIsa.deref (option_map snd (nodes pool !! p)).

(** ** IR nodes *)
Record ProtoNode := MkProto { return_type : ptr; param_types : option (list ptr); shorty : ptr }.
Record MethodNode := MkMethod { method_name : ptr; prototype : ptr; method_parent : ptr }.
Record FieldNode := MkField { field_name : ptr; field_type : ptr; field_parent : ptr }.

Record EncodedField := MkEncodedField { field_decl : ptr; field_flags : Z }.
Record Code := MkCode { registers : Z; ins_count : Z; outs_count : Z; instructions : list Z }.
Record EncodedMethod := MkEncodedMethod { method_decl : ptr; method_flags : Z; code : option Code }.

Inductive EncodedValue :=
  | EncodedString (string_value : ptr)
  | EncodedBoolean (bool_value : bool)
  | EncodedLong (long_value : Z)
  | EncodedInt (int_value : Z)
  | EncodedNull.

Record ClassNode := MkClass {
  class_type : ptr;
  class_flags : Z;
  super_class : option ptr;
  interfaces : option (list ptr);
  static_fields : list EncodedField;
  instance_fields : list EncodedField;
  direct_methods : list EncodedMethod;
  virtual_methods : list EncodedMethod;
  static_init : option (list EncodedValue)
}.

(** ** Specifications (pi_dex_gen.h) *)
Definition ACC_PUBLIC : Z := 0x0001.
Definition ACC_PRIVATE : Z := 0x0002.
Definition ACC_STATIC : Z := 0x0008.
Definition ACC_NATIVE : Z := 0x0100.

Record MethodSpec := MkMethodSpec {
  ms_name : list Z;
  ms_signature : list Z;
  ms_access_flags : Z;
  is_static : bool;
  is_constructor : bool;
  ms_writer : option DexWriter.Writer
}.
Inductive Kind := KNone | KInt | KLong | KBool | KString.
Record FieldSpec := MkFieldSpec {
  fs_name : list Z;
  fs_type : list Z;
  fs_access_flags : Z;
  fs_kind : Kind;
  fs_long_value : Z;
  fs_bool_value : bool;
  fs_string_value : list Z
}.
Record ClassSpec := MkClassSpec {
  cs_name : list Z;
  cs_superclass : list Z;
  cs_interfaces : list (list Z);
  cs_fields : list FieldSpec;
  cs_methods : list MethodSpec
}.

(** ** Builder

    [class_defs] is the class_def pointer of the types that have one. *)
Record Builder := MkBuilder {
  strings : Pool (list Z);
  types : Pool ptr;
  protos : Pool ProtoNode;
  methods : Pool MethodNode;
  fields : Pool FieldNode;
  classes : gmap (list Z) ClassNode;
  class_defs : gmap ptr (list Z);
  field_specs : gmap (list Z) FieldSpec
}.
Definition new_Builder : Builder := MkBuilder empty_Pool empty_Pool empty_Pool empty_Pool empty_Pool ∅ ∅ ∅.

Definition with_strings (b : Builder) p := MkBuilder p (types b) (protos b) (methods b) (fields b) (classes b) (class_defs b) (field_specs b).
Definition with_types (b : Builder) p := MkBuilder (strings b) p (protos b) (methods b) (fields b) (classes b) (class_defs b) (field_specs b).
Definition with_protos (b : Builder) p := MkBuilder (strings b) (types b) p (methods b) (fields b) (classes b) (class_defs b) (field_specs b).
Definition with_methods (b : Builder) p := MkBuilder (strings b) (types b) (protos b) p (fields b) (classes b) (class_defs b) (field_specs b).
Definition with_fields (b : Builder) p := MkBuilder (strings b) (types b) (protos b) (methods b) p (classes b) (class_defs b) (field_specs b).

Definition B (A : Type) : Type := Builder -> SlicerIsa.outcome (A * Builder).
#[export] Instance B_ret : MRet B := fun A a b => SlicerIsa.Ret (a, b).
#[export] Instance B_bind : MBind B := fun A C f m b => '(a, b) ← m b; f a b.
Definition stop {A} : B A := fun _ => SlicerIsa.Stop.

Definition Str (value : list Z) : B ptr := fun b =>
  match cache (strings b) !! value with
  | Some p => SlicerIsa.Ret (p, b)
  | None =>
      match string_data_item value with
      | None => SlicerIsa.Stop
      | Some data => '(p, pool) ← add_node (strings b) value data; SlicerIsa.Ret (p, with_strings b pool)
      end
  end.

Definition Type_ (raw : list Z) : B ptr :=
  let descriptor := ToDescriptor raw in
  fun b =>
    match cache (types b) !! descriptor with
    | Some p => SlicerIsa.Ret (p, b)
    | None =>
        '(d, b) ← Str descriptor b;
        '(p, pool) ← add_node (types b) descriptor d;
        SlicerIsa.Ret (p, with_types b pool)
    end.

(** A std::string from c_str() of the string node. *)
Definition text_of (b : Builder) (s : ptr) : SlicerIsa.outcome (list Z) :=
  data ← get_node (strings b) s;
  chars ← SlicerIsa.deref (c_str data);
  SlicerIsa.Ret (until_nul chars).
Definition descriptor_of (b : Builder) (t : ptr) : SlicerIsa.outcome (list Z) := s ← get_node (types b) t; text_of b s.


(** The parameters of a prototype: their types and shorty characters. *)
Fixpoint Params (params : list (list Z)) : B (list ptr * list Z) :=
  match params with
  | [] => mret ([], [])
  | p :: rest =>
      let d := ToDescriptor p in
      t ← Type_ d;
      c ← (fun b => c ← DescriptorToShorty d; SlicerIsa.Ret (c, b));
      '(ts, cs) ← Params rest;
      mret (t :: ts, c :: cs)
  end.

(** [None] is nullptr. *)
Definition Proto (signature : list Z) : B (option ptr) := fun b =>
  match cache (protos b) !! signature with
  | Some p => SlicerIsa.Ret (Some p, b)
  | None =>
      match ParseSignature signature with
      | None => SlicerIsa.Ret (None, b)
      | Some (ret, params) =>
          '(rt, b) ← Type_ ret b;
          c ← DescriptorToShorty (ToDescriptor ret);
          '(ts, cs, b) ← Params params b;
          '(sh, b) ← Str (c :: cs) b;
          let param_types := match params with [] => None | _ => Some ts end in
          '(p, pool) ← add_node (protos b) signature (MkProto rt param_types sh);
          SlicerIsa.Ret (Some p, with_protos b pool)
      end
  end.

Fixpoint descriptors_of (b : Builder) (ts : list ptr) : SlicerIsa.outcome (list Z) :=
  match ts with
  | [] => SlicerIsa.Ret []
  | t :: ts => d ← descriptor_of b t; ds ← descriptors_of b ts; SlicerIsa.Ret (d ++ ds)
  end.
(** ir::Proto::Signature *)
Definition Signature (b : Builder) (p : ptr) : SlicerIsa.outcome (list Z) :=
  proto ← get_node (protos b) p;
  params ← descriptors_of b (default [] (param_types proto));
  ret ← descriptor_of b (return_type proto);
  SlicerIsa.Ret (str "(" ++ params ++ str ")" ++ ret).

(** A null prototype is dereferenced. *)
Definition MethodDecl (parent : ptr) (name : list Z) (proto : option ptr) : B ptr := fun b =>
  match proto with
  | None => SlicerIsa.Stop
  | Some proto =>
      pd ← descriptor_of b parent;
      sig ← Signature b proto;
      let key := pd ++ str "->" ++ name ++ sig in
      match cache (methods b) !! key with
      | Some p => SlicerIsa.Ret (p, b)
      | None =>
          '(n, b) ← Str name b;
          '(p, pool) ← add_node (methods b) key (MkMethod n proto parent);
          SlicerIsa.Ret (p, with_methods b pool)
      end
  end.

Definition FieldDecl (parent : ptr) (name : list Z) (type : ptr) : B ptr := fun b =>
  pd ← descriptor_of b parent;
  td ← descriptor_of b type;
  let key := pd ++ str "->" ++ name ++ str ":" ++ td in
  match cache (fields b) !! key with
  | Some p => SlicerIsa.Ret (p, b)
  | None =>
      '(n, b) ← Str name b;
      '(p, pool) ← add_node (fields b) key (MkField n type parent);
      SlicerIsa.Ret (p, with_fields b pool)
  end.

(** ** The context of an assembled method

    The arguments of MethodDecl and FieldDecl are evaluated from the left,
    as clang does. *)
Definition with_index {A} (pool : Builder -> Pool A) (m : B ptr) : Builder -> SlicerIsa.outcome (Z * Builder) := fun b =>
  '(p, b) ← m b; i ← orig_index (pool b) p; SlicerIsa.Ret (i, b).

Definition builder_context : DexAsm.IrContext Builder :=
  DexAsm.MkContext Builder
    (fun s => with_index strings (Str s))
    (fun t => with_index types (Type_ t))
    (fun parent name type => with_index fields (p ← Type_ parent; t ← Type_ type; FieldDecl p name t))
    (fun parent name sig => with_index methods (p ← Type_ parent; pr ← Proto sig; MethodDecl p name pr)).

(** ** AddClass

    The value of a step that may return false with a message; [None] is
    slicer's own message. *)
Definition Step (A : Type) : Type := B (A + option (list Z)).
Definition and_then {A C} (m : Step A) (f : A -> Step C) : Step C := fun b =>
  '(r, b) ← m b;
  match r with inl a => f a b | inr e => SlicerIsa.Ret (inr e, b) end.
Local Notation "x <-- m ;; f" := (and_then m (fun x => f)) (at level 100, m at next level, right associativity).
Definition ok {A} (a : A) : Step A := fun b => SlicerIsa.Ret (inl a, b).
Definition fail {A} (message : list Z) : Step A := fun b => SlicerIsa.Ret (inr (Some message), b).
Definition lift {A} (m : B A) : Step A := fun b => '(a, b) ← m b; SlicerIsa.Ret (inl a, b).
Definition check (error : option (list Z)) : Step unit := match error with Some e => fail e | None => ok () end.
Definition modify (f : Builder -> Builder) : Step unit := fun b => SlicerIsa.Ret (inl (), f b).

Definition field_key (desc name : list Z) : list Z := desc ++ str "#" ++ name.
Definition set_field_spec (key : list Z) (f : FieldSpec) (b : Builder) : Builder :=
  MkBuilder (strings b) (types b) (protos b) (methods b) (fields b) (classes b) (class_defs b) (<[key := f]> (field_specs b)).
Definition set_class (desc : list Z) (c : ClassNode) (b : Builder) : Builder :=
  MkBuilder (strings b) (types b) (protos b) (methods b) (fields b) (<[desc := c]> (classes b)) (class_defs b) (field_specs b).
Definition set_class_def (t : ptr) (desc : list Z) (b : Builder) : Builder :=
  MkBuilder (strings b) (types b) (protos b) (methods b) (fields b) (classes b) (<[t := desc]> (class_defs b)) (field_specs b).

Fixpoint add_interfaces (spec_name desc : list Z) (ifaces : list (list Z)) : Step (list ptr) :=
  match ifaces with
  | [] => ok []
  | iface :: rest =>
      let d := ToDescriptor iface in
      if streq d desc then fail (str "class implements itself: " ++ spec_name)
      else
        t <-- lift (Type_ d);;
        ts <-- add_interfaces spec_name desc rest;;
        ok (t :: ts)
  end.

Definition has_flag (flags bit : Z) : bool := negb (Z.land flags bit =? 0).

(** The loop over the fields: static and instance ones. *)
Fixpoint add_fields (desc : list Z) (class_type : ptr) (fs : list FieldSpec) : Step (list EncodedField * list EncodedField) :=
  match fs with
  | [] => ok ([], [])
  | f :: rest =>
      _ <-- check (ValidateIdentifier (fs_name f));;
      decl <-- lift (t ← Type_ (fs_type f); FieldDecl class_type (fs_name f) t);;
      _ <-- lift (match fs_kind f with KString => _ ← Str (fs_string_value f); mret () | _ => mret () end);;
      let encoded := MkEncodedField decl (fs_access_flags f) in
      _ <-- modify (set_field_spec (field_key desc (fs_name f)) f);;
      r <-- add_fields desc class_type rest;;
      ok (if has_flag (fs_access_flags f) ACC_STATIC then (encoded :: r.1, r.2) else (r.1, encoded :: r.2))
  end.

(** A method's body: bytecode assembled from the writer, or a native stub. *)
Definition method_body (m : MethodSpec) : Step (Z * option Code) :=
  match ms_writer m with
  | Some w =>
      if bool_decide (DexWriter.GetBytecodeInstructionCount w = 0%nat) then
        fail (str "empty bytecode writer for method " ++ ms_name m ++ ms_signature m)
      else
        fun b =>
          match DexAsm.AssembleInto w (Some builder_context) (Some ()) (Some ()) b with
          | (DexAsm.Assembled instructions outs, Some b) =>
              SlicerIsa.Ret (inl (Z.ldiff (ms_access_flags m) ACC_NATIVE,
                                  Some (MkCode (DexWriter.registers_ w) (DexWriter.ins_ w) outs instructions)), b)
          | (DexAsm.Error message, Some b) => SlicerIsa.Ret (inr (Some message), b)
          | (DexAsm.SlicerError, Some b) => SlicerIsa.Ret (inr None, b)
          | _ => SlicerIsa.Stop
          end
  | None => ok (Z.lor (ms_access_flags m) ACC_NATIVE, None)
  end.

Definition is_direct (m : MethodSpec) : bool := is_static m || is_constructor m || has_flag (ms_access_flags m) ACC_PRIVATE.

Fixpoint add_methods (class_type : ptr) (ms : list MethodSpec) : Step (list EncodedMethod * list EncodedMethod) :=
  match ms with
  | [] => ok ([], [])
  | m :: rest =>
      _ <-- check (ValidateIdentifier (ms_name m));;
      proto <-- lift (Proto (ms_signature m));;
      match proto with
      | None => fail (str "malformed signature for " ++ ms_name m ++ str ": " ++ ms_signature m)
      | Some _ =>
          decl <-- lift (MethodDecl class_type (ms_name m) proto);;
          body <-- method_body m;;
          let encoded := MkEncodedMethod decl body.1 body.2 in
          r <-- add_methods class_type rest;;
          ok (if is_direct m then (encoded :: r.1, r.2) else (r.1, encoded :: r.2))
      end
  end.

Definition AddClass (spec : ClassSpec) : Step unit := fun b =>
  let desc := ToDescriptor (cs_name spec) in
  match classes b !! desc with
  | Some _ => fail (str "duplicate class: " ++ cs_name spec) b
  | None =>
      (class_type <-- lift (Type_ desc);;
       _ <-- modify (set_class_def class_type desc);;
       let super_desc := ToDescriptor (cs_superclass spec) in
       super <-- (if streq super_desc desc then ok None else lift (t ← Type_ super_desc; mret (Some t)));;
       ifaces <-- (match cs_interfaces spec with
                   | [] => ok None
                   | l => ts <-- add_interfaces (cs_name spec) desc l;; ok (Some ts)
                   end);;
       fs <-- add_fields desc class_type (cs_fields spec);;
       ms <-- add_methods class_type (cs_methods spec);;
       modify (set_class desc (MkClass class_type (Z.lor ACC_PUBLIC 0x0020) super ifaces fs.1 fs.2 ms.1 ms.2 None))) b
  end.

(** ** Static initial values *)
Definition ValueFor (f : FieldSpec) : B EncodedValue :=
  match fs_kind f with
  | KString => s ← Str (fs_string_value f); mret (EncodedString s)
  | _ =>
      let c := match ToDescriptor (fs_type f) with [] => 73 | c :: _ => c end in
      let integer := if c =? 74 then EncodedLong (fs_long_value f) else EncodedInt (S32 (fs_long_value f)) in
      mret
        match fs_kind f with
        | KBool => EncodedBoolean (fs_bool_value f)
        | KLong | KInt => integer
        | _ =>
            if (c =? 76) || (c =? 91) then EncodedNull
            else if c =? 74 then EncodedLong 0
            else if c =? 90 then EncodedBoolean false
            else EncodedInt 0
        end
  end.

(** The values of a class's static fields, in the order of the list; a field
    without a specification is skipped, with an error message. *)
Fixpoint static_values (desc : list Z) (fs : list EncodedField) : B (list EncodedValue) :=
  match fs with
  | [] => mret []
  | f :: rest => fun b =>
      node ← get_node (fields b) (field_decl f);
      name ← text_of b (field_name node);
      match field_specs b !! field_key desc name with
      | None => static_values desc rest b
      | Some spec => '(v, b) ← ValueFor spec b; '(vs, b) ← static_values desc rest b; SlicerIsa.Ret (v :: vs, b)
      end
  end.

(** ** BuildDex up to the finished IR *)
Definition duplicate_class (spec : ClassSpec) : list Z := str "duplicate class: " ++ cs_name spec.
Definition valid_class (desc : list Z) : bool :=
  negb (bool_decide (length desc < 3)%nat || negb (List.hd 0 desc =? 76) || negb (List.last desc 0 =? 59)).

Fixpoint add_classes (seen : gset (list Z)) (specs : list ClassSpec) : Step unit :=
  match specs with
  | [] => ok ()
  | spec :: rest =>
      let desc := ToDescriptor (cs_name spec) in
      if bool_decide (desc ∈ seen) then fail (duplicate_class spec)
      else if negb (valid_class desc) then fail (str "invalid class name: " ++ cs_name spec)
      else
        _ <-- AddClass spec;;
        add_classes ({[desc]} ∪ seen) rest
  end.

Definition build_ir (specs : list ClassSpec) : SlicerIsa.outcome ((unit + option (list Z)) * Builder) :=
  match specs with
  | [] => fail (str "no classes to generate") new_Builder
  | _ => add_classes ∅ specs new_Builder
  end.

End DexGen.
