(* ===== verification/DexGenProofs.v ===== *)
(** * Signatures and interning in the DEX generator

    [ParseSignature] accepts exactly its grammar.  [builder_interns]: the
    context AssembleInto gets gives a reference one index for ever. *)
From stdpp Require Import gmap.
From S2P Require Import Prelude.
From S2P Require Import SlicerIsa.
From S2P Require Import DexWriter.
From S2P Require Import DexTextProofs.
From S2P Require Import DexAsm.
From S2P Require Import DexGen.

Module DexGenProofs.
Export DexGen.
Local Open Scope Z_scope.

(** ** The grammar of signatures *)
Inductive readable : list Z -> Prop :=
  | readable_primitive c : IsPrimitiveChar c = true -> readable [c]
  | readable_class k body : 59 ∉ body -> body <> [] -> readable (replicate k 91 ++ 76 :: body ++ [59]).

Lemma span_spec c s : exists k, s = replicate k c ++ (span c s).2 /\ (span c s).1 = replicate k c /\ List.hd (c + 1) (span c s).2 <> c.
Proof.
  induction s as [|x s (k & Es & E1 & Eh)]; [exists O; split_and!; simpl; (done || lia)|]. simpl.
  destruct (Z.eqb_spec x c) as [->|Hx]; [|by exists O].
  destruct (span c s) as [a b]. simpl in *. exists (S k). simpl. by rewrite <- Es, E1.
Qed.

Lemma span_replicate c k s : List.hd (c + 1) s <> c -> span c (replicate k c ++ s) = (replicate k c, s).
Proof.
  intros Hs. induction k as [|k IH]; simpl.
  - destruct s as [|x s]; [done|]. simpl in *. by rewrite (proj2 (Z.eqb_neq x c)).
  - by rewrite Z.eqb_refl, IH.
Qed.

Lemma cut_at_inv c s : forall a b, DexWriter.cut_at c s = Some (a, b) -> (c ∉ a) /\ exists t, b = c :: t /\ s = a ++ b.
Proof.
  induction s as [|x s IH]; simpl; [done|]. intros a b.
  destruct (Z.eqb_spec x c) as [->|Hx]; [intros [= <- <-]; split; [set_solver|eauto]|].
  destruct (DexWriter.cut_at c s) as [[a' b']|]; [|done]. intros [= <- <-].
  destruct (IH a' b' eq_refl) as (? & t & -> & ->). split; [by apply not_elem_of_cons|eauto].
Qed.

Lemma primitive_not c : IsPrimitiveChar c = true -> c <> 91 /\ c <> 76 /\ c <> 41.
Proof. intros H. by split_and!; intros ->. Qed.

Lemma ReadDescriptor_spec s d rest : ReadDescriptor s = Some (d, rest) <-> readable d /\ s = d ++ rest.
Proof.
  split.
  - unfold ReadDescriptor. destruct (span_spec 91 s) as (k & Es & E1 & _). destruct (span 91 s) as [brackets p]. simpl in *. subst brackets.
    destruct p as [|c p]; [done|]. destruct (IsPrimitiveChar c) eqn:Hp.
    + destruct k; [|done]. intros [= <- <-]. split; [by constructor|done].
    + destruct (Z.eqb_spec c 76) as [->|]; [|done].
      destruct (DexWriter.cut_at 59 (76 :: p)) as [[body [|semi r]]|] eqn:Ec; [done| |done].
      apply cut_at_inv in Ec as (Hb & t & [= -> ->] & E). case_bool_decide as Hl; [done|]. intros [= <- <-].
      destruct body as [|x body]; [done|]. injection E as <- ->.
      split; [|by rewrite Es, <- app_assoc; simpl; rewrite <- app_assoc].
      apply (readable_class k body); [by apply not_elem_of_cons in Hb as [_ ?]|by intros ->].
  - intros [[c Hc|k body Hb Hne] ->]; unfold ReadDescriptor.
    + destruct (primitive_not c Hc) as (H1 & _). simpl. rewrite (proj2 (Z.eqb_neq c 91)) by done. by rewrite Hc.
    + rewrite <- app_assoc. cbn [app]. rewrite span_replicate by done. change (IsPrimitiveChar 76) with false.
      change (76 =? 76) with true. cbv iota. rewrite <- app_assoc. cbn [app].
      change (76 :: body ++ 59 :: rest) with ((76 :: body) ++ 59 :: rest).
      rewrite (DexTextProofs.cut_at_app 59 (76 :: body)) by (by apply not_elem_of_cons).
      by rewrite bool_decide_eq_false_2 by (by destruct body).
Qed.

Lemma readable_cons d : readable d -> exists c t, d = c :: t /\ c <> 41.
Proof.
  intros [c Hc|k body _ _]; [exists c, []; split; [done|by apply primitive_not]|].
  destruct k; simpl; eauto.
Qed.

Lemma read_params_spec fuel : forall s ts rest, (length s <= fuel)%nat ->
  read_params fuel s = Some (ts, rest) <-> Forall readable ts /\ s = concat ts ++ 41 :: rest.
Proof.
  induction fuel as [|fuel IH]; intros s ts rest Hf.
  { destruct s; [|simpl in Hf; lia]. split; [done|]. intros [_ H]. by destruct (concat ts). }
  destruct s as [|c s]; [split; [done|intros [_ H]; by destruct (concat ts)]|]. cbn [read_params].
  destruct (Z.eqb_spec c 41) as [->|Hc].
  - split; [intros [= <- <-]; by split; [constructor|]|]. intros [Hts E].
    destruct ts as [|t ts]; [by injection E as <-|]. inversion_clear Hts as [|? ? Ht _].
    destruct (readable_cons t Ht) as (x & u & -> & Hx). simpl in E. congruence.
  - split.
    + destruct (ReadDescriptor (c :: s)) as [[t s']|] eqn:Er; [|done]. cbn [mbind option_bind].
      apply ReadDescriptor_spec in Er as [Ht Es]. destruct (readable_cons t Ht) as (x & u & -> & _).
      destruct (read_params fuel s') as [[ts' r]|] eqn:Ep; [|done]. intros [= <- <-].
      apply IH in Ep as [Hts ->]; [|apply (f_equal length) in Es; rewrite length_app in Es; simpl in *; lia].
      split; [by constructor|]. rewrite Es. simpl. by rewrite <- app_assoc.
    + intros [Hts E]. destruct ts as [|t ts]; [by injection E as -> ->|]. inversion_clear Hts as [|? ? Ht Hts'].
      simpl in E. rewrite <- app_assoc in E.
      rewrite (proj2 (ReadDescriptor_spec _ t (concat ts ++ 41 :: rest)) (conj Ht E)). cbn [mbind option_bind].
      destruct (readable_cons t Ht) as (x & u & -> & _).
      assert (Hl : Nat.le (length (concat ts ++ 41 :: rest)) fuel).
      { apply (f_equal length) in E. rewrite length_app in E. simpl in *. lia. }
      by rewrite (proj2 (IH _ ts rest Hl)).
Qed.

Lemma ParseSignature_iff sig ret params :
  ParseSignature sig = Some (ret, params) <->
  Forall readable params /\ readable ret /\ sig = str "(" ++ concat params ++ str ")" ++ ret.
Proof.
  unfold ParseSignature. split.
  - case_bool_decide; [done|]. destruct sig as [|c s]; [done|].
    destruct (decide (c = 40)) as [->|]; [|by repeat (case_match; try done)].
    destruct (read_params (length s) s) as [[ps r]|] eqn:Ep; [|done]. cbn [mbind option_bind].
    destruct (ReadDescriptor r) as [[d r']|] eqn:Er; [|done]. cbn [mbind option_bind]. destruct r'; [|done]. intros [= <- <-].
    apply read_params_spec in Ep as [? ->]; [|done]. apply ReadDescriptor_spec in Er as [? ->]. by rewrite app_nil_r.
  - intros (Hps & Hret & ->). change (str "(" ++ concat params ++ str ")" ++ ret) with (40 :: concat params ++ 41 :: ret).
    destruct (readable_cons ret Hret) as (x & u & E & _).
    rewrite bool_decide_eq_false_2 by (rewrite E; simpl; rewrite length_app; simpl; lia).
    rewrite (proj2 (read_params_spec _ (concat params ++ 41 :: ret) params ret ltac:(done))) by done. cbn [mbind option_bind].
    rewrite (proj2 (ReadDescriptor_spec ret ret [])) by (by rewrite app_nil_r). done.
Qed.

Lemma readable_ToDescriptor d : readable d -> ToDescriptor d = d.
Proof.
  intros [c Hc|k body _ _].
  - destruct (primitive_not c Hc) as (H1 & H2 & _). unfold ToDescriptor.
    rewrite (proj2 (Z.eqb_neq c 76)), (proj2 (Z.eqb_neq c 91)) by done. by rewrite Hc.
  - destruct k as [|k]; [|done]. unfold ToDescriptor. cbn [replicate app]. by rewrite app_comm_cons, List.last_last.
Qed.

(** ParseSignature accepts exactly "(" parameters ")" return type, each a
    primitive's letter or a class or an array of classes, and gives back the
    return type and the parameters it was written with, which ToDescriptor
    leaves as they are. *)
Theorem ParseSignature_spec sig ret params :
  (ParseSignature sig = Some (ret, params) <->
   Forall readable params /\ readable ret /\ sig = str "(" ++ concat params ++ str ")" ++ ret) /\
  (ParseSignature sig = Some (ret, params) -> map ToDescriptor (ret :: params) = ret :: params).
Proof.
  split; [apply ParseSignature_iff|]. intros (Hps & Hret & _)%ParseSignature_iff. simpl. rewrite readable_ToDescriptor by done.
  f_equal. induction Hps; simpl; [done|]. by rewrite readable_ToDescriptor, IHHps.
Qed.

Lemma ParseSignature_spec_witness :
  map ToDescriptor [str "V"; str "I"; str "[La/B;"] = [str "V"; str "I"; str "[La/B;"].
Proof. by apply (ParseSignature_spec (str "(I[La/B;)V") (str "V") [str "I"; str "[La/B;"]). Defined.

(** Arrays of primitives are refused. *)
Example primitive_array_refused : ParseSignature (str "([I)V") = None.
Proof. reflexivity. Qed.

(** ** Pools *)
Record pool_ok {A} (pool : Pool A) : Prop := {
  pool_indexes : indexes pool = MkIndexMap (replicate (length (nodes pool)) true) (Z.of_nat (length (nodes pool)));
  pool_orig : forall p n i, nodes pool !! p = Some (n, i) -> i = Z.of_nat p;
  pool_cache : forall key p, cache pool !! key = Some p -> (p < length (nodes pool))%nat;
  pool_keys : forall k k' p, cache pool !! k = Some p -> cache pool !! k' = Some p -> k = k'
}.

(** [pool'] has more nodes and knows more keys. *)
Record pool_ext {A} (pool pool' : Pool A) : Prop := {
  ext_nodes : nodes pool `prefix_of` nodes pool';
  ext_cache : cache pool ⊆ cache pool'
}.

#[export] Instance pool_ext_preorder A : PreOrder (@pool_ext A).
Proof.
  split.
  - intros pool. by split.
  - intros p1 p2 p3 [? ?] [? ?]. split; by etrans.
Qed.

Lemma AllocateIndex_next n :
  AllocateIndex (MkIndexMap (replicate n true) (Z.of_nat n)) =
    SlicerIsa.Ret (Z.of_nat n, MkIndexMap (replicate (S n) true) (Z.of_nat (S n))).
Proof.
  unfold AllocateIndex. cbn [indexes_map_ alloc_pos_]. rewrite Nat2Z.id, drop_ge by (by rewrite length_replicate). cbn [skip_used].
  unfold MarkUsedIndex. cbn [indexes_map_ alloc_pos_]. rewrite length_replicate.
  replace (Z.to_nat (Z.of_nat n + 1) - n)%nat with 1%nat by lia. cbn [replicate].
  rewrite zset_Some by (rewrite length_app, length_replicate; simpl; lia).
  unfold zlookup. rewrite (proj2 (Z.leb_le _ _)) by lia. rewrite Nat2Z.id.
  rewrite lookup_app_r, length_replicate, Nat.sub_diag by (by rewrite length_replicate). cbn [lookup list_lookup mbind SlicerIsa.outcome_bind].
  rewrite insert_app_r_alt, length_replicate, Nat.sub_diag by (by rewrite length_replicate).
  change (true :: replicate n true) with (replicate (S n) true). rewrite replicate_S_end. cbn. do 3 f_equal. lia.
Qed.

Lemma add_node_ok {A} (pool : Pool A) key node :
  pool_ok pool -> cache pool !! key = None ->
  exists pool', add_node pool key node = SlicerIsa.Ret (length (nodes pool), pool') /\
    nodes pool' = nodes pool ++ [(node, Z.of_nat (length (nodes pool)))] /\
    cache pool' = <[key := length (nodes pool)]> (cache pool) /\ pool_ok pool' /\ pool_ext pool pool'.
Proof.
  intros [Hix Horig Hcache Hkeys] Hkey. unfold add_node. rewrite Hix, AllocateIndex_next. cbn [mbind SlicerIsa.outcome_bind].
  eexists. split_and!; [done..| |split; simpl; [by eexists|by apply insert_subseteq]].
  split; simpl.
  - by rewrite length_app, Nat.add_1_r.
  - intros p n i Hp. apply lookup_app_Some in Hp as [Hp|[Hl Hp]]; [by eapply Horig|].
    destruct (p - length (nodes pool))%nat eqn:E; [|done]. simpl in Hp. simplify_eq. lia.
  - intros k p. rewrite length_app. simpl. intros [[<- <-]|[_ Hp]]%lookup_insert_Some; [lia|]. apply Hcache in Hp. lia.
  - intros k k' p [[<- <-]|[? H1]]%lookup_insert_Some [[<- E]|[? H2]]%lookup_insert_Some; try done; [..|by eapply Hkeys].
    + apply Hcache in H2. lia.
    + subst p. apply Hcache in H1. lia.
Qed.

Lemma get_node_ext {A} (pool pool' : Pool A) p n : pool_ext pool pool' -> get_node pool p = SlicerIsa.Ret n -> get_node pool' p = SlicerIsa.Ret n.
Proof.
  intros [Hn _]. unfold get_node. destruct (nodes pool !! p) as [[n' i]|] eqn:E; [|done].
  by rewrite (prefix_lookup_Some _ _ _ _ E Hn).
Qed.

Lemma orig_index_ok {A} (pool : Pool A) p : pool_ok pool -> (p < length (nodes pool))%nat -> orig_index pool p = SlicerIsa.Ret (Z.of_nat p).
Proof.
  intros Hok Hp. unfold orig_index. destruct (lookup_lt_is_Some_2 _ _ Hp) as [[n i] E]. rewrite E. simpl. by rewrite (pool_orig _ Hok _ _ _ E).
Qed.

Lemma pool_ext_length {A} (pool pool' : Pool A) : pool_ext pool pool' -> (length (nodes pool) <= length (nodes pool'))%nat.
Proof. intros [[l ->] _]. rewrite length_app. lia. Qed.

(** ** The builder *)
Record ext (b b' : Builder) : Prop := {
  ext_strings : pool_ext (strings b) (strings b');
  ext_types : pool_ext (types b) (types b');
  ext_protos : pool_ext (protos b) (protos b');
  ext_methods : pool_ext (methods b) (methods b');
  ext_fields : pool_ext (fields b) (fields b')
}.
#[export] Instance ext_preorder : PreOrder ext.
Proof.
  split; [by intros b; split|]. intros b1 b2 b3 [] []. by split; etrans.
Qed.

(** The shorty: the return type's character, then the parameters'. *)
Fixpoint shorty_of (ds : list (list Z)) : SlicerIsa.outcome (list Z) :=
  match ds with
  | [] => SlicerIsa.Ret []
  | d :: ds => c ← DescriptorToShorty d; cs ← shorty_of ds; SlicerIsa.Ret (c :: cs)
  end.

(** What the node cached under a key is. *)
Definition string_node (b : Builder) (v : list Z) (p : ptr) : Prop :=
  exists data, string_data_item v = Some data /\ get_node (strings b) p = SlicerIsa.Ret data.
Definition type_node (b : Builder) (d : list Z) (p : ptr) : Prop :=
  exists q, get_node (types b) p = SlicerIsa.Ret q /\ cache (strings b) !! d = Some q.
Definition proto_node (b : Builder) (sig : list Z) (p : ptr) : Prop :=
  exists ret params node cs,
    ParseSignature sig = Some (ret, params) /\ get_node (protos b) p = SlicerIsa.Ret node /\
    cache (types b) !! ret = Some (return_type node) /\
    Forall2 (fun d t => cache (types b) !! d = Some t) params (default [] (param_types node)) /\
    shorty_of (ret :: params) = SlicerIsa.Ret cs /\ cache (strings b) !! cs = Some (shorty node).
Definition method_node (b : Builder) (key : list Z) (p : ptr) : Prop :=
  exists node pd name sig,
    get_node (methods b) p = SlicerIsa.Ret node /\ descriptor_of b (method_parent node) = SlicerIsa.Ret pd /\
    Signature b (prototype node) = SlicerIsa.Ret sig /\ cache (strings b) !! name = Some (method_name node) /\
    key = pd ++ str "->" ++ name ++ sig.
Definition field_node (b : Builder) (key : list Z) (p : ptr) : Prop :=
  exists node pd name td,
    get_node (fields b) p = SlicerIsa.Ret node /\ descriptor_of b (field_parent node) = SlicerIsa.Ret pd /\
    descriptor_of b (field_type node) = SlicerIsa.Ret td /\ cache (strings b) !! name = Some (field_name node) /\
    key = pd ++ str "->" ++ name ++ str ":" ++ td.

Record builder_ok (b : Builder) : Prop := {
  ok_strings : pool_ok (strings b) /\ forall v p, cache (strings b) !! v = Some p -> string_node b v p;
  ok_types : pool_ok (types b) /\ forall d p, cache (types b) !! d = Some p -> type_node b d p;
  ok_protos : pool_ok (protos b) /\ forall s p, cache (protos b) !! s = Some p -> proto_node b s p;
  ok_methods : pool_ok (methods b) /\ forall k p, cache (methods b) !! k = Some p -> method_node b k p;
  ok_fields : pool_ok (fields b) /\ forall k p, cache (fields b) !! k = Some p -> field_node b k p
}.

Section Mono.
Context (b b' : Builder) (Hext : ext b b').

Lemma cache_ext {A} (pool : Builder -> Pool A) k p :
  pool_ext (pool b) (pool b') -> cache (pool b) !! k = Some p -> cache (pool b') !! k = Some p.
Proof. intros [_ H] Hk. exact (lookup_weaken _ _ _ _ Hk H). Qed.

Lemma text_of_ext s t : text_of b s = SlicerIsa.Ret t -> text_of b' s = SlicerIsa.Ret t.
Proof.
  unfold text_of. intros H. destruct (get_node (strings b) s) as [d| |] eqn:E; try done.
  by rewrite (get_node_ext _ _ _ _ (ext_strings _ _ Hext) E).
Qed.
Lemma descriptor_of_ext t d : descriptor_of b t = SlicerIsa.Ret d -> descriptor_of b' t = SlicerIsa.Ret d.
Proof.
  unfold descriptor_of. intros H. destruct (get_node (types b) t) as [s| |] eqn:E; try done.
  rewrite (get_node_ext _ _ _ _ (ext_types _ _ Hext) E). by apply text_of_ext.
Qed.
Lemma descriptors_of_ext ts : forall ds, descriptors_of b ts = SlicerIsa.Ret ds -> descriptors_of b' ts = SlicerIsa.Ret ds.
Proof.
  induction ts as [|t ts IH]; intros ds H; [done|]. simpl in *.
  destruct (descriptor_of b t) as [d| |] eqn:Ed; try done. destruct (descriptors_of b ts) as [ds'| |]; try done.
  by rewrite (descriptor_of_ext _ _ Ed), (IH _ eq_refl).
Qed.
Lemma Signature_ext p s : Signature b p = SlicerIsa.Ret s -> Signature b' p = SlicerIsa.Ret s.
Proof.
  unfold Signature. intros H. destruct (get_node (protos b) p) as [n| |] eqn:E; try done.
  rewrite (get_node_ext _ _ _ _ (ext_protos _ _ Hext) E). simpl in *.
  destruct (descriptors_of b _) as [ds| |] eqn:Eds; try done. rewrite (descriptors_of_ext _ _ Eds). simpl in *.
  destruct (descriptor_of b _) as [d| |] eqn:Ed; try done. by rewrite (descriptor_of_ext _ _ Ed).
Qed.

Lemma string_node_ext v p : string_node b v p -> string_node b' v p.
Proof. intros (d & ? & ?). exists d. split; [done|]. by eapply get_node_ext; [apply Hext|]. Qed.
Lemma type_node_ext v p : type_node b v p -> type_node b' v p.
Proof.
  intros (d & ? & ?). exists d. split; [by eapply get_node_ext; [apply Hext|]|]. apply (cache_ext strings); [apply Hext|done].
Qed.
Lemma proto_node_ext v p : proto_node b v p -> proto_node b' v p.
Proof.
  intros (ret & params & n & cs & ? & ? & ? & Hps & ? & ?). exists ret, params, n, cs. split_and!; [done|..|done|].
  - by eapply get_node_ext; [apply Hext|].
  - apply (cache_ext types); [apply Hext|done].
  - revert Hps. apply Forall2_impl. intros d t. apply (cache_ext types), Hext.
  - apply (cache_ext strings); [apply Hext|done].
Qed.
Lemma method_node_ext v p : method_node b v p -> method_node b' v p.
Proof.
  intros (n & pd & name & sig & ? & ? & ? & ? & ?). exists n, pd, name, sig. split_and!; [..|done].
  - by eapply get_node_ext; [apply Hext|].
  - by apply descriptor_of_ext.
  - by apply Signature_ext.
  - apply (cache_ext strings); [apply Hext|done].
Qed.
Lemma field_node_ext v p : field_node b v p -> field_node b' v p.
Proof.
  intros (n & pd & name & sig & ? & ? & ? & ? & ?). exists n, pd, name, sig. split_and!; [..|done].
  - by eapply get_node_ext; [apply Hext|].
  - by apply descriptor_of_ext.
  - by apply descriptor_of_ext.
  - apply (cache_ext strings); [apply Hext|done].
Qed.
End Mono.

Abbreviation always := (fun _ : Builder => True).

(** Interning: from [P] an operation keeps the builder well-formed, extends
    it, establishes [Q], and when asked again later answers the same and
    changes nothing. *)
Definition interns {A} (P : Builder -> Prop) (m : B A) (Q : A -> Builder -> Prop) : Prop :=
  forall b a b', builder_ok b -> P b -> m b = SlicerIsa.Ret (a, b') ->
    builder_ok b' /\ ext b b' /\ Q a b' /\ forall b2, builder_ok b2 -> ext b' b2 -> m b2 = SlicerIsa.Ret (a, b2).

Definition mono (P : Builder -> Prop) : Prop := forall b b', ext b b' -> P b -> P b'.

Lemma interns_ret {A} (Q : A -> Builder -> Prop) (a : A) : interns (Q a) (mret a) Q.
Proof. intros b a' b' Hok HP [= <- <-]. by split_and!. Qed.

Lemma interns_bind {A C} P Q R (m : B A) (f : A -> B C) :
  interns P m Q -> (forall a, interns (Q a) (f a) R) -> interns P (m ≫= f) R.
Proof.
  intros Hm Hf b c b' Hok HP H. unfold mbind, B_bind in H. destruct (m b) as [[a b1]| |] eqn:Em; try done. simpl in H.
  destruct (Hm _ _ _ Hok HP Em) as (Hok1 & He1 & HQ & Hs1). destruct (Hf a _ _ _ Hok1 HQ H) as (Hok2 & He2 & HR & Hs2).
  split_and!; [done|by etrans|done|]. intros b2 Hok' He. unfold mbind, B_bind. rewrite (Hs1 b2) by (done || by etrans). simpl. by apply Hs2.
Qed.

Lemma interns_frame {A} P R (m : B A) Q : mono R -> interns P m Q -> interns (fun b => P b /\ R b) m (fun a b => Q a b /\ R b).
Proof.
  intros HR Hm b a b' Hok [HP Hr] H. destruct (Hm _ _ _ Hok HP H) as (? & ? & ? & ?). split_and!; try done. by eapply HR.
Qed.

Lemma interns_weaken {A} (P P' : Builder -> Prop) (m : B A) (Q Q' : A -> Builder -> Prop) :
  (forall b, P' b -> P b) -> (forall a b, Q a b -> Q' a b) -> interns P m Q -> interns P' m Q'.
Proof. intros HP HQ Hm b a b' Hok Hp H. destruct (Hm _ _ _ Hok (HP _ Hp) H) as (? & ? & ? & ?). split_and!; auto. Qed.

(** A computation that only looks. *)
Lemma interns_pure {A} P (o : SlicerIsa.outcome A) : interns P (fun b => c ← o; SlicerIsa.Ret (c, b)) (fun c b => P b /\ o = SlicerIsa.Ret c).
Proof.
  intros b a b' Hok HP H. destruct o; try done. injection H as <- <-. by split_and!.
Qed.

(** Adding a node to a pool keeps the builder well-formed, once the node is
    what its key says. *)
Section Grow.
Context (b : Builder) (Hok : builder_ok b).

(** The facts [add_node_ok] gives. *)
Record grown {A} (pool pool' : Pool A) (key : list Z) (node : A) : Prop := {
  grown_nodes : nodes pool' = nodes pool ++ [(node, Z.of_nat (length (nodes pool)))];
  grown_cache : cache pool' = <[key := length (nodes pool)]> (cache pool);
  grown_ok : pool_ok pool';
  grown_ext : pool_ext pool pool'
}.

Lemma grown_hit {A} (pool pool' : Pool A) key node : grown pool pool' key node ->
  cache pool' !! key = Some (length (nodes pool)) /\ get_node pool' (length (nodes pool)) = SlicerIsa.Ret node.
Proof.
  intros [Hn Hc _ _]. rewrite Hc, lookup_insert_eq. split; [done|]. unfold get_node. by rewrite Hn, lookup_app_r, Nat.sub_diag.
Qed.

Lemma add_node_grown {A} (pool : Pool A) key node p pool' :
  pool_ok pool -> cache pool !! key = None -> add_node pool key node = SlicerIsa.Ret (p, pool') ->
  p = length (nodes pool) /\ grown pool pool' key node.
Proof.
  intros Hp Hk H. destruct (add_node_ok pool key node Hp Hk) as (pool2 & Ea & ? & ? & ? & ?).
  rewrite Ea in H. injection H as <- <-. done.
Qed.

Ltac grow :=
  intros [Hn Hc Hpok Hpext] Hnode;
  match goal with |- _ /\ ext ?b ?b' => assert (He : ext b b') by (by split) end;
  split; [|done]; destruct Hok as [[? Hs] [? Ht] [? Hp] [? Hm] [? Hf]];
  split; (split; [done|]); simpl; intros k p;
  rewrite ?Hc; try (intros [[<- <-]|[_ ?]]%lookup_insert_Some; [done|]); intros;
  first [by eapply string_node_ext, Hs|by eapply type_node_ext, Ht|by eapply proto_node_ext, Hp
        |by eapply method_node_ext, Hm|by eapply field_node_ext, Hf].

Lemma ok_with_strings pool v data : grown (strings b) pool v data ->
  string_node (with_strings b pool) v (length (nodes (strings b))) ->
  builder_ok (with_strings b pool) /\ ext b (with_strings b pool).
Proof. grow. Qed.
Lemma ok_with_types pool d q : grown (types b) pool d q ->
  type_node (with_types b pool) d (length (nodes (types b))) ->
  builder_ok (with_types b pool) /\ ext b (with_types b pool).
Proof. grow. Qed.
Lemma ok_with_protos pool sig q : grown (protos b) pool sig q ->
  proto_node (with_protos b pool) sig (length (nodes (protos b))) ->
  builder_ok (with_protos b pool) /\ ext b (with_protos b pool).
Proof. grow. Qed.
Lemma ok_with_methods pool key q : grown (methods b) pool key q ->
  method_node (with_methods b pool) key (length (nodes (methods b))) ->
  builder_ok (with_methods b pool) /\ ext b (with_methods b pool).
Proof. grow. Qed.
Lemma ok_with_fields pool key q : grown (fields b) pool key q ->
  field_node (with_fields b pool) key (length (nodes (fields b))) ->
  builder_ok (with_fields b pool) /\ ext b (with_fields b pool).
Proof. grow. Qed.
End Grow.

Lemma Str_interns v : interns always (Str v) (fun p b => cache (strings b) !! v = Some p).
Proof.
  intros b p b' Hok _ H. unfold Str in H. destruct (cache (strings b) !! v) as [p'|] eqn:Ec.
  - injection H as <- <-. split_and!; [done..|]. intros b2 _ He. unfold Str. by rewrite (cache_ext _ _ strings _ _ (ext_strings _ _ He) Ec).
  - destruct (string_data_item v) as [data|] eqn:Ed; [|done].
    destruct (add_node (strings b) v data) as [[p' pool]| |] eqn:Ea; [|done..]. injection H as <- <-.
    apply add_node_grown in Ea as [-> Hg]; [|apply Hok|done]. destruct (grown_hit _ _ _ _ Hg) as [Hhit Hget].
    destruct (ok_with_strings b Hok pool v data Hg) as [? ?]; [by exists data|].
    split_and!; [done..|]. intros b2 _ He. unfold Str. by rewrite (cache_ext _ _ strings _ _ (ext_strings _ _ He) Hhit).
Qed.

Lemma Str_frame v b p b' : Str v b = SlicerIsa.Ret (p, b') -> exists pool, b' = with_strings b pool.
Proof.
  unfold Str. destruct (cache (strings b) !! v); [intros [= <- <-]; exists (strings b); by destruct b|].
  destruct (string_data_item v); [|done]. destruct (add_node _ _ _) as [[? pool]| |]; [|done..]. intros [= <- <-]. by exists pool.
Qed.

Lemma Type_interns raw : interns always (Type_ raw) (fun p b => cache (types b) !! ToDescriptor raw = Some p).
Proof.
  intros b p b' Hok _ H. unfold Type_ in H. set (d := ToDescriptor raw) in *.
  destruct (cache (types b) !! d) as [p'|] eqn:Ec.
  - injection H as <- <-. split_and!; [done..|]. intros b2 _ He. unfold Type_. fold d.
    by rewrite (cache_ext _ _ types _ _ (ext_types _ _ He) Ec).
  - destruct (Str d b) as [[q b1]| |] eqn:Es; [|done..]. simpl in H.
    destruct (Str_interns d _ _ _ Hok I Es) as (Hok1 & He1 & Hq & _). destruct (Str_frame _ _ _ _ Es) as [ps ->].
    destruct (add_node _ d q) as [[p' pool]| |] eqn:Ea; [|done..]. injection H as <- <-.
    apply add_node_grown in Ea as [-> Hg]; [|apply Hok1|done]. destruct (grown_hit _ _ _ _ Hg) as [Hhit Hget].
    destruct (ok_with_types _ Hok1 pool d q Hg) as [Hok2 He2]; [by exists q|].
    split_and!; [done|by etrans|done|]. intros b2 _ He. unfold Type_. fold d.
    by rewrite (cache_ext _ _ types _ _ (ext_types _ _ He) Hhit).
Qed.

Lemma Type_frame raw b p b' : Type_ raw b = SlicerIsa.Ret (p, b') -> protos b' = protos b /\ methods b' = methods b /\ fields b' = fields b.
Proof.
  unfold Type_. destruct (cache _ !! _); [by intros [= <- <-]|].
  destruct (Str _ b) as [[q b1]| |] eqn:Es; [|done..]. apply Str_frame in Es as [ps ->]. simpl.
  destruct (add_node _ _ _) as [[? pool]| |]; [|done..]. by intros [= <- <-].
Qed.

Lemma mono_types d t : mono (fun b => cache (types b) !! d = Some t).
Proof. intros b b' He. apply (cache_ext b b' types), He. Qed.

Lemma mono_strings d t : mono (fun b => cache (strings b) !! d = Some t).
Proof. intros b b' He. apply (cache_ext b b' strings), He. Qed.

Definition params_known (ps : list (list Z)) (r : list ptr * list Z) (b : Builder) : Prop :=
  Forall2 (fun d t => cache (types b) !! d = Some t) (map ToDescriptor (map ToDescriptor ps)) r.1 /\
  shorty_of (map ToDescriptor ps) = SlicerIsa.Ret r.2.

Lemma Params_interns ps : interns always (Params ps) (params_known ps).
Proof.
  induction ps as [|d ps IH]; cbn [Params].
  { eapply interns_weaken; [|intros a b H; exact H|apply interns_ret]. intros b _. by split. }
  eapply interns_bind; [apply Type_interns|]. intros t.
  eapply interns_bind; [apply interns_pure|]. intros c.
  eapply interns_bind; [eapply interns_weaken; [|intros a b H; exact H|apply interns_frame; [|exact IH]]|].
  - intros b H. split; [done|exact H].
  - intros b b' He [H ?]. split; [by eapply mono_types|done].
  - intros [ts cs]. eapply interns_weaken; [|intros a b H; exact H|apply interns_ret].
    intros b [[Hts Hcs] [Ht Hc]]. split; simpl in *; [by constructor|]. by rewrite Hc, Hcs.
Qed.

Lemma Params_frame ps : forall b r b', Params ps b = SlicerIsa.Ret (r, b') -> protos b' = protos b /\ methods b' = methods b /\ fields b' = fields b.
Proof.
  induction ps as [|d ps IH]; intros b r b' H; [by injection H as <- <-|].
  cbn [Params] in H. unfold mbind, B_bind in H.
  destruct (Type_ _ b) as [[t b1]| |] eqn:Et; [|done..]. cbn in H. destruct (DescriptorToShorty _) as [c| |]; [|done..]. cbn in H.
  destruct (Params ps b1) as [[[ts cs] b2]| |] eqn:Ep; [|done..]. injection H as <- <-.
  apply Type_frame in Et as (<- & <- & <-). by eapply IH.
Qed.

Lemma map_ToDescriptor ps : Forall readable ps -> map ToDescriptor ps = ps.
Proof. induction 1; simpl; [done|]. by rewrite readable_ToDescriptor, IHForall. Qed.

Definition proto_known (sig : list Z) (r : option ptr) (b : Builder) : Prop :=
  match r with Some p => cache (protos b) !! sig = Some p | None => ParseSignature sig = None end.

Lemma Proto_interns sig : interns always (Proto sig) (proto_known sig).
Proof.
  intros b r b' Hok _ H. unfold Proto in H. destruct (cache (protos b) !! sig) as [p|] eqn:Ec.
  { injection H as <- <-. split_and!; [done..|]. intros b2 _ He. unfold Proto.
    by rewrite (cache_ext _ _ protos _ _ (ext_protos _ _ He) Ec). }
  destruct (ParseSignature sig) as [[ret params]|] eqn:Ep.
  2: { injection H as <- <-. split_and!; [done..|]. intros b2 [_ _ [_ Hp] _ _] He. unfold Proto. rewrite Ep.
       destruct (cache (protos b2) !! sig) as [p|] eqn:E2; [|done]. destruct (Hp _ _ E2) as (? & ? & ? & ? & ? & _). congruence. }
  destruct (proj1 (ParseSignature_iff _ _ _) Ep) as (Hps & Hret & _).
  destruct (Type_ ret b) as [[rt b1]| |] eqn:Et; [|done..]. destruct (Type_interns ret _ _ _ Hok I Et) as (Hok1 & He1 & Hrt & _).
  apply Type_frame in Et as [Hf1 _]. rewrite readable_ToDescriptor in * by done. cbn in H.
  destruct (DescriptorToShorty ret) as [c| |] eqn:Ed; [|done..]. cbn in H.
  destruct (Params params b1) as [[[ts cs] b2]| |] eqn:Epar; [|done..].
  destruct (Params_interns params _ _ _ Hok1 I Epar) as (Hok2 & He2 & [Hts Hcs] & _). apply Params_frame in Epar as [Hf2 _].
  rewrite !map_ToDescriptor in * by (rewrite ?map_ToDescriptor by done; done). cbn in H, Hts, Hcs.
  destruct (Str (c :: cs) b2) as [[sh b3]| |] eqn:Es; [|done..]. destruct (Str_interns _ _ _ _ Hok2 I Es) as (Hok3 & He3 & Hsh & _).
  apply Str_frame in Es as [pool3 E3]. cbn in H.
  destruct (add_node (protos b3) sig _) as [[p pool]| |] eqn:Ea; [|done..]. injection H as <- <-.
  assert (Hp3 : protos b3 = protos b) by (rewrite E3; simpl; congruence).
  apply add_node_grown in Ea as [-> Hg]; [|apply Hok3|by rewrite Hp3]. destruct (grown_hit _ _ _ _ Hg) as [Hhit Hget].
  destruct (ok_with_protos _ Hok3 pool _ _ Hg) as [Hok4 He4].
  { exists ret, params, (MkProto rt (match params with [] => None | _ => Some ts end) sh), (c :: cs).
    assert (He13 : ext b1 b3) by (by etrans). split_and!; [done..| | | |done].
    - exact (mono_types ret rt b1 b3 He13 Hrt).
    - assert (Hd : default [] (match params with [] => None | _ => Some ts end) = ts).
      { destruct params; [|done]. by inversion Hts. }
      simpl. rewrite Hd. revert Hts. apply Forall2_impl. intros d t Hd'. exact (mono_types d t b2 b3 He3 Hd').
    - simpl. by rewrite Ed, Hcs. }
  split_and!; [done|by repeat (etrans; [eassumption|])|done|]. intros b5 _ He. unfold Proto.
  by rewrite (cache_ext _ _ protos _ _ (ext_protos _ _ He) Hhit).
Qed.

Lemma MethodDecl_interns parent name proto :
  interns always (MethodDecl parent name proto) (fun p b => exists key, cache (methods b) !! key = Some p).
Proof.
  intros b p b' Hok _ H. unfold MethodDecl in H. destruct proto as [proto|]; [|done].
  destruct (descriptor_of b parent) as [pd| |] eqn:Epd; [|done..]. cbn [mbind SlicerIsa.outcome_bind] in H.
  destruct (Signature b proto) as [sig| |] eqn:Esig; [|done..]. cbn [mbind SlicerIsa.outcome_bind] in H. cbv zeta in H.
  set (key := pd ++ str "->" ++ name ++ sig) in H.
  assert (Hagain : forall b2 q, ext b b2 -> cache (methods b2) !! key = Some q -> MethodDecl parent name (Some proto) b2 = SlicerIsa.Ret (q, b2)).
  { intros b2 q He Hq. unfold MethodDecl. rewrite (descriptor_of_ext _ _ He _ _ Epd). cbn [mbind SlicerIsa.outcome_bind].
    rewrite (Signature_ext _ _ He _ _ Esig). cbn [mbind SlicerIsa.outcome_bind]. cbv zeta. fold key. by rewrite Hq. }
  destruct (cache (methods b) !! key) as [q|] eqn:Ec.
  { injection H as <- <-. split_and!; [done..|by exists key|]. intros b2 _ He. apply Hagain; [done|].
    by apply (cache_ext _ _ methods _ _ (ext_methods _ _ He)). }
  destruct (Str name b) as [[n b1]| |] eqn:Es; [|done..]. destruct (Str_interns name _ _ _ Hok I Es) as (Hok1 & He1 & Hn & _).
  apply Str_frame in Es as [ps ->]. cbn [mbind SlicerIsa.outcome_bind] in H. cbv zeta in H.
  destruct (add_node _ key _) as [[q pool]| |] eqn:Ea; [|done..]. injection H as <- <-.
  apply add_node_grown in Ea as [-> Hg]; [|apply Hok1|done]. destruct (grown_hit _ _ _ _ Hg) as [Hhit Hget].
  assert (He3 : ext b (with_methods (with_strings b ps) pool)) by (destruct He1, Hg; by split).
  destruct (ok_with_methods _ Hok1 pool _ _ Hg) as [Hok2 _].
  { exists (MkMethod n proto parent), pd, name, sig. split_and!; try done.
    - exact (descriptor_of_ext _ _ He3 _ _ Epd).
    - exact (Signature_ext _ _ He3 _ _ Esig). }
  split_and!; [done..|by exists key|]. intros b2 _ He. apply Hagain; [by etrans|].
  by apply (cache_ext _ _ methods _ _ (ext_methods _ _ He)).
Qed.

Lemma FieldDecl_interns parent name type :
  interns always (FieldDecl parent name type) (fun p b => exists key, cache (fields b) !! key = Some p).
Proof.
  intros b p b' Hok _ H. unfold FieldDecl in H.
  destruct (descriptor_of b parent) as [pd| |] eqn:Epd; [|done..]. cbn [mbind SlicerIsa.outcome_bind] in H.
  destruct (descriptor_of b type) as [td| |] eqn:Etd; [|done..]. cbn [mbind SlicerIsa.outcome_bind] in H. cbv zeta in H.
  set (key := pd ++ str "->" ++ name ++ str ":" ++ td) in H.
  assert (Hagain : forall b2 q, ext b b2 -> cache (fields b2) !! key = Some q -> FieldDecl parent name type b2 = SlicerIsa.Ret (q, b2)).
  { intros b2 q He Hq. unfold FieldDecl. rewrite (descriptor_of_ext _ _ He _ _ Epd). cbn [mbind SlicerIsa.outcome_bind].
    rewrite (descriptor_of_ext _ _ He _ _ Etd). cbn [mbind SlicerIsa.outcome_bind]. cbv zeta. fold key. by rewrite Hq. }
  destruct (cache (fields b) !! key) as [q|] eqn:Ec.
  { injection H as <- <-. split_and!; [done..|by exists key|]. intros b2 _ He. apply Hagain; [done|].
    by apply (cache_ext _ _ fields _ _ (ext_fields _ _ He)). }
  destruct (Str name b) as [[n b1]| |] eqn:Es; [|done..]. destruct (Str_interns name _ _ _ Hok I Es) as (Hok1 & He1 & Hn & _).
  apply Str_frame in Es as [ps ->]. cbn [mbind SlicerIsa.outcome_bind] in H. cbv zeta in H.
  destruct (add_node _ key _) as [[q pool]| |] eqn:Ea; [|done..]. injection H as <- <-.
  apply add_node_grown in Ea as [-> Hg]; [|apply Hok1|done]. destruct (grown_hit _ _ _ _ Hg) as [Hhit Hget].
  assert (He3 : ext b (with_fields (with_strings b ps) pool)) by (destruct He1, Hg; by split).
  destruct (ok_with_fields _ Hok1 pool _ _ Hg) as [Hok2 _].
  { exists (MkField n type parent), pd, name, td. split_and!; try done.
    - exact (descriptor_of_ext _ _ He3 _ _ Epd).
    - exact (descriptor_of_ext _ _ He3 _ _ Etd). }
  split_and!; [done..|by exists key|]. intros b2 _ He. apply Hagain; [by etrans|].
  by apply (cache_ext _ _ fields _ _ (ext_fields _ _ He)).
Qed.

(** ** The context *)

(** What AssembleInto asks for, and the pool the index is of. *)
Inductive Request :=
  | AskString (v : list Z)
  | AskType (t : list Z)
  | AskField (parent name type : list Z)
  | AskMethod (parent name sig : list Z).
Definition ask (r : Request) : Builder -> SlicerIsa.outcome (Z * Builder) :=
  match r with
  | AskString v => DexAsm.get_str builder_context v
  | AskType t => DexAsm.get_type builder_context t
  | AskField p n t => DexAsm.get_field builder_context p n t
  | AskMethod p n g => DexAsm.get_method builder_context p n g
  end.
Definition pool_size (r : Request) (b : Builder) : nat :=
  match r with
  | AskString _ => length (nodes (strings b))
  | AskType _ => length (nodes (types b))
  | AskField _ _ _ => length (nodes (fields b))
  | AskMethod _ _ _ => length (nodes (methods b))
  end.

(** The node an index denotes is the request's. *)
Definition denotes (r : Request) (i : Z) (b : Builder) : Prop :=
  match r with
  | AskString v => cache (strings b) !! v = Some (Z.to_nat i)
  | AskType t => cache (types b) !! ToDescriptor t = Some (Z.to_nat i)
  | AskField _ _ _ => exists key, cache (fields b) !! key = Some (Z.to_nat i)
  | AskMethod _ _ _ => exists key, cache (methods b) !! key = Some (Z.to_nat i)
  end.

Lemma with_index_interns {A} (pool : Builder -> Pool A) m (Q : ptr -> Builder -> Prop) :
  (forall b, builder_ok b -> pool_ok (pool b)) -> (forall b b', ext b b' -> pool_ext (pool b) (pool b')) ->
  (forall p b, builder_ok b -> Q p b -> (p < length (nodes (pool b)))%nat) ->
  interns always m Q ->
  interns always (with_index pool m) (fun i b => 0 <= i < Z.of_nat (length (nodes (pool b))) /\ Q (Z.to_nat i) b).
Proof.
  intros Hpok Hpext Hlt Hm b i b' Hok _ H. unfold with_index in H. destruct (m b) as [[p b1]| |] eqn:Em; [|done..]. cbn in H.
  destruct (Hm _ _ _ Hok I Em) as (Hok1 & He1 & HQ & Hs). pose proof (Hlt _ _ Hok1 HQ) as Hp.
  rewrite (orig_index_ok _ _ (Hpok _ Hok1) Hp) in H. cbn in H. injection H as <- <-.
  split_and!; [done..|lia|lia|by rewrite Nat2Z.id|]. intros b2 Hok2 He. unfold with_index. rewrite (Hs b2 Hok2 He). cbn.
  rewrite (orig_index_ok _ _ (Hpok _ Hok2)); [done|]. pose proof (pool_ext_length _ _ (Hpext _ _ He)). lia.
Qed.

Lemma ask_interns r : interns always (ask r) (fun i b => 0 <= i < Z.of_nat (pool_size r b) /\ denotes r i b).
Proof.
  destruct r as [v|t|parent name type|parent name sig]; cbn [ask pool_size denotes];
    cbn [builder_context DexAsm.get_str DexAsm.get_type DexAsm.get_field DexAsm.get_method].
  - apply (with_index_interns strings _ (fun p b => cache (strings b) !! v = Some p)); [apply ok_strings|apply ext_strings| |apply Str_interns].
    intros p b [[Hok _] _ _ _ _]. apply Hok.
  - apply (with_index_interns types _ (fun p b => cache (types b) !! ToDescriptor t = Some p)); [apply ok_types|apply ext_types| |apply Type_interns].
    intros p b [_ [Hok _] _ _ _]. apply Hok.
  - apply (with_index_interns fields _ (fun p b => exists key, cache (fields b) !! key = Some p)); [apply ok_fields|apply ext_fields| |].
    + intros p b [_ _ _ _ [Hok _]] [key Hk]. by eapply Hok.
    + eapply interns_bind; [apply Type_interns|]. intros p. eapply interns_bind; [eapply interns_weaken; [..|apply Type_interns]; done|].
      intros t. eapply interns_weaken; [..|apply FieldDecl_interns]; done.
  - apply (with_index_interns methods _ (fun p b => exists key, cache (methods b) !! key = Some p)); [apply ok_methods|apply ext_methods| |].
    + intros p b [_ _ _ [Hok _] _] [key Hk]. by eapply Hok.
    + eapply interns_bind; [apply Type_interns|]. intros p. eapply interns_bind; [eapply interns_weaken; [..|apply Proto_interns]; done|].
      intros t. eapply interns_weaken; [..|apply MethodDecl_interns]; done.
Qed.


Lemma new_Builder_ok : builder_ok new_Builder.
Proof.
  assert (H : forall A, pool_ok (@empty_Pool A)).
  { intros A. split; [done|done|intros k p|intros k k' p]; cbn; by rewrite lookup_empty. }
  split; (split; [apply H|intros k p; cbn; by rewrite lookup_empty]).
Qed.


(** A reference to a method with a primitive array among its parameters has
    no prototype, and its null pointer is dereferenced. *)
Example primitive_array_crashes : ask (AskMethod (str "LLog;") (str "d") (str "([B)V")) new_Builder = SlicerIsa.Stop.
Proof. by vm_compute. Qed.

(** The same text in two encodings becomes two string nodes. *)
Example overlong_duplicates : forall i b j b', ask (AskString (str "A")) new_Builder = SlicerIsa.Ret (i, b) ->
  ask (AskString [0xc1; 0x81]) b = SlicerIsa.Ret (j, b') ->
  i <> j /\ get_node (strings b') (Z.to_nat i) = get_node (strings b') (Z.to_nat j).
Proof. intros i b j b'. vm_compute. intros [= <- <-] [= <- <-]. done. Qed.
End DexGenProofs.
