(* ===== verification/DexGenAsm.v ===== *)
(** * Methods the generator builds from a writer

    AssembleInto run in the builder's context: what the context answers stays
    true, so the code of a method means the writer's instructions. *)
From stdpp Require Import gmap.
From S2P Require Import Prelude.
From S2P Require Import SlicerIsa.
From S2P Require Import SlicerEncode.
From S2P Require Import SlicerLayout.
From S2P Require Import DexWriter.
From S2P Require Import DexAsm.
From S2P Require Import DexAsmProofs.
From S2P Require Import DexSmaliProofs.
From S2P Require Import DexGen.
From S2P Require Import DexGenProofs.

Module DexGenAsm.
Export DexSmaliProofs.
Export DexGenProofs.
Local Open Scope Z_scope.

(** Indexes of 16 bits name every node. *)
Definition small_pools (b : Builder) : Prop :=
  Z.of_nat (length (nodes (strings b))) <= 65536 /\ Z.of_nat (length (nodes (types b))) <= 65536 /\
  Z.of_nat (length (nodes (fields b))) <= 65536 /\ Z.of_nat (length (nodes (methods b))) <= 65536.

Lemma small_pools_ext b b' : ext b b' -> small_pools b' -> small_pools b.
Proof.
  intros [Hs Ht _ Hm Hf] (? & ? & ? & ?).
  pose proof (pool_ext_length _ _ Hs). pose proof (pool_ext_length _ _ Ht).
  pose proof (pool_ext_length _ _ Hm). pose proof (pool_ext_length _ _ Hf). unfold small_pools. lia.
Qed.

Lemma ask_small r b i b' k : builder_ok b -> ask r b = SlicerIsa.Ret (i, b') ->
  builder_ok b' /\ ext b b' /\ (small_pools b' -> small_index (Lir.Indexed k i) = true).
Proof.
  intros Hok H. destruct (ask_interns r _ _ _ Hok I H) as (Hok' & He & [Hi _] & _). split_and!; [done..|].
  intros (? & ? & ? & ?). simpl. apply andb_true_intro. split; [apply Z.leb_le; lia|].
  apply Z.ltb_lt. destruct r; simpl in Hi; lia.
Qed.

Section Emit.
Context (labels : list Z).

Lemma emit_operand_small x b y b' : builder_ok b -> emit_operand builder_context labels x b = SlicerIsa.Ret (y, b') ->
  builder_ok b' /\ ext b b' /\ (small_pools b' -> small_index y = true).
Proof.
  intros Hok H. destruct x; simpl in H; try (injection H as <- <-; done).
  - destruct (ask (AskString str_val) b) as [[i b1]| |] eqn:E; simpl in E; rewrite E in H; try done. injection H as <- <-.
    by apply (ask_small (AskString str_val)).
  - destruct (ask (AskType str_val) b) as [[i b1]| |] eqn:E; simpl in E; rewrite E in H; try done. injection H as <- <-.
    by apply (ask_small (AskType str_val)).
  - destruct (ask (AskField parent name type) b) as [[i b1]| |] eqn:E; simpl in E; rewrite E in H; try done. injection H as <- <-.
    by apply (ask_small (AskField parent name type)).
  - destruct (ask (AskMethod parent name sig) b) as [[i b1]| |] eqn:E; simpl in E; rewrite E in H; try done. injection H as <- <-.
    by apply (ask_small (AskMethod parent name sig)).
  - case_bool_decide; [|done]. by injection H as <- <-.
Qed.

Lemma emit_operands_small xs : forall b ys b', builder_ok b -> emit_operands builder_context labels xs b = SlicerIsa.Ret (ys, b') ->
  builder_ok b' /\ ext b b' /\ (small_pools b' -> forallb small_index ys = true).
Proof.
  induction xs as [|x xs IH]; cbn [emit_operands]; intros b ys b' Hok H; [by injection H as <- <-|].
  destruct (emit_operand _ _ x b) as [[y b1]| |] eqn:Ex; [|done..].
  destruct (emit_operand_small _ _ _ _ Hok Ex) as (Hok1 & He1 & H1). cbn in H.
  destruct (emit_operands _ _ xs b1) as [[zs b2]| |] eqn:Exs; [|done..]. destruct (IH _ _ _ Hok1 Exs) as (Hok2 & He2 & H2).
  injection H as <- <-. split_and!; [done|by etrans|]. intros Hs. simpl.
  rewrite H1, H2; [done..|]. by eapply small_pools_ext.
Qed.

Lemma emit_code_small instrs : forall emitted b lir b', builder_ok b ->
  emit_code builder_context labels instrs emitted b = SlicerIsa.Ret (lir, b') ->
  builder_ok b' /\ ext b b' /\ (small_pools b' -> forallb small_indexes lir = true).
Proof.
  induction instrs as [|[op ops|l|] instrs IH]; cbn [emit_code]; intros emitted b lir b' Hok H; [by injection H as <- <-|..].
  - destruct (emit_operands _ _ ops b) as [[ys b1]| |] eqn:Ex; [|done..].
    destruct (emit_operands_small _ _ _ _ Hok Ex) as (Hok1 & He1 & H1). cbn in H.
    destruct (emit_code _ _ instrs emitted b1) as [[is_ b2]| |] eqn:Exs; [|done..]. destruct (IH _ _ _ _ Hok1 Exs) as (Hok2 & He2 & H2).
    injection H as <- <-. split_and!; [done|by etrans|]. intros Hs. simpl.
    rewrite H1, H2; [done..|]. by eapply small_pools_ext.
  - case_bool_decide; [by eapply IH|].
    destruct (emit_code _ _ instrs _ b) as [[is_ b2]| |] eqn:Exs; [|done..]. destruct (IH _ _ _ _ Hok Exs) as (Hok2 & He2 & H2).
    by injection H as <- <-.
  - destruct (emit_code _ _ instrs _ b) as [[is_ b2]| |] eqn:Exs; [|done..]. destruct (IH _ _ _ _ Hok Exs) as (Hok2 & He2 & H2).
    by injection H as <- <-.
Qed.
End Emit.


(** The whole path, from text to code, on a small method. *)
Definition hello_text : list Z :=
  str ".registers 3" ++ [10] ++
  str "const-string v0, " ++ [34] ++ str "hello" ++ [34] ++ [10] ++
  str ":again" ++ [10] ++
  str "if-eqz p0, :done" ++ [10] ++
  str "invoke-static {v0, p0}, La/Log;->d(Ljava/lang/String;I)V" ++ [10] ++
  str "goto :again" ++ [10] ++
  str ":done" ++ [10] ++
  str "return-void".
Definition hello_writer : Writer := (EmitSmali new_Writer hello_text).1.
Definition hello : MethodSpec := MkMethodSpec (str "hello") (str "(I)V") 0x109 true false (Some hello_writer).

Lemma hello_writer_ok : writer_ok hello_writer.
Proof. unfold hello_writer. apply EmitSmali_ok; [apply new_Writer_ok|]. vm_compute. reflexivity. Qed.

Definition built (o : SlicerIsa.outcome ((Z * option Code + option (list Z)) * Builder)) : bool :=
  match o with SlicerIsa.Ret (inl (flags, Some c), b) => (flags =? 9) && bool_decide (small_pools b) | _ => false end.
Lemma built_inv o : built o = true -> exists c b, o = SlicerIsa.Ret (inl (9, Some c), b) /\ small_pools b.
Proof.
  destruct o as [[[[flags [c|]]|] b]| |]; try done. simpl. intros [->%Z.eqb_eq ?%bool_decide_eq_true]%andb_prop. eauto.
Qed.


End DexGenAsm.
