(* ===== verification/DexSeal.v ===== *)
(** * Tables and seals of a generated image

    Module DexWidths: pi_smali.cpp has a width per opcode byte, with which the
    listing and the interpreter's instructions advance; slicer derives it from
    the format in dex_instruction_list.h.  Module DexSeal: the end of BuildDex
    (src/dex/pi_dex_gen.cpp), signature and checksum, and dex::ComputeChecksum
    of external/dexter/slicer.  zlib's adler32 is a parameter. *)
From S2P Require Import Prelude.
From S2P Require Import HashSha1.
From S2P Require Import Smali.
From S2P Require Import SlicerIsa.

Module DexWidths.
Local Open Scope Z_scope.

Definition slicer_width (op : Z) : Z := SlicerIsa.GetWidthFromFormat (SlicerIsa.GetFormatFromOpcode op).

(** The two tables give every opcode the same width, except for the
    sixteen from 0xe3 to 0xf2, ART's quickened field and virtual-call
    instructions: there the disassembler has 1 where the instruction takes
    two or three units. *)
Theorem width_tables_agree op : 0 <= op < 256 ->
  (Smali.size_of_byte op = slicer_width op <-> ~ (0xe3 <= op <= 0xf2)) /\
  (0xe3 <= op <= 0xf2 -> Smali.size_of_byte op = 1 /\ 1 < slicer_width op).
Proof.
  intros Hop. assert (0 <= op < 0 + 256) by lia. clear Hop. range_check 0 256.
Qed.

Lemma width_tables_agree_witness :
  (Smali.size_of_byte 0xe3 = slicer_width 0xe3 <-> ~ (0xe3 <= 0xe3 <= 0xf2)) /\
  (0xe3 <= 0xe3 <= 0xf2 -> Smali.size_of_byte 0xe3 = 1 /\ 1 < slicer_width 0xe3).
Proof. apply (width_tables_agree 0xe3). lia. Defined.
End DexWidths.

Module DexSeal.
Local Open Scope Z_scope.

(** memcpy of [bytes] to offset [at_]. *)
Definition store (image : list Z) (at_ : nat) (bytes : list Z) : list Z :=
  take at_ image ++ bytes ++ drop (at_ + length bytes) image.
Definition field (image : list Z) (at_ n : nat) : list Z := take n (drop at_ image).

Section Seal.
Variable adler32 : Z -> option (list Z) -> Z.
(** What the stack holds before the digest is computed. *)
Variable stack : list Z.

Definition ComputeChecksum (image : list Z) : Z :=
  let file_size := le_combine (field image 32 4) in
  let adler := adler32 0 None in
  U32 (adler32 adler (Some (field image 12 (Z.to_nat (file_size - 12))))).

(** The image after its signature and its checksum have been filled in. *)
Definition seal (image : list Z) : list Z :=
  let digest := Sha1_impl.Sha1 stack (Some (drop 32 image)) (length image - 32) in
  let image := store image 12 digest in
  store image 8 (le_bytes 4 (ComputeChecksum image)).

Lemma field_store_same image at_ bytes n : (at_ <= length image)%nat -> n = length bytes -> field (store image at_ bytes) at_ n = bytes.
Proof.
  intros Hat ->. unfold field, store. rewrite drop_app_length' by (rewrite length_take; lia). by rewrite take_app_length.
Qed.
Lemma drop_store image at_ bytes k : (at_ + length bytes <= k)%nat -> (at_ <= length image)%nat -> drop k (store image at_ bytes) = drop k image.
Proof.
  intros Hk Hat. unfold store. rewrite drop_app_ge by (rewrite length_take; lia). rewrite length_take, Nat.min_l by done.
  rewrite drop_app_ge, drop_drop by lia. f_equal. lia.
Qed.
Lemma store_length image at_ bytes : (at_ + length bytes <= length image)%nat -> length (store image at_ bytes) = length image.
Proof. intros. unfold store. rewrite !length_app, length_take, length_drop. lia. Qed.
Lemma take_store image at_ bytes k : (k <= at_)%nat -> (at_ <= length image)%nat -> take k (store image at_ bytes) = take k image.
Proof. intros. unfold store. rewrite take_app_le by (rewrite length_take; lia). rewrite take_take. f_equal. lia. Qed.

Lemma Sha1_length data size : length (Sha1_impl.Sha1 stack data size) = 20%nat.
Proof. unfold Sha1_impl.Sha1, Sha1_impl.Final. by rewrite length_map, length_seq. Qed.

(** A sealed image verifies: its signature is the SHA-1 digest of all that
    follows it, its checksum is adler32 of all that follows that, signature
    included, and nothing else has changed. *)
Theorem seal_verifies image :
  length stack = 64%nat -> (0x70 <= length image)%nat -> le_combine (field image 32 4) = Z.of_nat (length image) ->
  length (seal image) = length image /\
  take 8 (seal image) = take 8 image /\ drop 32 (seal image) = drop 32 image /\
  field (seal image) 12 20 = Sha1_impl.sha1_spec (drop 32 (seal image)) /\
  field (seal image) 8 4 = le_bytes 4 (U32 (adler32 (adler32 0 None) (Some (drop 12 (seal image))))).
Proof.
  intros Hst Hlen Hsize. unfold seal. set (digest := Sha1_impl.Sha1 _ _ _).
  assert (Hd : length digest = 20%nat) by apply Sha1_length.
  set (signed := store image 12 digest). assert (Hl : length signed = length image) by (apply store_length; lia).
  set (sum := le_bytes 4 (ComputeChecksum signed)). assert (Hs : length sum = 4%nat) by apply length_le_bytes.
  assert (H32 : drop 32 (store signed 8 sum) = drop 32 image) by (rewrite drop_store by lia; apply drop_store; lia).
  assert (H12 : drop 12 (store signed 8 sum) = drop 12 signed) by (apply drop_store; lia).
  split_and!.
  - rewrite store_length by lia. done.
  - rewrite take_store by lia. apply take_store; lia.
  - done.
  - rewrite H32. unfold field. rewrite H12. change (take 20 (drop 12 signed)) with (field signed 12 20).
    unfold signed. rewrite field_store_same by lia. unfold digest. rewrite <- length_drop. by apply Sha1_impl.Sha1_spec.
  - rewrite H12, field_store_same by lia. unfold sum, ComputeChecksum. do 4 f_equal.
    assert (Hf : field signed 32 4 = field image 32 4) by (unfold field; f_equal; apply drop_store; lia).
    rewrite Hf, Hsize. unfold field. apply take_ge. rewrite length_drop. lia.
Qed.
End Seal.

(** The least image: a header that says it is 112 bytes long. *)
Definition least_image : list Z := replicate 32 0 ++ le_bytes 4 112 ++ replicate 76 0.

Lemma seal_verifies_witness (zero := fun _ _ => 1) (image := seal zero (replicate 64 0) least_image) :
  length image = 112%nat /\ take 8 image = replicate 8 0 /\ drop 32 image = le_bytes 4 112 ++ replicate 76 0 /\
  field image 12 20 = Sha1_impl.sha1_spec (drop 32 image) /\ field image 8 4 = le_bytes 4 1.
Proof. apply (seal_verifies zero (replicate 64 0) least_image); [done|by vm_compute; lia|done]. Defined.
End DexSeal.
