(* ===== verification/Memory.v ===== *)
(** * Memory as bytes

    Code that walks a mapped file reads little-endian integers through cast
    pointers and copies ranges with memcpy.  [mem] is the bytes it may read;
    a pointer is an index into them; an access outside is [None]. *)
From S2P Require Import Prelude.
Local Open Scope cint_scope.

Module Memory.

Definition slice (mem : list Z) (p n : Z) : option (list Z) :=
  if (0 <=? p) && (0 <=? n) && (p + n <=? Z.of_nat (length mem))
  then Some (take (Z.to_nat n) (drop (Z.to_nat p) mem)) else None.
Definition load (n : Z) (mem : list Z) (p : Z) : option Z := le_combine <$> slice mem p n.
Abbreviation load16 := (load 2).
Abbreviation load32 := (load 4).

Abbreviation load64 := (load 8).

(** The bytes of a string up to its NUL. *)
Fixpoint until_nul (l : list Z) : option (list Z) :=
  match l with
  | [] => None
  | c :: l => if c =? 0 then Some [] else option_map (cons c) (until_nul l)
  end.
Definition cstring (mem : list Z) (p : Z) : option (list Z) :=
  if 0 <=? p then until_nul (drop (Z.to_nat p) mem) else None.
(** [strcmp(p, s) == 0]; [None] when it reads too far. *)
Fixpoint strcmp_eq (mem : list Z) (p : Z) (s : list Z) : option bool :=
  c ← mem !!z p;
  match s with
  | [] => Some (c =? 0)
  | b :: s => if c =? b then strcmp_eq mem (p + 1) s else Some false
  end.

(** The words of a byte string. *)
Fixpoint words16 (l : list Z) : list Z :=
  match l with a :: b :: l => (a .| (b << 8)) :: words16 l | _ => [] end.

(** ** Reading what has been laid out *)

Lemma slice_at x a y mem p n :
  mem = x ++ a ++ y -> p = Z.of_nat (length x) -> n = Z.of_nat (length a) -> slice mem p n = Some a.
Proof.
  intros -> -> ->. unfold slice. rewrite !length_app, !Nat2Z.id, drop_app_length, take_app_length.
  destruct (Z.leb_spec 0 (Z.of_nat (length x))); [|lia]. destruct (Z.leb_spec 0 (Z.of_nat (length a))); [|lia].
  by destruct (Z.leb_spec (Z.of_nat (length x) + Z.of_nat (length a)) (Z.of_nat (length x + (length a + length y)))); [|lia].
Qed.

Lemma load_at x k v y mem p n :
  mem = x ++ le_bytes k v ++ y -> p = Z.of_nat (length x) -> n = Z.of_nat k -> in_u (8 * Z.of_nat k) v ->
  load n mem p = Some v.
Proof.
  intros. unfold load. rewrite (slice_at x (le_bytes k v) y) by (rewrite ?length_le_bytes; done).
  cbn [fmap option_fmap option_map]. by rewrite le_combine_bytes, wrap_small.
Qed.

Definition bytes16 (l : list Z) : list Z := concat (map (le_bytes 2) l).
Lemma length_bytes16 l : Z.of_nat (length (bytes16 l)) = 2 * Z.of_nat (length l).
Proof. induction l as [|x l IH]; [done|]. unfold bytes16 in *. cbn [map concat]. rewrite length_app, length_le_bytes. cbn [length]. lia. Qed.
Lemma bytes16_app a b : bytes16 (a ++ b) = bytes16 a ++ bytes16 b.
Proof. unfold bytes16. by rewrite map_app, concat_app. Qed.

Lemma words16_bytes l : Forall (in_u 16) l -> words16 (bytes16 l) = l.
Proof.
  induction 1 as [|x l Hx _ IH]; [done|].
  change (words16 (bytes16 (x :: l))) with ((U8 x .| (U8 (x >> 8) << 8)) :: words16 (bytes16 l)). rewrite IH. f_equal.
  pose proof (le_combine_bytes 2 x) as E. cbn [le_bytes le_combine] in E.
  rewrite Z.shiftl_0_l, Z.lor_0_r in E. rewrite E. by apply wrap_small.
Qed.

Lemma bytes16_split l i : 0 <= i <= Z.of_nat (length l) ->
  bytes16 l = bytes16 (take (Z.to_nat i) l) ++ bytes16 (drop (Z.to_nat i) l) /\
  Z.of_nat (length (bytes16 (take (Z.to_nat i) l))) = 2 * i.
Proof.
  intros Hi. split; [by rewrite <- bytes16_app, take_drop|]. rewrite length_bytes16, length_take. lia.
Qed.

Lemma load16_unit l i : Forall (in_u 16) l -> load16 (bytes16 l) (2 * i) = l !!z i.
Proof.
  intros HF. destruct (l !!z i) as [x|] eqn:E.
  - pose proof (zlookup_lt_Some _ _ _ E) as Hi. destruct (bytes16_split l i ltac:(lia)) as [Hs Hl].
    unfold zlookup in E. destruct (Z.leb_spec 0 i); [|lia]. rewrite (drop_S _ _ _ E) in Hs.
    eapply load_at; [exact Hs|by rewrite Hl|done|]. by eapply Forall_lookup_1 in HF.
  - unfold load, slice. destruct (Z.leb_spec 0 (2 * i)); [|done]. rewrite length_bytes16.
    destruct (Z.leb_spec (2 * i + 2) (2 * Z.of_nat (length l))); [|by rewrite andb_false_r].
    destruct (zlookup_is_Some l i) as [? Hx]; [lia|]. congruence.
Qed.

Lemma slice_units l i n : 0 <= i -> 0 <= n -> i + n <= Z.of_nat (length l) ->
  slice (bytes16 l) (2 * i) (2 * n) = Some (bytes16 (take (Z.to_nat n) (drop (Z.to_nat i) l))).
Proof.
  intros Hi Hn Hl. destruct (bytes16_split l i ltac:(lia)) as [Hs He]. eapply slice_at.
  - rewrite Hs at 1. rewrite <- (take_drop (Z.to_nat n) (drop (Z.to_nat i) l)) at 1. rewrite bytes16_app. reflexivity.
  - by rewrite He.
  - rewrite length_bytes16, length_take, length_drop. lia.
Qed.

Lemma middle_sub (pre mid post : list Z) p x :
  mid !!z p = Some x -> (pre ++ mid ++ post) !!z (Z.of_nat (length pre) + p) = Some x.
Proof.
  intros H. pose proof (zlookup_lt_Some _ _ _ H) as Hp. unfold zlookup in *.
  destruct (Z.leb_spec 0 p); [|lia]. destruct (Z.leb_spec 0 (Z.of_nat (length pre) + p)); [|lia].
  rewrite lookup_app_r by lia. replace (Z.to_nat (Z.of_nat (length pre) + p) - length pre)%nat with (Z.to_nat p) by lia.
  rewrite lookup_app_l; [done|]. lia.
Qed.

(** ** Strings *)

Lemma strcmp_eq_cstring s : Forall (fun c => c <> 0) s -> forall mem p l, 0 <= p -> cstring mem p = Some l -> strcmp_eq mem p s = Some (streq l s).
Proof.
  unfold cstring. induction 1 as [|b s Hb Hs IH]; intros mem p l Hp Hl; replace (0 <=? p) with true in Hl by lia; cbn [strcmp_eq]; unfold zlookup; replace (0 <=? p) with true by lia;
    destruct (mem !! Z.to_nat p) as [c|] eqn:E; try (by rewrite drop_ge in Hl by (by apply lookup_ge_None)); rewrite (drop_S _ _ _ E) in Hl; cbn [until_nul mbind option_bind] in *.
  - destruct (Z.eqb_spec c 0); [by injection Hl as <-|]. destruct (until_nul _); [|done]. by injection Hl as <-.
  - unfold streq in *. destruct (Z.eqb_spec c 0) as [Ec|Hc].
    + injection Hl as <-. destruct (Z.eqb_spec c b); [congruence|done].
    + destruct (until_nul (drop (S (Z.to_nat p)) mem)) as [l'|] eqn:El; [|done]. injection Hl as <-. destruct (Z.eqb_spec c b) as [Ecb|Hcb].
      * rewrite (IH mem (p + 1) l'); [|lia|]; [f_equal; apply bool_decide_ext; split; congruence|].
        replace (0 <=? p + 1) with true by lia. by replace (Z.to_nat (p + 1)) with (S (Z.to_nat p)) by lia.
      * rewrite bool_decide_false; [done|]. congruence.
Qed.
(** A NUL at the end of memory ends every string. *)
Lemma cstring_terminated m p : 0 <= p < Z.of_nat (length (m ++ [0])) -> is_Some (cstring (m ++ [0]) p).
Proof.
  intros Hp. unfold cstring. replace (0 <=? p) with true by lia. rewrite length_app in Hp. cbn [length] in Hp.
  rewrite drop_app_le by lia. generalize (drop (Z.to_nat p) m). clear. intros l. induction l as [|c l IH]; cbn [app until_nul]; [by eexists|].
  destruct (c =? 0); [by eexists|]. destruct IH as [s ->]. by eexists.
Qed.

End Memory.
