(* ===== verification/Arm64.v ===== *)
(** * Process memory by address, and the arm64 instructions of the trampolines

    Module Ram: code that patches machine code reads and writes absolute
    addresses.  [ram] maps an address to its byte, or to [None] where nothing
    is mapped.  [put] is a memcpy, [holds] says which bytes lie at an address.

    Module Arm64: what the assembler makes of
    src/engine/trampoline/arch/arm64.S and what the processor does with it,
    after the Arm Architecture Reference Manual: encodings, and a machine over
    this memory.  Instructions of other code are the parameter [exec_other].
    One thread: the exclusive monitor is not disturbed. *)
From stdpp Require Import strings.
From S2P Require Import Prelude.
Local Open Scope cint_scope.

Module Ram.

Definition ram : Type := Z -> option Z.
Definition put (m : ram) (a : Z) (l : list Z) : ram :=
  fun x => if (a <=? x) && (x <? a + Z.of_nat (length l)) then l !!z (x - a) else m x.
Fixpoint read (m : ram) (a : Z) (n : nat) : option (list Z) :=
  match n with
  | O => Some []
  | S n => b ← m a; l ← read m (a + 1) n; Some (b :: l)
  end.
(** A write faults unless all of it is mapped. *)
Definition store (m : ram) (a : Z) (l : list Z) : option ram := _ ← read m a (length l); Some (put m a l).
Definition load (n : nat) (m : ram) (a : Z) : option Z := le_combine <$> read m a n.
Definition store_int (n : nat) (m : ram) (a v : Z) : option ram := store m a (le_bytes n v).

(** ** Facts *)

Definition holds (m : ram) (a : Z) (l : list Z) : Prop := forall (i : nat) b, l !! i = Some b -> m (a + Z.of_nat i) = Some b.
Definition is_mapped (m : ram) (a n : Z) : Prop := forall x, a <= x < a + n -> is_Some (m x).
(** The two memories agree outside [n] bytes from [a] on. *)
Definition agree_outside (a n : Z) (m m' : ram) : Prop := forall x, ~ (a <= x < a + n) -> m' x = m x.

Lemma read_holds m a l : holds m a l -> read m a (length l) = Some l.
Proof.
  revert a. induction l as [|b l IH]; intros a H; [done|]. cbn [length read].
  assert (H0 : m a = Some b) by (rewrite <- (H 0%nat b eq_refl); f_equal; lia). rewrite H0. cbn [mbind option_bind].
  rewrite IH; [done|]. intros i c Hc. rewrite <- (H (S i) c Hc). f_equal. lia.
Qed.
Lemma load_holds n m a v : holds m a (le_bytes n v) -> in_u (8 * Z.of_nat n) v -> load n m a = Some v.
Proof.
  intros H Hv. apply read_holds in H. rewrite length_le_bytes in H. unfold load. rewrite H. cbn [fmap option_fmap option_map].
  by rewrite le_combine_bytes, wrap_small.
Qed.
Lemma read_mapped m a n : is_mapped m a (Z.of_nat n) -> is_Some (read m a n).
Proof.
  revert a. induction n as [|n IH]; intros a H; [by eexists|]. cbn [read].
  destruct (H a ltac:(lia)) as [b ->]. cbn [mbind option_bind]. destruct (IH (a + 1)) as [l ->]; [|by eexists].
  intros x Hx. apply H. lia.
Qed.
Lemma store_mapped m a l : is_mapped m a (Z.of_nat (length l)) -> store m a l = Some (put m a l).
Proof. intros H. unfold store. by destruct (read_mapped _ _ _ H) as [b ->]. Qed.
Lemma store_put m a l m' : store m a l = Some m' -> m' = put m a l.
Proof. unfold store. destruct (read m a _); [|done]. by intros [= <-]. Qed.

Lemma put_inside m a l x : a <= x < a + Z.of_nat (length l) -> put m a l x = l !! Z.to_nat (x - a).
Proof.
  intros H. unfold put. replace (a <=? x) with true by lia. replace (x <? a + Z.of_nat (length l)) with true by lia.
  cbn [andb]. unfold zlookup. by replace (0 <=? x - a) with true by lia.
Qed.
Lemma put_outside m a l : agree_outside a (Z.of_nat (length l)) m (put m a l).
Proof.
  intros x H. unfold put. destruct (Z.leb_spec a x), (Z.ltb_spec x (a + Z.of_nat (length l))); try done. lia.
Qed.
Lemma put_mapped m a l b n : is_mapped m b n -> is_mapped (put m a l) b n.
Proof.
  intros H x Hx. destruct (decide (a <= x < a + Z.of_nat (length l))).
  - rewrite put_inside by done. apply lookup_lt_is_Some. lia.
  - rewrite put_outside by done. by apply H.
Qed.
Lemma holds_put m a l : holds (put m a l) a l.
Proof.
  intros i b Hi. pose proof (lookup_lt_Some _ _ _ Hi). rewrite put_inside by lia. rewrite <- Hi. f_equal. lia.
Qed.
Lemma holds_agree a n m m' b l : agree_outside a n m m' -> (b + Z.of_nat (length l) <= a \/ a + n <= b) -> holds m b l -> holds m' b l.
Proof.
  intros Ha Hd H i c Hi. pose proof (lookup_lt_Some _ _ _ Hi). rewrite Ha by lia. by apply H.
Qed.
Lemma holds_app m a l k : holds m a (l ++ k) <-> holds m a l /\ holds m (a + Z.of_nat (length l)) k.
Proof.
  split.
  - intros H. split; intros i b Hi.
    + apply H. by apply lookup_app_l_Some.
    + rewrite <- Z.add_assoc, <- Nat2Z.inj_add. apply H. rewrite lookup_app_r by lia. rewrite <- Hi. f_equal. lia.
  - intros [H1 H2] i b Hi. apply lookup_app_Some in Hi as [Hi|[Hl Hi]]; [by apply H1|].
    rewrite <- (H2 _ _ Hi). f_equal. lia.
Qed.
Lemma holds_mapped m a l : holds m a l -> is_mapped m a (Z.of_nat (length l)).
Proof.
  intros H x Hx. destruct (lookup_lt_is_Some_2 l (Z.to_nat (x - a))) as [b Hb]; [lia|].
  apply H in Hb. replace (a + Z.of_nat (Z.to_nat (x - a))) with x in Hb by lia. by eexists.
Qed.
(** A write behind what is there extends it. *)
Lemma holds_grow m a l k b : holds m a l -> b = a + Z.of_nat (length l) -> holds (put m b k) a (l ++ k).
Proof.
  intros H ->. apply holds_app. split; [|apply holds_put].
  eapply holds_agree; [apply put_outside|lia|done].
Qed.
(** A write over a part of it. *)
Lemma holds_replace m a l1 old new l2 b : holds m a (l1 ++ old ++ l2) -> length new = length old -> b = a + Z.of_nat (length l1) ->
  holds (put m b new) a (l1 ++ new ++ l2).
Proof.
  intros H Hl ->. apply holds_app in H as [H1 H]. apply holds_app in H as [_ H2].
  apply holds_app. split; [eapply holds_agree; [apply put_outside|lia|done]|].
  apply holds_app. split; [apply holds_put|]. rewrite Hl. eapply holds_agree; [apply put_outside|lia|done].
Qed.

#[export] Instance agree_preorder a n : PreOrder (agree_outside a n).
Proof. split; [by intros m x|]. intros m1 m2 m3 H1 H2 x Hx. rewrite H2 by done. by apply H1. Qed.
Lemma agree_within a n b k m m' : agree_outside a n m m' -> b <= a -> a + n <= b + k -> agree_outside b k m m'.
Proof. intros H Hb Hk x Hx. apply H. lia. Qed.
Lemma agree_put b k m m' a l : agree_outside b k m m' -> b <= a -> a + Z.of_nat (length l) <= b + k -> agree_outside b k m (put m' a l).
Proof. intros H Hb Hk. transitivity m'; [done|]. eapply agree_within; [apply put_outside|done|done]. Qed.

End Ram.

Import Ram.
Local Open Scope cint_scope.

Module Arm64.

(** Register 31 is xzr; [Ldaxr], [Stlxr], [Cbz] and [Cbnz] act on w
    registers.  Offsets of labels are in bytes from the instruction. *)
Inductive inst :=
| LdrLit (t off : Z) | Br (n : Z) | CmpReg (n m : Z) | BNe (off : Z) | B (off : Z)
| Wfe | Nop | Ldaxr (t n : Z) | Stlxr (s t n : Z) | Cbz (t off : Z) | Cbnz (t off : Z)
| SturX (t n off : Z) | SturD (t n off : Z) | MovReg (d m : Z) | MovSp (d : Z).

(** ** Encodings *)

Definition imm (w off : Z) : Z := wrap w (off >> 2).
Definition encode (i : inst) : Z :=
  match i with
  | LdrLit t off => 0x58000000 .| (imm 19 off << 5) .| t
  | Br n => 0xD61F0000 .| (n << 5)
  | CmpReg n m => 0xEB00001F .| (m << 16) .| (n << 5)
  | BNe off => 0x54000001 .| (imm 19 off << 5)
  | B off => 0x14000000 .| imm 26 off
  | Wfe => 0xD503205F
  | Nop => 0xD503201F
  | Ldaxr t n => 0x885FFC00 .| (n << 5) .| t
  | Stlxr s t n => 0x8800FC00 .| (s << 16) .| (n << 5) .| t
  | Cbz t off => 0x34000000 .| (imm 19 off << 5) .| t
  | Cbnz t off => 0x35000000 .| (imm 19 off << 5) .| t
  | SturX t n off => 0xF8000000 .| (wrap 9 off << 12) .| (n << 5) .| t
  | SturD t n off => 0xFC000000 .| (wrap 9 off << 12) .| (n << 5) .| t
  | MovReg d m => 0xAA0003E0 .| (m << 16) .| d
  | MovSp d => 0x910003E0 .| d
  end.

(** A field of the word. *)
Definition bits (w lo n : Z) : Z := wrap n (w >> lo).
Definition offset (w lo n : Z) : Z := swrap n (w >> lo) << 2.
Definition decode (w : Z) : option inst :=
  if w & 0xFF000000 =? 0x58000000 then Some (LdrLit (bits w 0 5) (offset w 5 19))
  else if w & 0xFFFFFC1F =? 0xD61F0000 then Some (Br (bits w 5 5))
  else if w & 0xFFE0FC1F =? 0xEB00001F then Some (CmpReg (bits w 5 5) (bits w 16 5))
  else if w & 0xFF00001F =? 0x54000001 then Some (BNe (offset w 5 19))
  else if w & 0xFC000000 =? 0x14000000 then Some (B (offset w 0 26))
  else if w =? 0xD503205F then Some Wfe
  else if w =? 0xD503201F then Some Nop
  else if w & 0xFFFFFC00 =? 0x885FFC00 then Some (Ldaxr (bits w 0 5) (bits w 5 5))
  else if w & 0xFFE0FC00 =? 0x8800FC00 then Some (Stlxr (bits w 16 5) (bits w 0 5) (bits w 5 5))
  else if w & 0xFF000000 =? 0x34000000 then Some (Cbz (bits w 0 5) (offset w 5 19))
  else if w & 0xFF000000 =? 0x35000000 then Some (Cbnz (bits w 0 5) (offset w 5 19))
  else if w & 0xFFE00C00 =? 0xF8000000 then Some (SturX (bits w 0 5) (bits w 5 5) (swrap 9 (w >> 12)))
  else if w & 0xFFE00C00 =? 0xFC000000 then Some (SturD (bits w 0 5) (bits w 5 5) (swrap 9 (w >> 12)))
  else if w & 0xFFE0FFE0 =? 0xAA0003E0 then Some (MovReg (bits w 0 5) (bits w 16 5))
  else if w & 0xFFFFFFE0 =? 0x910003E0 then Some (MovSp (bits w 0 5))
  else None.

(** ** Assembly text *)

(** A line of the source; [Insn] gets the distance to each label. *)
Inductive line := Insn (i : (string -> Z) -> inst) | Label (l : string) | Long (v : Z).
Definition line_size (l : line) : Z := match l with Label _ => 0 | _ => 4 end.
Fixpoint label_at (pos : Z) (ls : list line) (name : string) : Z :=
  match ls with
  | [] => 0
  | Label l :: ls => if bool_decide (l = name) then pos else label_at pos ls name
  | l :: ls => label_at (pos + line_size l) ls name
  end.
Fixpoint assemble_from (pos : Z) (labels : string -> Z) (ls : list line) : list Z :=
  match ls with
  | [] => []
  | Label _ :: ls => assemble_from pos labels ls
  | Insn i :: ls => encode (i (fun l => labels l - pos)) :: assemble_from (pos + 4) labels ls
  | Long v :: ls => v :: assemble_from (pos + 4) labels ls
  end.
(** The next function starts on a multiple of sixteen ([.align 4]). *)
Definition assemble (ls : list line) : list Z :=
  let ws := assemble_from 0 (label_at 0 ls) ls in
  ws ++ replicate (Z.to_nat ((- Z.of_nat (length ws)) mod 4)) 0.
Definition word_bytes (ws : list Z) : list Z := concat (List.map (le_bytes 4) ws).

(** ** The machine *)

Record cpu := MkCpu { x : Z -> Z; d : Z -> Z; sp : Z; pc : Z; zf : bool; excl : option Z; mem : ram }.
Definition update (f : Z -> Z) (i v : Z) : Z -> Z := fun j => if i =? j then v else f j.
Definition reg (s : cpu) (i : Z) : Z := if i =? 31 then 0 else x s i.
Definition set_x (i v : Z) (s : cpu) : cpu :=
  MkCpu (if i =? 31 then x s else update (x s) i v) (d s) (sp s) (pc s) (zf s) (excl s) (mem s).
Definition goto (p : Z) (s : cpu) : cpu := MkCpu (x s) (d s) (sp s) p (zf s) (excl s) (mem s).
Definition next (s : cpu) : cpu := goto (pc s + 4) s.
Definition set_zf (b : bool) (s : cpu) : cpu := MkCpu (x s) (d s) (sp s) (pc s) b (excl s) (mem s).
Definition set_excl (e : option Z) (s : cpu) : cpu := MkCpu (x s) (d s) (sp s) (pc s) (zf s) e (mem s).
Definition set_mem (m : ram) (s : cpu) : cpu := MkCpu (x s) (d s) (sp s) (pc s) (zf s) (excl s) m.

Definition exec (i : inst) (s : cpu) : option cpu :=
  match i with
  | LdrLit t off => v ← load 8 (mem s) (pc s + off); Some (next (set_x t v s))
  | Br n => Some (goto (reg s n) s)
  | CmpReg n m => Some (next (set_zf (reg s n =? reg s m) s))
  | BNe off => Some (if zf s then next s else goto (pc s + off) s)
  | B off => Some (goto (pc s + off) s)
  | Wfe | Nop => Some (next s)
  | Ldaxr t n => v ← load 4 (mem s) (reg s n); Some (next (set_excl (Some (reg s n)) (set_x t v s)))
  | Stlxr st t n =>
      if bool_decide (excl s = Some (reg s n)) then
        m ← store_int 4 (mem s) (reg s n) (U32 (reg s t));
        Some (next (set_excl None (set_x st 0 (set_mem m s))))
      else Some (next (set_excl None (set_x st 1 s)))
  | Cbz t off => Some (if U32 (reg s t) =? 0 then goto (pc s + off) s else next s)
  | Cbnz t off => Some (if U32 (reg s t) =? 0 then next s else goto (pc s + off) s)
  | SturX t n off => m ← store_int 8 (mem s) (reg s n + off) (reg s t); Some (next (set_mem m s))
  | SturD t n off => m ← store_int 8 (mem s) (reg s n + off) (d s t); Some (next (set_mem m s))
  | MovReg dst m => Some (next (set_x dst (reg s m) s))
  | MovSp dst => Some (next (set_x dst (sp s) s))
  end.

Section Machine.
Context (exec_other : Z -> cpu -> option cpu).

Definition step (s : cpu) : option cpu :=
  w ← load 4 (mem s) (pc s);
  match decode w with Some i => exec i s | None => exec_other w s end.
Fixpoint steps (n : nat) (s : cpu) : option cpu :=
  match n with O => Some s | S n => s ← step s; steps n s end.

Lemma steps_add n k s : steps (n + k) s = (steps n s ≫= steps k).
Proof.
  revert s. induction n as [|n IH]; intros s; [done|]. cbn [Nat.add steps]. destruct (step s); [apply IH|done].
Qed.

(** The words [ws] lie at [a]. *)
Definition code_at (m : ram) (a : Z) (ws : list Z) : Prop := holds m a (word_bytes ws).

Lemma length_word_bytes ws : length (word_bytes ws) = (4 * length ws)%nat.
Proof.
  unfold word_bytes. induction ws as [|w ws IH]; [done|]. cbn [List.map concat]. rewrite length_app, IH, length_le_bytes. cbn [length]. lia.
Qed.
Lemma word_bytes_app a b : word_bytes (a ++ b) = word_bytes a ++ word_bytes b.
Proof. unfold word_bytes. by rewrite List.map_app, concat_app. Qed.
Lemma code_at_app m a ws ws' : code_at m a (ws ++ ws') <-> code_at m a ws /\ code_at m (a + 4 * Z.of_nat (length ws)) ws'.
Proof.
  unfold code_at. rewrite word_bytes_app, holds_app, length_word_bytes.
  by replace (a + Z.of_nat (4 * length ws)) with (a + 4 * Z.of_nat (length ws)) by lia.
Qed.
Lemma fetch m a ws (k : nat) w p : code_at m a ws -> ws !! k = Some w -> in_u 32 w -> p = a + 4 * Z.of_nat k ->
  load 4 m p = Some w.
Proof.
  intros H Hk Hw ->. apply load_holds; [|done]. pose proof (lookup_lt_Some _ _ _ Hk) as Hl.
  rewrite <- (take_drop_middle _ _ _ Hk) in H. apply code_at_app in H as [_ H]. rewrite length_take, Nat.min_l in H by lia.
  change (w :: drop (S k) ws) with ([w] ++ drop (S k) ws) in H. by apply code_at_app in H as [H _]; unfold code_at in H; cbn in H; rewrite ?app_nil_r in H.
Qed.
(** What the instruction in a place does. *)
Lemma step_at s a ws (k : nat) w i : code_at (mem s) a ws -> pc s = a + 4 * Z.of_nat k -> ws !! k = Some w -> in_u 32 w ->
  decode w = Some i -> step s = exec i s.
Proof. intros H Hp Hk Hw Hd. unfold step. rewrite (fetch _ _ _ _ _ _ H Hk Hw Hp). cbn [mbind option_bind]. by rewrite Hd. Qed.
End Machine.

End Arm64.
