(* ===== verification/Trampoline.v ===== *)
(** * Trampolines on arm64 (src/engine/trampoline)

    The code templates of arch/arm64.S, and TrampolineInstaller with
    Arm64TrampolineInstaller (trampoline_installer.h and .cpp,
    arch/arm64.cpp): the allocator of executable memory (utils/memory.cpp),
    the trampolines made from the templates, the checks before an inline
    hook, and the installations.  The fields of an ArtMethod are read and
    written in memory, at the offsets ART has (art/art_method.h).

    [mmap], [mprotect] and [operator_new] are the platform's; the pages a
    hook writes are taken to be writable once they are unprotected.  Cache
    flushes, fences and the SIGSEGV retry have no counterpart. *)
From stdpp Require Import strings.
From S2P Require Import Prelude.
From S2P Require Import Arm64.
Import Ram Arm64.
Local Open Scope cint_scope.

Module Trampoline.

(** ** The templates *)

Definition LDVAR (t : Z) (l : string) : line := Insn (fun to => LdrLit t (to l)).
Definition insn (i : inst) : line := Insn (fun _ => i).
Definition VAR (l : string) : list line := [Label l; Long 0; Long 0].

Definition pine_direct_jump_trampoline : list line :=
  [LDVAR 17 "jump_entry"; insn (Br 17)] ++ VAR "jump_entry".
Definition pine_bridge_jump_trampoline : list line :=
  [LDVAR 17 "target_method";
   insn (CmpReg 0 17);
   Insn (fun to => BNe (to "jump_to_original"%string));
   LDVAR 17 "extras";
   Insn (fun to => B (to "acquire_lock"%string));
   Label "lock_failed";
   insn Wfe;
   Label "acquire_lock";
   insn (Ldaxr 16 17);
   Insn (fun to => Cbz 16 (to "lock_failed"%string));
   insn (Stlxr 16 31 17);
   Insn (fun to => Cbnz 16 (to "lock_failed"%string));
   insn (SturX 1 17 4); insn (SturX 2 17 12); insn (SturX 3 17 20);
   insn (SturD 0 17 28); insn (SturD 1 17 36); insn (SturD 2 17 44); insn (SturD 3 17 52);
   insn (SturD 4 17 60); insn (SturD 5 17 68); insn (SturD 6 17 76); insn (SturD 7 17 84);
   insn (MovReg 1 0); insn (MovReg 2 17); insn (MovSp 3);
   LDVAR 0 "bridge_method";
   LDVAR 17 "bridge_entry";
   insn (Br 17);
   Label "jump_to_original";
   LDVAR 17 "call_origin_entry";
   insn (Br 17)]
  ++ VAR "target_method" ++ VAR "extras" ++ VAR "bridge_method" ++ VAR "bridge_entry" ++ VAR "call_origin_entry".
Definition pine_method_jump_trampoline : list line :=
  [LDVAR 0 "dest_method"; LDVAR 17 "dest_entry"; insn (Br 17)] ++ VAR "dest_method" ++ VAR "dest_entry".
Definition pine_call_origin_trampoline : list line :=
  [LDVAR 0 "origin_method"; LDVAR 17 "origin_code_entry"; insn (Br 17)] ++ VAR "origin_method" ++ VAR "origin_code_entry".
Definition pine_backup_trampoline : list line :=
  [LDVAR 0 "origin_method"; Label "override_space"; Long 0; Long 0; Long 0; Long 0; insn Nop; insn Nop;
   LDVAR 17 "remaining_code_entry"; insn (Br 17)] ++ VAR "origin_method" ++ VAR "remaining_code_entry".

Definition template (ls : list line) : list Z := word_bytes (assemble ls).
Definition template_size (ls : list line) : Z := Z.of_nat (length (template ls)).
Definition kDirectJumpTrampolineSize : Z := 16.
Definition kSkipBytes : Z := 8.
Definition nop_word : Z := 0xd503201f.

(** ** What may be moved *)

Definition IsPCRelatedInst (inst : Z) : bool :=
  if inst & 0xff000010 =? 0x54000000 then true
  else if inst & 0x7c000000 =? 0x14000000 then true
  else if inst & 0x7e000000 =? 0x34000000 then true
  else if inst & 0x7e000000 =? 0x36000000 then true
  else if inst & 0x3b000000 =? 0x18000000 then true
  else inst & 0x1f000000 =? 0x10000000.

(** ** State *)

(** Memory, and the page executable memory is cut from. *)
Record State := MkState { ram_ : ram; pool_address : Z; pool_offset : Z }.
Definition set_ram (m : ram) (s : State) : State := MkState m (pool_address s) (pool_offset s).
Definition memcpy (a : Z) (l : list Z) (s : State) : option State := m ← store (ram_ s) a l; Some (set_ram m s).
Definition set_ptr (a v : Z) : State -> option State := memcpy a (le_bytes 8 v).

Section Installer.
Context (page_size : Z) (mmap : State -> option Z) (mprotect : Z -> bool) (operator_new : Z -> State -> option Z).

(** A page from [mmap] is zeroed; [None] is MAP_FAILED, 0 the null pointer. *)
Definition AllocUnprotected (size : Z) (s : State) : Z * State :=
  if page_size <? size then (0, s)
  else
    let next_offset := pool_offset s + size in
    if negb (pool_address s =? 0) && (next_offset <=? page_size) then
      (pool_address s + pool_offset s, MkState (ram_ s) (pool_address s) next_offset)
    else
      match mmap s with
      | None => (0, s)
      | Some mapped => (mapped, MkState (put (ram_ s) mapped (replicate (Z.to_nat page_size) 0)) mapped size)
      end.
Definition Unprotect (ptr : Z) : bool := mprotect (ptr - ptr mod page_size).

(** Unlocked, and the saved registers zero. *)
Definition extras_bytes : list Z := le_bytes 4 1 ++ replicate 88 0.
Definition new_Extras (s : State) : option (Z * State) :=
  e ← operator_new 92 s; Some (e, set_ram (put (ram_ s) e extras_bytes) s).
(** A lock that is not held aborts; a null copy faults. *)
Definition ReleaseLock (e : Z) (s : State) : option State :=
  lock_flag ← load 4 (ram_ s) e;
  if lock_flag =? 0 then memcpy e (le_bytes 4 1) s else None.
Definition CloneAndUnlock (malloc : Z -> State -> Z) (e : Z) (s : State) : option (Z * State) :=
  let cloned := malloc 92 s in
  if cloned =? 0 then None
  else
    bytes ← read (ram_ s) e 92;
    s ← ReleaseLock e (set_ram (put (ram_ s) cloned bytes) s);
    Some (cloned, s).

(** *** ART methods *)

Context (version entry_off flags_off : Z) (art_quick_to_interpreter_bridge art_quick_generic_jni_trampoline ExecuteNterpImpl : Z).
Definition kO : Z := 26.
Definition kNativeFlag : Z := 0x0100.

(** A member whose offset is not known reads as 0 and is not written. *)
Definition GetEntryPointFromCompiledCode (m : Z) (s : State) : option Z :=
  if entry_off <? 0 then Some 0 else load 8 (ram_ s) (m + entry_off).
Definition SetEntryPointFromCompiledCode (m entry : Z) (s : State) : option State :=
  if entry_off <? 0 then Some s else set_ptr (m + entry_off) entry s.
Definition GetAccessFlags (m : Z) (s : State) : option Z := if flags_off <? 0 then Some 0 else load 4 (ram_ s) (m + flags_off).
Definition GetCompiledCodeSize (m : Z) (s : State) : option Z :=
  addr ← GetEntryPointFromCompiledCode m s;
  size ← load 4 (ram_ s) (addr - 4);
  Some (if kO <=? version then size & 0x7FFFFFFF else size).
Definition IsCompiled (m : Z) (s : State) : option bool :=
  entry ← GetEntryPointFromCompiledCode m s;
  flags ← GetAccessFlags m s;
  let bridge := if flags & kNativeFlag =? kNativeFlag then art_quick_generic_jni_trampoline else art_quick_to_interpreter_bridge in
  Some (negb (entry =? bridge) && negb (entry =? ExecuteNterpImpl)).

(** *** The checks *)

(** The [n] words from [entry] on. *)
Fixpoint any_pc_related (n : nat) (entry : Z) (m : ram) : option bool :=
  match n with
  | O => Some false
  | S n => w ← load 4 m entry; if IsPCRelatedInst w then Some true else any_pc_related n (entry + 4) m
  end.
Definition CannotBackup (target size : Z) (s : State) : option bool :=
  entry ← GetEntryPointFromCompiledCode target s;
  any_pc_related (Z.to_nat ((size + 3) `div` 4)) entry (ram_ s).
Definition CannotSafeInlineHook (target : Z) (s : State) : option bool :=
  compiled ← IsCompiled target s;
  if negb compiled then Some true
  else
    size ← GetCompiledCodeSize target s;
    if size <? kDirectJumpTrampolineSize then Some true else CannotBackup target kDirectJumpTrampolineSize s.
Definition CanSkipFirstFewBytes (target : Z) (s : State) : option bool :=
  code_size ← GetCompiledCodeSize target s;
  let size := kDirectJumpTrampolineSize + kSkipBytes in
  if code_size <? size then Some false
  else cannot ← CannotBackup target size s; Some (negb cannot).

(** *** The trampolines *)

Definition WriteDirectJumpTrampolineTo (mem jump_to : Z) (s : State) : option State :=
  s ← memcpy mem (take (Z.to_nat kDirectJumpTrampolineSize) (template pine_direct_jump_trampoline)) s;
  set_ptr (mem + label_at 0 pine_direct_jump_trampoline "jump_entry") jump_to s.
Definition CreateDirectJumpTrampoline (to : Z) (s : State) : option (Z * State) :=
  let '(mem, s) := AllocUnprotected kDirectJumpTrampolineSize s in
  if mem =? 0 then Some (0, s)
  else s ← WriteDirectJumpTrampolineTo mem to s; Some (mem, s).
Definition CreateBridgeJumpTrampoline (target bridge origin_code_entry : Z) (s : State) : option (Z * State) :=
  let t := pine_bridge_jump_trampoline in
  let '(mem, s) := AllocUnprotected (template_size t) s in
  if mem =? 0 then Some (0, s)
  else
    s ← memcpy mem (template t) s;
    s ← set_ptr (mem + label_at 0 t "target_method") target s;
    '(extras, s) ← new_Extras s;
    s ← set_ptr (mem + label_at 0 t "extras") extras s;
    s ← set_ptr (mem + label_at 0 t "bridge_method") bridge s;
    entry ← GetEntryPointFromCompiledCode bridge s;
    s ← set_ptr (mem + label_at 0 t "bridge_entry") entry s;
    s ← set_ptr (mem + label_at 0 t "call_origin_entry") origin_code_entry s;
    Some (mem, s).
Definition CreateMethodJumpTrampoline (dest : Z) (s : State) : option (Z * State) :=
  let t := pine_method_jump_trampoline in
  let '(mem, s) := AllocUnprotected (template_size t) s in
  if mem =? 0 then Some (0, s)
  else
    s ← memcpy mem (template t) s;
    s ← set_ptr (mem + label_at 0 t "dest_method") dest s;
    entry ← GetEntryPointFromCompiledCode dest s;
    s ← set_ptr (mem + label_at 0 t "dest_entry") entry s;
    Some (mem, s).
Definition CreateCallOriginTrampoline (origin original_code_entry : Z) (s : State) : option (Z * State) :=
  let t := pine_call_origin_trampoline in
  let '(mem, s) := AllocUnprotected (template_size t) s in
  if mem =? 0 then Some (0, s)
  else
    s ← memcpy mem (template t) s;
    s ← set_ptr (mem + label_at 0 t "origin_method") origin s;
    s ← set_ptr (mem + label_at 0 t "origin_code_entry") original_code_entry s;
    Some (mem, s).
Definition Backup (target size : Z) (s : State) : option (Z * State) :=
  let t := pine_backup_trampoline in
  let '(mem, s) := AllocUnprotected (template_size t) s in
  if mem =? 0 then Some (0, s)
  else
    s ← memcpy mem (template t) s;
    s ← set_ptr (mem + label_at 0 t "origin_method") target s;
    target_addr ← GetEntryPointFromCompiledCode target s;
    code ← read (ram_ s) target_addr (Z.to_nat size);
    s ← memcpy (mem + label_at 0 t "override_space") code s;
    code_size ← GetCompiledCodeSize target s;
    s ← (if negb (code_size =? size) then set_ptr (mem + label_at 0 t "remaining_code_entry") (target_addr + size) s else Some s);
    Some (mem, s).
Fixpoint fill_nops (n : nat) (target : Z) (s : State) : option State :=
  match n with O => Some s | S n => s ← memcpy target (le_bytes 4 nop_word) s; fill_nops n (target + 4) s end.
Definition FillWithNopImpl (target size : Z) : State -> option State := fill_nops (Z.to_nat ((size + 3) `div` 4)) target.

(** *** Installations *)

Definition InstallReplacementTrampoline (target bridge : Z) (s : State) : option (Z * State) :=
  origin_code_entry ← GetEntryPointFromCompiledCode target s;
  '(t, s) ← CreateBridgeJumpTrampoline target bridge origin_code_entry s;
  if t =? 0 then Some (0, s)
  else s ← SetEntryPointFromCompiledCode target t s; Some (origin_code_entry, s).
Definition InstallDirectJumpReplacementTrampoline (target replacement : Z) (s : State) : option (Z * State) :=
  origin_code_entry ← GetEntryPointFromCompiledCode target s;
  '(t, s) ← CreateMethodJumpTrampoline replacement s;
  if t =? 0 then Some (0, s)
  else s ← SetEntryPointFromCompiledCode target t s; Some (origin_code_entry, s).
(** The jump over the start of the compiled code, [kSkipBytes] behind it or
    at it. *)
Definition patch_code (target_code_addr jump_to : Z) (skip : bool) (s : State) : option State :=
  if skip then
    s ← FillWithNopImpl target_code_addr kSkipBytes s;
    WriteDirectJumpTrampolineTo (target_code_addr + kSkipBytes) jump_to s
  else WriteDirectJumpTrampolineTo target_code_addr jump_to s.
Definition backup_size (skip : bool) : Z := kDirectJumpTrampolineSize + (if skip then kSkipBytes else 0).
Definition install_inline (make : Z -> State -> option (Z * State)) (target : Z) (skip : bool) (s : State) : option (Z * State) :=
  target_code_addr ← GetEntryPointFromCompiledCode target s;
  if negb (Unprotect target_code_addr) then Some (0, s)
  else
    '(backup, s) ← Backup target (backup_size skip) s;
    if backup =? 0 then Some (0, s)
    else
      '(t, s) ← make backup s;
      if t =? 0 then Some (0, s)
      else s ← patch_code target_code_addr t skip s; Some (backup, s).
Definition InstallInlineTrampoline (target bridge : Z) : bool -> State -> option (Z * State) :=
  install_inline (fun backup => CreateBridgeJumpTrampoline target bridge backup) target.
Definition InstallDirectJumpInlineTrampoline (target replacement : Z) : bool -> State -> option (Z * State) :=
  install_inline (fun _ => CreateMethodJumpTrampoline replacement) target.
Definition NativeHookNoBackup (target to : Z) (s : State) : option (bool * State) :=
  if negb (Unprotect target) then Some (false, s)
  else s ← WriteDirectJumpTrampolineTo target to s; Some (true, s).
Definition FillWithNop (target size : Z) (s : State) : option (bool * State) :=
  if negb (Unprotect target) then Some (false, s)
  else s ← FillWithNopImpl target size s; Some (true, s).
End Installer.

Example sizes : template_size pine_bridge_jump_trampoline = 160 /\ template_size pine_method_jump_trampoline = 32 /\
  template_size pine_backup_trampoline = 64 /\ template_size pine_direct_jump_trampoline = 16.
Proof. by vm_compute. Qed.

End Trampoline.
