(* ===== verification/TrampolineRun.v ===== *)
(** * What the trampolines do

    Runs of the code the installer leaves in memory: the jump over a method's
    start, the bridge trampoline for the hooked method and for others, and
    the backup of the start that was written over. *)
From stdpp Require Import strings.
From S2P Require Import Prelude.
From S2P Require Import Arm64.
From S2P Require Import Trampoline.
Import Ram Arm64 Trampoline.
Local Open Scope cint_scope.

Module TrampolineRun.

(** The instructions of the templates; what follows them is data. *)
Definition direct_code : list Z := take 2 (assemble pine_direct_jump_trampoline).
Definition bridge_code : list Z := take 29 (assemble pine_bridge_jump_trampoline).
Definition method_code : list Z := take 3 (assemble pine_method_jump_trampoline).
Definition backup_head : list Z := take 1 (assemble pine_backup_trampoline).
Definition backup_tail : list Z := take 2 (drop 7 (assemble pine_backup_trampoline)).

Section Run.
Context (exec_other : Z -> cpu -> option cpu).
Abbreviation step := (step exec_other).
Abbreviation steps := (steps exec_other).

Lemma in_u32_dec w : (0 <=? w) && (w <? 2 ^ 32) = true -> in_u 32 w.
Proof. unfold in_u. lia. Qed.

Lemma update_at f i v j : update f i v j = if i =? j then v else f j.
Proof. done. Qed.

(** One instruction of a template, by its place in it; the state stays a
    record. *)
Ltac state :=
  cbv beta iota zeta delta [exec mbind option_bind next goto set_x set_zf set_excl set_mem x d sp pc zf excl mem reg];
  cbn [Z.eqb Pos.eqb]; rewrite ?update_at; cbn [Z.eqb Pos.eqb].
Ltac one Hc k :=
  lazymatch type of Hc with
  | code_at _ ?a ?ws => match goal with |- context [Arm64.step exec_other ?s] =>
      lazymatch eval vm_compute in (ws !! k) with
      | Some ?w =>
          lazymatch eval vm_compute in (decode w) with
          | Some ?i =>
              rewrite (step_at exec_other s a ws k w i Hc);
              [|cbn [pc]; lia|vm_compute; reflexivity|apply in_u32_dec; reflexivity|vm_compute; reflexivity]
          end
      end end
  end; state.

(** A load of a pointer of the data behind the code. *)
Lemma load_ptr m a v p : holds m a (le_bytes 8 v) -> p = a -> in_u 64 v -> load 8 m p = Some v.
Proof. intros H -> Hv. by apply load_holds. Qed.
Ltac ptr H v :=
  match goal with |- context [load 8 ?m ?p] => rewrite (load_ptr m _ v p H) by (lia || done) end; state.

Lemma direct_jump_runs c a to : code_at (mem c) a direct_code -> holds (mem c) (a + 8) (le_bytes 8 to) -> in_u 64 to -> pc c = a ->
  steps 2 c = Some (goto to (set_x 17 to c)).
Proof.
  destruct c as [X D SP PC ZF EX M]. cbn [mem pc]. intros Hc Hd Hto Hp. cbn [Arm64.steps]. one Hc 0%nat. ptr Hd to. one Hc 1%nat. done.
Qed.

(** ** The bridge trampoline *)

Record bridge_at (m : ram) (a target extras bridge entry origin : Z) : Prop := {
  ba_code : code_at m a bridge_code;
  ba_target : holds m (a + 116) (le_bytes 8 target);
  ba_extras : holds m (a + 124) (le_bytes 8 extras);
  ba_bridge : holds m (a + 132) (le_bytes 8 bridge);
  ba_entry : holds m (a + 140) (le_bytes 8 entry);
  ba_origin : holds m (a + 148) (le_bytes 8 origin) }.
Lemma bridge_at_agree e n m m' a target extras bridge entry origin : agree_outside e n m m' -> (a + 156 <= e \/ e + n <= a) ->
  bridge_at m a target extras bridge entry origin -> bridge_at m' a target extras bridge entry origin.
Proof.
  intros Ha Hd []. assert (Hl : length (word_bytes bridge_code) = 116%nat) by done.
  split; (eapply holds_agree; [exact Ha|rewrite ?Hl, ?length_le_bytes; lia|done]).
Qed.

Lemma bridge_passes c a target extras bridge entry origin : bridge_at (mem c) a target extras bridge entry origin ->
  in_u 64 target -> in_u 64 origin -> pc c = a -> x c 0 <> target ->
  steps 5 c = Some (goto origin (set_x 17 origin (set_zf false (set_x 17 target c)))).
Proof.
  destruct c as [X D SP PC ZF EX M]. cbn [mem pc x]. intros [Hc Ht _ _ _ Ho] Htu Hou Hp Hx. cbn [Arm64.steps].
  one Hc 0%nat. ptr Ht target. one Hc 1%nat. destruct (Z.eqb_spec (X 0) target) as [|_]; [done|].
  one Hc 2%nat. one Hc 27%nat. ptr Ho origin. one Hc 28%nat. done.
Qed.

(** A run of stores behind x17. *)
Inductive saved := SaveX (t : Z) | SaveD (t : Z).
Definition save_inst (p : saved * Z) : inst := match p with (SaveX t, off) => SturX t 17 off | (SaveD t, off) => SturD t 17 off end.
Definition save_value (c : cpu) (r : saved) : Z := match r with SaveX t => reg c t | SaveD t => d c t end.
Definition save_all (c : cpu) (e : Z) (ps : list (saved * Z)) (m : ram) : ram :=
  fold_left (fun m p => put m (e + snd p) (le_bytes 8 (save_value c (fst p)))) ps m.
Lemma save_runs a ws e ps : forall (k : nat) c, code_at (mem c) a ws -> pc c = a + 4 * Z.of_nat k -> reg c 17 = e ->
  (forall j p, ps !! j = Some p -> 0 <= snd p <= 84 /\ exists w, ws !! (k + j)%nat = Some w /\ in_u 32 w /\ decode w = Some (save_inst p)) ->
  is_mapped (mem c) e 92 -> (a + 4 * Z.of_nat (length ws) <= e \/ e + 92 <= a) ->
  steps (length ps) c = Some (goto (a + 4 * Z.of_nat (k + length ps)) (set_mem (save_all c e ps (mem c)) c)).
Proof.
  induction ps as [|[r off] ps IH]; intros k c Hc Hp He Hps Hm Hd.
  - rewrite Nat.add_0_r, <- Hp. by destruct c.
  - destruct (Hps 0%nat _ eq_refl) as (Ho & w & Hw & Hu & Hdec). rewrite Nat.add_0_r in Hw. cbn [snd] in Ho.
    cbn [length Arm64.steps]. rewrite (step_at exec_other _ _ _ _ _ _ Hc Hp Hw Hu Hdec).
    set (c1 := next (set_mem (put (mem c) (e + off) (le_bytes 8 (save_value c r))) c)).
    assert (Hx : exec (save_inst (r, off)) c = Some c1).
    { assert (Hst : forall v, store_int 8 (mem c) (reg c 17 + off) v = Some (put (mem c) (e + off) (le_bytes 8 v))).
      { intros v. rewrite He. apply store_mapped. rewrite length_le_bytes. intros y Hy. apply Hm. lia. }
      destruct r as [t|t]; cbn [save_inst exec]; by rewrite Hst. }
    rewrite Hx. cbn [mbind option_bind]. rewrite (IH (S k) c1).
    + assert (Hs : forall qs m, save_all c1 e qs m = save_all c e qs m).
      { induction qs as [|[[] o] qs IHq]; intros m; [done|exact (IHq _)..]. }
      rewrite Hs, Nat.add_succ_r. reflexivity.
    + unfold c1. cbn [mem next goto set_mem]. eapply holds_agree; [apply put_outside| |exact Hc].
      rewrite length_word_bytes, length_le_bytes. lia.
    + unfold c1. cbn [pc next goto set_mem]. lia.
    + done.
    + intros j p Hj. rewrite Nat.add_succ_l, <- Nat.add_succ_r. by apply Hps.
    + unfold c1. cbn [mem next goto set_mem]. by apply put_mapped.
    + done.
Qed.

Definition bridge_saves : list (saved * Z) :=
  [(SaveX 1, 4); (SaveX 2, 12); (SaveX 3, 20); (SaveD 0, 28); (SaveD 1, 36); (SaveD 2, 44); (SaveD 3, 52); (SaveD 4, 60);
   (SaveD 5, 68); (SaveD 6, 76); (SaveD 7, 84)].
(** The extras of a call: locked, with the registers of the call. *)
Definition call_extras (c : cpu) : list Z :=
  le_bytes 4 0 ++ concat (List.map (fun i => le_bytes 8 (x c i)) [1; 2; 3]) ++
  concat (List.map (fun i => le_bytes 8 (d c i)) [0; 1; 2; 3; 4; 5; 6; 7]).

Lemma save_all_holds c e ps : forall m l, holds m e l -> (forall j p, ps !! j = Some p -> snd p = Z.of_nat (length l + 8 * j)) ->
  holds (save_all c e ps m) e (l ++ concat (List.map (fun p => le_bytes 8 (save_value c (fst p))) ps)).
Proof.
  induction ps as [|p ps IH]; intros m l H Hps; [by rewrite app_nil_r|]. cbn [List.map concat save_all fold_left]. rewrite app_assoc.
  apply IH.
  - apply holds_grow; [done|]. rewrite (Hps 0%nat p eq_refl). lia.
  - intros j q Hj. rewrite (Hps (S j) q Hj), length_app, length_le_bytes. lia.
Qed.
Lemma save_all_agree c e ps : forall m, Forall (fun p => 0 <= snd p <= 84) ps -> agree_outside e 92 m (save_all c e ps m).
Proof.
  induction ps as [|p ps IH]; intros m Hps; [reflexivity|]. inversion Hps; subst. cbn [save_all fold_left].
  etransitivity; [|by apply IH]. eapply agree_within; [apply put_outside|lia|rewrite length_le_bytes; lia].
Qed.

(** What a call of the hooked method has become at the bridge's entry. *)
Record bridged (c c' : cpu) (target extras bridge entry : Z) : Prop := {
  br_pc : pc c' = entry;
  br_x0 : x c' 0 = bridge; br_x1 : x c' 1 = target; br_x2 : x c' 2 = extras; br_x3 : x c' 3 = sp c;
  br_x i : i <> 0 -> i <> 1 -> i <> 2 -> i <> 3 -> i <> 16 -> i <> 17 -> x c' i = x c i;
  br_d : d c' = d c; br_sp : sp c' = sp c;
  br_extras : holds (mem c') extras (call_extras c);
  br_mem : agree_outside extras 92 (mem c) (mem c') }.

(** To the lock of the extras. *)
Lemma bridge_enters c a target extras bridge entry origin : bridge_at (mem c) a target extras bridge entry origin ->
  in_u 64 target -> in_u 64 extras -> pc c = a -> x c 0 = target ->
  exists c', steps 5 c = Some c' /\ pc c' = a + 4 * 6 /\ x c' 17 = extras /\ (forall i, i <> 17 -> x c' i = x c i) /\
    d c' = d c /\ sp c' = sp c /\ mem c' = mem c.
Proof.
  destruct c as [X D SP PC ZF EX M]. cbn [mem pc x]. intros [Hc Ht He _ _ _] Htu Heu Hp Hx. cbn [Arm64.steps].
  one Hc 0%nat. ptr Ht target. one Hc 1%nat. rewrite Hx, Z.eqb_refl. one Hc 2%nat. one Hc 3%nat. ptr He extras.
  one Hc 4%nat. eexists. split; [reflexivity|]. state. split_and!; try reflexivity; [lia|].
  intros i H17. rewrite !update_at. by replace (17 =? i) with false by lia.
Qed.
(** Taking it, when it is free. *)
Lemma bridge_locks c a target extras bridge entry origin : bridge_at (mem c) a target extras bridge entry origin ->
  pc c = a + 4 * 6 -> x c 17 = extras -> holds (mem c) extras (le_bytes 4 1) -> (a + 156 <= extras \/ extras + 92 <= a) ->
  exists c', steps 4 c = Some c' /\ pc c' = a + 4 * 10 /\ (forall i, i <> 16 -> x c' i = x c i) /\
    d c' = d c /\ sp c' = sp c /\ mem c' = put (mem c) extras (le_bytes 4 0).
Proof.
  destruct c as [X D SP PC ZF EX M]. cbn [mem pc x]. intros [Hc _ _ _ _ _] Hp Hx Hl Hd. cbn [Arm64.steps]. one Hc 6%nat. rewrite Hx.
  assert (Hone : load 4 M extras = Some 1) by (apply load_holds; [done|by apply in_u32_dec]). rewrite Hone. state.
  one Hc 7%nat. change (U32 1 =? 0) with false. cbv iota.
  one Hc 8%nat. rewrite Hx, bool_decide_eq_true_2 by done. change (U32 0) with 0.
  unfold store_int. rewrite store_mapped by (by apply (holds_mapped _ _ _ Hl)). state.
  assert (Hc9 : code_at (put M extras (le_bytes 4 0)) a bridge_code).
  { eapply holds_agree; [apply put_outside| |exact Hc]. rewrite length_le_bytes.
    assert (length (word_bytes bridge_code) = 116%nat) as -> by done. lia. }
  one Hc9 9%nat. change (U32 0 =? 0) with true. cbv iota. state.
  eexists. split; [reflexivity|]. state. split_and!; try reflexivity; [lia|].
  intros i H16. rewrite !update_at. by replace (16 =? i) with false by lia.
Qed.

(** From the lock to the bridge method. *)
Lemma bridge_calls c a target extras bridge entry origin : bridge_at (mem c) a target extras bridge entry origin ->
  in_u 64 bridge -> in_u 64 entry -> pc c = a + 4 * 21 ->
  exists c', steps 6 c = Some c' /\ pc c' = entry /\ x c' 0 = bridge /\ x c' 1 = x c 0 /\ x c' 2 = x c 17 /\ x c' 3 = sp c /\
    (forall i, i <> 0 -> i <> 1 -> i <> 2 -> i <> 3 -> i <> 17 -> x c' i = x c i) /\ d c' = d c /\ sp c' = sp c /\ mem c' = mem c.
Proof.
  destruct c as [X D SP PC ZF EX M]. cbn [mem pc x]. intros [Hc _ _ Hb He _] Hbu Heu Hp. cbn [Arm64.steps].
  one Hc 21%nat. one Hc 22%nat. one Hc 23%nat. one Hc 24%nat. ptr Hb bridge. one Hc 25%nat. ptr He entry. one Hc 26%nat.
  eexists. split; [reflexivity|]. state. split_and!; try reflexivity.
  intros i H0 H1 H2 H3 H17. rewrite !update_at. replace (17 =? i) with false by lia. replace (0 =? i) with false by lia.
  replace (3 =? i) with false by lia. replace (2 =? i) with false by lia. by replace (1 =? i) with false by lia.
Qed.

Lemma bridge_hooked c a target extras bridge entry origin : bridge_at (mem c) a target extras bridge entry origin ->
  in_u 64 target -> in_u 64 extras -> in_u 64 bridge -> in_u 64 entry -> pc c = a -> x c 0 = target ->
  holds (mem c) extras (le_bytes 4 1) -> is_mapped (mem c) extras 92 -> (a + 156 <= extras \/ extras + 92 <= a) ->
  exists c', steps 26 c = Some c' /\ bridged c c' target extras bridge entry.
Proof.
  intros Hb Ht He Hbu Heu Hp Hx Hl Hm Hd.
  destruct (bridge_enters _ _ _ _ _ _ _ Hb Ht He Hp Hx) as (c0 & S0 & P0 & E0 & X0 & D0 & SP0 & M0).
  destruct (bridge_locks c0 a target extras bridge entry origin) as (c1 & S1 & P1 & X1 & D1 & SP1 & M1); [by rewrite ?M0..|done|].
  rewrite M0 in M1. assert (XS : forall i, i <> 16 -> i <> 17 -> x c1 i = x c i) by (intros; rewrite X1, X0 by done; done).
  assert (A1 : agree_outside extras 92 (mem c) (mem c1)).
  { rewrite M1. eapply agree_within; [apply put_outside|lia|rewrite length_le_bytes; lia]. }
  assert (B1 : bridge_at (mem c1) a target extras bridge entry origin) by (by eapply bridge_at_agree).
  assert (S2 : steps 11 c1 = Some (goto (a + 4 * 21) (set_mem (save_all c1 extras bridge_saves (mem c1)) c1))).
  { apply (save_runs a bridge_code extras bridge_saves 10); [by destruct B1|done|by rewrite <- E0; apply X1| | |].
    - intros j p Hj. do 11 (destruct j as [|j]; [injection Hj as <-; split; [cbn; lia|eexists; split; [vm_compute; reflexivity|split;
        [apply in_u32_dec; reflexivity|vm_compute; reflexivity]]]|]). done.
    - rewrite M1. by apply put_mapped.
    - change (Z.of_nat (length bridge_code)) with 29. lia. }
  set (c2 := goto _ _) in S2.
  assert (A2 : agree_outside extras 92 (mem c1) (mem c2)) by (apply save_all_agree; repeat (constructor; [cbn; lia|]); constructor).
  destruct (bridge_calls c2 a target extras bridge entry origin) as (c3 & S3 & P3 & Y0 & Y1 & Y2 & Y3 & YR & D3 & SP3 & M3);
    [by eapply bridge_at_agree|done..|].
  exists c3. split.
  { change 26%nat with (5 + (4 + (11 + 6)))%nat. rewrite !steps_add, S0. cbn [mbind option_bind]. rewrite steps_add, S1.
    cbn [mbind option_bind]. by rewrite steps_add, S2. }
  split; try congruence.
  - rewrite Y1. change (x c2 0) with (x c1 0). by rewrite XS.
  - rewrite Y2. change (x c2 17) with (x c1 17). by rewrite X1.
  - rewrite Y3. change (sp c2) with (sp c1). congruence.
  - intros i ? ? ? ? ? ?. rewrite YR by done. change (x c2 i) with (x c1 i). by apply XS.
  - rewrite D3. change (d c2) with (d c1). congruence.
  - rewrite SP3. change (sp c2) with (sp c1). congruence.
  - rewrite M3. unfold call_extras.
    pose proof (save_all_holds c1 extras bridge_saves (mem c1) (le_bytes 4 0)) as H. cbn [mem c2 goto set_mem].
    cbn [List.map bridge_saves save_value fst reg Z.eqb Pos.eqb concat] in H. rewrite D1, D0, !XS in H by done.
    apply H; [rewrite M1; apply holds_put|]. intros j p Hj. do 11 (destruct j as [|j]; [by injection Hj as <-|]). done.
  - rewrite M3. by etransitivity.
Qed.

(** ** The backup *)

Definition exec_word (w : Z) (c : cpu) : option cpu := match decode w with Some i => exec i c | None => exec_other w c end.
(** Words that neither are pc-relative, as the installer tests, nor branch to
    a register. *)
Definition moveable (w : Z) : Prop := IsPCRelatedInst w = false /\ w & 0xFE000000 <> 0xD6000000.
(** The other instructions: those depend on where they are only through the
    place of the next one. *)
Definition others_moveable : Prop := forall w c p c1, moveable w -> decode w = None -> exec_other w c = Some c1 ->
  pc c1 = pc c + 4 /\ exec_other w (goto p c) = Some (goto (p + 4) c1).

Lemma mask_sub w M V m : w & M = V -> M & m = m -> w & m = V & m.
Proof. intros <- E. by rewrite <- Z.land_assoc, E. Qed.
Lemma pc_related_mask w M V : w & M = V ->
  (M & 0xff000010 = 0xff000010 /\ V & 0xff000010 = 0x54000000) \/ (M & 0x7c000000 = 0x7c000000 /\ V & 0x7c000000 = 0x14000000) \/
  (M & 0x7e000000 = 0x7e000000 /\ V & 0x7e000000 = 0x34000000) \/ (M & 0x7e000000 = 0x7e000000 /\ V & 0x7e000000 = 0x36000000) \/
  (M & 0x3b000000 = 0x3b000000 /\ V & 0x3b000000 = 0x18000000) \/ (M & 0x1f000000 = 0x1f000000 /\ V & 0x1f000000 = 0x10000000) ->
  IsPCRelatedInst w = true.
Proof.
  unfold IsPCRelatedInst. intros H D. repeat (case_match; [done|]).
  destruct D as [[E1 E2]|[[E1 E2]|[[E1 E2]|[[E1 E2]|[[E1 E2]|[E1 E2]]]]]]; rewrite (mask_sub _ _ _ _ H E1), E2 in *; done.
Qed.

Definition sequential (i : inst) : bool :=
  match i with LdrLit _ _ | Br _ | BNe _ | B _ | Cbz _ _ | Cbnz _ _ => false | _ => true end.
Lemma exec_sequential i c p c1 : sequential i = true -> exec i c = Some c1 ->
  pc c1 = pc c + 4 /\ exec i (goto p c) = Some (goto (p + 4) c1).
Proof.
  destruct c as [X D SP PC ZF EX M]. intros Hs. destruct i; try discriminate Hs; state; intros H.
  all: repeat match type of H with
       | context [bool_decide ?b] => destruct (bool_decide b)
       | context [load ?n ?m ?a] => destruct (load n m a); [|discriminate H]
       | context [store_int ?n ?m ?a ?v] => destruct (store_int n m a v); [|discriminate H]
       end; by injection H as <-.
Qed.
Lemma decode_sequential w i : moveable w -> decode w = Some i -> sequential i = true.
Proof.
  intros [Hpc Hbr]. unfold decode.
  assert (Hno : forall M V, w & M = V -> IsPCRelatedInst w = true -> sequential i = true) by (intros; congruence).
  repeat (case_match; [intros [= <-];
    first [ reflexivity
          | match goal with E : (w & _ =? _) = true |- _ => apply Z.eqb_eq in E; apply (Hno _ _ E), (pc_related_mask w _ _ E); vm_compute; tauto end
          | match goal with E : (w & _ =? _) = true |- _ => apply Z.eqb_eq in E; exfalso; apply Hbr; by rewrite (mask_sub _ _ _ 0xFE000000 E) end ] |]).
  done.
Qed.
(** A moveable instruction goes on behind itself, wherever it is. *)
Lemma exec_moved w c p c1 : others_moveable -> moveable w -> exec_word w c = Some c1 ->
  pc c1 = pc c + 4 /\ exec_word w (goto p c) = Some (goto (p + 4) c1).
Proof.
  intros Ho Hw. unfold exec_word. destruct (decode w) as [i|] eqn:Ed; [|by apply Ho].
  apply exec_sequential. by eapply decode_sequential.
Qed.

(** [ws] run in order, leaving the [n] bytes at [g] alone. *)
Inductive runs (g n : Z) : list Z -> cpu -> cpu -> Prop :=
| runs_nil c : runs g n [] c c
| runs_cons w ws c c1 c2 : exec_word w c = Some c1 -> (forall y, g <= y < g + n -> mem c1 y = mem c y) ->
    runs g n ws c1 c2 -> runs g n (w :: ws) c c2.
Lemma runs_mem g n ws c c2 : runs g n ws c c2 -> forall y, g <= y < g + n -> mem c2 y = mem c y.
Proof. induction 1 as [|w ws c c1 c2 _ H1 _ IH]; intros y Hy; [done|]. by rewrite IH, H1. Qed.
Lemma holds_same m m' g n a l : (forall y, g <= y < g + n -> m' y = m y) -> g <= a -> a + Z.of_nat (length l) <= g + n ->
  holds m a l -> holds m' a l.
Proof. intros Hm Ha Hl H i b Hi. pose proof (lookup_lt_Some _ _ _ Hi). rewrite Hm by lia. by apply H. Qed.

(** The same run somewhere else. *)
Lemma runs_moved g n a ws all : others_moveable -> Forall moveable ws -> Forall (in_u 32) ws ->
  forall c c2 (k : nat), runs g n ws c c2 -> code_at (mem c) a all -> g <= a -> a + 4 * Z.of_nat (length all) <= g + n ->
  (forall j w, ws !! j = Some w -> all !! (k + j)%nat = Some w) ->
  steps (length ws) (goto (a + 4 * Z.of_nat k) c) = Some (goto (a + 4 * Z.of_nat (k + length ws)) c2).
Proof.
  intros Ho Hmv Hu c c2 k Hr. revert k Hmv Hu. induction Hr as [c|w ws c c1 c2 Hx Hg Hr IH]; intros k Hmv Hu Hc Ha Hn Hall.
  { by rewrite Nat.add_0_r. }
  inversion Hmv; subst. inversion Hu; subst. destruct (exec_moved w c (a + 4 * Z.of_nat k) c1) as [_ Hx1]; [done..|].
  assert (Hs : step (goto (a + 4 * Z.of_nat k) c) = exec_word w (goto (a + 4 * Z.of_nat k) c)).
  { unfold Arm64.step. rewrite (fetch (mem c) a all k w _ Hc); [done| |done|done].
    rewrite <- (Nat.add_0_r k). by apply (Hall 0%nat). }
  cbn [length Arm64.steps]. rewrite Hs, Hx1. cbn [mbind option_bind].
  replace (a + 4 * Z.of_nat k + 4) with (a + 4 * Z.of_nat (S k)) by lia. rewrite (IH (S k)); try done.
  - by rewrite Nat.add_succ_r.
  - eapply holds_same; [exact Hg|done|rewrite length_word_bytes; lia|done].
  - intros j v Hj. rewrite Nat.add_succ_l, <- Nat.add_succ_r. by apply Hall.
Qed.

(** The start of a method, and no-operations in the place left. *)
Definition backup_words (ws : list Z) : list Z := backup_head ++ ws ++ replicate (6 - length ws) nop_word ++ backup_tail.
Record backup_at (m : ram) (a target : Z) (ws : list Z) (remaining : Z) : Prop := {
  bk_code : code_at m a (backup_words ws);
  bk_origin : holds m (a + 36) (le_bytes 8 target);
  bk_remaining : holds m (a + 44) (le_bytes 8 remaining) }.

Lemma nops_run a all n : forall (k : nat) c, code_at (mem c) a all -> pc c = a + 4 * Z.of_nat k ->
  (forall j, (j < n)%nat -> all !! (k + j)%nat = Some nop_word) -> steps n c = Some (goto (a + 4 * Z.of_nat (k + n)) c).
Proof.
  induction n as [|n IH]; intros k c Hc Hp Hn.
  { rewrite Nat.add_0_r, <- Hp. by destruct c. }
  cbn [Arm64.steps]. rewrite (step_at exec_other _ _ _ k nop_word Nop Hc Hp); [|rewrite <- (Nat.add_0_r k); apply Hn; lia|by apply in_u32_dec|done].
  cbn [exec mbind option_bind]. rewrite (IH (S k)); [by rewrite Nat.add_succ_r|done|cbn [pc next goto]; lia|].
  intros j Hj. rewrite Nat.add_succ_l, <- Nat.add_succ_r. apply Hn. lia.
Qed.

Lemma backup_words_at ws : (length ws <= 6)%nat -> length (backup_words ws) = 9%nat /\ backup_words ws !! 0%nat = Some 0x58000120 /\
  backup_words ws !! 7%nat = Some 0x58000091 /\ backup_words ws !! 8%nat = Some 0xd61f0220 /\
  (forall j w, ws !! j = Some w -> backup_words ws !! (1 + j)%nat = Some w) /\
  (forall j, (j < 6 - length ws)%nat -> backup_words ws !! (1 + length ws + j)%nat = Some nop_word).
Proof.
  intros Hl. unfold backup_words. assert (H1 : length backup_head = 1%nat) by done. assert (H2 : length backup_tail = 2%nat) by done.
  split_and!.
  - rewrite !length_app, length_replicate. lia.
  - done.
  - rewrite lookup_app_r by lia. rewrite lookup_app_r by lia. rewrite lookup_app_r by (rewrite length_replicate; lia).
    rewrite length_replicate, H1. by replace (7 - 1 - length ws - (6 - length ws))%nat with 0%nat by lia.
  - rewrite lookup_app_r by lia. rewrite lookup_app_r by lia. rewrite lookup_app_r by (rewrite length_replicate; lia).
    rewrite length_replicate, H1. by replace (8 - 1 - length ws - (6 - length ws))%nat with 1%nat by lia.
  - intros j w Hj. rewrite lookup_app_r by lia. rewrite H1. replace (1 + j - 1)%nat with j by lia. by apply lookup_app_l_Some.
  - intros j Hj. rewrite lookup_app_r by lia. rewrite lookup_app_r by lia. rewrite H1.
    replace (1 + length ws + j - 1 - length ws)%nat with j by lia. apply lookup_app_l_Some. by apply lookup_replicate_2.
Qed.

(** The backup loads the method, runs what was written over, as at its own
    place, and goes on behind it. *)
Lemma backup_runs c a target ws code remaining c2 : others_moveable -> Forall moveable ws -> Forall (in_u 32) ws ->
  (length ws <= 6)%nat -> backup_at (mem c) a target ws remaining -> in_u 64 target -> in_u 64 remaining -> pc c = a ->
  runs a 52 ws (goto code (set_x 0 target c)) c2 -> steps 9 c = Some (goto remaining (set_x 17 remaining c2)).
Proof.
  intros Ho Hmv Hu Hl [Hc Ht Hrem] Htu Hru Hp Hr.
  destruct (backup_words_at ws Hl) as (L & W0 & W7 & W8 & Ww & Wn).
  assert (Hhead : steps 1 c = Some (goto (a + 4 * Z.of_nat 1) (set_x 0 target c))).
  { cbn [Arm64.steps]. rewrite (step_at exec_other c a _ 0 0x58000120 (LdrLit 0 36) Hc); [|lia|exact W0|by apply in_u32_dec|by vm_compute].
    cbn [exec]. rewrite (load_ptr _ _ target _ Ht) by (lia || done). cbn [mbind option_bind]. unfold next. cbn [pc set_x].
    by rewrite Hp. }
  pose proof (runs_mem _ _ _ _ _ Hr) as Hm2. cbn [mem goto set_x] in Hm2.
  assert (Hws : steps (length ws) (goto (a + 4 * Z.of_nat 1) (set_x 0 target c)) = Some (goto (a + 4 * Z.of_nat (1 + length ws)) c2)).
  { apply (runs_moved a 52 a ws (backup_words ws) Ho Hmv Hu (goto code (set_x 0 target c)) c2 1 Hr); [done|lia|rewrite L; lia|done]. }
  assert (Hcode : code_at (mem c2) a (backup_words ws)).
  { eapply holds_same; [exact Hm2|lia|rewrite length_word_bytes, L; lia|exact Hc]. }
  assert (Hrem2 : holds (mem c2) (a + 44) (le_bytes 8 remaining)).
  { eapply holds_same; [exact Hm2|lia|rewrite length_le_bytes; lia|exact Hrem]. }
  set (c3 := goto (a + 4 * Z.of_nat (1 + length ws)) c2) in *.
  assert (Hnop : steps (6 - length ws) c3 = Some (goto (a + 4 * Z.of_nat 7) c3)).
  { rewrite (nops_run a (backup_words ws) (6 - length ws) (1 + length ws) c3 Hcode eq_refl Wn).
    by replace (1 + length ws + (6 - length ws))%nat with 7%nat by lia. }
  assert (Htail : steps 2 (goto (a + 4 * Z.of_nat 7) c3) = Some (goto remaining (set_x 17 remaining c2))).
  { cbn [Arm64.steps]. rewrite (step_at exec_other (goto (a + 4 * Z.of_nat 7) c3) a _ 7 0x58000091 (LdrLit 17 16) Hcode);
      [|done|exact W7|by apply in_u32_dec|by vm_compute].
    cbn [exec]. rewrite (load_ptr (mem c2) _ remaining _ Hrem2) by (cbn [pc goto]; lia || done). cbn [mbind option_bind].
    rewrite (step_at exec_other (next (set_x 17 remaining (goto (a + 4 * Z.of_nat 7) c3))) a _ 8 0xd61f0220 (Br 17) Hcode);
      [done|cbn [pc next goto set_x]; lia|exact W8|by apply in_u32_dec|by vm_compute]. }
  replace 9%nat with (1 + (length ws + ((6 - length ws) + 2)))%nat by lia.
  rewrite steps_add, Hhead. cbn [mbind option_bind]. rewrite steps_add, Hws. cbn [mbind option_bind]. fold c3.
  rewrite steps_add, Hnop. cbn [mbind option_bind]. exact Htail.
Qed.

End Run.
End TrampolineRun.
