(* ===== verification/TrampolineProofs.v ===== *)
(** * What an installation leaves in memory

    The allocator never gives the same byte twice, and the installer writes
    only to what it was given and to the start of the hooked code.  An inline
    hook therefore leaves the jump, the bridge trampoline and the backup that
    TrampolineRun.v runs. *)
From stdpp Require Import strings.
From S2P Require Import Prelude.
From S2P Require Import Arm64.
From S2P Require Import Trampoline.
From S2P Require Import TrampolineRun.
Import Ram Arm64 Trampoline TrampolineRun.
Local Open Scope cint_scope.

Module TrampolineProofs.

(** The platform: pages and objects are new, and lie in the address space. *)
Record platform_ok (page_size : Z) (mmap : State -> option Z) (operator_new : Z -> State -> option Z) : Prop := {
  pf_page : 0 < page_size;
  pf_mmap s p : mmap s = Some p -> 0 < p /\ p + page_size <= 2 ^ 64 /\ forall y, p <= y < p + page_size -> ram_ s y = None;
  pf_new n s p : operator_new n s = Some p -> 0 < p /\ p + n <= 2 ^ 64 /\ forall y, p <= y < p + n -> ram_ s y = None }.

Section Alloc.
Context (page_size : Z) (mmap : State -> option Z) (operator_new : Z -> State -> option Z).
Context (HP : platform_ok page_size mmap operator_new).
Abbreviation AllocUnprotected := (AllocUnprotected page_size mmap).

(** The pool is a page, of which the part from [pool_offset] on is free. *)
Definition pool_ok (s : State) : Prop := pool_address s <> 0 ->
  0 < pool_address s /\ pool_address s + page_size <= 2 ^ 64 /\ 0 <= pool_offset s <= page_size /\
  is_mapped (ram_ s) (pool_address s) page_size.
(** Bytes an allocation may give. *)
Definition avail (s : State) (y : Z) : Prop :=
  ram_ s y = None \/ (pool_address s <> 0 /\ pool_address s + pool_offset s <= y < pool_address s + page_size).
(** What was not available is unchanged, and stays so. *)
Record extends (s s' : State) : Prop := {
  ex_ok : pool_ok s -> pool_ok s';
  ex_kept y : ~ avail s y -> ram_ s' y = ram_ s y /\ ~ avail s' y }.
#[export] Instance extends_preorder : PreOrder extends.
Proof.
  split; [by split|]. intros a b c [O1 K1] [O2 K2]. split; [auto|]. intros y Hy. destruct (K1 y Hy) as [E1 A1].
  destruct (K2 y A1). split; [congruence|done].
Qed.
(** [n] bytes at [p] that were available and are not any more. *)
Definition given (s s' : State) (p n : Z) : Prop := forall y, p <= y < p + n -> avail s y /\ ~ avail s' y.

Lemma AllocUnprotected_spec size s p s' : 0 <= size -> pool_ok s -> AllocUnprotected size s = (p, s') -> p <> 0 ->
  extends s s' /\ given s s' p size /\ 0 < p /\ p + size <= 2 ^ 64 /\ is_mapped (ram_ s') p size.
Proof.
  intros Hs Hok. unfold Trampoline.AllocUnprotected. destruct (Z.ltb_spec page_size size) as [|Hfit]; [by intros [= <- <-]|].
  destruct (_ && _) eqn:Eb.
  - apply andb_prop in Eb as [Ea Ef]. apply negb_true_iff, Z.eqb_neq in Ea. apply Z.leb_le in Ef.
    destruct (Hok Ea) as (H0 & Hmax & Hoff & Hmap). intros [= <- <-] Hp.
    assert (Hav : forall y, avail (MkState (ram_ s) (pool_address s) (pool_offset s + size)) y ->
      ram_ s y = None \/ pool_address s + pool_offset s + size <= y < pool_address s + page_size).
    { intros y [|[_ H]]; [by left|right]. cbn [pool_address pool_offset] in H. lia. }
    split_and!; [split|..|lia|lia|].
    + intros _ _. cbn [pool_address pool_offset ram_]. split_and!; [done|done|lia|lia|done].
    + intros y Hy. split; [done|]. intros [|]%Hav; apply Hy; [by left|right; split; [done|lia]].
    + intros y Hy. split; [right; split; [done|lia]|]. intros [Hn|]%Hav; [|lia].
      destruct (Hmap y) as [b Hb]; [lia|congruence].
    + intros y Hy. apply Hmap. lia.
  - destruct (mmap s) as [q|] eqn:Em; [|by intros [= <- <-]]. destruct (pf_mmap _ _ _ HP _ _ Em) as (H0 & Hmax & Hnew).
    pose proof (pf_page _ _ _ HP) as Hpg. intros [= <- <-] Hp. set (m := put (ram_ s) q _).
    assert (Hl : Z.of_nat (length (replicate (Z.to_nat page_size) 0)) = page_size) by (rewrite length_replicate; lia).
    assert (Hin : forall y, q <= y < q + page_size -> is_Some (m y)).
    { intros y Hy. unfold m. rewrite put_inside by lia. apply lookup_lt_is_Some. lia. }
    assert (Hout : agree_outside q page_size (ram_ s) m) by (rewrite <- Hl; apply put_outside).
    assert (Hav : forall y, avail (MkState m q size) y -> (ram_ s y = None /\ ~ q <= y < q + page_size) \/ q + size <= y < q + page_size).
    { intros y [Hn|[_ H]]; [left|right; cbn [pool_address pool_offset] in H; lia]. cbn [ram_] in Hn.
      assert (Ho : ~ q <= y < q + page_size) by (intros Hy; destruct (Hin y Hy); congruence). by rewrite <- (Hout y Ho). }
    split_and!; [split|..|lia|lia|].
    + intros _ _. cbn [pool_address pool_offset ram_]. split_and!; [lia|lia|lia|lia|exact Hin].
    + intros y Hy. assert (Ho : ~ q <= y < q + page_size) by (intros Hq; apply Hy; left; by apply Hnew).
      split; [by apply Hout|]. intros [[Hn _]|]%Hav; [apply Hy; by left|lia].
    + intros y Hy. split; [left; apply Hnew; lia|]. intros [[_ Ho]|]%Hav; lia.
    + intros y Hy. apply Hin. lia.
Qed.

Lemma given_extends s1 s2 s3 p n : given s1 s2 p n -> extends s2 s3 -> given s1 s3 p n.
Proof. intros H [_ K] y Hy. destruct (H y Hy) as [? ?]. split; [done|by apply K]. Qed.
Lemma extends_given s1 s2 s3 p n : extends s1 s2 -> given s2 s3 p n -> given s1 s3 p n.
Proof.
  intros [_ K] H y Hy. destruct (H y Hy) as [Ha ?]. split; [|done]. destruct (decide (ram_ s1 y = None)); [by left|].
  destruct (decide (pool_address s1 <> 0 /\ pool_address s1 + pool_offset s1 <= y < pool_address s1 + page_size)); [by right|].
  destruct (K y) as [_ Hn]; [by intros [|]|by destruct Hn].
Qed.
Lemma given_disjoint s1 s2 s3 p n q k : given s1 s2 p n -> given s2 s3 q k -> 0 < n -> 0 < k -> p + n <= q \/ q + k <= p.
Proof.
  intros H1 H2 Hn Hk. destruct (decide (p + n <= q)); [by left|]. destruct (decide (q + k <= p)); [by right|].
  destruct (H1 (Z.max p q)) as [_ Ha]; [lia|]. destruct (H2 (Z.max p q)) as [Hb _]; [lia|done].
Qed.

Lemma pool_ok_put s a l : pool_ok s -> pool_ok (set_ram (put (ram_ s) a l) s).
Proof.
  intros Hok Ha. destruct (Hok Ha) as (H1 & H2 & H3 & H4). split; [done|split; [done|split; [done|by apply put_mapped]]].
Qed.
Lemma new_Extras_spec s e s' : pool_ok s -> new_Extras operator_new s = Some (e, s') ->
  extends s s' /\ given s s' e 92 /\ 0 < e /\ e + 92 <= 2 ^ 64 /\ ram_ s' = put (ram_ s) e extras_bytes.
Proof.
  intros Hok. unfold new_Extras. destruct (operator_new 92 s) as [p|] eqn:En; [|done]. intros [= <- <-].
  destruct (pf_new _ _ _ HP 92 s p En) as (H0 & Hmax & Hnew). rename p into e.
  assert (Hl : Z.of_nat (length extras_bytes) = 92) by done.
  assert (Hout : agree_outside e 92 (ram_ s) (put (ram_ s) e extras_bytes)) by (rewrite <- Hl; apply put_outside).
  assert (Hin : forall y, e <= y < e + 92 -> is_Some (put (ram_ s) e extras_bytes y)).
  { intros y Hy. rewrite put_inside by lia. apply lookup_lt_is_Some. lia. }
  split_and!; [split|..|lia|lia|done]; cbn [ram_ set_ram].
  - intros _. by apply pool_ok_put.
  - intros y Hy. assert (Ho : ~ e <= y < e + 92) by (intros H; apply Hy; left; by apply Hnew). split; [by apply Hout|].
    intros [Hn|H]; apply Hy; [left; by rewrite <- (Hout y Ho)|by right].
  - intros y Hy. split; [left; by apply Hnew|]. intros [Hn|[Ha H]]; [cbn [ram_ set_ram] in Hn; destruct (Hin y Hy); congruence|].
    cbn [pool_address pool_offset set_ram] in *. destruct (Hok Ha) as (_ & _ & ? & Hm). destruct (Hm y) as [b Hb]; [lia|].
    rewrite Hnew in Hb by done. done.
Qed.

Lemma memcpy_put a l s s' : memcpy a l s = Some s' -> s' = set_ram (put (ram_ s) a l) s.
Proof. unfold memcpy. destruct (store _ _ _) as [m|] eqn:E; [|done]. apply store_put in E as ->. by intros [= <-]. Qed.
Lemma avail_put s a l y : avail (set_ram (put (ram_ s) a l) s) y -> avail s y.
Proof.
  intros [Hn|H]; [left|by right]. cbn [ram_ set_ram] in Hn. destruct (decide (a <= y < a + Z.of_nat (length l))) as [Hy|Hy].
  - rewrite put_inside in Hn by done. apply lookup_ge_None in Hn. lia.
  - by rewrite <- (put_outside (ram_ s) a l y Hy).
Qed.
(** Writing what one has been given. *)
Lemma extends_put s0 s a l : extends s0 s -> (forall y, a <= y < a + Z.of_nat (length l) -> avail s0 y) ->
  extends s0 (set_ram (put (ram_ s) a l) s).
Proof.
  intros [Ho Hk] Ha. split.
  - intros Hok. by apply pool_ok_put, Ho.
  - intros y Hy. destruct (Hk y Hy) as [E A]. cbn [ram_ set_ram]. rewrite put_outside by (intros H; by apply Hy, Ha). split; [done|].
    intros H. by apply A, (avail_put s a l).
Qed.

(** ** The trampolines made *)

Context (entry_off : Z).
Abbreviation CreateBridge := (CreateBridgeJumpTrampoline page_size mmap operator_new entry_off).

(** A field of memory that no allocation will touch. *)
Definition owned (s : State) (a n : Z) : Prop := forall y, a <= y < a + n -> ~ avail s y.
Lemma owned_holds s s' a n l : extends s s' -> owned s a n -> Z.of_nat (length l) <= n -> holds (ram_ s) a l -> holds (ram_ s') a l.
Proof.
  intros [_ K] Ho Hl H i b Hi. pose proof (lookup_lt_Some _ _ _ Hi). destruct (K (a + Z.of_nat i)) as [-> _]; [apply Ho; lia|by apply H].
Qed.
Lemma owned_extends s s' a n : extends s s' -> owned s a n -> owned s' a n.
Proof. intros [_ K] Ho y Hy. by apply K, Ho. Qed.
Lemma read_extends s s' a n : extends s s' -> owned s a (Z.of_nat n) -> read (ram_ s') a n = read (ram_ s) a n.
Proof.
  intros He. revert a. induction n as [|n IH]; intros a Ho; [done|]. cbn [read].
  destruct (ex_kept _ _ He a) as [-> _]; [apply Ho; lia|]. rewrite IH; [done|]. intros y Hy. apply Ho. lia.
Qed.
Lemma entry_extends s s' m : extends s s' -> (0 <= entry_off -> owned s (m + entry_off) 8) ->
  GetEntryPointFromCompiledCode entry_off m s' = GetEntryPointFromCompiledCode entry_off m s.
Proof.
  intros He Ho. unfold GetEntryPointFromCompiledCode. destruct (Z.ltb_spec entry_off 0); [done|].
  unfold load. by rewrite (read_extends s s' _ 8 He (Ho H)).
Qed.

(** The bytes that writes elsewhere leave. *)
Ltac held :=
  first [ apply holds_put | eassumption
        | eapply holds_agree; [apply put_outside|rewrite ?length_le_bytes, ?length_word_bytes; cbn [length]; lia|held] ].
Ltac write H :=
  match type of H with
  | mbind _ (memcpy ?a ?l ?s) = _ =>
      let E := fresh "Ew" in destruct (memcpy a l s) eqn:E; [|discriminate H]; apply memcpy_put in E; subst; cbn [mbind option_bind] in H
  | mbind _ (set_ptr ?a ?v ?s) = _ => change (set_ptr a v s) with (memcpy a (le_bytes 8 v) s) in H; write H
  end.

Lemma given_put s0 s a l p n : given s0 s p n -> given s0 (set_ram (put (ram_ s) a l) s) p n.
Proof. intros H y Hy. destruct (H y Hy) as [Ha Hn]. split; [done|]. by intros Hav%avail_put. Qed.
Lemma made_put s0 s a l p n : extends s0 s -> given s0 s p n -> p <= a -> a + Z.of_nat (length l) <= p + n ->
  extends s0 (set_ram (put (ram_ s) a l) s) /\ given s0 (set_ram (put (ram_ s) a l) s) p n.
Proof. intros He Hg H1 H2. split; [|by apply given_put]. apply extends_put; [done|]. intros y Hy. apply Hg. lia. Qed.
Lemma template_holds m p n ls l : holds m p (template ls) -> take n (template ls) = l -> holds m p l.
Proof. intros H <-. rewrite <- (take_drop n (template ls)) in H. by apply holds_app in H as [H _]. Qed.

Lemma Some_pair {A B} (a a' : A) (b b' : B) : Some (a, b) = Some (a', b') -> a' = a /\ b' = b.
Proof. by intros [= -> ->]. Qed.
(** A block made since [s0], and the writes into it. *)
Definition made (s0 s : State) (p n : Z) : Prop := extends s0 s /\ given s0 s p n.
Lemma made_set s0 s p n a v : made s0 s p n -> p <= a -> a + 8 <= p + n -> made s0 (set_ram (put (ram_ s) a (le_bytes 8 v)) s) p n.
Proof. intros [He Hg] H1 H2. apply made_put; [done..|]. rewrite length_le_bytes. lia. Qed.
Ltac set_pointer H M off :=
  write H;
  match type of M with made ?s0 ?s ?p ?n =>
    match type of H with context [set_ram (put (ram_ s) (p + ?o) (le_bytes 8 ?v)) s] =>
      change o with off in H;
      let M' := fresh in pose proof (made_set s0 s p n (p + off) v M ltac:(lia) ltac:(lia)) as M'; clear M; rename M' into M;
      let s' := fresh "s" in set (s' := set_ram (put (ram_ s) (p + off) _) s) in *
    end
  end.

Lemma bridge_made s target bridge origin p s' : pool_ok s -> (0 <= entry_off -> owned s (bridge + entry_off) 8) ->
  CreateBridge target bridge origin s = Some (p, s') -> p <> 0 ->
  exists extras entry, GetEntryPointFromCompiledCode entry_off bridge s = Some entry /\
    made s s' p 160 /\ given s s' extras 92 /\ (p + 160 <= extras \/ extras + 92 <= p) /\
    0 < p /\ p + 160 <= 2 ^ 64 /\ 0 < extras /\ extras + 92 <= 2 ^ 64 /\
    bridge_at (ram_ s') p target extras bridge entry origin /\ holds (ram_ s') extras extras_bytes.
Proof.
  intros Hok Hb. unfold CreateBridgeJumpTrampoline. cbv zeta. change (template_size pine_bridge_jump_trampoline) with 160.
  destruct (AllocUnprotected 160 s) as [q s1] eqn:Ea. destruct (Z.eqb_spec q 0) as [->|Hq]; [by intros [= <- <-]|].
  destruct (AllocUnprotected_spec 160 s q s1 ltac:(lia) Hok Ea Hq) as (X1 & G1 & Hq0 & Hqm & _). intros H.
  write H. pose proof (made_put s s1 q (template pine_bridge_jump_trampoline) q 160 X1 G1 ltac:(lia) ltac:(done)) as M.
  change (made s (set_ram (put (ram_ s1) q (template pine_bridge_jump_trampoline)) s1) q 160) in M.
  set (s2 := set_ram (put (ram_ s1) q _) s1) in *. set_pointer H M 116.
  destruct (new_Extras operator_new s0) as [[e s3]|] eqn:En; [|discriminate H]. cbn [mbind option_bind] in H. destruct M as [X3 G3].
  destruct (new_Extras_spec s0 e s3 (ex_ok _ _ X3 Hok) En) as (X34 & Ge & He0 & Hem & Er4).
  pose proof (extends_given _ _ _ _ _ X3 Ge) as Ge4.
  assert (Hde : q + 160 <= e \/ e + 92 <= q) by (eapply given_disjoint; [exact G3|exact Ge|lia|lia]).
  assert (M : made s s3 q 160) by (split; [by etransitivity|by eapply given_extends]).
  set_pointer H M 124. set_pointer H M 132. rewrite (entry_extends s s5 bridge (proj1 M) Hb) in H.
  destruct (GetEntryPointFromCompiledCode entry_off bridge s) as [entry|]; [|discriminate H]. cbn [mbind option_bind] in H.
  set_pointer H M 140. set_pointer H M 148. apply Some_pair in H as [-> ->]. intros _.
  exists e, entry. split; [done|]. split; [done|]. split; [by repeat apply given_put|]. do 5 (split; [done|]).
  unfold s7, s6, s5, s4. cbn [ram_ set_ram]. rewrite Er4. unfold s0, s2. cbn [ram_ set_ram].
  assert (Hle : length extras_bytes = 92%nat) by done.
  split; [split|].
  { assert (Ht : holds (put (ram_ s1) q (template pine_bridge_jump_trampoline)) q (word_bytes bridge_code))
      by (eapply (template_holds _ _ 116); [apply holds_put|done]).
    assert (Hlc : length (word_bytes bridge_code) = 116%nat) by done.
    repeat (eapply holds_agree; [apply put_outside|rewrite ?length_le_bytes, ?Hle, ?Hlc; lia|]). exact Ht. }
  all: repeat first [apply holds_put|eapply holds_agree; [apply put_outside|rewrite ?length_le_bytes, ?Hle; lia|]].
Qed.

Context (version : Z).
Lemma code_size_extends s s' m code : extends s s' -> (0 <= entry_off -> owned s (m + entry_off) 8) ->
  GetEntryPointFromCompiledCode entry_off m s = Some code -> owned s (code - 4) 4 ->
  GetCompiledCodeSize version entry_off m s' = GetCompiledCodeSize version entry_off m s.
Proof.
  intros He Hm Hc Ho. unfold GetCompiledCodeSize. rewrite (entry_extends s s' m He Hm), Hc. cbn [mbind option_bind].
  unfold load. by rewrite (read_extends s s' _ 4 He Ho).
Qed.
Lemma read_code m a ws : code_at m a ws -> read m a (4 * length ws) = Some (word_bytes ws).
Proof. intros H. rewrite <- length_word_bytes. by apply read_holds. Qed.

Lemma template_piece m p k n ls l : holds m p (template ls) -> take n (drop k (template ls)) = l ->
  (k <= length (template ls))%nat -> holds m (p + Z.of_nat k) l.
Proof.
  intros H <- Hk. rewrite <- (take_drop k (template ls)) in H. apply holds_app in H as [_ H]. rewrite length_take, Nat.min_l in H by done.
  rewrite <- (take_drop n (drop k _)) in H. by apply holds_app in H as [H _].
Qed.
Lemma backup_layout m q target ws rem : length ws = 4%nat \/ length ws = 6%nat ->
  backup_at (put (put (put (put m q (template pine_backup_trampoline)) (q + 36) (le_bytes 8 target)) (q + 4) (word_bytes ws))
               (q + 44) (le_bytes 8 rem)) q target ws rem.
Proof.
  intros Hn. set (m' := put (put _ _ _) _ _).
  assert (Hlw : length (word_bytes ws) = (4 * length ws)%nat) by apply length_word_bytes.
  assert (Hpiece : forall k n l, take n (drop k (template pine_backup_trampoline)) = l -> (k <= 64)%nat ->
    (k + length l <= 4 \/ 4 + 4 * length ws <= k)%nat -> (k + length l <= 36)%nat -> holds m' (q + Z.of_nat k) l).
  { intros k n l Hl Hk Hd He. unfold m'. do 3 (eapply holds_agree; [apply put_outside|rewrite ?length_le_bytes, ?Hlw; lia|]).
    eapply template_piece; [apply holds_put|exact Hl|done]. }
  split.
  - unfold backup_words. apply code_at_app. split; [|apply code_at_app; split; [|apply code_at_app; split]].
    + rewrite <- (Z.add_0_r q). apply (Hpiece 0%nat 4%nat); [by vm_compute|lia|left; cbn; lia|cbn; lia].
    + change (4 * Z.of_nat (length backup_head)) with 4.
      eapply holds_agree; [apply put_outside|rewrite ?length_le_bytes, ?Hlw; lia|apply holds_put].
    + destruct Hn as [E|E]; rewrite E; [|by intros i b Hi]. rewrite <- Z.add_assoc.
      apply (Hpiece 20%nat 8%nat); [by vm_compute|lia|right; rewrite E; lia|cbn; lia].
    + rewrite length_replicate. replace (q + _ + _ + _) with (q + Z.of_nat 28) by (change (Z.of_nat (length backup_head)) with 1; lia).
      apply (Hpiece 28%nat 8%nat); [by vm_compute|lia|right; lia|cbn; lia].
  - do 2 (eapply holds_agree; [apply put_outside|rewrite ?length_le_bytes, ?Hlw; lia|]). apply holds_put.
  - apply holds_put.
Qed.

Lemma backup_made s target code ws cs p s' : pool_ok s -> (0 <= entry_off -> owned s (target + entry_off) 8) ->
  GetEntryPointFromCompiledCode entry_off target s = Some code -> owned s (code - 4) (4 + 4 * Z.of_nat (length ws)) ->
  code_at (ram_ s) code ws -> length ws = 4%nat \/ length ws = 6%nat ->
  GetCompiledCodeSize version entry_off target s = Some cs -> cs <> 4 * Z.of_nat (length ws) ->
  Backup page_size mmap version entry_off target (4 * Z.of_nat (length ws)) s = Some (p, s') -> p <> 0 ->
  made s s' p 64 /\ 0 < p /\ p + 64 <= 2 ^ 64 /\ backup_at (ram_ s') p target ws (code + 4 * Z.of_nat (length ws)).
Proof.
  intros Hok Ht Hc Ho Hws Hn Hcs Hne. unfold Backup. cbv zeta. change (template_size pine_backup_trampoline) with 64.
  destruct (AllocUnprotected 64 s) as [q s1] eqn:Ea. destruct (Z.eqb_spec q 0) as [->|Hq]; [by intros [= <- <-]|].
  destruct (AllocUnprotected_spec 64 s q s1 ltac:(lia) Hok Ea Hq) as (X1 & G1 & Hq0 & Hqm & _). intros H.
  write H. pose proof (made_put s s1 q (template pine_backup_trampoline) q 64 X1 G1 ltac:(lia) ltac:(done)) as M.
  change (made s (set_ram (put (ram_ s1) q (template pine_backup_trampoline)) s1) q 64) in M.
  set (s2 := set_ram (put (ram_ s1) q _) s1) in *. set_pointer H M 36.
  rewrite (entry_extends s s0 target (proj1 M) Ht), Hc in H. cbn [mbind option_bind] in H.
  assert (Hread : read (ram_ s0) code (Z.to_nat (4 * Z.of_nat (length ws))) = Some (word_bytes ws)).
  { replace (Z.to_nat (4 * Z.of_nat (length ws))) with (4 * length ws)%nat by lia. rewrite (read_extends s s0); [by apply read_code|by destruct M|].
    intros y Hy. apply Ho. lia. }
  rewrite Hread in H. cbn [mbind option_bind] in H. write H. change (label_at 0 pine_backup_trampoline "override_space") with 4 in H.
  assert (Hlw : Z.of_nat (length (word_bytes ws)) = 4 * Z.of_nat (length ws)) by (rewrite length_word_bytes; lia).
  destruct M as [X0 G0]. pose proof (made_put s s0 (q + 4) (word_bytes ws) q 64 X0 G0 ltac:(lia) ltac:(lia)) as M.
  change (made s (set_ram (put (ram_ s0) (q + 4) (word_bytes ws)) s0) q 64) in M.
  set (s3 := set_ram (put (ram_ s0) (q + 4) _) s0) in *.
  rewrite (code_size_extends s s3 target code (proj1 M) Ht Hc), Hcs in H by (intros y Hy; apply Ho; lia). cbn [mbind option_bind] in H.
  destruct (Z.eqb_spec cs (4 * Z.of_nat (length ws))) as [|_]; [done|]. cbn [negb] in H.
  set_pointer H M 44. apply Some_pair in H as [-> ->]. intros _. do 3 (split; [done|]).
  unfold s4, s3, s0, s2. cbn [ram_ set_ram]. by apply backup_layout.
Qed.

(** ** The jump over the start of the code *)

Definition jump_at (m : ram) (code to : Z) (skip : bool) : Prop :=
  let a := if skip then code + 8 else code in
  (skip = true -> code_at m code [nop_word; nop_word]) /\ code_at m a direct_code /\ holds m (a + 8) (le_bytes 8 to).
Lemma jump_written m a to s s' : WriteDirectJumpTrampolineTo a to s = Some s' -> ram_ s = m ->
  ram_ s' = put (put m a (template pine_direct_jump_trampoline)) (a + 8) (le_bytes 8 to).
Proof. unfold WriteDirectJumpTrampolineTo. intros H <-. write H. by apply memcpy_put in H as ->. Qed.
Lemma jump_holds m a to : let m' := put (put m a (template pine_direct_jump_trampoline)) (a + 8) (le_bytes 8 to) in
  code_at m' a direct_code /\ holds m' (a + 8) (le_bytes 8 to) /\ agree_outside a 16 m m'.
Proof.
  cbv zeta. assert (Hl : length (template pine_direct_jump_trampoline) = 16%nat) by done. split_and!.
  - eapply holds_agree; [apply put_outside|assert (length (word_bytes direct_code) = 8%nat) as -> by done; lia|].
    eapply (template_holds _ _ 8); [apply holds_put|done].
  - apply holds_put.
  - repeat apply agree_put; rewrite ?Hl, ?length_le_bytes; reflexivity || lia.
Qed.
Lemma nops_written a s s' : FillWithNopImpl a 8 s = Some s' ->
  code_at (ram_ s') a [nop_word; nop_word] /\ agree_outside a 8 (ram_ s) (ram_ s').
Proof.
  unfold FillWithNopImpl. change (Z.to_nat ((8 + 3) `div` 4)) with 2%nat. cbn [fill_nops]. intros H. write H. write H.
  injection H as <-. cbn [ram_ set_ram]. split.
  - apply (holds_grow _ _ (le_bytes 4 nop_word) (le_bytes 4 nop_word)); [apply holds_put|by rewrite length_le_bytes].
  - repeat apply agree_put; cbn [length]; reflexivity || lia.
Qed.
Lemma patch_made code to skip s s' : patch_code code to skip s = Some s' ->
  jump_at (ram_ s') code to skip /\ agree_outside code (backup_size skip) (ram_ s) (ram_ s').
Proof.
  unfold patch_code, jump_at, backup_size, kDirectJumpTrampolineSize, kSkipBytes. destruct skip.
  - destruct (FillWithNopImpl code 8 s) as [s1|] eqn:En; [|done]. cbn [mbind option_bind]. intros H.
    apply nops_written in En as [Hn Ha]. rewrite (jump_written _ _ _ _ _ H eq_refl).
    destruct (jump_holds (ram_ s1) (code + 8) to) as (Hj & Hto & Hb). split; [split; [|done]|].
    + intros _. eapply holds_agree; [exact Hb|rewrite length_word_bytes; cbn; lia|done].
    + etransitivity; (eapply agree_within; [first [exact Ha|exact Hb]|lia|lia]).
  - intros H. rewrite (jump_written _ _ _ _ _ H eq_refl). destruct (jump_holds (ram_ s) code to) as (Hj & Hto & Hb).
    split; [split; [done|done]|]. eapply agree_within; [exact Hb|lia|lia].
Qed.

End Alloc.
End TrampolineProofs.
