(* ===== verification/TrampolineCorrect.v ===== *)
(** * Inline hooks, and what the trampolines guarantee

    Module TrampolineHook: what an inline hook leaves in memory, from the
    specifications of TrampolineProofs.v, and what a call of the hooked code
    does then, from the runs of TrampolineRun.v.  Module TrampolineCorrect:
    the theorems about the allocator and the inline hook, and a method in
    memory they are applied to. *)
From stdpp Require Import strings.
From S2P Require Import Prelude.
From S2P Require Import Arm64.
From S2P Require Import Trampoline.
From S2P Require Import TrampolineRun.
From S2P Require Import TrampolineProofs.

Import Ram Arm64 Trampoline TrampolineRun TrampolineProofs.
Local Open Scope cint_scope.

Module TrampolineHook.

(** The words at the start of the code, as many as the jump takes. *)
Definition start_words (skip : bool) : nat := if skip then 6%nat else 4%nat.
Definition start_size (skip : bool) : Z := 4 * Z.of_nat (start_words skip).
(** Hooked code: a jump to the trampoline [t], which calls [bridge] for
    [target], and the [backup] of the words that were there. *)
Record hooked (m : ram) (target bridge entry code : Z) (skip : bool) (ws : list Z) (backup t extras : Z) : Prop := {
  hk_jump : jump_at m code t skip;
  hk_bridge : bridge_at m t target extras bridge entry backup;
  hk_backup : backup_at m backup target ws (code + start_size skip);
  hk_extras : is_mapped m extras 92;
  hk_jump_extras : code + start_size skip <= extras \/ extras + 92 <= code;
  hk_words : length ws = start_words skip;
  hk_bridge_extras : t + 156 <= extras \/ extras + 92 <= t;
  hk_backup_extras : backup + 52 <= extras \/ extras + 92 <= backup;
  hk_t : in_u 64 t; hk_extras_u : in_u 64 extras; hk_backup_u : in_u 64 backup }.

Lemma start_le skip : (start_words skip <= 6)%nat.
Proof. destruct skip; cbn; lia. Qed.
Lemma backup_size_start skip : backup_size skip = start_size skip.
Proof. by destruct skip. Qed.
Lemma given_owned page_size s s' p n a k : given page_size s s' p n -> owned page_size s a k -> 0 < n -> 0 < k -> p + n <= a \/ a + k <= p.
Proof.
  intros H Ho Hn Hk. destruct (decide (p + n <= a)); [by left|]. destruct (decide (a + k <= p)); [by right|].
  exfalso. apply (Ho (Z.max p a)); [lia|]. apply H. lia.
Qed.
Lemma owned_within page_size s a n b k : owned page_size s a n -> a <= b -> b + k <= a + n -> owned page_size s b k.
Proof. intros H Hb Hk y Hy. apply H. lia. Qed.
Lemma backup_at_same m m' a target ws rem : (forall y, a <= y < a + 52 -> m' y = m y) -> (length ws <= 6)%nat ->
  backup_at m a target ws rem -> backup_at m' a target ws rem.
Proof.
  intros Ha Hw []. destruct (backup_words_at ws Hw) as (L & _).
  split; (eapply holds_same; [exact Ha|lia|rewrite ?length_word_bytes, ?L, ?length_le_bytes; lia|done]).
Qed.
Lemma jump_at_outside e n m m' code to skip : agree_outside e n m m' -> (code + start_size skip <= e \/ e + n <= code) ->
  jump_at m code to skip -> jump_at m' code to skip.
Proof.
  unfold jump_at, start_size, start_words. intros Ha Hd (Hn & Hj & Ht).
  assert (Hl : length (word_bytes direct_code) = 8%nat) by done. assert (Hl2 : length (word_bytes [nop_word; nop_word]) = 8%nat) by done.
  split_and!.
  - intros ->. eapply holds_agree; [exact Ha|rewrite Hl2; lia|by apply Hn].
  - eapply holds_agree; [exact Ha|rewrite Hl; destruct skip; lia|done].
  - eapply holds_agree; [exact Ha|rewrite length_le_bytes; destruct skip; lia|done].
Qed.

Section Install.
Context (page_size : Z) (mmap : State -> option Z) (mprotect : Z -> bool) (operator_new : Z -> State -> option Z).
Context (HP : platform_ok page_size mmap operator_new).
Context (version entry_off : Z).

(** What has to hold before: the method [target] has [code], of more than
    the words of the jump; no allocation will touch the code or the entry
    points of the methods. *)
Record hookable (s : State) (target bridge entry code : Z) (skip : bool) (ws : list Z) : Prop := {
  ho_pool : pool_ok page_size s;
  ho_target : 0 <= entry_off -> owned page_size s (target + entry_off) 8;
  ho_bridge : 0 <= entry_off -> owned page_size s (bridge + entry_off) 8;
  ho_owned : owned page_size s (code - 4) (4 + start_size skip);
  ho_code : GetEntryPointFromCompiledCode entry_off target s = Some code;
  ho_entry : GetEntryPointFromCompiledCode entry_off bridge s = Some entry;
  ho_words : code_at (ram_ s) code ws;
  ho_count : length ws = start_words skip;
  ho_size : exists cs, GetCompiledCodeSize version entry_off target s = Some cs /\ cs <> start_size skip }.

Lemma inline_install s target bridge entry code skip ws backup s' : hookable s target bridge entry code skip ws ->
  InstallInlineTrampoline page_size mmap mprotect operator_new version entry_off target bridge skip s = Some (backup, s') -> backup <> 0 ->
  exists t extras, hooked (ram_ s') target bridge entry code skip ws backup t extras /\ holds (ram_ s') extras extras_bytes /\
    forall y, ~ avail page_size s y -> ~ (code <= y < code + start_size skip) -> ram_ s' y = ram_ s y.
Proof.
  intros [Hok Ht Hb Ho Hc He Hw Hn (cs & Hcs & Hne)]. unfold InstallInlineTrampoline, install_inline. rewrite Hc. cbn [mbind option_bind].
  destruct (negb _); [by intros [= <- <-]|]. destruct (Backup _ _ _ _ _ _ s) as [[q s1]|] eqn:Eq; [|done]. cbn [mbind option_bind].
  destruct (Z.eqb_spec q 0) as [->|Hq]; [by intros [= <- <-]|]. 
  destruct (CreateBridgeJumpTrampoline _ _ _ _ _ _ _ s1) as [[t s2]|] eqn:Et; [|done]. cbn [mbind option_bind].
  destruct (Z.eqb_spec t 0) as [->|Ht0]; [by intros [= <- <-]|].
  destruct (patch_code code t skip s2) as [s3|] eqn:Ep; [|done]. cbn [mbind option_bind]. intros [= <- <-] _.
  assert (Hss : start_size skip = 4 * Z.of_nat (length ws)) by (unfold start_size; by rewrite Hn).
  rewrite backup_size_start, Hss in Eq. rewrite Hss in Ho, Hne.
  destruct (backup_made page_size mmap operator_new HP entry_off version s target code ws cs q s1)
    as (M1 & Hq0 & Hqm & B1); try done; [rewrite Hn; destruct skip; tauto|].
  destruct (bridge_made page_size mmap operator_new HP entry_off s1 target bridge q t s2) as (e & entry' & Ee & M2 & G2 & Hd & Htp & Htm & Hep & Hem & T2 & E2);
    [by apply (ex_ok _ _ _ (proj1 M1))|intros Hz; eapply owned_extends; [apply M1|by apply Hb]|done|done|].
  rewrite (entry_extends page_size entry_off s s1 bridge (proj1 M1) Hb), He in Ee. injection Ee as <-.
  destruct M1 as [X1 G1], M2 as [X2 G3]. apply patch_made in Ep as [Hj Hp]. rewrite backup_size_start in Hp.
  assert (Hlw : 0 < 4 * Z.of_nat (length ws)) by (rewrite Hn; destruct skip; cbn; lia).
  assert (Ho2 : owned page_size s code (4 * Z.of_nat (length ws))) by (eapply owned_within; [exact Ho|lia|lia]).
  assert (Ho3 : owned page_size s1 code (4 * Z.of_nat (length ws))) by (by eapply owned_extends).
  assert (D1 : q + 64 <= code \/ code + start_size skip <= q) by (rewrite Hss; eapply given_owned; [exact G1|exact Ho2|lia|lia]).
  assert (D2 : t + 160 <= code \/ code + start_size skip <= t) by (rewrite Hss; eapply given_owned; [exact G3|exact Ho3|lia|lia]).
  assert (D3 : e + 92 <= code \/ code + start_size skip <= e) by (rewrite Hss; eapply given_owned; [exact G2|exact Ho3|lia|lia]).
  assert (D4 : q + 64 <= e \/ e + 92 <= q) by (eapply given_disjoint; [eassumption|eassumption|lia|lia]).
  assert (D5 : q + 64 <= t \/ t + 160 <= q) by (eapply given_disjoint; [eassumption|eassumption|lia|lia]).
  assert (Hsame : forall y, ~ avail page_size s1 y -> ~ (code <= y < code + start_size skip) -> ram_ s3 y = ram_ s1 y).
  { intros y Hy Hn'. rewrite (Hp y Hn'). by apply X2. }
  assert (E3 : holds (ram_ s3) e extras_bytes)
    by (eapply holds_agree; [exact Hp|change (Z.of_nat (length extras_bytes)) with 92; lia|exact E2]).
  exists t, e. split; [split|split].
  - done.
  - eapply bridge_at_agree; [exact Hp|lia|done].
  - rewrite Hss. eapply backup_at_same; [|rewrite Hn; destruct skip; cbn; lia|exact B1].
    intros y Hy. apply Hsame; [apply G1; lia|lia].
  - exact (holds_mapped _ _ _ E3).
  - lia.
  - done.
  - lia.
  - lia.
  - unfold in_u; lia.
  - unfold in_u; lia.
  - unfold in_u; lia.
  - exact E3.
  - intros y Hy Hn'. destruct (ex_kept _ _ _ X1 y Hy) as [E1 A1]. by rewrite <- E1, Hsame.
Qed.
End Install.

(** ** Calls of hooked code *)

Section Call.
Context (exec_other : Z -> cpu -> option cpu).
Abbreviation steps := (steps exec_other).

(** What calls keep: what is in [n] bytes at [e] aside. *)
Lemma hooked_outside e n m m' target bridge entry code skip ws backup t extras : agree_outside e n m m' ->
  (code + start_size skip <= e \/ e + n <= code) -> (t + 156 <= e \/ e + n <= t) -> (backup + 52 <= e \/ e + n <= backup) ->
  is_mapped m' extras 92 ->
  hooked m target bridge entry code skip ws backup t extras -> hooked m' target bridge entry code skip ws backup t extras.
Proof.
  intros Ha H1 H2 H3 Hm []. split; try done; [by eapply jump_at_outside|by eapply bridge_at_agree|].
  eapply backup_at_same; [|rewrite hk_words0; apply start_le|done]. intros y Hy. apply Ha. lia.
Qed.

(** The words before the trampoline: the no-operations and the jump. *)
Definition jump_steps (skip : bool) : nat := if skip then 4%nat else 2%nat.
Lemma jump_taken c code t skip : jump_at (mem c) code t skip -> in_u 64 t -> pc c = code ->
  steps (jump_steps skip) c = Some (goto t (set_x 17 t c)).
Proof.
  intros (Hn & Hj & Ht) Hu Hp. destruct skip; cbn [jump_steps].
  - change 4%nat with (2 + 2)%nat. rewrite steps_add.
    rewrite (nops_run exec_other code [nop_word; nop_word] 2 0 c (Hn eq_refl)); [|lia|by intros [|[|]] ?; [..|lia]].
    cbn [mbind option_bind]. change (0 + 2)%nat with 2%nat. change (4 * Z.of_nat 2) with 8.
    by rewrite (direct_jump_runs exec_other (goto (code + 8) c) (code + 8) t Hj Ht Hu eq_refl).
  - by apply (direct_jump_runs exec_other c code t).
Qed.
Lemma bridged_from c0 c c' target extras bridge entry : (forall i, i <> 17 -> x c i = x c0 i) -> d c = d c0 -> sp c = sp c0 ->
  mem c = mem c0 -> bridged c c' target extras bridge entry -> bridged c0 c' target extras bridge entry.
Proof.
  intros Hx Hd Hs Hm []. split; try congruence.
  - intros i ? ? ? ? ? ?. rewrite <- Hx by done. auto.
  - unfold call_extras in *. rewrite <- Hd. cbn [List.map] in *. by rewrite <- !Hx by done.
  - by rewrite <- Hm.
Qed.

(** A call of the hooked method reaches the bridge. *)
Lemma hooked_target c target bridge entry code skip ws backup t extras :
  hooked (mem c) target bridge entry code skip ws backup t extras -> holds (mem c) extras (le_bytes 4 1) ->
  in_u 64 target -> in_u 64 bridge -> in_u 64 entry -> pc c = code -> x c 0 = target ->
  exists c', steps (jump_steps skip + 26) c = Some c' /\ bridged c c' target extras bridge entry /\
    hooked (mem c') target bridge entry code skip ws backup t extras.
Proof.
  intros Hk Hl Ht Hb He Hp Hx. pose proof Hk as [Hj HB _ HM D1 _ D2 D3 U1 U2 U3]. rewrite steps_add, (jump_taken c code t skip Hj U1 Hp).
  cbn [mbind option_bind]. set (c1 := goto t (set_x 17 t c)).
  destruct (bridge_hooked exec_other c1 t target extras bridge entry backup) as (c' & Hs & Hbr); [done..|lia|].
  exists c'. split; [done|]. split.
  - apply (bridged_from c c1 c'); try done. intros i Hi. unfold c1. cbn [x goto set_x Z.eqb Pos.eqb]. rewrite update_at.
    by replace (17 =? i) with false by lia.
  - apply (hooked_outside extras 92 (mem c)); try (done || lia); [exact (br_mem _ _ _ _ _ _ Hbr)|].
    exact (holds_mapped _ _ _ (br_extras _ _ _ _ _ _ Hbr)).
Qed.

(** Memory not yet mapped is elsewhere. *)
Lemma fresh_apart m p k a l : holds m a l -> (forall y, p <= y < p + k -> m y = None) -> (0 < length l)%nat -> 0 < k ->
  a + Z.of_nat (length l) <= p \/ p + k <= a.
Proof.
  intros H Hn Hl Hk. destruct (decide (a + Z.of_nat (length l) <= p)); [by left|]. destruct (decide (p + k <= a)); [by right|].
  destruct (holds_mapped _ _ _ H (Z.max p a)) as [b Hb]; [lia|]. rewrite Hn in Hb by lia. done.
Qed.
Lemma hooked_fresh p k m target bridge entry code skip ws backup t extras :
  hooked m target bridge entry code skip ws backup t extras -> (forall y, p <= y < p + k -> m y = None) -> 0 < k ->
  (code + start_size skip <= p \/ p + k <= code) /\ (t + 156 <= p \/ p + k <= t) /\ (backup + 52 <= p \/ p + k <= backup) /\
  (extras + 92 <= p \/ p + k <= extras).
Proof.
  intros [(Hj1 & Hj2 & Hj3) [B1 B2 B3 B4 B5 B6] [K1 K2 K3] HM _ HW _ _ _ _ _] Hn Hk.
  assert (HF : forall a l, holds m a l -> (0 < length l)%nat -> a + Z.of_nat (length l) <= p \/ p + k <= a) by (intros; by eapply fresh_apart).
  destruct (backup_words_at ws) as (L & _); [rewrite HW; apply start_le|].
  assert (HE : extras + 92 <= p \/ p + k <= extras).
  { destruct (decide (extras + 92 <= p)); [by left|]. destruct (decide (p + k <= extras)); [by right|].
    destruct (HM (Z.max p extras)) as [b Hb]; [lia|]. rewrite Hn in Hb by lia. done. }
  apply HF in Hj2, Hj3, B1, B2, B3, B4, B5, B6, K1, K2, K3; rewrite ?length_word_bytes, ?L, ?length_le_bytes in *; try (cbn; lia).
  change (length direct_code) with 2%nat in *. change (length bridge_code) with 29%nat in *.
  split; [|lia]. unfold start_size, start_words. destruct skip; [|lia].
  specialize (Hj1 eq_refl). apply HF in Hj1; [|rewrite length_word_bytes; cbn; lia]. rewrite length_word_bytes in Hj1. cbn [length] in Hj1. lia.
Qed.
(** The bridge takes its copy of the registers and lets the next call in. *)
Lemma extras_cloned malloc c c0 s target bridge entry code skip ws backup t extras :
  hooked (ram_ s) target bridge entry code skip ws backup t extras -> ram_ s = mem c -> bridged c0 c target extras bridge entry ->
  malloc 92 s <> 0 -> (forall y, malloc 92 s <= y < malloc 92 s + 92 -> ram_ s y = None) ->
  exists s', CloneAndUnlock malloc extras s = Some (malloc 92 s, s') /\ holds (ram_ s') (malloc 92 s) (call_extras c0) /\
    holds (ram_ s') extras (le_bytes 4 1) /\ (malloc 92 s + 92 <= extras \/ extras + 92 <= malloc 92 s) /\
    hooked (ram_ s') target bridge entry code skip ws backup t extras.
Proof.
  intros Hk Hm Hbr Hp Hnew. unfold CloneAndUnlock. set (p := malloc 92 s) in *. replace (p =? 0) with false by lia.
  assert (Hce : length (call_extras c0) = 92%nat) by done. pose proof (br_extras _ _ _ _ _ _ Hbr) as Hce'. rewrite <- Hm in Hce'.
  pose proof (read_holds _ _ _ Hce') as Hr. rewrite Hce in Hr. rewrite Hr. cbn [mbind option_bind].
  destruct (hooked_fresh p 92 _ _ _ _ _ _ _ _ _ _ Hk Hnew ltac:(lia)) as (D1 & D2 & D3 & D4).
  set (m := put (ram_ s) p (call_extras c0)).
  assert (A1 : agree_outside p 92 (ram_ s) m) by exact (put_outside _ _ (call_extras c0)).
  assert (Hlock : holds m extras (le_bytes 4 0)).
  { eapply holds_agree; [exact A1|rewrite length_le_bytes; lia|]. unfold call_extras in Hce'. by apply holds_app in Hce' as [Hce' _]. }
  unfold ReleaseLock. cbn [ram_ set_ram]. rewrite (load_holds 4 m extras 0 Hlock) by done. cbn [mbind option_bind Z.eqb].
  unfold memcpy. cbn [ram_ set_ram]. rewrite store_mapped by (rewrite length_le_bytes; by apply holds_mapped in Hlock).
  cbn [mbind option_bind]. eexists. split; [reflexivity|]. cbn [ram_ set_ram]. split_and!.
  - eapply holds_agree; [apply put_outside|rewrite length_le_bytes, Hce; lia|apply holds_put].
  - apply holds_put.
  - lia.
  - pose proof Hk as []. apply (hooked_outside extras 92 m); try done.
    + eapply agree_within; [apply put_outside|lia|rewrite length_le_bytes; lia].
    + do 2 apply put_mapped. done.
    + apply (hooked_outside p 92 (ram_ s)); try done. by apply put_mapped.
Qed.

(** A call for another method that has the same code runs the start of the
    code, as the hooked method, and goes on behind it. *)
Lemma hooked_other c target bridge entry code skip ws backup t extras c2 :
  hooked (mem c) target bridge entry code skip ws backup t extras -> others_moveable exec_other -> Forall moveable ws -> Forall (in_u 32) ws ->
  in_u 64 target -> in_u 64 (code + start_size skip) -> pc c = code -> x c 0 <> target ->
  runs exec_other backup 52 ws (goto code (set_x 0 target (set_x 17 backup (set_zf false (set_x 17 target (set_x 17 t c)))))) c2 ->
  steps (jump_steps skip + 14) c = Some (goto (code + start_size skip) (set_x 17 (code + start_size skip) c2)).
Proof.
  intros [Hj HB HK HM D1 HW D2 D3 U1 U2 U3] Ho Hmv Hu Ht Hc Hp Hx Hr. rewrite steps_add, (jump_taken c code t skip Hj U1 Hp).
  cbn [mbind option_bind]. set (c1 := goto t (set_x 17 t c)).
  change 14%nat with (5 + 9)%nat. rewrite steps_add, (bridge_passes exec_other c1 t target extras bridge entry backup) by done.
  cbn [mbind option_bind]. apply (backup_runs exec_other _ backup target ws code _ c2); try done. rewrite HW. apply start_le.
Qed.
End Call.

End TrampolineHook.

Import Ram Arm64 Trampoline TrampolineRun TrampolineProofs TrampolineHook.
Local Open Scope cint_scope.

Module TrampolineCorrect.

(** A request after the other; what came out null is left out. *)
Fixpoint alloc_all (page_size : Z) (mmap : State -> option Z) (sizes : list Z) (s : State) : list (Z * Z) * State :=
  match sizes with
  | [] => ([], s)
  | n :: sizes =>
      let '(p, s) := AllocUnprotected page_size mmap n s in
      let '(l, s) := alloc_all page_size mmap sizes s in
      (if p =? 0 then l else (p, n) :: l, s)
  end.
Definition apart (a b : Z * Z) : Prop := fst a + snd a <= fst b \/ fst b + snd b <= fst a.

(** ** Words the installer has checked *)

Lemma any_pc_related_false n : forall a m ws, any_pc_related n a m = Some false -> code_at m a ws -> length ws = n -> Forall (in_u 32) ws ->
  Forall (fun w => IsPCRelatedInst w = false) ws.
Proof.
  induction n as [|n IH]; intros a m [|w ws] H Hc Hl Hu; try done. inversion Hu; subst. cbn [any_pc_related] in H.
  rewrite (fetch m a (w :: ws) 0 w a Hc) in H by (done || lia). cbn [mbind option_bind] in H.
  destruct (IsPCRelatedInst w) eqn:Ew; [done|]. constructor; [done|]. injection Hl as Hl.
  change (w :: ws) with ([w] ++ ws) in Hc. apply code_at_app in Hc as [_ Hc]. by apply (IH (a + 4) m).
Qed.
Lemma checked_moveable entry_off target s code skip ws : GetEntryPointFromCompiledCode entry_off target s = Some code ->
  CannotBackup entry_off target (start_size skip) s = Some false -> code_at (ram_ s) code ws -> length ws = start_words skip ->
  Forall (in_u 32) ws -> Forall (fun w => w & 0xFE000000 <> 0xD6000000) ws -> Forall moveable ws.
Proof.
  intros Hc Hb Hw Hn Hu Hr. unfold CannotBackup in Hb. rewrite Hc in Hb. cbn [mbind option_bind] in Hb.
  apply any_pc_related_false with (ws := ws) in Hb; [|done|rewrite Hn; by destruct skip|done].
  by apply Forall_and.
Qed.

(** ** The allocator *)

Section Alloc.
Context (page_size : Z) (mmap : State -> option Z) (operator_new : Z -> State -> option Z).
Context (HP : platform_ok page_size mmap operator_new).

Lemma AllocUnprotected_null n s p s' : 0 <= n -> pool_ok page_size s -> AllocUnprotected page_size mmap n s = (p, s') -> p = 0 -> s' = s.
Proof.
  intros Hn Hok. unfold AllocUnprotected. destruct (page_size <? n); [by intros [= <- <-]|]. destruct (_ && _) eqn:Eb.
  - intros [= <- <-] Hp. apply andb_prop in Eb as [Ea%negb_true_iff%Z.eqb_neq _]. destruct (Hok Ea) as (? & _ & ? & _). lia.
  - destruct (mmap s) as [q|] eqn:Em; [|by intros [= <- <-]]. intros [= <- <-] Hp. destruct (pf_mmap _ _ _ HP _ _ Em). lia.
Qed.
Lemma alloc_all_given sizes : forall s l s', Forall (Z.lt 0) sizes -> pool_ok page_size s -> alloc_all page_size mmap sizes s = (l, s') ->
  extends page_size s s' /\ ForallOrdPairs apart l /\
  Forall (fun b => given page_size s s' (fst b) (snd b) /\ 0 < fst b /\ fst b + snd b <= 2 ^ 64 /\ 0 < snd b /\
    is_mapped (ram_ s') (fst b) (snd b)) l.
Proof.
  induction sizes as [|n sizes IH]; intros s l s' Hs Hok H.
  { injection H as <- <-. split; [reflexivity|]. split; constructor. }
  inversion Hs; subst. cbn [alloc_all] in H. destruct (AllocUnprotected _ _ n s) as [p s1] eqn:Ea.
  destruct (alloc_all _ _ sizes s1) as [l1 s2] eqn:El. injection H as <- <-. destruct (Z.eqb_spec p 0) as [->|Hp].
  { rewrite (AllocUnprotected_null n s 0 s1) in El by (done || lia). by apply IH. }
  destruct (AllocUnprotected_spec page_size mmap operator_new HP n s p s1 ltac:(lia) Hok Ea Hp) as (X1 & G1 & Hp0 & Hpm & M1).
  destruct (IH s1 l1 s2) as (X2 & HO & HF); [done|by apply X1|done|]. split; [by etransitivity|].
  split; constructor; try done.
  - eapply Forall_impl; [|exact HF]. intros [q k] (G2 & _ & _ & Hk & _). eapply given_disjoint; [exact G1|exact G2|done|done].
  - cbn [fst snd]. split_and!; try done; [by eapply given_extends|]. intros y Hy. destruct (ex_kept _ _ _ X2 y) as [-> _]; [by apply G1|by apply M1].
  - eapply Forall_impl; [|exact HF]. intros [q k] (G2 & ?). split; [by eapply extends_given|done].
Qed.
End Alloc.

(** ** The theorems *)

(** Executable memory: whatever sizes are asked for, in whatever order, the
    blocks [AllocUnprotected] gives lie apart from each other and from what was
    mapped before outside the pool's free rest, within the address space,
    mapped, and nothing else of memory changes. *)
Theorem alloc_apart page_size mmap operator_new sizes s l s' : platform_ok page_size mmap operator_new ->
  pool_ok page_size s -> Forall (Z.lt 0) sizes -> alloc_all page_size mmap sizes s = (l, s') ->
  pool_ok page_size s' /\ ForallOrdPairs apart l /\
  Forall (fun b => 0 < fst b /\ fst b + snd b <= 2 ^ 64 /\ is_mapped (ram_ s') (fst b) (snd b) /\
    forall y, fst b <= y < fst b + snd b -> avail page_size s y) l /\
  forall y, ~ avail page_size s y -> ram_ s' y = ram_ s y.
Proof.
  intros HP Hok Hs H. destruct (alloc_all_given page_size mmap operator_new HP sizes s l s' Hs Hok H) as (X & HO & HF).
  split; [by apply X|]. split; [done|]. split; [|by intros y Hy; apply (ex_kept _ _ _ X y Hy)].
  eapply Forall_impl; [|exact HF]. intros b (G & ? & ? & ? & ?). split_and!; try done. intros y Hy. by apply G.
Qed.

(** C20: A call of an inline-hooked method: after [InstallInlineTrampoline] has
    returned a backup, a processor that comes to the method's code with the
    method in x0 gets to the entry point of the bridge method, with the bridge
    in x0, the hooked method in x1, the extras in x2 and the stack pointer in
    x3; the extras hold the registers of the call and are locked, every other
    register but x16 and x17 is as it was, and memory is written nowhere else.
    The installation itself changed only the start of the code. *)
Theorem inline_hook_intercepts page_size mmap mprotect operator_new version entry_off exec_other s target bridge entry code skip ws
    backup s' c : platform_ok page_size mmap operator_new -> hookable page_size version entry_off s target bridge entry code skip ws ->
  InstallInlineTrampoline page_size mmap mprotect operator_new version entry_off target bridge skip s = Some (backup, s') -> backup <> 0 ->
  in_u 64 target -> in_u 64 bridge -> in_u 64 entry -> mem c = ram_ s' -> pc c = code -> x c 0 = target ->
  exists t extras c', steps exec_other (jump_steps skip + 26) c = Some c' /\ bridged c c' target extras bridge entry /\
    hooked (mem c') target bridge entry code skip ws backup t extras /\
    forall y, ~ avail page_size s y -> ~ (code <= y < code + start_size skip) -> ram_ s' y = ram_ s y.
Proof.
  intros HP Ho Hi Hb Ht Hbr He Hm Hp Hx.
  destruct (inline_install _ _ _ _ HP _ _ _ _ _ _ _ _ _ _ _ Ho Hi Hb) as (t & extras & Hk & Hex & Hrest). rewrite <- Hm in Hk, Hex.
  assert (Hl : holds (mem c) extras (le_bytes 4 1)) by (unfold extras_bytes in Hex; by apply holds_app in Hex as [Hex _]).
  destruct (hooked_target exec_other c target bridge entry code skip ws backup t extras Hk Hl Ht Hbr He Hp Hx) as (c' & Hs & Hbd & Hk').
  by exists t, extras, c'.
Qed.

(** The next call: when the bridge, reached by the call [c0], has copied the
    extras and released their lock, the copy holds the registers of that call,
    and a further call of the hooked method, from any state with that memory,
    reaches the bridge again, with its own registers in the extras. *)
Theorem hook_taken_again exec_other malloc s target bridge entry code skip ws backup t extras c0 c1 :
  hooked (ram_ s) target bridge entry code skip ws backup t extras -> ram_ s = mem c1 -> bridged c0 c1 target extras bridge entry ->
  malloc 92 s <> 0 -> (forall y, malloc 92 s <= y < malloc 92 s + 92 -> ram_ s y = None) ->
  in_u 64 target -> in_u 64 bridge -> in_u 64 entry ->
  exists s', CloneAndUnlock malloc extras s = Some (malloc 92 s, s') /\ holds (ram_ s') (malloc 92 s) (call_extras c0) /\
    forall c, mem c = ram_ s' -> pc c = code -> x c 0 = target ->
    exists c', steps exec_other (jump_steps skip + 26) c = Some c' /\ bridged c c' target extras bridge entry /\
      holds (mem c') (malloc 92 s) (call_extras c0).
Proof.
  intros Hk Hm Hbd Hp Hnew Ht Hb He.
  destruct (extras_cloned malloc _ _ _ _ _ _ _ _ _ _ _ _ Hk Hm Hbd Hp Hnew) as (s' & Hc & Hcl & Hl & Hd & Hk').
  exists s'. split; [done|]. split; [done|]. intros c Hmc Hpc Hx. rewrite <- Hmc in Hl, Hk'.
  destruct (hooked_target exec_other c target bridge entry code skip ws backup t extras Hk' Hl Ht Hb He Hpc Hx) as (c' & Hs & Hbd' & _).
  exists c'. split_and!; try done. eapply holds_agree; [exact (br_mem _ _ _ _ _ _ Hbd')|change (Z.of_nat (length (call_extras c0))) with 92; lia|].
  by rewrite Hmc.
Qed.

(** C21: The original under a hook: the words the jump was written over passed
    [CannotBackup] and are no branches to a register.  Then the backup the
    installation returned does what they did in their own place, with the
    hooked method in x0, and goes on behind them; and a call of another method
    that has the same code gets there too. *)
Theorem original_runs page_size mmap mprotect operator_new version entry_off exec_other s target bridge entry code skip ws
    backup s' c c2 : platform_ok page_size mmap operator_new -> hookable page_size version entry_off s target bridge entry code skip ws ->
  InstallInlineTrampoline page_size mmap mprotect operator_new version entry_off target bridge skip s = Some (backup, s') -> backup <> 0 ->
  CannotBackup entry_off target (start_size skip) s = Some false -> Forall (fun w => w & 0xFE000000 <> 0xD6000000) ws ->
  Forall (in_u 32) ws -> others_moveable exec_other -> in_u 64 target -> in_u 64 (code + start_size skip) -> mem c = ram_ s' ->
  (pc c = backup -> runs exec_other backup 52 ws (goto code (set_x 0 target c)) c2 ->
    steps exec_other 9 c = Some (goto (code + start_size skip) (set_x 17 (code + start_size skip) c2))) /\
  (pc c = code -> x c 0 <> target -> exists t extras, hooked (mem c) target bridge entry code skip ws backup t extras /\
    (runs exec_other backup 52 ws (goto code (set_x 0 target (set_x 17 backup (set_zf false (set_x 17 target (set_x 17 t c)))))) c2 ->
    steps exec_other (jump_steps skip + 14) c = Some (goto (code + start_size skip) (set_x 17 (code + start_size skip) c2)))).
Proof.
  intros HP Ho Hi Hb Hcb Hr Hu Hoth Ht Hcu Hm.
  destruct (inline_install _ _ _ _ HP _ _ _ _ _ _ _ _ _ _ _ Ho Hi Hb) as (t & extras & Hk & _ & _). rewrite <- Hm in Hk.
  assert (Hmv : Forall moveable ws) by (destruct Ho; by apply (checked_moveable entry_off target s code skip ws)). split.
  - intros Hp Hrun. pose proof Hk as []. apply (backup_runs exec_other c backup target ws code _ c2); try done.
    rewrite (hk_words _ _ _ _ _ _ _ _ _ _ Hk). apply start_le.
  - intros Hp Hx. exists t, extras. split; [done|]. intros Hrun. by eapply hooked_other.
Qed.

(** ** A method in memory *)

Definition demo_target : Z := 0x1000.
Definition demo_bridge : Z := 0x1100.
Definition demo_code : Z := 0x2000.
Definition demo_entry : Z := 0x5000.
(** mov x3, x1; add x2, x2, #1; nop; add x2, x2, #1; and two more. *)
Definition demo_words : list Z := [0xAA0103E3; 0x91000442; 0xD503201F; 0x91000442; 0xAA0203E4; 0xD503201F].
Definition demo_ram : ram :=
  put (put (put (fun _ => None) (demo_target + 24) (le_bytes 8 demo_code)) (demo_bridge + 24) (le_bytes 8 demo_entry))
    (demo_code - 4) (le_bytes 4 64 ++ word_bytes demo_words).
Definition demo_state : State := MkState demo_ram 0 0.
Definition is_free (m : ram) (a : Z) (n : nat) : bool := forallb (fun i => if m (a + Z.of_nat i) is Some _ then false else true) (seq 0 n).
Definition demo_mmap (s : State) : option Z := if is_free (ram_ s) 0x10000 4096 then Some 0x10000 else None.
Definition demo_new (n : Z) (s : State) : option Z := if (0 <=? n) && (n <=? 4096) && is_free (ram_ s) 0x30000 (Z.to_nat n) then Some 0x30000 else None.
Definition demo_malloc (n : Z) (s : State) : Z := if is_free (ram_ s) 0x40000 (Z.to_nat n) then 0x40000 else 0.
Abbreviation demo_install skip :=
  (InstallInlineTrampoline 4096 demo_mmap (fun _ => true) demo_new 28 24 demo_target demo_bridge skip demo_state).
Definition demo_exec (w : Z) (c : cpu) : option cpu :=
  if w =? 0x91000442 then Some (next (set_x 2 (wrap 64 (x c 2 + 1)) c)) else None.
Definition demo_cpu (x0 p : Z) (m : ram) : cpu :=
  MkCpu (fun i => if i =? 0 then x0 else 16 * i) (fun i => 100 + i) 0x7000 p false None m.

Lemma is_free_none m a n : is_free m a n = true -> forall y, a <= y < a + Z.of_nat n -> m y = None.
Proof.
  unfold is_free. rewrite forallb_forall. intros H y Hy. specialize (H (Z.to_nat (y - a))).
  replace (a + Z.of_nat (Z.to_nat (y - a))) with y in H by lia. destruct (m y); [|done]. discriminate H. apply in_seq. lia.
Qed.
Lemma demo_platform : platform_ok 4096 demo_mmap demo_new.
Proof.
  split.
  - done.
  - intros s p. unfold demo_mmap. destruct (is_free _ _ _) eqn:E; [|done]. intros [= <-]. split; [done|]. split; [done|].
    intros y Hy. by apply (is_free_none _ _ 4096 E).
  - intros n s p. unfold demo_new. destruct (_ && _) eqn:E; [|done]. intros [= <-]. apply andb_prop in E as [En E].
    split; [done|]. split; [lia|]. intros y Hy. apply (is_free_none _ _ _ E). lia.
Qed.
Definition is_set (m : ram) (a : Z) (n : nat) : bool := forallb (fun i => if m (a + Z.of_nat i) is Some _ then true else false) (seq 0 n).
Lemma demo_owned a n : is_set demo_ram a n = true -> owned 4096 demo_state a (Z.of_nat n).
Proof.
  unfold is_set. rewrite forallb_forall. intros H y Hy [Hn|[Hp _]]; [|by apply Hp]. specialize (H (Z.to_nat (y - a))).
  replace (a + Z.of_nat (Z.to_nat (y - a))) with y in H by lia. cbn [ram_ demo_state] in Hn. rewrite Hn in H.
  discriminate H. apply in_seq. lia.
Qed.
Lemma demo_hookable skip : hookable 4096 28 24 demo_state demo_target demo_bridge demo_entry demo_code skip (take (start_words skip) demo_words).
Proof.
  assert (Hw : code_at demo_ram demo_code demo_words).
  { pose proof (holds_put (put (put (fun _ => None) (demo_target + 24) (le_bytes 8 demo_code)) (demo_bridge + 24) (le_bytes 8 demo_entry))
      (demo_code - 4) (le_bytes 4 64 ++ word_bytes demo_words)) as H. by apply holds_app in H as [_ H]. }
  split.
  - done.
  - intros _. by apply (demo_owned _ 8); vm_compute.
  - intros _. by apply (demo_owned _ 8); vm_compute.
  - assert (Ho : owned 4096 demo_state (demo_code - 4) (Z.of_nat 28)) by (apply demo_owned; by vm_compute).
    eapply owned_within; [exact Ho|lia|unfold start_size, start_words; destruct skip; lia].
  - by vm_compute.
  - by vm_compute.
  - rewrite <- (take_drop (start_words skip) demo_words) in Hw. by apply code_at_app in Hw as [Hw _].
  - by destruct skip.
  - exists 64. split; [by vm_compute|by destruct skip].
Qed.
Lemma demo_installs skip : exists b s', demo_install skip = Some (b, s') /\ b <> 0.
Proof.
  assert (H : (if demo_install skip is Some (b, _) then negb (b =? 0) else false) = true) by (destruct skip; by vm_compute).
  destruct (demo_install skip) as [[b s']|]; [|done]. exists b, s'. split; [done|lia].
Qed.
Lemma demo_u : in_u 64 demo_target /\ in_u 64 demo_bridge /\ in_u 64 demo_entry /\ forall skip, in_u 64 (demo_code + start_size skip).
Proof.
  unfold in_u, demo_target, demo_bridge, demo_entry, demo_code, start_size, start_words. split_and!; try lia. intros []; lia.
Qed.

Lemma alloc_apart_witness : exists l s', alloc_all 4096 demo_mmap [64; 160; 5000; 4000; 32] demo_state = (l, s') /\ length l = 3%nat /\
  ForallOrdPairs apart l.
Proof.
  destruct (alloc_all 4096 demo_mmap [64; 160; 5000; 4000; 32] demo_state) as [l s'] eqn:E. exists l, s'. split; [reflexivity|]. split.
  - assert (H : length (fst (alloc_all 4096 demo_mmap [64; 160; 5000; 4000; 32] demo_state)) = 3%nat) by (by vm_compute). by rewrite E in H.
  - apply (alloc_apart 4096 demo_mmap demo_new [64; 160; 5000; 4000; 32] demo_state l s'); [exact demo_platform|by intros []|by repeat constructor|exact E].
Defined.

Lemma inline_hook_intercepts_witness : exists b s' t extras c', demo_install false = Some (b, s') /\
  steps demo_exec (jump_steps false + 26) (demo_cpu demo_target demo_code (ram_ s')) = Some c' /\
  bridged (demo_cpu demo_target demo_code (ram_ s')) c' demo_target extras demo_bridge demo_entry /\
  hooked (mem c') demo_target demo_bridge demo_entry demo_code false (take (start_words false) demo_words) b t extras.
Proof.
  destruct (demo_installs false) as (b & s' & Hi & Hb). destruct demo_u as (U1 & U2 & U3 & _).
  destruct (inline_hook_intercepts 4096 demo_mmap (fun _ => true) demo_new 28 24 demo_exec demo_state demo_target demo_bridge demo_entry
    demo_code false (take (start_words false) demo_words) b s' (demo_cpu demo_target demo_code (ram_ s')) demo_platform (demo_hookable false) Hi Hb U1 U2 U3
    eq_refl eq_refl eq_refl) as (t & extras & c' & Hs & Hbd & Hk & _).
  exists b, s', t, extras, c'. split; [exact Hi|]. split; [exact Hs|]. split; [exact Hbd|exact Hk].
Defined.

Abbreviation demo_call s := (demo_cpu demo_target demo_code (ram_ s)).
Lemma demo_called : exists b s' t extras c1, demo_install true = Some (b, s') /\
  steps demo_exec (jump_steps true + 26) (demo_call s') = Some c1 /\ bridged (demo_call s') c1 demo_target extras demo_bridge demo_entry /\
  hooked (mem c1) demo_target demo_bridge demo_entry demo_code true (take (start_words true) demo_words) b t extras /\
  demo_malloc 92 (set_ram (mem c1) s') = 0x40000.
Proof.
  assert (H : (if demo_install true is Some (_, s') then
                 if steps demo_exec (jump_steps true + 26) (demo_call s') is Some c1 then demo_malloc 92 (set_ram (mem c1) s') else 0
               else 0) = 0x40000) by (by vm_compute).
  destruct (demo_installs true) as (b & s' & Hi & Hb). destruct demo_u as (U1 & U2 & U3 & _).
  destruct (inline_install _ _ (fun _ => true) _ demo_platform _ _ _ _ _ _ _ _ _ _ _ (demo_hookable true) Hi Hb) as (t & extras & Hk & Hex & _).
  unfold extras_bytes in Hex. apply holds_app in Hex as [Hl _].
  destruct (hooked_target demo_exec (demo_call s') demo_target demo_bridge demo_entry demo_code true (take (start_words true) demo_words)
    b t extras Hk Hl U1 U2 U3 eq_refl eq_refl) as (c1 & Hs & Hbd & Hk').
  rewrite Hi, Hs in H. exists b, s', t, extras, c1. split_and!; assumption.
Qed.
Lemma hook_taken_again_witness : exists s extras c0 s', CloneAndUnlock demo_malloc extras s = Some (0x40000, s') /\
  holds (ram_ s') 0x40000 (call_extras c0) /\
  exists c', steps demo_exec (jump_steps true + 26) (demo_call s') = Some c' /\
    bridged (demo_call s') c' demo_target extras demo_bridge demo_entry /\ holds (mem c') 0x40000 (call_extras c0).
Proof.
  destruct demo_called as (b & s & t & extras & c1 & _ & _ & Hbd & Hk & Hm). destruct demo_u as (U1 & U2 & U3 & _).
  set (s1 := set_ram (mem c1) s) in *.
  assert (Hfree : forall y, demo_malloc 92 s1 <= y < demo_malloc 92 s1 + 92 -> ram_ s1 y = None).
  { intros y Hy. unfold demo_malloc in *. destruct (is_free _ _ _) eqn:E; [|done]. exact (is_free_none _ _ _ E y Hy). }
  destruct (hook_taken_again demo_exec demo_malloc s1 demo_target demo_bridge demo_entry demo_code true (take (start_words true) demo_words) b t extras (demo_call s) c1
    Hk eq_refl Hbd ltac:(rewrite Hm; lia) Hfree U1 U2 U3) as (s' & Hc & Hcl & Hnext). rewrite Hm in *.
  exists s1, extras, (demo_call s), s'. split; [exact Hc|]. split; [exact Hcl|]. exact (Hnext (demo_call s') eq_refl eq_refl eq_refl).
Defined.

Lemma demo_others : others_moveable demo_exec.
Proof.
  intros w c p c1 _ _. unfold demo_exec. destruct (w =? _); [|done]. by intros [= <-].
Qed.
Lemma demo_runs g c : exists c2, runs demo_exec g 52 (take (start_words false) demo_words) c c2.
Proof.
  destruct c as [X D SP PC ZF EX M]. eexists. 
  change (take (start_words false) demo_words) with [0xAA0103E3; 0x91000442; 0xD503201F; 0x91000442].
  do 4 (eapply runs_cons;
    [unfold exec_word; lazymatch goal with |- match ?d with _ => _ end = _ => let v := eval vm_compute in d in change d with v end;
     cbv beta iota delta [exec demo_exec]; cbn [Z.eqb Pos.eqb]; reflexivity
    |intros y Hy; reflexivity|]).
  apply runs_nil.
Qed.
Lemma original_runs_witness : exists b s' c2, demo_install false = Some (b, s') /\
  runs demo_exec b 52 (take (start_words false) demo_words) (goto demo_code (set_x 0 demo_target (demo_cpu 7 b (ram_ s')))) c2 /\
  steps demo_exec 9 (demo_cpu 7 b (ram_ s')) = Some (goto (demo_code + start_size false) (set_x 17 (demo_code + start_size false) c2)).
Proof.
  destruct (demo_installs false) as (b & s' & Hi & Hb). destruct demo_u as (U1 & _ & _ & U4).
  destruct (demo_runs b (goto demo_code (set_x 0 demo_target (demo_cpu 7 b (ram_ s'))))) as [c2 Hrun].
  assert (Hcb : CannotBackup 24 demo_target (start_size false) demo_state = Some false) by (by vm_compute).
  assert (Hbr : Forall (fun w => w & 0xFE000000 <> 0xD6000000) (take (start_words false) demo_words)) by (apply (bool_decide_unpack _); by vm_compute).
  assert (Hu : Forall (in_u 32) (take (start_words false) demo_words)) by (unfold in_u; apply (bool_decide_unpack _); by vm_compute).
  destruct (original_runs 4096 demo_mmap (fun _ => true) demo_new 28 24 demo_exec demo_state demo_target demo_bridge demo_entry
    demo_code false (take (start_words false) demo_words) b s' (demo_cpu 7 b (ram_ s')) c2 demo_platform (demo_hookable false) Hi Hb
    Hcb Hbr Hu demo_others U1 (U4 false) eq_refl) as [Hback _].
  exists b, s', c2. split; [exact Hi|]. split; [exact Hrun|]. exact (Hback eq_refl Hrun).
Defined.

End TrampolineCorrect.
