(* ===== verification/Thumb2.v ===== *)
(** * The Thumb-2 checks of the trampolines

    arch/thumb2.cpp and .h of src/engine/trampoline: which instructions may be
    moved, how many bytes of a method's start a backup takes, and the
    conversion between addresses and program counters.  The templates of
    thumb2.S are not modelled, only the size of the space the backup has. *)
From stdpp Require Import strings.
From S2P Require Import Prelude.
From S2P Require Import Arm64.
Import Ram.
Local Open Scope cint_scope.

Module Thumb2.

(** INST_CASE(mask, value), the first that fits. *)
Definition inst_case (inst : Z) (c : Z * Z) : bool := inst & fst c =? snd c.
Definition IsThumb32 (inst : Z) : bool := (inst & 0xF000 =? 0xF000) || (inst & 0xF800 =? 0xE800).
Definition IsThumb32PCRelatedInst (inst : Z) : bool :=
  existsb (inst_case inst)
    [(0xF800D000, 0xF800D000); (0xF800D000, 0xF000D000); (0xF800D000, 0xF0008000); (0xF800D000, 0xF0009000);
     (0xFBFF8000, 0xF2AF0000); (0xFBFF8000, 0xF20F0000); (0xFF7F0000, 0xF85F0000); (0xFFFF00F0, 0xE8DF0000); (0xFFFF00F0, 0xE8DF0010)].
Definition IsThumb16PCRelatedInst (inst : Z) : bool :=
  existsb (inst_case inst)
    [(0xF000, 0xD000); (0xF800, 0xE000); (0xFFF8, 0x4778); (0xFF78, 0x4478); (0xFF78, 0x4678); (0xF800, 0xA000); (0xF800, 0x4800);
     (0xF500, 0xB100)].
Definition ToPC (addr : Z) : Z := addr .| 1.
Definition ToAddress (pc : Z) : Z := Z.ldiff pc 1.

(** The loops get on by two at least; [fuel] bounds their turns. *)
Fixpoint cannot_backup_loop (fuel : nat) (entry size index : Z) (m : ram) : option bool :=
  match fuel with
  | O => None
  | S fuel =>
      if size <=? index then Some false
      else
        h ← load 2 m (entry + index);
        if IsThumb32 h then
          w ← load 4 m (entry + index);
          if IsThumb32PCRelatedInst w then Some true else cannot_backup_loop fuel entry size (index + 4) m
        else if IsThumb16PCRelatedInst h then Some true
        else cannot_backup_loop fuel entry size (index + 2) m
  end.
Definition CannotBackup (entry size : Z) : ram -> option bool := cannot_backup_loop (S (Z.to_nat size)) entry size 0.
Fixpoint backup_size_loop (fuel : nat) (entry min_size size : Z) (m : ram) : option Z :=
  match fuel with
  | O => None
  | S fuel =>
      if min_size <=? size then Some size
      else h ← load 2 m (entry + size); backup_size_loop fuel entry min_size (if IsThumb32 h then size + 4 else size + 2) m
  end.
Definition GetBackupCodeSize (entry min_size : Z) : ram -> option Z := backup_size_loop (S (Z.to_nat min_size)) entry min_size 0.
Fixpoint fill_nops16 (n : nat) (target : Z) (m : ram) : option ram :=
  match n with O => Some m | S n => m ← store_int 2 m target 0xbf00; fill_nops16 n (target + 2) m end.
Definition FillWithNopImpl (target size : Z) : ram -> option ram := fill_nops16 (Z.to_nat ((size + 1) `div` 2)) target.

(** kDirectJumpTrampolineSize, the bytes to skip, and the space the backup
    has: two words and three no-operations. *)
Definition kDirectJumpTrampolineSize : Z := 8.
Definition kSkipBytes : Z := 4.
Definition override_space : Z := 14.
Definition backup_request (skip : bool) : Z := kDirectJumpTrampolineSize + (if skip then kSkipBytes else 0).

(** ** The instructions of the code *)

(** [instrs m a l]: from [a] on lie instructions of the lengths [l]. *)
Inductive instrs (m : ram) : Z -> list Z -> Prop :=
| instrs_nil a : instrs m a []
| instrs_cons a h l : load 2 m a = Some h -> instrs m (a + (if IsThumb32 h then 4 else 2)) l ->
    instrs m a ((if IsThumb32 h then 4 else 2) :: l).
Definition total (l : list Z) : Z := fold_right Z.add 0 l.

Lemma load_mapped n m a : is_mapped m a (Z.of_nat n) -> is_Some (load n m a).
Proof. intros H. unfold load. destruct (read_mapped _ _ _ H) as [l ->]. by eexists. Qed.

(** The loop stops at the first end of an instruction at or past the request. *)
Lemma backup_size_walks m entry min_size : is_mapped m entry min_size -> Z.even min_size = true -> forall fuel size,
  Z.of_nat fuel > min_size - size -> (0 < fuel)%nat -> Z.even size = true -> 0 <= size <= min_size + 2 ->
  exists l, backup_size_loop fuel entry min_size size m = Some (size + total l) /\ instrs m (entry + size) l /\
    min_size <= size + total l <= min_size + 2 /\ (forall k, (k < length l)%nat -> size + total (take k l) < min_size).
Proof.
  intros Hm Hmin. induction fuel as [|fuel IH]; intros size Hf Hpos Hs Hr; [lia|]. cbn [backup_size_loop].
  destruct (Z.leb_spec min_size size) as [Hle|Hlt].
  { exists []. cbn [total fold_right length]. rewrite Z.add_0_r. split; [done|]. split; [constructor|]. split; [lia|]. intros k Hk. lia. }
  assert (Hgap : size + 2 <= min_size) by (apply Z.even_spec in Hs as [a ->], Hmin as [b ->]; lia).
  destruct (load_mapped 2 m (entry + size)) as [h Hh]; [intros y Hy; apply Hm; lia|]. rewrite Hh. cbn [mbind option_bind].
  set (n := if IsThumb32 h then 4 else 2).
  assert (Hn : (if IsThumb32 h then size + 4 else size + 2) = size + n) by (unfold n; by destruct (IsThumb32 h)). rewrite Hn.
  assert (Hn2 : n = 2 \/ n = 4) by (unfold n; destruct (IsThumb32 h); tauto).
  destruct (IH (size + n)) as (l & Hl & Hi & Ht & Hk); [lia|lia| |lia|].
  { rewrite Z.even_add, Hs. by destruct Hn2 as [-> | ->]. }
  exists (n :: l). cbn [total fold_right]. fold (total l). rewrite Z.add_assoc. split; [done|]. split.
  - apply instrs_cons; [done|]. fold n. by rewrite <- Z.add_assoc.
  - split; [done|]. intros [|k] Hlk; cbn [take fold_right].
    + cbn [total fold_right]. lia.
    + cbn [length] in Hlk. cbn [total fold_right]. fold (total (take k l)). rewrite Z.add_assoc. apply Hk. lia.
Qed.

(** ** What the checks find *)

(** The word at [a] is read as one little-endian number, so the first half of
    the instruction is the low half of it. *)
Lemma load_halves m a h k : load 2 m a = Some h -> load 2 m (a + 2) = Some k -> load 4 m a = Some (h .| (k << 16)).
Proof.
  unfold load. cbn [read]. replace (a + 2 + 1) with (a + 1 + 1 + 1) by lia. replace (a + 2) with (a + 1 + 1) by lia.
  destruct (m a) as [b0|]; [|done]. destruct (m (a + 1)) as [b1|]; [|done]. destruct (m (a + 1 + 1)) as [b2|]; [|done].
  destruct (m (a + 1 + 1 + 1)) as [b3|]; [|done]. cbn. intros [= <-] [= <-]. f_equal.
  rewrite !Z.shiftl_0_l, !Z.lor_0_r, !Z.shiftl_lor, !Z.shiftl_shiftl by lia. rewrite <- !Z.lor_assoc. done.
Qed.
Lemma case_nibble w M V : w & M = V -> M >> 28 = 15 -> (w >> 28) & 15 = V >> 28.
Proof. intros <- E. by rewrite Z.shiftr_land, E. Qed.
Lemma low_half x : 0 <= x < 2 ^ 16 -> x & 0xFF7F0000 = 0.
Proof.
  intros H. rewrite <- (Z.mod_small x (2 ^ 16) H), <- Z.land_ones, <- Z.land_assoc by lia. apply Z.land_0_r.
Qed.
(** A load relative to pc, ldr.w rt, [pc, #imm]: the test is made for the
    first half in the high half, and only rt from 14 on is found. *)
Lemma thumb32_ldr_missed rt imm : 0 <= rt <= 13 -> 0 <= imm < 4096 ->
  IsThumb32PCRelatedInst (0xF8DF0000 .| (rt << 12) .| imm) = true /\
  IsThumb32PCRelatedInst (0xF8DF .| (((rt << 12) .| imm) << 16)) = false.
Proof.
  intros Hr Hi. set (w := 0xF8DF .| _). assert (Hw : (w >> 28) & 15 = rt).
  { unfold w. rewrite Z.shiftr_lor, (Z.shiftr_shiftl_r _ 16 28) by lia. change (28 - 16) with 12. rewrite Z.shiftr_lor, Z.shiftr_shiftl_l by lia.
    rewrite Z.shiftl_0_r. replace (imm >> 12) with 0 by (rewrite Z.shiftr_div_pow2 by lia; symmetry; apply Z.div_small; lia).
    change (0xF8DF >> 28) with 0. rewrite Z.lor_0_r, Z.lor_0_l. change 15 with (Z.ones 4). rewrite Z.land_ones by lia. apply Z.mod_small. lia. }
  split.
  - unfold IsThumb32PCRelatedInst. apply existsb_exists. exists (0xFF7F0000, 0xF85F0000). split; [cbn; tauto|].
    unfold inst_case. cbn [fst snd]. apply Z.eqb_eq. rewrite !Z.land_lor_distr_l, (low_half imm), (low_half (rt << 12)); [done| |lia].
    rewrite Z.shiftl_mul_pow2 by lia. lia.
  - apply not_true_iff_false. intros H. apply existsb_exists in H as (c & Hc & Hin). apply Z.eqb_eq in Hin.
    cbn [In] in Hc. apply case_nibble in Hin; [|repeat destruct Hc as [<-|Hc]; try (by vm_compute); try by destruct Hc].
    rewrite Hw in Hin. repeat destruct Hc as [<-|Hc]; try by destruct Hc. all: vm_compute in Hin; lia.
Qed.

(** ** The theorems *)

Definition demo_code : ram := put (fun _ => None) 0x1000 (concat (List.map (le_bytes 2) [0xb5f0; 0x4606; 0xb082; 0xf8d0; 0x1008; 0xbf00])).

(** Code the checks let through although it loads from behind pc. *)
Example ldr_let_through :
  CannotBackup 0x1000 8 (put (fun _ => None) 0x1000 (concat (List.map (le_bytes 2) [0xf8df; 0x0004; 0xbf00; 0xbf00]))) = Some false.
Proof. by vm_compute. Qed.
(** A failed allocation does not come out null. *)
Example null_to_pc : ToPC 0 = 1.
Proof. done. Qed.

End Thumb2.
