(* ===== verification/InterpSig.v ===== *)
(** * Interpreter sessions: scope, signatures, argument and result boxing

    src/sandbox/pi_interp_tracer.h and .cpp: which classes the interpreter
    may step into, the kinds of the parameters a JNI signature has, and how a
    callback stores a value in a [jvalue].  src/sandbox/pi_interp_executor.cpp:
    the shorty of a signature.

    A std::string is its bytes.  A loop over the characters of a signature up
    to its ')' is a recursion on what is left of them.

    * What signatures and boxed values mean to a session *)
From S2P Require Import Prelude.
From S2P Require Import VmEnv.
From S2P Require Import VmMarshal.
From S2P Require Import DexWriter.
From S2P Require Import DexTextProofs.

Import VmEnv.

Module InterpSig.
Local Open Scope Z_scope.
Local Open Scope cint_scope.

(** ** Scope *)
Definition system_prefixes : list (list Z) :=
  [str "Ljava/"; str "Ljavax/"; str "Landroid/"; str "Landroidx/"; str "Lkotlin/"; str "Lkotlinx/";
   str "Lorg/jetbrains/"; str "Ldalvik/"; str "Llibcore/"; str "Lsun/"; str "Lorg/apache/harmony/"].
Definition isSystemDescriptor (desc : list Z) : bool := existsb (fun p => starts_with p desc) system_prefixes.

Definition isCoroutineSignature (sig : list Z) : bool :=
  contains (str "Lkotlin/coroutines/Continuation;") sig ||
  contains (str "Lkotlin/coroutines/jvm/internal/") sig ||
  contains (str "Lkotlin/coroutines/jvm/") sig.

(** com.example.app is the prefix Lcom/example/app/. *)
Definition app_prefix (pkg : list Z) : list Z := 76 :: DexWriter.slashes pkg ++ [47].

Fixpoint skip_brackets (s : list Z) : list Z :=
  match s with 91 :: t => skip_brackets t | _ => s end.

(** [g_appScopePkg] is a global, here an argument; [None]: the
    std::out_of_range of substr(npos), for a descriptor of brackets only. *)
Definition isInterpretableDescriptor (g_appScopePkg desc : list Z) : option bool :=
  match desc with
  | [] => Some false
  | c :: _ =>
      match g_appScopePkg with
      | [] => Some (negb (isSystemDescriptor desc))
      | _ =>
          let prefix := app_prefix g_appScopePkg in
          if c =? 91 then
            match skip_brackets desc with
            | [] => None
            | peeled => Some (starts_with prefix peeled)
            end
          else Some (starts_with prefix desc)
      end
  end.

Record FilterOptions := MkFilter {
  filter_system_classes : bool;
  whitelist_pkgs : list (list Z);
  blacklist_pkgs : list (list Z)
}.

Definition passScopeFilter (g_appScopePkg : list Z) (f : option FilterOptions) (desc : list Z) : option bool :=
  match f with
  | None => isInterpretableDescriptor g_appScopePkg desc
  | Some f =>
      if filter_system_classes f && isSystemDescriptor desc then Some false
      else if existsb (fun b => starts_with b desc) (blacklist_pkgs f) then Some false
      else if negb (bool_decide (whitelist_pkgs f = [])) then
        Some (existsb (fun w => starts_with w desc) (whitelist_pkgs f))
      else if negb (bool_decide (g_appScopePkg = [])) then isInterpretableDescriptor g_appScopePkg desc
      else Some true
  end.

(** ** Signatures *)

(** Past the ';' of a class name. *)
Fixpoint skip_class (s : list Z) : list Z :=
  match s with
  | [] => []
  | c :: t => if c =? 59 then t else skip_class t
  end.
(** Past a type: brackets and an element, a class, or one character. *)
Definition skip_type (s : list Z) : list Z :=
  match s with
  | 91 :: _ => let r := skip_brackets s in match r with 76 :: _ => skip_class r | _ => drop 1 r end
  | 76 :: _ => skip_class s
  | _ => drop 1 s
  end.
(** Objects and arrays are 'L'. *)
Definition kind_char (c : Z) : Z := if (c =? 76) || (c =? 91) then 76 else c.

(** The loop over the parameters; a round takes at least one character. *)
Fixpoint param_kinds (fuel : nat) (s : list Z) : list Z :=
  match s, fuel with
  | [], _ => []
  | _, O => []
  | c :: _, S fuel => kind_char c :: param_kinds fuel (skip_type s)
  end.

(** parseSigTypes: the kinds of the parameters and of the result. *)
Definition parseSigTypes (sig : list Z) : list Z * Z :=
  match sig with
  | 40 :: s =>
      match DexWriter.cut_at 41 s with
      | Some (body, rest) => (param_kinds (length body) body, kind_char (nth 1 rest 86))
      | None => ([], 86)
      end
  | _ => ([], 86)
  end.
Definition paramTypeChar (signature : list Z) (index : Z) : Z :=
  default 73 ((parseSigTypes signature).1 !!z index).
Definition returnTypeChar (signature : list Z) : Z := (parseSigTypes signature).2.

(** [typeChar]: an object or an array is handled before it is called. *)
Definition slot_char (c : Z) : Z := if (c =? 76) || (c =? 91) then 76 else if (c =? 74) || (c =? 68) then c else 73.
Fixpoint param_slots (fuel : nat) (s : list Z) : list Z :=
  match s, fuel with
  | [], _ => []
  | _, O => []
  | c :: _, S fuel => slot_char c :: param_slots fuel (skip_type s)
  end.
Definition shortyFromSignature (sig : list Z) : option (list Z) :=
  match sig with
  | 40 :: s =>
      match DexWriter.cut_at 41 s with
      | Some (body, _ :: ret :: _) => Some (kind_char ret :: param_slots (length body) body)
      | _ => None
      end
  | _ => None
  end.

(** ** Storing values

    A [jvalue] is its eight bytes as an integer; assigning a member of [w]
    bits keeps the others. *)
Definition put_low (w old v : Z) : Z := (old >> w) << w .| wrap w v.

Inductive DetailArgKind := INT | FP | OBJECT.
#[export] Instance DetailArgKind_eq_dec : EqDecision DetailArgKind.
Proof. solve_decision. Defined.

Definition store_int (t slot raw : Z) : Z :=
  if t =? 74 then U64 raw
  else if t =? 90 then put_low 8 slot raw
  else if t =? 66 then put_low 8 slot raw
  else if t =? 67 then put_low 16 slot raw
  else if t =? 83 then put_low 16 slot raw
  else put_low 32 slot raw.
(** memcpy of the first four bytes of [raw], or of all. *)
Definition store_fp (t slot raw : Z) : Z := if t =? 70 then put_low 32 slot raw else U64 raw.

Definition setArgValue (signature : list Z) (index slot : Z) (kind : DetailArgKind) (raw : Z) : Z :=
  let t := paramTypeChar signature index in
  match kind with
  | OBJECT => U64 raw
  | FP => store_fp t slot raw
  | INT => store_int t slot raw
  end.

Definition mockValue (signature : list Z) (slot : Z) (kind : DetailArgKind) (raw : Z) : Z :=
  let t := returnTypeChar signature in
  let t := if t =? 86 then 73 else t in
  if bool_decide (kind = OBJECT) || (t =? 76) then U64 raw
  else if bool_decide (kind = FP) || (t =? 68) || (t =? 70) then store_fp t slot raw
  else store_int t slot raw.
(** A value as the templates InvokeEvent::setArg and InvokeEvent::mock see it:
    a floating one as the bits of its double, a pointer or reference as an
    address, an integer widened to 64 bits. *)
Inductive HostValue := HBool (b : bool) | HFloating (bits : Z) | HPointer (p : Z) | HInteger (v : Z).

(** The new content of [args[index]]; [argc] is the length of [args]. *)
Definition setArg (signature : list Z) (args : list Z) (index : Z) (val : HostValue) : list Z :=
  match args !!z index with
  | None => args
  | Some slot =>
      let set kind raw := <[Z.to_nat index := setArgValue signature index slot kind raw]> args in
      match val with
      | HBool b => set INT (if b then 1 else 0)
      | HFloating bits => set FP bits
      | HPointer p => set OBJECT p
      | HInteger v => set INT (U64 v)
      end
  end.

(** The new [*mockRet]. *)
Definition mock (signature : list Z) (mockRet : Z) (val : HostValue) : Z :=
  match val with
  | HBool b => put_low 8 mockRet (if b then 1 else 0)
  | HFloating bits => mockValue signature mockRet FP bits
  | HPointer p => U64 p
  | HInteger v => mockValue signature mockRet INT (U64 v)
  end.

(** InvokeEvent::getArgRaw *)
Definition getArgRaw (args : list Z) (index : Z) : Z := default 0 (args !!z index).

(** ** TraceOneLine: the first line, cut at [maxLen] bytes *)
Fixpoint one_line (s : list Z) (room : nat) : list Z :=
  match s with
  | [] => []
  | c :: t =>
      if (c =? 10) || (c =? 13) then str "..."
      else match room with O => str "..." | S room => c :: one_line t room end
  end.
Definition TraceOneLine (s : list Z) (maxLen : nat) : list Z := one_line s maxLen.
End InterpSig.

Import VmEnv.

Module InterpSigProofs.
Export InterpSig.
Local Open Scope Z_scope.
Local Open Scope cint_scope.

(** ** Signatures *)

(** A type as a JNI signature spells it: an array of a primitive or of a
    class, or the thing itself. *)
Inductive jtype : list Z -> Prop :=
  | jt_primitive k c : c ∈ str "VZBSCIJFD" -> jtype (replicate k 91 ++ [c])
  | jt_class k body : 59 ∉ body -> 41 ∉ body -> jtype (replicate k 91 ++ 76 :: body ++ [59]).
Definition kind (d : list Z) : Z := kind_char (List.hd 86 d).
Definition slot (c : Z) : Z := if (c =? 74) || (c =? 68) || (c =? 76) then c else 73.

Lemma skip_brackets_replicate k s : List.hd 0 s <> 91 -> skip_brackets (replicate k 91 ++ s) = s.
Proof. intros Hs. induction k; [|done]. destruct s as [|c s]; [done|]. simpl in *. by repeat (case_match; try done). Qed.

Lemma skip_class_body body rest : 59 ∉ body -> skip_class (body ++ 59 :: rest) = rest.
Proof.
  induction body as [|c body IH]; [done|]. intros [? ?]%not_elem_of_cons. simpl. rewrite (proj2 (Z.eqb_neq c 59)) by done. by apply IH.
Qed.

Lemma letter_of_primitive c : c ∈ str "VZBSCIJFD" -> c <> 91 /\ c <> 76 /\ c <> 41.
Proof. intros H%list_elem_of_In. split_and!; intros ->; by repeat (destruct H as [H|H]). Qed.

Lemma jtype_skip d rest : jtype d -> exists c t, d = c :: t /\ skip_type (c :: t ++ rest) = rest.
Proof.
  intros [k c Hc|k body H59 H41].
  - destruct (letter_of_primitive c Hc) as (H1 & H2 & _).
    assert (Hb : forall k, skip_brackets (replicate k 91 ++ c :: rest) = c :: rest) by (intros; by apply skip_brackets_replicate).
    assert (Hd : forall s, skip_brackets s = c :: rest -> match skip_brackets s with 76 :: _ => skip_class (skip_brackets s) | _ => drop 1 (skip_brackets s) end = rest).
    { intros s ->. by repeat (case_match; try done). }
    destruct k as [|k]; cbn [replicate app].
    + exists c, []. split; [done|]. unfold skip_type. by repeat (case_match; try done).
    + exists 91, (replicate k 91 ++ [c]). split; [done|]. rewrite <- app_assoc. cbn [app]. apply Hd. cbn [skip_brackets]. apply Hb.
  - assert (Hb : forall k, skip_brackets (replicate k 91 ++ 76 :: body ++ 59 :: rest) = 76 :: body ++ 59 :: rest) by (intros; by apply skip_brackets_replicate).
    destruct k as [|k]; cbn [replicate app].
    + exists 76, (body ++ [59]). split; [done|]. rewrite <- app_assoc. cbn [app skip_type skip_class]. by apply skip_class_body.
    + exists 91, (replicate k 91 ++ 76 :: body ++ [59]). split; [done|]. rewrite <- app_assoc. cbn [app]. rewrite <- app_assoc. cbn [app].
      unfold skip_type. cbn [skip_brackets]. rewrite Hb. cbn [skip_class]. by apply skip_class_body.
Qed.

Lemma slot_char_kind c : slot_char c = slot (kind_char c).
Proof.
  unfold slot_char, slot, kind_char. destruct (Z.eqb_spec c 76) as [->|]; [done|]. destruct (Z.eqb_spec c 91) as [->|]; [done|]. simpl.
  rewrite (proj2 (Z.eqb_neq c 76)) by done. by destruct (c =? 74), (c =? 68).
Qed.

Lemma params_spec ps : Forall jtype ps -> forall fuel, (length (concat ps) <= fuel)%nat ->
  param_kinds fuel (concat ps) = kind <$> ps /\ param_slots fuel (concat ps) = (slot ∘ kind) <$> ps.
Proof.
  induction 1 as [|d ps Hd _ IH]; intros fuel Hf; [by destruct fuel|]. simpl concat in *.
  destruct (jtype_skip d (concat ps) Hd) as (c & t & -> & Hs). cbn [app] in *.
  destruct fuel as [|fuel]; [simpl in Hf; lia|]. cbn [param_kinds param_slots]. rewrite Hs.
  destruct (IH fuel) as [-> ->]; [simpl in Hf; rewrite length_app in Hf; lia|].
  rewrite slot_char_kind. done.
Qed.

Lemma jtype_no_paren d : jtype d -> 41 ∉ d.
Proof.
  intros [k c Hc|k body _ H41].
  - destruct (letter_of_primitive c Hc) as (_ & _ & H). rewrite not_elem_of_app, elem_of_replicate, list_elem_of_singleton. split; [lia|congruence].
  - rewrite !not_elem_of_app, not_elem_of_cons, not_elem_of_app, elem_of_replicate, list_elem_of_singleton.
    split_and!; (done || lia).
Qed.

Lemma concat_no_paren ps : Forall jtype ps -> 41 ∉ concat ps.
Proof. induction 1; simpl; [apply not_elem_of_nil|]. rewrite not_elem_of_app. split; [by apply jtype_no_paren|done]. Qed.

Definition signature (ps : list (list Z)) (r : list Z) : list Z := str "(" ++ concat ps ++ str ")" ++ r.

Lemma signature_parts ps r : Forall jtype ps -> jtype r ->
  parseSigTypes (signature ps r) = (kind <$> ps, kind r) /\
  shortyFromSignature (signature ps r) = Some (kind r :: ((slot ∘ kind) <$> ps)).
Proof.
  intros Hps Hr. unfold signature. cbn [app str]. unfold parseSigTypes, shortyFromSignature. cbn [app].
  change (str ")" ++ r) with (41 :: r). rewrite DexTextProofs.cut_at_app by by apply concat_no_paren.
  destruct (params_spec ps Hps _ (Nat.le_refl _)) as [-> ->].
  destruct (jtype_skip r [] Hr) as (c & t & -> & _). done.
Qed.

(** From the signature built of parameter types and a result type,
    parseSigTypes recovers the kind of each, and shortyFromSignature the
    shorty of the frame: the result, and for each parameter J and D, which
    take two registers, L for an object or array, and I for everything that
    takes one register. *)
Theorem signature_kinds ps r : Forall jtype ps -> jtype r ->
  parseSigTypes (signature ps r) = (kind <$> ps, kind r) /\
  shortyFromSignature (signature ps r) = Some (kind r :: ((slot ∘ kind) <$> ps)).
Proof. apply signature_parts. Qed.

Lemma signature_kinds_witness :
  parseSigTypes (str "(I[[JLa/B;D)V") = ([73; 76; 76; 68], 86) /\
  shortyFromSignature (str "(I[[JLa/B;D)V") = Some (86 :: [73; 76; 76; 68]).
Proof.
  apply (signature_kinds [str "I"; str "[[J"; str "La/B;"; str "D"] (str "V")).
  - repeat constructor.
    + apply (jt_primitive 0). by apply (bool_decide_unpack _).
    + apply (jt_primitive 2). by apply (bool_decide_unpack _).
    + apply (jt_class 0 (str "a/B")); by apply (bool_decide_unpack _).
    + apply (jt_primitive 0). by apply (bool_decide_unpack _).
  - apply (jt_primitive 0). by apply (bool_decide_unpack _).
Defined.

(** The header's example, VILL for (II[Ljava/lang/String;)V, is not what it gives. *)
Example header_example : shortyFromSignature (str "(II[Ljava/lang/String;)V") = Some (str "VIIL").
Proof. reflexivity. Qed.
(** ** Boxed values *)
Lemma wrap_put_low w old v : 0 <= w -> wrap w (put_low w old v) = wrap w v.
Proof. intros Hw. unfold put_low. zbits. Qed.

Lemma as_prim_wrap p v w : (match p with PBoolean | PByte => 8 | PChar | PShort => 16 | PInt | PFloat => 32 | PLong | PDouble => 64 end) = w ->
  forall x, wrap w x = wrap w v -> as_prim p x = as_prim p v.
Proof. intros <- x H. destruct p; simpl in *; try done; by apply swrap_cong. Qed.

Definition integral (p : prim) : Prop := match p with PFloat | PDouble => False | _ => True end.

Lemma store_int_reads c p old v : prim_of_char c = Some p -> integral p -> as_prim p (store_int c old (U64 v)) = as_prim p v.
Proof.
  intros Hp Hi. rewrite (VmMarshal.prim_char _ _ Hp). destruct p; try done; cbn [store_int Z.eqb Pos.eqb];
    (eapply as_prim_wrap; [reflexivity|]); rewrite ?wrap_put_low, ?wrap_wrap by lia; (done || (rewrite wrap_wrap_le by lia; done)).
Qed.

(** A callback's value arrives.  An integer set as argument [i], or mocked
    as the result, reads back at the declared type as that integer truncated
    to it, a double mocked for a D result as that double, an object as its
    address; the other arguments do not change.  Of a floating value mocked
    for an F result the low half of the double's bits arrives. *)
Theorem callback_values ps r args i d old v (sig := signature ps r) :
  Forall jtype ps -> jtype r -> ps !! i = Some d -> args !! i = Some old -> in_u 64 v ->
  (forall j, j <> i -> setArg sig args (Z.of_nat i) (HInteger v) !! j = args !! j) /\
  (forall p, prim_of_char (kind d) = Some p -> integral p ->
    exists a, setArg sig args (Z.of_nat i) (HInteger v) !! i = Some a /\ as_prim p a = as_prim p v) /\
  (forall p, prim_of_char (kind r) = Some p -> integral p -> as_prim p (mock sig old (HInteger v)) = as_prim p v) /\
  (kind r = ch_D -> mock sig old (HFloating v) = v) /\
  (kind r = ch_L -> mock sig old (HPointer v) = v) /\
  (kind r = ch_F -> U32 (mock sig old (HFloating v)) = U32 v).
Proof.
  intros Hps Hr Hd Ha Hv. destruct (signature_parts ps r Hps Hr) as [E _]. fold sig in E.
  assert (Hz : args !!z Z.of_nat i = Some old) by (unfold zlookup; rewrite (proj2 (Z.leb_le _ _)), Nat2Z.id by lia; done).
  assert (Hk : paramTypeChar sig (Z.of_nat i) = kind d).
  { unfold paramTypeChar, zlookup. rewrite E, (proj2 (Z.leb_le _ _)), Nat2Z.id by lia. cbn [fst]. by rewrite list_lookup_fmap, Hd. }
  unfold setArg, mock, mockValue, returnTypeChar. rewrite Hz, Nat2Z.id, E. cbn [snd]. split_and!.
  - intros j Hj. by apply list_lookup_insert_ne.
  - intros p Hp Hi. eexists. split; [apply list_lookup_insert_eq, (lookup_lt_Some _ _ _ Ha)|].
    unfold setArgValue. rewrite Hk. by apply store_int_reads.
  - intros p Hp Hi. assert (Hn : kind r <> 86 /\ kind r <> 76 /\ kind r <> 68 /\ kind r <> 70).
    { split_and!; intros H; rewrite H in Hp; simpl in Hp; simplify_eq; done. }
    destruct Hn as (H1 & H2 & H3 & H4). rewrite (proj2 (Z.eqb_neq _ _) H1), (proj2 (Z.eqb_neq _ _) H2), (proj2 (Z.eqb_neq _ _) H3), (proj2 (Z.eqb_neq _ _) H4).
    simpl. by apply store_int_reads.
  - intros ->. simpl. by apply wrap_small.
  - intros _. by apply wrap_small.
  - intros ->. simpl. by apply wrap_put_low.
Qed.

Lemma callback_values_witness :
  setArg (str "(ZI)S") [0; 7] 1 (HInteger 5) !! 0%nat = Some 0 /\
  (exists a, setArg (str "(ZI)S") [0; 7] 1 (HInteger 5) !! 1%nat = Some a /\ as_prim PInt a = 5) /\
  as_prim PShort (mock (str "(ZI)S") 7 (HInteger 5)) = 5.
Proof.
  assert (Hp : forall c, c ∈ str "ZIS" -> jtype [c]).
  { intros c Hc%list_elem_of_In. repeat (destruct Hc as [<-|Hc]; [by apply (jt_primitive 0), (bool_decide_unpack _)|]). done. }
  assert (Hps : Forall jtype [str "Z"; str "I"]) by (repeat constructor; apply Hp; by apply (bool_decide_unpack _)).
  assert (Hr : jtype (str "S")) by (apply Hp; by apply (bool_decide_unpack _)).
  destruct (callback_values _ _ [0; 7] 1 (str "I") 7 5 Hps Hr eq_refl eq_refl ltac:(done)) as (H1 & H2 & H3 & _).
  split_and!; [by apply (H1 0%nat)|by apply (H2 PInt)|by apply (H3 PShort)].
Defined.

(** Mocking 1.0 for a method that returns float gives 0.0. *)
Example mock_float : U32 (mock (str "()F") 0 (HFloating 0x3ff0000000000000)) = 0.
Proof. reflexivity. Qed.
End InterpSigProofs.
