(* ===== verification/CodeProvider.v ===== *)
(** * Code items for the interpreter (src/sandbox/pi_code_provider.cpp)

    What the interpreter runs for a method: the code item found behind the
    method's entry point, taken apart and repacked.  A pointer into the
    memory the item lies in is an offset; [base] is the address of offset 0. *)
From S2P Require Import Prelude.
From S2P Require Import Memory.
From S2P Require Import DexCatch.
From S2P Require Import VmEnv.
Local Open Scope cint_scope.

Module CodeProvider.
Import Memory.

(** ** The length of an encoded_catch_handler_list *)
Section Measure.
Context (mem : list Z).

(** [do ... while (shift < 35)] *)
Fixpoint readUleb_loop (fuel : nat) (p result shift : Z) : option (Z * Z) :=
  match fuel with
  | O => None
  | S f =>
      b ← mem !!z p;
      let result := result .| U32 ((b & 0x7F) << shift) in
      if (b & 0x80) =? 0 then Some (result, p + 1)
      else if shift + 7 <? 35 then readUleb_loop f (p + 1) result (shift + 7)
      else Some (result, p + 1)
  end.
Definition readUleb (p : Z) : option (Z * Z) := readUleb_loop 5 p 0 0.

(** [do ... while ((b & 0x80) != 0)]: a sixth byte would be shifted by 35,
    which C does not define. *)
Fixpoint readSleb_loop (fuel : nat) (p result shift : Z) : option (Z * Z) :=
  match fuel with
  | O => None
  | S f =>
      b ← mem !!z p;
      let result := result .| S32 ((b & 0x7F) << shift) in
      let shift := shift + 7 in
      if negb ((b & 0x80) =? 0) then readSleb_loop f (p + 1) result shift
      else Some (if (shift <? 32) && negb ((b & 0x40) =? 0) then result .| - (1 << shift) else result, p + 1)
  end.
Definition readSleb (p : Z) : option (Z * Z) := readSleb_loop 5 p 0 0.

(** [n] times [readUleb; readUleb]. *)
Fixpoint skip_pairs (n : nat) (p : Z) : option Z :=
  match n with
  | O => Some p
  | S n => '(_, p) ← readUleb p; '(_, p) ← readUleb p; skip_pairs n p
  end.
(** The outer loop; the inner option is [return 0]. *)
Fixpoint skip_handlers (handlers : nat) (p : Z) : option (option Z) :=
  match handlers with
  | O => Some (Some p)
  | S i =>
      '(count, p) ← readSleb p;
      let n := U32 (Z.abs count) in
      if 0x10000 <? n then Some None
      else
        p ← skip_pairs (Z.to_nat n) p;
        p ← (if count <=? 0 then '(_, p) ← readUleb p; Some p else Some p);
        skip_handlers i p
  end.
Definition measureCatchHandlerList (start : Z) : option Z :=
  '(handlers, p) ← readUleb start;
  if 0x10000 <? handlers then Some 0
  else
    r ← skip_handlers (Z.to_nat handlers) p;
    match r with Some p => Some (p - start) | None => Some 0 end.
End Measure.

(** ** InterpCode *)

(** [insnsPtr]: into the item (zero-copy), or to [insnsBuf]. *)
Inductive InsnsPtr := InsnsNull | InsnsAt (p : Z) | InsnsBuf.
Record InterpCode := MkInterpCode {
  regs : list Z; regFlags : list Z; triesBuf : list Z; insnsBuf : list Z; insnsPtr : InsnsPtr;
  registersSize : Z; insSize : Z; outsSize : Z; insnsCount : Z; hasTries : bool; isCompactDex : bool }.

(** The reset at the start of [buildVmCode]. *)
Definition cleared (compact : bool) : InterpCode := MkInterpCode [] [] [] [] InsnsNull 0 0 0 0 false compact.

Definition set_sizes (out : InterpCode) (registersSize insSize outsSize insnsCount : Z) : InterpCode :=
  MkInterpCode (regs out) (regFlags out) (triesBuf out) (insnsBuf out) (insnsPtr out)
    registersSize insSize outsSize insnsCount (hasTries out) (isCompactDex out).
Definition set_insns (out : InterpCode) (insnsBuf : list Z) (insnsPtr : InsnsPtr) : InterpCode :=
  MkInterpCode (regs out) (regFlags out) (triesBuf out) insnsBuf insnsPtr
    (registersSize out) (insSize out) (outsSize out) (insnsCount out) (hasTries out) (isCompactDex out).
Definition set_tries (out : InterpCode) (triesBuf : list Z) (hasTries : bool) : InterpCode :=
  MkInterpCode (regs out) (regFlags out) triesBuf (insnsBuf out) (insnsPtr out)
    (registersSize out) (insSize out) (outsSize out) (insnsCount out) hasTries (isCompactDex out).
Definition set_regs (out : InterpCode) : InterpCode :=
  MkInterpCode (replicate (Z.to_nat (registersSize out)) 0) (replicate (Z.to_nat (registersSize out)) 0)
    (triesBuf out) (insnsBuf out) (insnsPtr out)
    (registersSize out) (insSize out) (outsSize out) (insnsCount out) (hasTries out) (isCompactDex out).

Section Build.
Context (base : Z) (mem : list Z).

(** [(addr + 3) & ~3], on the address. *)
Definition align4 (p : Z) : Z := Z.land (base + p + 3) (Z.lnot 3) - base.

Definition buildStandardCodeItem (ci : Z) (out : InterpCode) : option (bool * InterpCode) :=
  registersSize ← load16 mem (ci + 0);
  insSize ← load16 mem (ci + 2);
  outsSize ← load16 mem (ci + 4);
  triesSize ← load16 mem (ci + 6);
  insnsCount ← load32 mem (ci + 12);
  let out := set_sizes out registersSize insSize outsSize insnsCount in
  let insns := ci + 16 in
  if (insnsCount =? 0) || (registersSize =? 0) then Some (false, out)
  else
    let out := set_insns out [] (InsnsAt insns) in
    if triesSize =? 0 then Some (true, set_tries out (triesBuf out) false)
    else
      let tryItems := align4 (insns + insnsCount * 2) in
      let handlerList := tryItems + triesSize * 8 in
      handlerBytes ← measureCatchHandlerList mem handlerList;
      if handlerBytes =? 0 then Some (true, set_tries out (triesBuf out) false)
      else
        items ← slice mem tryItems (triesSize * 8);
        handlers ← slice mem handlerList handlerBytes;
        Some (true, set_tries out (le_bytes 2 triesSize ++ le_bytes 2 0 ++ items ++ handlers) true).

(** [if (flag) x += *--preheader;] on a 16-bit [x]. *)
Definition add_preheader (flag : bool) (x preheader : Z) : option (Z * Z) :=
  if flag then v ← load16 mem (preheader - 2); Some (U16 (x + v), preheader - 2)
  else Some (x, preheader).
Definition has_flag (v n : Z) : bool := negb (v & (1 << n) =? 0).

Definition buildCompactCodeItem (ci : Z) (out : InterpCode) : option (bool * InterpCode) :=
  fields ← load16 mem (ci + 0);
  insnsCountAndFlags ← load16 mem (ci + 2);
  let registersSize := (fields >> 12) & 0xF in
  let insSize := (fields >> 8) & 0xF in
  let outsSize := (fields >> 4) & 0xF in
  let insnsCount := insnsCountAndFlags >> 5 in
  '(insnsCount, preheader) ←
    (if has_flag insnsCountAndFlags 4 then
       lo ← load16 mem (ci - 2);
       let insnsCount := U32 (insnsCount + lo) in
       hi ← load16 mem (ci - 4);
       Some (U32 (insnsCount + (hi << 16)), ci - 4)
     else Some (insnsCount, ci));
  '(registersSize, preheader) ← add_preheader (has_flag insnsCountAndFlags 0) registersSize preheader;
  '(insSize, preheader) ← add_preheader (has_flag insnsCountAndFlags 1) insSize preheader;
  '(outsSize, preheader) ← add_preheader (has_flag insnsCountAndFlags 2) outsSize preheader;
  let registersSize := U16 (registersSize + insSize) in
  let out := set_sizes out registersSize insSize outsSize insnsCount in
  if (insnsCount =? 0) || (registersSize =? 0) then Some (false, out)
  else
    bytes ← slice mem (ci + 4) (insnsCount * 2);
    Some (true, set_tries (set_insns out (words16 bytes) InsnsBuf) (triesBuf out) false).

(** [method]: its access flags and entry point; [None] is a null pointer. *)
Definition kNative : Z := 0x0100.
Definition kAbstract : Z := 0x0400.
Definition HasAccessFlags (access flags : Z) : bool := (access & flags) =? flags.

Definition buildVmCode (method : option (Z * Z)) (isCompact : bool) : option (bool * InterpCode) :=
  let out := cleared isCompact in
  match method with
  | None => Some (false, out)
  | Some (access, entry) =>
      if HasAccessFlags access kNative then Some (false, out)
      else if HasAccessFlags access kAbstract then Some (false, out)
      else
        let codeItem := Z.land entry (Z.lnot 1) in
        if codeItem =? 0 then Some (false, out)
        else
          '(ok, out) ← (if isCompactDex out then buildCompactCodeItem (codeItem - base) out
                        else buildStandardCodeItem (codeItem - base) out);
          if negb ok then Some (false, out) else Some (true, set_regs out)
  end.

(** The instructions [out.code.insns] points to. *)
Definition insns_of (out : InterpCode) : option (list Z) :=
  match insnsPtr out with
  | InsnsNull => None
  | InsnsBuf => Some (insnsBuf out)
  | InsnsAt p => words16 <$> slice mem p (insnsCount out * 2)
  end.
End Build.

(** ** The repacked block, as the interpreter reads it *)

(** [TryItem]: u4 startAddr, u2 insnCount, u2 handlerOff. *)
Fixpoint read_items (n : nat) (l : list Z) : list DexCatch.TryItem :=
  match n with
  | O => []
  | S n => DexCatch.MkTryItem (le_combine (take 4 l)) (le_combine (take 2 (drop 4 l))) (le_combine (take 2 (drop 6 l)))
             :: read_items n (drop 8 l)
  end.
(** The struct [TryCatchHandler] laid over a buffer. *)
Definition as_TryCatchHandler (buf : list Z) : DexCatch.TryCatchHandler :=
  let triesSize := le_combine (take 2 buf) in
  DexCatch.MkTryCatchHandler triesSize (read_items (Z.to_nat triesSize) (drop 4 buf))
    (drop (4 + 8 * Z.to_nat triesSize) buf).

(** The [vmCode] that is handed to the interpreter. *)
Definition code_of (mem : list Z) (out : InterpCode) : option VmEnv.vmCode :=
  insns ← insns_of mem out;
  Some (VmEnv.MkVmCode insns (if hasTries out then Some (as_TryCatchHandler (triesBuf out)) else None)).

(** ** The format *)

Definition item_bytes (t : DexCatch.TryItem) : list Z :=
  le_bytes 4 (DexCatch.startAddr t) ++ le_bytes 2 (DexCatch.insnCount t) ++ le_bytes 2 (DexCatch.handlerOff t).
Definition standard_bytes (registers ins outs debug : Z) (code : list Z) (tries : list DexCatch.TryItem) (handlers : list Z)
  : list Z :=
  le_bytes 2 registers ++ le_bytes 2 ins ++ le_bytes 2 outs ++ le_bytes 2 (Z.of_nat (length tries)) ++
  le_bytes 4 debug ++ le_bytes 4 (Z.of_nat (length code)) ++ concat (map (le_bytes 2) code) ++
  (if (length tries =? 0)%nat then []
   else replicate (if Nat.odd (length code) then 2 else 0) 0 ++ concat (map item_bytes tries) ++ handlers).

(** Where a list of encoded handlers ends, by the interpreter's own reader. *)
Fixpoint handlers_end (mem : list Z) (n : nat) (p : Z) : option Z :=
  match n with
  | O => Some p
  | S n => '(hs, p) ← DexCatch.handlers_at mem p; handlers_end mem n p
  end.

End CodeProvider.
