(* ===== verification/CodeProviderProofs.v ===== *)
(** * The repacked code item is the method's (pi_code_provider.cpp)

    The provider measures a list of catch handlers as the interpreter's own
    iterator walks it, and what it hands to the interpreter is what the code
    item of the method encodes. *)
From S2P Require Import Prelude.
From S2P Require Import Leb128.
From S2P Require Import DexCatch.
From S2P Require Import VmEnv.
From S2P Require Import Smali.
From S2P Require Import CodeProvider.
Import Leb128.
Local Open Scope cint_scope.

Module CodeProviderProofs.
Export CodeProvider.

(** ** Number readers *)

Lemma continues b : in_u 8 b -> ((b & 0x80) =? 0) = negb (0x7f <? b).
Proof. intros Hb. unfold in_u in Hb. range_check 0 256. Qed.
Lemma sign_bit b : in_u 8 b -> b <= 0x7f -> ((b & 0x40) =? 0) = negb (Z.testbit b 6).
Proof. intros Hb _. unfold in_u in Hb. range_check 0 256. Qed.

Lemma group_u32 b k : 0 <= k <= 25 -> U32 ((b & 0x7f) << k) = (b & 0x7f) << k.
Proof.
  intros Hk. apply wrap_small. rewrite land_7f. unfold in_u. rewrite Z.shiftl_mul_pow2 by lia.
  pose proof (wrap_in_u 7 b ltac:(lia)) as Hw. unfold in_u in Hw.
  pose proof (pow2_pos k). split; [nia|].
  apply Z.lt_le_trans with (2 ^ 7 * 2 ^ k); [nia|]. rewrite <- Z.pow_add_r by lia. apply Z.pow_le_mono_r; lia.
Qed.
Lemma group_s32 b k : 0 <= k <= 21 -> S32 ((b & 0x7f) << k) = (b & 0x7f) << k.
Proof.
  intros Hk. apply swrap_small; [lia|]. rewrite land_7f. unfold in_s. rewrite Z.shiftl_mul_pow2 by lia.
  pose proof (wrap_in_u 7 b ltac:(lia)) as Hw. unfold in_u in Hw.
  pose proof (pow2_pos k). pose proof (Z.pow_le_mono_r 2 k 21 ltac:(lia) ltac:(lia)).
  assert (wrap 7 b * 2 ^ k <= 127 * 2 ^ 21) by (apply Z.mul_le_mono_nonneg; lia). split; [nia|lia].
Qed.
Lemma lor_u32 r x : in_u 32 r -> r .| U32 x = U32 (r .| x).
Proof.
  intros Hr. apply Z.bits_inj'. intros i Hi. rewrite Z.lor_spec, !wrap_spec, Z.lor_spec by lia.
  destruct (Z.ltb_spec i 32); [done|]. by rewrite (in_u_testbit 32 r) by (done || lia).
Qed.

(** The values [shift] goes through. *)
Ltac shifts :=
  change (0 + 7) with 7; change (7 + 7) with 14; change (14 + 7) with 21; change (21 + 7) with 28;
  change (28 + 7) with 35; change (7 <? 35) with true; change (14 <? 35) with true;
  change (21 <? 35) with true; change (28 <? 35) with true; change (35 <? 35) with false; cbv iota.

Lemma readUleb_span mem p : bytes_ok mem ->
  readUleb mem p = match span mem 5 p with
                   | Some l => Some (U32 (groups l), p + Z.of_nat (length l))
                   | None => None end.
Proof.
  intros Hm. unfold readUleb. cbn [readUleb_loop span].
  assert (G : forall l, (length l <= 4)%nat -> U32 (groups l) = groups l).
  { intros l Hl. apply wrap_small, (in_u_mono (7 * Z.of_nat (length l))); [lia|apply groups_range]. }
  destruct (mem !!z p) as [a|] eqn:Ea; [|done]. pose proof (zlookup_Forall _ _ _ _ Hm Ea) as Ha.
  cbn [mbind option_bind]. cbv zeta. rewrite Z.lor_0_l, group_u32, Z.shiftl_0_r, continues by (done || lia).
  destruct (Z.ltb_spec 0x7f a); cbn [negb]; [|rewrite G, groups_1 by (done || simpl; lia); rewrite land_7f, wrap_small; [done|unfold in_u in *; lia]].
  shifts.
  replace (p + 1 + 1) with (p + 2) by lia. replace (p + 2 + 1) with (p + 3) by lia.
  replace (p + 3 + 1) with (p + 4) by lia. replace (p + 4 + 1) with (p + 5) by lia.
  destruct (mem !!z (p + 1)) as [c|] eqn:Ec; [|done]. cbn [mbind option_bind]. pose proof (zlookup_Forall _ _ _ _ Hm Ec) as Hc.
  rewrite group_u32, continues by (done || lia).
  destruct (Z.ltb_spec 0x7f c); cbn [negb]; [|by rewrite G, groups_2 by (simpl; lia)].
  destruct (mem !!z (p + 2)) as [d|] eqn:Ed; [|done]. cbn [mbind option_bind]. pose proof (zlookup_Forall _ _ _ _ Hm Ed) as Hd.
  rewrite group_u32, continues by (done || lia).
  destruct (Z.ltb_spec 0x7f d); cbn [negb]; [|by rewrite G, groups_3 by (simpl; lia)].
  destruct (mem !!z (p + 3)) as [e|] eqn:Ee; [|done]. cbn [mbind option_bind]. pose proof (zlookup_Forall _ _ _ _ Hm Ee) as He.
  rewrite group_u32, continues by (done || lia).
  destruct (Z.ltb_spec 0x7f e); cbn [negb]; [|by rewrite G, groups_4 by (simpl; lia)].
  destruct (mem !!z (p + 4)) as [f|] eqn:Ef; [|done]. cbn [mbind option_bind].
  rewrite lor_u32.
  - by destruct (0x7f <? f), ((f & 0x80) =? 0); rewrite groups_5.
  - rewrite <- groups_4. apply (in_u_mono 28); [lia|apply (groups_range [a; c; d; e])].
Qed.

Ltac each_byte := cbn [app]; repeat (apply Forall_cons_2; [assumption|]); apply Forall_nil_2.

(** The encoding at [p] ends within five bytes. *)
Definition terminated (l : list Z) : bool := List.last l 0x80 <=? 0x7f.

(** [if ((b & 0x40) != 0) result |= -(1 << shift)] sign-extends. *)
Lemma sleb_sign w g : 0 < w -> in_u w g -> (if Z.testbit g (w - 1) then g .| - (1 << w) else g) = swrap w g.
Proof.
  intros Hw Hg. pose proof (half_pow2 w Hw) as Hh. pose proof (pow2_pos (w - 1) ltac:(lia)).
  destruct (Z.ltb_spec g (2 ^ (w - 1))) as [Hl|Hl].
  - rewrite (in_u_testbit (w - 1) g); [|lia|unfold in_u in *; lia|lia].
    symmetry. apply swrap_small; [done|]. unfold in_s, in_u in *. lia.
  - assert (Ht : Z.testbit g (w - 1) = true).
    { replace g with (2 ^ (w - 1) + (g - 2 ^ (w - 1))) by lia.
      rewrite Z.testbit_true by lia.
      replace (2 ^ (w - 1) + (g - 2 ^ (w - 1))) with (g - 2 ^ (w - 1) + 1 * 2 ^ (w - 1)) by lia.
      rewrite Z.div_add, Z.div_small by (unfold in_u in *; lia). done. }
    rewrite Ht. rewrite Z.shiftl_1_l. replace (- 2 ^ w) with ((-1) << w) by (rewrite Z.shiftl_mul_pow2; lia).
    rewrite Z.lor_comm, lor_shiftl_add by (done || lia).
    rewrite <- (swrap_small w (-1 * 2 ^ w + g)); [|done|unfold in_s, in_u in *; lia].
    apply swrap_cong. unfold wrap. by rewrite Z.add_comm, Z.mod_add by lia.
Qed.

Lemma groups_top l b : Forall (in_u 8) (l ++ [b]) -> b <= 0x7f ->
  Z.testbit (groups (l ++ [b])) (7 * Z.of_nat (length (l ++ [b])) - 1) = Z.testbit b 6.
Proof.
  intros HF Hb. induction l as [|x l IH]; cbn [app].
  - rewrite groups_1; [done| |done]. by apply Forall_inv in HF.
  - apply Forall_inv_tail in HF. cbn [groups length].
    assert (length (l ++ [b]) = S (length l)) as Hlen by (rewrite length_app; simpl; lia).
    rewrite Z.lor_spec, land_7f, wrap_spec, Z.shiftl_spec by lia.
    destruct (Z.ltb_spec (7 * Z.of_nat (S (length (l ++ [b]))) - 1) 7); [lia|]. cbn [andb orb].
    rewrite <- IH by done. f_equal. lia.
Qed.

Lemma readSleb_span mem p l : bytes_ok mem -> span mem 5 p = Some l -> terminated l = true ->
  readSleb mem p = Some (swrap (Z.min 32 (7 * Z.of_nat (length l))) (groups l), p + Z.of_nat (length l)).
Proof.
  intros Hm. unfold readSleb. cbn [readSleb_loop span].
  assert (Fin : forall pre b, Forall (in_u 8) (pre ++ [b]) -> b <= 0x7f -> (length pre <= 3)%nat ->
    (if (7 * Z.of_nat (length (pre ++ [b])) <? 32) && negb ((b & 0x40) =? 0)
     then groups (pre ++ [b]) .| - (1 << (7 * Z.of_nat (length (pre ++ [b])))) else groups (pre ++ [b])) =
    swrap (Z.min 32 (7 * Z.of_nat (length (pre ++ [b])))) (groups (pre ++ [b]))).
  { intros pre b HF Hb Hlen. set (w := 7 * _).
    assert (Hw : 0 < w <= 28) by (unfold w; rewrite length_app; simpl; lia).
    rewrite Z.min_r, <- (sleb_sign w) by (lia || apply groups_range). unfold w at 4. rewrite groups_top by done.
    destruct (Z.ltb_spec w 32); [|lia]. rewrite sign_bit, negb_involutive by (try done; apply Forall_app in HF as [_ HF%Forall_inv]; done).
    done. }
  destruct (mem !!z p) as [a|] eqn:Ea; [|done]. pose proof (zlookup_Forall _ _ _ _ Hm Ea) as Ha.
  cbn [mbind option_bind]. cbv zeta. rewrite Z.lor_0_l, group_s32, Z.shiftl_0_r, continues, negb_involutive by (done || lia).
  destruct (Z.ltb_spec 0x7f a).
  2:{ intros [= <-] _. specialize (Fin [] a ltac:(each_byte) ltac:(done) ltac:(simpl; lia)).
      cbn [app] in Fin. rewrite <- Fin. rewrite groups_1 by done.
      rewrite (land_7f a), wrap_small by (unfold in_u in *; lia). done. }
  shifts.
  replace (p + 1 + 1) with (p + 2) by lia. replace (p + 2 + 1) with (p + 3) by lia.
  replace (p + 3 + 1) with (p + 4) by lia. replace (p + 4 + 1) with (p + 5) by lia.
  destruct (mem !!z (p + 1)) as [c|] eqn:Ec; [|done]. cbn [mbind option_bind]. pose proof (zlookup_Forall _ _ _ _ Hm Ec) as Hc.
  rewrite group_s32, continues, negb_involutive by (done || lia).
  destruct (Z.ltb_spec 0x7f c).
  2:{ intros [= <-] _. specialize (Fin [a] c ltac:(each_byte) ltac:(done) ltac:(simpl; lia)).
      cbn [app] in Fin. rewrite <- Fin, groups_2. done. }
  destruct (mem !!z (p + 2)) as [d|] eqn:Ed; [|done]. cbn [mbind option_bind]. pose proof (zlookup_Forall _ _ _ _ Hm Ed) as Hd.
  rewrite group_s32, continues, negb_involutive by (done || lia).
  destruct (Z.ltb_spec 0x7f d).
  2:{ intros [= <-] _. specialize (Fin [a; c] d ltac:(each_byte) ltac:(done) ltac:(simpl; lia)).
      cbn [app] in Fin. rewrite <- Fin, groups_3. done. }
  destruct (mem !!z (p + 3)) as [e|] eqn:Ee; [|done]. cbn [mbind option_bind]. pose proof (zlookup_Forall _ _ _ _ Hm Ee) as He.
  rewrite group_s32, continues, negb_involutive by (done || lia).
  destruct (Z.ltb_spec 0x7f e).
  2:{ intros [= <-] _. specialize (Fin [a; c; d] e ltac:(each_byte) ltac:(done) ltac:(simpl; lia)).
      cbn [app] in Fin. rewrite <- Fin, groups_4. done. }
  destruct (mem !!z (p + 4)) as [f|] eqn:Ef; [|done]. cbn [mbind option_bind]. pose proof (zlookup_Forall _ _ _ _ Hm Ef) as Hf.
  assert (Hr : in_u 28 ((a & 0x7f) .| ((c & 0x7f) << 7) .| ((d & 0x7f) << 14) .| ((e & 0x7f) << 21))).
  { rewrite <- groups_4. apply (groups_range [a; c; d; e]). }
  rewrite continues, negb_involutive by done.
  intros H'. assert (l = [a; c; d; e; f]) as -> by (destruct (0x7f <? f); congruence). clear H'.
  unfold terminated. cbn [List.last]. intros Ht%Z.leb_le. destruct (Z.ltb_spec 0x7f f); [lia|].
  cbn [length Z.ltb Z.compare Pos.compare Pos.compare_cont andb]. do 2 f_equal.
  change (Z.min 32 (7 * Z.of_nat 5)) with 32. rewrite groups_5, <- fifth_byte by done. f_equal.
  apply swrap_cong. apply Z.bits_inj'. intros i Hi. rewrite !wrap_spec, !Z.shiftl_spec, Z.land_spec by lia.
  change 0x7f with (2 ^ 7 - 1). rewrite <- Z.land_spec, land_mask, wrap_spec by lia.
  destruct (Z.ltb_spec i 32); [|done]. cbn [andb]. destruct (Z.ltb_spec (i - 28) 7); [done|lia].
Qed.

(** ** Measuring a list *)

(** Where a list of handlers ends by the interpreter's reader, for lists the
    provider accepts: sizes are at most 0x10000 and properly terminated. *)
Definition size_ok (l : list Z) : bool :=
  terminated l && (Z.abs (swrap (Z.min 32 (7 * Z.of_nat (length l))) (groups l)) <=? 0x10000).
Fixpoint accepted_end (mem : list Z) (n : nat) (p : Z) : option Z :=
  match n with
  | O => Some p
  | S n =>
      l ← span mem 5 p;
      if size_ok l then '(_, q) ← DexCatch.handlers_at mem p; accepted_end mem n q else None
  end.
Definition list_end (mem : list Z) (p : Z) : option Z :=
  '(n, q) ← readUnsignedLeb128 mem p;
  if U32 n <=? 0x10000 then accepted_end mem (Z.to_nat (U32 n)) q else None.

Lemma span_ends mem n p l : span mem (S n) p = Some l -> (0 < length l)%nat.
Proof.
  cbn [span]. destruct (mem !!z p); [|done].
  repeat case_match; intros; simplify_eq; simpl; lia.
Qed.

Section Lists.
Context (mem : list Z) (Hm : bytes_ok mem).

Lemma readUleb_unsigned p : readUleb mem p = '(v, q) ← readUnsignedLeb128 mem p; Some (U32 v, q).
Proof.
  rewrite readUleb_span, readUnsigned_span by done. destruct (span mem 5 p); [|done].
  cbn [mbind option_bind]. by rewrite wrap_swrap.
Qed.

Lemma readSleb_terminates f : forall p r s v, readSleb_loop mem f p r s = Some v ->
  exists l, span mem f p = Some l /\ terminated l = true.
Proof.
  induction f as [|f IH]; intros p r s v; [done|]. cbn [readSleb_loop span].
  destruct (mem !!z p) as [b|] eqn:Eb; [|done]. pose proof (zlookup_Forall _ _ _ _ Hm Eb) as Hb.
  cbn [mbind option_bind]. cbv zeta. rewrite continues, negb_involutive by done.
  destruct (Z.ltb_spec 0x7f b).
  - intros (l & E & Ht)%IH. rewrite E. exists (b :: l). split; [done|].
    destruct f; [by injection E as <-|]. apply span_ends in E. by destruct l; [simpl in *; lia|].
  - intros _. exists [b]. split; [done|]. unfold terminated. simpl. lia.
Qed.

Lemma skip_pairs_at n : forall p, skip_pairs mem n p = snd <$> DexCatch.pairs_at mem n p.
Proof.
  induction n as [|n IH]; intros p; [done|]. cbn [skip_pairs DexCatch.pairs_at].
  rewrite readUleb_unsigned. destruct (readUnsignedLeb128 mem p) as [[t p1]|]; [|done]. cbn [mbind option_bind].
  rewrite readUleb_unsigned. destruct (readUnsignedLeb128 mem p1) as [[a p2]|]; [|done]. cbn [mbind option_bind].
  rewrite IH. by destruct (DexCatch.pairs_at mem n p2) as [[??]|].
Qed.

Lemma skip_handlers_spec n : forall p r,
  skip_handlers mem n p = Some (Some r) <-> accepted_end mem n p = Some r.
Proof.
  induction n as [|n IH]; intros p r; cbn [skip_handlers accepted_end]; [naive_solver|].
  destruct (readSleb mem p) as [[c q]|] eqn:Es.
  - destruct (readSleb_terminates _ _ _ _ _ Es) as (l & El & Ht).
    rewrite (readSleb_span _ _ _ Hm El Ht) in Es. rewrite El. cbn [mbind option_bind].
    assert (Hl := span_ends _ _ _ _ El). unfold size_ok. rewrite Ht.
    set (w := Z.min _ _) in *. assert (Hw : 0 < w <= 32) by (unfold w; lia).
    pose proof (swrap_in_s w (groups l) ltac:(lia)) as Hc.
    assert (swrap w (groups l) = c /\ p + Z.of_nat (length l) = q) as [Ec Eq] by (by simplify_eq).
    rewrite Ec in *. cbn [andb].
    assert (Hu : U32 (Z.abs c) = Z.abs c).
    { apply wrap_small. unfold in_s, in_u in *. pose proof (Z.pow_le_mono_r 2 (w - 1) 31). lia. }
    rewrite Hu. rewrite (Z.leb_antisym 0x10000 (Z.abs c)). destruct (Z.ltb_spec 0x10000 (Z.abs c)); [by simpl; split|]. cbn [negb].
    unfold DexCatch.handlers_at. rewrite readSigned_span, El by done. fold w. rewrite Ec, Eq. cbn [mbind option_bind].
    rewrite skip_pairs_at. destruct (DexCatch.pairs_at mem _ q) as [[hs q']|]; [|by simpl; split]. cbn [fmap option_fmap option_map snd].
    destruct (c <=? 0); cbn [mbind option_bind].
    + rewrite readUleb_unsigned. destruct (readUnsignedLeb128 mem q') as [[v q'']|]; [|by split]. apply IH.
    + apply IH.
  - destruct (span mem 5 p) as [l|] eqn:El; [|by simpl; split]. cbn [mbind option_bind]. unfold size_ok.
    destruct (terminated l) eqn:Ht; [|by split]. by rewrite (readSleb_span _ _ _ Hm El Ht) in Es.
Qed.

Lemma accepted_end_mono n : forall p r, accepted_end mem n p = Some r -> p <= r.
Proof.
  assert (HU : forall p v q, readUnsignedLeb128 mem p = Some (v, q) -> p <= q).
  { intros p v q. rewrite readUnsigned_span by done. destruct (span mem 5 p) eqn:E; [|done]. intros; simplify_eq. lia. }
  assert (HP : forall k p hs q, DexCatch.pairs_at mem k p = Some (hs, q) -> p <= q).
  { induction k as [|k IHk]; intros p hs q; cbn; [intros; simplify_eq; lia|].
    destruct (readUnsignedLeb128 mem p) as [[t p1]|] eqn:E1; [|done]. apply HU in E1. cbn.
    destruct (readUnsignedLeb128 mem p1) as [[a p2]|] eqn:E2; [|done]. apply HU in E2. cbn.
    destruct (DexCatch.pairs_at mem k p2) as [[hs' p3]|] eqn:E3; [|done]. apply IHk in E3.
    intros [= <- <-]. lia. }
  induction n as [|n IH]; intros p r; cbn [accepted_end]; [intros; simplify_eq; lia|].
  destruct (span mem 5 p) as [l|] eqn:El; [|done]. cbn [mbind option_bind].
  destruct (size_ok l); [|done]. unfold DexCatch.handlers_at. rewrite readSigned_span, El by done.
  cbn [mbind option_bind]. destruct (DexCatch.pairs_at mem _ _) as [[hs q]|] eqn:Ep; [|done]. apply HP in Ep. cbn [mbind option_bind].
  case_match.
  - destruct (readUnsignedLeb128 mem q) as [[v q']|] eqn:Eq; [|done]. apply HU in Eq. intros H'%IH. lia.
  - intros H'%IH. lia.
Qed.

Lemma measure_spec p r : 
  measureCatchHandlerList mem p = Some r /\ r <> 0 <-> list_end mem p = Some (p + r).
Proof.
  unfold measureCatchHandlerList, list_end. rewrite readUleb_unsigned.
  destruct (readUnsignedLeb128 mem p) as [[n q]|] eqn:Eq; [|naive_solver]. cbn [mbind option_bind].
  assert (Hq : p < q).
  { rewrite readUnsigned_span in Eq by done. destruct (span mem 5 p) eqn:E; [|done]. apply span_ends in E. simplify_eq. lia. }
  rewrite (Z.leb_antisym 0x10000 (U32 n)). destruct (Z.ltb_spec 0x10000 (U32 n)); cbn [negb]; [naive_solver|].
  destruct (accepted_end mem (Z.to_nat (U32 n)) q) as [e|] eqn:Ee.
  - pose proof (accepted_end_mono _ _ _ Ee). apply skip_handlers_spec in Ee. rewrite Ee. cbn [mbind option_bind].
    split; [intros [[= <-] _]; f_equal; lia|intros [= ->]; split; [f_equal; lia|lia]].
  - split; [|done]. intros [Hs Hr]. destruct (skip_handlers mem _ q) as [[e|]|] eqn:Es; [|naive_solver|done].
    apply skip_handlers_spec in Es. congruence.
Qed.

End Lists.

End CodeProviderProofs.
