(* ===== verification/CodeProviderRoundtrip.v ===== *)
(** * Code items read back (pi_code_provider.cpp)

    [buildVmCode] on a method whose code item has been laid out as the DEX
    format or as CompactDex prescribes. *)
From S2P Require Import Prelude.
From S2P Require Import Memory.
From S2P Require Import Leb128.
From S2P Require Import DexCatch.
From S2P Require Import VmEnv.
From S2P Require Import Smali.
From S2P Require Import SmaliProofs.
From S2P Require Import CodeProvider.
From S2P Require Import CodeProviderProofs.
Local Open Scope cint_scope.

Module CodeProviderRoundtrip.
Export Memory.
Export CodeProviderProofs.

(** ** The list of handlers inside the file *)

(** Sub-memory: what is readable inside stays readable. *)
Section Local.
Context (mem mem' : list Z) (k : Z) (Hsub : forall p x, mem !!z p = Some x -> mem' !!z (k + p) = Some x).

Lemma readUleb_local f : forall p r s v q, readUleb_loop mem f p r s = Some (v, q) ->
  readUleb_loop mem' f (k + p) r s = Some (v, k + q).
Proof.
  induction f as [|f IH]; intros p r s v q; [done|]. cbn [readUleb_loop].
  destruct (mem !!z p) as [b|] eqn:Eb; [|done]. rewrite (Hsub _ _ Eb). cbn [mbind option_bind]. cbv zeta.
  destruct ((b & 0x80) =? 0); [intros [= <- <-]; do 2 f_equal; lia|].
  destruct (s + 7 <? 35); [|intros [= <- <-]; do 2 f_equal; lia].
  intros H%IH. by rewrite Z.add_assoc in H.
Qed.
Lemma readSleb_local f : forall p r s v q, readSleb_loop mem f p r s = Some (v, q) ->
  readSleb_loop mem' f (k + p) r s = Some (v, k + q).
Proof.
  induction f as [|f IH]; intros p r s v q; [done|]. cbn [readSleb_loop].
  destruct (mem !!z p) as [b|] eqn:Eb; [|done]. rewrite (Hsub _ _ Eb). cbn [mbind option_bind]. cbv zeta.
  destruct (negb ((b & 0x80) =? 0)); [|intros [= <- <-]; do 2 f_equal; lia].
  intros H%IH. by rewrite Z.add_assoc in H.
Qed.
Lemma skip_pairs_local n : forall p q, skip_pairs mem n p = Some q -> skip_pairs mem' n (k + p) = Some (k + q).
Proof.
  induction n as [|n IH]; intros p q; cbn [skip_pairs]; [by intros [= <-]|].
  destruct (readUleb mem p) as [[? p1]|] eqn:E1; [|done]. apply readUleb_local in E1. unfold readUleb in *. rewrite E1.
  cbn [mbind option_bind].
  destruct (readUleb_loop mem 5 p1 0 0) as [[? p2]|] eqn:E2; [|done]. apply readUleb_local in E2. rewrite E2. apply IH.
Qed.
Lemma skip_handlers_local n : forall p q, skip_handlers mem n p = Some (Some q) ->
  skip_handlers mem' n (k + p) = Some (Some (k + q)).
Proof.
  induction n as [|n IH]; intros p q; cbn [skip_handlers]; [by intros [= <-]|].
  unfold readSleb. destruct (readSleb_loop mem 5 p 0 0) as [[c p1]|] eqn:E1; [|done]. apply readSleb_local in E1. rewrite E1.
  cbn [mbind option_bind]. cbv zeta. destruct (0x10000 <? U32 (Z.abs c)); [done|].
  destruct (skip_pairs mem _ p1) as [p2|] eqn:E2; [|done]. rewrite (skip_pairs_local _ _ _ E2). cbn [mbind option_bind].
  destruct (c <=? 0); [|apply IH]. unfold readUleb.
  destruct (readUleb_loop mem 5 p2 0 0) as [[? p3]|] eqn:E3; [|done]. apply readUleb_local in E3. rewrite E3. apply IH.
Qed.
Lemma measure_local p r : measureCatchHandlerList mem p = Some r -> r <> 0 -> measureCatchHandlerList mem' (k + p) = Some r.
Proof.
  unfold measureCatchHandlerList, readUleb. destruct (readUleb_loop mem 5 p 0 0) as [[n q]|] eqn:E1; [|done].
  apply readUleb_local in E1. rewrite E1. cbn [mbind option_bind]. destruct (0x10000 <? n); [by intros [= <-]|].
  destruct (skip_handlers mem _ q) as [[e|]|] eqn:E2; [|by intros [= <-]|done]. rewrite (skip_handlers_local _ _ _ E2).
  cbn [mbind option_bind]. intros [= <-] _. f_equal. lia.
Qed.
End Local.

(** ** The block of tries *)

Lemma read_items_bytes tries : forall rest, Forall DexCatch.try_ok tries ->
  read_items (length tries) (concat (map item_bytes tries) ++ rest) = tries.
Proof.
  induction tries as [|t l IH]; intros rest HF; [done|]. pose proof (Forall_inv HF) as (Hs & Hi & Hh & _).
  apply Forall_inv_tail in HF.
  change (read_items (length (t :: l)) (concat (map item_bytes (t :: l)) ++ rest)) with
    (DexCatch.MkTryItem (le_combine (le_bytes 4 (DexCatch.startAddr t))) (le_combine (le_bytes 2 (DexCatch.insnCount t)))
       (le_combine (le_bytes 2 (DexCatch.handlerOff t))) :: read_items (length l) (concat (map item_bytes l) ++ rest)).
  rewrite !le_combine_bytes, !wrap_small by done.
  rewrite IH by done. by destruct t.
Qed.

Lemma length_items tries : Z.of_nat (length (concat (map item_bytes tries))) = 8 * Z.of_nat (length tries).
Proof.
  induction tries as [|t l IH]; [done|]. cbn [map concat]. rewrite length_app.
  replace (length (item_bytes t)) with 8%nat by done. cbn [length]. lia.
Qed.

Lemma block_reads tries handlers : Forall DexCatch.try_ok tries -> in_u 16 (Z.of_nat (length tries)) ->
  as_TryCatchHandler (le_bytes 2 (Z.of_nat (length tries)) ++ le_bytes 2 0 ++ concat (map item_bytes tries) ++ handlers) =
  DexCatch.MkTryCatchHandler (Z.of_nat (length tries)) tries handlers.
Proof.
  intros HF Hn. unfold as_TryCatchHandler. rewrite take_app_length' by done.
  rewrite le_combine_bytes, wrap_small by done. rewrite Nat2Z.id.
  change (drop 4 _) with (concat (map item_bytes tries) ++ handlers). rewrite read_items_bytes by done. f_equal.
  rewrite <- drop_drop. change (drop 4 _) with (concat (map item_bytes tries) ++ handlers).
  apply drop_app_length'. pose proof (length_items tries). lia.
Qed.

Lemma align4_eq base p : align4 base p = (base + p + 3) / 4 * 4 - base.
Proof.
  unfold align4. rewrite <- Z.ldiff_land. change 3 with (Z.ones 2) at 2.
  rewrite Z.ldiff_ones_r, Z.shiftl_mul_pow2, Z.shiftr_div_pow2 by lia. done.
Qed.
Lemma align4_aligned base p : (base + p) mod 4 = 0 -> align4 base p = p.
Proof. intros H. rewrite align4_eq. Z.div_mod_to_equations. lia. Qed.
Lemma align4_half base p : (base + p) mod 4 = 2 -> align4 base p = p + 2.
Proof. intros H. rewrite align4_eq. Z.div_mod_to_equations. lia. Qed.

(** ** The standard item *)

Section Standard.
Context (base debug : Z) (pre post : list Z) (registers ins outs : Z) (code : list Z).
Context (tries : list DexCatch.TryItem) (handlers : list Z).
Hypothesis Hreg : in_u 16 registers.
Hypothesis Hreg0 : registers <> 0.
Hypothesis Hins : in_u 16 ins.
Hypothesis Houts : in_u 16 outs.
Hypothesis Htries : in_u 16 (Z.of_nat (length tries)).
Hypothesis Hcode : in_u 32 (Z.of_nat (length code)).
Hypothesis Hcode0 : code <> [].
Let mem := pre ++ standard_bytes registers ins outs debug code tries handlers ++ post.
Let ci := Z.of_nat (length pre).
Let pad := replicate (if Nat.odd (length code) then 2 else 0) 0.

(** A field: what lies before it, its width, its value. *)
Ltac field_at x k v off := erewrite (load_at x k v _ mem (ci + off));
  [|unfold mem, standard_bytes; rewrite <- ?app_assoc; reflexivity
   |unfold ci; rewrite ?length_app, ?length_le_bytes; lia|lia|done]; cbn [mbind option_bind].

Lemma standard_prefix : buildStandardCodeItem base mem ci (cleared false) =
  let out := set_insns (set_sizes (cleared false) registers ins outs (Z.of_nat (length code))) [] (InsnsAt (ci + 16)) in
  if Z.of_nat (length tries) =? 0 then Some (true, out)
  else
    let tryItems := align4 base (ci + 16 + Z.of_nat (length code) * 2) in
    let handlerList := tryItems + Z.of_nat (length tries) * 8 in
    handlerBytes ← measureCatchHandlerList mem handlerList;
    if handlerBytes =? 0 then Some (true, out)
    else
      items ← slice mem tryItems (Z.of_nat (length tries) * 8);
      hs ← slice mem handlerList handlerBytes;
      Some (true, set_tries out (le_bytes 2 (Z.of_nat (length tries)) ++ le_bytes 2 0 ++ items ++ hs) true).
Proof.
  unfold buildStandardCodeItem.
  field_at pre 2%nat registers 0.
  field_at (pre ++ le_bytes 2 registers) 2%nat ins 2.
  field_at (pre ++ le_bytes 2 registers ++ le_bytes 2 ins) 2%nat outs 4.
  field_at (pre ++ le_bytes 2 registers ++ le_bytes 2 ins ++ le_bytes 2 outs) 2%nat (Z.of_nat (length tries)) 6.
  field_at (pre ++ le_bytes 2 registers ++ le_bytes 2 ins ++ le_bytes 2 outs ++ le_bytes 2 (Z.of_nat (length tries)) ++
    le_bytes 4 debug) 4%nat (Z.of_nat (length code)) 12.
  cbv zeta.
  destruct (Z.eqb_spec (Z.of_nat (length code)) 0); [by destruct code|].
  destruct (Z.eqb_spec registers 0); [done|]. cbn [orb]. done.
Qed.

Let head := pre ++ le_bytes 2 registers ++ le_bytes 2 ins ++ le_bytes 2 outs ++ le_bytes 2 (Z.of_nat (length tries)) ++
  le_bytes 4 debug ++ le_bytes 4 (Z.of_nat (length code)).
Lemma length_head : Z.of_nat (length head) = ci + 16.
Proof. unfold head, ci. rewrite !length_app, !length_le_bytes. lia. Qed.

Lemma code_slice : slice mem (ci + 16) (Z.of_nat (length code) * 2) = Some (bytes16 code).
Proof.
  eapply (slice_at head (bytes16 code)).
  - unfold mem, standard_bytes, head. rewrite <- ?app_assoc. reflexivity.
  - by rewrite length_head.
  - rewrite length_bytes16. lia.
Qed.

Lemma tries_layout : tries <> [] ->
  mem = (head ++ bytes16 code ++ pad) ++ concat (map item_bytes tries) ++ handlers ++ post.
Proof.
  intros Ht. unfold mem, standard_bytes, head, pad, bytes16. destruct tries as [|t l]; [done|].
  cbn [length Nat.eqb]. by rewrite <- ?app_assoc.
Qed.

Lemma tries_at : (base + ci) mod 4 = 0 ->
  align4 base (ci + 16 + Z.of_nat (length code) * 2) = Z.of_nat (length (head ++ bytes16 code ++ pad)).
Proof.
  intros Hal. rewrite !length_app, !Nat2Z.inj_add, length_head, length_bytes16. unfold pad. rewrite length_replicate.
  pose proof (Nat.div2_odd (length code)) as Hd. destruct (Nat.odd (length code)); cbn [Nat.b2n] in Hd.
  - rewrite align4_half; [lia|]. Z.div_mod_to_equations. lia.
  - rewrite align4_aligned; [lia|]. Z.div_mod_to_equations. lia.
Qed.

Lemma standard_tries : tries <> [] -> (base + ci) mod 4 = 0 -> bytes_ok handlers ->
  list_end handlers 0 = Some (Z.of_nat (length handlers)) ->
  buildStandardCodeItem base mem ci (cleared false) =
  Some (true, set_tries (set_insns (set_sizes (cleared false) registers ins outs (Z.of_nat (length code))) [] (InsnsAt (ci + 16)))
    (le_bytes 2 (Z.of_nat (length tries)) ++ le_bytes 2 0 ++ concat (map item_bytes tries) ++ handlers) true).
Proof.
  intros Ht Hal Hb He. rewrite standard_prefix. cbv zeta.
  destruct (Z.eqb_spec (Z.of_nat (length tries)) 0); [by destruct tries|].
  rewrite tries_at by done. set (at_ := head ++ bytes16 code ++ pad).
  apply (measure_spec handlers Hb 0 (Z.of_nat (length handlers))) in He as [Hm H0].
  pose proof (length_items tries) as Hli.
  assert (Hlist : Z.of_nat (length at_) + Z.of_nat (length tries) * 8 =
    Z.of_nat (length (at_ ++ concat (map item_bytes tries)))) by (rewrite length_app; lia).
  assert (Hmem : mem = (at_ ++ concat (map item_bytes tries)) ++ handlers ++ post) by (rewrite <- app_assoc; by apply tries_layout).
  assert (Hms : measureCatchHandlerList mem (Z.of_nat (length (at_ ++ concat (map item_bytes tries)))) =
    Some (Z.of_nat (length handlers))).
  { rewrite <- (Z.add_0_r (Z.of_nat (length (at_ ++ _)))). apply (measure_local handlers mem); [|done|done].
    intros p x Hx. rewrite Hmem. by apply middle_sub. }
  rewrite Hlist, Hms.
  cbn [mbind option_bind]. destruct (Z.eqb_spec (Z.of_nat (length handlers)) 0); [done|].
  erewrite (slice_at at_ (concat (map item_bytes tries)) _ mem (Z.of_nat (length at_))); [|by apply tries_layout|done|lia].
  cbn [mbind option_bind]. by erewrite slice_at; [|exact Hmem|done|done].
Qed.

Lemma standard_no_tries : tries = [] ->
  buildStandardCodeItem base mem ci (cleared false) =
  Some (true, set_insns (set_sizes (cleared false) registers ins outs (Z.of_nat (length code))) [] (InsnsAt (ci + 16))).
Proof.
  intros Ht. rewrite standard_prefix. cbv zeta.
  destruct (Z.eqb_spec (Z.of_nat (length tries)) 0) as [|Hn]; [done|by rewrite Ht in Hn].
Qed.

End Standard.

(** Clearing bit 0 of an even address, tagged or not. *)
Lemma untag a q : a mod 2 = 0 -> q = 0 \/ q = 1 -> Z.land (a + q) (Z.lnot 1) = a.
Proof.
  intros Ha Hq. rewrite <- Z.ldiff_land. change 1 with (Z.ones 1) at 1.
  rewrite Z.ldiff_ones_r, Z.shiftl_mul_pow2, Z.shiftr_div_pow2 by lia. change (2 ^ 1) with 2.
  Z.div_mod_to_equations. lia.
Qed.

(** C15: the code item of a method in a DEX file, decoded for the interpreter.
    For a method that is neither native nor abstract, whose entry point (the
    low bit may be set) is a 4-aligned item laid out as the format says,
    [buildVmCode] succeeds, the registers are zeroed cells in the declared
    number, and the [vmCode] that is handed to the interpreter holds exactly
    the method's instructions and its table: all tries and exactly the bytes
    of the handler list, whatever follows it in the file. *)
Theorem standard_item_decodes base debug pre post registers ins outs code tries handlers access q :
  let at_ := Z.of_nat (length pre) in
  let mem := pre ++ standard_bytes registers ins outs debug code tries handlers ++ post in
  in_u 16 registers -> registers <> 0 -> in_u 16 ins -> in_u 16 outs -> Forall (in_u 16) code -> code <> [] ->
  in_u 32 (Z.of_nat (length code)) -> in_u 16 (Z.of_nat (length tries)) ->
  Forall DexCatch.try_ok tries -> bytes_ok handlers ->
  (tries <> [] -> list_end handlers 0 = Some (Z.of_nat (length handlers))) ->
  (base + at_) mod 4 = 0 -> base + at_ <> 0 -> q = 0 \/ q = 1 ->
  HasAccessFlags access kNative = false -> HasAccessFlags access kAbstract = false ->
  exists out, buildVmCode base mem (Some (access, base + at_ + q)) false = Some (true, out) /\
    (registersSize out, insSize out, outsSize out) = (registers, ins, outs) /\
    regs out = replicate (Z.to_nat registers) 0 /\ regFlags out = replicate (Z.to_nat registers) 0 /\
    code_of mem out = Some (VmEnv.MkVmCode code
      (if (length tries =? 0)%nat then None
       else Some (DexCatch.MkTryCatchHandler (Z.of_nat (length tries)) tries handlers))).
Proof.
  intros at_ mem Hr Hr0 Hi Ho Hc Hc0 Hcl Htl Htok Hb He Hal Hnz Hq Hn Ha.
  unfold buildVmCode. rewrite Hn, Ha, untag by (done || Z.div_mod_to_equations; lia).
  destruct (Z.eqb_spec (base + at_) 0); [done|]. replace (base + at_ - base) with at_ by lia. cbn [isCompactDex cleared].
  destruct (decide (tries = [])) as [->|Ht].
  - unfold mem, at_. rewrite standard_no_tries by done. cbn [mbind option_bind negb].
    eexists. split; [done|]. split_and!; [done..|]. unfold code_of, insns_of. cbn -[standard_bytes slice words16].
    rewrite code_slice by done. cbn -[words16 bytes16]. by rewrite words16_bytes.
  - unfold mem, at_. rewrite standard_tries by auto. cbn [mbind option_bind negb].
    eexists. split; [done|]. split_and!; [done..|]. unfold code_of, insns_of. cbn -[standard_bytes slice words16 as_TryCatchHandler le_bytes].
    rewrite code_slice by done. cbn -[words16 bytes16 as_TryCatchHandler le_bytes Nat.eqb]. rewrite words16_bytes, block_reads by done.
    by destruct tries.
Qed.

(** ** The compact item *)

(** On a memory of 16-bit units the provider computes the sizes the
    disassembler computes. *)
Lemma buildCompact_sizes l u item out : Forall (in_u 16) l -> Smali.compact_item l u = Some item ->
  buildCompactCodeItem (bytes16 l) (2 * u) out =
  let out := set_sizes out (Smali.registers_size item) (Smali.ins_size item) (Smali.outs_size item) (Smali.insns_count item) in
  if (Smali.insns_count item =? 0) || (Smali.registers_size item =? 0) then Some (false, out)
  else
    bytes ← slice (bytes16 l) (2 * Smali.insns item) (2 * Smali.insns_count item);
    Some (true, set_tries (set_insns out (words16 bytes) InsnsBuf) (triesBuf out) false).
Proof.
  intros HF. unfold Smali.compact_item, buildCompactCodeItem.
  assert (A : forall flag x i, add_preheader (bytes16 l) flag x (2 * i) =
    '(v, p) ← (if flag then w ← l !!z (i - 1); Some (U16 (x + w), i - 1) else Some (x, i)); Some (v, 2 * p)).
  { intros flag x i. unfold add_preheader. destruct flag; [|done].
    replace (2 * i - 2) with (2 * (i - 1)) by lia. rewrite load16_unit by done. by destruct (l !!z (i - 1)). }
  replace (2 * u + 0) with (2 * u) by lia. replace (2 * u + 2) with (2 * (u + 1)) by lia.
  replace (2 * u - 2) with (2 * (u - 1)) by lia. replace (2 * u - 4) with (2 * (u - 2)) by lia.
  replace (2 * u + 4) with (2 * (u + 2)) by lia. rewrite !load16_unit by done.
  destruct (l !!z u) as [fields|]; [|done]. destruct (l !!z (u + 1)) as [cf|]; [|done]. cbn [mbind option_bind].
  change has_flag with Smali.flag.
  assert (B : forall (k : Z * Z -> option Smali.CodeItem) (k' : Z * Z -> option (bool * InterpCode)) (r : option (Z * Z)) R,
    (forall v p, k (v, p) = Some item -> k' (v, 2 * p) = R) ->
    (r ≫= k) = Some item -> ((x ← r; Some (x.1, 2 * x.2)) ≫= k') = R).
  { intros k k' [[v p]|] R H E; [|done]. by apply H. }
  cbv zeta. intros E.
  match goal with |- (?r' ≫= ?k') = ?R => match type of E with (?r ≫= ?k) = _ =>
    assert (Hr : r' = (x ← r; Some (x.1, 2 * x.2)))
      by (destruct (Smali.flag cf 4); [|done]; destruct (l !!z (u - 1)); [|done]; by destruct (l !!z (u - 2)));
    rewrite Hr; revert E; apply (B k k' r R) end end.
  clear Hr. intros count p1. rewrite A.
  assert (C : forall r, ('(v, p) ← r; Some (v, 2 * p)) = (x ← r; Some (x.1, 2 * x.2)) :> option (Z * Z))
    by (by intros [[??]|]).
  rewrite C. apply B. intros rs p2. rewrite A, C. apply B. intros vs p3. rewrite A, C. apply B. intros os p4.
  intros [= <-]. cbn [Smali.registers_size Smali.ins_size Smali.outs_size Smali.insns_count Smali.insns]. cbv zeta.
  by rewrite (Z.mul_comm count 2).
Qed.

Section Compact.
Context (registers ins outs tries : Z) (code : list Z).
Hypothesis Hreg : in_u 16 registers.
Hypothesis Hins : 0 <= ins <= registers.
Hypothesis Houts : in_u 16 outs.
Hypothesis Htries : in_u 16 tries.
Hypothesis Hcode : in_u 32 (Z.of_nat (length code)).

Lemma spill_u16 x : in_u 16 x -> Forall (in_u 16) (SmaliProofs.spill 4 x).
Proof.
  intros Hx. unfold SmaliProofs.spill. case_match; [|constructor]. constructor; [|constructor].
  unfold in_u, SmaliProofs.high in *. Z.div_mod_to_equations. lia.
Qed.

Lemma item_u16 : Forall (in_u 16) (SmaliProofs.preheader registers ins outs tries (Z.of_nat (length code))) /\
  Forall (in_u 16) (SmaliProofs.compact_words registers ins outs tries (Z.of_nat (length code))).
Proof.
  set (count := Z.of_nat (length code)) in *. split.
  - unfold SmaliProofs.preheader. rewrite !Forall_app. split_and!; [ | apply spill_u16; unfold in_u in *; lia.. ].
    case_match; [|constructor]. repeat (constructor; [unfold in_u, SmaliProofs.high in *; Z.div_mod_to_equations; lia|]). constructor.
  - unfold SmaliProofs.compact_words.
    constructor; [|constructor; [|constructor]]; unfold in_u, SmaliProofs.bit in *.
    + Z.div_mod_to_equations; lia.
    + repeat case_match; Z.div_mod_to_equations; lia.
Qed.
End Compact.

(** C16: the code item of a method in a CompactDex file, decoded for the
    interpreter.  Whatever sizes spill over into the preheader, [buildVmCode]
    recovers the number of registers, arguments and instructions, and copies
    exactly the instructions to an aligned buffer; a CompactDex method always
    runs without its exception table. *)
Theorem compact_item_decodes base registers ins outs tries code rest access q :
  let pre := SmaliProofs.preheader registers ins outs tries (Z.of_nat (length code)) in
  let mem := bytes16 (reverse pre ++ SmaliProofs.compact_words registers ins outs tries (Z.of_nat (length code)) ++ code ++ rest) in
  let at_ := 2 * Z.of_nat (length pre) in
  in_u 16 registers -> registers <> 0 -> 0 <= ins <= registers -> in_u 16 outs -> in_u 16 tries ->
  in_u 32 (Z.of_nat (length code)) -> code <> [] -> Forall (in_u 16) (code ++ rest) ->
  (base + at_) mod 2 = 0 -> base + at_ <> 0 -> q = 0 \/ q = 1 ->
  HasAccessFlags access kNative = false -> HasAccessFlags access kAbstract = false ->
  exists out, buildVmCode base mem (Some (access, base + at_ + q)) true = Some (true, out) /\
    (registersSize out, insSize out, outsSize out) = (registers, ins, outs) /\
    regs out = replicate (Z.to_nat registers) 0 /\ regFlags out = replicate (Z.to_nat registers) 0 /\
    code_of mem out = Some (VmEnv.MkVmCode code None).
Proof.
  intros pre mem at_ Hr Hr0 Hi Ho Ht Hcl Hc0 Hc Hal Hnz Hq Hn Ha.
  unfold buildVmCode. rewrite Hn, Ha, untag by done.
  destruct (Z.eqb_spec (base + at_) 0); [done|]. replace (base + at_ - base) with at_ by lia. cbn [isCompactDex cleared].
  destruct (item_u16 registers ins outs tries code Hr Hi Ho Ht Hcl) as [Hp Hw].
  unfold mem, at_. set (l := reverse pre ++ _).
  assert (HF : Forall (in_u 16) l).
  { unfold l. rewrite Forall_app. split; [by apply Forall_reverse|]. rewrite Forall_app. by split. }
  erewrite buildCompact_sizes; [|done|apply (SmaliProofs.compact_roundtrip registers ins outs tries _ (code ++ rest)); done].
  cbn [Smali.registers_size Smali.ins_size Smali.outs_size Smali.insns_count Smali.insns]. cbv zeta.
  destruct (Z.eqb_spec (Z.of_nat (length code)) 0); [by destruct code|]. destruct (Z.eqb_spec registers 0); [done|]. cbn [orb].
  fold pre. rewrite slice_units by (unfold l, SmaliProofs.compact_words; rewrite ?length_app, ?length_reverse; cbn [length]; lia).
  cbn [mbind option_bind negb].
  assert (Hd : take (Z.to_nat (Z.of_nat (length code))) (drop (Z.to_nat (Z.of_nat (length pre) + 2)) l) = code).
  { unfold l. rewrite Nat2Z.id, app_assoc, drop_app_length', take_app_length; [done|].
    rewrite length_app, length_reverse. unfold SmaliProofs.compact_words. cbn [length]. lia. }
  rewrite Hd, words16_bytes by (by apply Forall_app in Hc as [? _]).
  eexists. split; [done|]. by split_and!.
Qed.

(** ** Instances *)

(** Three units (so the tries are padded), one try with a typed handler. *)
Lemma standard_item_decodes_witness :
  exists mem out, buildVmCode 0x1000 mem (Some (1, 0x1005)) false = Some (true, out) /\
    code_of mem out = Some (VmEnv.MkVmCode [0x0027; 0x000d; 0x000e]
      (Some (DexCatch.MkTryCatchHandler 1 [DexCatch.MkTryItem 0 1 1] [1; 1; 5; 1]))).
Proof.
  destruct (standard_item_decodes 0x1000 0 [9; 9; 9; 9] [7; 7] 3 1 0 [0x0027; 0x000d; 0x000e] [DexCatch.MkTryItem 0 1 1]
    [1; 1; 5; 1] 1 1) as (out & H & _ & _ & _ & Hc); try done; try lia; try (by right);
    try (by repeat constructor).
  eexists _, out. split; [exact H|exact Hc].
Defined.

(** More than fifteen registers and arguments: the preheader is used. *)
Lemma compact_item_decodes_witness :
  exists mem out, buildVmCode 0x1000 mem (Some (1, 0x1002)) true = Some (true, out) /\
    (registersSize out, insSize out, outsSize out) = (20, 17, 3) /\
    code_of mem out = Some (VmEnv.MkVmCode [0x1012; 0x000e] None).
Proof.
  destruct (compact_item_decodes 0x1000 20 17 3 1 [0x1012; 0x000e] [7] 1 0) as (out & H & Hs & _ & _ & Hc);
    try done; try lia; try (by left).
  - by repeat constructor.
  - eexists _, out. split; [exact H|]. split; [exact Hs|exact Hc].
Defined.

End CodeProviderRoundtrip.
