(* ===== verification/DexResolver.v ===== *)
(** * Names behind the indexes of a DEX file (src/dex/pi_dex_resolver.h, .cpp)

    The resolver keeps pointers into a DEX file mapped in memory.  A pointer
    is an address, the null pointer 0; a read outside the memory is [None].
    [Dex] is what a file says, independently of its layout; [holds] is the
    layout the DEX and CompactDex formats prescribe. *)
From S2P Require Import Prelude.
From S2P Require Import Memory.
Local Open Scope cint_scope.

Module DexResolver.
Import Memory.

Record MethodRef := MkMethodRef {
  class_descriptor : list Z; name : list Z; return_type : list Z; shorty : list Z;
  param_types : list (list Z); jni_signature : list Z }.
Record FieldRef := MkFieldRef { f_class_descriptor : list Z; f_name : list Z; f_type : list Z }.
Definition no_method : MethodRef := MkMethodRef [] [] [] [] [] [].
Definition no_field : FieldRef := MkFieldRef [] [] [].
(** [isValid] *)
Definition method_isValid (r : MethodRef) : bool := negb (bool_decide (name r = [])).
Definition field_isValid (r : FieldRef) : bool := negb (bool_decide (f_name r = [])).

(** Offsets of the members of [DexFileHeader]. *)
Definition off_string_ids_size : Z := 0x38.
Definition off_string_ids_off : Z := 0x3C.
Definition off_type_ids_size : Z := 0x40.
Definition off_type_ids_off : Z := 0x44.
Definition off_proto_ids_size : Z := 0x48.
Definition off_proto_ids_off : Z := 0x4C.
Definition off_field_ids_size : Z := 0x50.
Definition off_field_ids_off : Z := 0x54.
Definition off_method_ids_size : Z := 0x58.
Definition off_method_ids_off : Z := 0x5C.

(** The members of [DexResolver]. *)
Record Resolver := MkResolver {
  art_dex_file_ : Z; dex_begin_ : Z; dex_data_begin_ : Z; dex_size_ : Z; is_compact_ : bool; header_ : Z;
  string_ids_ : Z; type_ids_ : Z; proto_ids_ : Z; field_ids_ : Z; method_ids_ : Z }.
Definition default_resolver : Resolver := MkResolver 0 0 0 0 false 0 0 0 0 0 0.

Definition isValid (r : Resolver) : bool := negb (dex_begin_ r =? 0) && negb (header_ r =? 0).
Definition dataBegin (r : Resolver) : Z := if is_compact_ r then dex_data_begin_ r else dex_begin_ r.

Section Memory.
Context (mem : list Z).

(** [do ... while (shift < 35)]; only the pointer is used by the callers. *)
Fixpoint uleb_loop (fuel : nat) (p result shift : Z) : option (Z * Z) :=
  match fuel with
  | O => None
  | S f =>
      byte ← mem !!z p;
      let result := result .| U32 ((byte & 0x7F) << shift) in
      if (byte & 0x80) =? 0 then Some (result, p + 1)
      else if shift + 7 <? 35 then uleb_loop f (p + 1) result (shift + 7) else Some (result, p + 1)
  end.
Definition decodeULEB128 (ptr : Z) : option (Z * Z) := uleb_loop 5 ptr 0 0.

(** [if (off && size) ids = begin + off;] *)
Definition id_table (begin_ size_at off_at : Z) : option Z :=
  off ← load32 mem (begin_ + off_at);
  if off =? 0 then Some 0
  else size ← load32 mem (begin_ + size_at); Some (if size =? 0 then 0 else begin_ + off).

(** [memcmp(p, magic, 4) == 0] *)
Definition is_magic (p : Z) (magic : list Z) : option bool := b ← slice mem p 4; Some (streq b magic).
Definition cdex : list Z := str "cdex".
Definition dex_nl : list Z := str "dex" ++ [10].

Definition init (art_dex_file : Z) : option (bool * Resolver) :=
  if art_dex_file =? 0 then Some (false, default_resolver)
  else
    begin_ ← load64 mem (art_dex_file + 0x08);
    size ← load64 mem (art_dex_file + 0x10);
    data ← load64 mem (art_dex_file + 0x18);
    if begin_ =? 0 then Some (false, MkResolver art_dex_file begin_ data size false 0 0 0 0 0 0)
    else
      compact ← is_magic begin_ cdex;
      let data := if (compact : bool) && (data =? 0) then begin_ else data in
      size ←
        (if size =? 0 then
           let hdr_base := if negb (data =? 0) then data else begin_ in
           std ← is_magic hdr_base dex_nl;
           known ← (if (std : bool) then Some true else is_magic hdr_base cdex);
           if (known : bool) then load32 mem (hdr_base + 0x20) else Some size
         else Some size);
      strings ← id_table begin_ off_string_ids_size off_string_ids_off;
      types ← id_table begin_ off_type_ids_size off_type_ids_off;
      protos ← id_table begin_ off_proto_ids_size off_proto_ids_off;
      fields ← id_table begin_ off_field_ids_size off_field_ids_off;
      methods ← id_table begin_ off_method_ids_size off_method_ids_off;
      Some (true, MkResolver art_dex_file begin_ data size compact begin_ strings types protos fields methods).

Context (r : Resolver).

(** [if (!ids || idx >= header_->ids_size) return absent;], and the address
    of the entry. *)
Definition entry {A} (ids size_at idx width : Z) (absent : A) (k : Z -> option A) : option A :=
  if ids =? 0 then Some absent
  else size ← load32 mem (header_ r + size_at); if size <=? idx then Some absent else k (ids + width * idx).

Definition resolveString (string_idx : Z) : option Z :=
  entry (string_ids_ r) off_string_ids_size string_idx 4 0 (fun e =>
    data_off ← load32 mem e;
    '(_, ptr) ← decodeULEB128 (dataBegin r + data_off);
    Some ptr).
Definition typeUtf (type_idx : Z) : option Z :=
  entry (type_ids_ r) off_type_ids_size type_idx 4 0 (fun e =>
    descriptor_idx ← load32 mem e; resolveString descriptor_idx).
Definition methodClassIdx (method_idx : Z) : option Z :=
  entry (method_ids_ r) off_method_ids_size method_idx 8 0 (fun e => load16 mem e).
Definition fieldClassIdx (field_idx : Z) : option Z :=
  entry (field_ids_ r) off_field_ids_size field_idx 8 0 (fun e => load16 mem e).
Definition methodShorty (method_idx : Z) : option Z :=
  entry (method_ids_ r) off_method_ids_size method_idx 8 0 (fun e =>
    proto_idx ← load16 mem (e + 2);
    entry (proto_ids_ r) off_proto_ids_size proto_idx 12 0 (fun e =>
      shorty_idx ← load32 mem e; resolveString shorty_idx)).

(** [std::string(str ? str : "")] *)
Definition text (str : Z) : option (list Z) := if str =? 0 then Some [] else cstring mem str.
Definition resolveType (type_idx : Z) : option (list Z) :=
  entry (type_ids_ r) off_type_ids_size type_idx 4 [] (fun e =>
    descriptor_idx ← load32 mem e; str ← resolveString descriptor_idx; text str).

(** [for (i = 0; i < size; i++) params.push_back(resolveType(items[i]));] *)
Fixpoint push_types (n : nat) (item : Z) : option (list (list Z)) :=
  match n with
  | O => Some []
  | S n => t ← load16 mem item; d ← resolveType t; ds ← push_types n (item + 2); Some (d :: ds)
  end.
Definition resolveProtoParams (proto_idx : Z) : option (list (list Z)) :=
  entry (proto_ids_ r) off_proto_ids_size proto_idx 12 [] (fun e =>
    params_off ← load32 mem (e + 8);
    if params_off =? 0 then Some []
    else
      let type_list := dataBegin r + params_off in
      size ← load32 mem type_list;
      push_types (Z.to_nat size) (type_list + 4)).
Definition resolveProtoSignature (proto_idx : Z) : option (list Z) :=
  entry (proto_ids_ r) off_proto_ids_size proto_idx 12 [] (fun e =>
    params ← resolveProtoParams proto_idx;
    return_type_idx ← load32 mem (e + 4);
    ret ← resolveType return_type_idx;
    Some (str "(" ++ concat params ++ str ")" ++ ret)).

Definition resolveMethod (method_idx : Z) : option MethodRef :=
  entry (method_ids_ r) off_method_ids_size method_idx 8 no_method (fun e =>
    class_idx ← load16 mem e;
    proto_idx ← load16 mem (e + 2);
    name_idx ← load32 mem (e + 4);
    class_descriptor ← resolveType class_idx;
    name ← resolveString name_idx;
    name ← text name;
    entry (proto_ids_ r) off_proto_ids_size proto_idx 12 (MkMethodRef class_descriptor name [] [] [] []) (fun p =>
      shorty_idx ← load32 mem p;
      shorty ← resolveString shorty_idx;
      shorty ← text shorty;
      return_type_idx ← load32 mem (p + 4);
      return_type ← resolveType return_type_idx;
      param_types ← resolveProtoParams proto_idx;
      jni_signature ← resolveProtoSignature proto_idx;
      Some (MkMethodRef class_descriptor name return_type shorty param_types jni_signature))).

Definition resolveField (field_idx : Z) : option FieldRef :=
  entry (field_ids_ r) off_field_ids_size field_idx 8 no_field (fun e =>
    class_idx ← load16 mem e;
    type_idx ← load16 mem (e + 2);
    name_idx ← load32 mem (e + 4);
    class_descriptor ← resolveType class_idx;
    type ← resolveType type_idx;
    name ← resolveString name_idx;
    name ← text name;
    Some (MkFieldRef class_descriptor name type)).
End Memory.

(** ** What a file says *)

Record Proto := MkProto { p_shorty : Z; p_return : Z; p_params : list Z }.
Record Id := MkId { i_class : Z; i_second : Z; i_name : Z }.
(** [i_second]: a method's prototype, a field's type. *)
Record Dex := MkDex {
  d_strings : list (list Z); d_types : list Z; d_protos : list Proto; d_fields : list Id; d_methods : list Id }.

Section Dex.
Context (d : Dex).
Definition string_of (i : Z) : list Z := default [] (d_strings d !!z i).
Definition type_of (i : Z) : list Z := match d_types d !!z i with Some s => string_of s | None => [] end.
Definition params_of (i : Z) : list (list Z) :=
  match d_protos d !!z i with Some p => map type_of (p_params p) | None => [] end.
Definition signature_of (i : Z) : list Z :=
  match d_protos d !!z i with
  | Some p => str "(" ++ concat (params_of i) ++ str ")" ++ type_of (p_return p)
  | None => []
  end.
Definition method_of (i : Z) : MethodRef :=
  match d_methods d !!z i with
  | None => no_method
  | Some m =>
      match d_protos d !!z (i_second m) with
      | None => MkMethodRef (type_of (i_class m)) (string_of (i_name m)) [] [] [] []
      | Some p => MkMethodRef (type_of (i_class m)) (string_of (i_name m)) (type_of (p_return p)) (string_of (p_shorty p))
                    (params_of (i_second m)) (signature_of (i_second m))
      end
  end.
Definition field_of (i : Z) : FieldRef :=
  match d_fields d !!z i with
  | None => no_field
  | Some f => MkFieldRef (type_of (i_class f)) (string_of (i_name f)) (type_of (i_second f))
  end.
End Dex.

(** ** The layout *)

(** An id table: its size and offset in the header, its entries. *)
Definition table_at {A} (mem : list Z) (begin_ size_at off_at width : Z) (l : list A) (entry_at : Z -> A -> Prop) : Prop :=
  exists off, load32 mem (begin_ + size_at) = Some (Z.of_nat (length l)) /\ load32 mem (begin_ + off_at) = Some off /\
    (l <> [] -> 0 < off) /\ forall i x, l !! i = Some x -> entry_at (begin_ + off + width * Z.of_nat i) x.

(** A string_data_item: the length as a ULEB128 number, the text, a NUL. *)
Definition string_at (mem : list Z) (p : Z) (s : list Z) : Prop :=
  exists v q, decodeULEB128 mem p = Some (v, q) /\ cstring mem q = Some s.
(** A type_list, absent when empty. *)
Definition type_list_at (mem : list Z) (data off : Z) (l : list Z) : Prop :=
  if off =? 0 then l = []
  else load32 mem (data + off) = Some (Z.of_nat (length l)) /\
    forall i t, l !! i = Some t -> load16 mem (data + off + 4 + 2 * Z.of_nat i) = Some t.

(** The file [d] at [begin_], its data items relative to [data]. *)
Record holds (mem : list Z) (begin_ data : Z) (d : Dex) : Prop := {
  h_strings : table_at mem begin_ off_string_ids_size off_string_ids_off 4 (d_strings d) (fun e s =>
    exists off, load32 mem e = Some off /\ string_at mem (data + off) s);
  h_types : table_at mem begin_ off_type_ids_size off_type_ids_off 4 (d_types d) (fun e t => load32 mem e = Some t);
  h_protos : table_at mem begin_ off_proto_ids_size off_proto_ids_off 12 (d_protos d) (fun e p =>
    load32 mem e = Some (p_shorty p) /\ load32 mem (e + 4) = Some (p_return p) /\
    exists off, load32 mem (e + 8) = Some off /\ type_list_at mem data off (p_params p));
  h_fields : table_at mem begin_ off_field_ids_size off_field_ids_off 8 (d_fields d) (fun e f =>
    load16 mem e = Some (i_class f) /\ load16 mem (e + 2) = Some (i_second f) /\ load32 mem (e + 4) = Some (i_name f));
  h_methods : table_at mem begin_ off_method_ids_size off_method_ids_off 8 (d_methods d) (fun e m =>
    load16 mem e = Some (i_class m) /\ load16 mem (e + 2) = Some (i_second m) /\ load32 mem (e + 4) = Some (i_name m))
}.

(** ART's object for the file. *)
Definition dex_object (mem : list Z) (obj begin_ size data : Z) : Prop :=
  load64 mem (obj + 0x08) = Some begin_ /\ load64 mem (obj + 0x10) = Some size /\ load64 mem (obj + 0x18) = Some data.

End DexResolver.
