(* ===== verification/DexResolverProofs.v ===== *)
(** * The resolver names what the file says (pi_dex_resolver.cpp)

    Initialised from ART's object for a laid-out file, the resolver answers
    every index as the file does, indexes outside the tables included. *)
From S2P Require Import Prelude.
From S2P Require Import Memory.
From S2P Require Import DexResolver.
Local Open Scope cint_scope.

Module DexResolverProofs.
Export Memory.
Export DexResolver.

(** ** Id tables *)

Lemma load_nonneg n mem p v : bytes_ok mem -> load n mem p = Some v -> 0 <= v.
Proof.
  unfold load, slice. intros Hm. case_match; [|done]. intros [= <-].
  assert (HF : bytes_ok (take (Z.to_nat n) (drop (Z.to_nat p) mem))) by (by apply Forall_take, Forall_drop).
  induction HF as [|x l Hx _ IH]; [done|]. cbn [le_combine]. apply Z.lor_nonneg. split; [apply Hx|]. by apply Z.shiftl_nonneg.
Qed.

(** What [init] leaves of a table. *)
Record table {A} (mem : list Z) (header ids size_at width : Z) (l : list A) (entry_at : Z -> A -> Prop) : Prop := {
  t_size : load32 mem (header + size_at) = Some (Z.of_nat (length l));
  t_ids : ids = 0 <-> l = [];
  t_entry : forall i x, l !!z i = Some x -> entry_at (ids + width * i) x }.
Arguments t_size {A mem header ids size_at width l entry_at}.
Arguments t_ids {A mem header ids size_at width l entry_at}.
Arguments t_entry {A mem header ids size_at width l entry_at}.

Lemma id_table_spec {A} mem begin_ size_at off_at width (l : list A) P : 0 < begin_ ->
  table_at mem begin_ size_at off_at width l P ->
  exists ids, id_table mem begin_ size_at off_at = Some ids /\ table mem begin_ ids size_at width l P.
Proof.
  intros Hb (off & Hs & Ho & Hne & He). unfold id_table. rewrite Ho, Hs. cbn [mbind option_bind].
  destruct (Z.eqb_spec off 0) as [->|Hoff].
  - assert (l = []) as -> by (destruct l; [done|specialize (Hne ltac:(done)); lia]).
    exists 0. split; [done|]. split; [done|done|]. intros i x H. apply zlookup_lt_Some in H. simpl in H. lia.
  - destruct (Z.eqb_spec (Z.of_nat (length l)) 0) as [Hl|Hl].
    + assert (l = []) as -> by (by destruct l).
      exists 0. split; [done|]. split; [done|done|]. intros i x H. apply zlookup_lt_Some in H. simpl in H. lia.
    + assert (l <> []) as Hl' by (by destruct l). specialize (Hne Hl'). exists (begin_ + off). split; [done|].
      split; [done|split; [lia|done]|]. intros i x H. pose proof (zlookup_lt_Some _ _ _ H).
      unfold zlookup in H. destruct (Z.leb_spec 0 i); [|done]. specialize (He _ _ H). by rewrite Z2Nat.id in He by lia.
Qed.

Section Entry.
Context {A B : Type} (mem : list Z) (r : Resolver) (ids size_at width : Z) (l : list A) (P : Z -> A -> Prop).
Hypothesis Ht : table mem (header_ r) ids size_at width l P.

Lemma entry_spec idx (absent : B) k : 0 <= idx ->
  entry mem r ids size_at idx width absent k =
  match l !!z idx with Some _ => k (ids + width * idx) | None => Some absent end.
Proof.
  intros Hi. unfold entry. destruct (Z.eqb_spec ids 0) as [H0|H0].
  - apply (t_ids Ht) in H0 as ->. unfold zlookup. destruct (Z.leb_spec 0 idx); [|lia]. by rewrite lookup_nil.
  - rewrite (t_size Ht). cbn [mbind option_bind]. destruct (Z.leb_spec (Z.of_nat (length l)) idx).
    + destruct (l !!z idx) as [x|] eqn:E; [|done]. apply zlookup_lt_Some in E. lia.
    + destruct (zlookup_is_Some l idx) as [x ->]; done.
Qed.
End Entry.

(** ** The resolver of a file *)

Lemma decode_moves mem fuel : forall p r s v q, uleb_loop mem fuel p r s = Some (v, q) -> 0 < q.
Proof.
  induction fuel as [|f IH]; intros p r s v q; [done|]. cbn [uleb_loop].
  destruct (mem !!z p) as [b|] eqn:E; [|done]. apply zlookup_lt_Some in E. cbn [mbind option_bind]. cbv zeta.
  case_match; [intros [= <- <-]; lia|]. case_match; [apply IH|intros [= <- <-]; lia].
Qed.

(** [init] has been run on the file [d]. *)
Record resolves (mem : list Z) (r : Resolver) (d : Dex) : Prop := {
  r_strings : table mem (header_ r) (string_ids_ r) off_string_ids_size 4 (d_strings d) (fun e s =>
    exists off, load32 mem e = Some off /\ string_at mem (dataBegin r + off) s);
  r_types : table mem (header_ r) (type_ids_ r) off_type_ids_size 4 (d_types d) (fun e t => load32 mem e = Some t);
  r_protos : table mem (header_ r) (proto_ids_ r) off_proto_ids_size 12 (d_protos d) (fun e p =>
    load32 mem e = Some (p_shorty p) /\ load32 mem (e + 4) = Some (p_return p) /\
    exists off, load32 mem (e + 8) = Some off /\ type_list_at mem (dataBegin r) off (p_params p));
  r_fields : table mem (header_ r) (field_ids_ r) off_field_ids_size 8 (d_fields d) (fun e f =>
    load16 mem e = Some (i_class f) /\ load16 mem (e + 2) = Some (i_second f) /\ load32 mem (e + 4) = Some (i_name f));
  r_methods : table mem (header_ r) (method_ids_ r) off_method_ids_size 8 (d_methods d) (fun e m =>
    load16 mem e = Some (i_class m) /\ load16 mem (e + 2) = Some (i_second m) /\ load32 mem (e + 4) = Some (i_name m))
}.

Lemma init_resolves mem obj begin_ size data d magic :
  obj <> 0 -> dex_object mem obj begin_ size data -> 0 < begin_ -> size <> 0 ->
  slice mem begin_ 4 = Some magic ->
  holds mem begin_ (if streq magic cdex then (if data =? 0 then begin_ else data) else begin_) d ->
  exists r, init mem obj = Some (true, r) /\ isValid r = true /\ dex_begin_ r = begin_ /\
    is_compact_ r = streq magic cdex /\ resolves mem r d.
Proof.
  intros Ho (Hb & Hs & Hd) Hpos Hsz Hm Hh. unfold init, is_magic. destruct (Z.eqb_spec obj 0); [done|].
  rewrite Hb, Hs, Hd. cbn [mbind option_bind]. destruct (Z.eqb_spec begin_ 0); [lia|]. rewrite Hm. cbn [mbind option_bind].
  cbv zeta. destruct (Z.eqb_spec size 0); [done|]. cbn [mbind option_bind].
  destruct (id_table_spec _ _ _ _ _ _ _ Hpos (h_strings _ _ _ _ Hh)) as (t1 & -> & T1). cbn [mbind option_bind].
  destruct (id_table_spec _ _ _ _ _ _ _ Hpos (h_types _ _ _ _ Hh)) as (t2 & -> & T2). cbn [mbind option_bind].
  destruct (id_table_spec _ _ _ _ _ _ _ Hpos (h_protos _ _ _ _ Hh)) as (t3 & -> & T3). cbn [mbind option_bind].
  destruct (id_table_spec _ _ _ _ _ _ _ Hpos (h_fields _ _ _ _ Hh)) as (t4 & -> & T4). cbn [mbind option_bind].
  destruct (id_table_spec _ _ _ _ _ _ _ Hpos (h_methods _ _ _ _ Hh)) as (t5 & -> & T5). cbn [mbind option_bind].
  eexists. split; [done|]. unfold isValid. cbn [dex_begin_ header_]. destruct (Z.eqb_spec begin_ 0); [lia|].
  split_and!; [done..|]. split; cbn [header_ string_ids_ type_ids_ proto_ids_ field_ids_ method_ids_]; try done;
    unfold dataBegin; cbn [is_compact_ dex_data_begin_ dex_begin_]; by destruct (streq magic cdex).
Qed.

Section Resolves.
Context (mem : list Z) (r : Resolver) (d : Dex).
Hypothesis Hbytes : bytes_ok mem.
Hypothesis Hr : resolves mem r d.

(** Of an index the memory holds. *)
Ltac nonneg := cbv beta in *; match goal with H : load ?n mem ?p = Some ?v |- 0 <= ?v => exact (load_nonneg n mem p v Hbytes H) end.

(** A pointer to the text [s], null when there is none. *)
Definition points_to (p : Z) (s : option (list Z)) : Prop :=
  match s with Some s => p <> 0 /\ cstring mem p = Some s | None => p = 0 end.

Lemma points_text p s : points_to p s -> text mem p = Some (default [] s).
Proof. unfold text. destruct s as [s|]; simpl; [|by intros ->]. intros [Hp ->]. by destruct (Z.eqb_spec p 0). Qed.

Lemma resolveString_spec i : 0 <= i -> exists p, resolveString mem r i = Some p /\ points_to p (d_strings d !!z i).
Proof.
  intros Hi. unfold resolveString. rewrite (entry_spec _ _ _ _ _ _ _ (r_strings _ _ _ Hr)) by done.
  destruct (d_strings d !!z i) as [s|] eqn:E; [|by exists 0].
  destruct (t_entry (r_strings _ _ _ Hr) _ _ E) as (off & -> & v & q & Hd & Hc). cbn [mbind option_bind]. rewrite Hd.
  exists q. split; [done|]. split; [|done]. apply decode_moves in Hd. lia.
Qed.

Definition type_text (i : Z) : option (list Z) := s ← d_types d !!z i; d_strings d !!z s.
Lemma type_text_of i : default [] (type_text i) = type_of d i.
Proof. unfold type_text, type_of, string_of. by destruct (d_types d !!z i). Qed.

Lemma typeUtf_spec i : 0 <= i -> exists p, typeUtf mem r i = Some p /\ points_to p (type_text i).
Proof.
  intros Hi. unfold typeUtf, type_text. rewrite (entry_spec _ _ _ _ _ _ _ (r_types _ _ _ Hr)) by done.
  destruct (d_types d !!z i) as [s|] eqn:E; [|by exists 0].
  pose proof (t_entry (r_types _ _ _ Hr) _ _ E) as Hs. rewrite Hs. cbn [mbind option_bind]. apply resolveString_spec. nonneg.
Qed.

Lemma resolveType_spec i : 0 <= i -> resolveType mem r i = Some (type_of d i).
Proof.
  intros Hi. unfold resolveType, type_of. rewrite (entry_spec _ _ _ _ _ _ _ (r_types _ _ _ Hr)) by done.
  destruct (d_types d !!z i) as [s|] eqn:E; [|done].
  pose proof (t_entry (r_types _ _ _ Hr) _ _ E) as Hs. rewrite Hs. cbn [mbind option_bind].
  destruct (resolveString_spec s) as (p & -> & Hp); [nonneg|]. cbn [mbind option_bind]. by apply points_text.
Qed.

Lemma push_types_spec l : forall at_, (forall i t, l !! i = Some t -> load16 mem (at_ + 2 * Z.of_nat i) = Some t) ->
  push_types mem r (length l) at_ = Some (map (type_of d) l).
Proof.
  induction l as [|t l IH]; intros at_ H; [done|]. cbn [length push_types map].
  pose proof (H 0%nat t eq_refl) as Ht. rewrite Z.add_0_r in Ht. rewrite Ht. cbn [mbind option_bind].
  rewrite resolveType_spec by nonneg. cbn [mbind option_bind]. rewrite IH; [done|].
  intros i u Hu. specialize (H (S i) u Hu). by replace (at_ + 2 + 2 * Z.of_nat i) with (at_ + 2 * Z.of_nat (S i)) by lia.
Qed.

Lemma resolveProtoParams_spec i : 0 <= i -> resolveProtoParams mem r i = Some (params_of d i).
Proof.
  intros Hi. unfold resolveProtoParams, params_of. rewrite (entry_spec _ _ _ _ _ _ _ (r_protos _ _ _ Hr)) by done.
  destruct (d_protos d !!z i) as [p|] eqn:E; [|done].
  destruct (t_entry (r_protos _ _ _ Hr) _ _ E) as (_ & _ & off & -> & Hl). cbn [mbind option_bind]. unfold type_list_at in Hl.
  destruct (Z.eqb_spec off 0); [by rewrite Hl|]. destruct Hl as [-> Hl]. cbn [mbind option_bind]. rewrite Nat2Z.id.
  by apply push_types_spec.
Qed.

Lemma resolveProtoSignature_spec i : 0 <= i -> resolveProtoSignature mem r i = Some (signature_of d i).
Proof.
  intros Hi. unfold resolveProtoSignature, signature_of. rewrite (entry_spec _ _ _ _ _ _ _ (r_protos _ _ _ Hr)) by done.
  destruct (d_protos d !!z i) as [p|] eqn:E; [|done].
  destruct (t_entry (r_protos _ _ _ Hr) _ _ E) as (_ & Hret & _). rewrite resolveProtoParams_spec, Hret by done.
  cbn [mbind option_bind]. rewrite resolveType_spec by nonneg. done.
Qed.

Lemma resolveMethod_spec i : 0 <= i -> resolveMethod mem r i = Some (method_of d i).
Proof.
  intros Hi. unfold resolveMethod, method_of. rewrite (entry_spec _ _ _ _ _ _ _ (r_methods _ _ _ Hr)) by done.
  destruct (d_methods d !!z i) as [m|] eqn:E; [|done].
  destruct (t_entry (r_methods _ _ _ Hr) _ _ E) as (Hc & Hp & Hn). rewrite Hc, Hp, Hn. cbn [mbind option_bind].
  rewrite resolveType_spec by nonneg. cbn [mbind option_bind].
  destruct (resolveString_spec (i_name m)) as (q & -> & Hq); [nonneg|]. cbn [mbind option_bind].
  rewrite (points_text _ _ Hq). cbn [mbind option_bind].
  rewrite (entry_spec _ _ _ _ _ _ _ (r_protos _ _ _ Hr)) by nonneg.
  destruct (d_protos d !!z i_second m) as [p|] eqn:Ep; [|done].
  destruct (t_entry (r_protos _ _ _ Hr) _ _ Ep) as (Hsh & Hret & _). rewrite Hsh, Hret. cbn [mbind option_bind].
  destruct (resolveString_spec (p_shorty p)) as (s & -> & Hs); [nonneg|]. cbn [mbind option_bind].
  rewrite (points_text _ _ Hs). cbn [mbind option_bind].
  rewrite resolveType_spec by nonneg. cbn [mbind option_bind].
  rewrite resolveProtoParams_spec by nonneg. cbn [mbind option_bind].
  by rewrite resolveProtoSignature_spec by nonneg.
Qed.

Lemma resolveField_spec i : 0 <= i -> resolveField mem r i = Some (field_of d i).
Proof.
  intros Hi. unfold resolveField, field_of. rewrite (entry_spec _ _ _ _ _ _ _ (r_fields _ _ _ Hr)) by done.
  destruct (d_fields d !!z i) as [f|] eqn:E; [|done].
  destruct (t_entry (r_fields _ _ _ Hr) _ _ E) as (Hc & Hp & Hn). rewrite Hc, Hp, Hn. cbn [mbind option_bind].
  rewrite !resolveType_spec by nonneg. cbn [mbind option_bind].
  destruct (resolveString_spec (i_name f)) as (q & -> & Hq); [nonneg|]. cbn [mbind option_bind].
  by rewrite (points_text _ _ Hq).
Qed.

Definition shorty_text (i : Z) : option (list Z) :=
  m ← d_methods d !!z i; p ← d_protos d !!z i_second m; d_strings d !!z p_shorty p.
Lemma methodShorty_spec i : 0 <= i -> exists p, methodShorty mem r i = Some p /\ points_to p (shorty_text i).
Proof.
  intros Hi. unfold methodShorty, shorty_text. rewrite (entry_spec _ _ _ _ _ _ _ (r_methods _ _ _ Hr)) by done.
  destruct (d_methods d !!z i) as [m|] eqn:E; [|by exists 0].
  destruct (t_entry (r_methods _ _ _ Hr) _ _ E) as (_ & Hp & _). rewrite Hp. cbn [mbind option_bind].
  rewrite (entry_spec _ _ _ _ _ _ _ (r_protos _ _ _ Hr)) by nonneg.
  destruct (d_protos d !!z i_second m) as [p|] eqn:Ep; [|by exists 0].
  destruct (t_entry (r_protos _ _ _ Hr) _ _ Ep) as (Hsh & _). rewrite Hsh. cbn [mbind option_bind]. apply resolveString_spec. nonneg.
Qed.

Lemma methodClassIdx_spec i : 0 <= i ->
  methodClassIdx mem r i = Some (match d_methods d !!z i with Some m => i_class m | None => 0 end).
Proof.
  intros Hi. unfold methodClassIdx. rewrite (entry_spec _ _ _ _ _ _ _ (r_methods _ _ _ Hr)) by done.
  destruct (d_methods d !!z i) as [m|] eqn:E; [|done]. by destruct (t_entry (r_methods _ _ _ Hr) _ _ E) as (-> & _).
Qed.
Lemma fieldClassIdx_spec i : 0 <= i ->
  fieldClassIdx mem r i = Some (match d_fields d !!z i with Some m => i_class m | None => 0 end).
Proof.
  intros Hi. unfold fieldClassIdx. rewrite (entry_spec _ _ _ _ _ _ _ (r_fields _ _ _ Hr)) by done.
  destruct (d_fields d !!z i) as [m|] eqn:E; [|done]. by destruct (t_entry (r_fields _ _ _ Hr) _ _ E) as (-> & _).
Qed.
End Resolves.


(** ** A file *)

(** One class La; with a field f of type I and a method f(La;)I. *)
Definition small_file : Dex := MkDex [str "I"; str "f"; str "La;"] [0; 2] [MkProto 0 0 [1]] [MkId 1 0 1] [MkId 1 0 1].
Definition small_image : list Z :=
  str "dex" ++ [10] ++ replicate 52 0 ++
  concat (map (le_bytes 4) [3; 112; 2; 124; 1; 132; 1; 144; 1; 152; 0; 0; 0; 0] (* 0x38 to 0x70 *)
    ++ map (le_bytes 4) [168; 171; 174; 0; 2; 0; 0; 160] ++ map (le_bytes 2) [1; 0; 1; 0; 1; 0; 1; 0]
    ++ map (le_bytes 4) [1; 1]) ++
  [1] ++ str "I" ++ [0; 1] ++ str "f" ++ [0; 3] ++ str "La;" ++ [0].
Definition small_memory : list Z :=
  replicate 24 0 ++ le_bytes 8 64 ++ le_bytes 8 179 ++ le_bytes 8 0 ++ replicate 16 0 ++ small_image.

Ltac each_entry i Hx := first [discriminate Hx | destruct i as [|i]; [injection Hx as <-|each_entry i Hx]].
Ltac table_entries :=
  eexists; split_and!; [vm_compute; reflexivity|vm_compute; reflexivity|done|];
  intros i x Hx; each_entry i Hx.

Lemma small_holds : holds small_memory 64 64 small_file.
Proof.
  split; table_entries.
  1-3: eexists; split; [vm_compute; reflexivity|]; eexists _, _; split; vm_compute; reflexivity.
  1-2: vm_compute; reflexivity.
  1: split; [vm_compute; reflexivity|]; split; [vm_compute; reflexivity|]; eexists; split; [vm_compute; reflexivity|].
  1: split; [vm_compute; reflexivity|]; intros [|i] t Ht; [injection Ht as <-; vm_compute; reflexivity|discriminate Ht].
  all: split_and!; vm_compute; reflexivity.
Qed.


End DexResolverProofs.
