(* ===== verification/ResolverBridge.v ===== *)
(** * Classes, methods and strings for the interpreter

    src/sandbox/pi_interp_tracer.cpp: the cache of class references
    ([FindClassRefCached]).  src/sandbox/pi_resolver_bridge.cpp: the
    [vmResolver] the interpreter runs with, which turns the indexes of a DEX
    file into JNI ids and references and remembers them.
    engine/nmmvm/vm/GlobalCache.cpp: the primitive classes.

    The JNI functions used are the class [JNINames] over an abstract world,
    beside VmEnv's [JNI].  The file is [DexResolver.Dex]; DexResolverProofs
    shows that the resolver answers as it does.  A vector of entries and the
    vector of its [resolved] flags are one list of options.  References are
    addresses, 0 is null.  Locks and log output are left out: one thread. *)
From stdpp Require Import gmap.
From S2P Require Import Prelude.
From S2P Require Import VmEnv.
From S2P Require Import DexWriter.
From S2P Require Import DexResolver.
Import VmEnv.
Local Open Scope cint_scope.

Class JNINames (W : Type) := {
  FindClass : list Z -> W -> Z * W;
  NewGlobalRef : Z -> W -> Z * W;
  DeleteGlobalRef : Z -> W -> W;
  GetMethodID : Z -> list Z -> list Z -> W -> Z * W;
  GetStaticMethodID : Z -> list Z -> list Z -> W -> Z * W;
  GetFieldID : Z -> list Z -> list Z -> W -> Z * W;
  GetStaticFieldID : Z -> list Z -> list Z -> W -> Z * W;
  NewStringUTF : list Z -> W -> Z * W;
  CallObjectMethod : Z -> Z -> list Z -> W -> Z * W
}.

Module ClassRefs.
Section ClassRefs.
Context {W : Type} {jni : JNI W} {names : JNINames W}.

(** The globals of pi_interp_tracer.cpp.  [g_classLookupFallback] is a
    function the agent installs; [g_interpDepth] counts the sessions. *)
Record State := MkState {
  g_clsCache : gmap (list Z) Z; g_appLoader : Z; g_loadClassMid : Z;
  g_classLookupFallback : option (list Z -> W -> Z * W); g_interpDepth : Z }.
Definition cached (g : State) (name : list Z) (c : Z) : State :=
  MkState (<[name := c]> (g_clsCache g)) (g_appLoader g) (g_loadClassMid g) (g_classLookupFallback g) (g_interpDepth g).

(** [if (env->ExceptionCheck()) env->ExceptionClear();], and whether there was one. *)
Definition clear_exception (w : W) : bool * W :=
  let '(e, w) := ExceptionCheck w in
  if e =? 0 then (false, w) else (true, ExceptionClear w).
Definition dots (name : list Z) : list Z := map (fun c => if c =? 47 then 46 else c) name.

(** The application's class loader; [None]: not found there. *)
Definition load_class (name : list Z) (g : State) (w : W) : option Z * State * W :=
  if bool_decide (List.hd 0 name = ch_array) then (None, g, w)
  else if (g_appLoader g =? 0) || (g_loadClassMid g =? 0) then (None, g, w)
  else
    let '(jn, w) := NewStringUTF (dots name) w in
    let '(l, w) := if jn =? 0 then (0, w) else CallObjectMethod (g_appLoader g) (g_loadClassMid g) [jn] w in
    let '(threw, w) := clear_exception w in
    let '(l, w) := if threw then (0, if l =? 0 then w else DeleteLocalRef l w) else (l, w) in
    let w := if jn =? 0 then w else DeleteLocalRef jn w in
    if l =? 0 then (None, g, w)
    else
      let '(c, w) := NewGlobalRef l w in
      let w := DeleteLocalRef l w in
      (Some c, cached g name c, w).

Definition call_fallback (name : list Z) (g : State) (w : W) : option Z * State * W :=
  match g_classLookupFallback g with
  | None => (None, g, w)
  | Some f =>
      let '(local, w) := f name w in
      let '(resolved, w) :=
        if local =? 0 then (0, w)
        else let '(c, w) := NewGlobalRef local w in (c, DeleteLocalRef local w) in
      if resolved =? 0 then (None, g, snd (clear_exception w))
      else (Some resolved, cached g name resolved, w)
  end.

(** Not on the hook path. *)
Definition find_class (name : list Z) (g : State) (w : W) : Z * State * W :=
  if 0 <? g_interpDepth g then (0, g, w)
  else
    let '(l, w) := FindClass name w in
    let '(threw, w) := clear_exception w in
    let l := if threw then 0 else l in
    if l =? 0 then (0, g, w)
    else
      let '(c, w) := NewGlobalRef l w in
      (c, cached g name c, DeleteLocalRef l w).

Definition FindClassRefCached (name : list Z) (g : State) (w : W) : Z * State * W :=
  match g_clsCache g !! name with
  | Some c => (c, g, w)
  | None =>
      let '(c, g, w) := load_class name g w in
      match c with
      | Some c => (c, g, w)
      | None =>
          let '(c, g, w) := call_fallback name g w in
          match c with
          | Some c => (c, g, w)
          | None => find_class name g w
          end
      end
  end.

Definition RegisterClassRef (jniName : list Z) (cls : Z) (g : State) (w : W) : State * W :=
  if cls =? 0 then (g, w)
  else let '(c, w) := NewGlobalRef cls w in (cached g jniName c, w).

Definition RegisterAppClassLoader (loader : Z) (g : State) (w : W) : State * W :=
  if loader =? 0 then (g, w)
  else
    let w := if g_appLoader g =? 0 then w else DeleteGlobalRef (g_appLoader g) w in
    let '(l, w) := NewGlobalRef loader w in
    let '(mid, w) :=
      if g_loadClassMid g =? 0 then
        let '(clCls, w) := FindClass (str "java/lang/ClassLoader") w in
        let '(mid, w) :=
          if clCls =? 0 then (0, w)
          else
            let '(mid, w) := GetMethodID clCls (str "loadClass") (str "(Ljava/lang/String;)Ljava/lang/Class;") w in
            (mid, DeleteLocalRef clCls w) in
        (mid, snd (clear_exception w))
      else (g_loadClassMid g, w) in
    (MkState (g_clsCache g) l mid (g_classLookupFallback g) (g_interpDepth g), w).
End ClassRefs.
Arguments State : clear implicits.
End ClassRefs.

Module ResolverBridge.
Import ClassRefs.
Section Bridge.
Context {W : Type} {jni : JNI W} {names : JNINames W}.
Context (dex : DexResolver.Dex).
(** The primitive classes cacheInitial has cached, by descriptor character. *)
Context (primitive_class : prim -> Z).

Record Bridge := MkBridge {
  methodCache : list (option vmMethod); fieldCache : list (option vmField);
  classCache : list (option Z); stringCache : list (option Z);
  internMid : Z; initialized : bool }.
(** What the resolution works on besides the world. *)
Definition S : Type := Bridge * State W.

Definition set_method (b : Bridge) (i : nat) (m : vmMethod) : Bridge :=
  MkBridge (<[i := Some m]> (methodCache b)) (fieldCache b) (classCache b) (stringCache b) (internMid b) (initialized b).
Definition set_field (b : Bridge) (i : nat) (f : vmField) : Bridge :=
  MkBridge (methodCache b) (<[i := Some f]> (fieldCache b)) (classCache b) (stringCache b) (internMid b) (initialized b).
Definition set_class (b : Bridge) (i : nat) (c : Z) : Bridge :=
  MkBridge (methodCache b) (fieldCache b) (<[i := Some c]> (classCache b)) (stringCache b) (internMid b) (initialized b).
Definition set_string (b : Bridge) (i : nat) (s : Z) : Bridge :=
  MkBridge (methodCache b) (fieldCache b) (classCache b) (<[i := Some s]> (stringCache b)) (internMid b) (initialized b).
Definition set_intern (b : Bridge) (mid : Z) : Bridge :=
  MkBridge (methodCache b) (fieldCache b) (classCache b) (stringCache b) mid (initialized b).

(** [init] on a resolver that [isValid]; a bridge is made for each DEX file. *)
Definition fresh_bridge : Bridge := MkBridge [] [] [] [] 0 false.
Definition init (valid : bool) (b : Bridge) : bool * Bridge :=
  if negb valid then (false, b)
  else (true, MkBridge (replicate (length (DexResolver.d_methods dex)) None) (replicate (length (DexResolver.d_fields dex)) None)
          (replicate (length (DexResolver.d_types dex)) None) (replicate (length (DexResolver.d_strings dex)) None)
          (internMid b) true).

Definition getCacheClass (type : list Z) : Z :=
  match prim_of_char (List.hd 0 type) with Some p => primitive_class p | None => 0 end.

(** Lcom/foo/Bar; is com/foo/Bar; anything else is itself. *)
Definition descriptorToJniName (desc : list Z) : list Z :=
  match desc with
  | 76 :: t => if (2 <=? length desc)%nat then take (length desc - 2) t else []
  | _ => desc
  end.

Definition new_local (g : Z) (w : W) : Z * W := if g =? 0 then (0, w) else NewLocalRef g w.

Definition findClassByDescriptor (typeDesc : list Z) (s : S) (w : W) : Z * S * W :=
  let '(b, refs) := s in
  match typeDesc with
  | [] => (0, s, w)
  | c :: _ =>
      match prim_of_char c with
      | Some _ => let '(l, w) := new_local (getCacheClass typeDesc) w in (l, s, w)
      | None =>
          if c =? ch_V then (0, s, w)
          else
            let name := if c =? ch_array then typeDesc else descriptorToJniName typeDesc in
            let '(g, refs, w) := FindClassRefCached name refs w in
            let '(l, w) := new_local g w in
            (l, (b, refs), w)
      end
  end.

(** The look-up of an id in the declaring class, which is released again. *)
Definition with_class (desc : list Z) (get : Z -> W -> Z * W) (s : S) (w : W) : Z * S * W :=
  let '(clazz, s, w) := findClassByDescriptor desc s w in
  if clazz =? 0 then (0, s, w)
  else
    let '(id, w) := get clazz w in
    (id, s, DeleteLocalRef clazz w).

Definition resolveMethod (idx : Z) (isStatic : bool) (s : S) (w : W) : option vmMethod * S * W :=
  if negb (initialized (fst s)) then (None, s, w)
  else
    match methodCache (fst s) !!z idx with
    | None => (None, s, w)
    | Some (Some m) => (Some m, s, w)
    | Some None =>
        let ref := DexResolver.method_of dex idx in
        if negb (DexResolver.method_isValid ref) then (None, s, w)
        else
          let '(mid, s, w) :=
            with_class (DexResolver.class_descriptor ref)
              (fun clazz => if isStatic then GetStaticMethodID clazz (DexResolver.name ref) (DexResolver.jni_signature ref)
                            else GetMethodID clazz (DexResolver.name ref) (DexResolver.jni_signature ref)) s w in
          if mid =? 0 then (None, s, w)
          else
            let classIdx := match DexResolver.d_methods dex !!z idx with Some m => DexResolver.i_class m | None => 0 end in
            let m := MkVmMethod (U16 classIdx) idx (DexResolver.shorty ref) mid in
            (Some m, (set_method (fst s) (Z.to_nat idx) m, snd s), w)
    end.

Definition resolveField (idx : Z) (isStatic : bool) (s : S) (w : W) : option vmField * S * W :=
  if negb (initialized (fst s)) then (None, s, w)
  else
    match fieldCache (fst s) !!z idx with
    | None => (None, s, w)
    | Some (Some f) => (Some f, s, w)
    | Some None =>
        let ref := DexResolver.field_of dex idx in
        if negb (DexResolver.field_isValid ref) then (None, s, w)
        else
          let '(fid, s, w) :=
            with_class (DexResolver.f_class_descriptor ref)
              (fun clazz => if isStatic then GetStaticFieldID clazz (DexResolver.f_name ref) (DexResolver.f_type ref)
                            else GetFieldID clazz (DexResolver.f_name ref) (DexResolver.f_type ref)) s w in
          if fid =? 0 then (None, s, w)
          else
            let classIdx := match DexResolver.d_fields dex !!z idx with Some f => DexResolver.i_class f | None => 0 end in
            let f := MkVmField (U16 classIdx) (List.hd ch_L (DexResolver.f_type ref)) fid in
            (Some f, (set_field (fst s) (Z.to_nat idx) f, snd s), w)
    end.

Definition resolveTypeUtf (idx : Z) (s : S) (w : W) : option (list Z) * S * W :=
  if negb (initialized (fst s)) then (None, s, w)
  else ((t ← DexResolver.d_types dex !!z idx; DexResolver.d_strings dex !!z t), s, w).

(** A fresh local reference to what the cache remembers, null included. *)
Definition resolveClass (idx : Z) (s : S) (w : W) : Z * S * W :=
  if negb (initialized (fst s)) then (0, s, w)
  else
    match classCache (fst s) !!z idx with
    | None => (0, s, w)
    | Some entry =>
        let '(global, s, w) :=
          match entry with
          | Some c => (c, s, w)
          | None =>
              let desc := DexResolver.type_of dex idx in
              if bool_decide (desc = []) then (0, (set_class (fst s) (Z.to_nat idx) 0, snd s), w)
              else
                let '(local, s, w) := findClassByDescriptor desc s w in
                let '(g, w) :=
                  if local =? 0 then (0, w)
                  else let '(g, w) := NewGlobalRef local w in (g, DeleteLocalRef local w) in
                (g, (set_class (fst s) (Z.to_nat idx) g, snd s), w)
          end in
        let '(l, w) := new_local global w in (l, s, w)
    end.

Definition findClass (type : list Z) (s : S) (w : W) : Z * S * W := findClassByDescriptor type s w.

Definition internString (utf : list Z) (s : S) (w : W) : Z * S * W :=
  let '(ok, s, w) :=
    if internMid (fst s) =? 0 then
      let '(strClass, refs, w) := FindClassRefCached (str "java/lang/String") (snd s) w in
      if strClass =? 0 then (false, (fst s, refs), w)
      else
        let '(mid, w) := GetMethodID strClass (str "intern") (str "()Ljava/lang/String;") w in
        let w := if mid =? 0 then snd (clear_exception w) else w in
        (true, (set_intern (fst s) mid, refs), w)
    else (true, s, w) in
  if negb ok then (0, s, w)
  else
    let '(local, w) := NewStringUTF utf w in
    if local =? 0 then (0, s, w)
    else if internMid (fst s) =? 0 then (local, s, w)
    else
      let '(interned, w) := CallObjectMethod local (internMid (fst s)) [] w in
      (interned, s, DeleteLocalRef local w).

Definition constantString (idx : Z) (s : S) (w : W) : Z * S * W :=
  if negb (initialized (fst s)) then (0, s, w)
  else
    match stringCache (fst s) !!z idx with
    | None => (0, s, w)
    | Some entry =>
        let '(global, s, w) :=
          match entry with
          | Some c => (c, s, w)
          | None =>
              match DexResolver.d_strings dex !!z idx with
              | None => (0, (set_string (fst s) (Z.to_nat idx) 0, snd s), w)
              | Some utf =>
                  let '(interned, s, w) := internString utf s w in
                  let '(g, w) :=
                    if interned =? 0 then (0, w)
                    else let '(g, w) := NewGlobalRef interned w in (g, DeleteLocalRef interned w) in
                  (g, (set_string (fst s) (Z.to_nat idx) g, snd s), w)
              end
          end in
        let '(l, w) := new_local global w in (l, s, w)
    end.

(** [kResolver]: the functions the interpreter calls, on the bridge that is
    active.  The world of the interpreter is the platform's with the state
    of the bridge. *)
Definition kResolver : vmResolver (W * S) :=
  let lift {A} (f : S -> W -> A * S * W) (ws : W * S) : A * (W * S) :=
    let '(a, s, w) := f (snd ws) (fst ws) in (a, (w, s)) in
  {| dvmResolveField := fun idx st => lift (resolveField idx st);
     dvmResolveMethod := fun idx st => lift (resolveMethod idx st);
     dvmResolveTypeUtf := fun idx => lift (resolveTypeUtf idx);
     dvmResolveClass := fun idx => lift (resolveClass idx);
     dvmFindClass := fun type => lift (findClass type);
     dvmConstantString := fun idx => lift (constantString idx) |}.
End Bridge.
End ResolverBridge.
