(* ===== verification/ResolverBridgeProofs.v ===== *)
(** * The interpreter's resolver: what it answers, what it remembers, and the
    references it makes

    The laws of JNI references are the class [RefLaws]: [live] is the set of
    the local references the thread owns. *)
From stdpp Require Import gmap.
From S2P Require Import Prelude.
From S2P Require Import VmEnv.
From S2P Require Import DexResolver.
From S2P Require Import ResolverBridge.
Import VmEnv.

Module ResolverBridgeProofs.
Export ClassRefs.
Export ResolverBridge.

(** A call that answers null, or a local reference that was not there. *)
Definition makes {W} (live : W -> gset Z) (w : W) (r : Z * W) : Prop :=
  (fst r = 0 /\ live (snd r) = live w) \/
  (fst r <> 0 /\ (fst r ∉ live w) /\ live (snd r) = {[fst r]} ∪ live w).
(** A call that makes and releases no local reference. *)
Definition keeps {W A} (live : W -> gset Z) (w : W) (r : A * W) : Prop := live (snd r) = live w.

Class RefLaws (W : Type) {jni : JNI W} {names : JNINames W} (live : W -> gset Z) := {
  new_local_makes o w : o <> 0 -> makes live w (NewLocalRef o w);
  find_class_makes n w : makes live w (FindClass n w);
  find_class_throws n w : fst (ExceptionCheck (snd (FindClass n w))) <> 0 -> fst (FindClass n w) = 0;
  new_string_makes s w : makes live w (NewStringUTF s w);
  call_object_makes o m a w : makes live w (CallObjectMethod o m a w);
  delete_local l w : live (DeleteLocalRef l w) = live w ∖ {[l]};
  new_global_keeps o w : keeps live w (NewGlobalRef o w);
  exception_check_keeps w : keeps live w (ExceptionCheck w);
  exception_clear_keeps w : live (ExceptionClear w) = live w;
  method_id_keeps c n s w : keeps live w (GetMethodID c n s w);
  static_method_id_keeps c n s w : keeps live w (GetStaticMethodID c n s w);
  field_id_keeps c n s w : keeps live w (GetFieldID c n s w);
  static_field_id_keeps c n s w : keeps live w (GetStaticFieldID c n s w)
}.

Section Refs.
Context {W : Type} {jni : JNI W} {names : JNINames W} (live : W -> gset Z) {laws : RefLaws W live}.

Lemma clear_exception_keeps w : keeps live w (clear_exception w).
Proof.
  unfold clear_exception, keeps. pose proof (exception_check_keeps w) as H. unfold keeps in H.
  destruct (ExceptionCheck w) as [e w1]. case_match; simpl in *; [done|]. by rewrite exception_clear_keeps.
Qed.

(** Steps a call at the head of the goal by its law. *)
Ltac by_law H x w :=
  let E := fresh "L" in pose proof H as E; unfold makes, keeps in E;
  match type of E with context [fst ?r] => destruct r as [x w] | context [snd ?r] => destruct r as [x w] end; cbn [fst snd] in E.

Definition fallback_ok (g : ClassRefs.State W) : Prop :=
  match g_classLookupFallback g with Some f => forall n w, makes live w (f n w) | None => True end.

Lemma cached_fallback g n c : fallback_ok g -> fallback_ok (cached g n c).
Proof. done. Qed.

Lemma del_new (l : Z) (L : gset Z) : l ∉ L -> ({[l]} ∪ L) ∖ {[l]} = L.
Proof. set_solver. Qed.
Lemma del_new2 (jn l : Z) (L : gset Z) : jn ∉ L -> l ∉ ({[jn]} : gset Z) ∪ L -> ({[l]} ∪ ({[jn]} ∪ L)) ∖ {[jn]} ∖ {[l]} = L.
Proof. set_solver. Qed.

Lemma load_class_keeps name g w : fallback_ok g ->
  keeps live w (load_class name g w) /\ fallback_ok (snd (fst (load_class name g w))).
Proof.
  intros Hf. unfold load_class. case_match; [by split|]. case_match; [by split|].
  by_law (new_string_makes (dots name) w) jn w1. destruct (Z.eqb_spec jn 0) as [Hjn|Hjn].
  - destruct L as [[_ L]|[? _]]; [|done].
    by_law (clear_exception_keeps w1) threw w2. destruct threw; cbn; unfold keeps; simpl; by rewrite L0, L.
  - destruct L as [[? _]|(_ & Hin & L)]; [done|].
    by_law (call_object_makes (g_appLoader g) (g_loadClassMid g) [jn] w1) l w2.
    by_law (clear_exception_keeps w2) threw w3. destruct (Z.eqb_spec l 0) as [Hl|Hl].
    + destruct L0 as [[_ L0]|[? _]]; [|done].
      assert (live (DeleteLocalRef jn w3) = live w) by (by rewrite delete_local, L1, L0, L, del_new).
      subst l. by destruct threw.
    + destruct L0 as [[? _]|(_ & Hin2 & L0)]; [done|]. rewrite L in L0, Hin2. destruct threw.
      * unfold keeps. simpl. split; [|done]. by rewrite !delete_local, L1, L0, !del_new.
      * rewrite (proj2 (Z.eqb_neq _ _) Hl).
        by_law (new_global_keeps l (DeleteLocalRef jn w3)) c w4. unfold keeps. cbn [fst snd].
        split; [|done]. by rewrite delete_local, L2, delete_local, L1, L0, del_new2.
Qed.

Lemma call_fallback_keeps name g w : fallback_ok g ->
  keeps live w (call_fallback name g w) /\ fallback_ok (snd (fst (call_fallback name g w))).
Proof.
  intros Hf. unfold call_fallback. assert (Hg := Hf). unfold fallback_ok in Hf.
  destruct (g_classLookupFallback g) as [f|] eqn:Ef; [|done].
  by_law (Hf name w) l w1. destruct (Z.eqb_spec l 0) as [Hl|Hl].
  - destruct L as [[_ L]|[? _]]; [|done]. cbn. by_law (clear_exception_keeps w1) threw w2.
    unfold keeps. simpl. by rewrite L0.
  - destruct L as [[? _]|(_ & Hin & L)]; [done|]. by_law (new_global_keeps l w1) c w2.
    assert (Hd : live (DeleteLocalRef l w2) = live w) by (by rewrite delete_local, L0, L, del_new).
    destruct (c =? 0); unfold keeps; cbn [fst snd]; [|done].
    by_law (clear_exception_keeps (DeleteLocalRef l w2)) threw w3. cbn. by split; [rewrite L1|].
Qed.

Lemma clear_exception_threw w : fst (clear_exception w) = true -> fst (ExceptionCheck w) <> 0.
Proof. unfold clear_exception. destruct (ExceptionCheck w) as [e w']. simpl. destruct (Z.eqb_spec e 0); [done|]. done. Qed.

Lemma find_class_keeps name g w : fallback_ok g ->
  keeps live w (find_class name g w) /\ fallback_ok (snd (fst (find_class name g w))).
Proof.
  intros Hf. unfold find_class. case_match; [by split|].
  pose proof (find_class_throws name w) as Hthrow. pose proof (find_class_makes name w) as L. unfold makes in L.
  destruct (FindClass name w) as [l w1]. cbn [fst snd] in *.
  pose proof (clear_exception_threw w1) as Ht.
  by_law (clear_exception_keeps w1) threw w2.
  destruct (Z.eqb_spec (if threw then 0 else l) 0) as [Hl|Hl].
  - unfold keeps; simpl. split; [|done]. rewrite L0. destruct L as [[_ L]|[H0 _]]; [done|].
    destruct threw; [exfalso; apply H0; by apply Hthrow, Ht|done].
  - destruct threw; [done|]. destruct L as [[? _]|(_ & Hin & L)]; [done|].
    by_law (new_global_keeps l w2) c w3. unfold keeps. simpl. split; [|done]. by rewrite delete_local, L1, L0, L, del_new.
Qed.

Lemma FindClassRefCached_keeps name g w : fallback_ok g ->
  keeps live w (FindClassRefCached name g w) /\ fallback_ok (snd (fst (FindClassRefCached name g w))).
Proof.
  intros Hf. unfold FindClassRefCached. case_match; [by split|].
  destruct (load_class_keeps name g w Hf) as [L Hf1]. destruct (load_class name g w) as [[[c|] g1] w1]; [by split|].
  unfold keeps in L. cbn [fst snd] in *.
  destruct (call_fallback_keeps name g1 w1 Hf1) as [L1 Hf2]. destruct (call_fallback name g1 w1) as [[[c|] g2] w2].
  - unfold keeps in *. cbn [fst snd] in *. split; [congruence|done].
  - unfold keeps in L1. cbn [fst snd] in *. destruct (find_class_keeps name g2 w2 Hf2) as [L2 Hf3].
    split; [|done]. unfold keeps in *. congruence.
Qed.

Lemma new_local_keeps_or_makes g w : makes live w (new_local g w).
Proof. unfold new_local. destruct (Z.eqb_spec g 0); [by left|by apply new_local_makes]. Qed.

Context (dex : DexResolver.Dex) (primitive_class : prim -> Z).
Abbreviation S := (ResolverBridge.S (W := W)).

(** What an operation on the bridge does: its references, and the fallback
    it leaves. *)
Definition makes_ref (w : W) (r : Z * S * W) : Prop :=
  makes live w (fst (fst r), snd r) /\ fallback_ok (snd (snd (fst r))).
Definition keeps_refs {A} (w : W) (r : A * S * W) : Prop :=
  live (snd r) = live w /\ fallback_ok (snd (snd (fst r))).

Lemma findClassByDescriptor_makes d s w : fallback_ok (snd s) -> makes_ref w (findClassByDescriptor primitive_class d s w).
Proof.
  intros Hf. destruct s as [b refs]. unfold findClassByDescriptor, makes_ref. destruct d as [|c d]; [split; [by left|done]|].
  destruct (prim_of_char c) as [q|].
  - set (g := getCacheClass _ _). pose proof (new_local_keeps_or_makes g w) as H.
    by destruct (new_local g w) as [l w1].
  - destruct (c =? ch_V); [split; [by left|done]|]. set (name := if c =? ch_array then _ else _).
    destruct (FindClassRefCached_keeps name refs w Hf) as [L Hf1]. destruct (FindClassRefCached name refs w) as [[g refs1] w1].
    unfold keeps in L. cbn [fst snd] in *. pose proof (new_local_keeps_or_makes g w1) as H.
    destruct (new_local g w1) as [l w2]. unfold makes in *. cbn [fst snd] in *. rewrite L in H. by split.
Qed.

Lemma with_class_keeps d get s w : fallback_ok (snd s) -> (forall c w, keeps live w (get c w)) ->
  keeps_refs w (with_class primitive_class d get s w).
Proof.
  intros Hf Hget. unfold with_class, keeps_refs.
  destruct (findClassByDescriptor_makes d s w Hf) as [L Hf1].
  destruct (findClassByDescriptor primitive_class d s w) as [[c s1] w1]. unfold makes in L. cbn [fst snd] in *.
  destruct (Z.eqb_spec c 0) as [Hc|Hc].
  - destruct L as [[_ L]|[? _]]; [|done]. by split.
  - destruct L as [[? _]|(_ & Hin & L)]; [done|]. pose proof (Hget c w1) as K. unfold keeps in K.
    destruct (get c w1) as [id w2]. cbn [fst snd] in *. by rewrite delete_local, K, L, del_new.
Qed.

(** A local reference becomes a global one. *)
Lemma promote_keeps l w w1 : makes live w (l, w1) ->
  live (snd (if l =? 0 then (0, w1) else let '(g, w2) := NewGlobalRef l w1 in (g, DeleteLocalRef l w2))) = live w.
Proof.
  intros L. unfold makes in L. cbn [fst snd] in L. destruct (Z.eqb_spec l 0) as [Hl|Hl].
  - destruct L as [[_ L]|[? _]]; [|done]. done.
  - destruct L as [[? _]|(_ & Hin & L)]; [done|]. pose proof (new_global_keeps l w1) as K. unfold keeps in K.
    destruct (NewGlobalRef l w1) as [g w2]. cbn [fst snd] in *. by rewrite delete_local, K, L, del_new.
Qed.

Lemma del_under (r l : Z) (L : gset Z) : l ∉ L -> r ∉ ({[l]} : gset Z) ∪ L -> ({[r]} ∪ ({[l]} ∪ L)) ∖ {[l]} = {[r]} ∪ L.
Proof. set_solver. Qed.

Lemma internString_makes utf s w : fallback_ok (snd s) -> makes_ref w (internString utf s w).
Proof.
  intros Hf. unfold internString, makes_ref.
  set (first := if internMid (fst s) =? 0 then _ else _).
  assert (H1 : live (snd first) = live w /\ fallback_ok (snd (snd (fst first)))).
  { unfold first. destruct (internMid (fst s) =? 0); [|done].
    destruct (FindClassRefCached_keeps (str "java/lang/String") (snd s) w Hf) as [L Hf1].
    destruct (FindClassRefCached _ (snd s) w) as [[g refs1] w1]. unfold keeps in L. cbn [fst snd] in *.
    destruct (g =? 0); [done|]. pose proof (method_id_keeps g (str "intern") (str "()Ljava/lang/String;") w1) as K. unfold keeps in K.
    destruct (GetMethodID g _ _ w1) as [mid w2]. cbn [fst snd] in *. split; [|done].
    destruct (mid =? 0); [|congruence]. pose proof (clear_exception_keeps w2) as K2. unfold keeps in K2. congruence. }
  clearbody first. destruct first as [[ok s1] w1]. cbn [fst snd] in *. destruct H1 as [L Hf1].
  destruct ok; cbn [negb]; [|split; [by left|done]].
  pose proof (new_string_makes utf w1) as M. unfold makes in M. destruct (NewStringUTF utf w1) as [l w2]. cbn [fst snd] in *.
  destruct (Z.eqb_spec l 0) as [Hl|Hl].
  - destruct M as [[_ M]|[? _]]; [|done]. split; [left; cbn; split; [done|congruence]|done].
  - destruct M as [[? _]|(_ & Hin & M)]; [done|]. rewrite L in *. destruct (internMid (fst s1) =? 0).
    + split; [right; done|done].
    + pose proof (call_object_makes l (internMid (fst s1)) [] w2) as K. unfold makes in K.
      destruct (CallObjectMethod l _ [] w2) as [r w3]. cbn [fst snd] in *. split; [|done]. unfold makes. cbn [fst snd].
      rewrite delete_local. rewrite M in K. destruct K as [[-> K]|(Hr & Hrin & K)].
      * left. by rewrite K, del_new.
      * right. split; [done|]. split; [set_solver|]. by rewrite K, del_under.
Qed.

Lemma resolveMethod_keeps idx st s w : fallback_ok (snd s) -> keeps_refs w (resolveMethod dex primitive_class idx st s w).
Proof.
  intros Hf. unfold resolveMethod. case_match; [done|]. destruct (methodCache (fst s) !!z idx) as [[m|]|]; [done| |done].
  case_match; [done|].
  match goal with |- context [with_class _ ?d ?get s w] => destruct (with_class_keeps d get s w Hf) as [L Hf1] end.
  { intros c w'. destruct st; [apply static_method_id_keeps|apply method_id_keeps]. }
  destruct (with_class _ _ _ s w) as [[id s1] w1]. cbn [fst snd] in *. by case_match.
Qed.

Lemma resolveField_keeps idx st s w : fallback_ok (snd s) -> keeps_refs w (resolveField dex primitive_class idx st s w).
Proof.
  intros Hf. unfold resolveField. case_match; [done|]. destruct (fieldCache (fst s) !!z idx) as [[m|]|]; [done| |done].
  case_match; [done|].
  match goal with |- context [with_class _ ?d ?get s w] => destruct (with_class_keeps d get s w Hf) as [L Hf1] end.
  { intros c w'. destruct st; [apply static_field_id_keeps|apply field_id_keeps]. }
  destruct (with_class _ _ _ s w) as [[id s1] w1]. cbn [fst snd] in *. by case_match.
Qed.

(** The reference handed out for a remembered global. *)
Lemma handout g (s : S) w w1 : live w1 = live w -> fallback_ok (snd s) ->
  makes_ref w (let '(l, w2) := new_local g w1 in (l, s, w2)).
Proof.
  intros L Hf. pose proof (new_local_keeps_or_makes g w1) as H. unfold makes_ref, makes in *.
  destruct (new_local g w1) as [l w2]. cbn [fst snd] in *. by rewrite L in H.
Qed.

Lemma resolveClass_makes idx s w : fallback_ok (snd s) -> makes_ref w (resolveClass dex primitive_class idx s w).
Proof.
  intros Hf. unfold resolveClass. case_match; [split; [by left|done]|].
  destruct (classCache (fst s) !!z idx) as [[c|]|]; [by apply handout| |split; [by left|done]].
  case_bool_decide; [by apply handout|].
  destruct (findClassByDescriptor_makes (DexResolver.type_of dex idx) s w Hf) as [M Hf1].
  destruct (findClassByDescriptor primitive_class _ s w) as [[l s1] w1]. cbn [fst snd] in *. apply promote_keeps in M.
  destruct (if l =? 0 then _ else _) as [g w2]. cbn [fst snd] in *. by apply handout.
Qed.

Lemma constantString_makes idx s w : fallback_ok (snd s) -> makes_ref w (constantString dex idx s w).
Proof.
  intros Hf. unfold constantString. case_match; [split; [by left|done]|].
  destruct (stringCache (fst s) !!z idx) as [[c|]|]; [by apply handout| |split; [by left|done]].
  destruct (DexResolver.d_strings dex !!z idx) as [utf|]; [|by apply handout].
  destruct (internString_makes utf s w Hf) as [M Hf1].
  destruct (internString utf s w) as [[l s1] w1]. cbn [fst snd] in *. apply promote_keeps in M.
  destruct (if l =? 0 then _ else _) as [g w2]. cbn [fst snd] in *. by apply handout.
Qed.

End Refs.
End ResolverBridgeProofs.
