(* ===== verification/ResolverBridgeRun.v ===== *)
(** * Sequences of resolutions

    What the bridge answers during a run of the interpreter: it describes the
    file, it does not change, and it owns its references. *)
From stdpp Require Import gmap.
From S2P Require Import Prelude.
From S2P Require Import VmEnv.
From S2P Require Import DexResolver.
From S2P Require Import ResolverBridge.
From S2P Require Import ResolverBridgeProofs.
Import VmEnv.

Module ResolverBridgeRun.
Export ResolverBridgeProofs.

(** The calls of a [vmResolver], and their answers. *)
Inductive Call :=
| ResolveField (idx : Z) (isStatic : bool)
| ResolveMethod (idx : Z) (isStatic : bool)
| ResolveTypeUtf (idx : Z)
| ResolveClass (idx : Z)
| FindClassCall (type : list Z)
| ConstantString (idx : Z).
Inductive Answer := AField (f : option vmField) | AMethod (m : option vmMethod) | AText (t : option (list Z)) | ARef (r : Z).

Section Run.
Context {W : Type} {jni : JNI W} {names : JNINames W}.
Context (dex : DexResolver.Dex) (primitive_class : prim -> Z).
Abbreviation S := (ResolverBridge.S (W := W)).

Definition perform (c : Call) (s : S) (w : W) : Answer * S * W :=
  match c with
  | ResolveField i st => let '(f, s, w) := resolveField dex primitive_class i st s w in (AField f, s, w)
  | ResolveMethod i st => let '(m, s, w) := resolveMethod dex primitive_class i st s w in (AMethod m, s, w)
  | ResolveTypeUtf i => let '(t, s, w) := resolveTypeUtf dex i s w in (AText t, s, w)
  | ResolveClass i => let '(r, s, w) := resolveClass dex primitive_class i s w in (ARef r, s, w)
  | FindClassCall t => let '(r, s, w) := findClass primitive_class t s w in (ARef r, s, w)
  | ConstantString i => let '(r, s, w) := constantString dex i s w in (ARef r, s, w)
  end.
Fixpoint perform_all (cs : list Call) (s : S) (w : W) : list Answer * S * W :=
  match cs with
  | [] => ([], s, w)
  | c :: cs =>
      let '(a, s, w) := perform c s w in
      let '(l, s, w) := perform_all cs s w in (a :: l, s, w)
  end.

(** ** The order of the caches *)

Definition kept {A} (l l' : list (option A)) : Prop := forall i x, l !! i = Some (Some x) -> l' !! i = Some (Some x).
#[local] Instance kept_preorder {A} : PreOrder (@kept A).
Proof. split; [intros l i x H; done|intros a b c H1 H2 i x H; by apply H2, H1]. Qed.
Lemma kept_insert {A} (l : list (option A)) i x : l !! i = Some None -> kept l (<[i := Some x]> l).
Proof.
  intros Hi j y Hj. destruct (decide (i = j)) as [<-|]; [congruence|]. by rewrite list_lookup_insert_ne.
Qed.

Record extends (b b' : Bridge) : Prop := {
  ext_methods : kept (methodCache b) (methodCache b'); ext_fields : kept (fieldCache b) (fieldCache b');
  ext_classes : kept (classCache b) (classCache b'); ext_strings : kept (stringCache b) (stringCache b');
  ext_initialized : initialized b' = initialized b }.
#[local] Instance extends_preorder : PreOrder extends.
Proof.
  split; [by split|]. intros a b c [] []. split; [by etransitivity..|congruence].
Qed.

(** What the file says of the cached methods and fields. *)
Definition describes_method (i : nat) (m : vmMethod) : Prop :=
  exists id, DexResolver.d_methods dex !! i = Some id /\ m_idx m = Z.of_nat i /\ m_classIdx m = U16 (DexResolver.i_class id) /\
    shorty m = DexResolver.shorty (DexResolver.method_of dex (Z.of_nat i)) /\ methodId m <> 0.
Definition describes_field (i : nat) (f : vmField) : Prop :=
  exists id, DexResolver.d_fields dex !! i = Some id /\ f_classIdx f = U16 (DexResolver.i_class id) /\
    f_type f = List.hd ch_L (DexResolver.type_of dex (DexResolver.i_second id)) /\ fieldId f <> 0.
Record bridge_ok (b : Bridge) : Prop := {
  ok_methods : forall i m, methodCache b !! i = Some (Some m) -> describes_method i m;
  ok_fields : forall i f, fieldCache b !! i = Some (Some f) -> describes_field i f }.

Definition advances (s : S) {A} (r : A * S * W) : Prop :=
  extends (fst s) (fst (snd (fst r))) /\ (bridge_ok (fst s) -> bridge_ok (fst (snd (fst r)))).
Lemma stays (s : S) {A} (r : A * S * W) : fst (snd (fst r)) = fst s -> advances s r.
Proof. unfold advances. by intros ->. Qed.

(** ** Each call *)

Lemma find_same d s w : fst (snd (fst (findClassByDescriptor primitive_class d s w))) = fst s.
Proof.
  destruct s as [b refs]. unfold findClassByDescriptor. destruct d as [|c d]; [done|].
  destruct (prim_of_char c); [by destruct (new_local _ w)|]. case_match; [done|].
  destruct (FindClassRefCached _ refs w) as [[g r1] w1]. by destruct (new_local g w1).
Qed.
Lemma with_class_same d get s w : fst (snd (fst (with_class primitive_class d get s w))) = fst s.
Proof.
  unfold with_class. pose proof (find_same d s w) as H. destruct (findClassByDescriptor _ d s w) as [[c s1] w1].
  case_match; [done|]. by destruct (get c w1).
Qed.
Lemma intern_same utf s w : exists mid, fst (snd (fst (internString utf s w))) = set_intern (fst s) mid.
Proof.
  assert (E : set_intern (fst s) (internMid (fst s)) = fst s) by (by destruct (fst s)).
  unfold internString. set (first := if internMid (fst s) =? 0 then _ else _).
  assert (exists mid, fst (snd (fst first)) = set_intern (fst s) mid) as [mid H].
  { unfold first. case_match; [|exists (internMid (fst s)); by rewrite E].
    destruct (FindClassRefCached _ (snd s) w) as [[g r1] w1]. case_match; [exists (internMid (fst s)); by rewrite E|].
    destruct (GetMethodID g _ _ w1) as [m w2]. by exists m. }
  exists mid. clearbody first. destruct first as [[ok s1] w1]. cbn [fst snd] in *. case_match; [done|].
  destruct (NewStringUTF utf w1) as [l w2]. case_match; [done|]. case_match; [done|]. by destruct (CallObjectMethod l _ [] w2).
Qed.

Lemma zlookup_nat {A} (l : list A) i x : l !!z i = Some x -> l !! Z.to_nat i = Some x /\ i = Z.of_nat (Z.to_nat i).
Proof. intros H. pose proof (zlookup_lt_Some _ _ _ H). unfold zlookup in H. case_match; [|done]. split; [done|lia]. Qed.

Lemma set_method_advances b i m : methodCache b !! i = Some None -> describes_method i m ->
  extends b (set_method b i m) /\ (bridge_ok b -> bridge_ok (set_method b i m)).
Proof.
  intros Hi Hd. split; [split; simpl; try done; by apply kept_insert|]. intros [Hm Hf]. split; simpl; [|done].
  intros j m'. destruct (decide (i = j)) as [<-|]; [|rewrite list_lookup_insert_ne by done; apply Hm].
  rewrite list_lookup_insert_eq by (by eapply lookup_lt_Some). by intros [= <-].
Qed.
Lemma set_field_advances b i f : fieldCache b !! i = Some None -> describes_field i f ->
  extends b (set_field b i f) /\ (bridge_ok b -> bridge_ok (set_field b i f)).
Proof.
  intros Hi Hd. split; [split; simpl; try done; by apply kept_insert|]. intros [Hm Hf]. split; simpl; [done|].
  intros j m'. destruct (decide (i = j)) as [<-|]; [|rewrite list_lookup_insert_ne by done; apply Hf].
  rewrite list_lookup_insert_eq by (by eapply lookup_lt_Some). by intros [= <-].
Qed.
Lemma set_class_advances b i c : classCache b !! i = Some None ->
  extends b (set_class b i c) /\ (bridge_ok b -> bridge_ok (set_class b i c)).
Proof. intros Hi. split; [split; simpl; try done; by apply kept_insert|]. by intros [Hm Hf]. Qed.
Lemma set_string_advances b i c : stringCache b !! i = Some None ->
  extends b (set_string b i c) /\ (bridge_ok b -> bridge_ok (set_string b i c)).
Proof. intros Hi. split; [split; simpl; try done; by apply kept_insert|]. by intros [Hm Hf]. Qed.

Lemma method_named i : DexResolver.method_isValid (DexResolver.method_of dex i) = true ->
  exists id, DexResolver.d_methods dex !!z i = Some id.
Proof. unfold DexResolver.method_of. destruct (DexResolver.d_methods dex !!z i) as [id|]; [by eauto|done]. Qed.
Lemma field_named i : DexResolver.field_isValid (DexResolver.field_of dex i) = true ->
  exists id, DexResolver.d_fields dex !!z i = Some id /\ DexResolver.f_type (DexResolver.field_of dex i) = DexResolver.type_of dex (DexResolver.i_second id).
Proof. unfold DexResolver.field_of. destruct (DexResolver.d_fields dex !!z i) as [id|]; [by eauto|done]. Qed.

Lemma resolveMethod_advances i st s w : advances s (resolveMethod dex primitive_class i st s w).
Proof.
  unfold resolveMethod. case_match; [by apply stays|].
  destruct (methodCache (fst s) !!z i) as [[m|]|] eqn:Ei; [by apply stays| |by apply stays].
  apply zlookup_nat in Ei as [Ei En].
  destruct (DexResolver.method_isValid _) eqn:Ev; cbn [negb]; [|by apply stays]. apply method_named in Ev as [id Hid].
  match goal with |- context [with_class _ ?d ?get s w] => pose proof (with_class_same d get s w) as Hs end.
  destruct (with_class _ _ _ s w) as [[mid s1] w1]. cbn [fst snd] in Hs. destruct (Z.eqb_spec mid 0); [by apply stays|].
  unfold advances. cbn [fst snd]. rewrite Hs. apply set_method_advances; [done|].
  rewrite Hid. apply zlookup_nat in Hid as [Hid _]. exists id. by rewrite <- En.
Qed.
Lemma resolveField_advances i st s w : advances s (resolveField dex primitive_class i st s w).
Proof.
  unfold resolveField. case_match; [by apply stays|].
  destruct (fieldCache (fst s) !!z i) as [[m|]|] eqn:Ei; [by apply stays| |by apply stays].
  apply zlookup_nat in Ei as [Ei En].
  destruct (DexResolver.field_isValid _) eqn:Ev; cbn [negb]; [|by apply stays]. apply field_named in Ev as (id & Hid & Ht).
  match goal with |- context [with_class _ ?d ?get s w] => pose proof (with_class_same d get s w) as Hs end.
  destruct (with_class _ _ _ s w) as [[fid s1] w1]. cbn [fst snd] in Hs. destruct (Z.eqb_spec fid 0); [by apply stays|].
  unfold advances. cbn [fst snd]. rewrite Hs. apply set_field_advances; [done|].
  rewrite Hid, Ht. apply zlookup_nat in Hid as [Hid _]. by exists id.
Qed.
Lemma resolveClass_advances i s w : advances s (resolveClass dex primitive_class i s w).
Proof.
  unfold resolveClass. case_match; [by apply stays|].
  destruct (classCache (fst s) !!z i) as [[c|]|] eqn:Ei; [|apply zlookup_nat in Ei as [Ei _]|by apply stays].
  - destruct (new_local c w). by apply stays.
  - case_bool_decide; [by apply set_class_advances|].
    pose proof (find_same (DexResolver.type_of dex i) s w) as Hs.
    destruct (findClassByDescriptor _ _ s w) as [[l s1] w1]. cbn [fst snd] in Hs.
    destruct (if l =? 0 then _ else _) as [g w2]. destruct (new_local g w2). unfold advances. cbn [fst snd]. rewrite Hs.
    by apply set_class_advances.
Qed.
Lemma constantString_advances i s w : advances s (constantString dex i s w).
Proof.
  unfold constantString. case_match; [by apply stays|].
  destruct (stringCache (fst s) !!z i) as [[c|]|] eqn:Ei; [|apply zlookup_nat in Ei as [Ei _]|by apply stays].
  - destruct (new_local c w). by apply stays.
  - destruct (DexResolver.d_strings dex !!z i) as [utf|]; [|by apply set_string_advances].
    destruct (intern_same utf s w) as [mid Hs].
    destruct (internString utf s w) as [[l s1] w1]. cbn [fst snd] in Hs.
    destruct (if l =? 0 then _ else _) as [g w2]. destruct (new_local g w2). unfold advances. cbn [fst snd]. rewrite Hs.
    destruct (set_string_advances (set_intern (fst s) mid) (Z.to_nat i) g Ei) as [[] Ho].
    split; [by split|]. intros [Hm Hf]. apply Ho. by split.
Qed.

Lemma perform_advances c s w : advances s (perform c s w).
Proof.
  destruct c as [i st|i st|i|i|t|i]; simpl.
  - pose proof (resolveField_advances i st s w). by destruct (resolveField _ _ i st s w) as [[??]?].
  - pose proof (resolveMethod_advances i st s w). by destruct (resolveMethod _ _ i st s w) as [[??]?].
  - unfold resolveTypeUtf. destruct (negb _); by apply stays.
  - pose proof (resolveClass_advances i s w). by destruct (resolveClass _ _ i s w) as [[??]?].
  - apply stays. pose proof (find_same t s w). unfold findClass. by destruct (findClassByDescriptor _ t s w) as [[??]?].
  - pose proof (constantString_advances i s w). by destruct (constantString _ i s w) as [[??]?].
Qed.
Lemma perform_all_advances cs : forall s w, advances s (perform_all cs s w).
Proof.
  induction cs as [|c cs IH]; intros s w; [by apply stays|]. simpl. destruct (perform_advances c s w) as [He Ho].
  destruct (perform c s w) as [[a s1] w1]. destruct (IH s1 w1) as [He' Ho'].
  destruct (perform_all cs s1 w1) as [[l s2] w2]. unfold advances. cbn [fst snd] in *. split; [by etransitivity|auto].
Qed.

(** ** What was answered stays answered *)

Definition started (b : Bridge) : Prop := init dex true fresh_bridge = (true, b).

Lemma started_ok b : started b -> bridge_ok b.
Proof.
  intros H. injection H as <-. split; simpl; intros i x [Hx _]%lookup_replicate; discriminate.
Qed.
Lemma started_initialized b : started b -> initialized b = true.
Proof. intros H. by injection H as <-. Qed.

Lemma method_cached i st s w m s1 w1 : resolveMethod dex primitive_class i st s w = (Some m, s1, w1) ->
  initialized (fst s1) = true /\ methodCache (fst s1) !! Z.to_nat i = Some (Some m) /\ 0 <= i.
Proof.
  intros H. pose proof (resolveMethod_advances i st s w) as [He _]. rewrite H in He. cbn [fst snd] in He.
  rewrite (ext_initialized _ _ He). revert H. unfold resolveMethod. destruct (initialized (fst s)); [|done]. cbn [negb].
  destruct (methodCache (fst s) !!z i) as [e|] eqn:Ei; [|done].
  pose proof (zlookup_lt_Some _ _ _ Ei). apply zlookup_nat in Ei as [Ei _]. destruct e as [m'|].
  - intros [= -> -> _]. split; [done|]. split; [done|lia].
  - case_match; [done|].
    match goal with |- context [with_class _ ?d ?get s w] => pose proof (with_class_same d get s w) as Hs end.
    destruct (with_class _ _ _ s w) as [[mid s'] w']. cbn [fst snd] in Hs. case_match; [done|].
    intros [= <- <- _]. cbn [fst snd]. rewrite Hs. simpl. rewrite list_lookup_insert_eq by (by eapply lookup_lt_Some).
    split; [done|]. split; [done|lia].
Qed.
Lemma field_cached i st s w f s1 w1 : resolveField dex primitive_class i st s w = (Some f, s1, w1) ->
  initialized (fst s1) = true /\ fieldCache (fst s1) !! Z.to_nat i = Some (Some f) /\ 0 <= i.
Proof.
  intros H. pose proof (resolveField_advances i st s w) as [He _]. rewrite H in He. cbn [fst snd] in He.
  rewrite (ext_initialized _ _ He). revert H. unfold resolveField. destruct (initialized (fst s)); [|done]. cbn [negb].
  destruct (fieldCache (fst s) !!z i) as [e|] eqn:Ei; [|done].
  pose proof (zlookup_lt_Some _ _ _ Ei). apply zlookup_nat in Ei as [Ei _]. destruct e as [f'|].
  - intros [= -> -> _]. split; [done|]. split; [done|lia].
  - case_match; [done|].
    match goal with |- context [with_class _ ?d ?get s w] => pose proof (with_class_same d get s w) as Hs end.
    destruct (with_class _ _ _ s w) as [[mid s'] w']. cbn [fst snd] in Hs. case_match; [done|].
    intros [= <- <- _]. cbn [fst snd]. rewrite Hs. simpl. rewrite list_lookup_insert_eq by (by eapply lookup_lt_Some).
    split; [done|]. split; [done|lia].
Qed.

Lemma remembers_method cs i st s w m s1 w1 : resolveMethod dex primitive_class i st s w = (Some m, s1, w1) ->
  let '(_, s2, w2) := perform_all cs s1 w1 in
  forall st' w', resolveMethod dex primitive_class i st' s2 w' = (Some m, s2, w').
Proof.
  intros (Hi & Hm & Hpos)%method_cached. pose proof (perform_all_advances cs s1 w1) as [He _].
  destruct (perform_all cs s1 w1) as [[l s2] w2]. cbn [fst snd] in He. intros st' w'. unfold resolveMethod.
  rewrite (ext_initialized _ _ He), Hi. cbn [negb]. unfold zlookup. destruct (Z.leb_spec 0 i); [|lia].
  by rewrite (ext_methods _ _ He _ _ Hm).
Qed.
Lemma remembers_field cs i st s w f s1 w1 : resolveField dex primitive_class i st s w = (Some f, s1, w1) ->
  let '(_, s2, w2) := perform_all cs s1 w1 in
  forall st' w', resolveField dex primitive_class i st' s2 w' = (Some f, s2, w').
Proof.
  intros (Hi & Hm & Hpos)%field_cached. pose proof (perform_all_advances cs s1 w1) as [He _].
  destruct (perform_all cs s1 w1) as [[l s2] w2]. cbn [fst snd] in He. intros st' w'. unfold resolveField.
  rewrite (ext_initialized _ _ He), Hi. cbn [negb]. unfold zlookup. destruct (Z.leb_spec 0 i); [|lia].
  by rewrite (ext_fields _ _ He _ _ Hm).
Qed.

(** A class or string that has been asked for is a global reference [g] from
    then on, null when it was not found. *)
Lemma remembers_class cs i s w : initialized (fst s) = true -> 0 <= i < Z.of_nat (length (classCache (fst s))) ->
  let '(r, s1, w1) := resolveClass dex primitive_class i s w in
  exists g, (g = 0 -> r = 0) /\
    let '(_, s2, w2) := perform_all cs s1 w1 in
    forall w', resolveClass dex primitive_class i s2 w' = (let '(l, w'') := new_local g w' in (l, s2, w'')).
Proof.
  intros Hinit Hi. pose proof (resolveClass_advances i s w) as [He _].
  assert (H1 : let '(r, s1, w1) := resolveClass dex primitive_class i s w in
    exists g, (g = 0 -> r = 0) /\ classCache (fst s1) !! Z.to_nat i = Some (Some g)).
  { unfold resolveClass. rewrite Hinit. cbn [negb].
    destruct (zlookup_is_Some (classCache (fst s)) i Hi) as [e Ee]. rewrite Ee. apply zlookup_nat in Ee as [Ee _].
    assert (Hl : (Z.to_nat i < length (classCache (fst s)))%nat) by lia. destruct e as [g|].
    - unfold new_local. destruct (Z.eqb_spec g 0); [by exists g|]. destruct (NewLocalRef g w). by exists g.
    - case_bool_decide.
      + exists 0. split; [done|]. simpl. by rewrite list_lookup_insert_eq.
      + pose proof (find_same (DexResolver.type_of dex i) s w) as Hs.
        destruct (findClassByDescriptor _ _ s w) as [[l s'] w']. cbn [fst snd] in Hs.
        destruct (if l =? 0 then _ else _) as [g w2]. rewrite Hs. unfold new_local.
        assert (classCache (set_class (fst s) (Z.to_nat i) g) !! Z.to_nat i = Some (Some g)) by (simpl; by rewrite list_lookup_insert_eq).
        destruct (Z.eqb_spec g 0); [by exists g|]. destruct (NewLocalRef g w2). by exists g. }
  destruct (resolveClass _ _ i s w) as [[r s1] w1]. cbn [fst snd] in He. destruct H1 as (g & Hg & Hc). exists g. split; [done|].
  pose proof (perform_all_advances cs s1 w1) as [He' _]. destruct (perform_all cs s1 w1) as [[l s2] w2]. cbn [fst snd] in He'.
  intros w'. unfold resolveClass. rewrite (ext_initialized _ _ He'), (ext_initialized _ _ He), Hinit. cbn [negb].
  unfold zlookup. destruct (Z.leb_spec 0 i); [|lia]. by rewrite (ext_classes _ _ He' _ _ Hc).
Qed.
End Run.


(** ** References *)

(** The references among the answers. *)
Definition refs_of (l : list Answer) : list Z := omap (fun a => match a with ARef r => if r =? 0 then None else Some r | _ => None end) l.

Section Accounting.
Context {W : Type} {jni : JNI W} {names : JNINames W} (live : W -> gset Z) {laws : RefLaws W live}.
Context (dex : DexResolver.Dex) (primitive_class : prim -> Z).

Definition accounted (w : W) (refs : list Z) (w' : W) : Prop :=
  live w' = list_to_set refs ∪ live w /\ NoDup refs /\ (forall r, r ∈ refs -> r ∉ live w).

Lemma accounted_keeps w w' : live w' = live w -> accounted w [] w'.
Proof. intros H. split; [rewrite H; set_solver|]. split; [constructor|set_solver]. Qed.
Lemma accounted_makes w r w' : makes live w (r, w') -> accounted w (refs_of [ARef r]) w'.
Proof.
  intros [[E H]|(Hr & Hin & H)]; cbn [fst snd] in *; unfold refs_of; simpl.
  - subst. by apply accounted_keeps.
  - rewrite (proj2 (Z.eqb_neq _ _) Hr). split; [rewrite H; set_solver|]. split; [by apply stdpp.list_relations.list.NoDup_singleton|set_solver].
Qed.
Lemma accounted_app w l1 w1 l2 w2 : accounted w l1 w1 -> accounted w1 l2 w2 -> accounted w (l1 ++ l2) w2.
Proof.
  intros (E1 & N1 & D1) (E2 & N2 & D2). split; [rewrite E2, E1, list_to_set_app_L; set_solver|].
  split; [|set_solver]. apply stdpp.list_relations.list.NoDup_app. split; [done|]. split; [|done]. intros x Hx Hx2. apply (D2 x Hx2). set_solver.
Qed.

Lemma perform_accounted c s w : fallback_ok live (snd s) ->
  let '(a, s', w') := perform dex primitive_class c s w in fallback_ok live (snd s') /\ accounted w (refs_of [a]) w'.
Proof.
  intros Hf. destruct c as [i st|i st|i|i|t|i]; simpl.
  - pose proof (resolveField_keeps live dex primitive_class i st s w Hf) as [L F].
    destruct (resolveField _ _ i st s w) as [[??]?]. split; [done|by apply accounted_keeps].
  - pose proof (resolveMethod_keeps live dex primitive_class i st s w Hf) as [L F].
    destruct (resolveMethod _ _ i st s w) as [[??]?]. split; [done|by apply accounted_keeps].
  - unfold resolveTypeUtf. destruct (negb _); (split; [done|by apply accounted_keeps]).
  - pose proof (resolveClass_makes live dex primitive_class i s w Hf) as [L F].
    destruct (resolveClass _ _ i s w) as [[??]?]. split; [done|by apply accounted_makes].
  - pose proof (findClassByDescriptor_makes live primitive_class t s w Hf) as [L F]. unfold findClass.
    destruct (findClassByDescriptor _ t s w) as [[??]?]. split; [done|by apply accounted_makes].
  - pose proof (constantString_makes live dex i s w Hf) as [L F].
    destruct (constantString _ i s w) as [[??]?]. split; [done|by apply accounted_makes].
Qed.

Lemma perform_all_accounted cs : forall s w, fallback_ok live (snd s) ->
  let '(answers, _, w') := perform_all dex primitive_class cs s w in accounted w (refs_of answers) w'.
Proof.
  induction cs as [|c cs IH]; intros s w Hf; simpl; [by apply accounted_keeps|].
  pose proof (perform_accounted c s w Hf) as Hc. destruct (perform dex primitive_class c s w) as [[a s1] w1]. destruct Hc as [Hf1 Ha].
  specialize (IH s1 w1 Hf1). destruct (perform_all _ _ cs s1 w1) as [[l s2] w2].
  change (a :: l) with ([a] ++ l). unfold refs_of in *. rewrite omap_app. by apply (accounted_app w _ w1).
Qed.
End Accounting.

(** C19: the resolver gives its references away and keeps none.  Under the laws
    of JNI, after any calls the thread owns exactly the local references it
    had and those the calls have answered, all of them different: every class
    and every string that was made on the way has been released, whatever
    the class loader, the fallback and FindClass answered, thrown exceptions
    included. *)
Theorem bridge_references {W} {jni : JNI W} {names : JNINames W} (live : W -> gset Z) {laws : RefLaws W live}
    dex primitive_class cs s w :
  fallback_ok live (snd s) ->
  let '(answers, s', w') := perform_all dex primitive_class cs s w in
  live w' = list_to_set (refs_of answers) ∪ live w /\ NoDup (refs_of answers) /\
  (forall r, r ∈ refs_of answers -> r ∉ live w).
Proof.
  apply (perform_all_accounted live dex primitive_class cs s w).
Qed.

(** ** A platform *)

(** The world is the list of live local references; a class is known by its
    name, which is 100 and its length; nothing throws. *)
Definition RefWorld := list Z.
Definition new_ref (w : RefWorld) : Z * RefWorld := let r := 1 + foldr Z.max 0 w in (r, r :: w).
Definition drop_ref (r : Z) (w : RefWorld) : RefWorld := filter (fun x => x <> r) w.

#[export] Instance ref_jni : JNI RefWorld := {|
  NewLocalRef _ w := new_ref w;
  DeleteLocalRef o w := drop_ref o w;
  IsSameObject a b w := ((if a =? b then 1 else 0), w);
  IsInstanceOf a b w := ((if a =? b then 1 else 0), w);
  AllocObject _ w := new_ref w;
  MonitorEnter _ w := (JNI_OK, w);
  MonitorExit _ w := (JNI_OK, w);
  ExceptionOccurred w := (0, w);
  ExceptionClear w := w;
  ExceptionCheck w := (0, w);
  Throw _ w := w;
  ThrowNew _ _ w := w;
  GetArrayLength _ w := (0, w);
  NewPrimArray _ _ w := new_ref w;
  NewObjectArray _ _ _ w := new_ref w;
  GetObjectArrayElement _ _ w := new_ref w;
  SetObjectArrayElement _ _ _ w := w;
  GetArrayRegion1 _ _ _ w := (None, w);
  SetArrayRegion1 _ _ _ _ w := w;
  GetPrimitiveArrayCritical _ w := (Some [], w);
  ReleasePrimitiveArrayCritical _ _ _ w := w;
  GetField _ _ f w := (f, w);
  SetField _ _ _ _ w := w;
  GetStaticField _ _ f w := (f, w);
  SetStaticField _ _ _ _ w := w;
  CallMethodA _ _ _ _ _ w := (0, w)
|}.
#[export] Instance ref_names : JNINames RefWorld := {|
  FindClass n w := new_ref w;
  NewGlobalRef o w := (o + 5000, w);
  DeleteGlobalRef _ w := w;
  GetMethodID c n s w := (Z.of_nat (length s) + 7000, w);
  GetStaticMethodID c n s w := (Z.of_nat (length s) + 7000, w);
  GetFieldID c n s w := (Z.of_nat (length s) + 8000, w);
  GetStaticFieldID c n s w := (Z.of_nat (length s) + 8000, w);
  NewStringUTF _ w := new_ref w;
  CallObjectMethod _ _ _ w := new_ref w
|}.
Definition ref_live (w : RefWorld) : gset Z := list_to_set w.

Lemma new_ref_makes w : makes ref_live w (new_ref w).
Proof.
  right. unfold new_ref, ref_live. cbn [fst snd].
  assert (Hmax : forall x, x ∈ w -> x <= foldr Z.max 0 w).
  { induction w as [|y w IH]; intros x [->|Hx]%elem_of_cons || (intros x Hx; by apply elem_of_nil in Hx); simpl; [lia|].
    specialize (IH _ Hx). lia. }
  assert (H0 : 0 <= foldr Z.max 0 w) by (clear; induction w; simpl; lia).
  split; [lia|]. split; [|done]. rewrite elem_of_list_to_set. intros Hx%Hmax. lia.
Qed.

#[export] Instance ref_laws : RefLaws RefWorld ref_live.
Proof.
  split; try done; intros; try apply new_ref_makes.
  apply set_eq. intros x. change (DeleteLocalRef l w) with (drop_ref l w). unfold ref_live, drop_ref.
  rewrite elem_of_difference, !elem_of_list_to_set, elem_of_singleton.
  pose proof (list_elem_of_filter (fun x => x <> l) w x). tauto.
Qed.

(** A file of one class with a method and a field. *)
Definition small_dex : DexResolver.Dex := DexResolver.MkDex
  [str "La/B;"; str "I"; str "run"; str "x"] [0; 1] [DexResolver.MkProto 1 1 []]
  [DexResolver.MkId 0 1 3] [DexResolver.MkId 0 0 2].
Definition small_refs : ClassRefs.State RefWorld := ClassRefs.MkState ∅ 40 41 None 1.
Definition small_bridge : Bridge := snd (init small_dex true fresh_bridge).


Lemma bridge_references_witness :
  let '(answers, _, w') := perform_all small_dex (fun _ => 9) [ResolveClass 0; ResolveMethod 0 false; ConstantString 2; ResolveClass 0]
    (small_bridge, small_refs) [3] in
  ref_live w' = list_to_set (refs_of answers) ∪ ref_live [3] /\ length (refs_of answers) = 3%nat.
Proof.
  pose proof (bridge_references ref_live small_dex (fun _ => 9)
    [ResolveClass 0; ResolveMethod 0 false; ConstantString 2; ResolveClass 0] (small_bridge, small_refs) [3] I) as H.
  destruct (perform_all _ _ _ _ _) as [[a s] w] eqn:E. destruct H as [H _]. split; [exact H|].
  vm_compute in E. by injection E as <- <- <-.
Defined.

End ResolverBridgeRun.
