(* ===== verification/InterpTrace.v ===== *)
(** * The instruction log (src/sandbox/pi_interp_tracer.cpp)

    The hook the interpreter calls before each instruction: which registers
    a line of the log shows, and when a line is written - before the
    instruction, or after it with the registers it leaves.

    An instruction is the code units from it on; [None] is a read outside
    them.  The rendering of values and the logger are the class [Log] over
    an abstract world. *)
From stdpp Require Import sorting.
From S2P Require Import Prelude.
From S2P Require Import DexResolver.
Local Open Scope cint_scope.

Module InterpTrace.

(** ** Registers of an instruction *)

Inductive RegFmt :=
  FMT_NONE | FMT_12x | FMT_11x | FMT_11n | FMT_21x | FMT_22x | FMT_22b | FMT_22r | FMT_23x | FMT_32x | FMT_35c | FMT_3rc.
Definition times (n : nat) (f : RegFmt) : list RegFmt := replicate n f.
Definition kOpcodeFmt : list RegFmt :=
  (* 00 *) [FMT_NONE; FMT_12x; FMT_22x; FMT_32x; FMT_12x; FMT_22x; FMT_32x; FMT_12x; FMT_22x; FMT_32x] ++
           times 4 FMT_11x ++ [FMT_NONE; FMT_11x] ++
  (* 10 *) times 3 FMT_11x ++ [FMT_11n] ++ times 12 FMT_21x ++
  (* 20 *) [FMT_22r; FMT_12x; FMT_21x; FMT_22r; FMT_35c; FMT_3rc; FMT_21x; FMT_11x; FMT_NONE; FMT_NONE; FMT_NONE; FMT_21x; FMT_21x] ++
  (* 2d *) times 5 FMT_23x ++
  (* 32 *) times 6 FMT_22r ++
  (* 38 *) times 6 FMT_21x ++
  (* 3e *) times 6 FMT_NONE ++
  (* 44 *) times 14 FMT_23x ++
  (* 52 *) times 14 FMT_22r ++
  (* 60 *) times 14 FMT_21x ++
  (* 6e *) times 5 FMT_35c ++ [FMT_NONE] ++
  (* 74 *) times 5 FMT_3rc ++ times 2 FMT_NONE ++
  (* 7b *) times 21 FMT_12x ++
  (* 90 *) times 32 FMT_23x ++
  (* b0 *) times 32 FMT_12x ++
  (* d0 *) times 8 FMT_22r ++
  (* d8 *) times 11 FMT_22b ++
  (* e3 *) times 23 FMT_NONE ++
  (* fa *) [FMT_35c; FMT_3rc; FMT_35c; FMT_3rc; FMT_21x; FMT_21x].

Definition isWideValueOpcode (opcode : Z) : bool :=
  if (0x04 <=? opcode) && (opcode <=? 0x06) then true
  else if existsb (Z.eqb opcode) [0x0b; 0x10; 0x16; 0x17; 0x18; 0x19; 0x45; 0x4c; 0x53; 0x5a; 0x61; 0x65; 0x7d; 0x7e; 0x86; 0x8c]
  then true
  else (0x9b <=? opcode) && (opcode <=? 0x9f) || (0xbb <=? opcode) && (opcode <=? 0xbf).
Definition isInvokeOpcode (opcode : Z) : bool :=
  (0x6e <=? opcode) && (opcode <=? 0x72) || (0x74 <=? opcode) && (opcode <=? 0x78)
  || (opcode =? 0x24) || (opcode =? 0x25).

(** [regs5]: the registers of a register list, in order. *)
Definition regs5 (u0 u2 : Z) : list Z :=
  [u2 & 0xF; (u2 >> 4) & 0xF; (u2 >> 8) & 0xF; (u2 >> 12) & 0xF; (u0 >> 8) & 0xF].

(** [tmp], before it is sorted; no more than eight registers. *)
Definition named_regs (insn : list Z) : option (list Z) :=
  u0 ← insn !!z 0;
  match nth (Z.to_nat (u0 & 0xFF)) kOpcodeFmt FMT_NONE with
  | FMT_12x | FMT_22r => Some [(u0 >> 8) & 0xF; (u0 >> 12) & 0xF]
  | FMT_11n => Some [(u0 >> 8) & 0xF]
  | FMT_11x | FMT_21x => Some [(u0 >> 8) & 0xFF]
  | FMT_22x | FMT_22b => u1 ← insn !!z 1; Some [(u0 >> 8) & 0xFF; u1 & 0xFF]
  | FMT_23x => u1 ← insn !!z 1; Some [(u0 >> 8) & 0xFF; u1 & 0xFF; (u1 >> 8) & 0xFF]
  | FMT_32x => u1 ← insn !!z 1; u2 ← insn !!z 2; Some [u1; u2]
  | FMT_35c => u2 ← insn !!z 2; Some (take (Z.to_nat ((u0 >> 12) & 0xF)) (regs5 u0 u2))
  | FMT_3rc =>
      let count := (u0 >> 8) & 0xFF in
      u2 ← insn !!z 2;
      Some (take 8 (List.map (fun i => U16 (u2 + i)) (seqZ 0 count)))
  | FMT_NONE => Some []
  end.

(** The loop after the sort: no repetition, no register outside the frame,
    at most [outCap]; [prev] is [tmp[i - 1]]. *)
Fixpoint distinct_below (prev : option Z) (tmp : list Z) (regsSize : Z) (outCap : nat) : list Z :=
  match tmp with
  | [] => []
  | r :: tmp =>
      if bool_decide (prev = Some r) then distinct_below (Some r) tmp regsSize outCap
      else if regsSize <=? r then distinct_below (Some r) tmp regsSize outCap
      else match outCap with O => [] | S cap => r :: distinct_below (Some r) tmp regsSize cap end
  end.
Definition collectUsedRegs (insn : list Z) (regsSize : Z) (outCap : nat) : option (list Z) :=
  tmp ← named_regs insn; Some (distinct_below None (merge_sort Z.le tmp) regsSize outCap).

(** [slots] and their number; at most sixteen. *)
Definition invoke_slots (isRange : bool) (insn : list Z) : option (list Z) :=
  u0 ← insn !!z 0;
  u2 ← insn !!z 2;
  Some (if isRange then take 16 (List.map (fun i => U16 (u2 + i)) (seqZ 0 ((u0 >> 8) & 0xFF)))
        else take (Z.to_nat ((u0 >> 12) & 0xF)) (regs5 u0 u2)).
(** What [dex->methodShorty] gives; null is [None]. *)
Definition methodShorty (dex : DexResolver.Dex) (idx : Z) : option (list Z) :=
  m ← DexResolver.d_methods dex !!z idx;
  p ← DexResolver.d_protos dex !!z (DexResolver.i_second m);
  DexResolver.d_strings dex !!z (DexResolver.p_shorty p).

(** The loop over the slots; [shorty] is what [p] points to, [first] the
    receiver's slot.  A register outside the frame is skipped, and its
    parameter is not consumed. *)
Fixpoint invoke_regs (first : bool) (slots : list Z) (regsSize : Z) (shorty : list Z) (outCap : nat) : list (Z * bool) :=
  match outCap, slots with
  | O, _ | _, [] => []
  | S cap, r :: rest =>
      if regsSize <=? r then invoke_regs false rest regsSize shorty outCap
      else if first then (r, false) :: invoke_regs false rest regsSize shorty cap
      else match shorty with
           | c :: shorty =>
               if (c =? 74) || (c =? 68) then
                 (r, true) :: match rest with [] => [] | _ :: rest => invoke_regs false rest regsSize shorty cap end
               else (r, false) :: invoke_regs false rest regsSize shorty cap
           | [] => (r, false) :: invoke_regs false rest regsSize [] cap
           end
  end.
Definition collectInvokeRegs (insn : list Z) (opcode regsSize : Z) (dex : option DexResolver.Dex) (outCap : nat)
  : option (list (Z * bool)) :=
  let isRange := (0x74 <=? opcode) && (opcode <=? 0x78) || (opcode =? 0x25) in
  let isStatic := (opcode =? 0x71) || (opcode =? 0x77) in
  methodIdx ← insn !!z 1;
  slots ← invoke_slots isRange insn;
  let shorty := match dex with Some d => methodShorty d methodIdx | None => None end in
  Some (invoke_regs (negb isStatic) slots regsSize (drop 1 (default [] shorty)) outCap).

(** ** The hook *)

(** One register of a line: its number, its 64 bits, and how it is shown. *)
Inductive Shown := ShownValue | ShownObject | ShownWide.
Class Log (W : Type) := {
  log_line : Z -> Z -> list (Z * Z * Shown) -> W -> W;
  UnifiedCallDepth : W -> Z
}.

Record TraceContext := MkTrace {
  active : bool; dumpAfter : bool; insnsBase : list Z; regsSize : Z; insnsTraced : Z; dex : option DexResolver.Dex;
  hasPending : bool; pendingPc : Z; pendingDepth : Z }.
Definition no_trace : TraceContext := MkTrace false true [] 0 0 None false 0 0.
Definition kMaxInsnsPerRun : Z := 4000.
Definition kMaxRegsPerLine : nat := 10.

Definition set_pending (ctx : TraceContext) (p : bool) (pcOffset depth : Z) : TraceContext :=
  MkTrace (active ctx) (dumpAfter ctx) (insnsBase ctx) (regsSize ctx) (insnsTraced ctx) (dex ctx) p pcOffset depth.
Definition clear_pending (ctx : TraceContext) : TraceContext := set_pending ctx false (pendingPc ctx) (pendingDepth ctx).
Definition count_insn (ctx : TraceContext) : TraceContext :=
  MkTrace (active ctx) (dumpAfter ctx) (insnsBase ctx) (regsSize ctx) (U32 (insnsTraced ctx + 1)) (dex ctx)
    (hasPending ctx) (pendingPc ctx) (pendingDepth ctx).

Section Hook.
Context {W : Type} {log : Log W}.

(** The value of a register, with its flag if it is not shown as wide. *)
Definition shown (useRegs useFlags : list Z) (wide : bool) (r : Z) : option (Z * Z * Shown) :=
  v ← useRegs !!z r;
  if wide then Some (r, v, ShownWide)
  else flag ← useFlags !!z r; Some (r, v, if flag =? 0 then ShownValue else ShownObject).

Definition line_regs (ctx : TraceContext) (insn : list Z) (useRegs useFlags : list Z) : option (list (Z * Z * Shown)) :=
  u0 ← insn !!z 0;
  let opcode := u0 & 0xFF in
  if isInvokeOpcode opcode then
    refs ← collectInvokeRegs insn opcode (regsSize ctx) (dex ctx) 16;
    mapM (fun r => shown useRegs useFlags (snd r) (fst r)) refs
  else
    regs ← collectUsedRegs insn (regsSize ctx) kMaxRegsPerLine;
    mapM (shown useRegs useFlags (isWideValueOpcode opcode)) regs.
Definition emitTracedInstruction (ctx : TraceContext) (pcOffset depth : Z) (useRegs useFlags : list Z) (w : W) : option W :=
  if pcOffset <? 0 then None
  else
    regs ← line_regs ctx (drop (Z.to_nat pcOffset) (insnsBase ctx)) useRegs useFlags;
    Some (log_line pcOffset depth regs w).

(** The previous instruction is written with the registers of now. *)
Definition flush (ctx : TraceContext) (regs regFlags : list Z) (w : W) : option (TraceContext * W) :=
  if hasPending ctx then
    w ← emitTracedInstruction ctx (pendingPc ctx) (pendingDepth ctx) regs regFlags w;
    Some (clear_pending ctx, w)
  else Some (ctx, w).
Definition vmTraceHookImpl (pcOffset : Z) (regs regFlags : list Z) (ctx : TraceContext) (w : W) : option (TraceContext * W) :=
  if negb (active ctx) then Some (ctx, w)
  else
    '(ctx, w) ← flush ctx regs regFlags w;
    if kMaxInsnsPerRun <=? insnsTraced ctx then
      Some (if insnsTraced ctx =? kMaxInsnsPerRun then count_insn ctx else ctx, w)
    else
      let ctx := count_insn ctx in
      u0 ← insnsBase ctx !!z pcOffset;
      let depth := UnifiedCallDepth w in
      if negb (dumpAfter ctx) || isInvokeOpcode (u0 & 0xFF) then
        w ← emitTracedInstruction ctx pcOffset depth regs regFlags w; Some (ctx, w)
      else Some (set_pending ctx true pcOffset depth, w).

(** The guard of a run: what [t_trace] is during it, and after it. *)
Definition trace_enter (dumpRegsAfter : bool) (insnsBase : list Z) (regsSize : Z) (dex : option DexResolver.Dex) : TraceContext :=
  MkTrace true dumpRegsAfter insnsBase regsSize 0 dex false 0 0.
Definition trace_leave (saved ctx : TraceContext) (regs regFlags : list Z) (w : W) : option (TraceContext * W) :=
  '(_, w) ← flush ctx regs regFlags w;
  Some (if active saved then saved else no_trace, w).

End Hook.

End InterpTrace.
