(* ===== verification/InterpSession.v ===== *)
(** * Sandbox sessions (src/sandbox/pi_interp_tracer.cpp and .h)

    The tracer the executor installs into the interpreter: the instruction
    budget, the hand-off, what may be stepped into, and the user's callbacks.

    The interpreter runs in a [World]: the platform's, with the state of the
    thread and of the class and resolver caches, the session of the frame
    being interpreted, and whether something went wrong that the program
    does not survive ([fault]).  A vector used as a stack is a list whose
    head is its back.  Callbacks act on the platform only.

    [ArtRuntime]: what is asked of ART objects and of the native bridge.
    [mem], at address [base], is the memory code items lie in. *)
From stdpp Require Import gmap.
From S2P Require Import Prelude.
From S2P Require Import Memory.
From S2P Require Import VmEnv.
From S2P Require Import VmInvoke.
From S2P Require Import CodeProvider.
From S2P Require Import DexResolver.
From S2P Require Import ResolverBridge.
From S2P Require Import InterpSig.
From S2P Require Import InterpTrace.
Import Memory VmEnv VmInvoke CodeProvider ClassRefs InterpSig InterpTrace.
Local Open Scope cint_scope.

Class ArtRuntime (W : Type) := {
  ArtMethod_Require : Z -> list Z -> list Z -> bool -> W -> Z * W;
  AccessFlags : Z -> W -> Z;
  EntryPointFromJni : Z -> W -> Z;
  initFromMethod : Z -> W -> option (Z * DexResolver.Dex * bool);
  resolveNativeTarget : Z -> list Z -> list Z -> list Z -> W -> bool * Z * W;
  dispatchToNative : Z -> Z -> list Z -> list Z -> Z -> Z -> W -> Z * bool * W
}.

Module InterpSession.

(** ** Events, callbacks, options *)

Inductive InvokeVerdict := JniDirect | StepIn | Mock.
#[export] Instance InvokeVerdict_eq_dec : EqDecision InvokeVerdict.
Proof. solve_decision. Defined.

Record InsnEvent := MkInsnEvent {
  ie_artMethod : Z; ie_depth : Z; ie_pc : Z; ie_inst : Z; ie_insns_executed : Z;
  ie_regs : list Z; ie_regFlags : list Z; ie_regsSize : Z }.
Record InvokeEvent := MkInvokeEvent {
  className : list Z; methodName : list Z; signature : list Z; isStatic : bool; isNative : bool;
  artMethod : Z; receiver : Z; argc : Z; ev_args : list Z; ev_depth : Z }.
Definition with_args (ev : InvokeEvent) (args : list Z) : InvokeEvent :=
  MkInvokeEvent (className ev) (methodName ev) (signature ev) (isStatic ev) (isNative ev) (artMethod ev)
    (receiver ev) (argc ev) args (ev_depth ev).
Record ExceptionEvent := MkExceptionEvent { ee_depth : Z; exception : Z; throwPc : Z; catchPc : Z }.

(** [cb_onInvoke] returns the verdict, [*mockRet] and what it left in the
    live arguments. *)
Record Callbacks (W : Type) := MkCallbacks {
  cb_onInsn : option (InsnEvent -> W -> bool * W);
  cb_onInvoke : option (InvokeEvent -> W -> InvokeVerdict * Z * list Z * W);
  cb_onInvokePost : option (InvokeEvent -> Z -> bool -> W -> W);
  cb_onException : option (ExceptionEvent -> W -> W)
}.
Arguments cb_onInsn {W}. Arguments cb_onInvoke {W}. Arguments cb_onInvokePost {W}. Arguments cb_onException {W}.

Record Options := MkOptions {
  max_instructions : Z; step_in_enabled : bool; max_depth : Z; log_instructions : bool;
  enable_native_step_in : bool; safe_handoff : bool }.
Definition kDefaultOpts : Options := MkOptions (-1) false 8 false false false.

Inductive Status := OK | NO_CODE | RESOLVE_FAIL | UNSUPPORTED | PACK_FAIL | ABORTED | ERROR.
#[export] Instance Status_eq_dec : EqDecision Status.
Proof. solve_decision. Defined.
(** [value] is the union's eight bytes. *)
Record RunResult := MkRunResult {
  status : Status; exceptionPending : bool; handoff : bool; isVoid : bool; isWide : bool; isObject : bool;
  value : Z; objectResult : Z }.

(** ** The session and the world *)

Record Session (W : Type) := MkSession {
  s_dex : option DexResolver.Dex; s_cbs : option (Callbacks W); s_opts : option Options; s_filter : option FilterOptions;
  s_depth : Z; frameArtMethod : Z; budgetUsed : Z; aborted : bool; handoffHit : bool }.
Arguments MkSession {W}. Arguments s_dex {W}. Arguments s_cbs {W}. Arguments s_opts {W}. Arguments s_filter {W}.
Arguments s_depth {W}. Arguments frameArtMethod {W}. Arguments budgetUsed {W}. Arguments aborted {W}. Arguments handoffHit {W}.

Inductive Fault := UndefinedBehaviour | NoFuel.
#[export] Instance Fault_eq_dec : EqDecision Fault.
Proof. solve_decision. Defined.

(** [frameStack] holds the depth of each frame's context, or null;
    [pendingCalls] the events, with the snapshot of their arguments. *)
Record World (W : Type) := MkWorld {
  platform : W; registry : gmap Z (DexResolver.Dex * ResolverBridge.Bridge); refs : ClassRefs.State W;
  activeStack : list Z; frameStack : list (option Z); interpStack : list Z; pendingCalls : list InvokeEvent;
  t_trace : TraceContext; session : option (Session W); fault : option Fault }.
Arguments MkWorld {W}. Arguments platform {W}. Arguments registry {W}. Arguments refs {W}. Arguments activeStack {W}.
Arguments frameStack {W}. Arguments interpStack {W}. Arguments pendingCalls {W}. Arguments t_trace {W}.
Arguments session {W}. Arguments fault {W}.

(** A platform that is a part of a larger state. *)
Section Lens.
Context {A B : Type} (get : B -> A) (put : A -> B -> B).
Definition through {X} (f : A -> X * A) (b : B) : X * B := let '(x, a) := f (get b) in (x, put a b).
Definition through_ (f : A -> A) (b : B) : B := put (f (get b)) b.
Definition lift_jni (jni : JNI A) : JNI B := {|
  NewLocalRef o := through (NewLocalRef o);
  DeleteLocalRef o := through_ (DeleteLocalRef o);
  IsSameObject a b := through (IsSameObject a b);
  IsInstanceOf a b := through (IsInstanceOf a b);
  AllocObject c := through (AllocObject c);
  MonitorEnter o := through (MonitorEnter o);
  MonitorExit o := through (MonitorExit o);
  ExceptionOccurred := through ExceptionOccurred;
  ExceptionClear := through_ ExceptionClear;
  ExceptionCheck := through ExceptionCheck;
  Throw o := through_ (Throw o);
  ThrowNew c m := through_ (ThrowNew c m);
  GetArrayLength a := through (GetArrayLength a);
  NewPrimArray p n := through (NewPrimArray p n);
  NewObjectArray n c o := through (NewObjectArray n c o);
  GetObjectArrayElement a i := through (GetObjectArrayElement a i);
  SetObjectArrayElement a i o := through_ (SetObjectArrayElement a i o);
  GetArrayRegion1 p a i := through (GetArrayRegion1 p a i);
  SetArrayRegion1 p a i v := through_ (SetArrayRegion1 p a i v);
  GetPrimitiveArrayCritical a := through (GetPrimitiveArrayCritical a);
  ReleasePrimitiveArrayCritical a l b := through_ (ReleasePrimitiveArrayCritical a l b);
  GetField k o f := through (GetField k o f);
  SetField k o f v := through_ (SetField k o f v);
  GetStaticField k o f := through (GetStaticField k o f);
  SetStaticField k o f v := through_ (SetStaticField k o f v);
  CallMethodA c k o m a := through (CallMethodA c k o m a)
|}.
End Lens.

Section Lift.
Context {W : Type}.
Abbreviation World := (World W).

Definition set_platform (p : W) (w : World) : World :=
  MkWorld p (registry w) (refs w) (activeStack w) (frameStack w) (interpStack w) (pendingCalls w) (t_trace w) (session w) (fault w).
Definition set_refs (g : ClassRefs.State W) (w : World) : World :=
  MkWorld (platform w) (registry w) g (activeStack w) (frameStack w) (interpStack w) (pendingCalls w) (t_trace w) (session w) (fault w).
Definition set_registry (r : gmap Z (DexResolver.Dex * ResolverBridge.Bridge)) (w : World) : World :=
  MkWorld (platform w) r (refs w) (activeStack w) (frameStack w) (interpStack w) (pendingCalls w) (t_trace w) (session w) (fault w).
Definition set_active (l : list Z) (w : World) : World :=
  MkWorld (platform w) (registry w) (refs w) l (frameStack w) (interpStack w) (pendingCalls w) (t_trace w) (session w) (fault w).
Definition set_frames (fs : list (option Z)) (ms : list Z) (w : World) : World :=
  MkWorld (platform w) (registry w) (refs w) (activeStack w) fs ms (pendingCalls w) (t_trace w) (session w) (fault w).
Definition set_pendingCalls (l : list InvokeEvent) (w : World) : World :=
  MkWorld (platform w) (registry w) (refs w) (activeStack w) (frameStack w) (interpStack w) l (t_trace w) (session w) (fault w).
Definition set_trace (t : TraceContext) (w : World) : World :=
  MkWorld (platform w) (registry w) (refs w) (activeStack w) (frameStack w) (interpStack w) (pendingCalls w) t (session w) (fault w).
Definition set_session (s : option (Session W)) (w : World) : World :=
  MkWorld (platform w) (registry w) (refs w) (activeStack w) (frameStack w) (interpStack w) (pendingCalls w) (t_trace w) s (fault w).
(** The first fault stays. *)
Definition fail (f : Fault) (w : World) : World :=
  MkWorld (platform w) (registry w) (refs w) (activeStack w) (frameStack w) (interpStack w) (pendingCalls w) (t_trace w) (session w)
    (Some (default f (fault w))).

Definition on_platform {A} : (W -> A * W) -> World -> A * World := through platform set_platform.
Lemma on_platform_eq {A} (f : W -> A * W) w : on_platform f w = let '(x, p) := f (platform w) in (x, set_platform p w).
Proof. done. Qed.
Definition on_platform_ : (W -> W) -> World -> World := through_ platform set_platform.
#[export] Instance session_jni {jni : JNI W} : JNI World := lift_jni platform set_platform jni.

(** [kResolver]: each call goes to the bridge on top of the active stack. *)
Context {jni : JNI W} {names : JNINames W}.
Context (primitive_class : prim -> Z).
Definition with_bridge {A} (null : A)
    (f : DexResolver.Dex -> ResolverBridge.S (W := W) -> W -> A * ResolverBridge.S (W := W) * W) (w : World) : A * World :=
  match activeStack w with
  | [] => (null, w)
  | key :: _ =>
      match registry w !! key with
      | None => (null, w)
      | Some (dex, b) =>
          let '(x, (b, g), p) := f dex (b, refs w) (platform w) in
          (x, set_registry (<[key := (dex, b)]> (registry w)) (set_refs g (set_platform p w)))
      end
  end.
Definition session_resolver : vmResolver World := {|
  dvmResolveField idx st := with_bridge None (fun dex => ResolverBridge.resolveField dex primitive_class idx st);
  dvmResolveMethod idx st := with_bridge None (fun dex => ResolverBridge.resolveMethod dex primitive_class idx st);
  dvmResolveTypeUtf idx := with_bridge None (fun dex => ResolverBridge.resolveTypeUtf dex idx);
  dvmResolveClass idx := with_bridge 0 (fun dex => ResolverBridge.resolveClass dex primitive_class idx);
  dvmFindClass type := with_bridge 0 (fun _ => ResolverBridge.findClass primitive_class type);
  dvmConstantString idx := with_bridge 0 (fun dex => ResolverBridge.constantString dex idx)
|}.
End Lift.

(** ** The tracer *)
Section Tracer.
Context {W : Type} {jni : JNI W} {names : JNINames W} {art : ArtRuntime W}.
Context (base : Z) (mem : list Z) (g_appScopePkg : list Z).
Abbreviation World := (World W).
Abbreviation Session := (Session W).

(** Lcom/foo/Bar; is com/foo/Bar. *)
Definition strip_descriptor (desc : list Z) : list Z :=
  if (2 <? length desc)%nat && (List.hd 0 desc =? 76) && (List.last desc 0 =? 59) then take (length desc - 2) (drop 1 desc) else desc.

Definition resolveArtMethod (ref : DexResolver.MethodRef) (isStatic : bool) (w : World) : Z * World :=
  if bool_decide (DexResolver.class_descriptor ref = []) || bool_decide (DexResolver.name ref = []) then (0, w)
  else
    let '(clazz, g, p) := FindClassRefCached (strip_descriptor (DexResolver.class_descriptor ref)) (refs w) (platform w) in
    let w := set_refs g w in
    if clazz =? 0 then (0, set_platform (snd (clear_exception p)) w)
    else
      let '(am, p) := ArtMethod_Require clazz (DexResolver.name ref) (DexResolver.jni_signature ref) isStatic p in
      (am, set_platform (snd (clear_exception p)) w).
Definition IsNative (am : Z) (w : World) : bool := HasAccessFlags (AccessFlags am (platform w)) kNative.
Definition is_static_invoke (opcode : Z) : bool := (opcode =? 0x71) || (opcode =? 0x77).

Definition buildInvokeEventBase (dex : DexResolver.Dex) (m : vmMethod) (opcode receiver argc depth am : Z) (w : World)
  : InvokeEvent * World :=
  let ref := DexResolver.method_of dex (m_idx m) in
  let isStatic := is_static_invoke opcode in
  let '(am, w) := if (am =? 0) && DexResolver.method_isValid ref then resolveArtMethod ref isStatic w else (am, w) in
  (MkInvokeEvent (DexResolver.class_descriptor ref) (DexResolver.name ref) (DexResolver.jni_signature ref)
     isStatic ((am =? 0) || IsNative am w) am receiver argc [] depth, w).

(** *** Before an instruction *)

Definition spend (s : Session) : Session :=
  MkSession (s_dex s) (s_cbs s) (s_opts s) (s_filter s) (s_depth s) (frameArtMethod s) (U64 (budgetUsed s + 1)) (aborted s) (handoffHit s).
Definition abort_session (s : Session) : Session :=
  MkSession (s_dex s) (s_cbs s) (s_opts s) (s_filter s) (s_depth s) (frameArtMethod s) (budgetUsed s) true (handoffHit s).
Definition handoff_session (s : Session) : Session :=
  MkSession (s_dex s) (s_cbs s) (s_opts s) (s_filter s) (s_depth s) (frameArtMethod s) (budgetUsed s) true true.

Definition over_budget (s : Session) : bool :=
  match s_opts s with Some o => (0 <=? max_instructions o) && (max_instructions o <? budgetUsed s) | None => false end.
(** The hand-off's reasons: an allocation, or a call of a system class;
    [None] reads past the code. *)
Definition risky (code : vmCode) (s : Session) (pc inst : Z) : option bool :=
  let op := inst & 0xFF in
  if (op =? 0x22) || (op =? 0x23) || (op =? 0x24) || (op =? 0x25) then Some true
  else match s_dex s with
       | Some dex =>
           if isInvokeOpcode op then
             mi ← insns code !!z (pc + 1);
             let ref := DexResolver.method_of dex mi in
             Some (DexResolver.method_isValid ref && isSystemDescriptor (DexResolver.class_descriptor ref))
           else Some false
       | None => Some false
       end.
Definition must_hand_off (code : vmCode) (s : Session) (pc inst : Z) : option bool :=
  match s_opts s with
  | Some o => if safe_handoff o then risky code s pc inst else Some false
  | None => Some false
  end.
(** [ev.regsSize]: from the first half-word of the frame's code item. *)
Definition event_regsSize (am : Z) (w : World) : option Z :=
  n ← (if am =? 0 then Some 0
       else
         let code_item := Z.land (EntryPointFromJni am (platform w)) (Z.lnot 1) in
         if code_item =? 0 then Some 0 else load16 mem (code_item - base));
  Some (if (n =? 0) || (256 <? n) then 16 else n).

Definition trOnInsn (code : vmCode) (c : VmFrameCtx) (regs regFlags : list Z) (w : World) : Z * World :=
  match session w with
  | None => (0, w)
  | Some s =>
      let s := spend s in
      let w := set_session (Some s) w in
      if over_budget s then (1, set_session (Some (abort_session s)) w)
      else
        match must_hand_off code s (c_pc c) (c_inst c) with
        | None => (1, fail UndefinedBehaviour w)
        | Some true => (1, set_session (Some (handoff_session s)) w)
        | Some false =>
            match cbs ← s_cbs s; cb_onInsn cbs with
            | None => (0, w)
            | Some cb =>
                match event_regsSize (frameArtMethod s) w with
                | None => (1, fail UndefinedBehaviour w)
                | Some regsSize =>
                    let '(cont, w) := on_platform (cb (MkInsnEvent (frameArtMethod s) (s_depth s) (c_pc c) (c_inst c) (budgetUsed s)
                                                         regs regFlags regsSize)) w in
                    if cont : bool then (0, w) else (1, set_session (Some (abort_session s)) w)
                end
            end
        end
  end.

(** *** Around an invocation *)

Definition step_in_allowed (s : Session) (default_depth : Z) : Z := match s_opts s with Some o => max_depth o | None => default_depth end.

Definition trOnInvokePre (c : VmFrameCtx) (m : vmMethod) (opcode receiver argc : Z) (args : list Z) (w : World)
  : Z * Z * list Z * World :=
  match session w with
  | None => (VM_INVOKE_JNI, 0, args, w)
  | Some s =>
      match s_dex s with
      | None => (VM_INVOKE_JNI, 0, args, w)
      | Some dex =>
          let ref := DexResolver.method_of dex (m_idx m) in
          if negb (DexResolver.method_isValid ref) then (VM_INVOKE_JNI, 0, args, w)
          else
            let '(am, w) := resolveArtMethod ref (is_static_invoke opcode) w in
            let isNative := (am =? 0) || IsNative am w in
            match passScopeFilter g_appScopePkg (s_filter s) (DexResolver.class_descriptor ref) with
            | None => (VM_INVOKE_JNI, 0, args, fail UndefinedBehaviour w)
            | Some in_scope =>
                let coroutine := isCoroutineSignature (DexResolver.jni_signature ref) in
                match cbs ← s_cbs s; cb_onInvoke cbs with
                | None =>
                    let scopeAllows := in_scope && negb coroutine && negb isNative &&
                      match s_opts s with Some o => step_in_enabled o && (s_depth s <? max_depth o) | None => false end in
                    (if scopeAllows then VM_INVOKE_STEP_IN else VM_INVOKE_JNI, 0, args, w)
                | Some cb =>
                    let '(ev, w) := buildInvokeEventBase dex m opcode receiver argc (s_depth s) am w in
                    let '(vml, w) := on_platform (fun p => pack4 (cb (with_args ev args) p)) w in
                    let '(v, mockRet, written) := vml in
                    let w := set_pendingCalls (with_args ev (take (Z.to_nat argc) (write_args args written)) :: pendingCalls w) w in
                    match v with
                    | Mock => (VM_INVOKE_MOCK, mockRet, written, w)
                    | StepIn =>
                        if isNative then
                          if match s_opts s with Some o => enable_native_step_in o | None => false end then
                            let '(rt, w) := on_platform (fun p => pack3 (resolveNativeTarget am (DexResolver.class_descriptor ref)
                                                (DexResolver.name ref) (DexResolver.jni_signature ref) p)) w in
                            (if fst rt : bool then VM_INVOKE_STEP_IN else VM_INVOKE_JNI, mockRet, written, w)
                          else (VM_INVOKE_JNI, mockRet, written, w)
                        else if negb (am =? 0) && negb coroutine && (s_depth s <? step_in_allowed s 8) && in_scope
                        then (VM_INVOKE_STEP_IN, mockRet, written, w)
                        else (VM_INVOKE_JNI, mockRet, written, w)
                    | JniDirect => (VM_INVOKE_JNI, mockRet, written, w)
                    end
                end
            end
      end
  end.

(** [runMethodInternal] of the executor: method, receiver, arguments, shorty,
    callbacks, options, filter and depth. *)
Definition Runner : Type :=
  Z -> Z -> list Z -> list Z -> option (Callbacks W) -> option Options -> option FilterOptions -> Z -> World -> RunResult * World.

Definition kAbstractFlag : Z := 0x0400.
Definition step_into_native (s : Session) (am : Z) (ref : DexResolver.MethodRef) (isStatic : bool) (m : vmMethod)
    (receiver : Z) (args : list Z) (outRet : Z) (w : World) : Z * Z * World :=
  if negb match s_opts s with Some o => enable_native_step_in o | None => false end then (1, outRet, w)
  else
    let '(rt, w) := on_platform (fun p => pack3 (resolveNativeTarget am (DexResolver.class_descriptor ref)
                        (DexResolver.name ref) (DexResolver.jni_signature ref) p)) w in
    let '(recOrClazz, w) :=
      if isStatic then
        let '(clazz, g, p) := FindClassRefCached (strip_descriptor (DexResolver.class_descriptor ref)) (refs w) (platform w) in
        (clazz, set_refs g (set_platform (snd (clear_exception p)) w))
      else (receiver, w) in
    let '(rd, w) := on_platform (fun p => pack3 (dispatchToNative am recOrClazz args (shorty m) (s_depth s + 1) (snd rt) p)) w in
    (if snd rd : bool then 0 else 1, fst rd, w).

Definition trStepIn (runMethodInternal : Runner) (c : VmFrameCtx) (m : vmMethod) (opcode receiver argc : Z) (args : list Z)
    (outRet : Z) (w : World) : Z * Z * World :=
  match session w with
  | None => (1, outRet, w)
  | Some s =>
      match s_dex s with
      | None => (1, outRet, w)
      | Some dex =>
          let ref := DexResolver.method_of dex (m_idx m) in
          if negb (DexResolver.method_isValid ref) then (1, outRet, w)
          else
            let isStatic := is_static_invoke opcode in
            let '(am, w) := resolveArtMethod ref isStatic w in
            if (am =? 0) || HasAccessFlags (AccessFlags am (platform w)) kAbstractFlag then (1, outRet, w)
            else if step_in_allowed s 8 <=? s_depth s then (1, outRet, w)
            else if IsNative am w then step_into_native s am ref isStatic m receiver args outRet w
            else
              let '(r, w) := runMethodInternal am receiver args (shorty m) (s_cbs s) (s_opts s) (s_filter s) (s_depth s + 1) w in
              if bool_decide (status r = ABORTED) && handoff r then (2, outRet, set_session (handoff_session <$> session w) w)
              else if negb (bool_decide (status r = OK)) || exceptionPending r then (1, outRet, w)
              else (0, if isObject r then objectResult r else value r, w)
      end
  end.

Definition trOnInvokePost (c : VmFrameCtx) (m : vmMethod) (opcode ret excPending : Z) (w : World) : World :=
  match session w with
  | None => w
  | Some s =>
      match cbs ← s_cbs s; cb_onInvokePost cbs, s_dex s with
      | Some cb, Some _ =>
          match pendingCalls w with
          | [] => w
          | ev :: rest => on_platform_ (cb ev ret (excPending =? 1)) (set_pendingCalls rest w)
          end
      | _, _ => w
      end
  end.

Definition trOnException (c : VmFrameCtx) (exc throwPc catchPc : Z) (w : World) : World :=
  match session w with
  | None => w
  | Some s =>
      match cbs ← s_cbs s; cb_onException cbs with
      | Some cb => on_platform_ (cb (MkExceptionEvent (s_depth s) exc throwPc catchPc)) w
      | None => w
      end
  end.

Definition kSessionTracer (runMethodInternal : Runner) (code : vmCode) : VmTracer World :=
  MkTracer World (Some (trOnInsn code)) (Some trOnInvokePre) (Some (trStepIn runMethodInternal)) (Some trOnInvokePost)
    (Some trOnException) None.

(** ** Wiring *)

Definition hasActiveCallbacks (cbs : option (Callbacks W)) : bool :=
  match cbs with
  | None => false
  | Some c => match cb_onInsn c, cb_onInvoke c, cb_onInvokePost c, cb_onException c with None, None, None, None => false | _, _, _, _ => true end
  end.
Definition makeSession (dex : option DexResolver.Dex) (cbs : option (Callbacks W)) (opts : option Options)
    (filter : option FilterOptions) (depth frameArtMethod : Z) : Session :=
  MkSession dex cbs (Some (default kDefaultOpts opts)) filter depth frameArtMethod 0 false false.
Definition sessionAborted (s : option Session) : bool := match s with Some s => aborted s | None => false end.
Definition sessionHandoff (s : option Session) : bool := match s with Some s => handoffHit s | None => false end.

Definition with_interpDepth (g : ClassRefs.State W) (n : Z) : ClassRefs.State W :=
  MkState (g_clsCache g) (g_appLoader g) (g_loadClassMid g) (g_classLookupFallback g) n.
Definition pushFrame (frameCtx : option Z) (artMethod : Z) (w : World) : World :=
  set_refs (with_interpDepth (refs w) (S32 (g_interpDepth (refs w) + 1)))
    (set_frames (frameCtx :: frameStack w) (artMethod :: interpStack w) w).
Definition popFrame (w : World) : World :=
  let w := set_frames (drop 1 (frameStack w)) (drop 1 (interpStack w)) w in
  if 0 <? g_interpDepth (refs w) then set_refs (with_interpDepth (refs w) (g_interpDepth (refs w) - 1)) w else w.
Definition isInterpretingOnCurrentThread (artMethod : Z) (w : World) : bool := existsb (Z.eqb artMethod) (interpStack w).
End Tracer.

End InterpSession.
