(* ===== verification/InterpExec.v ===== *)
(** * The executor (src/sandbox/pi_interp_executor.cpp)

    What runs a method on the interpreter: the pre-scan of its code, the
    packing of its arguments into registers, and [runMethodInternal], which
    composes the code provider, the resolver bridge, the session's tracer
    and the interpreter, and which the tracer calls to step in.

    A run returns its result and the world; [fault] of the world says that it
    did something undefined, or that the interpreter ran out of fuel.  The
    parameters are those of the sessions, with what a run is given besides
    the method: the interpreter's fuel, the cached exception classes
    ([gVm]), the trace switches, and what uninitialised memory holds. *)
From stdpp Require Import gmap.
From S2P Require Import Prelude.
From S2P Require Import DexCatch.
From S2P Require Import Smali.
From S2P Require Import VmEnv.
From S2P Require Import VmInterp.
From S2P Require Import CodeProvider.
From S2P Require Import DexResolver.
From S2P Require Import ResolverBridge.
From S2P Require Import InterpSig.
From S2P Require Import InterpTrace.
From S2P Require Import InterpSession.
Import DexCatch VmEnv VmInterp CodeProvider ClassRefs InterpSig InterpTrace InterpSession.
Local Open Scope cint_scope.

Class JNIFrames (W : Type) := {
  PushLocalFrame : Z -> W -> Z * W;
  PopLocalFrame : Z -> W -> Z * W;
  GetObjectRefType : Z -> W -> Z * W
}.
Definition JNILocalRefType : Z := 1.
Definition JNIGlobalRefType : Z := 2.

Module InterpExec.

(** ** Pre-scan *)

Inductive Scan := Accept | Reject | OutOfBounds | ScanFuel.
(** The width of the instruction or payload at [pc]. *)
Inductive Width := Wide (n : Z) | Bad | Outside.
Definition width_at (insns : list Z) (pc : Z) : Width :=
  match insns !!z pc with
  | None => Outside
  | Some u =>
      let op := u & 0xFF in
      if (op =? 0x00) && negb (u =? 0x0000) then
        if u =? 0x0100 then match insns !!z (pc + 1) with Some n => Wide (4 + 2 * n) | None => Outside end
        else if u =? 0x0200 then match insns !!z (pc + 1) with Some n => Wide (2 + 4 * n) | None => Outside end
        else if u =? 0x0300 then
          match insns !!z (pc + 2), insns !!z (pc + 3), insns !!z (pc + 1) with
          | Some lo, Some hi, Some w => Wide (4 + U32 (U32 (lo .| U32 (hi << 16)) * w + 1) `div` 2)
          | _, _, _ => Outside
          end
        else Bad
      else if 0xE3 <=? op then Bad
      else let sz := Smali.size_of_byte op in if sz =? 0 then Bad else Wide sz
  end.
(** Payloads are not checked against the end, an instruction is; the loop
    ends when [pc] is not below [size], and the code is right if they meet. *)
Definition is_payload (insns : list Z) (pc : Z) : bool :=
  match insns !!z pc with Some u => (u & 0xFF =? 0x00) && negb (u =? 0x0000) | None => false end.
Fixpoint prescan_loop (fuel : nat) (insns : list Z) (size pc : Z) : Scan :=
  if pc <? size then
    match fuel with
    | O => ScanFuel
    | S f =>
        match width_at insns pc with
        | Outside => OutOfBounds
        | Bad => Reject
        | Wide n =>
            let next := U32 (pc + n) in
            if negb (is_payload insns pc) && (size <? next) then Reject else prescan_loop f insns size next
        end
    end
  else if pc =? size then Accept else Reject.
(** [insns == nullptr] is [None]. *)
Definition prescanInsns (insns : option (list Z)) (size : Z) : Scan :=
  match insns with None => Reject | Some l => prescan_loop (Z.to_nat size) l size 0 end.

(** ** Arguments and results *)

(** [need]: the slots a shorty takes. *)
Definition slot_width (c : Z) : Z := if (c =? ch_J) || (c =? ch_D) then 2 else 1.
Definition shorty_slots (isStatic : bool) (shorty : list Z) : Z :=
  (if isStatic then 0 else 1) + fold_right Z.add 0 (List.map slot_width (drop 1 shorty)).

Section Pack.
Context {W : Type} {jni : JNI W}.

Definition own (o : Z) (w : W) : Z * W := if o =? 0 then (0, w) else NewLocalRef o w.
Definition putSlot (slot v : Z) (obj : bool) (regs flags : list Z) : list Z * list Z :=
  (<[Z.to_nat slot := v]> regs, <[Z.to_nat slot := if obj then 1 else 0]> flags).
(** [None] reads past the arguments. *)
Fixpoint pack_params (params args : list Z) (slot : Z) (regs flags : list Z) (w : W) : option (list Z * list Z * W) :=
  match params, args with
  | [], _ => Some (regs, flags, w)
  | _, [] => None
  | c :: params, a :: args =>
      let '(v, obj, width, w) :=
        if c =? ch_J then (U64 a, false, 2, w)
        else if c =? ch_D then (U64 a, false, 2, w)
        else if c =? ch_F then (U32 a, false, 1, w)
        else if c =? ch_L then let '(l, w) := own a w in (U64 l, true, 1, w)
        else (U32 a, false, 1, w) in
      let '(regs, flags) := putSlot slot v obj regs flags in
      pack_params params args (slot + width) regs flags w
  end.
Inductive Packed := PackFail | PackOutside | PackOk (regs flags : list Z).
Definition packRegisters (ic : InterpCode) (isStatic : bool) (thisObj : Z) (args shorty : list Z) (w : W) : Packed * W :=
  if negb (shorty_slots isStatic shorty =? insSize ic) then (PackFail, w)
  else if registersSize ic <? insSize ic then (PackFail, w)
  else
    let slot := registersSize ic - insSize ic in
    let '(slot, regs, flags, w) :=
      if isStatic then (slot, regs ic, regFlags ic, w)
      else let '(l, w) := own thisObj w in
           let '(regs, flags) := putSlot slot (U64 l) true (regs ic) (regFlags ic) in (slot + 1, regs, flags, w) in
    match pack_params (drop 1 shorty) args slot regs flags w with
    | None => (PackOutside, w)
    | Some (regs, flags, w) => (PackOk regs flags, w)
    end.
End Pack.

Definition unpackResult (r : RunResult) (rv retChar : Z) : RunResult :=
  let mk void wide obj v o := MkRunResult (status r) (exceptionPending r) (handoff r) void wide obj v o in
  if retChar =? ch_V then mk true (isWide r) (isObject r) (value r) (objectResult r)
  else if retChar =? ch_J then mk false true (isObject r) (U64 rv) (objectResult r)
  else if retChar =? ch_D then mk false true (isObject r) (U64 rv) (objectResult r)
  else if retChar =? ch_F then mk false (isWide r) (isObject r) (put32 (value r) rv) (objectResult r)
  else if (retChar =? ch_L) || (retChar =? ch_array) then mk false (isWide r) true (value r) (U64 rv)
  else mk false (isWide r) (isObject r) (put32 (value r) rv) (objectResult r).

(** ** Running a method *)

Definition kStatic : Z := 0x0008.
Definition kHardMaxDepth : Z := 64.

(** A result that is only a status. *)
Definition failed (s : Status) (pending : bool) : RunResult := MkRunResult s pending false true false false 0 0.

Section Run.
Context {W : Type} {jni : JNI W} {names : JNINames W} {frames : JNIFrames W} {art : ArtRuntime W} {log : Log W}.
Context (base : Z) (mem : list Z) (primitive_class : prim -> Z) (gVm : vmGlobals) (g_appScopePkg : list Z).
Context (g_traceEnabled dumpRegsAfter : bool) (uninit : Z -> Z) (vm_fuel : nat).
Abbreviation World := (World W).

(** The bridge of a DEX file, made when it is first needed. *)
Definition acquireBridge (key : Z) (dex : DexResolver.Dex) (w : World) : DexResolver.Dex * ResolverBridge.Bridge * World :=
  match registry w !! key with
  | Some (d, b) => (d, b, w)
  | None =>
      let '(_, b) := ResolverBridge.init dex true ResolverBridge.fresh_bridge in
      (dex, b, set_registry (<[key := (dex, b)]> (registry w)) w)
  end.

Definition trace_hook (pc inst : Z) (regs flags : list Z) (w : World) : World :=
  match vmTraceHookImpl pc regs flags (t_trace w) (platform w) with
  | Some (ctx, p) => set_trace ctx (set_platform p w)
  | None => fail UndefinedBehaviour w
  end.
(** The platform the interpreter gets; it is traced if [fctx] is. *)
Definition run_env (rec : Runner) (code : vmCode) (traced : bool) : VmEnv World := {|
  vm_jni := session_jni; dvmResolver := session_resolver primitive_class; VmEnv.gVm := gVm; VmEnv.code := code;
  tracer := Some (kSessionTracer base mem g_appScopePkg rec code);
  g_vmTraceHook := if traced then Some trace_hook else None;
  VmEnv.uninit := uninit |}.

(** Out of the dying local frame. *)
Definition promote (hasExc : bool) (retChar rv : Z) (w : World) : Z * World :=
  if negb hasExc && ((retChar =? ch_L) || (retChar =? ch_array)) then
    let '(refType, w) := on_platform (GetObjectRefType rv) w in
    if rv =? 0 then let '(_, w) := on_platform (PopLocalFrame 0) w in (0, w)
    else if refType =? JNILocalRefType then on_platform (PopLocalFrame rv) w
    else if refType =? JNIGlobalRefType then
      let '(local, w) := on_platform (NewLocalRef rv) w in on_platform (PopLocalFrame local) w
    else let '(_, w) := on_platform (PopLocalFrame 0) w in (0, w)
  else let '(_, w) := on_platform (PopLocalFrame 0) w in (rv, w).

(** [vmInterpret2] under the guard of the instruction log; the registers at
    the end are those the guard's destructor shows. *)
Definition interpret (rec : Runner) (dex : DexResolver.Dex) (code : vmCode) (registersSize : Z) (regs flags : list Z)
    (opts : option Options) (fctx : option VmFrameCtx) (w : World) : Z * World :=
  let traced := g_traceEnabled || match opts with Some o => log_instructions o | None => false end in
  let saved := t_trace w in
  let w0 := w in
  let w := if traced then set_trace (trace_enter dumpRegsAfter (insns code) registersSize (Some dex)) w else w in
  match vmInterpret2 (E := run_env rec code traced) vm_fuel regs flags (U64 (uninit 2))
          (List.map (fun i => U64 (uninit i)) [3; 4; 5; 6; 7]) (negb (uninit 8 =? 0)) fctx w with
  | Returned rv s =>
      let w := world s in
      if traced then
        match trace_leave saved (t_trace w) (fp s) (fp_flags s) (platform w) with
        | Some (ctx, p) => (rv, set_trace ctx (set_platform p w))
        | None => (rv, fail UndefinedBehaviour (set_trace saved w))
        end
      else (rv, w)
  | Undefined => (0, fail UndefinedBehaviour w0)
  | OutOfFuel => (0, fail NoFuel w0)
  end.

(** From the session's start to its end; the bridge answers from its own
    copy of the file. *)
Definition run_session (rec : Runner) (method : Z) (dex bridge_dex : DexResolver.Dex) (key : Z) (code : vmCode) (ic : InterpCode)
    (regs flags shorty : list Z) (cbs : option (Callbacks W)) (opts : option Options) (filter : option FilterOptions)
    (depth : Z) (w : World) : RunResult * World :=
  let outer := session w in
  let withTracer := hasActiveCallbacks cbs in
  let sess := if withTracer then Some (makeSession (Some bridge_dex) cbs opts filter depth method) else None in
  let fctx := if withTracer then Some depth else None in
  let w := set_session sess (pushFrame fctx method w) in
  let active := activeStack w in
  let w := set_active (key :: active) w in
  let '(rv, w) := interpret rec dex code (registersSize ic) regs flags opts ((fun _ => MkFrameCtx 0 0 0) <$> fctx) w in
  let '(exc, w) := on_platform ExceptionCheck w in
  let hasExc := negb (exc =? 0) in
  let retChar := List.hd 0 shorty in
  let '(rv, w) := promote hasExc retChar rv w in
  let w := popFrame w in
  let r := MkRunResult (if sessionAborted (session w) then ABORTED else OK) hasExc (sessionHandoff (session w)) true false false 0 0 in
  (unpackResult r rv retChar, set_active (drop 1 (activeStack w)) (set_session outer w)).

(** [rec] runs the methods stepped into; [shorty[0] = '\0'] is the empty list. *)
Definition run_method (rec : Runner) (method thisObj : Z) (args shorty : list Z) (cbs : option (Callbacks W))
    (opts : option Options) (filter : option FilterOptions) (depth : Z) (w : World) : RunResult * World :=
  if (method =? 0) || bool_decide (shorty = []) then (failed ERROR false, w)
  else
    let '(exc, w) := on_platform ExceptionCheck w in
    if negb (exc =? 0) then (failed ERROR true, w)
    else if kHardMaxDepth <=? depth then (failed ERROR false, w)
    else if IsNative method w || HasAccessFlags (AccessFlags method (platform w)) 0x0400 then (failed NO_CODE false, w)
    else
      match initFromMethod method (platform w) with
      | None => (failed RESOLVE_FAIL false, w)
      | Some (key, dex, isCompact) =>
          match buildVmCode base mem (Some (AccessFlags method (platform w), EntryPointFromJni method (platform w))) isCompact with
          | None => (failed ERROR false, fail UndefinedBehaviour w)
          | Some (false, _) => (failed RESOLVE_FAIL false, w)
          | Some (true, ic) =>
              match code_of mem ic with
              | None => (failed ERROR false, fail UndefinedBehaviour w)
              | Some code =>
                  match prescanInsns (Some (insns code)) (insnsCount ic) with
                  | OutOfBounds => (failed ERROR false, fail UndefinedBehaviour w)
                  | ScanFuel => (failed ERROR false, fail NoFuel w)
                  | Reject => (failed UNSUPPORTED false, w)
                  | Accept =>
                      let '(pushed, w) := on_platform (PushLocalFrame 512) w in
                      if pushed <? 0 then (failed ERROR true, w)
                      else
                        let '(packed, p) := packRegisters ic (HasAccessFlags (AccessFlags method (platform w)) kStatic)
                                              thisObj args shorty (platform w) in
                        let w := set_platform p w in
                        match packed with
                        | PackFail => let '(_, w) := on_platform (PopLocalFrame 0) w in (failed PACK_FAIL false, w)
                        | PackOutside => (failed ERROR false, fail UndefinedBehaviour w)
                        | PackOk regs flags =>
                            let '(bridge_dex, b, w) := acquireBridge key dex w in
                            if negb (ResolverBridge.initialized b) then
                              let '(_, w) := on_platform (PopLocalFrame 0) w in (failed RESOLVE_FAIL false, w)
                            else run_session rec method dex bridge_dex key code ic regs flags shorty cbs opts filter depth w
                        end
                  end
              end
          end
      end.

(** The recursion of stepping in, to a depth of [levels]. *)
Fixpoint runMethodInternal (levels : nat) : Runner :=
  match levels with
  | O => fun _ _ _ _ _ _ _ _ w => (failed ERROR false, fail NoFuel w)
  | S levels => run_method (runMethodInternal levels)
  end.
Definition runMethod (levels : nat) (method thisObj : Z) (args shorty : list Z) (w : World) : RunResult * World :=
  runMethodInternal levels method thisObj args shorty None None None 0 w.
End Run.

End InterpExec.
