(* ===== verification/InterpKeeps.v ===== *)
(** * What a session leaves as it was

    The look-ups of classes, methods and strings, the session's callbacks and
    the whole executor, as steps between worlds: what they keep of the
    thread's state, and that they act on the platform only through its
    calls.  [P] is any preorder on platforms those calls follow. *)
From stdpp Require Import gmap.
From S2P Require Import Prelude.
From S2P Require Import VmEnv.
From S2P Require Import VmInvoke.
From S2P Require Import VmInterp.
From S2P Require Import VmWorldRel.
From S2P Require Import CodeProvider.
From S2P Require Import DexResolver.
From S2P Require Import ResolverBridge.
From S2P Require Import InterpSig.
From S2P Require Import InterpTrace.
From S2P Require Import InterpSession.
From S2P Require Import InterpExec.
Import VmEnv VmInvoke VmInterp VmWorldRel CodeProvider ClassRefs InterpSig InterpTrace InterpSession InterpExec.
Local Open Scope cint_scope.

Module InterpKeeps.

(** ** The platform *)
Section Platform.
Context {W : Type} (P : relation W).
Record names_follow (names : JNINames W) : Prop := {
  nf_FindClass n w : P w (FindClass n w).2;
  nf_NewGlobalRef o w : P w (NewGlobalRef o w).2;
  nf_DeleteGlobalRef o w : P w (DeleteGlobalRef o w);
  nf_GetMethodID c n s w : P w (GetMethodID c n s w).2;
  nf_GetStaticMethodID c n s w : P w (GetStaticMethodID c n s w).2;
  nf_GetFieldID c n s w : P w (GetFieldID c n s w).2;
  nf_GetStaticFieldID c n s w : P w (GetStaticFieldID c n s w).2;
  nf_NewStringUTF s w : P w (NewStringUTF s w).2;
  nf_CallObjectMethod o m a w : P w (CallObjectMethod o m a w).2 }.
Record art_follows (art : ArtRuntime W) : Prop := {
  af_Require c n s st w : P w (ArtMethod_Require c n s st w).2;
  af_resolve a c n s w : P w (resolveNativeTarget a c n s w).2;
  af_dispatch a r l s d t w : P w (dispatchToNative a r l s d t w).2 }.
Record callbacks_follow (cbs : Callbacks W) : Prop := {
  cf_onInsn f e w : cb_onInsn cbs = Some f -> P w (f e w).2;
  cf_onInvoke f e w : cb_onInvoke cbs = Some f -> P w (f e w).2;
  cf_onInvokePost f e r x w : cb_onInvokePost cbs = Some f -> P w (f e r x w);
  cf_onException f e w : cb_onException cbs = Some f -> P w (f e w) }.
Definition log_follows (log : Log W) : Prop := forall p d l w, P w (log_line p d l w).
Definition fallback_follows (g : ClassRefs.State W) : Prop :=
  forall f n w, g_classLookupFallback g = Some f -> P w (f n w).2.
End Platform.

Ltac platform_law :=
  match goal with
  | HJ : jni_follows ?P ?j, HN : names_follow ?P ?n |- ?P _ _ =>
      first [ apply (fl_NewLocalRef _ _ HJ) | apply (fl_DeleteLocalRef _ _ HJ) | apply (fl_ExceptionCheck _ _ HJ)
            | apply (fl_ExceptionClear _ _ HJ) | apply (nf_FindClass _ _ HN) | apply (nf_NewGlobalRef _ _ HN)
            | apply (nf_GetMethodID _ _ HN) | apply (nf_GetStaticMethodID _ _ HN) | apply (nf_GetFieldID _ _ HN)
            | apply (nf_GetStaticFieldID _ _ HN) | apply (nf_NewStringUTF _ _ HN) | apply (nf_CallObjectMethod _ _ HN) ]
  end.
(** From the facts about each step. *)
Ltac chain :=
  lazymatch goal with
  | |- ?P ?a ?a => reflexivity
  | H : ?P ?b ?c |- ?P ?a ?c => transitivity b; [clear H; chain|exact H]
  | |- ?P ?a (DeleteLocalRef _ ?b) => transitivity b; [chain|platform_law]
  | |- ?P ?a (ExceptionClear ?b) => transitivity b; [chain|platform_law]
  end.
(** Through the next call. *)
Ltac next_call P :=
  match goal with
  | |- context [let '(_, _) := ?c in _] =>
      lazymatch c with
      | (_, _) => fail
      | match _ with _ => _ end => fail
      | ?f ?w => let H := fresh "Hs" in assert (H : P w c.2) by platform_law; destruct c as [? ?]; cbn [snd fst] in H
      end
  end.

Section Lookups.
Context {W : Type} {jni : JNI W} {names : JNINames W}.
Context (P : relation W) {HP : PreOrder P} (HJ : jni_follows P jni) (HN : names_follow P names).

Definition refs_kept (g g' : State W) : Prop :=
  g_interpDepth g' = g_interpDepth g /\ g_classLookupFallback g' = g_classLookupFallback g.
Definition tracks {A} (g : State W) (w : W) (r : A * State W * W) : Prop := refs_kept g r.1.2 /\ P w r.2.

Lemma clear_exception_P w : P w (clear_exception w).2.
Proof. unfold clear_exception. next_call P. destruct (_ =? 0); cbn; chain. Qed.

Ltac lookup_step :=
  match goal with
  | |- context [let '(_, _) := clear_exception ?w in _] =>
      let H := fresh "Hs" in pose proof (clear_exception_P w) as H; destruct (clear_exception w) as [[] ?]; cbn [snd fst] in H
  | |- context [clear_exception ?w] =>
      let H := fresh "Hs" in pose proof (clear_exception_P w) as H; destruct (clear_exception w) as [[] ?]; cbn [snd fst] in H
  | |- context [if ?b then _ else _] => destruct b
  | _ => next_call P
  end.
Ltac lookup :=
  repeat (cbv beta zeta; cbn [snd fst]; lookup_step); cbn [snd fst]; (split; [done|cbn [snd fst]; chain]).

Lemma load_class_tracks n g w : tracks g w (load_class n g w).
Proof. unfold load_class. lookup. Qed.
Lemma call_fallback_tracks n g w : fallback_follows P g -> tracks g w (call_fallback n g w).
Proof.
  intros Hf. unfold call_fallback. destruct (g_classLookupFallback g) as [f|] eqn:Ef; [|split; [done|cbn; chain]].
  specialize (Hf f n w Ef). destruct (f n w) as [l w1]. cbn [snd] in Hf. lookup.
Qed.
Lemma find_class_tracks n g w : tracks g w (find_class n g w).
Proof. unfold find_class. lookup. Qed.

Lemma FindClassRefCached_tracks n g w : fallback_follows P g -> tracks g w (FindClassRefCached n g w).
Proof.
  intros Hf. unfold FindClassRefCached. destruct (g_clsCache g !! n); [split; [done|cbn; chain]|].
  pose proof (load_class_tracks n g w) as [[E1 F1] H1]. destruct (load_class n g w) as [[c g1] w1]. cbn [fst snd] in *.
  destruct c; [by split|].
  assert (Hf1 : fallback_follows P g1) by (unfold fallback_follows; by rewrite F1).
  pose proof (call_fallback_tracks n g1 w1 Hf1) as [[E2 F2] H2]. destruct (call_fallback n g1 w1) as [[c g2] w2]. cbn [fst snd] in *.
  destruct c; [split; [split; cbn; congruence|cbn; chain]|].
  pose proof (find_class_tracks n g2 w2) as [[E3 F3] H3]. destruct (find_class n g2 w2) as [[c3 g3] w3]. cbn [fst snd] in *.
  split; [split; cbn; congruence|cbn; chain].
Qed.

Abbreviation S := (ResolverBridge.S (W := W)).
Context (dex : DexResolver.Dex) (primitive_class : prim -> Z).
Definition tracksS {A} (s : S) (w : W) (r : A * S * W) : Prop := refs_kept (snd s) (snd r.1.2) /\ P w r.2.

Lemma new_local_P g w : P w (ResolverBridge.new_local g w).2.
Proof. unfold ResolverBridge.new_local. destruct (g =? 0); [cbn; chain|platform_law]. Qed.
Lemma find_tracks d (s : S) w : fallback_follows P (snd s) ->
  tracksS s w (ResolverBridge.findClassByDescriptor primitive_class d s w).
Proof.
  destruct s as [b g]. intros Hf. unfold ResolverBridge.findClassByDescriptor. destruct d as [|c d]; [split; [done|cbn; chain]|].
  destruct (prim_of_char c).
  { match goal with |- context [ResolverBridge.new_local ?g ?w] => pose proof (new_local_P g w); destruct (ResolverBridge.new_local g w) end. by split. }
  destruct (c =? ch_V); [split; [done|cbn; chain]|]. cbv zeta.
  match goal with |- context [FindClassRefCached ?n g w] => pose proof (FindClassRefCached_tracks n g w Hf) as [H1 H2]; destruct (FindClassRefCached n g w) as [[x g1] w1] end.
  pose proof (new_local_P x w1). destruct (ResolverBridge.new_local x w1). cbn [fst snd] in *. split; [done|]. cbn. chain.
Qed.

(** Through a step that tracks. *)
Lemma tracksS_step {A B} (s : S) w (r : A * S * W) (k : A -> S -> W -> B * S * W) :
  tracksS s w r -> (forall x s1 w1, fallback_follows P (snd s1) -> tracksS s1 w1 (k x s1 w1)) -> fallback_follows P (snd s) ->
  tracksS s w (let '(x, s1, w1) := r in k x s1 w1).
Proof.
  intros [[E1 F1] H1] Hk Hf. destruct r as [[x s1] w1]. cbn [fst snd] in *.
  destruct (Hk x s1 w1) as [[E2 F2] H2]; [unfold fallback_follows; by rewrite F1|]. split; [split; congruence|]. chain.
Qed.
Lemma tracksS_ret {A} (x : A) (s : S) w : tracksS s w (x, s, w).
Proof. split; [done|cbn; chain]. Qed.

Lemma with_class_tracks d get (s : S) w : fallback_follows P (snd s) -> (forall c w, P w (get c w).2) ->
  tracksS s w (ResolverBridge.with_class primitive_class d get s w).
Proof.
  intros Hf Hg. unfold ResolverBridge.with_class. apply tracksS_step; [by apply find_tracks| |done].
  intros c s1 w1 _. destruct (c =? 0); [apply tracksS_ret|]. pose proof (Hg c w1). destruct (get c w1) as [id w2].
  split; [done|]. cbn in *. chain.
Qed.
Lemma resolveMethod_tracks i st (s : S) w : fallback_follows P (snd s) ->
  tracksS s w (ResolverBridge.resolveMethod dex primitive_class i st s w).
Proof.
  intros Hf. unfold ResolverBridge.resolveMethod. destruct (negb _); [apply tracksS_ret|].
  destruct (_ !!z i) as [[|]|]; [apply tracksS_ret| |apply tracksS_ret]. cbv zeta. destruct (negb _); [apply tracksS_ret|].
  apply tracksS_step; [|intros mid s1 w1 _; destruct (mid =? 0); split; done || (cbn; chain)|done].
  apply with_class_tracks; [done|]. intros c w1. destruct st; platform_law.
Qed.
Lemma resolveField_tracks i st (s : S) w : fallback_follows P (snd s) ->
  tracksS s w (ResolverBridge.resolveField dex primitive_class i st s w).
Proof.
  intros Hf. unfold ResolverBridge.resolveField. destruct (negb _); [apply tracksS_ret|].
  destruct (_ !!z i) as [[|]|]; [apply tracksS_ret| |apply tracksS_ret]. cbv zeta. destruct (negb _); [apply tracksS_ret|].
  apply tracksS_step; [|intros mid s1 w1 _; destruct (mid =? 0); split; done || (cbn; chain)|done].
  apply with_class_tracks; [done|]. intros c w1. destruct st; platform_law.
Qed.
Lemma resolveTypeUtf_tracks i (s : S) w : tracksS s w (ResolverBridge.resolveTypeUtf dex i s w).
Proof. unfold ResolverBridge.resolveTypeUtf. destruct (negb _); apply tracksS_ret. Qed.

(** A fresh local reference at the end. *)
Lemma tracksS_local (s : S) w (r : Z * S * W) : tracksS s w r ->
  tracksS s w (let '(g, s1, w1) := r in let '(l, w2) := ResolverBridge.new_local g w1 in (l, s1, w2)).
Proof.
  intros [H1 H2]. destruct r as [[g s1] w1]. pose proof (new_local_P g w1). destruct (ResolverBridge.new_local g w1).
  cbn [fst snd] in *. split; [done|]. cbn. chain.
Qed.
(** ... and a global one, which a bridge may remember. *)
Lemma tracksS_global (s : S) (l : Z) w (f : Z -> S) : (forall g, snd (f g) = snd s) ->
  tracksS s w (let '(g, w1) := if l =? 0 then (0, w) else let '(g, w1) := NewGlobalRef l w in (g, DeleteLocalRef l w1) in (g, f g, w1)).
Proof.
  intros Hf. destruct (l =? 0); [|next_call P]; (split; [cbn [fst snd]; by rewrite Hf|cbn [fst snd]; chain]).
Qed.

Lemma resolveClass_tracks i (s : S) w : fallback_follows P (snd s) ->
  tracksS s w (ResolverBridge.resolveClass dex primitive_class i s w).
Proof.
  intros Hf. unfold ResolverBridge.resolveClass. destruct (negb _); [apply tracksS_ret|].
  destruct (_ !!z i) as [e|]; [|apply tracksS_ret]. apply tracksS_local. destruct e; [apply tracksS_ret|]. cbv zeta.
  case_bool_decide; [split; [done|cbn; chain]|]. apply tracksS_step; [by apply find_tracks| |done].
  intros l s1 w1 _. by apply (tracksS_global s1 l w1 (fun g => (ResolverBridge.set_class (fst s1) (Z.to_nat i) g, snd s1))).
Qed.
Lemma internString_tracks u (s : S) w : fallback_follows P (snd s) -> tracksS s w (ResolverBridge.internString u s w).
Proof.
  intros Hf. unfold ResolverBridge.internString. apply tracksS_step; [| |done].
  - destruct (_ =? 0); [|apply tracksS_ret].
    pose proof (FindClassRefCached_tracks (str "java/lang/String") (snd s) w Hf) as [H1 H2].
    destruct (FindClassRefCached _ _ w) as [[c g1] w1]. cbn [fst snd] in *. destruct (c =? 0); [by split|]. next_call P. cbv zeta.
    match goal with |- context [clear_exception ?w] => pose proof (clear_exception_P w) end.
    destruct (_ =? 0); (split; [done|]); cbn [fst snd] in *; chain.
  - intros ok s1 w1 _. destruct (negb ok); [apply tracksS_ret|]. next_call P. destruct (_ =? 0); [by split|].
    destruct (_ =? 0); [by split|]. next_call P. split; [done|]. cbn. chain.
Qed.
Lemma constantString_tracks i (s : S) w : fallback_follows P (snd s) -> tracksS s w (ResolverBridge.constantString dex i s w).
Proof.
  intros Hf. unfold ResolverBridge.constantString. destruct (negb _); [apply tracksS_ret|].
  destruct (_ !!z i) as [e|]; [|apply tracksS_ret]. apply tracksS_local. destruct e; [apply tracksS_ret|].
  destruct (DexResolver.d_strings dex !!z i); [|split; [done|cbn; chain]].
  apply tracksS_step; [by apply internString_tracks| |done].
  intros g s1 w1 _. by apply (tracksS_global s1 g w1 (fun g => (ResolverBridge.set_string (fst s1) (Z.to_nat i) g, snd s1))).
Qed.
End Lookups.

(** ** Worlds *)
Section Worlds.
Context {W : Type} {jni : JNI W} {names : JNINames W} {frames : JNIFrames W} {art : ArtRuntime W} {log : Log W}.
Context (P : relation W) {HP : PreOrder P}.
Abbreviation World := (World W).
Abbreviation Session := (Session W).

(** A session's parameters do not change. *)
Definition session_same (o o' : option Session) : Prop :=
  match o, o' with
  | None, None => True
  | Some s, Some s' =>
      s_dex s' = s_dex s /\ s_cbs s' = s_cbs s /\ s_opts s' = s_opts s /\ s_filter s' = s_filter s /\ s_depth s' = s_depth s /\
      frameArtMethod s' = frameArtMethod s
  | _, _ => False
  end.
#[local] Instance session_same_preorder : PreOrder session_same.
Proof.
  split.
  - intros [s|]; simpl; tauto.
  - intros [a|] [b|] [c|]; simpl; try tauto. intros (-> & -> & -> & -> & -> & ->). tauto.
Qed.

(** The stacks are as they were, a fault stays, and without one the platform
    was only stepped. *)
Record kept (w w' : World) : Prop := {
  k_active : activeStack w' = activeStack w;
  k_frames : frameStack w' = frameStack w;
  k_interp : interpStack w' = interpStack w;
  k_refs : refs_kept (refs w) (refs w');
  k_session : session_same (session w) (session w');
  k_fault : is_Some (fault w) -> is_Some (fault w');
  k_platform : fault w' = None -> P (platform w) (platform w') }.
#[local] Instance kept_preorder : PreOrder kept.
Proof.
  split; [intros w; by split|]. intros a b c [] []. split; try congruence.
  - destruct k_refs0, k_refs1. split; congruence.
  - by etransitivity.
  - auto.
  - intros Hc. etransitivity; [apply k_platform0|by apply k_platform1].
    destruct (fault b) eqn:Eb; [|done]. rewrite Hc in k_fault1. destruct k_fault1 as [? [=]]. by eexists.
Qed.

Definition cbs_ok (cbs : option (Callbacks W)) : Prop := forall c, cbs = Some c -> callbacks_follow P c.
(** [levels] more frames can be pushed. *)
Definition room (levels : nat) (w : World) : Prop :=
  fallback_follows P (refs w) /\ 0 <= g_interpDepth (refs w) < 2 ^ 31 - 1 - Z.of_nat levels.
Definition ready (levels : nat) (w : World) : Prop := room levels w /\ forall s, session w = Some s -> cbs_ok (s_cbs s).
Definition moved (levels : nat) (w w' : World) : Prop := ready levels w -> kept w w'.

Lemma ready_kept n w w' : kept w w' -> ready n w -> ready n w'.
Proof.
  intros [? ? ? [E1 E2] Hs ? ?] [[Hf Hd] Hc]. split; [split; [unfold fallback_follows; by rewrite E2|by rewrite E1]|].
  intros s' Es'. rewrite Es' in Hs. destruct (session w) as [s|]; [|done]. destruct Hs as (_ & -> & _). by apply Hc.
Qed.
#[local] Instance moved_preorder n : PreOrder (moved n).
Proof.
  split; [intros w _; reflexivity|]. intros a b c Hab Hbc Hr. specialize (Hab Hr).
  etransitivity; [exact Hab|]. by apply Hbc, (ready_kept n a b).
Qed.

Lemma on_platform_kept {A} (f : W -> A * W) w : P (platform w) (f (platform w)).2 -> kept w (on_platform f w).2.
Proof. intros H. unfold on_platform, through. destruct (f (platform w)). by split. Qed.
Lemma set_platform_kept p w : P (platform w) p -> kept w (set_platform p w).
Proof. by split. Qed.
Lemma fail_kept f w : kept w (fail f w).
Proof. by split. Qed.

Context (HJ : jni_follows P jni) (HN : names_follow P names) (HA : art_follows P art) (HL : log_follows P log).

Lemma session_jni_follows n : jni_follows (moved n) session_jni.
Proof.
  split; intros; intros _; cbn;
    first [apply on_platform_kept|apply set_platform_kept].
  all: first [ apply (fl_NewLocalRef _ _ HJ) | apply (fl_DeleteLocalRef _ _ HJ) | apply (fl_IsSameObject _ _ HJ)
    | apply (fl_IsInstanceOf _ _ HJ) | apply (fl_AllocObject _ _ HJ) | apply (fl_MonitorEnter _ _ HJ) | apply (fl_MonitorExit _ _ HJ)
    | apply (fl_ExceptionOccurred _ _ HJ) | apply (fl_ExceptionClear _ _ HJ) | apply (fl_ExceptionCheck _ _ HJ) | apply (fl_Throw _ _ HJ)
    | apply (fl_ThrowNew _ _ HJ) | apply (fl_GetArrayLength _ _ HJ) | apply (fl_NewPrimArray _ _ HJ) | apply (fl_NewObjectArray _ _ HJ)
    | apply (fl_GetObjectArrayElement _ _ HJ) | apply (fl_SetObjectArrayElement _ _ HJ) | apply (fl_GetArrayRegion1 _ _ HJ)
    | apply (fl_SetArrayRegion1 _ _ HJ) | apply (fl_GetPrimitiveArrayCritical _ _ HJ) | apply (fl_ReleasePrimitiveArrayCritical _ _ HJ)
    | apply (fl_GetField _ _ HJ) | apply (fl_SetField _ _ HJ) | apply (fl_GetStaticField _ _ HJ) | apply (fl_SetStaticField _ _ HJ)
    | apply (fl_CallMethodA _ _ HJ) ].
Qed.

Lemma with_bridge_kept {A} (null : A) f w :
  (forall dex s p, fallback_follows P (snd s) -> tracksS P s p (f dex s p)) -> fallback_follows P (refs w) ->
  kept w (with_bridge null f w).2.
Proof.
  intros Hf Hr. unfold with_bridge. destruct (activeStack w) as [|key ?]; [reflexivity|].
  destruct (registry w !! key) as [[dex b]|]; [|reflexivity].
  destruct (Hf dex (b, refs w) (platform w) Hr) as [H1 H2]. destruct (f dex (b, refs w) (platform w)) as [[x [b' g']] p'].
  by split.
Qed.
Lemma session_resolver_follows n pc : resolver_follows (moved n) (session_resolver pc).
Proof.
  split; intros; intros [[Hf _] _]; apply with_bridge_kept; try done; intros.
  - by apply (resolveField_tracks P HJ HN).
  - by apply (resolveMethod_tracks P HJ HN).
  - by apply (resolveTypeUtf_tracks P).
  - by apply (resolveClass_tracks P HJ HN).
  - by apply (find_tracks P HJ HN).
  - by apply (constantString_tracks P HJ HN).
Qed.

(** *** The tracer *)

Lemma FindClass_kept nm w : fallback_follows P (refs w) ->
  let '(c, g, p) := FindClassRefCached nm (refs w) (platform w) in kept w (set_refs g (set_platform p w)).
Proof.
  intros Hf. pose proof (FindClassRefCached_tracks P HJ HN nm (refs w) (platform w) Hf) as [H1 H2].
  destruct (FindClassRefCached nm _ _) as [[c g] p]. by split.
Qed.
Lemma resolveArtMethod_kept ref st w : fallback_follows P (refs w) -> kept w (resolveArtMethod ref st w).2.
Proof.
  intros Hf. unfold resolveArtMethod. destruct (_ || _); [reflexivity|].
  pose proof (FindClass_kept (strip_descriptor (DexResolver.class_descriptor ref)) w Hf) as Hk.
  destruct (FindClassRefCached _ _ _) as [[c g] p]. cbv zeta.
  assert (Hp : forall p', P p p' -> kept w (set_platform p' (set_refs g w))).
  { intros p' Hp'. destruct Hk. split; try done. intros Hn. etransitivity; [by apply k_platform0|done]. }
  destruct (c =? 0); [apply Hp, (clear_exception_P P HJ)|].
  pose proof (af_Require _ _ HA c (DexResolver.name ref) (DexResolver.jni_signature ref) st p) as Hr.
  destruct (ArtMethod_Require _ _ _ _ p) as [am p1]. apply Hp. etransitivity; [exact Hr|]. apply (clear_exception_P P HJ).
Qed.

Lemma event_kept dex m op r n d am w : fallback_follows P (refs w) -> kept w (buildInvokeEventBase dex m op r n d am w).2.
Proof.
  intros Hf. unfold buildInvokeEventBase. cbv zeta. destruct (_ && _); [|reflexivity].
  pose proof (resolveArtMethod_kept (DexResolver.method_of dex (m_idx m)) (is_static_invoke op) w Hf) as Hk.
  by destruct (resolveArtMethod _ _ w).
Qed.
Lemma kept_fallback w w' : kept w w' -> fallback_follows P (refs w) -> fallback_follows P (refs w').
Proof. intros [? ? ? [_ E] ? ? ?]. unfold fallback_follows. by rewrite E. Qed.

(** The session's own fields may change. *)
Lemma set_session_kept s s' w : session w = Some s -> session_same (Some s) (Some s') -> kept w (set_session (Some s') w).
Proof. intros Hs He. split; try done. by rewrite Hs. Qed.
Lemma set_pending_kept l w : kept w (set_pendingCalls l w).
Proof. by split. Qed.

Lemma trOnInsn_kept base mem code c regs flags w : (forall s, session w = Some s -> cbs_ok (s_cbs s)) ->
  kept w (trOnInsn base mem code c regs flags w).2.
Proof.
  intros Hc. unfold trOnInsn. destruct (session w) as [s|] eqn:Es; [|reflexivity]. cbv zeta. specialize (Hc s eq_refl).
  assert (Hsp : kept w (set_session (Some (spend s)) w)) by (by apply (set_session_kept s)).
  assert (Hab : forall w', kept w w' -> kept w (set_session (Some (abort_session (spend s))) w')).
  { intros w' []. split; try done. by rewrite Es. }
  assert (Hho : forall w', kept w w' -> kept w (set_session (Some (handoff_session (spend s))) w')).
  { intros w' []. split; try done. by rewrite Es. }
  assert (Hfl : forall f, kept w (fail f (set_session (Some (spend s)) w))) by (intros; etransitivity; [exact Hsp|apply fail_kept]).
  destruct (over_budget (spend s)); [by apply Hab|]. destruct (must_hand_off _ _ _ _) as [[]|]; [by apply Hho| |apply Hfl].
  change (s_cbs (spend s)) with (s_cbs s). destruct (s_cbs s) as [cbs|]; [|done]. cbn [mbind option_bind].
  destruct (cb_onInsn cbs) as [cb|] eqn:Ecb; [|done]. destruct (event_regsSize _ _ _ _); [|apply Hfl].
  match goal with |- context [on_platform ?f ?w0] => pose proof (on_platform_kept f w0 (cf_onInsn _ _ (Hc cbs eq_refl) cb _ _ Ecb)) as Hk;
    destruct (on_platform f w0) as [[] w1] end; cbn [snd] in *; [|apply Hab]; by etransitivity.
Qed.

Lemma trOnInvokePre_kept scope c m op r n args w : fallback_follows P (refs w) -> (forall s, session w = Some s -> cbs_ok (s_cbs s)) ->
  kept w (trOnInvokePre scope c m op r n args w).2.
Proof.
  intros Hf Hc. unfold trOnInvokePre. destruct (session w) as [s|] eqn:Es; [|reflexivity]. specialize (Hc s eq_refl).
  destruct (s_dex s) as [dex|]; [|reflexivity]. cbv zeta. destruct (negb _); [reflexivity|].
  match goal with |- context [resolveArtMethod ?rf ?b w] => pose proof (resolveArtMethod_kept rf b w Hf) as H1;
    destruct (resolveArtMethod rf b w) as [am w1] end. cbn [snd] in H1.
  destruct (passScopeFilter _ _ _); [|cbn [snd]; etransitivity; [exact H1|apply fail_kept]].
  destruct (s_cbs s) as [cbs|]; [|done]. cbn [mbind option_bind]. destruct (cb_onInvoke cbs) as [cb|] eqn:Ecb; [|done].
  match goal with |- context [buildInvokeEventBase ?a ?b ?cc ?d ?e ?f ?g w1] =>
    pose proof (event_kept a b cc d e f g w1 (kept_fallback _ _ H1 Hf)) as H2; destruct (buildInvokeEventBase a b cc d e f g w1) as [ev w2] end.
  cbn [snd] in H2.
  match goal with |- context [on_platform ?f w2] => pose proof (on_platform_kept f w2 (cf_onInvoke _ _ (Hc cbs eq_refl) cb _ _ Ecb)) as H3;
    destruct (on_platform f w2) as [[[v mock] wr] w3] end. cbn [snd] in H3.
  match goal with |- context [set_pendingCalls ?l w3] => pose proof (set_pending_kept l w3) as H4; set (w4 := set_pendingCalls l w3) in * end.
  assert (H : kept w w4) by (etransitivity; [exact H1|]; etransitivity; [exact H2|]; by etransitivity).
  destruct v; [done| |done]. destruct (_ || IsNative am w1); [|destruct (_ && _); done].
  destruct (match s_opts s with Some o => enable_native_step_in o | None => false end); [|done].
  match goal with |- context [on_platform ?f w4] => pose proof (on_platform_kept f w4 (af_resolve _ _ HA _ _ _ _ _)) as H5;
    destruct (on_platform f w4) as [rt w5] end. cbn [snd] in *. by etransitivity.
Qed.

(** What is asked of the executor that runs the methods stepped into. *)
Definition runner_keeps (levels : nat) (rec : Runner) : Prop :=
  forall method thisObj args shorty cbs opts filter depth w, cbs_ok cbs -> room levels w ->
    kept w (rec method thisObj args shorty cbs opts filter depth w).2 /\
    session (rec method thisObj args shorty cbs opts filter depth w).2 = session w.

Lemma native_kept s am ref st m r args out w : fallback_follows P (refs w) -> kept w (step_into_native s am ref st m r args out w).2.
Proof.
  intros Hf. unfold step_into_native. destruct (negb _); [reflexivity|].
  match goal with |- context [on_platform ?f w] => pose proof (on_platform_kept f w (af_resolve _ _ HA _ _ _ _ _)) as H1;
    destruct (on_platform f w) as [rt w1] end. cbn [snd] in H1.
  match goal with |- kept w (let '(_, _) := ?x in _).2 => assert (H2 : kept w1 x.2) end.
  { destruct st; [|reflexivity]. pose proof (FindClass_kept (strip_descriptor (DexResolver.class_descriptor ref)) w1 (kept_fallback _ _ H1 Hf)) as Hk.
    destruct (FindClassRefCached _ _ _) as [[c g] p]. destruct Hk. split; try done. intros Hn.
    etransitivity; [by apply k_platform0|]. apply (clear_exception_P P HJ). }
  match goal with |- kept w (let '(_, _) := ?x in _).2 => destruct x as [rc w2] end. cbn [snd] in H2.
  match goal with |- context [on_platform ?f w2] => pose proof (on_platform_kept f w2 (af_dispatch _ _ HA _ _ _ _ _ _ _)) as H3;
    destruct (on_platform f w2) as [rd w3] end. cbn [snd] in *. etransitivity; [exact H1|]. by etransitivity.
Qed.
Lemma trStepIn_kept levels rec c m op r n args out w : runner_keeps levels rec -> ready levels w ->
  kept w (trStepIn rec c m op r n args out w).2.
Proof.
  intros Hrec [[Hf Hd] Hc]. unfold trStepIn. destruct (session w) as [s|] eqn:Es; [|reflexivity]. specialize (Hc s eq_refl).
  destruct (s_dex s) as [dex|]; [|reflexivity]. cbv zeta. destruct (negb _); [reflexivity|].
  match goal with |- context [resolveArtMethod ?rf ?b w] => pose proof (resolveArtMethod_kept rf b w Hf) as H1;
    destruct (resolveArtMethod rf b w) as [am w1] end. cbn [snd] in H1.
  destruct (_ || _); [done|]. destruct (_ <=? _); [done|].
  destruct (IsNative am w1); [etransitivity; [exact H1|apply native_kept; by eapply kept_fallback]|].
  assert (Hroom : room levels w1).
  { split; [by eapply kept_fallback|]. destruct (k_refs _ _ H1) as [-> _]. done. }
  match goal with |- context [rec ?a ?b ?cc ?d ?e ?f ?g ?h w1] => destruct (Hrec a b cc d e f g h w1 Hc Hroom) as [H2 Hs2];
    destruct (rec a b cc d e f g h w1) as [res w2] end. cbn [snd] in *.
  assert (H : kept w w2) by (by etransitivity).
  destruct (_ && _); [|by destruct (_ || _)]. cbn [snd]. destruct H. split; try done. cbn. rewrite Es in *. by destruct (session w2).
Qed.

Lemma session_tracer_follows levels rec base mem scope code : runner_keeps levels rec ->
  tracer_follows (moved levels) (kSessionTracer base mem scope rec code).
Proof.
  intros Hrec. split; intros; cbn in *; simplify_eq.
  - intros [[Hf _] Hc]. by apply trOnInvokePre_kept.
  - intros Hr. by eapply trStepIn_kept.
  - intros [[Hf _] Hc]. unfold trOnInvokePost. destruct (session w) as [s|]; [|reflexivity]. specialize (Hc s eq_refl).
    destruct (s_cbs s) as [cbs|]; [|reflexivity]. cbn [mbind option_bind]. destruct (cb_onInvokePost cbs) eqn:Ecb; [|reflexivity].
    destruct (s_dex s); [|reflexivity]. destruct (pendingCalls w); [reflexivity|]. etransitivity; [apply set_pending_kept|].
    apply set_platform_kept. by apply (cf_onInvokePost _ _ (Hc _ eq_refl)).
  - intros [[Hf _] Hc]. unfold trOnException. destruct (session w) as [s|]; [|reflexivity]. specialize (Hc s eq_refl).
    destruct (s_cbs s) as [cbs|]; [|reflexivity]. cbn [mbind option_bind]. destruct (cb_onException cbs) eqn:Ecb; [|reflexivity].
    apply set_platform_kept. by apply (cf_onException _ _ (Hc _ eq_refl)).
Qed.

End Worlds.

End InterpKeeps.
