(* ===== verification/InterpBalance.v ===== *)
(** * Runs of the executor restore the thread

    [runMethodInternal], with all the methods it steps into, leaves the
    stacks, the session and the count of frames as it found them, and pops
    each JNI local frame it pushes. *)
From stdpp Require Import gmap.
From S2P Require Import Prelude.
From S2P Require Import VmEnv.
From S2P Require Import VmInterp.
From S2P Require Import VmWorldRel.
From S2P Require Import CodeProvider.
From S2P Require Import DexResolver.
From S2P Require Import ResolverBridge.
From S2P Require Import InterpSig.
From S2P Require Import InterpTrace.
From S2P Require Import InterpSession.
From S2P Require Import InterpExec.
From S2P Require Import InterpKeeps.
Import VmEnv VmInterp VmWorldRel CodeProvider ClassRefs InterpSig InterpTrace InterpSession InterpExec InterpKeeps.
Local Open Scope cint_scope.

Module InterpBalance.

Section Balance.
Context {W : Type} {jni : JNI W} {names : JNINames W} {frames : JNIFrames W} {art : ArtRuntime W} {log : Log W}.
Context (P : relation W) {HP : PreOrder P}.
Context (HJ : jni_follows P jni) (HN : names_follow P names) (HA : art_follows P art) (HL : log_follows P log).
Abbreviation World := (World W).
#[local] Existing Instance session_same_preorder.
#[local] Existing Instance kept_preorder.
#[local] Existing Instance moved_preorder.

(** A failed push is a step; after a successful one, [P]-steps and a pop
    make a step. *)
Record frames_follow : Prop := {
  ff_fail n w : (PushLocalFrame n w).1 < 0 -> P w (PushLocalFrame n w).2;
  ff_pop n w w1 r : 0 <= (PushLocalFrame n w).1 -> P (PushLocalFrame n w).2 w1 -> P w (PopLocalFrame r w1).2;
  ff_type r w : P w (GetObjectRefType r w).2 }.
Context (HF : frames_follow).

Context (base : Z) (mem : list Z) (primitive_class : prim -> Z) (gVm : vmGlobals) (g_appScopePkg : list Z).
Context (g_traceEnabled dumpRegsAfter : bool) (uninit : Z -> Z) (vm_fuel : nat).
Abbreviation interpret := (interpret base mem primitive_class gVm g_appScopePkg g_traceEnabled dumpRegsAfter uninit vm_fuel).
Abbreviation run_session := (run_session base mem primitive_class gVm g_appScopePkg g_traceEnabled dumpRegsAfter uninit vm_fuel).
Abbreviation run_method := (run_method base mem primitive_class gVm g_appScopePkg g_traceEnabled dumpRegsAfter uninit vm_fuel).
Abbreviation runMethodInternal := (runMethodInternal base mem primitive_class gVm g_appScopePkg g_traceEnabled dumpRegsAfter uninit vm_fuel).

(** ** The instruction log *)

Lemma emit_P ctx p d regs flags w w' : emitTracedInstruction ctx p d regs flags w = Some w' -> P w w'.
Proof.
  unfold emitTracedInstruction. destruct (p <? 0); [done|]. destruct (line_regs _ _ _ _); [|done]. intros [= <-]. apply HL.
Qed.
Lemma flush_P ctx regs flags w ctx' w' : flush ctx regs flags w = Some (ctx', w') -> P w w'.
Proof.
  unfold flush. destruct (hasPending ctx); [|intros [= _ <-]; reflexivity].
  destruct (emitTracedInstruction _ _ _ _ _ w) eqn:Ee; [|done]. cbn. intros [= _ <-]. by eapply emit_P.
Qed.
Lemma hook_P p regs flags ctx w ctx' w' : vmTraceHookImpl p regs flags ctx w = Some (ctx', w') -> P w w'.
Proof.
  unfold vmTraceHookImpl. destruct (negb _); [intros [= _ <-]; reflexivity|].
  destruct (flush ctx regs flags w) as [[c1 w1]|] eqn:Ef; [|done]. apply flush_P in Ef. cbn.
  destruct (_ <=? _); [by intros [= _ <-]|]. destruct (insnsBase c1 !!z p); [|done]. cbn. destruct (_ || _); [|by intros [= _ <-]].
  destruct (emitTracedInstruction _ _ _ _ _ w1) eqn:Ee; [|done]. cbn. intros [= _ <-]. apply emit_P in Ee. by etransitivity.
Qed.

Lemma trace_hook_kept p i regs flags (w : World) : kept P w (trace_hook p i regs flags w).
Proof.
  unfold trace_hook. destruct (vmTraceHookImpl _ _ _ _ _) as [[ctx p']|] eqn:Eh; [|by apply fail_kept].
  apply hook_P in Eh. by split.
Qed.

(** ** A frame *)

Lemma env_follows levels rec code traced : runner_keeps P levels rec ->
  platform_follows (E := run_env base mem primitive_class gVm g_appScopePkg uninit rec code traced) (moved P levels).
Proof.
  intros Hrec. split.
  - by apply session_jni_follows.
  - by apply session_resolver_follows.
  - intros tr [= <-]. by apply session_tracer_follows.
  - intros f p i regs flags w. cbn. destruct traced; [|done]. intros [= <-] _. apply trace_hook_kept.
Qed.
Lemma env_insn levels rec code traced :
  insn_follows (E := run_env base mem primitive_class gVm g_appScopePkg uninit rec code traced) (moved P levels).
Proof. intros tr f c regs flags w [= <-] [= <-] [_ Hc]. by apply trOnInsn_kept. Qed.

Lemma set_trace_kept t (w : World) : kept P w (set_trace t w).
Proof. by split. Qed.

Lemma interpret_kept levels rec dex code n regs flags opts fctx w : runner_keeps P levels rec -> ready P levels w ->
  kept P w (interpret rec dex code n regs flags opts fctx w).2.
Proof.
  intros Hrec Hr. unfold InterpExec.interpret. cbv zeta. set (traced := g_traceEnabled || _).
  set (w1 := if traced then _ else w). assert (H1 : kept P w w1) by (unfold w1; destruct traced; [apply set_trace_kept|reflexivity]).
  destruct (vmInterpret2 _ _ _ _ _ _ _ w1) as [rv s| |] eqn:Ev; [..|by apply fail_kept|by apply fail_kept].
  assert (H2 : kept P w (world s)).
  { etransitivity; [exact H1|]. apply (vmInterpret2_follows (moved P levels) (env_follows levels rec code traced Hrec)
      (env_insn levels rec code traced) _ _ _ _ _ _ _ _ _ _ Ev). by eapply ready_kept. }
  destruct traced; [|done]. destruct (trace_leave _ _ _ _ _) as [[ctx p]|] eqn:Et.
  - cbn [snd]. unfold trace_leave in Et. destruct (flush _ _ _ _) as [[c' p']|] eqn:Ef; [|done]. cbn in Et. injection Et as _ <-.
    apply flush_P in Ef. destruct H2. split; try done. intros Hn. etransitivity; [by apply k_platform0|done].
  - cbn [snd]. etransitivity; [exact H2|]. etransitivity; [by apply set_trace_kept|by apply fail_kept].
Qed.

(** ** A method *)

(** Equal but for the platform, the caches, the log and the pending calls. *)
Record same_thread (w w' : World) : Prop := {
  st_active : activeStack w' = activeStack w; st_frames : frameStack w' = frameStack w; st_interp : interpStack w' = interpStack w;
  st_refs : refs_kept (refs w) (refs w'); st_fault : is_Some (fault w) -> is_Some (fault w') }.
Lemma kept_same w w' : kept P w w' -> same_thread w w'.
Proof. intros []. by split. Qed.

(** Any call of the platform. *)
Lemma on_platform_same {A} (f : W -> A * W) w : same_thread w (on_platform f w).2 /\ session (on_platform f w).2 = session w.
Proof. rewrite ?on_platform_eq. by destruct (f (platform w)). Qed.
Lemma same_trans a b c : same_thread a b -> same_thread b c -> same_thread a c.
Proof. intros [? ? ? [] ?] [? ? ? [] ?]. split; try congruence; [split; congruence|auto]. Qed.

(** Steps of the platform, and a pop. *)
Definition popped (w w' : World) : Prop :=
  same_thread w w' /\ session w' = session w /\ fault w' = fault w /\
  exists p x, P (platform w) p /\ platform w' = (PopLocalFrame x p).2.
Lemma pop_popped x w : popped w (on_platform (PopLocalFrame x) w).2.
Proof.
  rewrite ?on_platform_eq. destruct (PopLocalFrame x (platform w)) as [l p] eqn:Ep. split; [by split|]. split; [done|].
  split; [done|]. exists (platform w), x. cbn. by rewrite Ep.
Qed.
Lemma step_popped p w w' : P (platform w) p -> popped (set_platform p w) w' -> popped w w'.
Proof.
  intros Hp (Hs & He & Hf & p' & x & Hp' & Hx). split; [by destruct Hs|]. split; [done|]. split; [done|].
  exists p', x. split; [by etransitivity|done].
Qed.

Lemma promote_popped hasExc ch rv w : popped w (promote hasExc ch rv w).2.
Proof.
  assert (H0 : forall w, popped w (let '(_, w1) := on_platform (PopLocalFrame 0) w in (0, w1)).2).
  { intros w1. pose proof (pop_popped 0 w1). by destruct (on_platform _ w1). }
  unfold promote. destruct (negb hasExc && _).
  - pose proof (ff_type HF rv (platform w)) as Ht. rewrite on_platform_eq.
    destruct (GetObjectRefType rv (platform w)) as [ty p]. cbn [snd] in Ht. apply (step_popped p); [done|].
    destruct (rv =? 0); [apply H0|]. destruct (ty =? _); [apply pop_popped|]. destruct (ty =? _); [|apply H0].
    rewrite on_platform_eq. change (platform (set_platform p w)) with p.
    pose proof (fl_NewLocalRef _ _ HJ rv p) as Hn. destruct (NewLocalRef rv p) as [l p2]. cbn [snd] in Hn.
    apply (step_popped p2); [done|]. apply pop_popped.
  - pose proof (pop_popped 0 w). by destruct (on_platform (PopLocalFrame 0) w).
Qed.

(** What a session's start and end do to the thread. *)
Definition started (key : Z) (sess : option (Session W)) (fctx : option Z) (method : Z) (w : World) : World :=
  set_active (key :: activeStack w) (set_session sess (pushFrame fctx method w)).
Lemma started_ready levels key sess fctx method w : room P (S levels) w -> (forall s, sess = Some s -> cbs_ok P (s_cbs s)) ->
  ready P levels (started key sess fctx method w).
Proof.
  intros [Hf Hd] Hc. split; [|done]. split; [done|]. cbn. rewrite swrap_small; [lia|done|unfold in_s; lia].
Qed.
Lemma ended_same key sess fctx method outer w w' : room P 0 w -> same_thread (started key sess fctx method w) w' ->
  same_thread w (set_active (drop 1 (activeStack (popFrame w'))) (set_session outer (popFrame w'))).
Proof.
  intros [_ Hd] [Ha Hf Hi [Hr1 Hr2] Hx]. cbn in *.
  assert (Hg : g_interpDepth (refs w') = g_interpDepth (refs w) + 1).
  { rewrite Hr1. apply swrap_small; [done|unfold in_s; lia]. }
  unfold popFrame. cbn. rewrite Hg. replace (0 <? g_interpDepth (refs w) + 1) with true by lia.
  split; cbn; rewrite ?Ha, ?Hf, ?Hi; try done. split; cbn; [lia|done].
Qed.

Lemma room_0 levels w : room P levels w -> room P 0 w.
Proof. intros [Hf Hd]. split; [done|lia]. Qed.

Lemma run_session_balanced levels rec method dex bdex key code ic regs flags sh cbs opts filter depth w p0 :
  runner_keeps P levels rec -> cbs_ok P cbs -> room P (S levels) w ->
  0 <= (PushLocalFrame 512 p0).1 -> P (PushLocalFrame 512 p0).2 (platform w) ->
  let r := run_session rec method dex bdex key code ic regs flags sh cbs opts filter depth w in
  same_thread w r.2 /\ session r.2 = session w /\ (fault r.2 = None -> P p0 (platform r.2)).
Proof.
  intros Hrec Hc Hr Hpush Hp. unfold InterpExec.run_session. cbv zeta.
  set (sess := if hasActiveCallbacks cbs then Some (makeSession _ _ _ _ _ _) else None). set (fctx := if hasActiveCallbacks cbs then Some depth else None).
  change (set_active (key :: activeStack _) (set_session sess (pushFrame fctx method w))) with (started key sess fctx method w).
  assert (Hready : ready P levels (started key sess fctx method w)).
  { apply started_ready; [done|]. intros s. unfold sess. destruct (hasActiveCallbacks cbs); [|done]. by intros [= <-]. }
  match goal with |- context [interpret ?a ?b ?c ?d ?e ?f ?g ?h ?ww] =>
    pose proof (interpret_kept levels a b c d e f g h ww Hrec Hready) as H1; destruct (interpret a b c d e f g h ww) as [rv w1] end.
  cbn [snd] in H1.
  pose proof (on_platform_kept P ExceptionCheck w1 (fl_ExceptionCheck _ _ HJ _)) as H2. destruct (on_platform ExceptionCheck w1) as [exc w2].
  cbn [snd] in H2. assert (H12 : kept P (started key sess fctx method w) w2) by (by etransitivity).
  pose proof (promote_popped (negb (exc =? 0)) (List.hd 0 sh) rv w2) as H3. destruct (promote _ _ rv w2) as [rv3 w3]. cbn [snd] in H3.
  destruct H3 as (Hs3 & _ & Hf3 & p & x & Hpx & Hpop). cbn [snd].
  assert (Hsame : same_thread (started key sess fctx method w) w3) by (eapply same_trans; [by apply kept_same|done]).
  split; [|split; [done|]].
  - apply (ended_same key sess fctx method (session w)) in Hsame; [done|by eapply room_0].
  - assert (Hpf : fault (popFrame w3) = fault w3 /\ platform (popFrame w3) = platform w3)
      by (unfold popFrame; destruct (_ <? _); done).
    destruct Hpf as [Hpf1 Hpf2]. cbn. rewrite Hpf1, Hpf2, Hf3, Hpop. intros Hn.
    apply (ff_pop HF 512 p0); [done|]. etransitivity; [exact Hp|]. etransitivity; [|exact Hpx].
    exact (k_platform _ _ _ H12 Hn).
Qed.

Lemma own_P o p : P p (own o p).2.
Proof. unfold own. destruct (o =? 0); [reflexivity|apply (fl_NewLocalRef _ _ HJ)]. Qed.
Lemma pack_params_P params : forall args slot regs flags p r f p', pack_params params args slot regs flags p = Some (r, f, p') -> P p p'.
Proof.
  induction params as [|c params IH]; intros args slot regs flags p r f p'; [by destruct args; intros [= _ _ <-]|].
  destruct args as [|a args]; [done|]. cbn [pack_params].
  destruct (c =? ch_J); [apply IH|]. destruct (c =? ch_D); [apply IH|]. destruct (c =? ch_F); [apply IH|].
  destruct (c =? ch_L); [|apply IH]. pose proof (own_P a p) as Ho. destruct (own a p) as [l p1]. cbn [snd] in Ho.
  intros H. etransitivity; [exact Ho|]. exact (IH _ _ _ _ _ _ _ _ H).
Qed.
Lemma packRegisters_P ic st this args sh p : P p (packRegisters ic st this args sh p).2.
Proof.
  unfold packRegisters. destruct (negb _); [reflexivity|]. destruct (_ <? _); [reflexivity|]. cbv zeta.
  assert (Hpk : forall slot regs flags p1, P p p1 -> P p (match pack_params (drop 1 sh) args slot regs flags p1 with
      | None => (PackOutside, p1) | Some (regs, flags, w) => (PackOk regs flags, w) end).2).
  { intros slot regs flags p1 H1. destruct (pack_params _ _ _ _ _ _) as [[[r f] p']|] eqn:Ep; [|done].
    apply pack_params_P in Ep. cbn. by etransitivity. }
  destruct st; [apply Hpk; reflexivity|].
  pose proof (own_P this p) as Ho. destruct (own this p) as [l p1]. by apply Hpk.
Qed.

Lemma same_kept w w' : same_thread w w' -> session w' = session w -> (fault w' = None -> P (platform w) (platform w')) ->
  kept P w w' /\ session w' = session w.
Proof. intros [] He Hp. split; [|done]. split; try done. by rewrite He. Qed.
Lemma run_method_keeps levels rec : runner_keeps P levels rec -> runner_keeps P (S levels) (run_method rec).
Proof.
  intros Hrec method this args sh cbs opts filter depth w Hc Hr.
  set (G := fun r : RunResult * World => kept P w r.2 /\ session r.2 = session w).
  change (G (run_method rec method this args sh cbs opts filter depth w)). unfold InterpExec.run_method.
  assert (Hself : kept P w w /\ session w = session w) by (split; [reflexivity|done]).
  destruct (_ || _); [done|].
  pose proof (on_platform_kept P ExceptionCheck w (fl_ExceptionCheck _ _ HJ _)) as H1.
  pose proof (proj2 (on_platform_same ExceptionCheck w)) as E1. destruct (on_platform ExceptionCheck w) as [exc w1]. cbn [snd] in H1, E1.
  assert (Hfl : forall f, kept P w (fail f w1) /\ session (fail f w1) = session w)
    by (intros f; split; [etransitivity; [exact H1|by apply fail_kept]|done]).
  destruct (negb _); [done|]. destruct (_ <=? _); [done|]. destruct (_ || _); [done|].
  destruct (initFromMethod _ _) as [[[key dex] cd]|]; [|done].
  destruct (buildVmCode _ _ _ _) as [[[] ic]|]; [|done|apply Hfl]. destruct (code_of mem ic) as [code|]; [|apply Hfl].
  destruct (prescanInsns _ _); [|done|apply Hfl|apply Hfl].
  rewrite on_platform_eq. destruct (PushLocalFrame 512 (platform w1)) as [pushed p2] eqn:Epush.
  pose proof (ff_fail HF 512 (platform w1)) as Hfail. pose proof (ff_pop HF 512 (platform w1)) as Hpop.
  rewrite Epush in Hfail, Hpop. cbn [fst snd] in Hfail, Hpop.
  assert (Hw2 : forall p, (fault w1 = None -> P (platform w1) p) -> kept P w (set_platform p (set_platform p2 w1)) /\
      session (set_platform p (set_platform p2 w1)) = session w).
  { intros p Hp. split; [|done]. etransitivity; [exact H1|]. by split. }
  cbv beta iota zeta. destruct (Z.ltb_spec pushed 0).
  { apply (Hw2 p2). intros _. by apply Hfail. }
  pose proof (packRegisters_P ic (HasAccessFlags (AccessFlags method (platform (set_platform p2 w1))) kStatic) this args sh
    (platform (set_platform p2 w1))) as Hpk.
  destruct (packRegisters _ _ _ _ _ _) as [pk p3]. cbn [snd] in Hpk. cbv zeta. change (platform (set_platform p2 w1)) with p2 in Hpk.
  assert (Hpop3 : kept P w (on_platform (PopLocalFrame 0) (set_platform p3 (set_platform p2 w1))).2 /\
    session (on_platform (PopLocalFrame 0) (set_platform p3 (set_platform p2 w1))).2 = session w).
  { rewrite ?on_platform_eq. specialize (Hpop p3 0 ltac:(lia) Hpk). change (platform (set_platform p3 (set_platform p2 w1))) with p3.
    destruct (PopLocalFrame 0 p3) as [l p4]. cbn [snd] in *. apply (Hw2 p4). intros _. exact Hpop. }
  destruct pk as [| |regs flags].
  - by destruct (on_platform (PopLocalFrame 0) _).
  - cbn [snd]. split; [|done]. etransitivity; [exact H1|]. by split.
  - unfold acquireBridge. change (registry (set_platform p3 (set_platform p2 w1))) with (registry w1). cbv beta iota zeta.
    assert (Hrun : forall w4 bdex, same_thread w1 w4 -> session w4 = session w1 -> platform w4 = p3 ->
      let r := run_session rec method dex bdex key code ic regs flags sh cbs opts filter depth w4 in
      kept P w r.2 /\ session r.2 = session w).
    { intros w4 bdex Hs4 He4 Hp4. cbv zeta.
      assert (Hr4 : room P (S levels) w4).
      { destruct (k_refs _ _ _ H1) as [D1 F1], (st_refs _ _ Hs4) as [D2 F2]. destruct Hr as [Hf Hd]. split; [|rewrite D2, D1; lia].
        unfold fallback_follows. by rewrite F2, F1. }
      destruct (run_session_balanced levels rec method dex bdex key code ic regs flags sh cbs opts filter depth w4 (platform w1)) as (A & B & C);
        try done; [rewrite Epush; cbn; lia|by rewrite Epush, Hp4|].
      split; [|congruence]. etransitivity; [exact H1|]. apply same_kept; [by eapply same_trans|congruence|exact C]. }
    destruct (registry w1 !! key) as [[bdex b]|].
    + destruct (negb _); [by destruct (on_platform (PopLocalFrame 0) _)|]. by apply Hrun.
    + cbn [ResolverBridge.init negb]. cbn. by apply Hrun.
Qed.

Lemma runMethodInternal_keeps levels : runner_keeps P levels (runMethodInternal levels).
Proof.
  induction levels as [|levels IH]; [|by apply run_method_keeps].
  intros method this args sh cbs opts filter depth w _ _. split; [|done]. by apply fail_kept.
Qed.

End Balance.

(** ** The claim *)
Section Count.
Context {W : Type} {jni : JNI W} {names : JNINames W} {frames : JNIFrames W} {art : ArtRuntime W} {log : Log W}.
(** How many local frames are open. *)
Context (open : W -> Z).
Definition same_open (w w' : W) : Prop := open w = open w'.
#[local] Instance same_open_preorder : PreOrder same_open.
Proof. split; [done|]. intros a b c. unfold same_open. congruence. Qed.

(** A push that succeeds opens one, a pop closes one, and nothing else does
    either - callbacks included. *)
Record counts_frames : Prop := {
  count_jni : jni_follows same_open jni; count_names : names_follow same_open names;
  count_art : art_follows same_open art; count_log : log_follows same_open log;
  count_fail n w : (PushLocalFrame n w).1 < 0 -> open (PushLocalFrame n w).2 = open w;
  count_push n w : 0 <= (PushLocalFrame n w).1 -> open (PushLocalFrame n w).2 = open w + 1;
  count_pop r w : open (PopLocalFrame r w).2 = open w - 1;
  count_type r w : open (GetObjectRefType r w).2 = open w }.

Lemma counts_follow : counts_frames -> frames_follow same_open.
Proof.
  intros []. split; unfold same_open.
  - intros n w H. by rewrite count_fail0.
  - intros n w w1 r H E. rewrite count_pop0, <- E, count_push0 by done. lia.
  - intros r w. by rewrite count_type0.
Qed.

Context (base : Z) (mem : list Z) (primitive_class : prim -> Z) (gVm : vmGlobals) (g_appScopePkg : list Z).
Context (g_traceEnabled dumpRegsAfter : bool) (uninit : Z -> Z) (vm_fuel : nat).

(** C9: runs of the executor are balanced.  On every path - arguments that do
    not fit, an exception, a method stepped into at any depth that itself
    fails or aborts - a run leaves the stacks of frames, methods and bridges,
    the nesting count that guards FindClass, and the caller's session as
    they were, and pops each JNI local frame it pushed. *)
Theorem run_restores_thread levels method this args sh cbs opts filter depth w :
  counts_frames -> cbs_ok same_open cbs -> room same_open levels w ->
  let w' := (runMethodInternal base mem primitive_class gVm g_appScopePkg g_traceEnabled dumpRegsAfter uninit vm_fuel
    levels method this args sh cbs opts filter depth w).2 in
  activeStack w' = activeStack w /\ frameStack w' = frameStack w /\ interpStack w' = interpStack w /\
  g_interpDepth (refs w') = g_interpDepth (refs w) /\ session w' = session w /\
  (fault w' = None -> open (platform w') = open (platform w)).
Proof.
  intros Hc Hcb Hr. pose proof (counts_follow Hc) as HF. destruct Hc.
  destruct (runMethodInternal_keeps same_open count_jni0 count_names0 count_art0 count_log0 HF base mem primitive_class gVm g_appScopePkg
    g_traceEnabled dumpRegsAfter uninit vm_fuel levels method this args sh cbs opts filter depth w Hcb Hr) as [[? ? ? [? _] _ _ Hp] Hs].
  split_and!; try done. intros Hf. by rewrite (Hp Hf).
Qed.
End Count.

End InterpBalance.
