(* ===== verification/InterpScan.v ===== *)
(** * The pre-scan of a method's code

    [prescanInsns] (src/sandbox/pi_interp_executor.cpp) ends, and accepts
    exactly the code that instructions and payloads it knows fill without a
    gap or an overhang. *)
From S2P Require Import Prelude.
From S2P Require Import Memory.
From S2P Require Import DexOpcodes.
From S2P Require Import Smali.
From S2P Require Import SmaliProofs.
From S2P Require Import VmFootprint.
From S2P Require Import VmEnv.
From S2P Require Import CodeProvider.
From S2P Require Import InterpExec.
Import Memory CodeProvider InterpExec.
Local Open Scope cint_scope.

Module InterpScan.

Section Scan.
Context (insns : list Z).
Hypothesis Hu : Forall (in_u 16) insns.

Lemma unit_in_u i u : insns !!z i = Some u -> in_u 16 u.
Proof. by apply (zlookup_Forall (in_u 16)). Qed.

Lemma width_range pc n : width_at insns pc = Wide n -> 1 <= n < 2 ^ 31 + 4.
Proof.
  unfold width_at. destruct (insns !!z pc) as [u|] eqn:Eu; [|done]. apply unit_in_u in Eu as Hr.
  destruct (_ && _).
  - destruct (u =? 0x0100).
    { destruct (insns !!z (pc + 1)) as [m|] eqn:Em; [|done]. apply unit_in_u in Em. unfold in_u in Em. intros [= <-]. lia. }
    destruct (u =? 0x0200).
    { destruct (insns !!z (pc + 1)) as [m|] eqn:Em; [|done]. apply unit_in_u in Em. unfold in_u in Em. intros [= <-]. lia. }
    destruct (u =? 0x0300); [|done].
    destruct (insns !!z (pc + 2)), (insns !!z (pc + 3)), (insns !!z (pc + 1)); try done. intros [= <-].
    match goal with |- context [U32 ?x `div` 2] => pose proof (wrap_in_u 32 x ltac:(lia)) as Hw; set (y := U32 x) in * end.
    unfold in_u in Hw. assert (0 <= y `div` 2 < 2 ^ 31) by (split; [apply Z.div_pos; lia|apply Z.div_lt_upper_bound; lia]). lia.
  - destruct (_ <=? _); [done|]. case_match; [done|]. intros [= <-].
    assert (Hop : 0 <= u & 0xFF < 256) by (change 0xFF with (Z.ones 8); rewrite Z.land_ones by lia; by apply Z.mod_pos_bound).
    pose proof (SmaliProofs.size_of_byte_range [] (u & 0xFF) Hop). lia.
Qed.

Lemma prescan_loop_ends size : size <= 2 ^ 31 - 4 -> forall fuel pc, 0 <= pc -> size - pc <= Z.of_nat fuel ->
  prescan_loop fuel insns size pc <> ScanFuel.
Proof.
  intros Hs. induction fuel as [|fuel IH]; intros pc Hp Hf; simpl.
  { destruct (Z.ltb_spec pc size); [lia|]. by destruct (_ =? _). }
  destruct (Z.ltb_spec pc size); [|by destruct (_ =? _)].
  destruct (width_at insns pc) as [n| |] eqn:Ew; [|done..]. apply width_range in Ew.
  rewrite (wrap_small 32 (pc + n)) by (unfold in_u; lia). destruct (_ && _); [done|]. apply IH; lia.
Qed.

(** A unit an instruction or a payload may start with. *)
Definition known (u : Z) : bool :=
  if (u & 0xFF =? 0x00) && negb (u =? 0x0000) then (u =? 0x0100) || (u =? 0x0200) || (u =? 0x0300) else u & 0xFF <? 0xE3.
(** From [pc] to [size], one after the other, each as long as the
    disassembler says. *)
Inductive fills (size : Z) : Z -> Prop :=
| fills_end : fills size size
| fills_step pc u n : insns !!z pc = Some u -> known u = true -> Smali.insn_size insns pc = Some n ->
    pc + n <= size -> fills size (pc + n) -> fills size pc.

Lemma width_spec pc n : width_at insns pc = Wide n <->
  exists u, insns !!z pc = Some u /\ known u = true /\ Smali.insn_size insns pc = Some n.
Proof.
  unfold width_at, Smali.insn_size, known. destruct (insns !!z pc) as [u|] eqn:Eu; [|by split; [|intros (? & ? & _)]].
  apply unit_in_u in Eu. assert (Hop : 0 <= u & 0xFF < 256) by (change 0xFF with (Z.ones 8); rewrite Z.land_ones by lia; by apply Z.mod_pos_bound).
  cbn [mbind option_bind].
  assert (Hx : forall P : Z -> Prop, (exists v, Some u = Some v /\ P v) <-> P u) by (intros P; split; [by intros (v & [= ->] & ?)|by exists u]).
  rewrite (Hx (fun v => (if (v & 0xFF =? 0x00) && negb (v =? 0x0000) then (v =? 0x0100) || (v =? 0x0200) || (v =? 0x0300) else v & 0xFF <? 0xE3) = true /\ _)).
  clear Hx. destruct (Z.eqb_spec (u & 0xFF) 0x00) as [E0|E0].
  - destruct (Z.eqb_spec u 0x0000) as [->|Hn]; cbn [andb negb].
    { by split; [intros [= <-]|intros [_ [= <-]]]. }
    destruct (Z.eqb_spec u 0x0100) as [->|]; [destruct (insns !!z (pc + 1)); cbn; split; intros; simplify_eq; naive_solver (f_equal; lia)|].
    destruct (Z.eqb_spec u 0x0200) as [->|]; [destruct (insns !!z (pc + 1)); cbn; split; intros; simplify_eq; naive_solver (f_equal; lia)|].
    destruct (Z.eqb_spec u 0x0300) as [->|]; [|cbn; split; [done|naive_solver]].
    destruct (insns !!z (pc + 2)) as [lo|] eqn:El, (insns !!z (pc + 3)) as [hi|] eqn:Eh, (insns !!z (pc + 1)) as [w|] eqn:Ew;
      cbn; try (split; [done|naive_solver]).
    apply unit_in_u in El, Eh, Ew.
    assert (Hc : U32 (lo .| U32 (hi << 16)) = lo .| (hi << 16)).
    { assert (in_u 32 (hi << 16)) by (unfold in_u in *; rewrite Z.shiftl_mul_pow2 by lia; lia). rewrite (wrap_small 32 (hi << 16)) by done.
      apply wrap_small, in_u_lor; [done| |done]. by eapply in_u_mono; [|exact El]. }
    rewrite Hc, (Z.mul_comm w). set (y := U32 _). assert (Hy : in_u 32 y) by (by apply wrap_in_u). unfold in_u in Hy.
    assert (0 <= y `div` 2 < 2 ^ 31) by (split; [apply Z.div_pos; lia|apply Z.div_lt_upper_bound; lia]).
    rewrite (wrap_small 32 (4 + y `div` 2)) by (unfold in_u; lia). split; [by intros [= ->]|by intros [_ [= ->]]].
  - assert (Hp : (u =? 0x0100) = false /\ (u =? 0x0200) = false /\ (u =? 0x0300) = false).
    { split_and!; apply Z.eqb_neq; intros ->; by apply E0. }
    destruct Hp as (-> & -> & ->). cbn [andb].
    pose proof (SmaliProofs.size_of_byte_range [] (u & 0xFF) Hop).
    destruct (Z.leb_spec 0xE3 (u & 0xFF)); [split; [done|intros [? _]; lia]|].
    replace (u & 0xFF <? 0xE3) with true by lia.
    replace (Smali.size_of_byte (u & 0xFF) =? 0) with false by lia. split; [by intros [= ->]|by intros [_ [= ->]]].
Qed.

Lemma fills_le size pc : fills size pc -> pc <= size.
Proof. induction 1 as [|pc u n Eu Hk Hw Hn _ IH]; [lia|]. assert (width_at insns pc = Wide n) as Hr by (apply width_spec; eauto).
  apply width_range in Hr. lia. Qed.

Lemma prescan_loop_accepts size : size <= 2 ^ 31 - 4 -> forall fuel pc, 0 <= pc -> size - pc <= Z.of_nat fuel ->
  prescan_loop fuel insns size pc = Accept <-> fills size pc.
Proof.
  intros Hs. induction fuel as [|fuel IH]; intros pc Hp Hf; simpl.
  - destruct (Z.ltb_spec pc size); [lia|]. destruct (Z.eqb_spec pc size) as [->|]; [by split; [constructor|]|].
    split; [done|]. intros F%fills_le. lia.
  - destruct (Z.ltb_spec pc size).
    + destruct (width_at insns pc) as [n| |] eqn:Ew.
      2-3: split; [done|]; intros F; inversion F as [|? u n Eu Hk Hi]; [lia|]; assert (width_at insns pc = Wide n) by (apply width_spec; eauto); congruence.
      assert (Hinv : fills size pc -> fills size (pc + n)).
      { intros F; inversion F as [|? u n' Eu Hk Hi Hle Hf']; [lia|]. assert (width_at insns pc = Wide n') by (apply width_spec; eauto). assert (n' = n) as <- by congruence. done. }
      apply width_spec in Ew as (u & Eu & Hk & Hi). assert (Hn : width_at insns pc = Wide n) by (apply width_spec; eauto).
      apply width_range in Hn. rewrite (wrap_small 32 (pc + n)) by (unfold in_u; lia).
      assert (Hover : size < pc + n -> ~ fills size pc /\ prescan_loop fuel insns size (pc + n) <> Accept).
      { intros Hlt. split.
        - intros Hf2%Hinv%fills_le. lia.
        - rewrite IH by lia. intros Hf2%fills_le. lia. }
      destruct (Z.ltb_spec size (pc + n)) as [Hlt|Hle].
      * destruct (Hover Hlt) as [H1 H2]. destruct (negb _ && true); by split.
      * rewrite andb_false_r, IH by lia. split; [by eapply fills_step|done].
    + destruct (Z.eqb_spec pc size) as [->|]; [by split; [constructor|]|]. split; [done|]. intros F%fills_le. lia.
Qed.

End Scan.

(** C12: the pre-scan always ends with an answer about the code, and says yes
    exactly when the code is filled: a sequence of instructions with an
    opcode below 0xE3 and of switch and array payloads, each as long as the
    disassembler shows it and starting where the last one ends, the last one
    ending where the code does. *)
Theorem prescan_spec insns size : Forall (in_u 16) insns -> 0 <= size <= 2 ^ 31 - 4 ->
  prescanInsns (Some insns) size <> ScanFuel /\
  (prescanInsns (Some insns) size = Accept <-> fills insns size 0).
Proof.
  intros Hu Hs. unfold prescanInsns. split; [apply prescan_loop_ends|apply prescan_loop_accepts]; done || lia.
Qed.
Lemma prescan_spec_witness :
  prescanInsns (Some [0x0112; 0x0112; 0x0273; 0; 0; 0x000f; 0x0200; 0]) 8 = Accept /\
  fills [0x0112; 0x0112; 0x0273; 0; 0; 0x000f; 0x0200; 0] 8 0.
Proof.
  split; [reflexivity|].
  refine (proj1 (proj2 (prescan_spec [0x0112; 0x0112; 0x0273; 0; 0; 0x000f; 0x0200; 0] 8 _ _)) eq_refl); [|lia].
  repeat (constructor; [unfold in_u; lia|]). constructor.
Defined.


(** ** The code the provider hands over *)

Lemma words16_units l : Forall (in_u 8) l -> Forall (in_u 16) (words16 l).
Proof.
  revert l. fix IH 1. intros [|a [|b l]]; [constructor..|]. intros H. inversion H as [|? ? Ha H2]; subst.
  inversion H2 as [|? ? Hb Hl]; subst. constructor; [|by apply IH]. apply in_u_lor; [done|by eapply in_u_mono; [|exact Ha]|].
  unfold in_u in *. rewrite Z.shiftl_mul_pow2 by lia. lia.
Qed.
Lemma slice_bytes mem p n l : slice mem p n = Some l -> n <= Z.of_nat (length mem) /\ (bytes_ok mem -> bytes_ok l).
Proof.
  unfold slice. destruct (_ && _) eqn:E; [|done]. intros [= <-]. split; [lia|]. intros Hm. by apply Forall_take, Forall_drop.
Qed.

(** A compact item's instructions have been copied. *)
Lemma compact_copied mem ci out out' : buildCompactCodeItem mem ci out = Some (true, out') ->
  exists p l, slice mem p (insnsCount out' * 2) = Some l /\ insnsBuf out' = words16 l /\ insnsPtr out' = InsnsBuf.
Proof.
  unfold buildCompactCodeItem, add_preheader, mbind, option_bind. intros H.
  repeat (case_match; simplify_eq); eauto 10.
Qed.

Lemma provided_code base mem method cd ic code : bytes_ok mem -> buildVmCode base mem method cd = Some (true, ic) ->
  code_of mem ic = Some code -> Forall (in_u 16) (VmEnv.insns code) /\ 2 * insnsCount ic <= Z.of_nat (length mem).
Proof.
  intros Hm Hb Hc. unfold code_of, insns_of, mbind, option_bind in Hc.
  assert (Hat : forall p, insnsPtr ic = InsnsAt p -> Forall (in_u 16) (VmEnv.insns code) /\ 2 * insnsCount ic <= Z.of_nat (length mem)).
  { intros p Ep. rewrite Ep in Hc. destruct (slice mem p (insnsCount ic * 2)) as [l|] eqn:El; [|done]. simpl in Hc. simplify_eq.
    apply slice_bytes in El as [? Hl]. split; [by apply words16_units, Hl|lia]. }
  destruct (insnsPtr ic) as [|p|] eqn:Ep; [done|by apply (Hat p)|]. simplify_eq. cbn [VmEnv.insns].
  unfold buildVmCode in Hb. destruct method as [[access entry]|]; [|done]. destruct (HasAccessFlags access kNative); [done|].
  destruct (HasAccessFlags access kAbstract); [done|]. cbv zeta in Hb. destruct (_ =? 0); [done|]. cbn [isCompactDex cleared] in Hb.
  destruct cd.
  - destruct (buildCompactCodeItem _ _ _) as [[[] ic']|] eqn:Ei; [|done..]. cbn in Hb. injection Hb as <-.
    apply compact_copied in Ei as (p & l & Hl & Hi & _). cbn. apply slice_bytes in Hl as [? Hl]. rewrite Hi.
    split; [by apply words16_units, Hl|lia].
  - destruct (buildStandardCodeItem _ _ _ _) as [[[] ic']|] eqn:Ei; [|done..]. cbn in Hb. injection Hb as <-.
    unfold buildStandardCodeItem, mbind, option_bind in Ei. cbn in Ep. repeat (case_match; simplify_eq).
Qed.

End InterpScan.
