(* ===== verification/InterpLimit.v ===== *)
(** * The instruction budget ends every run

    Module VmBudget: a tracer that counts instructions and refuses to go on
    after a limit (the instruction budget of src/sandbox/pi_interp_tracer.cpp)
    makes every run of the interpreter end, whatever the code and the
    platform: each dispatch costs one unit, and a delivered exception is
    followed by a dispatch or by the end.

    Module InterpLimit: with a budget and a callback, a run of the executor -
    with all the methods it steps into - never runs out of the fuel the budget
    gives, to the depth the executor's own limit allows. *)
From stdpp Require Import gmap.
From S2P Require Import Prelude.
From S2P Require Import DexCatch.
From S2P Require Import DexOpcodes.
From S2P Require Import VmEnv.
From S2P Require Import VmInvoke.
From S2P Require Import VmInterp.
From S2P Require Import VmWorldRel.
From S2P Require Import InterpSig.
From S2P Require Import CodeProvider.
From S2P Require Import DexResolver.
From S2P Require Import ResolverBridge.
From S2P Require Import InterpTrace.
From S2P Require Import InterpSession.
From S2P Require Import InterpExec.
From S2P Require Import InterpKeeps.
From S2P Require Import InterpBalance.
From S2P Require Import InterpScan.
Import DexCatch DexOpcodes VmEnv VmInterp VmWorldRel.
Local Open Scope cint_scope.
Local Open Scope vm_scope.

Module VmBudget.

Section Budget.
Context {W : Type} `{E : VmEnv W}.
(** What the tracer has counted; no other call changes it. *)
Context (used : W -> Z) (limit : Z).

Definition same_used (w w' : W) : Prop := used w = used w'.
#[local] Instance same_used_preorder : PreOrder same_used.
Proof. split; [done|]. intros a b c. unfold same_used. congruence. Qed.

Record metered : Prop := {
  mt_platform : platform_follows same_used;
  mt_tracer : exists tr f, tracer = Some tr /\ onInsn tr = Some f /\
    forall c regs flags w, 0 <= used w <= limit -> (f c regs flags w).1 = 0 ->
      used (f c regs flags w).2 = used w + 1 /\ used w < limit }.
Context (HM : metered).

(** ** Delivery does not deliver again *)

Definition leaves {A} (m : M W A) : Prop := forall s,
  match m s with Jump c _ => c <> GotoExceptionThrown | _ => True end.
Lemma leaves_bind {A B} (m : M W A) (k : A -> M W B) : leaves m -> (forall x, leaves (k x)) -> leaves (bind m k).
Proof. intros Hm Hk s. unfold bind. specialize (Hm s). destruct (m s); [apply Hk|done..]. Qed.
Lemma leaves_ret {A} (x : A) : leaves (ret x).
Proof. by intros s. Qed.
Lemma leaves_undef {A} : leaves (A := A) undef.
Proof. by intros s. Qed.
Lemma leaves_goto {A} c : c <> GotoExceptionThrown -> leaves (A := A) (goto c).
Proof. by intros Hc s. Qed.
Lemma leaves_gets {A} (f : frame W -> A) : leaves (gets f).
Proof. by intros s. Qed.
Lemma leaves_opt {A} (o : option A) : leaves (opt o).
Proof. intros s. by destruct o. Qed.
Lemma leaves_call {A} (f : W -> A * W) : leaves (call f).
Proof. intros s. unfold call. by destruct (f _). Qed.
Lemma leaves_call_ (f : W -> W) : leaves (call_ f).
Proof. apply leaves_call. Qed.
Lemma leaves_set_pc p : leaves (set_pc p).
Proof. by intros s. Qed.
Lemma leaves_scoped {A} r (m : M W A) : leaves m -> leaves (scoped r m).
Proof.
  intros Hm s. unfold scoped. specialize (Hm s).
  assert (Hd : leaves (if negb (r =? 0) then call_ (DeleteLocalRef r) else ret tt)) by (destruct (negb _); [apply leaves_call_|done]).
  destruct (m s) as [x s'|c s'|]; [..|done].
  - exact (leaves_bind _ (fun _ => ret x) Hd (fun _ => leaves_ret x) s').
  - exact (leaves_bind _ (fun _ => goto (A := A) c) Hd (fun _ => leaves_goto c Hm) s').
Qed.

#[local] Hint Resolve leaves_bind leaves_ret leaves_undef leaves_goto leaves_gets leaves_opt leaves_call leaves_call_
  leaves_set_pc leaves_scoped : core.
Ltac leaves_auto :=
  repeat match goal with
    | |- leaves (bind _ _) => apply leaves_bind; [|intros ?]
    | |- leaves (scoped _ _) => apply leaves_scoped
    | |- leaves (match ?x with _ => _ end) => destruct x
    | |- leaves (goto _) => by apply leaves_goto
    | |- leaves _ => progress unfold FETCH, FINISH, GOTO_bail
    | |- leaves _ => solve [auto]
    end.

Lemma catch_loop_leaves f h it e : leaves (catch_loop f h it e).
Proof. revert it. induction f; intros; cbn [catch_loop]; leaves_auto. Qed.
Lemma exceptionThrown_leaves : leaves exceptionThrown.
Proof. unfold exceptionThrown, dvmFindCatchBlock, findCatchInMethod. leaves_auto; apply catch_loop_leaves. Qed.

(** ** One step *)

(** The budget that is left. *)
Definition left (s : frame W) : nat := Z.to_nat (limit - used (world s)).
Definition counted (s : frame W) : Prop := is_Some (tctx s) /\ 0 <= used (world s) <= limit.

Lemma trace_insn_spends s : counted s ->
  match trace_insn s with
  | Val _ s' => counted s' /\ left s = S (left s')
  | Jump c _ => c = GotoBail
  | Undef => True
  end.
Proof.
  intros [[c Hc] Hu]. destruct (mt_tracer HM) as (tr & f & Ht & Hf & Hspec).
  unfold trace_insn, bind, gets. rewrite Hc, Ht. cbn. rewrite Hf. cbn.
  match goal with |- context [call (f ?c ?r ?l)] => specialize (Hspec c r l (world s) Hu) end.
  unfold call. cbn. destruct (f _ _ _ (world s)) as [r w]. cbn in *. destruct (Z.eqb_spec r 0) as [->|]; [|done]. cbn.
  destruct (Hspec eq_refl) as [E1 E2]. split; [split; [by eexists|cbn; lia]|]. unfold left. cbn. lia.
Qed.

Lemma counted_moves s s' : moves same_used s s' -> counted s -> counted s' /\ left s' = left s.
Proof. unfold counted, left. intros [Eu H] [H1 H2]. rewrite <- Eu. auto. Qed.

Lemma finish_spends n s c s' : counted s -> finish n s = Jump c s' ->
  c = GotoBail \/ (counted s' /\ left s = S (left s')).
Proof.
  intros Hs. unfold finish, bind, gets at 1, set_pc.
  set (s1 := MkFrame _ _ _ _ _ _ _ _ _).
  destruct (FETCH 0 s1) as [i s2|?|] eqn:Ei; [|..|done].
  2:{ revert Ei. unfold FETCH, bind, gets, opt. by destruct (_ !!z _). }
  assert (Es2 : s2 = s1).
  { revert Ei. unfold FETCH, bind, gets, opt. destruct (_ !!z _); [|done]. by intros [= _ <-]. }
  subst s2. unfold set_inst. set (s3 := MkFrame _ _ _ _ _ _ _ _ _).
  assert (H3 : counted s3) by exact Hs. pose proof (trace_insn_spends s3 H3) as Ht.
  destruct (trace_insn s3) as [? s4|c4 s4|]; [|intros [= <- _]; by left|done].
  intros Hd. right. pose proof (dispatch_follows same_used (mt_platform HM) (pc s + n) i s4) as Hf.
  unfold dispatch, bind at 1 in Hf. unfold bind in Hf. rewrite Hd in Hf. destruct Ht as [H4 El].
  destruct (counted_moves s4 s' Hf H4) as [? E']. split; [done|]. change (left s) with (left s3). congruence.
Qed.

Lemma delivery_spends s c s' : counted s -> exceptionThrown s = Jump c s' ->
  c <> GotoExceptionThrown /\ counted s' /\ left s' = left s.
Proof.
  intros Hs Hj. pose proof (exceptionThrown_leaves s) as Hl.
  pose proof (exceptionThrown_follows same_used (mt_platform HM) s) as Hf. rewrite Hj in Hl, Hf.
  split; [done|]. by apply counted_moves.
Qed.

(** ** Runs *)

Definition cost (c : ctl) (k : nat) : nat :=
  match c with Finish _ => 2 * k + 1 | GotoExceptionThrown => 2 * k + 2 | _ => 0 end.

Lemma run_ends fuel : forall c s, counted s -> (cost c (left s) <= fuel)%nat -> run fuel c s <> OutOfFuel.
Proof.
  induction fuel as [|fuel IH]; intros c s Hs Hc; [destruct c; simpl in *; by try lia|].
  destruct c as [n| | |]; simpl; [..|done|done]; simpl in Hc.
  - destruct (finish n s) as [|c' s'|] eqn:Ef; [done| |done].
    destruct (finish_spends n s c' s' Hs Ef) as [-> | [Hs' El]]; [by destruct fuel|].
    apply IH; [done|]. destruct c'; simpl; lia.
  - destruct (exceptionThrown s) as [|c' s'|] eqn:Ef; [done| |done].
    destruct (delivery_spends s c' s' Hs Ef) as (Hc' & Hs' & El). apply IH; [done|]. destruct c'; simpl; [lia|done|lia..].
Qed.

Lemma vmInterpret2_ends fuel regs flags r0 a0 b0 fctx w : is_Some fctx -> 0 <= used w <= limit ->
  (2 * Z.to_nat (limit - used w) + 1 <= fuel)%nat ->
  vmInterpret2 fuel regs flags r0 a0 b0 fctx w <> OutOfFuel.
Proof. intros Hf Hu Hc. by apply run_ends. Qed.

End Budget.

End VmBudget.

Import VmEnv VmInvoke VmInterp VmWorldRel VmBudget CodeProvider ClassRefs InterpSig InterpTrace InterpSession InterpExec InterpKeeps.
Local Open Scope cint_scope.

Module InterpLimit.

#[export] Instance Options_eq_dec : EqDecision Options.
Proof. solve_decision. Defined.

Section Limit.
Context {W : Type} {jni : JNI W} {names : JNINames W} {frames : JNIFrames W} {art : ArtRuntime W} {log : Log W}.
Context (base : Z) (mem : list Z) (primitive_class : prim -> Z) (gVm : vmGlobals) (g_appScopePkg : list Z).
Context (g_traceEnabled dumpRegsAfter : bool) (uninit : Z -> Z) (vm_fuel : nat).
Abbreviation World := (World W).
Abbreviation interpret := (interpret base mem primitive_class gVm g_appScopePkg g_traceEnabled dumpRegsAfter uninit vm_fuel).
Abbreviation run_session := (run_session base mem primitive_class gVm g_appScopePkg g_traceEnabled dumpRegsAfter uninit vm_fuel).
Abbreviation run_method := (run_method base mem primitive_class gVm g_appScopePkg g_traceEnabled dumpRegsAfter uninit vm_fuel).
Abbreviation runMethodInternal := (runMethodInternal base mem primitive_class gVm g_appScopePkg g_traceEnabled dumpRegsAfter uninit vm_fuel).

(** ** Steps that fault only by undefined behaviour, and leave the session *)

Definition calm (w w' : World) : Prop :=
  fault w' = fault w \/ fault w' = Some (default UndefinedBehaviour (fault w)).
#[local] Instance calm_preorder : PreOrder calm.
Proof.
  split; [by left|]. unfold calm. intros a b c [-> | ->] [-> | ->]; auto.
Qed.
Definition quiet (w w' : World) : Prop := calm w w' /\ session w' = session w.
#[local] Instance quiet_preorder : PreOrder quiet.
Proof. split; [intros w; split; [reflexivity|done]|]. intros a b c [? ?] [? ?]. split; [by etransitivity|congruence]. Qed.

Lemma same_quiet w w' : fault w' = fault w -> session w' = session w -> quiet w w'.
Proof. intros. split; [by left|done]. Qed.
Lemma on_platform_quiet {A} (f : W -> A * W) w : quiet w (on_platform f w).2.
Proof. rewrite on_platform_eq. destruct (f (platform w)). by apply same_quiet. Qed.
Lemma fail_quiet w : quiet w (fail UndefinedBehaviour w).
Proof. split; [by right|done]. Qed.
Lemma with_bridge_quiet {A} (null : A) f w : quiet w (with_bridge null f w).2.
Proof.
  unfold with_bridge. destruct (activeStack w) as [|key ?]; [reflexivity|].
  destruct (registry w !! key) as [[dex b]|]; [|reflexivity]. destruct (f _ _ _) as [[x [b' g']] p']. by apply same_quiet.
Qed.
Lemma resolveArtMethod_quiet ref st w : quiet w (resolveArtMethod ref st w).2.
Proof.
  unfold resolveArtMethod. destruct (_ || _); [reflexivity|]. destruct (FindClassRefCached _ _ _) as [[c g] p]. cbv zeta.
  destruct (c =? 0); [by apply same_quiet|]. destruct (ArtMethod_Require _ _ _ _ p). by apply same_quiet.
Qed.
Lemma event_quiet dex m op r n d am w : quiet w (buildInvokeEventBase dex m op r n d am w).2.
Proof.
  unfold buildInvokeEventBase. cbv zeta. destruct (_ && _); [|reflexivity].
  pose proof (resolveArtMethod_quiet (DexResolver.method_of dex (m_idx m)) (is_static_invoke op) w) as Hk.
  by destruct (resolveArtMethod _ _ w).
Qed.

Ltac quiet_call H :=
  match goal with
  | |- context [resolveArtMethod ?rf ?b ?w] => pose proof (resolveArtMethod_quiet rf b w) as H; destruct (resolveArtMethod rf b w)
  | |- context [buildInvokeEventBase ?a ?b ?cc ?d ?e ?f ?g ?w] =>
      pose proof (event_quiet a b cc d e f g w) as H; destruct (buildInvokeEventBase a b cc d e f g w)
  | |- context [on_platform ?f ?w] => pose proof (on_platform_quiet f w) as H; destruct (on_platform f w)
  end; cbn [snd] in H.

Lemma pre_quiet c m op r n args w : quiet w (trOnInvokePre g_appScopePkg c m op r n args w).2.
Proof.
  unfold trOnInvokePre. destruct (session w) as [s|]; [|reflexivity]. destruct (s_dex s) as [dex|]; [|reflexivity].
  cbv zeta. destruct (negb _); [reflexivity|]. quiet_call H1.
  destruct (passScopeFilter _ _ _); [|cbn [snd]; etransitivity; [exact H1|apply fail_quiet]].
  destruct (s_cbs s) as [cbs|]; [|done]. cbn [mbind option_bind]. destruct (cb_onInvoke cbs) as [cb|]; [|done].
  quiet_call H2. quiet_call H3.
  destruct p as [[v mock] wr]. match goal with |- context [set_pendingCalls ?l ?w3] => set (w4 := set_pendingCalls l w3) in * end.
  assert (H : quiet w w4) by (etransitivity; [exact H1|]; etransitivity; [exact H2|]; etransitivity; [exact H3|]; by apply same_quiet).
  destruct v; [done| |done]. destruct (_ || _); [|destruct (_ && _); done].
  destruct (match s_opts s with Some o => enable_native_step_in o | None => false end); [|done].
  quiet_call H5. by etransitivity.
Qed.
Lemma post_quiet c m op r e w : quiet w (trOnInvokePost c m op r e w).
Proof.
  unfold trOnInvokePost. destruct (session w) as [s|]; [|reflexivity]. destruct (mbind _ _); [|reflexivity].
  destruct (s_dex s); [|reflexivity]. destruct (pendingCalls w); [reflexivity|]. by apply same_quiet.
Qed.
Lemma exception_quiet c e p q w : quiet w (trOnException c e p q w).
Proof. unfold trOnException. destruct (session w) as [s|]; [|reflexivity]. destruct (mbind _ _); [|reflexivity]. by apply same_quiet. Qed.
Lemma native_quiet s am ref st m r args out w : quiet w (step_into_native s am ref st m r args out w).2.
Proof.
  unfold step_into_native. destruct (negb _); [reflexivity|]. quiet_call H1.
  match goal with |- quiet w (let '(_, _) := ?x in _).2 => assert (H2 : quiet w x.2) end.
  { destruct st; [|done]. destruct (FindClassRefCached _ _ _) as [[c g] q]. etransitivity; [exact H1|]. by apply same_quiet. }
  match goal with |- quiet w (let '(_, _) := ?x in _).2 => destruct x as [rc w2] end. cbn [snd] in H2.
  quiet_call H3. cbn [snd]. by etransitivity.
Qed.
Lemma hook_quiet p i regs flags w : quiet w (trace_hook p i regs flags w).
Proof. unfold trace_hook. destruct (vmTraceHookImpl _ _ _ _ _) as [[ctx p']|]; [by apply same_quiet|apply fail_quiet]. Qed.

(** ** The session is given back *)

Definition gives_back (rec : Runner (W := W)) : Prop := forall a b c d e f g h w, session (rec a b c d e f g h w).2 = session w.
Lemma promote_same x ch rv w : fault (promote x ch rv w).2 = fault w /\ session (promote x ch rv w).2 = session w.
Proof.
  unfold promote. destruct (_ && _); rewrite ?on_platform_eq; [destruct (GetObjectRefType _ _); cbn [fst snd]|].
  2:{ by destruct (PopLocalFrame _ _). }
  repeat (destruct (_ =? _); [rewrite ?on_platform_eq; by destruct (PopLocalFrame _ _)|]); try (rewrite on_platform_eq; by destruct (PopLocalFrame _ _)).
  destruct (_ =? _); rewrite ?on_platform_eq; [destruct (NewLocalRef _ _); rewrite on_platform_eq|]; by destruct (PopLocalFrame _ _).
Qed.
Lemma run_session_gives_back rec a b c d e f g h i j k l w m : session (run_session rec a b c d e f g h i j k l m w).2 = session w.
Proof.
  unfold InterpExec.run_session. cbv zeta. destruct (interpret _ _ _ _ _ _ _ _ _). destruct (on_platform ExceptionCheck _).
  by destruct (promote _ _ _ _).
Qed.

Lemma run_method_gives_back rec : gives_back (run_method rec).
Proof.
  intros a b c d e f g h w. set (G := fun r : RunResult * World => session r.2 = session w).
  change (G (run_method rec a b c d e f g h w)). unfold InterpExec.run_method.
  assert (Hpop : forall st w', session w' = session w -> G (let '(_, w1) := on_platform (PopLocalFrame 0) w' in (failed st false, w1))).
  { intros st w' Hw. rewrite on_platform_eq. by destruct (PopLocalFrame 0 _). }
  destruct (_ || _); [done|]. rewrite on_platform_eq. destruct (ExceptionCheck _). cbv beta iota zeta.
  destruct (negb _); [done|]. destruct (_ <=? _); [done|]. destruct (_ || _); [done|].
  destruct (initFromMethod _ _) as [[[key dex] cd]|]; [|done].
  destruct (buildVmCode _ _ _ _) as [[[] ic]|]; [|done|done]. destruct (code_of mem ic) as [code|]; [|done].
  destruct (prescanInsns _ _); [|done|done|done]. rewrite on_platform_eq. destruct (PushLocalFrame _ _). cbv beta iota zeta.
  destruct (_ <? _); [done|]. destruct (packRegisters _ _ _ _ _ _) as [pk p3].
  destruct pk; [by apply Hpop|done|]. unfold acquireBridge.
  match goal with |- context [registry ?w' !! key] => destruct (registry w' !! key) as [[bdex br]|] end; cbn [ResolverBridge.init negb];
    cbv beta iota zeta; [destruct (negb _); [by apply Hpop|]|cbn [ResolverBridge.initialized negb]];
    refine (eq_trans (run_session_gives_back _ _ _ _ _ _ _ _ _ _ _ _ _ _ _) _); done.
Qed.
Lemma runMethodInternal_gives_back levels : gives_back (runMethodInternal levels).
Proof. destruct levels; [done|]. apply run_method_gives_back. Qed.

(** ** The meter *)

Context (o : Options).
Definition used (w : World) : Z :=
  match session w with Some s => if bool_decide (s_opts s = Some o) then budgetUsed s else -1 | None => -1 end.
Lemma quiet_used w w' : quiet w w' -> used w = used w'.
Proof. intros [_ E]. unfold used. by rewrite E. Qed.

Lemma stepIn_used rec c m op r n args out w : gives_back rec -> used w = used (trStepIn rec c m op r n args out w).2.
Proof.
  intros Hrec. unfold trStepIn. destruct (session w) as [s|] eqn:Es; [|done]. destruct (s_dex s) as [dex|]; [|done].
  cbv zeta. destruct (negb _); [done|]. quiet_call H1. apply quiet_used in H1 as E1.
  destruct (_ || _); [done|]. destruct (_ <=? _); [done|].
  destruct (IsNative _ _); [rewrite E1; apply quiet_used, native_quiet|].
  match goal with |- context [rec ?a ?b ?cc ?d ?e ?f ?g ?h ?w1] => pose proof (Hrec a b cc d e f g h w1) as H2;
    destruct (rec a b cc d e f g h w1) as [res w2] end. cbn [snd] in H2.
  destruct H1 as [_ E]. unfold used. destruct (_ && _); [|destruct (_ || _)]; cbn; rewrite H2, E, Es; done.
Qed.

Lemma env_same_used rec code traced : gives_back rec ->
  platform_follows (E := run_env base mem primitive_class gVm g_appScopePkg uninit rec code traced) (same_used used).
Proof.
  intros Hrec. split.
  - split; intros; apply quiet_used; first [apply on_platform_quiet|by apply same_quiet].
  - split; intros; apply quiet_used, with_bridge_quiet.
  - intros tr [= <-]. split; intros; cbn in *; simplify_eq.
    + apply quiet_used, pre_quiet.
    + by apply stepIn_used.
    + apply quiet_used, post_quiet.
    + apply quiet_used, exception_quiet.
  - intros f p i regs flags w. cbn. destruct traced; [|done]. intros [= <-]. apply quiet_used, hook_quiet.
Qed.

Lemma insn_meter code c regs flags w : 0 <= max_instructions o < 2 ^ 63 -> 0 <= used w <= max_instructions o ->
  (trOnInsn base mem code c regs flags w).1 = 0 ->
  used (trOnInsn base mem code c regs flags w).2 = used w + 1 /\ used w < max_instructions o.
Proof.
  intros Ho Hu. unfold used in Hu at 1 2. unfold used at 2 3. unfold trOnInsn. destruct (session w) as [s|]; [|lia].
  case_bool_decide as Es; [|lia]. cbv zeta.
  assert (Eb : budgetUsed (spend s) = budgetUsed s + 1) by (apply wrap_small; unfold in_u; lia).
  unfold over_budget. change (s_opts (spend s)) with (s_opts s). rewrite Es, Eb.
  replace (0 <=? max_instructions o) with true by lia. cbn [andb]. destruct (Z.ltb_spec (max_instructions o) (budgetUsed s + 1)); [done|].
  assert (Hdone : forall w', session w' = Some (spend s) -> used w' = budgetUsed s + 1 /\ budgetUsed s < max_instructions o).
  { intros w' Ew. unfold used. rewrite Ew. change (s_opts (spend s)) with (s_opts s). rewrite bool_decide_eq_true_2 by done. lia. }
  destruct (must_hand_off _ _ _ _) as [[]|]; [done| |done]. destruct (mbind _ _) as [cb|]; [|intros _; by apply Hdone].
  destruct (event_regsSize _ _ _ _); [|done]. rewrite on_platform_eq. destruct (cb _ _) as [[] p]; [|done].
  intros _. by apply Hdone.
Qed.

Lemma env_metered rec code traced : gives_back rec -> 0 <= max_instructions o < 2 ^ 63 ->
  metered (E := run_env base mem primitive_class gVm g_appScopePkg uninit rec code traced) used (max_instructions o).
Proof.
  intros Hrec Ho. split; [by apply env_same_used|]. do 2 eexists. split; [done|]. split; [done|].
  intros c regs flags w Hu Hz. by apply insn_meter.
Qed.

(** ** Runs within the limit *)

Context (cbs : option (Callbacks W)) (filter : option FilterOptions).
Context (Ho : 0 <= max_instructions o < 2 ^ 63) (Hact : hasActiveCallbacks cbs = true).
Context (Hfuel : (2 * Z.to_nat (max_instructions o) + 1 <= vm_fuel)%nat).
Context (Hmem : bytes_ok mem) (Hsize : Z.of_nat (length mem) <= 2 ^ 31).

(** The session of a frame at depth [d]. *)
Definition in_session (d : Z) (w : World) : Prop :=
  exists s, session w = Some s /\ s_cbs s = cbs /\ s_opts s = Some o /\ s_filter s = filter /\ s_depth s = d.
Definition within (d : Z) (w w' : World) : Prop := in_session d w -> calm w w' /\ in_session d w'.
#[local] Instance within_preorder d : PreOrder (within d).
Proof.
  split; [intros w H; by split|]. intros a b c Hab Hbc Ha. destruct (Hab Ha) as [H1 Hb], (Hbc Hb) as [H2 Hc].
  split; [by etransitivity|done].
Qed.
Lemma quiet_within d w w' : quiet w w' -> within d w w'.
Proof. intros [Hc Hs] (s & Es & H). split; [done|]. exists s. by rewrite Hs. Qed.

(** The runner of the methods stepped into, at its depth. *)
Definition calm_at (d : Z) (rec : Runner) : Prop :=
  forall method this args sh w, calm w (rec method this args sh cbs (Some o) filter d w).2.

Lemma stepIn_within d rec c m op r n args out w : gives_back rec -> calm_at (d + 1) rec ->
  within d w (trStepIn rec c m op r n args out w).2.
Proof.
  intros Hrec Hcalm (s & Es & Ec & Eo & Ef & Ed). unfold trStepIn. rewrite Es.
  assert (Hq : forall w', quiet w w' -> calm w w' /\ in_session d w').
  { intros w' H. apply (quiet_within d w w' H). by exists s. }
  destruct (s_dex s) as [dex|]; [|by apply Hq]. cbv zeta. destruct (negb _); [by apply Hq|]. quiet_call H1.
  destruct (_ || _); [by apply Hq|]. destruct (_ <=? _); [by apply Hq|].
  destruct (IsNative _ _); [apply Hq; etransitivity; [exact H1|apply native_quiet]|].
  rewrite Ec, Eo, Ef, Ed.
  match goal with |- context [rec ?a ?b ?cc ?dd cbs (Some o) filter (d + 1) ?w1] =>
    pose proof (Hrec a b cc dd cbs (Some o) filter (d + 1) w1) as H2; pose proof (Hcalm a b cc dd w1) as H3;
    destruct (rec a b cc dd cbs (Some o) filter (d + 1) w1) as [res w2] end. cbn [snd] in *. destruct H1 as [H1 E1].
  assert (Hc : calm w w2) by (by etransitivity). assert (E2 : session w2 = Some s) by congruence.
  destruct (_ && _); [|destruct (_ || _); (split; [done|by exists s])]. cbn [snd]. split; [destruct Hc; [by left|by right]|].
  rewrite E2. exists (handoff_session s). by split_and!.
Qed.

Lemma insn_within d code c regs flags w : within d w (trOnInsn base mem code c regs flags w).2.
Proof.
  intros (s & Es & Ec & Eo & Ef & Ed). unfold trOnInsn. rewrite Es. cbv zeta.
  assert (Hs : forall s' w', fault w' = fault w \/ fault w' = Some (default UndefinedBehaviour (fault w)) ->
    session w' = Some s' -> s_cbs s' = s_cbs s -> s_opts s' = s_opts s -> s_filter s' = s_filter s -> s_depth s' = s_depth s ->
    calm w w' /\ in_session d w').
  { intros s' w' Hf Ew ? ? ? ?. split; [exact Hf|]. exists s'. by split_and!; congruence. }
  destruct (over_budget _); [by eapply Hs; [left|..]|].
  destruct (must_hand_off _ _ _ _) as [[]|]; [by eapply Hs; [left|..]| |by eapply Hs; [right|..]].
  destruct (mbind _ _) as [cb|]; [|by eapply Hs; [left|..]].
  destruct (event_regsSize _ _ _ _); [|by eapply Hs; [right|..]]. rewrite on_platform_eq. destruct (cb _ _) as [[] p]; by eapply Hs; [left|..].
Qed.

Lemma env_within d rec code traced : gives_back rec -> calm_at (d + 1) rec ->
  platform_follows (E := run_env base mem primitive_class gVm g_appScopePkg uninit rec code traced) (within d).
Proof.
  intros Hrec Hcalm. split.
  - split; intros; apply quiet_within; first [apply on_platform_quiet|by apply same_quiet].
  - split; intros; apply quiet_within, with_bridge_quiet.
  - intros tr [= <-]. split; intros; cbn in *; simplify_eq.
    + apply quiet_within, pre_quiet.
    + by apply stepIn_within.
    + apply quiet_within, post_quiet.
    + apply quiet_within, exception_quiet.
  - intros f p i regs flags w. cbn. destruct traced; [|done]. intros [= <-]. apply quiet_within, hook_quiet.
Qed.

Lemma interpret_calm d rec dex code n regs flags opts w : gives_back rec -> calm_at (d + 1) rec -> in_session d w -> used w = 0 ->
  calm w (interpret rec dex code n regs flags opts (Some (MkFrameCtx 0 0 0)) w).2.
Proof.
  intros Hrec Hcalm Hs Hu. unfold InterpExec.interpret. cbv zeta. set (traced := g_traceEnabled || _).
  set (w1 := if traced then _ else w). assert (H1 : quiet w w1) by (unfold w1; destruct traced; [by apply same_quiet|reflexivity]).
  assert (Hs1 : in_session d w1) by (by apply (quiet_within d w w1)). apply quiet_used in H1 as Hu1.
  destruct (vmInterpret2 _ _ _ _ _ _ _ w1) as [rv s| |] eqn:Ev.
  - assert (H2 : calm w (world s)).
    { etransitivity; [apply H1|]. refine (proj1 (vmInterpret2_follows (within d) (env_within d rec code traced Hrec Hcalm) _ _ _ _ _ _ _ _ _ _ _ Ev Hs1)).
      intros tr f c rs fl w' [= <-] [= <-]. apply insn_within. }
    destruct traced; [|done]. destruct (trace_leave _ _ _ _ _) as [[ctx p]|]; cbn [snd]; [destruct H2; [by left|by right]|].
    etransitivity; [exact H2|]. etransitivity; [|apply fail_quiet]. by left.
  - apply fail_quiet.
  - exfalso. revert Ev.
    apply (vmInterpret2_ends used (max_instructions o) (env_metered rec code traced Hrec Ho)); [by eexists|rewrite <- Hu1; lia|].
    rewrite <- Hu1, Hu, Z.sub_0_r. exact Hfuel.
Qed.

Lemma run_session_calm d rec method dex bdex key code ic regs flags sh w : gives_back rec -> calm_at (d + 1) rec ->
  calm w (run_session rec method dex bdex key code ic regs flags sh cbs (Some o) filter d w).2.
Proof.
  intros Hrec Hcalm. unfold InterpExec.run_session. rewrite Hact. cbv zeta.
  match goal with |- context [interpret rec dex code ?n regs flags (Some o) ?c ?ww] =>
    assert (H1 : calm ww (interpret rec dex code n regs flags (Some o) c ww).2);
    [|destruct (interpret rec dex code n regs flags (Some o) c ww) as [rv w1]] end.
  { apply (interpret_calm d); [done..| |].
    - exists (makeSession (Some bdex) cbs (Some o) filter d method). done.
    - unfold used. cbn. by rewrite bool_decide_eq_true_2. }
  cbn [snd] in H1. pose proof (on_platform_quiet ExceptionCheck w1) as [H2 _]. destruct (on_platform ExceptionCheck w1) as [exc w2]. cbn [snd] in H2.
  assert (H3 : calm w2 (promote (negb (exc =? 0)) (List.hd 0 sh) rv w2).2).
  { left. apply promote_same. }
  destruct (promote _ _ _ w2) as [rv3 w3]. cbn [snd] in *.
  assert (H : calm w w3) by (etransitivity; [|exact H3]; etransitivity; [|exact H2]; exact H1).
  assert (Ef : fault (popFrame w3) = fault w3) by (unfold popFrame; destruct (_ <? _); done).
  destruct H as [H|H]; [left|right]; cbn; congruence.
Qed.

(** Code the provider hands over is scanned to an answer. *)
Lemma scan_ends method cd ic code : buildVmCode base mem method cd = Some (true, ic) -> code_of mem ic = Some code ->
  prescanInsns (Some (VmEnv.insns code)) (insnsCount ic) <> ScanFuel.
Proof.
  intros Hb Hc. destruct (InterpScan.provided_code _ _ _ _ _ _ Hmem Hb Hc) as [Hu Hn].
  apply InterpScan.prescan_loop_ends; [done|lia..].
Qed.

Lemma run_method_calm d rec : gives_back rec -> calm_at (d + 1) rec -> calm_at d (run_method rec).
Proof.
  intros Hrec Hcalm method this args sh w. set (G := fun r : RunResult * World => calm w r.2).
  change (G (run_method rec method this args sh cbs (Some o) filter d w)). unfold InterpExec.run_method.
  assert (Hself : calm w w) by reflexivity.
  destruct (_ || _); [done|]. pose proof (on_platform_quiet ExceptionCheck w) as [H1 _].
  destruct (on_platform ExceptionCheck w) as [exc w1]. cbn [snd] in H1.
  assert (Hub : calm w (fail UndefinedBehaviour w1)) by (etransitivity; [exact H1|apply fail_quiet]).
  destruct (negb _); [done|]. destruct (_ <=? _); [done|]. destruct (_ || _); [done|].
  destruct (initFromMethod _ _) as [[[key dex] cd]|]; [|done].
  destruct (buildVmCode _ _ _ _) as [[[] ic]|] eqn:Eb; [|done|done]. destruct (code_of mem ic) as [code|] eqn:Ec; [|done].
  pose proof (scan_ends _ _ _ _ Eb Ec) as Hscan. destruct (prescanInsns _ _); [|done|done|done].
  rewrite on_platform_eq. destruct (PushLocalFrame _ _) as [pushed p2]. cbv beta iota zeta.
  assert (Hc : forall w', fault w' = fault w1 -> calm w w') by (intros w' Hf; etransitivity; [exact H1|by left]).
  assert (Hpop : forall st w', fault w' = fault w1 -> G (let '(_, w1) := on_platform (PopLocalFrame 0) w' in (failed st false, w1))).
  { intros st w' Hw. rewrite on_platform_eq. destruct (PopLocalFrame 0 _). by apply Hc. }
  destruct (_ <? _); [by apply Hc|]. destruct (packRegisters _ _ _ _ _ _) as [pk p3].
  destruct pk; [by apply Hpop|unfold G; etransitivity; [exact H1|by right]|]. unfold acquireBridge.
  assert (Hrun : forall w4 bdex regs flags, fault w4 = fault w1 ->
    G (run_session rec method dex bdex key code ic regs flags sh cbs (Some o) filter d w4)).
  { intros w4 bdex rg fl Hf. unfold G. etransitivity; [by apply Hc|]. by apply run_session_calm. }
  match goal with |- context [registry ?w' !! key] => destruct (registry w' !! key) as [[bdex br]|] end; cbn [ResolverBridge.init negb];
    cbv beta iota zeta; [destruct (negb _); [by apply Hpop|]|cbn [ResolverBridge.initialized negb]]; by apply Hrun.
Qed.

(** As many levels as the executor's own limit leaves. *)
Lemma levels_calm levels : forall d, 64 - d < Z.of_nat levels -> (0 < levels)%nat -> calm_at d (runMethodInternal levels).
Proof.
  induction levels as [|levels IH]; intros d Hd Hl; [lia|]. cbn [InterpExec.runMethodInternal].
  destruct (decide (kHardMaxDepth <= d)) as [Hdeep|Hdeep]; unfold kHardMaxDepth in Hdeep.
  - intros method this args sh w. unfold InterpExec.run_method. destruct (_ || _); [reflexivity|].
    pose proof (on_platform_quiet ExceptionCheck w) as [H1 _]. destruct (on_platform ExceptionCheck w) as [exc w1]. cbn [snd] in H1.
    destruct (negb _); [done|]. unfold kHardMaxDepth. by replace (64 <=? d) with true by lia.
  - apply run_method_calm; [apply runMethodInternal_gives_back|]. apply IH; lia.
Qed.

(** C8: an instruction budget makes every run end.  With a budget [n], a
    callback and the code items within 2 GiB: whatever the code, the
    platform and the callbacks do, and however deeply methods are stepped
    into, [2 n + 1] units of interpreter fuel and a recursion of 65 levels
    are enough - a run never stops for want of either. *)
Theorem budget_ends (method this : Z) (args sh : list Z) (w : World) : fault w = None ->
  fault (runMethodInternal 65 method this args sh cbs (Some o) filter 0 w).2 <> Some NoFuel.
Proof.
  intros Hw. destruct (levels_calm 65 0 ltac:(lia) ltac:(lia) method this args sh w) as [-> | ->]; by rewrite Hw.
Qed.

End Limit.

End InterpLimit.
