(* ===== verification/InterpCall.v ===== *)
(** * When a method is run, and calls between interpreted methods

    Module InterpErrors: when a method is run, and when it is refused.
    Module InterpCall: how a method stepped into is chosen, and how the
    arguments its caller marshals reach its registers. *)
From stdpp Require Import gmap.
From S2P Require Import Prelude.
From S2P Require Import Smali.
From S2P Require Import VmEnv.
From S2P Require Import VmArith.
From S2P Require Import VmInvoke.
From S2P Require Import VmInterp.
From S2P Require Import VmFrame.
From S2P Require Import VmMarshal.
From S2P Require Import InterpSig.
From S2P Require Import CodeProvider.
From S2P Require Import DexResolver.
From S2P Require Import ResolverBridge.
From S2P Require Import InterpTrace.
From S2P Require Import InterpSession.
From S2P Require Import InterpExec.
Import VmEnv VmInterp CodeProvider ClassRefs InterpSig InterpTrace InterpSession InterpExec.
Local Open Scope cint_scope.

Module InterpErrors.

Section Errors.
Context {W : Type} {jni : JNI W} {names : JNINames W} {frames : JNIFrames W} {art : ArtRuntime W} {log : Log W}.
Context (base : Z) (mem : list Z) (primitive_class : prim -> Z) (gVm : vmGlobals) (g_appScopePkg : list Z).
Context (g_traceEnabled dumpRegsAfter : bool) (uninit : Z -> Z) (vm_fuel : nat).
Abbreviation World := (World W).
Abbreviation run_session := (run_session base mem primitive_class gVm g_appScopePkg g_traceEnabled dumpRegsAfter uninit vm_fuel).
Abbreviation run_method := (run_method base mem primitive_class gVm g_appScopePkg g_traceEnabled dumpRegsAfter uninit vm_fuel).

(** The interpreter was started. *)
Definition ran (r : RunResult) : Prop := status r = OK \/ status r = ABORTED.

(** A call that can be started: no exception is pending, fewer than 64
    methods deep; *)
Record callable (method : Z) (shorty : list Z) (depth : Z) (p : W) : Prop := {
  ca_method : method <> 0;
  ca_shorty : shorty <> [];
  ca_clear : (ExceptionCheck p).1 = 0;
  ca_depth : depth < kHardMaxDepth }.
(** the method has code, which the provider decodes and the scan accepts; *)
Record has_code (method : Z) (p : W) (key : Z) (ic : InterpCode) : Prop := {
  hc_native : HasAccessFlags (AccessFlags method p) kNative = false;
  hc_abstract : HasAccessFlags (AccessFlags method p) 0x0400 = false;
  hc_built : exists dex isCompact, initFromMethod method p = Some (key, dex, isCompact) /\
    buildVmCode base mem (Some (AccessFlags method p, EntryPointFromJni method p)) isCompact = Some (true, ic);
  hc_scanned : exists code, code_of mem ic = Some code /\ prescanInsns (Some (insns code)) (insnsCount ic) = Accept }.
(** its registers have room for exactly the arguments. *)
Record fits (isStatic : bool) (args shorty : list Z) (ic : InterpCode) : Prop := {
  ft_slots : shorty_slots isStatic shorty = insSize ic;
  ft_registers : insSize ic <= registersSize ic;
  ft_args : (length shorty <= S (length args))%nat }.
Definition bridge_ready (key : Z) (w : World) : Prop :=
  forall dex b, registry w !! key = Some (dex, b) -> ResolverBridge.initialized b = true.

Definition runnable (method : Z) (args shorty : list Z) (depth : Z) (w : World) : Prop :=
  let p := (ExceptionCheck (platform w)).2 in
  callable method shorty depth (platform w) /\
  exists key ic, has_code method p key ic /\ 0 <= (PushLocalFrame 512 p).1 /\ bridge_ready key w /\
    fits (HasAccessFlags (AccessFlags method (PushLocalFrame 512 p).2) kStatic) args shorty ic.

(** ** Lemmas *)

Lemma unpackResult_ran r rv c : status (unpackResult r rv c) = status r.
Proof. unfold unpackResult. by repeat case_match. Qed.
Lemma run_session_ran rec a b c d e f g h i j k l n w : ran (run_session rec a b c d e f g h i j k l n w).1.
Proof.
  unfold InterpExec.run_session. cbv zeta. destruct (interpret _ _ _ _ _ _ _ _ _). destruct (on_platform ExceptionCheck _).
  destruct (promote _ _ _ _). unfold ran. cbn [fst]. rewrite unpackResult_ran. cbn [status]. destruct (sessionAborted _); auto.
Qed.

Lemma pack_params_none {X} {J : JNI X} params : forall args slot regs flags (p : X),
  pack_params params args slot regs flags p = None <-> (length args < length params)%nat.
Proof.
  induction params as [|c params IH]; intros [|a args] slot regs flags p; cbn [pack_params length]; try (split; intros; first [done|lia|exfalso; lia]).
  destruct (c =? ch_J), (c =? ch_D), (c =? ch_F), (c =? ch_L); try destruct (own a p); unfold putSlot; rewrite IH; lia.
Qed.
Lemma packRegisters_ok ic st this args shorty (p : W) : shorty <> [] ->
  (exists regs flags, (packRegisters ic st this args shorty p).1 = PackOk regs flags) <-> fits st args shorty ic.
Proof.
  intros Hs. unfold packRegisters. destruct (Z.eqb_spec (shorty_slots st shorty) (insSize ic)) as [E|E]; cbn [negb].
  2:{ split; [by intros (? & ? & ?)|by intros []]. }
  destruct (Z.ltb_spec (registersSize ic) (insSize ic)). { split; [by intros (? & ? & ?)|intros []; lia]. }
  cbv zeta. set (start := if st then _ else _). destruct start as [[[sl rg] fl] p1].
  destruct shorty as [|c types]; [done|]. change (drop 1 (c :: types)) with types.
  pose proof (pack_params_none types args sl rg fl p1) as Hn. destruct (pack_params _ _ _ _ _ _) as [[[rs fs] p2]|].
  - split; [intros _|by eexists _, _]. split; [done..|]. cbn [length]. destruct (le_lt_dec (length types) (length args)); [lia|].
    by apply Hn in l.
  - split; [by intros (? & ? & ?)|]. intros [_ _ Ha]. cbn [length] in Ha. assert (length args < length types)%nat by by apply Hn. lia.
Qed.

(** ** The claim *)

(** What a refusal looks like. *)
Definition refusal (again : Runner (W := W) -> RunResult * World) (r : RunResult * World) : Prop :=
  ~ ran r.1 /\ r.1 = failed (status r.1) (exceptionPending r.1) /\ forall rec, again rec = r.

Definition decided (method : Z) (args shorty : list Z) (depth : Z) (w : World) (again : Runner (W := W) -> RunResult * World) : Prop :=
  (~ runnable method args shorty depth w /\
   exists st b w', st <> OK /\ st <> ABORTED /\ forall rec, again rec = (failed st b, w')) \/
  (runnable method args shorty depth w /\ forall rec, ran (again rec).1).

Ltac refuse :=
  left; split; [intros ([] & key' & ic' & [] & ? & ? & []); naive_solver (first [congruence|lia])
               |eexists _, _, _; split_and!; [| |intros rec; reflexivity]; done].

Ltac refuse_late Huniq tac :=
  left; split; [intros (_ & key' & ic' & Hcode & _ & Hbr & Hfit); destruct (Huniq _ _ Hcode) as [-> ->]; tac Hfit
               |eexists _, _, _; split_and!; [| |intros rec; reflexivity]; done].
Lemma has_code_unique method p key ic key' ic' dex cd :
  initFromMethod method p = Some (key, dex, cd) ->
  buildVmCode base mem (Some (AccessFlags method p, EntryPointFromJni method p)) cd = Some (true, ic) ->
  has_code method p key' ic' -> key' = key /\ ic' = ic.
Proof. intros E1 E2 [_ _ (dex' & cd' & E3 & E4) _]. rewrite E1 in E3. simplify_eq. split; congruence. Qed.

Lemma run_method_decided method this args shorty cbs opts filter depth w :
  decided method args shorty depth w (fun rec => run_method rec method this args shorty cbs opts filter depth w).
Proof.
  unfold InterpExec.run_method, IsNative. rewrite on_platform_eq.
  destruct (Z.eqb_spec method 0); cbn [orb]; [refuse|]. destruct (bool_decide_reflect (shorty = [])); [refuse|].
  destruct (ExceptionCheck (platform w)) as [exc p] eqn:Eexc. change (platform (set_platform p w)) with p.
  assert (E1 : (ExceptionCheck (platform w)).1 = exc) by (by rewrite Eexc).
  unfold decided, runnable. cbv zeta. rewrite Eexc. cbn [snd]. clear Eexc.
  destruct (Z.eqb_spec exc 0); cbn [negb]; [|refuse]. destruct (Z.leb_spec kHardMaxDepth depth); [refuse|].
  destruct (HasAccessFlags _ kNative) eqn:Enat; cbn [orb]; [refuse|]. destruct (HasAccessFlags _ 0x0400) eqn:Eabs; [refuse|].
  destruct (initFromMethod method p) as [[[key dex] cd]|] eqn:Einit; [|refuse].
  destruct (buildVmCode _ _ _ _) as [[[] ic]|] eqn:Eb; [|refuse|refuse].
  destruct (code_of mem ic) as [code|] eqn:Ec; [|refuse].
  destruct (prescanInsns _ _) eqn:Es; [|refuse..].
  rewrite on_platform_eq. change (platform (set_platform p w)) with p. destruct (PushLocalFrame 512 p) as [pushed p2] eqn:Epush. cbn [fst snd].
  destruct (Z.ltb_spec pushed 0); [refuse|]. change (platform (set_platform p2 (set_platform p w))) with p2.
  set (st := HasAccessFlags (AccessFlags method p2) kStatic).
  pose proof (packRegisters_ok ic st this args shorty p2 ltac:(done)) as Hpk.
  destruct (packRegisters ic st this args shorty p2) as [packed p3]. cbn [fst] in Hpk.
  assert (Huniq : forall key' ic', has_code method p key' ic' -> key' = key /\ ic' = ic)
    by (intros key' ic'; by eapply has_code_unique).
  destruct packed as [| |rg fl].
  1: rewrite on_platform_eq; destruct (PopLocalFrame 0 _).
  1, 2: refuse_late Huniq ltac:(fun Hfit => apply Hpk in Hfit as (? & ? & ?); done).
  unfold acquireBridge. change (registry (set_platform p3 _)) with (registry w).
  destruct (registry w !! key) as [[bdex b]|] eqn:Ereg.
  1: destruct (ResolverBridge.initialized b) eqn:Ei; cbn [negb].
  2:{ rewrite on_platform_eq. destruct (PopLocalFrame 0 _). left. split; [|eexists _, _, _; split_and!; [| |intros rec; reflexivity]; done].
      intros (_ & key' & ic' & Hcode & _ & Hbr & _). destruct (Huniq _ _ Hcode) as [-> ->].
      specialize (Hbr _ _ Ereg). congruence. }
  all: right; split; [|intros rec; apply run_session_ran]; split; [split; congruence|].
  all: exists key, ic; split_and!; [split; eauto|lia|intros ? ? ?; simplify_eq; congruence|apply Hpk; by eexists _, _].
Qed.


End Errors.

End InterpErrors.

Import VmEnv VmFrame VmInvoke VmMarshal CodeProvider ClassRefs InterpSig InterpTrace InterpSession InterpExec.
Local Open Scope cint_scope.

Module InterpCall.

(** ** Who is stepped into *)
Section Policy.
Context {W : Type} {jni : JNI W} {names : JNINames W} {art : ArtRuntime W}.
Context (g_appScopePkg : list Z).

(** Without [onInvoke] the options decide, with it the callback does. *)
Definition step_in_requested (s : Session W) : Prop :=
  match cbs ← s_cbs s; cb_onInvoke cbs with
  | None => exists o, s_opts s = Some o /\ step_in_enabled o = true
  | Some cb => exists ev p, (cb ev p).1.1.1 = StepIn
  end.
Definition native_enabled (s : Session W) : Prop := exists o, s_opts s = Some o /\ enable_native_step_in o = true.

(** the policy of stepping in.  A call is stepped into only on request -
    the callback's verdict or, without that callback, the option - and only
    if its method resolves; an ART method that is not native only within the
    scope filter, below the depth limit and if it is not a coroutine; a
    native or unresolved one only with the option for native methods and a
    callback. *)
Theorem step_in_policy c m op receiver argc args w mock written w' :
  trOnInvokePre g_appScopePkg c m op receiver argc args w = (VM_INVOKE_STEP_IN, mock, written, w') ->
  exists s dex, session w = Some s /\ s_dex s = Some dex /\ step_in_requested s /\
    let ref := DexResolver.method_of dex (m_idx m) in
    let '(am, w1) := resolveArtMethod ref (is_static_invoke op) w in
    DexResolver.method_isValid ref = true /\
    if (am =? 0) || IsNative am w1 then native_enabled s
    else passScopeFilter g_appScopePkg (s_filter s) (DexResolver.class_descriptor ref) = Some true /\
         isCoroutineSignature (DexResolver.jni_signature ref) = false /\ s_depth s < step_in_allowed s 8.
Proof.
  unfold trOnInvokePre. destruct (session w) as [s|]; [|done]. destruct (s_dex s) as [dex|] eqn:Ed; [|done].
  cbv zeta. set (ref := DexResolver.method_of _ _). destruct (DexResolver.method_isValid ref) eqn:Ev; [|done]. cbn [negb].
  destruct (resolveArtMethod ref _ w) as [am w1] eqn:Er. intros H.
  assert (Hex : step_in_requested s /\
    if (am =? 0) || IsNative am w1 then native_enabled s
    else passScopeFilter g_appScopePkg (s_filter s) (DexResolver.class_descriptor ref) = Some true /\
         isCoroutineSignature (DexResolver.jni_signature ref) = false /\ s_depth s < step_in_allowed s 8).
  2:{ exists s, dex. cbv zeta. fold ref. rewrite Er. destruct Hex. by split_and!. }
  unfold step_in_requested, native_enabled, step_in_allowed in *. revert H.
  destruct (passScopeFilter _ _ _) as [in_scope|]; [|done]. destruct (mbind _ _) as [cb|].
  - destruct (buildInvokeEventBase _ _ _ _ _ _ _ _) as [ev w2]. rewrite on_platform_eq. unfold pack4.
    destruct (cb (with_args ev args) (platform w2)) as [[[v mk] wr] p3] eqn:Ecb. cbv beta iota zeta.
    assert (Hreq : v = StepIn -> exists ev' p, (cb ev' p).1.1.1 = StepIn) by (intros ->; eexists _, _; by rewrite Ecb).
    destruct v; [done| |done]. split; [by apply Hreq|]. revert H.
    destruct (_ || _); [destruct (s_opts s) as [o|]; [destruct (enable_native_step_in o) eqn:En; [by eexists|done]|done]|].
    destruct (negb (am =? 0)), (isCoroutineSignature _), in_scope; cbn [negb andb]; rewrite ?andb_false_r; try done.
    destruct (Z.ltb_spec (s_depth s) (match s_opts s with Some o => max_depth o | None => 8 end)); done.
  - destruct in_scope, (isCoroutineSignature _), (_ || _); cbn [negb andb]; try done.
    destruct (s_opts s) as [o|]; [|done]. destruct (step_in_enabled o) eqn:Ee; [|done].
    destruct (Z.ltb_spec (s_depth s) (max_depth o)); [|done]. intros _. split_and!; [by eexists|done..].
Qed.
End Policy.

(** ** How arguments arrive *)
Section Arrive.
Context {W : Type} {jni : JNI W}.

(** The register of a parameter of type [c] holds [v]; an object's is a local
    reference of the callee's own. *)
Definition register_holds (c v r flag : Z) : Prop :=
  if c =? ch_L then flag = 1 /\ exists w, r = U64 (own v w).1
  else flag = 0 /\ r = if (c =? ch_J) || (c =? ch_D) then U64 v else U32 v.

(** The value and the flag of one parameter. *)
Lemma pack_one c a (i : nat) params args regs flags (w : W) : type_ok c -> (i < length regs)%nat -> length flags = length regs ->
  exists r flag w', register_holds c a r flag /\
    pack_params (c :: params) (a :: args) (Z.of_nat i) regs flags w =
    pack_params params args (Z.of_nat (i + width c)) (<[i := r]> regs) (<[i := flag]> flags) w'.
Proof.
  intros Hc Hi Hf. cbn [pack_params]. unfold register_holds, width, putSlot. rewrite !Nat2Z.id.
  destruct (Z.eqb_spec c ch_J) as [->|].
  { exists (U64 a), 0, w. split; [done|]. by rewrite Nat2Z.inj_add. }
  destruct (Z.eqb_spec c ch_D) as [->|].
  { exists (U64 a), 0, w. split; [done|]. by rewrite Nat2Z.inj_add. }
  cbn [orb]. rewrite Nat2Z.inj_add. change (Z.of_nat 1) with 1.
  destruct (Z.eqb_spec c ch_F) as [->|]; [by exists (U32 a), 0, w|].
  destruct (c =? ch_L); [|by exists (U32 a), 0, w].
  destruct (own a w) as [l w1] eqn:El. exists (U64 l), 1, w1. split; [|done]. split; [done|]. exists w. by rewrite El.
Qed.

Lemma words_cons c types : words (c :: types) = (width c + words types)%nat.
Proof. done. Qed.

(** The parameters fill the words from register [i] on. *)
Lemma pack_params_fills params : forall args (i : nat) regs flags (w : W), Forall type_ok params ->
  (length params <= length args)%nat -> (i + words params <= length regs)%nat -> length flags = length regs ->
  exists regs' flags' w', pack_params params args (Z.of_nat i) regs flags w = Some (regs', flags', w') /\
    length regs' = length regs /\ length flags' = length flags /\
    (forall j, (j < i)%nat -> regs' !! j = regs !! j /\ flags' !! j = flags !! j) /\
    (forall k c a, params !! k = Some c -> args !! k = Some a ->
       exists r flag, regs' !! (i + words (take k params))%nat = Some r /\
         flags' !! (i + words (take k params))%nat = Some flag /\ register_holds c a r flag).
Proof.
  induction params as [|c params IH]; intros [|a args] i regs flags w Hok Hl Hi Hf; cbn [length] in Hl; try lia;
    [by exists regs, flags, w..|].
  apply Forall_cons_iff in Hok as [Hc Hok]. rewrite words_cons in Hi. pose proof (width_pos c) as Hw.
  destruct (pack_one c a i params args regs flags w) as (r & flag & w1 & Hr & ->); [done|lia|done|].
  destruct (IH args (i + width c)%nat (<[i:=r]> regs) (<[i:=flag]> flags) w1)
    as (regs' & flags' & w' & -> & Hlr & Hlf & Hb & Ha); rewrite ?length_insert; [done|lia|lia|done|].
  rewrite length_insert in Hlr, Hlf. exists regs', flags', w'. split_and!; [done..| |].
  - intros j Hj. destruct (Hb j) as [-> ->]; [lia|]. by rewrite !list_lookup_insert_ne by lia.
  - intros [|k] c' a' Hk Hk'; cbn in Hk, Hk'.
    + simplify_eq. exists r, flag. cbn. rewrite Nat.add_0_r. destruct (Hb i) as [-> ->]; [lia|].
      by rewrite !list_lookup_insert_eq by lia.
    + destruct (Ha k c' a' Hk Hk') as (r' & flag' & Hr1 & Hf1 & Hh). exists r', flag'. cbn [take].
      rewrite words_cons, Nat.add_assoc. done.
Qed.

(** What a register holds depends on the part of the [jvalue] its type has. *)
Lemma holds_register c a v r flag : type_ok c -> holds c a v -> register_holds c a r flag -> register_holds c v r flag.
Proof.
  unfold holds, register_holds. intros Hc. destruct (_ =? ch_L); rewrite ?orb_true_r, ?orb_false_r; [by intros ->|].
  destruct (_ || _); [by intros ->|]. by intros ->.
Qed.
Lemma shorty_slots_words (this : bool) ret types :
  shorty_slots (negb this) (ret :: types) = Z.of_nat ((if this then 1 else 0) + words types).
Proof.
  unfold shorty_slots. change (drop 1 (ret :: types)) with types. rewrite Nat2Z.inj_add.
  f_equal; [by destruct this|]. induction types as [|c types IH]; [done|].
  rewrite words_cons, Nat2Z.inj_add, <- IH. cbn [List.map fold_right]. f_equal. unfold slot_width, width. by destruct (_ || _).
Qed.
Lemma passed_types types : forall vals k c v, passed types vals !! k = Some (c, v) -> types !! k = Some c.
Proof.
  induction types as [|c0 types IH]; intros [|v0 vals] k c v; cbn; [done..|]. destruct k as [|k]; cbn; [congruence|apply IH].
Qed.

(** The receiver takes the first register of the in-window, the parameters
    the following ones. *)
Lemma packRegisters_fills ic (this : bool) thisObj args ret types (w : W) :
  let n0 := if this then 1%nat else 0%nat in
  let base := Z.to_nat (registersSize ic - insSize ic) in
  Forall type_ok types -> (length types <= length args)%nat ->
  insSize ic = Z.of_nat (n0 + words types) -> insSize ic <= registersSize ic ->
  Z.of_nat (length (regs ic)) = registersSize ic -> length (regFlags ic) = length (regs ic) ->
  exists regs' flags' w', packRegisters ic (negb this) thisObj args (ret :: types) w = (PackOk regs' flags', w') /\
    length regs' = length (regs ic) /\ length flags' = length (regs ic) /\
    (forall j, (j < base)%nat -> regs' !! j = regs ic !! j /\ flags' !! j = regFlags ic !! j) /\
    (this = true -> exists r, regs' !! base = Some r /\ flags' !! base = Some 1 /\ register_holds ch_L thisObj r 1) /\
    (forall k c a, types !! k = Some c -> args !! k = Some a ->
       exists r flag, regs' !! (base + n0 + words (take k types))%nat = Some r /\
         flags' !! (base + n0 + words (take k types))%nat = Some flag /\ register_holds c a r flag).
Proof.
  intros n0 base Hok Hl Hins Hle Hr Hf. unfold packRegisters. rewrite shorty_slots_words. fold n0. rewrite Hins, Z.eqb_refl. cbn [negb].
  rewrite <- Hins. replace (registersSize ic <? insSize ic) with false by lia. cbv zeta.
  replace (registersSize ic - insSize ic) with (Z.of_nat base) by lia. change (drop 1 (ret :: types)) with types.
  unfold n0 in *. destruct this; cbn [negb].
  - unfold putSlot. rewrite Nat2Z.id. destruct (own thisObj w) as [l w1] eqn:El.
    replace (Z.of_nat base + 1) with (Z.of_nat (base + 1)) by lia.
    destruct (pack_params_fills types args (base + 1) (<[base:=U64 l]> (regs ic)) (<[base:=1]> (regFlags ic)) w1)
      as (regs' & flags' & w' & -> & Hlr & Hlf & Hb & Ha); rewrite ?length_insert; [done|done|lia|done|].
    rewrite length_insert in Hlr, Hlf. exists regs', flags', w'. split_and!; [done|done|congruence| | |done].
    + intros j Hj. destruct (Hb j) as [-> ->]; [lia|]. by rewrite !list_lookup_insert_ne by lia.
    + intros _. exists (U64 l). destruct (Hb base) as [-> ->]; [lia|]. rewrite !list_lookup_insert_eq by lia.
      split_and!; [reflexivity..|]. split; [done|]. exists w. by rewrite El.
  - destruct (pack_params_fills types args base (regs ic) (regFlags ic) w)
      as (regs' & flags' & w' & -> & Hlr & Hlf & Hb & Ha); [done|done|lia|done|].
    exists regs', flags', w'. rewrite Nat.add_0_r. by split_and!; [..|congruence| | |].
Qed.

(** C11: what a caller passes is what a callee stepped into receives.  Whatever
    form the invoke has, the array its arguments are marshalled into packs
    without failure into the registers of a method of that shorty: each
    parameter's register - the tail of the frame, wide ones taking two - holds
    the value of the caller's register at the parameter's type, objects as
    references of the callee's own and flagged as such; the receiver comes
    first, and the registers below the window are untouched. *)
Theorem arguments_arrive {W'} `{E : VmEnv W'} (s : frame W') (this : bool) thisObj ret types vsrc1 vdst vals ic (w : W) :
  let range := methodCallRange s in
  let n0 := if this then 1%nat else 0%nat in
  let base := Z.to_nat (registersSize ic - insSize ic) in
  frame_ok s -> 0 <= vsrc1 -> Forall type_ok types ->
  Forall2 (fun r v => fp s !!z r = Some v) (arg_registers range vsrc1 vdst) vals ->
  length vals = Z.to_nat (if range then vsrc1 else vsrc1 / 16) -> (n0 + words types = length vals)%nat ->
  insSize ic = Z.of_nat (length vals) -> insSize ic <= registersSize ic ->
  Z.of_nat (length (regs ic)) = registersSize ic -> length (regFlags ic) = length (regs ic) ->
  exists args s' regs' flags' w', marshal this types vsrc1 vdst s = Val args s' /\
    packRegisters ic (negb this) thisObj (if this then drop 1 args else args) (ret :: types) w = (PackOk regs' flags', w') /\
    (forall j, (j < base)%nat -> regs' !! j = regs ic !! j /\ flags' !! j = regFlags ic !! j) /\
    (this = true -> exists r, regs' !! base = Some r /\ flags' !! base = Some 1 /\ register_holds ch_L thisObj r 1) /\
    (forall k c v, passed types (drop n0 vals) !! k = Some (c, v) ->
       exists r flag, regs' !! (base + n0 + words (take k types))%nat = Some r /\
         flags' !! (base + n0 + words (take k types))%nat = Some flag /\ register_holds c v r flag).
Proof.
  intros range n0 base Hs H0 Hok Hvals Hlen Hw Hins Hle Hr Hf.
  destruct (marshal_fill s Hs this types vsrc1 vdst vals) as (args0 & Hl & Hm); [done..|].
  cbv zeta in Hm. fold range n0 in Hm, Hl. set (args := fill args0 n0 types (drop n0 vals)) in *.
  set (passed_args := if this then drop 1 args else args).
  assert (Hat : forall k, passed_args !! k = args !! (n0 + k)%nat).
  { intros k. unfold passed_args, n0. destruct this; [by rewrite lookup_drop|done]. }
  assert (Hla : (length types <= length passed_args)%nat).
  { unfold passed_args, args, n0 in *. destruct this; rewrite ?length_drop, length_fill; lia. }
  destruct (packRegisters_fills ic this thisObj passed_args ret types w)
    as (regs' & flags' & w' & Hp & _ & _ & Hb & Ht & Ha); [done|done|fold n0; lia|lia|done|done|].
  exists args. eexists. exists regs', flags', w'. split_and!; [exact Hm|exact Hp|exact Hb|exact Ht|].
  intros k c v Hk. destruct (fill_passed types args0 n0 (drop n0 vals) k c v Hok Hk Hl) as (a & Hka & Hh).
  pose proof (passed_types _ _ _ _ _ Hk) as Htk. fold args in Hka. rewrite <- Hat in Hka.
  destruct (Ha k c a Htk Hka) as (r & flag & Hr1 & Hf1 & Hh1). exists r, flag. split_and!; [done..|].
  eapply holds_register; [|done..]. by eapply Forall_lookup_1.
Qed.
End Arrive.

End InterpCall.
