(* ===== verification/InterpDemo.v ===== *)
(** * A program on the sandbox

    A concrete platform, DEX file and memory for the executor: two static
    methods of a class p.A, [int f(int x) { return g(x); }] and
    [int g(int x) { return x + 1; }].  The sessions' and the executor's
    theorems are applied to runs of [f]. *)
From stdpp Require Import gmap.
From S2P Require Import Prelude.
From S2P Require Import VmEnv.
From S2P Require Import VmWorld.
From S2P Require Import CodeProvider.
From S2P Require Import DexResolver.
From S2P Require Import ResolverBridge.
From S2P Require Import InterpSig.
From S2P Require Import InterpTrace.
From S2P Require Import InterpSession.
From S2P Require Import InterpExec.
From S2P Require Import VmWorldRel.
From S2P Require Import InterpKeeps.
From S2P Require Import InterpBalance.
From S2P Require Import InterpLimit.
From S2P Require Import InterpCall.
From S2P Require Import VmInvoke.
From S2P Require Import VmMarshal.
From S2P Require Import VmWitness.
Import VmEnv CodeProvider ClassRefs InterpSig InterpTrace InterpSession InterpExec VmWorldRel InterpKeeps InterpBalance InterpLimit InterpErrors InterpCall VmInvoke VmMarshal.

Module InterpDemo.

(** VmWorld's platform, counting the local frames that are open. *)
Definition Platform : Type := VmWorld.World * Z.
#[export] Instance demo_jni : JNI Platform := lift_jni fst (fun a b => (a, snd b)) VmWorld.demo_jni.
#[export] Instance demo_names : JNINames Platform := {|
  FindClass n w := (0, w);
  NewGlobalRef o w := (o, w);
  DeleteGlobalRef o w := w;
  GetMethodID c n s w := (700, w);
  GetStaticMethodID c n s w := (701, w);
  GetFieldID c n s w := (702, w);
  GetStaticFieldID c n s w := (703, w);
  NewStringUTF s w := (600, w);
  CallObjectMethod o m a w := (0, w)
|}.
#[export] Instance demo_frames : JNIFrames Platform := {|
  PushLocalFrame n w := (0, (fst w, snd w + 1));
  PopLocalFrame r w := (r, (fst w, snd w - 1));
  GetObjectRefType r w := (JNILocalRefType, w)
|}.
#[export] Instance demo_log : Log Platform := {| log_line p d l w := w; UnifiedCallDepth w := 0 |}.

(** ** The file and its memory *)

Definition demo_dex : DexResolver.Dex := DexResolver.MkDex
  [str "Lp/A;"; str "f"; str "g"; str "I"; str "II"] [0; 3] [DexResolver.MkProto 4 1 [1]] []
  [DexResolver.MkId 0 0 1; DexResolver.MkId 0 0 2].
(** invoke-static {v1}, g; move-result v0; return v0 *)
Definition f_code : list Z := [0x1071; 1; 1; 0x000a; 0x000f].
(** add-int/lit8 v0, v0, 1; return v0 *)
Definition g_code : list Z := [0x00d8; 0x0100; 0x000f].
Definition demo_base : Z := 0x1000.
Definition mem_with (g : list Z) : list Z :=
  CodeProvider.standard_bytes 2 1 1 0 f_code [] [] ++ replicate 6 0 ++ CodeProvider.standard_bytes 1 1 0 0 g [] [].
Definition demo_mem : list Z := mem_with g_code.
Definition am_f : Z := 10.
Definition am_g : Z := 20.
#[export] Instance demo_art : ArtRuntime Platform := {|
  ArtMethod_Require c n s st w := (if bool_decide (n = str "g") then am_g else am_f, w);
  AccessFlags am w := 0x0009;
  EntryPointFromJni am w := if am =? am_f then demo_base else demo_base + 32;
  initFromMethod am w := Some (1, demo_dex, false);
  resolveNativeTarget a c n s w := (false, 0, w);
  dispatchToNative a r l s d t w := (0, false, w)
|}.

Definition demo_refs : ClassRefs.State Platform := ClassRefs.MkState {[str "p/A" := 50]} 0 0 None 0.
Definition demo_world : World Platform :=
  MkWorld (VmWorld.MkWorld 0 [], 0) ∅ demo_refs [] [] [] [] no_trace None None.

(** Every call is stepped into; with a budget of 100 instructions. *)
Definition demo_callbacks : Callbacks Platform :=
  MkCallbacks _ None (Some (fun ev w => (StepIn, 0, ev_args ev, w))) None None.
Definition demo_options : Options := MkOptions 100 true 8 false false false.
Definition demo_run (mem : list Z) (opts : Options) : RunResult * World Platform :=
  runMethodInternal demo_base mem (fun _ => 0) VmWorld.demo_globals [] false true (fun _ => 0) 201 65
    am_f 0 [41] (str "II") (Some demo_callbacks) (Some opts) None 0 demo_world.
(** The methods called through JNI. *)
Definition calls (w : World Platform) : list (Z * list Z) :=
  omap (fun e => match e with VmWorld.EvCall m a => Some (m, a) | _ => None end) (VmWorld.trace (fst (platform w))).

Example f_of_41 : let '(r, w) := demo_run demo_mem demo_options in
  status r = OK /\ value r = 42 /\ snd (platform w) = 0 /\ fault w = None /\ calls w = [].
Proof. vm_compute. repeat split. Qed.

(** A budget of one instruction stops [g] after its first; [g] is then
    called through JNI, and [f] goes on to its own second instruction. *)
Example budget_of_one : let '(r, w) := demo_run demo_mem (MkOptions 1 true 8 false false false) in
  status r = ABORTED /\ handoff r = false /\ fault w = None /\ calls w = [(701, [41; 0; 0; 0; 0])].
Proof. vm_compute. repeat split. Qed.

(** [g] divides by zero: once it has thrown in the interpreter it is called
    again through JNI, with the exception pending. *)
Definition throwing_code : list Z := [0x00db; 0x0000; 0x000f].
Example throws_and_is_called : let '(r, w) := demo_run (mem_with throwing_code) demo_options in
  status r = OK /\ exceptionPending r = true /\ fault w = None /\
  VmWorld.trace (fst (platform w)) = [VmWorld.EvDelete 50; VmWorld.EvThrow 906; VmWorld.EvDelete 906; VmWorld.EvDelete 50;
    VmWorld.EvCall 701 [41; 0; 0; 0; 0]; VmWorld.EvDelete 50; VmWorld.EvDelete 906].
Proof. vm_compute. repeat split. Qed.

(** ** The platform counts its frames *)

Lemma through_same {X} (f : VmWorld.World -> X * VmWorld.World) (p : Platform) :
  same_open snd p (through fst (fun a b => (a, snd b)) f p).2.
Proof. unfold through. by destruct (f _). Qed.
Lemma demo_counts : counts_frames (W := Platform) snd.
Proof. split; [split; intros; first [apply through_same|done]|split..| | | |]; intros; first [done|cbn in *; lia]. Qed.

(** [f] stepping into [g]. *)
Lemma run_restores_thread_witness : let w := (demo_run demo_mem demo_options).2 in
  activeStack w = [] /\ frameStack w = [] /\ interpStack w = [] /\ g_interpDepth (refs w) = 0 /\ session w = None /\
  (fault w = None -> snd (platform w) = 0).
Proof.
  refine (run_restores_thread snd demo_base demo_mem (fun _ => 0) VmWorld.demo_globals [] false true (fun _ => 0) 201
    65 am_f 0 [41] (str "II") (Some demo_callbacks) (Some demo_options) None 0 demo_world demo_counts _ _).
  - intros c [= <-]. split; intros; cbn in *; simplify_eq; done.
  - split; [by intros f n w|cbn; lia].
Defined.

(** With a budget of 100, 201 units of fuel. *)
Lemma budget_ends_witness : fault (demo_run demo_mem demo_options).2 <> Some NoFuel.
Proof.
  apply (budget_ends demo_base demo_mem (fun _ => 0) VmWorld.demo_globals [] false true (fun _ => 0) 201 demo_options
    (Some demo_callbacks) None).
  - cbn; lia.
  - reflexivity.
  - cbn; lia.
  - apply Forall_forall. intros x Hx. assert (Hb : forallb (fun b => (0 <=? b) && (b <? 256)) demo_mem = true) by reflexivity.
    rewrite forallb_forall in Hb. apply Hb in Hx. unfold in_u. change (2 ^ 8) with 256. lia.
  - by vm_compute.
  - reflexivity.
Defined.


(** [f]'s call of [g]. *)
Definition call_session : Session Platform := makeSession (Some demo_dex) (Some demo_callbacks) (Some demo_options) None 0 am_f.
Definition call_world : World Platform := set_session (Some call_session) demo_world.
Definition demo_pre := trOnInvokePre [] (MkFrameCtx 0 0 0) (MkVmMethod 0 1 (str "II") 0) 0x71 0 1 [41] call_world.
Lemma step_in_policy_witness : demo_pre.1.1.1 = VM_INVOKE_STEP_IN /\
  exists s dex, session call_world = Some s /\ s_dex s = Some dex /\ step_in_requested s /\ s_depth s < step_in_allowed s 8.
Proof.
  split; [vm_compute; reflexivity|].
  destruct (step_in_policy [] (MkFrameCtx 0 0 0) (MkVmMethod 0 1 (str "II") 0) 0x71 0 1 [41] call_world
    demo_pre.1.1.2 demo_pre.1.2 demo_pre.2) as (s & dex & H1 & H2 & H3 & H4); [vm_compute; reflexivity|].
  exists s, dex. split_and!; [exact H1|exact H2|exact H3|]. injection H1 as <-. vm_compute. reflexivity.
Defined.

(** The frame of VmWitness passes its receiver 77, an int and a long to a
    method with six registers, four of them for its arguments. *)
Definition callee_code : InterpCode := MkInterpCode (replicate 6 0) (replicate 6 0) [] [] InsnsNull 6 4 0 0 false false.
Lemma arguments_arrive_witness : exists args s' regs flags (p : Platform),
  marshal (E := VmWitness.sum_env) true [ch_I; ch_J] 0x40 0x3321 VmWitness.invoke_frame = Val args s' /\
  packRegisters callee_code false 77 (drop 1 args) [ch_V; ch_I; ch_J] (platform demo_world) = (PackOk regs flags, p) /\
  regs !! 4%nat = Some 0x123456789.
Proof.
  destruct (arguments_arrive (E := VmWitness.sum_env) VmWitness.invoke_frame true 77 ch_V [ch_I; ch_J] 0x40 0x3321 [77; 5; 0x123456789; 0x123456789]
    callee_code (platform demo_world)) as (args & s' & regs & flags & p & H1 & H2 & _ & _ & H3).
  - VmWitness.concrete.
  - lia.
  - repeat (constructor; [left; eexists; reflexivity|]). constructor.
  - vm_compute arg_registers. repeat constructor.
  - reflexivity.
  - reflexivity.
  - reflexivity.
  - cbn. lia.
  - reflexivity.
  - reflexivity.
  - exists args, s', regs, flags, p. split_and!; [exact H1|exact H2|].
    destruct (H3 1%nat ch_J 0x123456789 eq_refl) as (r & fl & H4 & _ & _ & H5). rewrite H5 in H4. exact H4.
Defined.

End InterpDemo.
