(* ===== verification/UnityPreprocess.v ===== *)
(** * Hyphenated Unity assembly names

    src/engine/utils/unity_preprocess.h: PreprocessUnityLine rewrites
    dynamic.unity.assembly.A-B to bracket notation where it is code, and
    copies strings, comments and regular expressions.  An iteration of the
    loop copies a piece of the input or rewrites a chain; [before] is the
    input before the position, last character first.

    Module UnityProofs: it rewrites exactly the hyphenated chains of code, and
    nothing a second time. *)
From stdpp Require Import strings.
From S2P Require Import Prelude.
Local Open Scope cint_scope.

Module UnityPreprocess.

Definition isalpha (c : Z) : bool := ((65 <=? c) && (c <=? 90)) || ((97 <=? c) && (c <=? 122)).
Definition isalnum (c : Z) : bool := ((48 <=? c) && (c <=? 57)) || isalpha c.
Definition IsUnityJsIdentChar (c : Z) : bool := isalnum c || (c =? 95) || (c =? 36).
Definition IsUnityAssemblyNameChar (c : Z) : bool := isalnum c || (c =? 95) || (c =? 36) || (c =? 45).

Definition is_space (c : Z) : bool := (c =? 32) || (c =? 9) || (c =? 13) || (c =? 10).
(** = ( [ { , : ; ! & | ? + - * % ^ ~ < > *)
Definition regex_after : list Z := [61; 40; 91; 123; 44; 58; 59; 33; 38; 124; 63; 43; 45; 42; 37; 94; 126; 60; 62].
Fixpoint IsUnityRegexContext (before : list Z) : bool :=
  match before with
  | [] => true
  | c :: before => if is_space c then IsUnityRegexContext before else existsb (Z.eqb c) regex_after
  end.

Inductive State := Code | SingleQuote | DoubleQuote | Template | LineComment | BlockComment | Regex | RegexClass.
(** What an iteration consumes: copied as it is, or the chain with this name. *)
Inductive piece := Copy (raw : list Z) | Chain (name : list Z).

Definition kPrefix : list Z := str "dynamic.unity.assembly.".
Definition raw (p : piece) : list Z := match p with Copy r => r | Chain name => kPrefix ++ name end.
Definition text (p : piece) : list Z :=
  match p with Copy r => r | Chain name => str "dynamic.unity.assembly[" ++ [34] ++ name ++ [34] ++ str "]" end.

Fixpoint starts (p l : list Z) : bool :=
  match p, l with
  | [], _ => true
  | a :: p, b :: l => (a =? b) && starts p l
  | _, [] => false
  end.
Fixpoint span (f : Z -> bool) (l : list Z) : list Z :=
  match l with c :: l => if f c then c :: span f l else [] | [] => [] end.
Definition at_boundary (before : list Z) : bool := match before with [] => true | b :: _ => negb (IsUnityJsIdentChar b) end.

(** Both characters of an escape, when there is a second one. *)
Definition escape (st : State) (c : Z) (cs : list Z) (otherwise : State * piece) : State * piece :=
  match cs with e :: _ => if c =? 92 then (st, Copy [c; e]) else otherwise | [] => otherwise end.
Definition in_string (st : State) (quote c : Z) (cs : list Z) : State * piece :=
  escape st c cs (if c =? quote then Code else st, Copy [c]).
Definition in_code (before : list Z) (c : Z) (cs : list Z) : State * piece :=
  if (c =? 47) && starts [47] cs then (LineComment, Copy [47; 47])
  else if (c =? 47) && starts [42] cs then (BlockComment, Copy [47; 42])
  else if c =? 39 then (SingleQuote, Copy [c])
  else if c =? 34 then (DoubleQuote, Copy [c])
  else if c =? 96 then (Template, Copy [c])
  else if (c =? 47) && IsUnityRegexContext before then (Regex, Copy [c])
  else if starts kPrefix (c :: cs) && at_boundary before then
    let name := span IsUnityAssemblyNameChar (drop (length kPrefix) (c :: cs)) in
    if existsb (Z.eqb 45) name then (Code, Chain name) else (Code, Copy (kPrefix ++ name))
  else (Code, Copy [c]).
Definition iteration (st : State) (before : list Z) (c : Z) (cs : list Z) : State * piece :=
  match st with
  | Code => in_code before c cs
  | LineComment => (if c =? 10 then Code else LineComment, Copy [c])
  | BlockComment => if (c =? 42) && starts [47] cs then (Code, Copy [42; 47]) else (BlockComment, Copy [c])
  | Regex =>
      escape st c cs
        (if c =? 91 then (RegexClass, Copy [c])
         else if c =? 47 then (Code, Copy (c :: span isalpha cs))
         else if c =? 10 then (Code, Copy [c]) else (Regex, Copy [c]))
  | RegexClass => escape st c cs (if c =? 93 then Regex else RegexClass, Copy [c])
  | SingleQuote => in_string st 39 c cs
  | DoubleQuote => in_string st 34 c cs
  | Template => in_string st 96 c cs
  end.

(** The pieces, each with the state it was read in. *)
Fixpoint pieces (fuel : nat) (st : State) (before rest : list Z) : option (list (State * piece)) :=
  match rest, fuel with
  | [], _ => Some []
  | _, O => None
  | c :: cs, S fuel =>
      let '(st', p) := iteration st before c cs in
      l ← pieces fuel st' (rev (raw p) ++ before) (drop (length (raw p)) rest);
      Some ((st, p) :: l)
  end.
Definition output (l : list (State * piece)) : list Z := concat (List.map (fun sp => text (snd sp)) l).
Definition PreprocessUnityLine (input : list Z) : option (list Z) := output <$> pieces (length input) Code [] input.

Definition preprocess (s : string) : option (list Z) := PreprocessUnityLine (str s).
Example chain_rewritten : preprocess "x = dynamic.unity.assembly.Assembly-CSharp.Player" =
  Some (str "x = dynamic.unity.assembly[" ++ [34] ++ str "Assembly-CSharp" ++ [34] ++ str "].Player").
Proof. by vm_compute. Qed.
Example comment_kept : preprocess "a / b // dynamic.unity.assembly.A-B" = Some (str "a / b // dynamic.unity.assembly.A-B").
Proof. by vm_compute. Qed.
(** The operator behind a name is taken into it. *)
Example decrement_taken : preprocess "dynamic.unity.assembly.count--" = Some (str "dynamic.unity.assembly[" ++ [34] ++ str "count--" ++ [34] ++ str "]").
Proof. by vm_compute. Qed.

End UnityPreprocess.

Import UnityPreprocess.
Local Open Scope cint_scope.

Module UnityProofs.

(** The iterations as a relation. *)
Inductive runs : State -> list Z -> list Z -> list (State * piece) -> Prop :=
| runs_nil st b : runs st b [] []
| runs_cons st b c cs st' p t l : iteration st b c cs = (st', p) -> c :: cs = raw p ++ t -> runs st' (rev (raw p) ++ b) t l ->
    runs st b (c :: cs) ((st, p) :: l).

(** ** Scanning *)

Lemma starts_app p l : starts p l = true <-> exists r, l = p ++ r.
Proof.
  revert l. induction p as [|a p IH]; intros l; [split; [by eexists|done]|]. destruct l as [|b l]; cbn [starts].
  - split; [done|]. by intros [r ?].
  - rewrite andb_true_iff, IH, Z.eqb_eq. split; [intros [-> [r ->]]; by exists r|]. intros [r [= -> ->]]. split; [done|by exists r].
Qed.
(** The character that comes next does not satisfy [f]. *)
Definition stops (f : Z -> bool) (l : list Z) : Prop := match l with c :: _ => f c = false | [] => True end.
Lemma name_span f l : exists r, l = span f l ++ r /\ Forall (fun c => f c = true) (span f l) /\ stops f r.
Proof.
  induction l as [|c l (r & E & F & S)]; [by exists []|]. cbn [span]. destruct (f c) eqn:Ec.
  - exists r. split; [by rewrite E at 1|]. split; [by constructor|done].
  - exists (c :: l). done.
Qed.
Lemma span_app f a r : Forall (fun c => f c = true) a -> stops f r -> span f (a ++ r) = a.
Proof.
  intros H S. induction H as [|c a Hc _ IH]; cbn [app span]; [|by rewrite Hc, IH]. destruct r as [|c r]; [done|]. cbn in S. cbn [span]. by rewrite S.
Qed.
Lemma existsb_eq c l : existsb (Z.eqb c) l = true <-> In c l.
Proof. rewrite existsb_exists. split; [by intros (x & Hx & <-%Z.eqb_eq)|intros H; exists c; by rewrite Z.eqb_refl]. Qed.

(** A chain to be rewritten. *)
Definition chain_at (before rest name : list Z) : Prop :=
  at_boundary before = true /\ In 45 name /\ Forall (fun c => IsUnityAssemblyNameChar c = true) name /\
  exists r, rest = kPrefix ++ name ++ r /\ stops IsUnityAssemblyNameChar r.

Lemma kPrefix_drop l : drop (length kPrefix) (kPrefix ++ l) = l.
Proof. by rewrite drop_app_length. Qed.
Lemma in_code_chain b l c cs n : c :: cs = kPrefix ++ l -> at_boundary b = true -> n = span IsUnityAssemblyNameChar l ->
  in_code b c cs = (Code, if existsb (Z.eqb 45) n then Chain n else Copy (kPrefix ++ n)).
Proof.
  intros E Hb ->. assert (Hc : c = 100) by (by injection E). subst c. unfold in_code. cbn [Z.eqb Pos.eqb andb].
  rewrite E, Hb. assert (Hs : starts kPrefix (kPrefix ++ l) = true) by (apply starts_app; by eexists). rewrite Hs, kPrefix_drop. cbn [andb].
  by destruct (existsb _ _).
Qed.

Lemma two_chars a b c cs : (c =? a) && starts [b] cs = true -> exists t, c :: cs = [a; b] ++ t.
Proof.
  intros H. apply andb_prop in H as [->%Z.eqb_eq H]. apply starts_app in H as [t ->]. by exists t.
Qed.

Definition comes_next (rest : list Z) (p : piece) : Prop := exists t, rest = raw p ++ t /\ raw p <> [].
Lemma comes_one c cs : comes_next (c :: cs) (Copy [c]).
Proof. by exists cs. Qed.
Lemma comes_two a b c cs : (c =? a) && starts [b] cs = true -> comes_next (c :: cs) (Copy [a; b]).
Proof. intros [t ->]%two_chars. by exists t. Qed.
Lemma comes_name c cs : starts kPrefix (c :: cs) = true ->
  comes_next (c :: cs) (Chain (span IsUnityAssemblyNameChar (drop (length kPrefix) (c :: cs)))).
Proof.
  intros [l ->]%starts_app. rewrite kPrefix_drop. destruct (name_span IsUnityAssemblyNameChar l) as (r & E & _).
  exists r. split; [|done]. cbn [raw]. by rewrite <- app_assoc, <- E.
Qed.
Lemma comes_escape st c cs o : comes_next (c :: cs) (snd o) -> comes_next (c :: cs) (snd (escape st c cs o)).
Proof. intros Ho. unfold escape. destruct cs as [|e cs]; [done|]. destruct (c =? 92) eqn:E; [|done]. by exists cs. Qed.
Create HintDb comes.
#[local] Hint Resolve comes_one comes_two comes_escape : comes.
(** What an iteration consumes comes next. *)
Lemma iteration_comes st b c cs : comes_next (c :: cs) (snd (iteration st b c cs)).
Proof.
  destruct st; cbn [iteration]; unfold in_string; try apply comes_escape.
  - unfold in_code. repeat case_match; cbn [snd]; auto with comes;
      match goal with H : starts kPrefix _ && _ = true |- _ => apply andb_prop in H as [Hs _] end; exact (comes_name c cs Hs).
  - cbn [snd]. auto with comes.
  - cbn [snd]. auto with comes.
  - cbn [snd]. auto with comes.
  - cbn [snd]. auto with comes.
  - repeat case_match; cbn [snd]; auto with comes.
  - repeat case_match; cbn [snd]; auto with comes. destruct (name_span isalpha cs) as (r & E & _). exists r. split; [|done]. cbn [raw app]. by rewrite <- E.
  - cbn [snd]. auto with comes.
Qed.

(** The loop has enough turns. *)
Lemma pieces_runs fuel : forall st b rest, (length rest <= fuel)%nat -> exists l, pieces fuel st b rest = Some l /\ runs st b rest l.
Proof.
  induction fuel as [|fuel IH]; intros st b [|c cs] Hf; try (eexists; split; [reflexivity|constructor]); [cbn in Hf; lia|].
  cbn [pieces]. destruct (iteration st b c cs) as [st' p] eqn:E. destruct (iteration_comes st b c cs) as (t & Et & Hne). rewrite E in Et, Hne. cbn [snd] in Et, Hne.
  assert (Ed : drop (length (raw p)) (c :: cs) = t) by (rewrite Et; apply drop_app_length). rewrite Ed. destruct (IH st' (rev (raw p) ++ b) t) as (l & Hl & Hr).
  { apply (f_equal length) in Et. rewrite length_app in Et. cbn [length] in Et, Hf. destruct (raw p); [done|]. cbn [length] in Et. lia. }
  rewrite Hl. eexists. split; [reflexivity|]. by eapply runs_cons.
Qed.
Lemma runs_pieces st b rest l : runs st b rest l -> forall fuel, (length rest <= fuel)%nat -> pieces fuel st b rest = Some l.
Proof.
  induction 1 as [st b|st b c cs st' p t l E Et Hr IH]; intros fuel Hf; [by destruct fuel|]. destruct fuel as [|fuel]; [cbn in Hf; lia|].
  cbn [pieces]. assert (Ed : drop (length (raw p)) (c :: cs) = t) by (rewrite Et; apply drop_app_length). rewrite E, Ed. destruct (iteration_comes st b c cs) as (t' & _ & Hne). rewrite E in Hne. cbn [snd] in Hne.
  rewrite IH; [done|]. apply (f_equal length) in Et. rewrite length_app in Et. cbn [length] in Et, Hf. destruct (raw p); [done|]. cbn [length] in Et. lia.
Qed.
Definition input_of (l : list (State * piece)) : list Z := concat (List.map (fun sp => raw (snd sp)) l).
Lemma runs_input st b rest l : runs st b rest l -> input_of l = rest.
Proof. induction 1 as [|st b c cs st' p t l E Et Hr IH]; [done|]. unfold input_of in *. cbn [List.map concat snd]. by rewrite IH. Qed.
Lemma runs_from st b rest pre post : runs st b rest (pre ++ post) -> exists st', runs st' (rev (input_of pre) ++ b) (input_of post) post.
Proof.
  revert st b rest. induction pre as [|sp pre IH]; intros st b rest H.
  - exists st. cbn [app] in H. by rewrite (runs_input _ _ _ _ H).
  - inversion H as [|? ? ? ? ? ? ? ? _ _ Hr]; subst. destruct (IH _ _ _ Hr) as [st2 Hp]. exists st2. unfold input_of in *. cbn [List.map concat snd].
    by rewrite List.rev_app_distr, <- app_assoc.
Qed.

(** ** What is rewritten *)

Lemma not_chain st b c cs : (forall n, snd (iteration st b c cs) <> Chain n) \/ st = Code.
Proof.
  destruct st; [by right|left|left|left|left|left|left|left]; intros n; cbn [iteration]; unfold in_string, escape; repeat case_match; done.
Qed.
Lemma chain_iff st b c cs n : snd (iteration st b c cs) = Chain n <-> st = Code /\ chain_at b (c :: cs) n.
Proof.
  split.
  - intros H. destruct (not_chain st b c cs) as [Hn| ->]; [by apply Hn in H|]. split; [done|]. cbn [iteration] in H. pose proof H as H0. unfold in_code in H.
    destruct (starts kPrefix (c :: cs) && at_boundary b) eqn:E0; [|repeat case_match; discriminate H].
    apply andb_prop in E0 as [[l El]%starts_app Hb]. clear H. 
    destruct (name_span IsUnityAssemblyNameChar l) as (r & E & F & S). rewrite (in_code_chain b l c cs _ El Hb eq_refl) in H0.
    destruct (existsb _ _) eqn:Ex in H0; [|discriminate H0]. injection H0 as <-. split; [done|]. split; [by apply existsb_eq|].
    split; [done|]. exists r. split; [by rewrite <- E|done].
  - intros (-> & Hb & Hin & F & r & E & S). cbn [iteration]. rewrite (in_code_chain b (n ++ r) c cs n E Hb); [|by rewrite span_app].
    apply existsb_eq in Hin. by rewrite Hin.
Qed.

(** ** A second pass *)

(** The output has the characters of the input up to the next chain. *)
Lemma output_cons st p l : output ((st, p) :: l) = text p ++ output l.
Proof. done. Qed.
Lemma starts_split q : forall a t, starts q (a ++ t) = true -> starts q a = true \/ exists q', q = a ++ q' /\ starts q' t = true.
Proof.
  induction q as [|x q IH]; intros [|y a] t H; cbn [app starts] in *; [by left|by left|right; by exists (x :: q)|].
  apply andb_prop in H as [->%Z.eqb_eq H]. rewrite Z.eqb_refl. destruct (IH a t H) as [H1|(q' & -> & H1)]; [by left|]. right. by exists q'.
Qed.
Lemma starts_longer q a t : starts q a = true -> starts q (a ++ t) = true.
Proof. rewrite !starts_app. intros [r ->]. exists (r ++ t). by rewrite app_assoc. Qed.
(** No text without a d starts in the output unless it does in the input. *)
Lemma output_starts st b rest l : runs st b rest l -> forall q, ~ In 100 q -> starts q (output l) = true -> starts q rest = true.
Proof.
  induction 1 as [|st b c cs st' p t l E Et Hr IH]; intros q Hq H; [done|]. rewrite Et. rewrite output_cons in H. destruct p as [r|n].
  - cbn [text raw] in *. apply starts_split in H as [H|(q' & -> & H)]; [by apply starts_longer|].
    apply starts_app in H as [r' H]. apply starts_app.
    assert (H1 : starts q' t = true) by (apply IH; [intros Hin; apply Hq, in_app_iff; by right|apply starts_app; by exists r']).
    apply starts_app in H1 as [r2 ->]. exists r2. by rewrite app_assoc.
  - destruct q as [|x q]; [done|]. cbn in H. apply andb_prop in H as [->%Z.eqb_eq _]. destruct Hq. by left.
Qed.
Lemma output_nil st b rest l : runs st b rest l -> output l = [] -> rest = [].
Proof.
  intros Hr. destruct Hr as [|st b c cs st' p t l E Et Hr]; [done|]. rewrite output_cons. destruct (iteration_comes st b c cs) as (t' & _ & Hne).
  rewrite E in Hne. cbn [snd] in Hne. destruct p as [[|x r]|n]; done.
Qed.
Lemma output_hd st b rest l : runs st b rest l -> hd_error (output l) = hd_error rest.
Proof.
  intros Hr. destruct Hr as [|st b c cs st' p t l E Et Hr]; [done|]. rewrite output_cons, Et. destruct (iteration_comes st b c cs) as (t' & _ & Hne).
  rewrite E in Hne. cbn [snd] in Hne. destruct p as [[|x r]|n]; done.
Qed.
Lemma stops_hd f a b : hd_error a = hd_error b -> stops f b -> stops f a.
Proof. destruct a, b; try done. by intros [= ->]. Qed.
Lemma starts_one_hd x a b : hd_error a = hd_error b -> starts [x] a = starts [x] b.
Proof. destruct a, b; try done. by intros [= ->]. Qed.

(** What the lexer sees of the text before it, in the input and in the
    output. *)
Definition alike (b b' rest : list Z) : Prop :=
  IsUnityRegexContext b' = IsUnityRegexContext b /\ (at_boundary b' = at_boundary b \/ stops IsUnityAssemblyNameChar rest).
Lemma regex_app l b b' : IsUnityRegexContext b' = IsUnityRegexContext b -> IsUnityRegexContext (l ++ b') = IsUnityRegexContext (l ++ b).
Proof. intros H. induction l as [|c l IH]; [done|]. cbn [app IsUnityRegexContext]. by destruct (is_space c). Qed.
Lemma alike_copied b b' r rest rest' : alike b b' rest -> r <> [] -> alike (rev r ++ b) (rev r ++ b') rest'.
Proof.
  intros [H _] Hr. split; [by apply regex_app|left]. destruct (rev r) as [|x l] eqn:E; [|done].
  destruct Hr. by rewrite <- (rev_involutive r), E.
Qed.

(** A copied piece is copied again. *)
Lemma escape_again st c cs o o' st' r t t2 : escape st c cs o = (st', Copy r) -> c :: cs = r ++ t -> r <> [] -> hd_error t2 = hd_error t ->
  (o = (st', Copy r) -> o' = (st', Copy r)) -> escape st c (tl r ++ t2) o' = (st', Copy r).
Proof.
  unfold escape. intros E Et Hr Hhd Ho. destruct r as [|x r]; [done|]. injection Et as <- Et. cbn [tl].
  destruct cs as [|e cs].
  - destruct r; [|done]. destruct t; [|done]. destruct t2; [|done]. by apply Ho.
  - destruct (c =? 92) eqn:Ec.
    + injection E as <- <-. done.
    + destruct (r ++ t2); by apply Ho.
Qed.
Lemma kPrefix_rest : exists q, kPrefix = 100 :: q /\ ~ In 100 q.
Proof. eexists. split; [reflexivity|]. apply (bool_decide_unpack _). by vm_compute. Qed.
Lemma no_new_chain b b' c cs t2 : starts kPrefix (c :: cs) && at_boundary b = false -> alike b b' (c :: cs) ->
  (forall q, ~ In 100 q -> starts q t2 = true -> starts q cs = true) -> starts kPrefix (c :: t2) && at_boundary b' = false.
Proof.
  intros E0 [_ Hb] Hq. destruct kPrefix_rest as (q & Ek & Hn). rewrite Ek in *. cbn [starts] in *. destruct (Z.eqb_spec 100 c) as [<-|]; [|done].
  cbn [andb] in *. destruct (starts q t2) eqn:E2; [|done]. rewrite (Hq q Hn E2) in E0. cbn [andb] in *. destruct Hb as [->|]; done.
Qed.
Lemma plain_again b b' c cs st' r t t2 : in_code b c cs = (st', Copy r) -> c :: cs = r ++ t -> r <> [] ->
  IsUnityRegexContext b' = IsUnityRegexContext b -> hd_error t2 = hd_error t -> starts kPrefix (c :: cs) && at_boundary b = false ->
  (r = [c] -> starts kPrefix (c :: t2) && at_boundary b' = false) -> in_code b' c (tl r ++ t2) = (st', Copy r).
Proof.
  unfold in_code. intros E Et Hr Hre Hhd E0 E0'. rewrite E0 in E.
  destruct ((c =? 47) && starts [47] cs) eqn:E1.
  { injection E as <- <-. apply andb_prop in E1 as [-> _]. done. }
  destruct ((c =? 47) && starts [42] cs) eqn:E2.
  { injection E as <- <-. apply andb_prop in E2 as [-> _]. done. }
  assert (r = [c]) as -> by (repeat case_match; congruence).
  injection Et as ->. cbn [tl app]. rewrite !(starts_one_hd _ t2 t Hhd), E1, E2, Hre, (E0' eq_refl). exact E.
Qed.
Lemma in_code_again b b' c cs st' r t t2 : in_code b c cs = (st', Copy r) -> c :: cs = r ++ t -> r <> [] -> alike b b' (c :: cs) ->
  hd_error t2 = hd_error t -> (forall q, ~ In 100 q -> starts q t2 = true -> starts q t = true) ->
  in_code b' c (tl r ++ t2) = (st', Copy r).
Proof.
  intros E Et Hr [Hre Hb] Hhd Hq. destruct (starts kPrefix (c :: cs) && at_boundary b) eqn:E0.
  - apply andb_prop in E0 as [[l El]%starts_app Hbd]. rewrite (in_code_chain b l c cs _ El Hbd eq_refl) in E.
    destruct (existsb _ _) eqn:Ex; [done|]. destruct Hb as [Hb|Hs]; [|by injection El as -> _].
    destruct (name_span IsUnityAssemblyNameChar l) as (rr & Er & F & S). set (n := span IsUnityAssemblyNameChar l) in *.
    apply (f_equal fst) in E as E1. apply (f_equal (fun y => raw (snd y))) in E. cbn [fst snd raw] in E, E1. subst st' r.
    assert (t = rr) as -> by (rewrite El, Er, <- app_assoc in Et; by apply app_inv_head, app_inv_head in Et).
    assert (E2 : c :: tl (kPrefix ++ n) ++ t2 = kPrefix ++ n ++ t2) by (by injection El as -> _).
    rewrite (in_code_chain b' (n ++ t2) c _ n E2); [by rewrite Ex|by rewrite Hb|rewrite span_app; [done..|]].
    by eapply stops_hd.
  - apply (plain_again b b' c cs st' r t t2); try done.
    intros ->. injection Et as ->. by apply (no_new_chain b b' c t t2).
Qed.
(** A copied piece is copied again. *)
Lemma iteration_again st b b' c cs st' r t t2 : iteration st b c cs = (st', Copy r) -> c :: cs = r ++ t -> r <> [] -> alike b b' (c :: cs) ->
  hd_error t2 = hd_error t -> (forall q, ~ In 100 q -> starts q t2 = true -> starts q t = true) ->
  iteration st b' c (tl r ++ t2) = (st', Copy r).
Proof.
  intros E Et Hr Ha Hhd Hq. destruct st; cbn [iteration] in *; unfold in_string in *.
  - by apply (in_code_again b b' c cs st' r t t2).
  - by eapply escape_again.
  - by eapply escape_again.
  - by eapply escape_again.
  - by injection E as <- <-.
  - destruct (_ && _) eqn:E1.
    + injection E as <- <-. apply andb_prop in E1 as [-> _]. done.
    + injection E as <- <-. injection Et as ->. cbn [tl app]. by rewrite (starts_one_hd _ t2 t Hhd), E1.
  - eapply escape_again; try done. destruct (c =? 91); [done|]. destruct (c =? 47) eqn:E1; [|done]. intros [= <- <-]. cbn [tl].
    destruct (name_span isalpha cs) as (rr & Er & F & S). injection Et as Et. assert (t = rr) as -> by (rewrite Er in Et at 1; by apply app_inv_head in Et).
    rewrite span_app; [done..|by eapply stops_hd].
  - by eapply escape_again.
Qed.

(** The text of a rewritten chain is copied. *)
Lemma code_char b c cs o : ~ In c [47; 39; 34; 96] -> starts kPrefix (c :: cs) = false -> runs Code (c :: b) cs o -> runs Code b (c :: cs) ((Code, Copy [c]) :: o).
Proof.
  intros Hc Hs Hr. eapply (runs_cons Code b c cs Code (Copy [c]) cs); [|done|done]. cbn [iteration]. unfold in_code.
  assert (forall k, In k [47; 39; 34; 96] -> (c =? k) = false) as Hk by (intros k Hk; apply Z.eqb_neq; intros ->; done).
  rewrite !Hk by (cbn; tauto). cbn [andb]. by rewrite Hs.
Qed.
Definition copies (st : State) (l : list Z) : list (State * piece) := List.map (fun c => (st, Copy [c])) l.
Lemma output_copies st l o : output (copies st l ++ o) = l ++ output o.
Proof. induction l as [|c l IH]; [done|]. cbn [copies List.map app]. rewrite output_cons. cbn [text]. unfold copies in IH. by rewrite IH. Qed.
Lemma code_text l : forall b cs o, Forall (fun c => ~ In c [47; 39; 34; 96; 100]) l -> runs Code (rev l ++ b) cs o ->
  runs Code b (l ++ cs) (copies Code l ++ o).
Proof.
  induction l as [|c l IH]; intros b cs o Hl Hr; [done|]. inversion Hl as [|? ? Hc Hl']; subst. cbn [app copies List.map]. apply code_char.
  - intros H. apply Hc. cbn in H |- *. tauto.
  - destruct kPrefix_rest as (q & -> & _). cbn [starts]. destruct (Z.eqb_spec 100 c) as [<-|]; [|done]. destruct Hc. cbn. tauto.
  - apply IH; [done|]. cbn [rev] in Hr. by rewrite <- app_assoc in Hr.
Qed.
Lemma string_text l : forall b cs o, Forall (fun c => IsUnityAssemblyNameChar c = true) l -> runs DoubleQuote (rev l ++ b) cs o ->
  runs DoubleQuote b (l ++ cs) (copies DoubleQuote l ++ o).
Proof.
  induction l as [|c l IH]; intros b cs o Hl Hr; [done|]. inversion Hl as [|? ? Hc Hl']; subst. cbn [app copies List.map].
  eapply (runs_cons DoubleQuote b c (l ++ cs) DoubleQuote (Copy [c])); [|reflexivity|].
  - cbn [iteration]. unfold in_string, escape. destruct (Z.eqb_spec c 92) as [->|]; [done|]. destruct (Z.eqb_spec c 34) as [->|]; [done|]. by destruct (l ++ cs).
  - apply IH; [done|]. cbn [rev] in Hr. by rewrite <- app_assoc in Hr.
Qed.
Lemma chain_again b n t o : Forall (fun c => IsUnityAssemblyNameChar c = true) n ->
  (forall b2, b2 = rev (text (Chain n)) ++ b -> runs Code b2 t o) ->
  exists l, runs Code b (text (Chain n) ++ t) (l ++ o) /\ output (l ++ o) = text (Chain n) ++ output o.
Proof.
  intros Hn Hr.
  exists ((Code, Copy [100]) :: copies Code (str "ynamic.unity.assembly[") ++ (Code, Copy [34]) :: copies DoubleQuote n ++ (DoubleQuote, Copy [34]) :: [(Code, Copy [93])]).
  set (u := str "ynamic.unity.assembly[").
  split.
  - change (text (Chain n)) with (100 :: u ++ [34] ++ n ++ [34] ++ [93]). cbn [app]. apply code_char; [apply (bool_decide_unpack _); by vm_compute|done|].
    rewrite <- !app_assoc. apply code_text; [apply (bool_decide_unpack _); by vm_compute|]. cbn [app].
    eapply (runs_cons Code _ 34 _ DoubleQuote (Copy [34])); [done|reflexivity|]. rewrite <- !app_assoc. apply string_text; [done|]. cbn [app].
    eapply (runs_cons DoubleQuote _ 34 _ Code (Copy [34])); [done|reflexivity|].
    apply code_char; [apply (bool_decide_unpack _); by vm_compute|by destruct kPrefix_rest as (q & -> & _)|]. apply Hr.
    change (text (Chain n)) with (100 :: u ++ [34] ++ n ++ [34] ++ [93]). cbn [app].
    repeat (cbn [rev app raw]; rewrite ?List.rev_app_distr, <- ?app_assoc). done.
  - rewrite <- app_comm_cons, output_cons, <- app_assoc, output_copies. cbn [app]. rewrite output_cons, <- app_assoc, output_copies. cbn [app].
    rewrite !output_cons. cbn [text]. change (text (Chain n)) with (100 :: u ++ [34] ++ n ++ [34] ++ [93]). cbn [app].
    by rewrite <- !app_assoc; cbn [app]; rewrite <- app_assoc.
Qed.

(** Names that do not end in a minus. *)
Definition plain_name (sp : State * piece) : Prop := match snd sp with Chain n => List.last n 0 <> 45 | Copy _ => True end.
Lemma name_ends b n : Forall (fun c => IsUnityAssemblyNameChar c = true) n -> n <> [] -> List.last n 0 <> 45 -> IsUnityRegexContext (rev n ++ b) = false.
Proof.
  intros F Hn Hl. destruct (exists_last Hn) as (n' & c & ->). rewrite List.last_last in Hl. apply Forall_app in F as [_ F]. inversion F as [|? ? Hc]; subst.
  rewrite List.rev_app_distr. cbn [rev app IsUnityRegexContext].
  assert (is_space c = false) as ->.
  { unfold is_space, IsUnityAssemblyNameChar, isalnum, isalpha in *. lia. }
  apply not_true_iff_false. intros H2%existsb_eq. cbn [In regex_after] in H2.
  repeat destruct H2 as [<-|H2]; try discriminate Hc; done.
Qed.

Lemma again st b rest l : runs st b rest l -> Forall plain_name l -> forall b', alike b b' rest ->
  exists l', runs st b' (output l) l' /\ output l' = output l.
Proof.
  induction 1 as [st b|st b c cs st' p t l E Et Hr IH]; intros Hp b' Ha; [by exists []; split; [constructor|]|].
  inversion Hp as [|? ? Hpn Hp']; subst. pose proof (iteration_comes st b c cs) as (t' & _ & Hne). rewrite E in Hne. cbn [snd] in Hne.
  rewrite output_cons. destruct p as [r|n].
  - cbn [text raw] in *. destruct (IH Hp' (rev r ++ b')) as (l' & Hl' & Ho); [by apply (alike_copied b b' r (c :: cs))|].
    exists ((st, Copy r) :: l'). split; [|by rewrite output_cons, Ho].
    destruct r as [|x r]; [done|]. injection Et as <- Et. cbn [app]. eapply runs_cons; [|reflexivity|exact Hl'].
    apply (iteration_again st b b' c cs st' (c :: r) t (output l)); try done; [by rewrite Et|by eapply output_hd|by eapply output_starts].
  - assert (Hc : snd (iteration st b c cs) = Chain n) by (by rewrite E). apply chain_iff in Hc as (-> & Hbd & Hin & F & r0 & Er & S).
    cbn [raw] in *. rewrite Er, app_assoc in Et. apply app_inv_head in Et as <-.
    assert (st' = Code) as -> by (cbn [iteration] in E; rewrite (in_code_chain b (n ++ r0) c cs n Er Hbd) in E; [by destruct (existsb _ _); injection E|by rewrite span_app]).
    assert (Hn0 : n <> []) by (by intros ->).
    destruct (IH Hp' (rev (text (Chain n)) ++ b')) as (l' & Hl' & Ho).
    { split; [|by right]. change (text (Chain n)) with (str "dynamic.unity.assembly[" ++ [34] ++ n ++ [34] ++ [93]).
      rewrite !List.rev_app_distr, <- !app_assoc, (name_ends (rev kPrefix ++ b) n F Hn0 Hpn). done. }
    destruct (chain_again b' n (output l) l' F) as (l2 & Hr2 & Ho2); [by intros b2 ->|].
    exists (l2 ++ l'). split; [done|]. by rewrite Ho2, Ho.
Qed.

(** ** The theorems *)


(** A second pass changes nothing, provided no name that was put in brackets
    ends in a hyphen (the operator the name has swallowed). *)
Theorem preprocess_idempotent input l out : pieces (length input) Code [] input = Some l -> Forall plain_name l ->
  PreprocessUnityLine input = Some out -> PreprocessUnityLine out = Some out.
Proof.
  intros Hl Hp. destruct (pieces_runs (length input) Code [] input (le_n _)) as (l2 & Hl2 & Hr). rewrite Hl in Hl2. injection Hl2 as <-.
  unfold PreprocessUnityLine. rewrite Hl. cbn [fmap option_fmap option_map]. intros [= <-].
  destruct (again Code [] input l Hr Hp []) as (l' & Hr' & Ho); [by split; [|left]|].
  rewrite (runs_pieces _ _ _ _ Hr') by done. cbn [fmap option_fmap option_map]. by rewrite Ho.
Qed.
Lemma preprocess_idempotent_witness : exists out, preprocess "a = dynamic.unity.assembly.My-Dll / 2; b = /'[/]/; // dynamic.unity.assembly.A-B" = Some out /\
  out <> str "a = dynamic.unity.assembly.My-Dll / 2; b = /'[/]/; // dynamic.unity.assembly.A-B" /\ PreprocessUnityLine out = Some out.
Proof.
  set (input := str "a = dynamic.unity.assembly.My-Dll / 2; b = /'[/]/; // dynamic.unity.assembly.A-B").
  destruct (pieces (length input) Code [] input) as [l|] eqn:E; [|by vm_compute in E].
  exists (output l). assert (Ho : PreprocessUnityLine input = Some (output l)) by (unfold PreprocessUnityLine; by rewrite E).
  split; [exact Ho|]. split.
  - intros H. assert (Hne : PreprocessUnityLine input <> Some input) by (by vm_compute). apply Hne. by rewrite Ho, H.
  - apply (preprocess_idempotent input l); [exact E| |exact Ho]. vm_compute in E. injection E as <-.
    repeat (constructor; [by vm_compute|]). constructor.
Defined.

End UnityProofs.
