(* ===== verification/AgentNet.v ===== *)
(** * The agent's server

    src/src/agent/agent_net.cpp: a frame is a big-endian length and a
    MessagePack value.  The server polls its clients, collects what they
    send, takes the complete frames out, and answers them one by one.  The
    other end is src/cli/injector/repl_client.cpp: SendMsgpackFrame,
    RecvExact.

    What poll, recv and send answer is an input: a list of results, of which
    a call takes the next.  A list that is used up is a socket that has
    nothing more (recv would block, RecvExact's poll times out) and takes
    nothing more (send fails).  Logs, the listening socket and the handling
    of requests are left out (the handler is a parameter); one thread.

    Module AgentNetProofs: the server's view of a client's stream does not
    depend on how the stream is cut into pieces, and what it takes out of it
    are the requests; the answers get back. *)
From stdpp Require Import strings.
From S2P Require Import Prelude.
From S2P Require Import MsgPack.

Import Msgpack.
Local Open Scope cint_scope.

Module AgentNet.

(** ** Frames *)

Definition kMaxFrame : Z := 16 << 20.
Definition htonl_bytes (n : Z) : list Z := be_bytes 4 (U32 n).
Definition ntohl (l : list Z) : Z := be_combine 0 l.
Definition zlen (l : list Z) : Z := Z.of_nat (length l).

Inductive send_result := Sent (w : nat) | SendIntr | SendFail.
(** What was sent, whether all of it was, and the results left. *)
Fixpoint SendAll (rs : list send_result) (p : list Z) : list Z * bool * list send_result :=
  match p, rs with
  | [], _ => ([], true, rs)
  | _, [] => ([], false, [])
  | _, SendIntr :: rs => SendAll rs p
  | _, SendFail :: rs => ([], false, rs)
  | _, Sent w :: rs =>
      if (w =? 0)%nat then ([], false, rs)
      else let '(out, ok, rs) := SendAll rs (drop w p) in (take w p ++ out, ok, rs)
  end.
Definition SendFrame (rs : list send_result) (payload : list Z) : list Z * bool * list send_result :=
  let '(out, ok, rs) := SendAll rs (htonl_bytes (zlen payload)) in
  if negb ok then (out, false, rs)
  else let '(out2, ok, rs) := SendAll rs payload in (out ++ out2, ok, rs).
(** The client's side. *)
Definition SendMsgpackFrame (rs : list send_result) (val : Value) : list Z * bool * list send_result :=
  SendFrame rs (writeValue [] val).

Inductive recv_result := Data (b : list Z) | RecvIntr | RecvAgain | RecvFail | RecvEof.
Fixpoint RecvExact (rs : list recv_result) (len : Z) : option (list Z) * list recv_result :=
  if len <=? 0 then (Some [], rs)
  else
    match rs with
    | [] => (None, [])
    | Data b :: rs =>
        if bool_decide (b = []) then (None, rs)
        else if len <? zlen b then (Some (take (Z.to_nat len) b), Data (drop (Z.to_nat len) b) :: rs)
        else let '(l, rs) := RecvExact rs (len - zlen b) in (option_map (app b) l, rs)
    | RecvIntr :: rs => RecvExact rs len
    | _ :: rs => (None, rs)
    end.
(** The first frame of an answer (EvalOnAgentSync); [Some None] is a failure. *)
Definition recv_response (rs : list recv_result) : option (option Value) :=
  let '(len, rs) := RecvExact rs 4 in
  match len with
  | None => Some None
  | Some len =>
      let frameLen := ntohl len in
      if (frameLen =? 0) || (8 * 1024 * 1024 <? frameLen) then Some None
      else
        let '(buf, _) := RecvExact rs frameLen in
        match buf with
        | None => Some None
        | Some buf => match parse buf with Ret v _ => Some (Some v) | RFalse _ => Some None | Oob | NoFuel => None end
        end
  end.

(** ** A client of the server *)

Record ClientSession := MkClientSession { fd : Z; rbuf : list Z }.
Definition set_fd (n : Z) (c : ClientSession) : ClientSession := MkClientSession n (rbuf c).

(** Until recv would block; true when the client is gone.  More [Data] than
    the 8192 bytes of the buffer stand for several calls. *)
Fixpoint recv_loop (rs : list recv_result) (buf : list Z) : list Z * bool :=
  match rs with
  | [] => (buf, false)
  | Data b :: rs => if bool_decide (b = []) then (buf, true) else recv_loop rs (buf ++ b)
  | RecvIntr :: rs => recv_loop rs buf
  | RecvAgain :: _ => (buf, false)
  | RecvFail :: _ | RecvEof :: _ => (buf, true)
  end.
(** The values of the complete frames, what is left, and whether the client
    announced too long a frame.  Each turn takes four bytes at least. *)
Fixpoint extract (fuel : nat) (buf : list Z) : option (list Value * list Z * bool) :=
  match fuel with
  | O => None
  | S fuel =>
      if zlen buf <? 4 then Some ([], buf, false)
      else
        let frameLen := ntohl (take 4 buf) in
        if kMaxFrame <? frameLen then Some ([], [], true)
        else if zlen buf <? U32 (4 + frameLen) then Some ([], buf, false)
        else
          let frame := take (Z.to_nat frameLen) (drop 4 buf) in
          '(l, rest, closed) ← extract fuel (drop (Z.to_nat (4 + frameLen)) buf);
          match parse frame with
          | Ret req _ => Some (req :: l, rest, closed)
          | RFalse _ => Some (l, rest, closed)
          | Oob | NoFuel => None
          end
  end.
Definition frames (buf : list Z) : option (list Value * list Z * bool) := extract (S (length buf)) buf.

Record Revents := MkRevents { pollerr : bool; pollin : bool; pollhup : bool }.
(** The requests of a client, and its session; its socket is closed when the
    session's fd is -1. *)
Definition serve (ev : Revents) (rs : list recv_result) (c : ClientSession) : option (list Value * ClientSession) :=
  if pollerr ev then Some ([], set_fd (-1) c)
  else if pollin ev then
    let '(buf, gone) := recv_loop rs (rbuf c) in
    '(l, rest, too_long) ← frames buf;
    Some (l, MkClientSession (if gone || too_long then -1 else fd c) rest)
  else if pollhup ev then Some ([], set_fd (-1) c)
  else Some ([], c).

(** ** A turn of the server *)

(** The session with this fd, the first one. *)
Fixpoint serve_fd (cfd : Z) (ev : Revents) (rs : list recv_result) (cs : list ClientSession)
    : option (list (Z * Value) * list Z * list ClientSession) :=
  match cs with
  | [] => Some ([], [], [])
  | c :: cs =>
      if fd c =? cfd then
        '(l, c) ← serve ev rs c;
        Some (List.map (pair cfd) l, if fd c =? -1 then [cfd] else [], c :: cs)
      else '(l, dead, cs) ← serve_fd cfd ev rs cs; Some (l, dead, c :: cs)
  end.
(** Each polled fd in turn. *)
Fixpoint serve_all (polled : list (Z * Revents * list recv_result)) (cs : list ClientSession)
    : option (list (Z * Value) * list Z * list ClientSession) :=
  match polled with
  | [] => Some ([], [], cs)
  | (cfd, ev, rs) :: polled =>
      '(l, dead, cs) ← serve_fd cfd ev rs cs;
      '(l2, dead2, cs) ← serve_all polled cs;
      Some (l ++ l2, dead ++ dead2, cs)
  end.
Definition live (cs : list ClientSession) : list ClientSession := List.filter (fun c => 0 <=? fd c) cs.
(** New clients are polled from the next turn on; [answer] is what poll and
    recv say of a socket. *)
Definition turn (accepted : list Z) (answer : Z -> Revents * list recv_result) (cs : list ClientSession)
    : option (list (Z * Value) * list Z * list ClientSession) :=
  let polled := List.map (fun c => (fd c, fst (answer (fd c)), snd (answer (fd c)))) (live cs) in
  '(pending, dead, cs) ← serve_all polled (cs ++ List.map (fun n => MkClientSession n []) accepted);
  Some (pending, dead, live cs).

(** ** Answers *)

(** A client that cannot be sent to is dropped. *)
Fixpoint drop_fd (cfd : Z) (cs : list ClientSession) : list ClientSession :=
  match cs with [] => [] | c :: cs => if fd c =? cfd then set_fd (-1) c :: cs else c :: drop_fd cfd cs end.
Definition has_fd (cfd : Z) (cs : list ClientSession) : bool := existsb (fun c => fd c =? cfd) cs.
Section Dispatch.
Context {W : Type} (g_handler : Value -> W -> Value * W).

(** What goes out on which socket. *)
Fixpoint dispatch (pending : list (Z * Value)) (sends : Z -> list send_result) (w : W) (cs : list ClientSession)
    : list (Z * list Z) * W * list ClientSession :=
  match pending with
  | [] => ([], w, cs)
  | (cfd, req) :: pending =>
      let '(resp, w) := g_handler req w in
      if has_fd cfd cs then
        let '(out, ok, rest) := SendFrame (sends cfd) (writeValue [] resp) in
        let cs := if ok : bool then cs else live (drop_fd cfd cs) in
        let '(l, w, cs) := dispatch pending (fun n => if n =? cfd then rest else sends n) w cs in
        ((cfd, out) :: l, w, cs)
      else dispatch pending sends w cs
  end.

(** What the kernel does in a turn of ServerWorker's loop. *)
Record Turn := MkTurn { accepted : list Z; answer : Z -> Revents * list recv_result; sends : Z -> list send_result }.
Fixpoint ServerWorker (ts : list Turn) (w : W) (cs : list ClientSession)
    : option (list (Z * Value) * list (Z * list Z) * W * list ClientSession) :=
  match ts with
  | [] => Some ([], [], w, cs)
  | t :: ts =>
      '(pending, _, cs) ← turn (accepted t) (answer t) cs;
      let '(outs, w, cs) := dispatch pending (sends t) w cs in
      '(pending2, outs2, w, cs) ← ServerWorker ts w cs;
      Some (pending ++ pending2, outs ++ outs2, w, cs)
  end.
End Dispatch.

(** An event: for the client whose request is being handled, or else for
    every client; those it does not reach are dropped. *)
Definition event_frame (channel : list Z) (data : Value) : Value :=
  set (set (set makeMap (Prelude.str "t") (ValueInt 3)) (Prelude.str "ch") (ValueStr channel)) (Prelude.str "data") data.
Fixpoint send_each (fds : list Z) (sends : Z -> list send_result) (payload : list Z) : list (Z * list Z) * list Z :=
  match fds with
  | [] => ([], [])
  | n :: fds =>
      let '(out, ok, _) := SendFrame (sends n) payload in
      let '(l, failed) := send_each fds sends payload in
      ((n, out) :: l, if ok : bool then failed else n :: failed)
  end.
Definition BroadcastEvent (currFd : Z) (channel : list Z) (data : Value) (sends : Z -> list send_result) (cs : list ClientSession)
    : list (Z * list Z) * list ClientSession :=
  let payload := writeValue [] (event_frame channel data) in
  if 0 <=? currFd then
    if has_fd currFd cs then let '(out, _, _) := SendFrame (sends currFd) payload in ([(currFd, out)], cs) else ([], cs)
  else
    let '(l, failed) := send_each (List.map fd (live cs)) sends payload in
    (l, if bool_decide (failed = []) then cs else live (fold_left (fun cs n => drop_fd n cs) failed cs)).

Definition ping : Value := set makeMap (Prelude.str "cmd") (ValueStr (Prelude.str "ping")).
Example two_chunks : let bytes := htonl_bytes (zlen (enc ping)) ++ enc ping in
  match serve (MkRevents false true false) [Data (take 3 bytes); RecvIntr; Data (drop 3 bytes); RecvAgain] (MkClientSession 5 []) with
  | Some (l, c) => Some (length l, c)
  | None => None
  end = Some (1%nat, MkClientSession 5 []).
Proof. by vm_compute. Qed.
(** A full socket is taken for a lost client (the sockets do not block). *)
Example full_socket : SendFrame [Sent 4; Sent 2; SendFail] [1; 2; 3] = ([0; 0; 0; 3; 1; 2], false, []).
Proof. by vm_compute. Qed.

End AgentNet.

Import Msgpack AgentNet.
Local Open Scope cint_scope.

Module AgentNetProofs.

(** ** Frames of a buffer *)

Definition frame (v : Value) : list Z := htonl_bytes (zlen (enc v)) ++ enc v.
Definition fits (v : Value) : Prop := wf v /\ zlen (enc v) <= kMaxFrame.

Lemma zlen_app a b : zlen (a ++ b) = zlen a + zlen b.
Proof. unfold zlen. rewrite length_app. lia. Qed.
Lemma ntohl_htonl n : in_u 32 n -> ntohl (htonl_bytes n) = n.
Proof. intros H. unfold ntohl, htonl_bytes. rewrite be_combine_0_bytes. change (8 * Z.of_nat 4) with 32. by rewrite wrap_wrap, wrap_small. Qed.
Lemma ntohl_nonneg l : bytes_ok l -> 0 <= ntohl l.
Proof.
  unfold ntohl. assert (H : forall l acc, bytes_ok l -> 0 <= acc -> 0 <= be_combine acc l).
  { clear. induction l as [|b l IH]; intros acc Hl Ha; [done|]. inversion Hl as [|? ? Hb Hl']; subst. apply IH; [done|].
    apply Z.lor_nonneg. split; [by apply Z.shiftl_nonneg|]. destruct Hb. lia. }
  intros Hl. by apply H.
Qed.
Lemma frame_size n : 0 <= n <= kMaxFrame -> U32 (4 + n) = 4 + n.
Proof. intros H. apply wrap_small. unfold in_u, kMaxFrame in *. change (16 << 20) with 16777216 in *. lia. Qed.

(** How far the buffer goes. *)
Inductive view (buf : list Z) : Prop :=
| view_short : zlen buf < 4 -> view buf
| view_long : 4 <= zlen buf -> kMaxFrame < ntohl (take 4 buf) -> view buf
| view_part : 4 <= zlen buf -> 0 <= ntohl (take 4 buf) <= kMaxFrame -> zlen buf < 4 + ntohl (take 4 buf) -> view buf
| view_frame : 4 <= zlen buf -> 0 <= ntohl (take 4 buf) <= kMaxFrame -> 4 + ntohl (take 4 buf) <= zlen buf -> view buf.
Lemma bytes_take n l : bytes_ok l -> bytes_ok (take n l).
Proof. intros H. by apply Forall_take. Qed.
Lemma view_of buf : bytes_ok buf -> view buf.
Proof.
  intros H. pose proof (ntohl_nonneg _ (bytes_take 4 _ H)).
  destruct (Z_lt_le_dec (zlen buf) 4); [by constructor 1|]. destruct (Z_lt_le_dec kMaxFrame (ntohl (take 4 buf))); [by constructor 2|].
  destruct (Z_lt_le_dec (zlen buf) (4 + ntohl (take 4 buf))); [by constructor 3|by constructor 4].
Qed.

(** The value of a frame, if it has one. *)
Definition value_of (f : list Z) : list Value := match parse f with Ret v _ => [v] | _ => [] end.
Lemma extract_frame fuel buf : 4 <= zlen buf -> 0 <= ntohl (take 4 buf) <= kMaxFrame -> 4 + ntohl (take 4 buf) <= zlen buf ->
  extract (S fuel) buf =
    '(l, rest, closed) ← extract fuel (drop (Z.to_nat (4 + ntohl (take 4 buf))) buf);
    Some (value_of (take (Z.to_nat (ntohl (take 4 buf))) (drop 4 buf)) ++ l, rest, closed).
Proof.
  intros H4 Hn Hl. cbn [extract]. replace (zlen buf <? 4) with false by lia. cbv zeta. replace (kMaxFrame <? ntohl (take 4 buf)) with false by lia.
  rewrite frame_size by done. replace (zlen buf <? 4 + ntohl (take 4 buf)) with false by lia.
  destruct (extract fuel _) as [[[l rest] closed]|]; [|done]. cbn [mbind option_bind]. unfold value_of.
  pose proof (parse_total (take (Z.to_nat (ntohl (take 4 buf))) (drop 4 buf))) as Ht. by destruct (parse _).
Qed.
Lemma extract_stop fuel buf : zlen buf < 4 \/ (4 <= zlen buf /\ 0 <= ntohl (take 4 buf) <= kMaxFrame /\ zlen buf < 4 + ntohl (take 4 buf)) ->
  extract (S fuel) buf = Some ([], buf, false).
Proof.
  cbn [extract]. intros [H|(H4 & Hn & Hl)]; [by replace (zlen buf <? 4) with true by lia|].
  replace (zlen buf <? 4) with false by lia. cbv zeta. replace (kMaxFrame <? ntohl (take 4 buf)) with false by lia.
  rewrite frame_size by done. by replace (zlen buf <? 4 + ntohl (take 4 buf)) with true by lia.
Qed.
Lemma extract_too_long fuel buf : 4 <= zlen buf -> kMaxFrame < ntohl (take 4 buf) -> extract (S fuel) buf = Some ([], [], true).
Proof. intros H4 Hn. cbn [extract]. replace (zlen buf <? 4) with false by lia. cbv zeta. by replace (kMaxFrame <? ntohl (take 4 buf)) with true by lia. Qed.

Lemma drop_shorter n buf : 4 <= zlen buf -> 0 <= n -> 4 + n <= zlen buf -> (length (drop (Z.to_nat (4 + n)) buf) < length buf)%nat.
Proof. unfold zlen. intros H4 Hn Hl. rewrite length_drop. lia. Qed.
Lemma extract_enough : forall k buf f, bytes_ok buf -> (length buf <= k)%nat -> (length buf < f)%nat -> extract f buf = frames buf /\ is_Some (frames buf).
Proof.
  unfold frames. induction k as [k IH] using lt_wf_ind. intros buf f Hb Hk Hf. destruct f as [|f]; [lia|].
  destruct (view_of buf Hb) as [H|H4 H|H4 Hn H|H4 Hn H].
  - rewrite !extract_stop by tauto. split; [done|by eexists].
  - rewrite !extract_too_long by done. split; [done|by eexists].
  - rewrite !extract_stop by tauto. split; [done|by eexists].
  - rewrite !extract_frame by done. pose proof (drop_shorter _ _ H4 (proj1 Hn) H) as Hd. set (rest := drop _ buf) in *.
    assert (Hrb : bytes_ok rest) by (by apply Forall_drop).
    destruct (IH (length rest) ltac:(lia) rest f Hrb ltac:(lia) ltac:(lia)) as [E1 [x E2]].
    destruct (IH (length rest) ltac:(lia) rest (length buf) Hrb ltac:(lia) ltac:(lia)) as [E3 _].
    rewrite E1, E3, E2. split; [done|]. destruct x as [[l r] c]. by eexists.
Qed.
Lemma frames_stop buf : zlen buf < 4 \/ (4 <= zlen buf /\ 0 <= ntohl (take 4 buf) <= kMaxFrame /\ zlen buf < 4 + ntohl (take 4 buf)) ->
  frames buf = Some ([], buf, false).
Proof. apply extract_stop. Qed.
Lemma frames_too_long buf : 4 <= zlen buf -> kMaxFrame < ntohl (take 4 buf) -> frames buf = Some ([], [], true).
Proof. apply extract_too_long. Qed.
Lemma frames_frame buf : bytes_ok buf -> 4 <= zlen buf -> 0 <= ntohl (take 4 buf) <= kMaxFrame -> 4 + ntohl (take 4 buf) <= zlen buf ->
  frames buf = '(l, rest, closed) ← frames (drop (Z.to_nat (4 + ntohl (take 4 buf))) buf);
    Some (value_of (take (Z.to_nat (ntohl (take 4 buf))) (drop 4 buf)) ++ l, rest, closed).
Proof.
  intros Hb H4 Hn Hl. unfold frames at 1. rewrite extract_frame by done.
  pose proof (drop_shorter _ _ H4 (proj1 Hn) Hl) as Hd. set (rest := drop _ buf) in *.
  by destruct (extract_enough (length rest) rest (length buf) (Forall_drop _ _ _ Hb) ltac:(lia) Hd) as [-> _].
Qed.

(** ** More of the stream *)

Lemma frames_app : forall k x y, (length x <= k)%nat -> bytes_ok (x ++ y) -> forall l r c, frames x = Some (l, r, c) ->
  frames (x ++ y) = if c then Some (l, [], true) else '(l2, r2, c2) ← frames (r ++ y); Some (l ++ l2, r2, c2).
Proof.
  induction k as [k IH] using lt_wf_ind. intros x y Hk Hb l r c. pose proof Hb as Hb2. apply Forall_app in Hb2 as [Hbx Hby].
  assert (Ht : 4 <= zlen x -> take 4 (x ++ y) = take 4 x) by (intros; apply take_app_le; unfold zlen in *; lia).
  destruct (view_of x Hbx) as [H|H4 H|H4 Hn H|H4 Hn H].
  - rewrite frames_stop by tauto. intros [= <- <- <-]. destruct (frames (x ++ y)) as [[[]]|]; done.
  - rewrite frames_too_long by done. intros [= <- <- <-]. apply frames_too_long; [rewrite zlen_app; unfold zlen in *; lia|by rewrite Ht].
  - rewrite frames_stop by tauto. intros [= <- <- <-]. destruct (frames (x ++ y)) as [[[]]|]; done.
  - rewrite (frames_frame x), (frames_frame (x ++ y)) by (rewrite ?Ht by done; rewrite ?zlen_app; unfold zlen in *; done || lia).
    rewrite Ht by done. rewrite !drop_app_le by (unfold zlen in *; lia). rewrite take_app_le by (unfold zlen in *; rewrite ?length_drop; lia).
    pose proof (drop_shorter _ _ H4 (proj1 Hn) H) as Hd. set (rest := drop _ x) in *.
    assert (Hrb : bytes_ok (rest ++ y)) by (apply Forall_app; split; [by apply Forall_drop|done]).
    destruct (frames rest) as [[[l1 r1] c1]|] eqn:E; [|done]. cbn [mbind option_bind]. intros [= <- <- <-].
    rewrite (IH (length rest) ltac:(lia) rest y ltac:(lia) Hrb _ _ _ E). destruct c1; [done|].
    destruct (frames (r1 ++ y)) as [[[l2 r2] c2]|]; [|done]. cbn [mbind option_bind]. by rewrite app_assoc.
Qed.

(** Messages, and the beginning of another one. *)
Definition unfinished (p : list Z) : Prop := frames p = Some ([], p, false).
Lemma frames_messages vs p : Forall fits vs -> bytes_ok (concat (List.map frame vs) ++ p) -> unfinished p ->
  frames (concat (List.map frame vs) ++ p) = Some (List.map canon vs, p, false).
Proof.
  intros Hv Hb Hp. induction Hv as [|v vs [Hw Hs] Hv IH]; [done|]. cbn [List.map concat] in *. rewrite <- app_assoc in *.
  set (y := concat (List.map frame vs) ++ p) in *.
  assert (Hh : length (htonl_bytes (zlen (enc v))) = 4%nat) by apply length_be_bytes.
  assert (Ht : take 4 (frame v ++ y) = htonl_bytes (zlen (enc v))).
  { unfold frame. rewrite <- app_assoc. by apply take_app_length'. }
  assert (Hd : drop 4 (frame v ++ y) = enc v ++ y).
  { unfold frame. rewrite <- app_assoc. by apply drop_app_length'. }
  assert (Hu : in_u 32 (zlen (enc v))) by (unfold in_u, kMaxFrame, zlen in *; change (16 << 20) with 16777216 in *; lia).
  assert (Hlen : zlen (frame v ++ y) = 4 + zlen (enc v) + zlen y) by (unfold frame; rewrite !zlen_app; unfold zlen at 1; rewrite Hh; lia).
  assert (Hn : ntohl (take 4 (frame v ++ y)) = zlen (enc v)) by (by rewrite Ht, ntohl_htonl).
  rewrite frames_frame; rewrite ?Hn; [|done|unfold zlen in *; lia|unfold zlen in *; lia|unfold zlen in *; lia].
  rewrite Hd. unfold zlen. rewrite !Z2Nat.inj_add by lia. rewrite Nat2Z.id. change (Z.to_nat 4) with 4%nat.
  rewrite <- drop_drop, Hd, drop_app_length, take_app_length. rewrite IH by (by apply Forall_app in Hb as [_ Hb]).
  cbn [mbind option_bind]. unfold value_of. rewrite <- (app_nil_r (enc v)), parse_enc by done. done.
Qed.

(** ** What a client has sent *)

Lemma recv_loop_app rs : forall buf, recv_loop rs buf = (buf ++ fst (recv_loop rs []), snd (recv_loop rs [])).
Proof.
  induction rs as [|[b| | | |] rs IH]; intros buf; cbn [recv_loop fst snd]; rewrite ?app_nil_r; try done.
  case_bool_decide; [by rewrite app_nil_r|]. rewrite (IH (buf ++ b)), (IH ([] ++ b)). cbn [fst snd app]. by rewrite <- app_assoc.
Qed.
Definition readable : Revents := MkRevents false true false.
Lemma serve_readable rs c : serve readable rs c =
  '(l, rest, too_long) ← frames (rbuf c ++ fst (recv_loop rs []));
  Some (l, MkClientSession (if snd (recv_loop rs []) || too_long : bool then -1 else fd c) rest).
Proof. unfold serve. cbn [pollerr pollin readable]. by rewrite recv_loop_app. Qed.

(** ** One client among others *)

Definition with_fd (n : Z) (cs : list ClientSession) : list ClientSession := List.filter (fun c => fd c =? n) cs.
Definition requests_of (n : Z) (l : list (Z * Value)) : list Value := List.map snd (List.filter (fun p => fst p =? n) l).
Lemma requests_of_app n a b : requests_of n (a ++ b) = requests_of n a ++ requests_of n b.
Proof. unfold requests_of. by rewrite List.filter_app, List.map_app. Qed.
Lemma requests_of_own n l : requests_of n (List.map (pair n) l) = l.
Proof. unfold requests_of. induction l as [|v l IH]; [done|]. cbn [List.map List.filter fst]. rewrite Z.eqb_refl. cbn [List.map snd]. by rewrite IH. Qed.
Lemma requests_of_other n m l : m <> n -> requests_of n (List.map (pair m) l) = [].
Proof. intros H. unfold requests_of. induction l as [|v l IH]; [done|]. cbn [List.map List.filter fst]. by replace (m =? n) with false by lia. Qed.

Lemma serve_fd_kept ev rs c l c' : serve ev rs c = Some (l, c') -> fd c' = fd c \/ fd c' = -1.
Proof.
  unfold serve. rewrite recv_loop_app.
  destruct (pollerr ev), (pollin ev), (pollhup ev); try (intros [= <- <-]; cbn [fd set_fd]; tauto);
    (destruct (frames _) as [[[l1 rest] tl]|]; [|done]; cbn [mbind option_bind]; intros [= <- <-]; cbn [fd]; case_match; tauto).
Qed.
Lemma serve_fd_other n m ev rs : m <> n -> 0 <= n -> forall cs l dead cs', serve_fd m ev rs cs = Some (l, dead, cs') ->
  requests_of n l = [] /\ with_fd n cs' = with_fd n cs.
Proof.
  intros Hm Hn. induction cs as [|c cs IH]; intros l dead cs' H; [by injection H as <- <- <-|]. cbn [serve_fd] in H.
  destruct (Z.eqb_spec (fd c) m) as [E|E].
  - destruct (serve ev rs c) as [[l1 c1]|] eqn:Es; [|done]. cbn [mbind option_bind] in H. injection H as <- <- <-.
    split; [by apply requests_of_other|]. unfold with_fd. cbn [List.filter]. apply serve_fd_kept in Es.
    replace (fd c1 =? n) with false by lia. by replace (fd c =? n) with false by lia.
  - destruct (serve_fd m ev rs cs) as [[[l1 d1] cs1]|] eqn:Es; [|done]. cbn [mbind option_bind] in H. injection H as <- <- <-.
    destruct (IH _ _ _ eq_refl) as [H1 H2]. split; [done|]. unfold with_fd in *. cbn [List.filter]. by rewrite H2.
Qed.
Lemma serve_fd_self n ev rs c l c' : 0 <= n -> serve ev rs c = Some (l, c') -> forall cs l1 dead cs', with_fd n cs = [c] ->
  serve_fd n ev rs cs = Some (l1, dead, cs') -> requests_of n l1 = l /\ with_fd n cs' = with_fd n [c'] /\ (fd c' = -1 -> dead = [n]).
Proof.
  intros Hn Hs. induction cs as [|a cs IH]; intros l1 dead cs' Hw H; [done|]. unfold with_fd in Hw. cbn [List.filter] in Hw. cbn [serve_fd] in H.
  destruct (fd a =? n) eqn:E.
  - injection Hw as -> Hw. rewrite Hs in H. cbn [mbind option_bind] in H. injection H as <- <- <-. split; [apply requests_of_own|].
    split; [|intros ->; done]. unfold with_fd. cbn [List.filter]. rewrite Hw. by destruct (fd c' =? n).
  - destruct (serve_fd n ev rs cs) as [[[l2 d2] cs2]|] eqn:Es; [|done]. cbn [mbind option_bind] in H. injection H as <- <- <-.
    destruct (IH _ _ _ Hw eq_refl) as (H1 & H2 & H3). split; [done|]. split; [|done]. unfold with_fd in *. cbn [List.filter]. by rewrite E.
Qed.

(** ** The server always has an answer *)

Definition input_ok (rs : list recv_result) : Prop := Forall (fun r => match r with Data b => bytes_ok b | _ => True end) rs.
(** What is kept for a client is less than a frame can be. *)
Definition kept (l : list Z) : Prop := bytes_ok l /\ zlen l < 4 + kMaxFrame.
Definition sessions_ok (cs : list ClientSession) : Prop := Forall (fun c => kept (rbuf c)) cs.
Lemma kept_nil : kept [].
Proof. split; [constructor|done]. Qed.
Lemma recv_ok rs : input_ok rs -> bytes_ok (fst (recv_loop rs [])).
Proof.
  induction 1 as [|[b| | | |] rs Hb H IH]; cbn [recv_loop fst]; try done; try by constructor.
  case_bool_decide; [by constructor|]. rewrite recv_loop_app. cbn [fst app]. by apply Forall_app.
Qed.
Lemma frames_total : forall k buf, (length buf <= k)%nat -> bytes_ok buf -> exists l r c, frames buf = Some (l, r, c) /\ kept r.
Proof.
  induction k as [k IH] using lt_wf_ind. intros buf Hk Hb. destruct (view_of buf Hb) as [H|H4 H|H4 Hn H|H4 Hn H].
  - rewrite frames_stop by tauto. do 3 eexists. split; [done|]. split; [done|]. unfold kMaxFrame. change (16 << 20) with 16777216. lia.
  - rewrite frames_too_long by done. do 3 eexists. split; [done|apply kept_nil].
  - rewrite frames_stop by tauto. do 3 eexists. split; [done|]. split; [done|lia].
  - rewrite frames_frame by done. pose proof (drop_shorter _ _ H4 (proj1 Hn) H) as Hd.
    destruct (IH _ ltac:(eapply Nat.lt_le_trans; [exact Hd|exact Hk]) _ (le_n _) (Forall_drop _ _ _ Hb)) as (l & r & c & -> & Hr). by do 3 eexists.
Qed.
Lemma serve_total ev rs c : kept (rbuf c) -> input_ok rs -> exists l c', serve ev rs c = Some (l, c') /\ kept (rbuf c').
Proof.
  intros Hc Hr. unfold serve. rewrite recv_loop_app. destruct (pollerr ev), (pollin ev), (pollhup ev);
    try (do 2 eexists; split; [reflexivity|done]);
    (destruct (frames_total _ (rbuf c ++ fst (recv_loop rs [])) (le_n _)) as (l & r & tl & -> & Hb); [by apply Forall_app; split; [apply Hc|apply recv_ok]|];
     do 2 eexists; split; [reflexivity|done]).
Qed.
Lemma serve_fd_total m ev rs cs : sessions_ok cs -> input_ok rs -> exists l d cs', serve_fd m ev rs cs = Some (l, d, cs') /\ sessions_ok cs'.
Proof.
  intros Hc Hr. induction Hc as [|c cs Hb Hc (l & d & cs' & IH & Hok)]; [by do 3 eexists; split; [|constructor]|]. cbn [serve_fd]. destruct (fd c =? m).
  - destruct (serve_total ev rs c Hb Hr) as (l1 & c1 & -> & Hc1). do 3 eexists. split; [reflexivity|]. by constructor.
  - rewrite IH. do 3 eexists. split; [reflexivity|]. by constructor.
Qed.
Lemma serve_all_total polled : Forall (fun p => input_ok (snd p)) polled -> forall cs, sessions_ok cs ->
  exists l d cs', serve_all polled cs = Some (l, d, cs') /\ sessions_ok cs'.
Proof.
  induction 1 as [|[[m ev] rs] polled Hr H IH]; intros cs Hc; [by do 3 eexists|]. cbn [serve_all].
  destruct (serve_fd_total m ev rs cs Hc Hr) as (l1 & d1 & cs1 & -> & Hc1). cbn [mbind option_bind].
  destruct (IH cs1 Hc1) as (l2 & d2 & cs2 & -> & Hc2). by do 3 eexists.
Qed.
Lemma live_ok cs : sessions_ok cs -> sessions_ok (live cs).
Proof. intros H. unfold sessions_ok, live in *. rewrite List.Forall_forall in *. intros c Hin. apply List.filter_In in Hin as [Hin _]. by apply H. Qed.
Lemma turn_total accepted answer cs : sessions_ok cs -> (forall n, input_ok (snd (answer n))) ->
  exists l d cs', turn accepted answer cs = Some (l, d, cs') /\ sessions_ok cs'.
Proof.
  intros Hc Ha. unfold turn.
  assert (Hn : sessions_ok (cs ++ List.map (fun n => MkClientSession n []) accepted)).
  { apply Forall_app. split; [done|]. induction accepted; constructor; [apply kept_nil|done]. }
  assert (Hp : Forall (fun p => input_ok (snd p)) (List.map (fun c => (fd c, fst (answer (fd c)), snd (answer (fd c)))) (live cs))).
  { induction (live cs); constructor; [apply Ha|done]. }
  destruct (serve_all_total _ Hp _ Hn) as (l & d & cs' & -> & Hok). do 3 eexists. split; [reflexivity|]. by apply live_ok.
Qed.

(** ** A client's turn *)

Definition polled_as (n : Z) (polled : list (Z * Revents * list recv_result)) : list (Z * Revents * list recv_result) :=
  List.filter (fun p => fst (fst p) =? n) polled.
Lemma serve_all_other n polled : 0 <= n -> polled_as n polled = [] -> forall cs l d cs', serve_all polled cs = Some (l, d, cs') ->
  requests_of n l = [] /\ with_fd n cs' = with_fd n cs.
Proof.
  intros Hn. induction polled as [|[[m ev] rs] polled IH]; intros Hp cs l d cs' H; [by injection H as <- <- <-|].
  unfold polled_as in Hp. cbn [List.filter fst] in Hp. destruct (Z.eqb_spec m n); [done|]. cbn [serve_all] in H.
  destruct (serve_fd m ev rs cs) as [[[l1 d1] cs1]|] eqn:E1; [|done]. cbn [mbind option_bind] in H.
  destruct (serve_all polled cs1) as [[[l2 d2] cs2]|] eqn:E2; [|done]. cbn [mbind option_bind] in H. injection H as <- <- <-.
  destruct (serve_fd_other n m ev rs ltac:(done) Hn _ _ _ _ E1) as [H1 H2]. destruct (IH Hp _ _ _ _ E2) as [H3 H4].
  rewrite requests_of_app, H1, H3. by rewrite H4, H2.
Qed.
Lemma serve_all_self n ev rs c l c' polled : 0 <= n -> polled_as n polled = [(n, ev, rs)] -> serve ev rs c = Some (l, c') ->
  forall cs l1 d cs', with_fd n cs = [c] -> serve_all polled cs = Some (l1, d, cs') -> requests_of n l1 = l /\ with_fd n cs' = with_fd n [c'].
Proof.
  intros Hn Hp Hs. induction polled as [|[[m ev1] rs1] polled IH]; intros cs l1 d cs' Hw H; [done|].
  unfold polled_as in Hp. cbn [List.filter fst] in Hp. cbn [serve_all] in H.
  destruct (serve_fd m ev1 rs1 cs) as [[[l2 d2] cs2]|] eqn:E1; [|done]. cbn [mbind option_bind] in H.
  destruct (serve_all polled cs2) as [[[l3 d3] cs3]|] eqn:E2; [|done]. cbn [mbind option_bind] in H. injection H as <- <- <-.
  rewrite requests_of_app. destruct (Z.eqb_spec m n) as [E|E].
  - injection Hp as -> -> -> Hp. destruct (serve_fd_self n ev rs c l c' Hn Hs _ _ _ _ Hw E1) as (<- & <- & _).
    destruct (serve_all_other n polled Hn Hp _ _ _ _ E2) as [-> ->]. by rewrite app_nil_r.
  - destruct (serve_fd_other n m ev1 rs1 E Hn _ _ _ _ E1) as [-> Hw2]. apply (IH Hp cs2 l3 d3 cs3); [by rewrite Hw2|done].
Qed.
Lemma with_fd_live n cs : 0 <= n -> with_fd n (live cs) = with_fd n cs.
Proof.
  intros Hn. unfold with_fd, live. induction cs as [|c cs IH]; [done|]. cbn [List.filter].
  destruct (Z.eqb_spec (fd c) n) as [E|E]; [rewrite E; replace (0 <=? n) with true by lia; cbn [List.filter]; by rewrite E, Z.eqb_refl, IH|].
  destruct (0 <=? fd c); [|done]. cbn [List.filter]. by replace (fd c =? n) with false by lia.
Qed.
Lemma with_fd_new n cs accepted : n ∉ accepted -> with_fd n (cs ++ List.map (fun n => MkClientSession n []) accepted) = with_fd n cs.
Proof.
  intros H. unfold with_fd. rewrite List.filter_app. rewrite <- (app_nil_r (List.filter _ cs)) at 2. f_equal. induction accepted as [|a l IH]; [done|].
  cbn [List.map List.filter fd]. apply not_elem_of_cons in H as [H1 H2]. replace (a =? n) with false by lia. by apply IH.
Qed.
Lemma polled_live n (answer : Z -> Revents * list recv_result) cs : 0 <= n ->
  polled_as n (List.map (fun c => (fd c, fst (answer (fd c)), snd (answer (fd c)))) (live cs)) =
  List.map (fun c => (n, fst (answer n), snd (answer n))) (with_fd n cs).
Proof.
  intros Hn. rewrite <- (with_fd_live n cs) by done. unfold polled_as, with_fd. induction (live cs) as [|c l IH]; [done|]. cbn [List.map List.filter fst].
  destruct (Z.eqb_spec (fd c) n) as [E|E]; [|done]. cbn [List.map]. by rewrite IH, E.
Qed.
Lemma turn_self n accepted answer c l c' cs p d cs' : 0 <= n -> n ∉ accepted -> with_fd n cs = [c] ->
  serve (fst (answer n)) (snd (answer n)) c = Some (l, c') -> turn accepted answer cs = Some (p, d, cs') ->
  requests_of n p = l /\ with_fd n cs' = with_fd n [c'].
Proof.
  intros Hn Ha Hw Hs. unfold turn. destruct (serve_all _ _) as [[[p1 d1] cs1]|] eqn:E; [|done]. cbn [mbind option_bind]. intros [= <- <- <-].
  rewrite with_fd_live by done. eapply serve_all_self; [done| |exact Hs| |exact E]; [by rewrite polled_live, Hw|by rewrite with_fd_new].
Qed.
Lemma turn_gone n accepted answer cs p d cs' : 0 <= n -> n ∉ accepted -> with_fd n cs = [] -> turn accepted answer cs = Some (p, d, cs') ->
  with_fd n cs' = [].
Proof.
  intros Hn Ha Hw. unfold turn. destruct (serve_all _ _) as [[[p1 d1] cs1]|] eqn:E; [|done]. cbn [mbind option_bind]. intros [= <- <- <-].
  rewrite with_fd_live by done. destruct (serve_all_other n _ Hn ltac:(by rewrite polled_live, Hw) _ _ _ _ E) as [_ ->]. by rewrite with_fd_new.
Qed.

(** ** Answers *)

Lemma SendAll_ok rs : forall p out rs', SendAll rs p = (out, true, rs') -> out = p.
Proof.
  induction rs as [|[w| |] rs IH]; intros [|b p] out rs'; cbn [SendAll]; try (intros [= <- _]; done); try done.
  - destruct (w =? 0)%nat; [done|]. destruct (SendAll rs (drop w (b :: p))) as [[out1 ok] rs1] eqn:E. intros [= <- -> ->].
    apply IH in E as ->. apply take_drop.
  - intros H. by apply IH in H.
Qed.
Lemma SendFrame_ok rs v out rs' : SendFrame rs (enc v) = (out, true, rs') -> out = frame v.
Proof.
  unfold SendFrame, frame. destruct (SendAll rs _) as [[o ok] rs1] eqn:E. destruct ok; cbn [negb]; [|done].
  destruct (SendAll rs1 _) as [[o2 ok2] rs2] eqn:E2. intros [= <- -> ->]. apply SendAll_ok in E as ->. by apply SendAll_ok in E2 as ->.
Qed.
Lemma drop_fd_ok n cs : sessions_ok cs -> sessions_ok (drop_fd n cs).
Proof. intros H. induction H as [|c cs Hc H IH]; [constructor|]. cbn [drop_fd]. destruct (fd c =? n); by constructor. Qed.
Lemma drop_fd_other n m cs : 0 <= n -> m <> n -> with_fd n (drop_fd m cs) = with_fd n cs.
Proof.
  intros Hn Hm. unfold with_fd. induction cs as [|c cs IH]; [done|]. cbn [drop_fd]. destruct (Z.eqb_spec (fd c) m) as [E|E]; cbn [List.filter set_fd fd].
  - replace (-1 =? n) with false by lia. by replace (fd c =? n) with false by lia.
  - by rewrite IH.
Qed.
Lemma drop_fd_self n c cs : 0 <= n -> with_fd n cs = [c] -> with_fd n (drop_fd n cs) = [].
Proof.
  intros Hn. unfold with_fd. induction cs as [|a cs IH]; [done|]. cbn [drop_fd List.filter]. destruct (fd a =? n) eqn:E; cbn [List.filter set_fd fd].
  - intros [= -> Hw]. replace (-1 =? n) with false by lia. done.
  - rewrite E. apply IH.
Qed.
Lemma has_fd_with n cs : has_fd n cs = negb (bool_decide (with_fd n cs = [])).
Proof. unfold has_fd, with_fd. induction cs as [|c cs IH]; [done|]. cbn [existsb List.filter]. destruct (fd c =? n); [done|apply IH]. Qed.

Section Handler.
Context {W : Type} (g_handler : Value -> W -> Value * W).
Abbreviation dispatch := (dispatch g_handler).
Abbreviation ServerWorker := (ServerWorker g_handler).

(** The requests handled one after the other. *)
Fixpoint handle (l : list (Z * Value)) (w : W) : list (Z * Value) * W :=
  match l with
  | [] => ([], w)
  | (n, req) :: l => let '(resp, w) := g_handler req w in let '(l, w) := handle l w in ((n, resp) :: l, w)
  end.
Lemma handle_app a b w : handle (a ++ b) w = (fst (handle a w) ++ fst (handle b (snd (handle a w))), snd (handle b (snd (handle a w)))).
Proof.
  revert w. induction a as [|[n req] a IH]; intros w; [cbn; by destruct (handle b w)|]. cbn [app handle]. destruct (g_handler req w) as [resp w1].
  rewrite IH. by destruct (handle a w1) as [l w2].
Qed.
(** The bytes for a client. *)
Definition sent_to (n : Z) (outs : list (Z * list Z)) : list Z := concat (List.map snd (List.filter (fun p => fst p =? n) outs)).
Lemma sent_to_app n a b : sent_to n (a ++ b) = sent_to n a ++ sent_to n b.
Proof. unfold sent_to. by rewrite List.filter_app, List.map_app, List.concat_app. Qed.
Definition framed (vs : list Value) : list Z := concat (List.map frame vs).
Lemma framed_app a b : framed (a ++ b) = framed a ++ framed b.
Proof. unfold framed. by rewrite List.map_app, List.concat_app. Qed.

Lemma dispatch_state pending : forall sends w cs, sessions_ok cs ->
  exists outs cs', dispatch pending sends w cs = (outs, snd (handle pending w), cs') /\ sessions_ok cs'.
Proof.
  induction pending as [|[m req] pending IH]; intros sends w cs Hc; [by do 2 eexists|]. cbn [AgentNet.dispatch handle].
  destruct (g_handler req w) as [resp w1]. destruct (handle pending w1) as [l w2] eqn:Eh. cbn [snd]. destruct (has_fd m cs).
  - destruct (SendFrame _ _) as [[out ok] rest]. set (cs1 := if ok then cs else _).
    assert (H1 : sessions_ok cs1) by (subst cs1; destruct ok; [done|by apply live_ok, drop_fd_ok]).
    destruct (IH (fun n => if n =? m then rest else sends n) w1 cs1 H1) as (outs & cs' & -> & Hok). rewrite Eh. by do 2 eexists.
  - destruct (IH sends w1 cs Hc) as (outs & cs' & -> & Hok). rewrite Eh. by do 2 eexists.
Qed.
Lemma dispatch_gone n pending : 0 <= n -> forall sends w cs outs w' cs', with_fd n cs = [] -> dispatch pending sends w cs = (outs, w', cs') ->
  with_fd n cs' = [].
Proof.
  intros Hn. induction pending as [|[m req] pending IH]; intros sends w cs outs w' cs' Hw; [by intros [= <- <- <-]|]. cbn [AgentNet.dispatch].
  destruct (g_handler req w) as [resp w1]. destruct (has_fd m cs) eqn:Em; [|by apply IH].
  destruct (SendFrame _ _) as [[out ok] rest]. destruct (dispatch pending _ _ _) as [[l w2] cs2] eqn:E. intros [= <- <- <-]. apply IH in E; [done|].
  destruct ok; [done|]. rewrite with_fd_live by done. rewrite drop_fd_other; [done..|]. intros ->. rewrite has_fd_with, bool_decide_true in Em; done.
Qed.
Lemma dispatch_self n c pending : 0 <= n -> forall sends w cs outs w' cs', with_fd n cs = [c] -> dispatch pending sends w cs = (outs, w', cs') ->
  with_fd n cs' = [] \/ with_fd n cs' = [c] /\ sent_to n outs = framed (requests_of n (fst (handle pending w))).
Proof.
  intros Hn. induction pending as [|[m req] pending IH]; intros sends w cs outs w' cs' Hw; [intros [= <- <- <-]; by right|]. cbn [AgentNet.dispatch handle].
  destruct (g_handler req w) as [resp w1]. destruct (Z.eqb_spec m n) as [->|Em].
  - rewrite has_fd_with, bool_decide_false by (by rewrite Hw). cbn [negb]. destruct (SendFrame _ _) as [[out ok] rest] eqn:Es.
    destruct (dispatch pending _ _ _) as [[l w2] cs2] eqn:E. intros [= <- <- <-]. destruct ok.
    + apply (IH _ _ _ _ _ _ Hw) in E as [E|[E1 E2]]; [by left|]. right. split; [done|]. apply SendFrame_ok in Es as ->.
      destruct (handle pending w1) as [h w3]. unfold sent_to, requests_of in *. cbn [List.filter fst]. rewrite Z.eqb_refl. cbn [List.map concat snd]. by rewrite E2.
    + left. apply (dispatch_gone n pending Hn _ _ _ _ _ _ ltac:(by rewrite with_fd_live, (drop_fd_self n c)) E).
  - assert (Hskip : requests_of n (fst (let '(l, w) := handle pending w1 in ((m, resp) :: l, w))) = requests_of n (fst (handle pending w1))).
    { destruct (handle pending w1). unfold requests_of. cbn [List.filter fst]. by replace (m =? n) with false by lia. }
    rewrite Hskip. destruct (has_fd m cs); [|by apply IH]. destruct (SendFrame _ _) as [[out ok] rest].
    destruct (dispatch pending _ _ _) as [[l w2] cs2] eqn:E. intros [= <- <- <-].
    unfold sent_to. cbn [List.filter fst]. replace (m =? n) with false by lia. eapply IH; [|exact E].
    destruct ok; [done|]. by rewrite with_fd_live, drop_fd_other.
Qed.

(** ** The server's loop *)

Definition fine (t : Turn) : Prop := forall n, input_ok (snd (answer t n)).
Lemma ServerWorker_total ts : Forall fine ts -> forall w cs, sessions_ok cs ->
  exists pending outs cs', ServerWorker ts w cs = Some (pending, outs, snd (handle pending w), cs') /\ sessions_ok cs'.
Proof.
  induction 1 as [|t ts Ht H IH]; intros w cs Hc; [by exists [], [], cs|]. cbn [AgentNet.ServerWorker].
  destruct (turn_total (accepted t) (answer t) cs Hc Ht) as (p & d & cs1 & -> & H1). cbn [mbind option_bind].
  destruct (dispatch_state p (sends t) w cs1 H1) as (outs & cs2 & -> & H2).
  destruct (IH (snd (handle p w)) cs2 H2) as (p2 & outs2 & cs3 & -> & H3). cbn [mbind option_bind].
  exists (p ++ p2), (outs ++ outs2), cs3. split; [|exact H3]. by rewrite handle_app.
Qed.
Lemma ServerWorker_gone n ts : 0 <= n -> Forall (fun t => n ∉ accepted t) ts -> forall w cs p outs w' cs', with_fd n cs = [] ->
  ServerWorker ts w cs = Some (p, outs, w', cs') -> with_fd n cs' = [].
Proof.
  intros Hn. induction 1 as [|t ts Ht H IH]; intros w cs p outs w' cs' Hw E; [by injection E as <- <- <- <-|]. cbn [AgentNet.ServerWorker] in E.
  destruct (turn _ _ _) as [[[p1 d] cs1]|] eqn:Et; [|done]. cbn [mbind option_bind] in E.
  destruct (dispatch _ _ _ _) as [[o1 w1] cs2] eqn:Ed. destruct (ServerWorker _ _ _) as [[[[p2 o2] w2] cs3]|] eqn:Es; [|done].
  injection E as <- <- <- <-. apply turn_gone with (n := n) in Et; [|done..]. apply (dispatch_gone n _ Hn _ _ _ _ _ _ Et) in Ed. by apply (IH _ _ _ _ _ _ Ed) in Es.
Qed.

(** What a connected client, with nothing wrong at its socket, has sent in
    a turn. *)
Definition received (n : Z) (t : Turn) : list Z :=
  if pollin (fst (answer t n)) then fst (recv_loop (snd (answer t n)) []) else [].
Definition connected (n : Z) (t : Turn) : Prop :=
  (n ∉ accepted t) /\ pollerr (fst (answer t n)) = false /\
  (if pollin (fst (answer t n)) then snd (recv_loop (snd (answer t n)) []) = false else pollhup (fst (answer t n)) = false).
Lemma frames_rest x l r : bytes_ok x -> frames x = Some (l, r, false) -> unfinished r.
Proof.
  intros Hb H. assert (Hb0 : bytes_ok (x ++ [])) by (by rewrite app_nil_r).
  pose proof (frames_app _ x [] (le_n _) Hb0 _ _ _ H) as E. cbv iota in E. rewrite !app_nil_r, H in E.
  destruct (frames r) as [[[l2 r2] c2]|] eqn:Er; [|done]. cbn [mbind option_bind] in E. injection E as E <- <-.
  unfold unfinished. rewrite Er. apply (f_equal length) in E. rewrite length_app in E. destruct l2; [done|]. cbn [length] in E. lia.
Qed.
Lemma serve_connected n t buf : connected n t -> unfinished buf ->
  serve (fst (answer t n)) (snd (answer t n)) (MkClientSession n buf) =
  ('(l, rest, too_long) ← frames (buf ++ received n t); Some (l, MkClientSession (if too_long : bool then -1 else n) rest)).
Proof.
  intros (_ & He & Hr) Hu. unfold serve, received in *. rewrite He, recv_loop_app. cbn [rbuf fd]. destruct (pollin _); cbv iota in *.
  - by rewrite Hr.
  - by rewrite Hr, app_nil_r, Hu.
Qed.

Lemma ServerWorker_client n ts : 0 <= n -> Forall (connected n) ts -> Forall fine ts -> forall w cs buf l r p outs w' cs',
  sessions_ok cs -> with_fd n cs = [MkClientSession n buf] -> unfinished buf ->
  frames (buf ++ concat (List.map (received n) ts)) = Some (l, r, false) -> ServerWorker ts w cs = Some (p, outs, w', cs') ->
  has_fd n cs' = true ->
  with_fd n cs' = [MkClientSession n r] /\ requests_of n p = l /\ sent_to n outs = framed (requests_of n (fst (handle p w))).
Proof.
  intros Hn Hts. induction Hts as [|t ts Ht Hts IH]; intros Hf w cs buf l r p outs w' cs' Hc Hw Hu Hl E Hin.
  { injection E as <- <- <- <-. cbn [List.map concat] in Hl. rewrite app_nil_r, Hu in Hl. injection Hl as <- <-. done. }
  inversion Hf as [|? ? Hft Hfts]; subst. cbn [AgentNet.ServerWorker List.map concat] in E, Hl. rewrite app_assoc in Hl.
  assert (Hb : bytes_ok (buf ++ received n t)).
  { apply Forall_app. split.
    - assert (Hin2 : In (MkClientSession n buf) (with_fd n cs)) by (rewrite Hw; by left). apply List.filter_In in Hin2 as [Hin2 _].
      unfold sessions_ok in Hc. rewrite List.Forall_forall in Hc. apply (Hc _ Hin2).
    - unfold received. destruct (pollin _); [apply recv_ok, Hft|constructor]. }
  assert (Hbs : bytes_ok (concat (List.map (received n) ts))).
  { clear -Hfts. induction Hfts as [|t ts Ht H IH]; [constructor|]. apply Forall_app. split; [|done].
    unfold received. destruct (pollin _); [apply recv_ok, Ht|constructor]. }
  destruct (frames_total _ _ (le_n _) Hb) as (l1 & r1 & c1 & E1 & _).
  assert (Hba : bytes_ok ((buf ++ received n t) ++ concat (List.map (received n) ts))) by (by apply Forall_app).
  rewrite (frames_app _ _ _ (le_n _) Hba _ _ _ E1) in Hl. destruct c1; [done|].
  destruct (frames (r1 ++ _)) as [[[l2 r2] c2]|] eqn:E2; [|done]. cbn [mbind option_bind] in Hl. injection Hl as <- <- ->.
  pose proof (serve_connected n t buf Ht Hu) as Hs. rewrite E1 in Hs. cbn [mbind option_bind] in Hs.
  destruct (turn_total (accepted t) (answer t) cs Hc Hft) as (p1 & d1 & cs1 & Et & Hok1). rewrite Et in E. cbn [mbind option_bind] in E.
  destruct (turn_self n _ _ _ _ _ _ _ _ _ Hn (proj1 Ht) Hw Hs Et) as [Hp1 Hw1]. unfold with_fd at 2 in Hw1. cbn [List.filter fd] in Hw1. rewrite Z.eqb_refl in Hw1.
  destruct (dispatch_state p1 (sends t) w cs1 Hok1) as (o1 & cs2 & Ed & Hok2). rewrite Ed in E.
  destruct (ServerWorker ts _ cs2) as [[[[p2 o2] w2] cs3]|] eqn:Es; [|done]. injection E as <- <- <- <-.
  destruct (dispatch_self n _ _ Hn _ _ _ _ _ _ Hw1 Ed) as [Hgone|[Hw2 Ho]].
  { rewrite has_fd_with in Hin. assert (Ha : Forall (fun t => n ∉ accepted t) ts) by (eapply Forall_impl; [|exact Hts]; by intros ? []).
    by rewrite (ServerWorker_gone n ts Hn Ha _ _ _ _ _ _ Hgone Es) in Hin. }
  destruct (IH Hfts _ _ _ _ _ _ _ _ _ Hok2 Hw2 (frames_rest _ _ _ Hb E1) E2 Es Hin) as (H1 & H2 & H3).
  split; [done|]. rewrite requests_of_app, sent_to_app, Hp1, H2, Ho, H3, handle_app. cbn [fst]. by rewrite requests_of_app, framed_app.
Qed.

End Handler.

(** ** The client reads the answer *)

(** Nothing wrong at the socket, and what comes in. *)
Definition patient (rs : list recv_result) : Prop := Forall (fun r => match r with Data b => b <> [] | RecvIntr => True | _ => False end) rs.
Fixpoint stream (rs : list recv_result) : list Z :=
  match rs with Data b :: rs => b ++ stream rs | _ :: rs => stream rs | [] => [] end.
Lemma RecvExact_stream rs : patient rs -> forall len, 0 <= len <= zlen (stream rs) ->
  exists rs', RecvExact rs len = (Some (take (Z.to_nat len) (stream rs)), rs') /\ patient rs' /\ stream rs' = drop (Z.to_nat len) (stream rs).
Proof.
  induction 1 as [|r rs Hr H IH]; intros len Hl.
  { cbn [stream zlen length] in *. assert (len = 0) as -> by (unfold zlen in Hl; cbn in Hl; lia). eexists. split; [reflexivity|]. split; [constructor|done]. }
  assert (Hp : patient (r :: rs)) by (by constructor). cbn [RecvExact].
  destruct (Z.leb_spec len 0); [assert (len = 0) as -> by lia; eexists; split; [reflexivity|]; split; [exact Hp|done]|]. destruct r as [b| | | |]; try done; cbn [stream] in *; [|by apply IH].
  rewrite bool_decide_false by done. rewrite zlen_app in Hl. destruct (Z.ltb_spec len (zlen b)).
  - eexists. split; [by rewrite take_app_le by (unfold zlen in *; lia)|]. split; [|cbn [stream]; by rewrite drop_app_le by (unfold zlen in *; lia)].
    constructor; [|done]. intros E. apply (f_equal length) in E. rewrite length_drop in E. unfold zlen in *. cbn in E. lia.
  - destruct (IH (len - zlen b) ltac:(lia)) as (rs' & -> & Hp' & Hs). eexists. split; [|split; [exact Hp'|]].
    + cbn [option_map]. rewrite take_app_ge by (unfold zlen in *; lia). do 4 f_equal. unfold zlen. lia.
    + rewrite Hs, drop_app_ge by (unfold zlen in *; lia). f_equal. unfold zlen. lia.
Qed.

Lemma enc_pos v : wf v -> 0 < zlen (enc v).
Proof.
  intros Hw. pose proof (parse_enc v [] Hw) as H. rewrite app_nil_r in H. unfold zlen. destruct (enc v) as [|b l]; [|cbn [length]; lia].
  assert (E : parse [] = RFalse (MkReader [] 0)) by (by vm_compute). by rewrite E in H.
Qed.

(** An answer that is sent completely is read, in whatever pieces it
    arrives and whatever follows it, as the value that was sent; when it is
    longer than the client's 8 MiB, which the server's frames may be, it is
    refused. *)
Theorem answer_read ss v out ss' rs more : wf v -> zlen (enc v) < 2 ^ 32 -> SendFrame ss (enc v) = (out, true, ss') ->
  patient rs -> stream rs = out ++ more ->
  recv_response rs = Some (if 8 * 1024 * 1024 <? zlen (enc v) then None else Some (canon v)).
Proof.
  intros Hw Hu Hs Hp Hst. apply SendFrame_ok in Hs as ->. unfold frame in Hst. rewrite <- app_assoc in Hst.
  assert (Hh : length (htonl_bytes (zlen (enc v))) = 4%nat) by apply length_be_bytes.
  assert (He : 0 < zlen (enc v)) by (by apply enc_pos).
  assert (Hlen : zlen (stream rs) = 4 + zlen (enc v) + zlen more) by (rewrite Hst, !zlen_app; unfold zlen at 1; rewrite Hh; lia).
  assert (Hm : 0 <= zlen more) by (unfold zlen; lia).
  destruct (RecvExact_stream rs Hp 4 ltac:(lia)) as (rs1 & E1 & Hp1 & Hs1). unfold recv_response. rewrite E1.
  change (Z.to_nat 4) with 4%nat in *. rewrite Hst in Hs1 |- *. rewrite take_app_length' by done. rewrite drop_app_length' in Hs1 by done.
  rewrite ntohl_htonl by (unfold in_u; lia). replace (zlen (enc v) =? 0) with false by lia. cbn [orb].
  destruct (8 * 1024 * 1024 <? zlen (enc v)); [done|].
  destruct (RecvExact_stream rs1 Hp1 (zlen (enc v)) ltac:(rewrite Hs1, zlen_app; lia)) as (rs2 & E2 & _). rewrite E2, Hs1.
  unfold zlen. rewrite Nat2Z.id, take_app_length. rewrite <- (app_nil_r (enc v)), parse_enc by done. done.
Qed.

(** ** Two clients *)

(** One client's request in two pieces, then a second request and the
    beginning of a third, while another client sends one and a third
    connects; the handler counts. *)
Definition counter (_ : Value) (w : Z) : Value * Z := (ValueInt w, w + 1).
Definition takes_all (_ : Z) : list send_result := repeat (Sent 4096) 8.
Definition turn1 : Turn :=
  MkTurn [7] (fun n => if n =? 5 then (readable, [Data (take 3 (frame ping)); RecvIntr; RecvAgain]) else (readable, [Data (frame ping); RecvAgain])) takes_all.
Definition turn2 : Turn :=
  MkTurn [] (fun n => if n =? 5 then (readable, [Data (drop 3 (frame ping)); Data (frame ping ++ [0; 0]); RecvAgain]) else (MkRevents false false false, [])) takes_all.
Definition two_clients : list ClientSession := [MkClientSession 6 []; MkClientSession 5 []].
Lemma ping_fits : fits ping.
Proof. split; [|by vm_compute]. repeat split; reflexivity. Qed.
Lemma ping_bytes : bytes_ok (frame ping).
Proof. vm_compute. repeat constructor; discriminate. Qed.
Lemma turns_fine : Forall fine [turn1; turn2].
Proof.
  pose proof ping_bytes as H. constructor; [|constructor; [|constructor]]; intros n; unfold turn1, turn2; cbn [answer]; destruct (n =? 5);
    repeat constructor; try done; try (by apply Forall_take); try (by apply Forall_drop).
Qed.
Lemma turns_connected : Forall (connected 5) [turn1; turn2].
Proof.
  apply Forall_cons; [|apply Forall_cons; [|apply Forall_nil]].
  all: split; [apply (bool_decide_unpack (_ ∉ _)); vm_compute; exact I|].
  all: split; vm_compute; reflexivity.
Qed.
Example two_answers : exists pending w' cs', ServerWorker counter [turn1; turn2] 0 two_clients =
  Some (pending, [(6, frame (ValueInt 0)); (5, frame (ValueInt 1)); (5, frame (ValueInt 2))], w', cs') /\ has_fd 5 cs' = true.
Proof. do 3 eexists. split; vm_compute; reflexivity. Qed.

Lemma answer_read_witness :
  recv_response [Data (take 2 (frame ping)); RecvIntr; Data (drop 2 (frame ping) ++ [9])] =
  Some (if 8 * 1024 * 1024 <? zlen (enc ping) then None else Some (canon ping)).
Proof.
  apply (answer_read [Sent 4; SendIntr; Sent 3; Sent 100] ping (frame ping) [] _ [9]).
  - apply ping_fits.
  - by vm_compute.
  - by vm_compute.
  - repeat constructor; by vm_compute.
  - by vm_compute.
Defined.

End AgentNetProofs.
