(* ===== verification/HwHook.v ===== *)
(** * Hardware breakpoints and watchpoints

    src/engine/native/hooker/pi_hw_hook.h and .cpp: HwHookManager.  It gives
    hooks the processor's comparators ("slots"), arms them on threads, and
    handles the exceptions they raise: a recurring hook is disarmed and
    another breakpoint is set behind the instruction, whose exception arms
    the hook again ("step-over").

    Frida-gum sets and clears the debug registers of threads, and the kernel
    says which threads there are and how many comparators: the parameter
    [gum], over a world [W].  HandleException gives its lock up while the
    callback of a hook runs: [hit] is what it does before, [resume] what it
    does after, and anything may come between.  A session object is known by
    its [ref]; one that is not in the list is inactive.  [None] is undefined
    behaviour.  Logs are left out. *)
From stdpp Require Import strings.
From S2P Require Import Prelude.
Local Open Scope cint_scope.

Module HwHook.

(** ** Data *)

Definition kMaxHwSlots : Z := 16.
Inductive HwHookType := BREAKPOINT | WATCHPOINT.
#[export] Instance HwHookType_eq_dec : EqDecision HwHookType.
Proof. solve_decision. Defined.

(** A condition is 1, 2 or 3; a callback is known by a number. *)
Record HwHookConfig := MkHwHookConfig {
  type : HwHookType; address : Z; size : Z; condition : Z; thread_id : Z; slot : Z; once : bool; tag : list Z; on_hit : option Z }.
(** [armed_threads] is a std::set: ascending. *)
Record HwHookSession := MkHwHookSession {
  ref : Z; id : Z; config : HwHookConfig; assigned_slot : Z; active : bool; armed_threads : list Z;
  step_over_slot : Z; step_over_pc : Z; stepping_thread : Z }.
Record HwHookManager := MkHwHookManager {
  initialized : bool; next_id : Z; bp_capacity : Z; wp_capacity : Z; bp_slots : list bool; wp_slots : list bool;
  sessions : list HwHookSession; next_ref : Z }.
Definition new_manager : HwHookManager := MkHwHookManager false 1 4 4 (replicate 16 false) (replicate 16 false) [] 0.

Definition set_sessions (l : list HwHookSession) (m : HwHookManager) : HwHookManager :=
  MkHwHookManager (initialized m) (next_id m) (bp_capacity m) (wp_capacity m) (bp_slots m) (wp_slots m) l (next_ref m).
Definition slots (t : HwHookType) (m : HwHookManager) : list bool := match t with BREAKPOINT => bp_slots m | WATCHPOINT => wp_slots m end.
Definition capacity (t : HwHookType) (m : HwHookManager) : Z := match t with BREAKPOINT => bp_capacity m | WATCHPOINT => wp_capacity m end.
Definition set_slots (t : HwHookType) (l : list bool) (m : HwHookManager) : HwHookManager :=
  match t with
  | BREAKPOINT => MkHwHookManager (initialized m) (next_id m) (bp_capacity m) (wp_capacity m) l (wp_slots m) (sessions m) (next_ref m)
  | WATCHPOINT => MkHwHookManager (initialized m) (next_id m) (bp_capacity m) (wp_capacity m) (bp_slots m) l (sessions m) (next_ref m)
  end.

Definition set_armed (l : list Z) (s : HwHookSession) : HwHookSession :=
  MkHwHookSession (ref s) (id s) (config s) (assigned_slot s) (active s) l (step_over_slot s) (step_over_pc s) (stepping_thread s).
Definition set_active (b : bool) (s : HwHookSession) : HwHookSession :=
  MkHwHookSession (ref s) (id s) (config s) (assigned_slot s) b (armed_threads s) (step_over_slot s) (step_over_pc s) (stepping_thread s).
Definition set_step (k pc tid : Z) (s : HwHookSession) : HwHookSession :=
  MkHwHookSession (ref s) (id s) (config s) (assigned_slot s) (active s) (armed_threads s) k pc tid.
Definition set_config (c : HwHookConfig) (s : HwHookSession) : HwHookSession :=
  MkHwHookSession (ref s) (id s) c (assigned_slot s) (active s) (armed_threads s) (step_over_slot s) (step_over_pc s) (stepping_thread s).
(** A change of a session object, wherever it is held. *)
Definition update (s : HwHookSession) (l : list HwHookSession) : list HwHookSession :=
  List.map (fun a => if ref a =? ref s then s else a) l.
Definition erase (s : HwHookSession) (l : list HwHookSession) : list HwHookSession := List.filter (fun a => negb (ref a =? ref s)) l.

Fixpoint set_insert (n : Z) (l : list Z) : list Z :=
  match l with [] => [n] | a :: t => if n =? a then l else if n <? a then n :: l else a :: set_insert n t end.
Definition set_erase (n : Z) (l : list Z) : list Z := List.filter (fun a => negb (a =? n)) l.

(** ** Slots *)

Definition allocateSlot (t : HwHookType) (requested : Z) (m : HwHookManager) : option (option Z * HwHookManager) :=
  if 0 <=? requested then
    if requested <? capacity t m then
      used ← slots t m !!z requested;
      if used : bool then Some (None, m)
      else l ← zset (slots t m) requested true; Some (Some requested, set_slots t l m)
    else Some (None, m)
  else
    (fix loop (fuel : nat) (i : Z) : option (option Z * HwHookManager) :=
       match fuel with
       | O => Some (None, m)
       | S fuel =>
           used ← slots t m !!z i;
           if used : bool then loop fuel (i + 1)
           else l ← zset (slots t m) i true; Some (Some i, set_slots t l m)
       end) (Z.to_nat (capacity t m)) 0.
Definition freeSlot (t : HwHookType) (i : Z) (m : HwHookManager) : HwHookManager :=
  if (0 <=? i) && (i <? kMaxHwSlots) then set_slots t (<[Z.to_nat i := false]> (slots t m)) m else m.

(** ** The processor's side *)

Record Gum (W : Type) := MkGum {
  set_breakpoint : Z -> Z -> Z -> W -> bool * W;
  unset_breakpoint : Z -> Z -> W -> bool * W;
  set_watchpoint : Z -> Z -> Z -> Z -> Z -> W -> bool * W;
  unset_watchpoint : Z -> Z -> W -> bool * W;
  exceptor_obtain : W -> bool;
  EnumerateThreadIds : W -> list Z }.
Arguments set_breakpoint {W}. Arguments unset_breakpoint {W}. Arguments set_watchpoint {W}. Arguments unset_watchpoint {W}.
Arguments exceptor_obtain {W}. Arguments EnumerateThreadIds {W}.

(** The registers of a stopped thread, x0 to x28 in [x]. *)
Record Context := MkContext { pc : Z; sp : Z; lr : Z; fp : Z; nzcv : Z; x : list Z }.
Record Details := MkDetails { tid : Z; fault_addr : Z; mem_addr : Z; context : Context }.

(** Where the thread goes next, as step-over has it. *)
Definition next_pc (insn cur_pc : Z) (c : Context) : Z :=
  if insn & 0xfffffc1f =? 0xd65f0000 then lr c
  else if insn & 0x7c000000 =? 0x14000000 then
    let imm26 := insn & 0x03ffffff in
    let imm26 := if imm26 & 0x02000000 =? 0 then imm26 else S32 (imm26 .| 0xfc000000) in
    U64 (cur_pc + S32 (imm26 << 2))
  else if (insn & 0xfffffc1f =? 0xd61f0000) || (insn & 0xfffffc1f =? 0xd63f0000) then
    let rn := (insn >> 5) & 0x1f in
    if rn <? 29 then nth (Z.to_nat rn) (x c) 0
    else if rn =? 29 then fp c
    else if rn =? 30 then lr c
    else U64 (cur_pc + 4)
  else U64 (cur_pc + 4).

Section Manager.
Context {W : Type} (gum : Gum W) (code : Z -> Z).

Definition gum_condition (c : Z) : Z :=
  (if c & 1 =? 0 then 0 else 1) .| (if c & 2 =? 0 then 0 else 2).
(** Of the hook's comparator. *)
Definition set_hook (s : HwHookSession) (t : Z) (w : W) : bool * W :=
  match type (config s) with
  | BREAKPOINT => set_breakpoint gum t (assigned_slot s) (address (config s)) w
  | WATCHPOINT => set_watchpoint gum t (assigned_slot s) (address (config s)) (size (config s)) (gum_condition (condition (config s))) w
  end.
Definition unset_hook (s : HwHookSession) (t : Z) (w : W) : bool * W :=
  match type (config s) with
  | BREAKPOINT => unset_breakpoint gum t (assigned_slot s) w
  | WATCHPOINT => unset_watchpoint gum t (assigned_slot s) w
  end.
Definition armOnThread (s : HwHookSession) (t : Z) (w : W) : bool * HwHookSession * W :=
  let '(ok, w) := set_hook s t w in (ok, if ok then set_armed (set_insert t (armed_threads s)) s else s, w).
Definition disarmOnThread (s : HwHookSession) (t : Z) (w : W) : bool * HwHookSession * W :=
  let '(ok, w) := unset_hook s t w in (ok, set_armed (set_erase t (armed_threads s)) s, w).

(** ** The public operations *)

Definition init (m : HwHookManager) (w : W) : bool * HwHookManager :=
  if initialized m then (true, m)
  else if negb (exceptor_obtain gum w) then (false, m)
  else (true, MkHwHookManager true (next_id m) 6 4 (bp_slots m) (wp_slots m) (sessions m) (next_ref m)).
(** [bp] and [wp] are what ReadHwSlotCount finds. *)
Definition refreshCapacity (bp wp : Z) (m : HwHookManager) : HwHookManager :=
  if negb (initialized m) then m
  else
    let new n old := Z.min (if 0 <? n then n else old) kMaxHwSlots in
    MkHwHookManager true (next_id m) (new bp (bp_capacity m)) (new wp (wp_capacity m)) (bp_slots m) (wp_slots m) (sessions m) (next_ref m).

Fixpoint arm_all (tids : list Z) (s : HwHookSession) (w : W) : Z * HwHookSession * W :=
  match tids with
  | [] => (0, s, w)
  | t :: tids =>
      let '(ok, s, w) := armOnThread s t w in
      let '(n, s, w) := arm_all tids s w in ((if ok : bool then 1 else 0) + n, s, w)
  end.
Definition same_hook (c : HwHookConfig) (s : HwHookSession) : bool :=
  active s && (address (config s) =? address c) && bool_decide (type (config s) = type c).
Definition reuse (c : HwHookConfig) (s : HwHookSession) : HwHookSession :=
  let old := config s in
  set_config (MkHwHookConfig (type old) (address old) (size old) (condition old) (thread_id old) (slot old) (once old)
    (if bool_decide (tag c = []) then tag old else tag c) (on_hit c)) s.
Definition attach (c : HwHookConfig) (m : HwHookManager) (w : W) : option (Z * HwHookManager * W) :=
  let '(ready, m) := init m w in
  if negb ready then Some (0, m, w)
  else if (address c =? 0) || bool_decide (on_hit c = None) then Some (0, m, w)
  else
    match List.find (same_hook c) (sessions m) with
    | Some s => Some (id s, set_sessions (update (reuse c s) (sessions m)) m, w)
    | None =>
        '(k, m) ← allocateSlot (type c) (slot c) m;
        match k with
        | None => Some (0, m, w)
        | Some k =>
            let s := MkHwHookSession (next_ref m) (next_id m) c k true [] (-1) 0 0 in
            let m := MkHwHookManager (initialized m) (U32 (next_id m + 1)) (bp_capacity m) (wp_capacity m) (bp_slots m) (wp_slots m)
                       (sessions m) (next_ref m + 1) in
            let '(ok, s, w) :=
              if 0 <? thread_id c then armOnThread s (thread_id c) w
              else
                let tids := EnumerateThreadIds gum w in
                let '(n, s, w) := arm_all tids s w in
                (negb ((n =? 0) && negb (bool_decide (tids = []))), s, w) in
            if ok : bool then Some (id s, set_sessions (sessions m ++ [s]) m, w)
            else Some (0, freeSlot (type c) k m, w)
        end
    end.

Definition attachBreakpoint (addr : Z) (onHit : option Z) (k t : Z) (o : bool) (tg : list Z) : HwHookManager -> W -> option (Z * HwHookManager * W) :=
  attach (MkHwHookConfig BREAKPOINT addr 4 2 t k o tg onHit).
Definition attachWatchpoint (addr n cond : Z) (onHit : option Z) (k t : Z) (o : bool) (tg : list Z) : HwHookManager -> W -> option (Z * HwHookManager * W) :=
  attach (MkHwHookConfig WATCHPOINT addr n cond t k o tg onHit).

Fixpoint unset_all (s : HwHookSession) (tids : list Z) (w : W) : W :=
  match tids with [] => w | t :: tids => unset_all s tids (snd (unset_hook s t w)) end.
(** What detach and detachAll do with a session, but for the list. *)
Definition release (s : HwHookSession) (m : HwHookManager) (w : W) : option (HwHookManager * W) :=
  '(m, w) ←
    (if (0 <=? step_over_slot s) && (0 <? stepping_thread s) then
       let w := snd (unset_breakpoint gum (stepping_thread s) (step_over_slot s) w) in
       l ← zset (bp_slots m) (step_over_slot s) false; Some (set_slots BREAKPOINT l m, w)
     else Some (m, w));
  let w := unset_all s (armed_threads s) w in
  Some (freeSlot (type (config s)) (assigned_slot s) m, w).
Definition detach (n : Z) (m : HwHookManager) (w : W) : option (bool * HwHookManager * W) :=
  match List.find (fun s => id s =? n) (sessions m) with
  | None => Some (false, m, w)
  | Some s => '(m, w) ← release s m w; Some (true, set_sessions (erase s (sessions m)) m, w)
  end.
Fixpoint release_all (l : list HwHookSession) (m : HwHookManager) (w : W) : option (HwHookManager * W) :=
  match l with [] => Some (m, w) | s :: l => '(m, w) ← release s m w; release_all l m w end.
Definition detachAll (m : HwHookManager) (w : W) : option (Z * HwHookManager * W) :=
  let n := Z.of_nat (length (sessions m)) in
  '(m, w) ← release_all (sessions m) m w;
  let clear := List.map (fun _ : bool => false) in
  Some (n, set_slots WATCHPOINT (clear (wp_slots m)) (set_slots BREAKPOINT (clear (bp_slots m)) (set_sessions [] m)), w).

Definition listSessions (m : HwHookManager) : list HwHookSession := List.filter active (sessions m).
Definition isSessionActive (n : Z) (m : HwHookManager) : bool := existsb (fun s => (id s =? n) && active s) (sessions m).

Fixpoint rearm_session (tids : list Z) (s : HwHookSession) (w : W) : Z * HwHookSession * W :=
  match tids with
  | [] => (0, s, w)
  | t :: tids =>
      if ((0 <? thread_id (config s)) && negb (thread_id (config s) =? t)) || existsb (Z.eqb t) (armed_threads s) then rearm_session tids s w
      else
        let '(ok, s, w) := armOnThread s t w in
        let '(n, s, w) := rearm_session tids s w in ((if ok : bool then 1 else 0) + n, s, w)
  end.
Fixpoint rearm_list (tids : list Z) (l : list HwHookSession) (w : W) : Z * list HwHookSession * W :=
  match l with
  | [] => (0, [], w)
  | s :: l =>
      let '(n, s, w) := if active s then rearm_session tids s w else (0, s, w) in
      let '(k, l, w) := rearm_list tids l w in (n + k, s :: l, w)
  end.
Definition rearmMissingThreads (m : HwHookManager) (w : W) : Z * HwHookManager * W :=
  if negb (initialized m) then (0, m, w)
  else let '(n, l, w) := rearm_list (EnumerateThreadIds gum w) (sessions m) w in (n, set_sessions l m, w).

(** ** Exceptions *)

Definition steps_over (d : Details) (s : HwHookSession) : bool :=
  active s && (stepping_thread s =? tid d) && ((step_over_pc s =? fault_addr d) || (step_over_pc s =? pc (context d))).
Definition matches (d : Details) (s : HwHookSession) : bool :=
  active s &&
  match type (config s) with
  | BREAKPOINT => (fault_addr d =? address (config s)) || (pc (context d) =? address (config s))
  | WATCHPOINT => (address (config s) <=? mem_addr d) && (mem_addr d <? U64 (address (config s) + size (config s)))
  end.
(** The session whose callback runs, and whether it was a one-shot. *)
Record Pending := MkPending { of_ref : Z; was_once : bool; details : Details }.
Inductive Hit := Handled | NotOurs | Callback (p : Pending).

(** A one-shot hook is erased from [armed_threads] thread by thread while a
    loop goes over it: undefined if there is another thread. *)
Definition finish_once (s : HwHookSession) (d : Details) (m : HwHookManager) (w : W) : option (HwHookManager * W) :=
  let '(_, s, w) := disarmOnThread s (tid d) w in
  if (thread_id (config s) =? 0) && negb (bool_decide (armed_threads s = [])) then None
  else Some (set_sessions (erase s (sessions m)) (freeSlot (type (config s)) (assigned_slot s) m), w).
Definition hit (d : Details) (m : HwHookManager) (w : W) : option (Hit * HwHookManager * W) :=
  match List.find (steps_over d) (sessions m) with
  | Some s =>
      let w := snd (unset_breakpoint gum (tid d) (step_over_slot s) w) in
      l ← zset (bp_slots m) (step_over_slot s) false;
      let w := snd (set_hook s (tid d) w) in
      Some (Handled, set_sessions (update (set_step (-1) 0 0 s) (sessions m)) (set_slots BREAKPOINT l m), w)
  | None =>
      match List.find (matches d) (sessions m) with
      | None => Some (NotOurs, m, w)
      | Some s =>
          let p := MkPending (ref s) (once (config s)) d in
          if once (config s) then '(m, w) ← finish_once s d m w; Some (Callback p, m, w)
          else Some (Callback p, m, w)
      end
  end.

(** The first free breakpoint slot, but for [but]. *)
Fixpoint free_bp (l : list bool) (but : option Z) (fuel : nat) (i : Z) : option (option Z) :=
  match fuel with
  | O => Some None
  | S fuel => used ← l !!z i; if negb used && negb (bool_decide (but = Some i)) then Some (Some i) else free_bp l but fuel (i + 1)
  end.
Definition write_back (c : Context) (old : Context) : Context := MkContext (pc c) (sp c) (lr c) (fp c) (nzcv old) (x c).
(** The address behind the one the thread is at. *)
Definition step_target (t : HwHookType) (d : Details) (c : Context) : Z :=
  match t with
  | BREAKPOINT =>
      let cur_pc := if 0x1000 <=? fault_addr d then fault_addr d else pc (context d) in
      if 0x1000 <=? cur_pc then next_pc (code cur_pc) cur_pc c else U64 (cur_pc + 4)
  | WATCHPOINT => U64 (pc (context d) + 4)
  end.
(** The callback leaves the registers [c]. *)
Definition resume (p : Pending) (c : Context) (m : HwHookManager) (w : W) : option (Context * HwHookManager * W) :=
  let d := details p in
  let c := write_back c (context d) in
  if was_once p then Some (c, m, w)
  else
    match List.find (fun s => (ref s =? of_ref p) && active s) (sessions m) with
    | None => Some (c, m, w)
    | Some s =>
        let t := type (config s) in
        let w := snd (unset_hook s (tid d) w) in
        k ← free_bp (bp_slots m) (match t with BREAKPOINT => Some (assigned_slot s) | WATCHPOINT => None end) (Z.to_nat (bp_capacity m)) 0;
        match k with
        | Some k =>
            let next := step_target t d c in
            l ← zset (bp_slots m) k true;
            let w := snd (set_breakpoint gum (tid d) k next w) in
            Some (c, set_sessions (update (set_step k next (tid d) s) (sessions m)) (set_slots BREAKPOINT l m), w)
        | None =>
            match t with
            | BREAKPOINT => Some (c, m, w)
            | WATCHPOINT => Some (c, freeSlot t (assigned_slot s) (set_sessions (update (set_active false s) (sessions m)) m), w)
            end
        end
    end.

(** ** Any order of operations *)

(** [World]: threads come and go. *)
Inductive Op :=
| Attach (c : HwHookConfig) | Detach (n : Z) | DetachAll | Rearm | Refresh (bp wp : Z) | World (w : W)
| Exception (d : Details) | Resume (k : nat) (c : Context).
Record State := MkState { manager : HwHookManager; world : W; running : list Pending }.
Definition step (o : Op) (st : State) : option State :=
  let m := manager st in
  let w := world st in
  match o with
  | Attach c => '(_, m, w) ← attach c m w; Some (MkState m w (running st))
  | Detach n => '(_, m, w) ← detach n m w; Some (MkState m w (running st))
  | DetachAll => '(_, m, w) ← detachAll m w; Some (MkState m w (running st))
  | Rearm => let '(_, m, w) := rearmMissingThreads m w in Some (MkState m w (running st))
  | Refresh bp wp => Some (MkState (refreshCapacity bp wp m) w (running st))
  | World w => Some (MkState m w (running st))
  | Exception d =>
      '(h, m, w) ← hit d m w;
      Some (MkState m w (match h with Callback p => running st ++ [p] | _ => running st end))
  | Resume k c =>
      match running st !! k with
      | None => Some st
      | Some p => '(_, m, w) ← resume p c m w; Some (MkState m w (delete k (running st)))
      end
  end.
Fixpoint steps (l : list Op) (st : State) : option State :=
  match l with [] => Some st | o :: l => st ← step o st; steps l st end.
Definition start (w : W) : State := MkState new_manager w [].

End Manager.

End HwHook.
