(* ===== verification/HwHookProofs.v ===== *)
(** * Hardware hooks hold comparators of their own

    No two hooks ever hold the same comparator, whatever the order of
    operations, exceptions and callbacks. *)
From stdpp Require Import strings.
From S2P Require Import Prelude.
From S2P Require Import HwHook.
Import HwHook.
Local Open Scope cint_scope.

Module HwHookProofs.

(** ** What a session holds *)

Definition comparator : Type := HwHookType * Z.
Definition owns (s : HwHookSession) : list comparator :=
  (type (config s), assigned_slot s) :: (if 0 <=? step_over_slot s then [(BREAKPOINT, step_over_slot s)] else []).
Definition own (s : HwHookSession) : list comparator := if active s then owns s else [].
Definition owned (l : list HwHookSession) : list comparator := concat (List.map own l).
Definition marked (m : HwHookManager) (p : comparator) : Prop := slots (fst p) m !!z snd p = Some true.

Record tables_ok (m : HwHookManager) : Prop := {
  tb_bp : length (bp_slots m) = 16%nat; tb_wp : length (wp_slots m) = 16%nat;
  tb_bp_capacity : 0 <= bp_capacity m <= 16; tb_wp_capacity : 0 <= wp_capacity m <= 16 }.
Definition stepping_ok (s : HwHookSession) : Prop := 0 <= step_over_slot s < 16 \/ stepping_thread s = 0.
Record Inv (m : HwHookManager) : Prop := {
  inv_tables : tables_ok m;
  inv_refs : NoDup (List.map ref (sessions m));
  inv_fresh : Forall (fun s => ref s < next_ref m) (sessions m);
  inv_stepping : Forall stepping_ok (sessions m);
  inv_apart : NoDup (owned (sessions m));
  inv_marked : Forall (marked m) (owned (sessions m)) }.

Lemma owned_app a b : owned (a ++ b) = owned a ++ owned b.
Proof. unfold owned. by rewrite List.map_app, List.concat_app. Qed.
Lemma owned_mid a s b : owned (a ++ s :: b) ≡ₚ own s ++ owned (a ++ b).
Proof. rewrite !owned_app. unfold owned at 2. cbn [List.map concat]. fold (owned b). by rewrite !app_assoc, (Permutation_app_comm (owned a)). Qed.

(** ** The tables *)

Definition set_slot (t : HwHookType) (i : Z) (b : bool) (m : HwHookManager) : HwHookManager := set_slots t (<[Z.to_nat i := b]> (slots t m)) m.
Lemma slots_length t m : tables_ok m -> length (slots t m) = 16%nat.
Proof. by intros []; destruct t. Qed.
Lemma capacity_bound t m : tables_ok m -> 0 <= capacity t m <= 16.
Proof. by intros []; destruct t. Qed.
Lemma set_slot_ok t i b m : tables_ok m -> tables_ok (set_slot t i b m).
Proof. intros []. destruct t; split; cbn; rewrite ?length_insert; done. Qed.
Lemma set_slot_sessions t i b m : sessions (set_slot t i b m) = sessions m /\ next_ref (set_slot t i b m) = next_ref m.
Proof. by destruct t. Qed.
Lemma marked_range m p : tables_ok m -> marked m p -> 0 <= snd p < 16.
Proof. intros H Hm. apply zlookup_lt_Some in Hm. rewrite slots_length in Hm by done. lia. Qed.
Lemma zset_slot t m i b : tables_ok m -> 0 <= i < 16 -> zset (slots t m) i b = Some (<[Z.to_nat i := b]> (slots t m)).
Proof. intros H Hi. apply zset_Some. rewrite slots_length by done. lia. Qed.
Lemma marked_set_other t i b m p : (t, i) <> p -> 0 <= i -> marked (set_slot t i b m) p <-> marked m p.
Proof.
  destruct p as [u j]. unfold marked, zlookup. cbn [fst snd]. intros H Hi. destruct (Z.leb_spec 0 j); [|done].
  destruct (decide (t = u)) as [->|E]; [|by destruct t, u].
  assert (Hl : slots u (set_slot u i b m) = <[Z.to_nat i := b]> (slots u m)) by (by destruct u). rewrite Hl.
  rewrite list_lookup_insert_ne; [done|]. intros E. apply H. f_equal. lia.
Qed.
Lemma marked_set_same t i m : tables_ok m -> 0 <= i < 16 -> marked (set_slot t i true m) (t, i).
Proof.
  intros H Hi. unfold marked, zlookup. cbn [fst snd]. replace (0 <=? i) with true by lia.
  assert (Hl : slots t (set_slot t i true m) = <[Z.to_nat i := true]> (slots t m)) by (by destruct t). rewrite Hl.
  apply list_lookup_insert_eq. rewrite slots_length by done. lia.
Qed.
Lemma freeSlot_eq t i m : freeSlot t i m = if (0 <=? i) && (i <? 16) then set_slot t i false m else m.
Proof. done. Qed.
Lemma slot_defined t m i : tables_ok m -> 0 <= i < 16 -> exists b, slots t m !!z i = Some b.
Proof. intros H Hi. apply zlookup_is_Some. rewrite slots_length by done. lia. Qed.

(** ** Finding a slot *)

Lemma allocateSlot_spec t r m : tables_ok m -> allocateSlot t r m = Some (None, m) \/
  exists i, 0 <= i < capacity t m /\ (0 <= r -> i = r) /\ ~ marked m (t, i) /\ allocateSlot t r m = Some (Some i, set_slot t i true m).
Proof.
  intros H. pose proof (capacity_bound t m H) as Hc. unfold allocateSlot. destruct (Z.leb_spec 0 r) as [Hr|Hr].
  - destruct (Z.ltb_spec r (capacity t m)) as [Hl|Hl]; [|by left]. destruct (slot_defined t m r H ltac:(lia)) as [[] E]; rewrite E; cbn [mbind option_bind]; [by left|].
    right. exists r. rewrite zset_slot by (done || lia). split; [lia|]. split; [done|]. split; [by unfold marked; cbn; rewrite E|done].
  - set (loop := fix loop (fuel : nat) (i : Z) := _).
    assert (Hg : forall f i, 0 <= i -> i + Z.of_nat f = capacity t m -> loop f i = Some (None, m) \/
      exists j, 0 <= j < capacity t m /\ ~ marked m (t, j) /\ loop f i = Some (Some j, set_slot t j true m)).
    { induction f as [|f IH]; intros i Hi Hf; [by left|]. cbn [loop]. destruct (slot_defined t m i H ltac:(lia)) as [[] E]; rewrite E; cbn [mbind option_bind].
      - apply IH; lia.
      - right. exists i. rewrite zset_slot by (done || lia). split; [lia|]. split; [by unfold marked; cbn; rewrite E|done]. }
    destruct (Hg (Z.to_nat (capacity t m)) 0 ltac:(lia) ltac:(lia)) as [E|(j & H1 & H2 & H3)]; [by left|]. right. exists j. split; [done|]. split; [lia|done].
Qed.
Lemma free_bp_spec m but : tables_ok m -> forall f i, 0 <= i -> i + Z.of_nat f <= 16 -> exists r, free_bp (bp_slots m) but f i = Some r /\
  forall k, r = Some k -> 0 <= k < 16 /\ ~ marked m (BREAKPOINT, k) /\ but <> Some k.
Proof.
  intros H. induction f as [|f IH]; intros i Hi Hf; [by exists None|]. cbn [free_bp].
  destruct (slot_defined BREAKPOINT m i H ltac:(lia)) as [b E]. cbn [slots] in E. rewrite E. cbn [mbind option_bind].
  destruct (negb b && _) eqn:Eb; [|apply IH; lia]. apply andb_true_iff in Eb as [Eb1 Eb2]. exists (Some i). split; [done|]. intros k [= <-].
  split; [lia|]. split; [unfold marked; cbn; rewrite E; by destruct b|]. apply negb_true_iff, bool_decide_eq_false in Eb2. done.
Qed.

(** ** The list of sessions *)

Lemma map_ref_update s s' l : ref s' = ref s -> List.map ref (update s' l) = List.map ref l.
Proof.
  intros H. unfold update. rewrite List.map_map. apply List.map_ext. intros a. destruct (Z.eqb_spec (ref a) (ref s')); congruence.
Qed.
Lemma not_in_ref s a : ~ In (ref s) (List.map ref a) -> forall s', ref s' = ref s -> update s' a = a /\ erase s a = a.
Proof.
  intros H s' Hs. unfold update, erase. induction a as [|b a IH]; [done|]. cbn [List.map List.filter In] in *.
  destruct IH as [IH1 IH2]; [tauto|]. rewrite IH1, IH2. replace (ref b =? ref s') with false by (symmetry; apply Z.eqb_neq; rewrite Hs; intuition).
  by replace (ref b =? ref s) with false by (symmetry; apply Z.eqb_neq; intuition).
Qed.
Lemma update_mid a s b : NoDup (List.map ref (a ++ s :: b)) ->
  (forall s', ref s' = ref s -> update s' (a ++ s :: b) = a ++ s' :: b) /\ erase s (a ++ s :: b) = a ++ b.
Proof.
  intros Hn. rewrite List.map_app in Hn. cbn [List.map] in Hn. apply list.NoDup_app in Hn as (_ & Hx & Hb). apply list.NoDup_cons in Hb as [Hb _].
  assert (Ha : ~ In (ref s) (List.map ref a)) by (intros Hi; apply (Hx (ref s)); [by apply list_elem_of_In|by left]).
  assert (Hb' : ~ In (ref s) (List.map ref b)) by (intros Hi; by apply Hb, list_elem_of_In).
  split.
  - intros s' Hs. unfold update in *. rewrite List.map_app. cbn [List.map]. rewrite Hs, Z.eqb_refl.
    destruct (not_in_ref s a Ha s' Hs) as [E1 _], (not_in_ref s b Hb' s' Hs) as [E2 _]. unfold update in E1, E2. rewrite Hs in E1, E2. by rewrite E1, E2.
  - unfold erase in *. rewrite List.filter_app. cbn [List.filter]. rewrite Z.eqb_refl. cbn [negb].
    destruct (not_in_ref s a Ha s eq_refl) as [_ E1], (not_in_ref s b Hb' s eq_refl) as [_ E2]. unfold erase in E1, E2. by rewrite E1, E2.
Qed.
Lemma find_split (P : HwHookSession -> bool) l s : List.find P l = Some s -> NoDup (List.map ref l) ->
  P s = true /\ exists a b, l = a ++ s :: b /\ (forall s', ref s' = ref s -> update s' l = a ++ s' :: b) /\ erase s l = a ++ b.
Proof.
  intros Hf Hn. apply List.find_some in Hf as [Hin HP]. split; [done|]. apply List.in_split in Hin as (a & b & ->). exists a, b. split; [done|].
  by apply update_mid.
Qed.

(** ** Replacing and removing a session *)

Lemma Inv_parts m a s b : Inv m -> sessions m = a ++ s :: b ->
  NoDup (own s) /\ NoDup (owned (a ++ b)) /\ (forall p, p ∈ own s -> marked m p /\ p ∉ owned (a ++ b)) /\
  (forall p, p ∈ owned (a ++ b) -> marked m p) /\ stepping_ok s.
Proof.
  intros [] E. rewrite E in *. rewrite (owned_mid a s b) in inv_apart0, inv_marked0.
  apply list.NoDup_app in inv_apart0 as (H1 & H2 & H3). apply list.Forall_app in inv_marked0 as [H4 H5]. rewrite list.Forall_forall in H4, H5.
  apply list.Forall_app in inv_stepping0 as [_ H6]. apply list.Forall_cons in H6 as [H6 _]. split_and!; auto.
Qed.
Lemma Inv_swap m m' a s b s' : Inv m -> sessions m = a ++ s :: b -> tables_ok m' -> sessions m' = a ++ s' :: b -> next_ref m' = next_ref m ->
  ref s' = ref s -> stepping_ok s' -> NoDup (own s') -> (forall p, p ∈ own s' -> marked m' p /\ p ∉ owned (a ++ b)) ->
  (forall p, p ∈ owned (a ++ b) -> marked m p -> marked m' p) -> Inv m'.
Proof.
  intros H E Ht E' En Er Hs Hn Hp Hk. destruct (Inv_parts m a s b H E) as (_ & H2 & _ & H4 & _). destruct H as [_ H6 H7 H8 _ _]. rewrite E in *.
  split; rewrite ?E', ?En.
  - done.
  - rewrite List.map_app in *. cbn [List.map] in *. by rewrite Er.
  - apply list.Forall_app in H7 as [H7 H9]. apply list.Forall_cons in H9 as [H9 H10]. apply list.Forall_app. split; [done|]. apply list.Forall_cons. by rewrite Er.
  - apply list.Forall_app in H8 as [H8 H9]. apply list.Forall_cons in H9 as [H9 H10]. apply list.Forall_app. split; [done|]. by apply list.Forall_cons.
  - rewrite (owned_mid a s' b). apply list.NoDup_app. split; [done|]. split; [|done]. intros p Hp'. by apply Hp.
  - rewrite (owned_mid a s' b). apply list.Forall_app. rewrite !list.Forall_forall. split; [intros p Hp'; by apply Hp|intros p Hp'; apply Hk; auto].
Qed.
Lemma Inv_remove m m' a s b : Inv m -> sessions m = a ++ s :: b -> tables_ok m' -> sessions m' = a ++ b -> next_ref m' = next_ref m ->
  (forall p, p ∈ owned (a ++ b) -> marked m p -> marked m' p) -> Inv m'.
Proof.
  intros H E Ht E' En Hk. destruct (Inv_parts m a s b H E) as (_ & H2 & _ & H4 & _). destruct H as [_ H6 H7 H8 _ _]. rewrite E in *.
  split; rewrite ?E', ?En.
  - done.
  - rewrite List.map_app in *. cbn [List.map] in *. apply list.NoDup_app in H6 as (? & Hx & H6). apply list.NoDup_cons in H6 as [? H6].
    apply list.NoDup_app. split_and!; [done| |done]. intros r Hr Hr'. apply (Hx r Hr). by right.
  - apply list.Forall_app in H7 as [H7 H9]. apply list.Forall_cons in H9 as [H9 H10]. by apply list.Forall_app.
  - apply list.Forall_app in H8 as [H8 H9]. apply list.Forall_cons in H9 as [H9 H10]. by apply list.Forall_app.
  - done.
  - rewrite list.Forall_forall. intros p Hp'. apply Hk; auto.
Qed.

Lemma own_owns s p : p ∈ own s -> p ∈ owns s.
Proof. unfold own. destruct (active s); [done|]. by intros ?%elem_of_nil. Qed.
Lemma freeSlot_keeps t i m : tables_ok m -> tables_ok (freeSlot t i m) /\ sessions (freeSlot t i m) = sessions m /\ next_ref (freeSlot t i m) = next_ref m /\
  forall p, p <> (t, i) -> marked m p -> marked (freeSlot t i m) p.
Proof.
  intros H. rewrite freeSlot_eq. destruct ((0 <=? i) && (i <? 16)) eqn:E; [|done]. apply andb_true_iff in E as [E1 E2].
  destruct (set_slot_sessions t i false m) as [-> ->]. split; [by apply set_slot_ok|]. split_and!; [done..|].
  intros p Hp Hm. apply marked_set_other; [congruence|lia|done].
Qed.

Section Manager.
Context {W : Type} (gum : Gum W) (code : Z -> Z).

Lemma release_spec s m w : tables_ok m -> stepping_ok s -> exists m' w', release gum s m w = Some (m', w') /\
  tables_ok m' /\ sessions m' = sessions m /\ next_ref m' = next_ref m /\ forall p, p ∉ owns s -> marked m p -> marked m' p.
Proof.
  intros Ht Hs. unfold release. destruct ((0 <=? step_over_slot s) && (0 <? stepping_thread s)) eqn:E.
  - apply andb_true_iff in E as [E1 E2]. destruct Hs as [Hs|Hs]; [|lia]. pose proof (zset_slot BREAKPOINT m _ false Ht Hs) as Hz. cbn [slots] in Hz. rewrite Hz. cbn [mbind option_bind].
    change (set_slots BREAKPOINT (<[Z.to_nat (step_over_slot s):=false]> (bp_slots m)) m) with (set_slot BREAKPOINT (step_over_slot s) false m).
    set (m1 := set_slot _ _ _ _). assert (Ht1 : tables_ok m1) by (by apply set_slot_ok).
    destruct (freeSlot_keeps (type (config s)) (assigned_slot s) m1 Ht1) as (H1 & H2 & H3 & H4). do 2 eexists. split; [reflexivity|].
    split_and!; [done..|]. intros p Hp Hm. unfold owns in Hp. rewrite E1 in Hp. apply not_elem_of_cons in Hp as [Hp1 Hp2]. apply not_elem_of_cons in Hp2 as [Hp2 _].
    apply H4; [done|]. apply marked_set_other; [congruence|lia|done].
  - destruct (freeSlot_keeps (type (config s)) (assigned_slot s) m Ht) as (H1 & H2 & H3 & H4). do 2 eexists. split; [reflexivity|].
    split_and!; [done..|]. intros p Hp Hm. apply not_elem_of_cons in Hp as [Hp1 Hp2]. by apply H4.
Qed.

(** ** detach and detachAll *)

Definition holder (n : Z) (m : HwHookManager) : Prop := forall s, List.find (fun s => id s =? n) (sessions m) = Some s -> active s = true.
Lemma set_sessions_marked l m p : marked (set_sessions l m) p <-> marked m p.
Proof. by destruct p as [[] ?]. Qed.
Lemma set_sessions_tables l m : tables_ok m -> tables_ok (set_sessions l m).
Proof. by intros []. Qed.
Lemma detach_inv n m w : Inv m -> holder n m -> exists b m' w', detach gum n m w = Some (b, m', w') /\ Inv m'.
Proof.
  intros H Hh. unfold detach. destruct (List.find _ _) as [s|] eqn:E; [|by do 3 eexists].
  apply Hh in E as Ha. destruct (find_split _ _ _ E (inv_refs m H)) as (_ & a & b & Hl & _ & He).
  destruct (Inv_parts m a s b H Hl) as (_ & _ & Hp & _ & Hs).
  destruct (release_spec s m w (inv_tables m H) Hs) as (m1 & w1 & -> & H1 & H2 & H3 & H4). cbn [mbind option_bind]. do 3 eexists. split; [reflexivity|].
  eapply (Inv_remove m _ a s b H Hl); [by apply set_sessions_tables|cbn [set_sessions sessions]; by rewrite H2, He|done|]. intros p Hin Hm. rewrite set_sessions_marked. apply H4; [|done].
  intros Hq. destruct (Hp p) as [_ Hx]; [unfold own; by rewrite Ha|done].
Qed.
Lemma release_all_spec l : Forall stepping_ok l -> forall m w, tables_ok m -> exists m' w', release_all gum l m w = Some (m', w') /\
  tables_ok m' /\ sessions m' = sessions m /\ next_ref m' = next_ref m.
Proof.
  induction 1 as [|s l Hs H IH]; intros m w Ht; [by do 2 eexists|]. cbn [release_all].
  destruct (release_spec s m w Ht Hs) as (m1 & w1 & -> & H1 & H2 & H3 & _). cbn [mbind option_bind].
  destruct (IH m1 w1 H1) as (m2 & w2 & -> & H4 & H5 & H6). do 2 eexists. split; [reflexivity|]. split_and!; congruence || done.
Qed.
Lemma detachAll_inv m w : Inv m -> exists n m' w', detachAll gum m w = Some (n, m', w') /\ Inv m' /\ sessions m' = [].
Proof.
  intros H. unfold detachAll. destruct (release_all_spec (sessions m) (inv_stepping m H) m w (inv_tables m H)) as (m1 & w1 & -> & [] & H2 & H3).
  cbn [mbind option_bind]. do 3 eexists. split; [reflexivity|]. split; [|done]. split; cbn; try constructor; cbn; rewrite ?List.length_map; done.
Qed.

(** ** Arming *)

(** The same but for the armed threads. *)
Definition as_armed (s s' : HwHookSession) : Prop := s' = set_armed (armed_threads s') s.
Lemma as_armed_trans s s1 s2 : as_armed s s1 -> as_armed s1 s2 -> as_armed s s2.
Proof. unfold as_armed. intros -> ->. done. Qed.
Lemma as_armed_own s s' : as_armed s s' -> own s' = own s /\ ref s' = ref s /\ (stepping_ok s' <-> stepping_ok s).
Proof. by intros ->. Qed.
Lemma armOnThread_as s t w ok s' w' : armOnThread gum s t w = (ok, s', w') -> as_armed s s'.
Proof. unfold armOnThread. destruct (set_hook gum s t w) as [[] ?]; intros [= <- <- <-]; by destruct s. Qed.
Lemma arm_all_as tids : forall s w n s' w', arm_all gum tids s w = (n, s', w') -> as_armed s s'.
Proof.
  induction tids as [|t tids IH]; intros s w n s' w'; cbn [arm_all]; [intros [= <- <- <-]; by destruct s|].
  destruct (armOnThread gum s t w) as [[ok s1] w1] eqn:E1. destruct (arm_all gum tids s1 w1) as [[n2 s2] w2] eqn:E2. intros [= <- <- <-].
  apply armOnThread_as in E1. apply IH in E2. by eapply as_armed_trans.
Qed.
Lemma rearm_session_as tids : forall s w n s' w', rearm_session gum tids s w = (n, s', w') -> as_armed s s'.
Proof.
  induction tids as [|t tids IH]; intros s w n s' w'; cbn [rearm_session]; [intros [= <- <- <-]; by destruct s|]. destruct (_ || _); [apply IH|].
  destruct (armOnThread gum s t w) as [[ok s1] w1] eqn:E1. destruct (rearm_session gum tids s1 w1) as [[n2 s2] w2] eqn:E2. intros [= <- <- <-].
  apply armOnThread_as in E1. apply IH in E2. by eapply as_armed_trans.
Qed.
Lemma rearm_list_as tids l : forall w n l' w', rearm_list gum tids l w = (n, l', w') -> Forall2 as_armed l l'.
Proof.
  induction l as [|s l IH]; intros w n l' w'; cbn [rearm_list]; [intros [= <- <- <-]; constructor|].
  destruct (if active s then _ else _) as [[n1 s1] w1] eqn:E1. destruct (rearm_list gum tids l w1) as [[n2 l2] w2] eqn:E2. intros [= <- <- <-].
  constructor; [|by eapply IH]. destruct (active s); [by eapply rearm_session_as|]. injection E1 as <- <- <-. by destruct s.
Qed.
Lemma Inv_as_armed m l : Inv m -> Forall2 as_armed (sessions m) l -> Inv (set_sessions l m).
Proof.
  intros [] H. assert (E : owned l = owned (sessions m) /\ List.map ref l = List.map ref (sessions m)).
  { clear -H. induction H as [|s s' l l' Hs H [IH1 IH2]]; [done|]. apply as_armed_own in Hs as (E1 & E2 & _). unfold owned in *. cbn [List.map concat]. by rewrite IH1, IH2, E1, E2. }
  destruct E as [E1 E2]. split; cbn [sessions set_sessions next_ref].
  - by apply set_sessions_tables.
  - by rewrite E2.
  - clear -H inv_fresh0. induction H as [|s s' l l' Hs H IH]; [constructor|]. apply list.Forall_cons in inv_fresh0 as [H1 H2]. apply list.Forall_cons.
    apply as_armed_own in Hs as (_ & -> & _). auto.
  - clear -H inv_stepping0. induction H as [|s s' l l' Hs H IH]; [constructor|]. apply list.Forall_cons in inv_stepping0 as [H1 H2]. apply list.Forall_cons.
    apply as_armed_own in Hs as (_ & _ & ->). auto.
  - by rewrite E1.
  - rewrite E1. eapply list.Forall_impl; [done|]. intros p. by rewrite set_sessions_marked.
Qed.
Lemma rearm_inv m w n m' w' : Inv m -> rearmMissingThreads gum m w = (n, m', w') -> Inv m'.
Proof.
  intros H. unfold rearmMissingThreads. destruct (negb (initialized m)); [by intros [= <- <- <-]|].
  destruct (rearm_list gum _ _ w) as [[n1 l] w1] eqn:E. intros [= <- <- <-]. apply Inv_as_armed; [done|]. by eapply rearm_list_as.
Qed.

(** ** attach *)

Lemma set_slot_marked_back t i m p : ~ marked m (t, i) -> 0 <= i -> marked m p -> marked (set_slot t i true m) p.
Proof. intros Hn Hi Hm. apply marked_set_other; [congruence|lia|done]. Qed.
Lemma init_inv m w : Inv m -> exists b m', init gum m w = (b, m') /\ Inv m' /\ sessions m' = sessions m.
Proof.
  intros H. unfold init. destruct (initialized m); [by do 2 eexists|]. destruct (negb _); [by do 2 eexists|]. do 2 eexists. split; [reflexivity|]. split; [|done].
  destruct H as [[] H2 H3 H4 H5 H6]. split; cbn; try done.
Qed.
(** A slot is taken and a session put at the end. *)
Definition taken (m : HwHookManager) (t : HwHookType) (k : Z) : HwHookManager :=
  let m := set_slot t k true m in
  MkHwHookManager (initialized m) (U32 (next_id m + 1)) (bp_capacity m) (wp_capacity m) (bp_slots m) (wp_slots m) (sessions m) (next_ref m + 1).
Lemma taken_marked m t k p : marked (taken m t k) p <-> marked (set_slot t k true m) p.
Proof. by destruct p as [[] ?]. Qed.
Lemma taken_inv m t k : Inv m -> 0 <= k < 16 -> ~ marked m (t, k) -> Inv (taken m t k).
Proof.
  intros [] Hk Hn. assert (E : sessions (taken m t k) = sessions m /\ next_ref (taken m t k) = next_ref m + 1) by (by destruct t). destruct E as [E1 E2].
  split; rewrite ?E1, ?E2; try done.
  - pose proof (set_slot_ok t k true m inv_tables0) as []. by split.
  - rewrite list.Forall_forall in *. intros s Hs. specialize (inv_fresh0 s Hs). cbv beta in *. lia.
  - rewrite list.Forall_forall in *. intros p Hp. rewrite taken_marked. apply set_slot_marked_back; [done|lia|auto].
Qed.
Lemma append_inv m t k s : Inv m -> 0 <= k < 16 -> ~ marked m (t, k) -> as_armed (MkHwHookSession (next_ref m) (id s) (config s) k true [] (-1) 0 0) s ->
  type (config s) = t -> Inv (set_sessions (sessions m ++ [s]) (taken m t k)).
Proof.
  intros H Hk Hn Hs Ht. pose proof (inv_tables m H) as H_tables. pose proof (taken_inv m t k H Hk Hn) as []. assert (E : sessions (taken m t k) = sessions m /\ next_ref (taken m t k) = next_ref m + 1) by (by destruct t).
  destruct E as [E1 E2]. rewrite E1, E2 in *. assert (Ho : owned (sessions m ++ [s]) = owned (sessions m) ++ [(t, k)]).
  { rewrite owned_app. f_equal. rewrite Hs, <- Ht. done. }
  assert (Hr : ref s = next_ref m) by (by rewrite Hs). destruct H as [_ _ H3 _ _ H6]. rewrite list.Forall_forall in H3.
  split; cbn [sessions set_sessions next_ref]; rewrite ?E2.
  - by apply set_sessions_tables.
  - rewrite List.map_app. apply list.NoDup_app. split; [done|]. split; [|apply NoDup_singleton]. cbn [List.map]. intros r Hin ->%list_elem_of_singleton.
    apply list_elem_of_In, List.in_map_iff in Hin as (s' & E & Hin). apply list_elem_of_In in Hin. specialize (H3 s' Hin). cbv beta in H3. lia.
  - apply list.Forall_app. split; [done|]. apply list.Forall_singleton. lia.
  - apply list.Forall_app. split; [done|]. apply list.Forall_singleton. right. by rewrite Hs.
  - rewrite Ho. apply list.NoDup_app. split; [done|]. split; [|apply NoDup_singleton]. intros p Hin ->%list_elem_of_singleton.
    rewrite list.Forall_forall in H6. by apply Hn, H6.
  - rewrite Ho. apply list.Forall_app. split.
    + eapply list.Forall_impl; [done|]. intros p. by rewrite set_sessions_marked.
    + apply list.Forall_singleton. rewrite set_sessions_marked, taken_marked. apply marked_set_same; [exact H_tables|done].
Qed.
Lemma untaken_inv m t k : Inv m -> 0 <= k < 16 -> ~ marked m (t, k) -> Inv (freeSlot t k (taken m t k)).
Proof.
  intros H Hk Hn. pose proof (taken_inv m t k H Hk Hn) as Hi. destruct (freeSlot_keeps t k _ (inv_tables _ Hi)) as (H1 & H2 & H3 & H4).
  destruct Hi as [T1 T2 T3 T4 T5 T6]. split; rewrite ?H2, ?H3; try done. rewrite list.Forall_forall in *. intros p Hp. apply H4; [|auto].
  intros ->. assert (E : sessions (taken m t k) = sessions m) by (by destruct t). rewrite E in Hp. destruct H as [_ _ _ _ _ H6]. rewrite list.Forall_forall in H6. by apply Hn, H6.
Qed.
Lemma attach_inv c m w : Inv m -> exists n m' w', attach gum c m w = Some (n, m', w') /\ Inv m'.
Proof.
  intros H0. unfold attach. destruct (init_inv m w H0) as (b & m1 & -> & H & _). clear m H0. rename m1 into m. destruct (negb b); [by do 3 eexists|].
  destruct (_ || _); [by do 3 eexists|]. destruct (List.find _ _) as [s|] eqn:E.
  - do 3 eexists. split; [reflexivity|]. destruct (find_split _ _ _ E (inv_refs m H)) as (_ & a & b' & Hl & Hu & _).
    destruct (Inv_parts m a s b' H Hl) as (P1 & P2 & P3 & P4 & P5). eapply (Inv_swap m _ a s b' (reuse c s) H Hl); try done.
    + by apply set_sessions_tables, inv_tables.
    + cbn [sessions set_sessions]. by apply Hu.
  - destruct (allocateSlot_spec (type c) (slot c) m (inv_tables m H)) as [->|(k & Hk & _ & Hn & ->)]; cbn [mbind option_bind]; [by do 3 eexists|].
    assert (Hk16 : 0 <= k < 16) by (pose proof (capacity_bound (type c) m (inv_tables m H)); lia).
    set (s0 := MkHwHookSession _ _ _ _ _ _ _ _ _).
    destruct (if 0 <? thread_id c then _ else _) as [[ok s] w1] eqn:Ea.
    assert (Hs : as_armed s0 s).
    { destruct (0 <? thread_id c); [by eapply armOnThread_as|]. destruct (arm_all gum _ s0 w) as [[n2 s2] w2] eqn:E2. injection Ea as <- <- <-. by eapply arm_all_as. }
    assert (Hc : config s = c) by (by rewrite Hs). assert (Hrf : next_ref (set_slot (type c) k true m) = next_ref m /\ sessions (set_slot (type c) k true m) = sessions m) by (by destruct (type c)).
    destruct ok; do 3 eexists; (split; [reflexivity|]).
    + change (Inv (set_sessions (sessions (set_slot (type c) k true m) ++ [s]) (taken m (type c) k))). rewrite (proj2 Hrf). apply append_inv; [done..| |by rewrite Hc].
      unfold as_armed in *. rewrite Hs at 1. subst s0. unfold set_armed at 1. cbn. by rewrite (proj1 Hrf), Hc, Hs.
    + by apply untaken_inv.
Qed.

(** ** Exceptions *)

(** The one case the code leaves undefined. *)
Definition erased_while_visited (d : Details) (m : HwHookManager) : Prop :=
  exists s, s ∈ sessions m /\ active s = true /\ once (config s) = true /\ thread_id (config s) = 0 /\ exists t, t ∈ armed_threads s /\ t <> tid d.
Lemma hit_inv d m w : Inv m -> tid d <> 0 ->
  match hit gum d m w with Some (_, m', _) => Inv m' | None => erased_while_visited d m end.
Proof.
  intros H Hd. unfold hit. destruct (List.find (steps_over d) _) as [s|] eqn:E.
  - destruct (find_split _ _ _ E (inv_refs m H)) as (HP & a & b & Hl & Hu & _). destruct (Inv_parts m a s b H Hl) as (P1 & P2 & P3 & P4 & P5).
    unfold steps_over in HP. apply andb_true_iff in HP as [HP _]. apply andb_true_iff in HP as [Ha HP]. apply Z.eqb_eq in HP.
    destruct P5 as [Hr|Hr]; [|congruence]. pose proof (zset_slot BREAKPOINT m _ false (inv_tables m H) Hr) as Hz. cbn [slots] in Hz. rewrite Hz. cbn [mbind option_bind].
    change (set_slots BREAKPOINT (<[Z.to_nat (step_over_slot s):=false]> (bp_slots m)) m) with (set_slot BREAKPOINT (step_over_slot s) false m).
    assert (Ho : owns s = (type (config s), assigned_slot s) :: [(BREAKPOINT, step_over_slot s)]) by (unfold owns; by replace (0 <=? step_over_slot s) with true by lia).
    assert (Hown : own s = owns s) by (unfold own; by rewrite Ha). rewrite Hown, Ho in P1, P3.
    eapply (Inv_swap m _ a s b (set_step (-1) 0 0 s) H Hl); try done.
    + by apply set_sessions_tables, set_slot_ok, inv_tables.
    + cbn [sessions set_sessions]. by apply Hu.
    + by right.
    + unfold own. cbn [active set_step]. rewrite Ha. apply NoDup_singleton.
    + intros p. unfold own. cbn [active set_step]. rewrite Ha. intros ->%list_elem_of_singleton. cbn [type config assigned_slot set_step]. split; [|apply P3; by left].
      rewrite set_sessions_marked, marked_set_other; [apply P3; by left| |lia]. apply list.NoDup_cons in P1 as [P1 _]. intros Eq. apply P1. rewrite <- Eq. by left.
    + intros p Hp Hm. rewrite set_sessions_marked, marked_set_other; [done| |lia]. intros <-. destruct (P3 (BREAKPOINT, step_over_slot s)) as [_ Hx]; [by right; left|done].
  - destruct (List.find (matches d) _) as [s|] eqn:E2; [|done]. destruct (find_split _ _ _ E2 (inv_refs m H)) as (HP & a & b & Hl & _ & He).
    destruct (once (config s)) eqn:Eo; [|done]. unfold finish_once, disarmOnThread. destruct (unset_hook gum s (tid d) w) as [? w1].
    apply andb_true_iff in HP as [Ha _]. cbn [config set_armed armed_threads].
    destruct ((thread_id (config s) =? 0) && _) eqn:Ec; cbn [mbind option_bind].
    + apply andb_true_iff in Ec as [Ec1 Ec2]. apply Z.eqb_eq in Ec1. apply negb_true_iff, bool_decide_eq_false in Ec2. exists s. split; [rewrite Hl; apply elem_of_app; right; by left|]. split_and!; [done..|].
      destruct (set_erase (tid d) (armed_threads s)) as [|t l] eqn:Es; [done|]. exists t. assert (Hin : In t (set_erase (tid d) (armed_threads s))) by (rewrite Es; by left).
      apply List.filter_In in Hin as [Hin Hne]. apply list_elem_of_In in Hin. split; [done|]. destruct (Z.eqb_spec t (tid d)); done.
    + destruct (Inv_parts m a s b H Hl) as (P1 & P2 & P3 & P4 & P5). destruct (freeSlot_keeps (type (config s)) (assigned_slot s) m (inv_tables m H)) as (H1 & H2 & H3 & H4).
      eapply (Inv_remove m _ a s b H Hl); try done; [by apply set_sessions_tables|]. intros p Hp Hm. rewrite set_sessions_marked. apply H4; [|done].
      intros ->. destruct (P3 (type (config s), assigned_slot s)) as [_ Hx]; [unfold own; rewrite Ha; by left|done].
Qed.
Lemma resume_inv p c m w : Inv m -> exists c' m' w', resume gum code p c m w = Some (c', m', w') /\ Inv m'.
Proof.
  intros H. unfold resume. destruct (was_once p); [by do 3 eexists|]. destruct (List.find _ _) as [s|] eqn:E; [|by do 3 eexists].
  destruct (find_split _ _ _ E (inv_refs m H)) as (HP & a & b & Hl & Hu & _). apply andb_true_iff in HP as [_ Ha].
  destruct (Inv_parts m a s b H Hl) as (P1 & P2 & P3 & P4 & P5). set (but := match type (config s) with BREAKPOINT => Some (assigned_slot s) | WATCHPOINT => None end).
  pose proof (tb_bp_capacity _ (inv_tables m H)) as Hcap.
  destruct (free_bp_spec m but (inv_tables m H) (Z.to_nat (bp_capacity m)) 0 ltac:(lia) ltac:(lia)) as (k & -> & Hk). cbn [mbind option_bind]. destruct k as [k|].
  - destruct (Hk k eq_refl) as (Hr & Hn & _). pose proof (zset_slot BREAKPOINT m k true (inv_tables m H) Hr) as Hz. cbn [slots] in Hz. rewrite Hz. cbn [mbind option_bind].
    change (set_slots BREAKPOINT (<[Z.to_nat k:=true]> (bp_slots m)) m) with (set_slot BREAKPOINT k true m). do 3 eexists. split; [reflexivity|].
    assert (Hfst : (type (config s), assigned_slot s) ∈ own s) by (unfold own; rewrite Ha; by left). set (s' := set_step _ _ _ _).
    assert (Hown : own s' = [(type (config s), assigned_slot s); (BREAKPOINT, k)]).
    { unfold own, owns. subst s'. cbn. rewrite Ha. by replace (0 <=? k) with true by lia. }
    eapply (Inv_swap m _ a s b s' H Hl); try done.
    + by apply set_sessions_tables, set_slot_ok, inv_tables.
    + cbn [sessions set_sessions]. by apply Hu.
    + by left.
    + rewrite Hown. apply list.NoDup_cons. split; [|apply NoDup_singleton]. intros Eq%list_elem_of_singleton. apply Hn. rewrite <- Eq. by apply P3.
    + rewrite Hown. intros q Hq. rewrite set_sessions_marked. apply elem_of_cons in Hq as [->|Hq].
      * split; [|by apply P3]. apply set_slot_marked_back; [done|lia|by apply P3].
      * apply list_elem_of_singleton in Hq as ->. split; [by apply marked_set_same; [apply inv_tables|]|]. intros Hq. by apply Hn, P4.
    + intros q Hq Hm. rewrite set_sessions_marked. apply set_slot_marked_back; [done|lia|done].
  - destruct (type (config s)) eqn:Et; [by do 3 eexists|]. do 3 eexists. split; [reflexivity|].
    set (m1 := set_sessions _ m). destruct (freeSlot_keeps WATCHPOINT (assigned_slot s) m1) as (H1 & H2 & H3 & H4); [by apply set_sessions_tables, inv_tables|].
    eapply (Inv_swap m _ a s b (set_active false s) H Hl); try done.
    + rewrite H2. subst m1. cbn [sessions set_sessions]. by apply Hu.
    + constructor.
    + intros q Hq. by apply elem_of_nil in Hq.
    + intros q Hq Hm. apply H4; [|by apply set_sessions_marked]. intros ->. destruct (P3 (WATCHPOINT, assigned_slot s)) as [_ Hx]; [|done].
      unfold own. rewrite Ha. unfold owns. rewrite Et. by left.
Qed.

(** ** Any order of operations *)

(** The thread of an exception is not 0; detach is not called with the number
    of a watchpoint that has been given up. *)
Definition sane (o : Op (W := W)) (m : HwHookManager) : Prop :=
  match o with Detach n => holder n m | Exception d => tid d <> 0 | _ => True end.
Fixpoint sane_run (l : list Op) (st : State) : Prop :=
  match l with
  | [] => True
  | o :: l => sane o (manager st) /\ match step gum code o st with Some st => sane_run l st | None => True end
  end.
Lemma refresh_inv bp wp m : Inv m -> Inv (refreshCapacity bp wp m).
Proof.
  intros H. unfold refreshCapacity. destruct (negb (initialized m)); [done|]. destruct H as [[] H2 H3 H4 H5 H6]. split; cbn; try done.
  split; cbn; try done; unfold kMaxHwSlots; [destruct (Z.ltb_spec 0 bp)|destruct (Z.ltb_spec 0 wp)]; lia.
Qed.
Lemma step_inv o st : Inv (manager st) -> sane o (manager st) ->
  match step gum code o st with Some st' => Inv (manager st') | None => exists d, o = Exception d /\ erased_while_visited d (manager st) end.
Proof.
  intros H Hs. destruct o as [c|n| | |bp wp|w|d|k c]; cbn [step sane] in *.
  - by destruct (attach_inv c (manager st) (world st) H) as (? & ? & ? & -> & ?).
  - by destruct (detach_inv n (manager st) (world st) H Hs) as (? & ? & ? & -> & ?).
  - by destruct (detachAll_inv (manager st) (world st) H) as (? & ? & ? & -> & ? & ?).
  - destruct (rearmMissingThreads gum (manager st) (world st)) as [[n m] w] eqn:E. by eapply rearm_inv.
  - by apply refresh_inv.
  - done.
  - pose proof (hit_inv d (manager st) (world st) H Hs) as Hh. destruct (hit gum d _ _) as [[[h m] w]|]; [done|]. by exists d.
  - destruct (running st !! k) as [p|]; [|done]. by destruct (resume_inv p c (manager st) (world st) H) as (? & ? & ? & -> & ?).
Qed.
Lemma start_inv (w : W) : Inv (manager (start w)).
Proof. split; cbn; try constructor; cbn; done. Qed.
Lemma steps_inv l : forall st st', Inv (manager st) -> sane_run l st -> steps gum code l st = Some st' -> Inv (manager st').
Proof.
  induction l as [|o l IH]; intros st st' H Hs E; [by injection E as <-|]. cbn [steps sane_run] in *. destruct Hs as [Ho Hs].
  pose proof (step_inv o st H Ho) as Hi. destruct (step gum code o st) as [st1|]; [|done]. by eapply IH.
Qed.


End Manager.

End HwHookProofs.
