(* ===== verification/HwStep.v ===== *)
(** * Step-over

    A recurring hook is back in place behind its instruction, for any
    implementation of the debug registers (the class [DebugRegisters]); where
    the borrowed breakpoint is set, against the branches of arm64; and a
    processor with two threads, on which the hypotheses hold. *)
From stdpp Require Import strings.
From S2P Require Import Prelude.
From S2P Require Import Arm64.
From S2P Require Import HwHook.
From S2P Require Import HwHookProofs.
Import HwHook HwHookProofs.
Local Open Scope cint_scope.

Module HwStep.

(** ** Step-over *)

(** What Frida documents of its functions: they act on one comparator of one
    thread, and succeed for a live thread. *)
Class DebugRegisters {W : Type} (gum : Gum W) := {
  alive : W -> Z -> Prop;
  register : W -> Z -> HwHookType -> Z -> option (Z * Z * Z);
  acts (t : Z) (y : HwHookType) (k : Z) (v : option (Z * Z * Z)) (f : W -> bool * W) : Prop :=
    forall w, alive w t -> (forall u, alive (snd (f w)) u <-> alive w u) /\ register (snd (f w)) t y k = v /\
      (forall u z j, (u, z, j) <> (t, y, k) -> register (snd (f w)) u z j = register w u z j);
  set_breakpoint_acts t k a : acts t BREAKPOINT k (Some (a, 0, 0)) (set_breakpoint gum t k a);
  unset_breakpoint_acts t k : acts t BREAKPOINT k None (unset_breakpoint gum t k);
  set_watchpoint_acts t k a n c : acts t WATCHPOINT k (Some (a, n, c)) (set_watchpoint gum t k a n c);
  unset_watchpoint_acts t k : acts t WATCHPOINT k None (unset_watchpoint gum t k) }.

Section StepOver.
Context {W : Type} (gum : Gum W) (code : Z -> Z) `{!DebugRegisters gum}.

(** What a hook puts into its comparator. *)
Definition armed_value (s : HwHookSession) : Z * Z * Z :=
  match type (config s) with
  | BREAKPOINT => (address (config s), 0, 0)
  | WATCHPOINT => (address (config s), size (config s), gum_condition (condition (config s)))
  end.
Lemma set_hook_acts s t : acts t (type (config s)) (assigned_slot s) (Some (armed_value s)) (set_hook gum s t).
Proof. unfold set_hook, armed_value. destruct (type (config s)); [apply set_breakpoint_acts|apply set_watchpoint_acts]. Qed.
Lemma unset_hook_acts s t : acts t (type (config s)) (assigned_slot s) None (unset_hook gum s t).
Proof. unfold unset_hook. destruct (type (config s)); [apply unset_breakpoint_acts|apply unset_watchpoint_acts]. Qed.

Lemma find_none (P : HwHookSession -> bool) l : Forall (fun s => P s = false) l -> List.find P l = None.
Proof. induction 1 as [|s l Hs H IH]; [done|]. cbn [List.find]. by rewrite Hs. Qed.
Lemma find_mid (P : HwHookSession -> bool) a s b : Forall (fun s => P s = false) a -> P s = true -> List.find P (a ++ s :: b) = Some s.
Proof. intros Ha Hs. induction Ha as [|c a Hc Ha IH]; cbn [app List.find]; [by rewrite Hs|by rewrite Hc]. Qed.
Lemma free_bp_found m but : tables_ok m -> forall f i k, 0 <= i -> i + Z.of_nat f <= 16 -> i <= k < i + Z.of_nat f -> ~ marked m (BREAKPOINT, k) -> but <> Some k ->
  exists j, free_bp (bp_slots m) but f i = Some (Some j).
Proof.
  intros H. induction f as [|f IH]; intros i k Hi Hf Hk Hn Hb; [lia|]. cbn [free_bp].
  destruct (slot_defined BREAKPOINT m i H ltac:(lia)) as [b E]. cbn [slots] in E. rewrite E. cbn [mbind option_bind].
  destruct (negb b && _) eqn:Eb; [by exists i|]. apply (IH (i + 1) k); try done; [lia|lia|]. destruct (decide (i = k)) as [->|]; [|lia]. exfalso.
  unfold marked in Hn. cbn in Hn. rewrite E in Hn. destruct b; [done|]. cbn [negb andb] in Eb. apply negb_false_iff, bool_decide_eq_true in Eb. done.
Qed.
Lemma set_slot_back t k m : tables_ok m -> 0 <= k < 16 -> ~ marked m (t, k) -> <[Z.to_nat k := false]> (<[Z.to_nat k := true]> (slots t m)) = slots t m.
Proof.
  intros H Hk Hn. rewrite list_insert_insert_eq. apply list_insert_id. destruct (slot_defined t m k H Hk) as [b E]. unfold marked in Hn. cbn in Hn. rewrite E in Hn.
  unfold zlookup in E. replace (0 <=? k) with true in E by lia. rewrite E. by destruct b.
Qed.

(** A session that steps over, with the slot [j]. *)
Definition borrowed (s' : HwHookSession) (j : Z) (m : HwHookManager) : HwHookManager :=
  set_sessions (update s' (sessions m)) (set_slot BREAKPOINT j true m).
Lemma steps_over_other d s : stepping_thread s <> tid d -> steps_over d s = false.
Proof. intros H. unfold steps_over. replace (stepping_thread s =? tid d) with false by (symmetry; by apply Z.eqb_neq). by rewrite andb_false_r. Qed.
Lemma hit_callback m w s d : Forall (fun s => stepping_thread s <> tid d) (sessions m) -> List.find (matches d) (sessions m) = Some s ->
  once (config s) = false -> hit gum d m w = Some (Callback (MkPending (ref s) false d), m, w).
Proof.
  intros H E Ho. unfold hit. rewrite find_none, E, Ho; [done|]. eapply list.Forall_impl; [exact H|]. intros a. apply steps_over_other.
Qed.
Lemma find_ref m s a b : Inv m -> sessions m = a ++ s :: b -> active s = true -> List.find (fun s0 => (ref s0 =? ref s) && active s0) (sessions m) = Some s.
Proof.
  intros H Hl Ha. rewrite Hl. apply find_mid; [|by rewrite Z.eqb_refl, Ha]. pose proof (inv_refs m H) as Hnd. rewrite Hl, List.map_app in Hnd. cbn [List.map] in Hnd.
  apply list.NoDup_app in Hnd as (_ & Hx & _). apply list.Forall_forall. intros s0 Hin. destruct (Z.eqb_spec (ref s0) (ref s)) as [Eq|]; [|done].
  exfalso. apply (Hx (ref s0)); [apply list_elem_of_In, List.in_map, list_elem_of_In, Hin|rewrite Eq; by left].
Qed.
Lemma resume_borrows m w s d c k a b : Inv m -> sessions m = a ++ s :: b -> active s = true -> 0 <= k < bp_capacity m -> ~ marked m (BREAKPOINT, k) ->
  let c' := write_back c (context d) in let next := step_target code (type (config s)) d c' in
  exists j, 0 <= j < 16 /\ ~ marked m (BREAKPOINT, j) /\
    resume gum code (MkPending (ref s) false d) c m w =
    Some (c', borrowed (set_step j next (tid d) s) j m, snd (set_breakpoint gum (tid d) j next (snd (unset_hook gum s (tid d) w)))).
Proof.
  intros H Hl Ha Hk Hn c' next. destruct (Inv_parts m a s b H Hl) as (_ & _ & P3 & _ & _).
  set (but := match type (config s) with BREAKPOINT => Some (assigned_slot s) | WATCHPOINT => None end).
  assert (Hmk : marked m (type (config s), assigned_slot s)) by (apply P3; unfold own; rewrite Ha; by left).
  assert (Hbut : but <> Some k) by (subst but; destruct (type (config s)); [intros [= <-]; done|done]).
  pose proof (tb_bp_capacity _ (inv_tables m H)) as Hcap.
  destruct (free_bp_found m but (inv_tables m H) (Z.to_nat (bp_capacity m)) 0 k ltac:(lia) ltac:(lia) ltac:(lia) Hn Hbut) as [j Ej].
  destruct (free_bp_spec m but (inv_tables m H) (Z.to_nat (bp_capacity m)) 0 ltac:(lia) ltac:(lia)) as (r & Er & Hr). rewrite Ej in Er. injection Er as <-.
  destruct (Hr j eq_refl) as (Hj & Hnj & _). exists j. split; [done|]. split; [done|].
  unfold resume. cbn [was_once of_ref details]. rewrite (find_ref m s a b H Hl Ha). fold but. rewrite Ej. cbn [mbind option_bind]. fold c'. fold next.
  pose proof (zset_slot BREAKPOINT m j true (inv_tables m H) Hj) as Hz. cbn [slots] in Hz. by rewrite Hz.
Qed.
Lemma hit_gives_back m w s d j a b : Inv m -> sessions m = a ++ s :: b -> active s = true -> 0 <= j < 16 -> ~ marked m (BREAKPOINT, j) ->
  step_over_slot s = -1 -> step_over_pc s = 0 -> stepping_thread s = 0 -> Forall (fun s => stepping_thread s <> tid d) (sessions m) ->
  hit gum d (borrowed (set_step j (fault_addr d) (tid d) s) j m) w = Some (Handled, m, snd (set_hook gum s (tid d) (snd (unset_breakpoint gum (tid d) j w)))).
Proof.
  intros H Hl Ha Hj Hnj Hs1 Hs2 Hs3 Hns. set (s' := set_step j (fault_addr d) (tid d) s).
  assert (Hup : forall s0, ref s0 = ref s -> update s0 (sessions m) = a ++ s0 :: b).
  { pose proof (inv_refs m H) as Hnd. rewrite Hl in *. apply (update_mid a s b Hnd). }
  assert (Hfind : List.find (steps_over d) (update s' (sessions m)) = Some s').
  { rewrite (Hup s' eq_refl). rewrite Hl in Hns. apply list.Forall_app in Hns as [Hna _]. apply find_mid.
    - eapply list.Forall_impl; [exact Hna|]. intros s0. apply steps_over_other.
    - unfold steps_over. subst s'. cbn [set_step active stepping_thread step_over_pc]. rewrite Ha. by rewrite !Z.eqb_refl. }
  unfold hit, borrowed. cbn [sessions set_sessions]. rewrite Hfind. cbn [step_over_slot set_step s'].
  pose proof (set_slot_ok BREAKPOINT j true m (inv_tables m H)) as Hok. pose proof (zset_slot BREAKPOINT _ j false Hok Hj) as Hz2. cbn [slots] in Hz2.
  change (bp_slots (set_sessions _ ?x)) with (bp_slots x). rewrite Hz2. cbn [mbind option_bind].
  assert (Hsame : set_step (-1) 0 0 s' = s) by (subst s'; destruct s; cbn in *; by subst). change (set_step (-1) 0 0 (set_step j _ _ s)) with (set_step (-1) 0 0 s').
  assert (Hback : update s (update s' (sessions m)) = sessions m).
  { rewrite <- (Hup s eq_refl) in Hl. rewrite Hl at 2. unfold update. rewrite List.map_map. apply List.map_ext. intros s0. change (ref s') with (ref s).
    destruct (Z.eqb_spec (ref s0) (ref s)) as [|Hne]; [change (ref s') with (ref s); by rewrite Z.eqb_refl|]. by destruct (Z.eqb_spec (ref s0) (ref s)). }
  rewrite Hsame, Hback. pose proof (set_slot_back BREAKPOINT j m (inv_tables m H) Hj Hnj) as Hsb. cbn [slots] in Hsb.
  change (bp_slots (set_slot BREAKPOINT j true m)) with (<[Z.to_nat j:=true]> (bp_slots m)). rewrite Hsb. by destruct m.
Qed.


End StepOver.

(** ** Where the thread goes *)

Abbreviation bits := Arm64.bits.
Abbreviation offset := Arm64.offset.

(** Branches of arm64, after the Arm Architecture Reference Manual; [Special]
    are pointer authentication, exception returns and what is not
    allocated. *)
Inductive flow := Direct (off : Z) | ToRegister (n : Z) (ret : bool) | Conditional (off : Z) | Special | Next.
Definition flow_of (w : Z) : flow :=
  if bits w 26 5 =? 5 then Direct (offset w 0 26)
  else if bits w 25 7 =? 107 then
    if (bits w 16 5 =? 31) && (bits w 10 6 =? 0) && (bits w 0 5 =? 0) && (bits w 21 4 <? 3)
    then ToRegister (bits w 5 5) (bits w 21 4 =? 2) else Special
  else if (bits w 25 7 =? 42) || (bits w 25 6 =? 26) then Conditional (offset w 5 19)
  else if bits w 25 6 =? 27 then Conditional (offset w 5 14)
  else Next.
Definition register_of (c : Context) (n : Z) : Z :=
  if n <? 29 then nth (Z.to_nat n) (x c) 0 else if n =? 29 then fp c else if n =? 30 then lr c else 0.
(** The instruction [w] at [a] may be followed by the one at [b]. *)
Definition follows (w a : Z) (c : Context) (b : Z) : Prop :=
  match flow_of w with
  | Direct off => b = U64 (a + off)
  | ToRegister n _ => b = register_of c n
  | Conditional off => b = U64 (a + off) \/ b = U64 (a + 4)
  | Special => True
  | Next => b = U64 (a + 4)
  end.

Lemma bits_range w lo n : 0 <= n -> 0 <= bits w lo n < 2 ^ n.
Proof. intros Hn. unfold Arm64.bits, wrap. apply Z.mod_pos_bound. lia. Qed.
Lemma land_shiftl w m k : 0 <= k -> w & (m << k) = ((w >> k) & m) << k.
Proof.
  intros Hk. apply Z.bits_inj'. intros n Hn. rewrite Z.land_spec. destruct (Z.ltb_spec n k).
  - rewrite !Z.shiftl_spec_low by lia. by rewrite andb_false_r.
  - rewrite !Z.shiftl_spec_high by lia. rewrite Z.land_spec, Z.shiftr_spec by lia. by replace (n - k + k) with n by lia.
Qed.
Lemma bits_div w lo n : 0 <= lo -> bits w lo n = (w / 2 ^ lo) mod 2 ^ n.
Proof. intros Hl. unfold Arm64.bits, wrap. by rewrite Z.shiftr_div_pow2. Qed.
Lemma masked w n k : 0 <= k -> 0 <= n -> w & ((2 ^ n - 1) << k) = bits w k n * 2 ^ k.
Proof. intros Hk Hn. rewrite land_shiftl, land_mask by done. by rewrite Z.shiftl_mul_pow2. Qed.
Lemma masked_low w n k lo : 0 <= k -> 0 <= lo <= k -> 0 <= n -> w & (((2 ^ n - 1) << k) .| (2 ^ lo - 1)) = bits w k n * 2 ^ k + bits w 0 lo.
Proof.
  intros Hk Hl Hn. rewrite Z.land_lor_distr_r, land_shiftl, !land_mask by lia. unfold Arm64.bits. rewrite Z.shiftr_0_r. apply lor_shiftl_add; [done|].
  apply (in_u_mono lo); [lia|]. apply wrap_in_u. lia.
Qed.
Lemma branch_register w v : 0 <= v < 2 ^ 22 -> (w & 0xfffffc1f =? v * 1024) = (bits w 10 22 =? v) && (bits w 0 5 =? 0).
Proof.
  intros Hv. change 0xfffffc1f with (((2 ^ 22 - 1) << 10) .| (2 ^ 5 - 1)). rewrite masked_low by lia.
  pose proof (bits_range w 10 22 ltac:(lia)). pose proof (bits_range w 0 5 ltac:(lia)). change (2 ^ 10) with 1024. change (2 ^ 5) with 32 in *.
  destruct (Z.eqb_spec (bits w 10 22 * 1024 + bits w 0 5) (v * 1024)), (Z.eqb_spec (bits w 10 22) v), (Z.eqb_spec (bits w 0 5) 0); lia.
Qed.
Lemma branch_direct w : (w & 0x7c000000 =? 0x14000000) = (bits w 26 5 =? 5).
Proof.
  change 0x7c000000 with ((2 ^ 5 - 1) << 26). rewrite (masked w) by lia. change 0x14000000 with (5 * 2 ^ 26).
  destruct (Z.eqb_spec (bits w 26 5 * 2 ^ 26) (5 * 2 ^ 26)), (Z.eqb_spec (bits w 26 5) 5); lia.
Qed.
(** The fields of a register branch. *)
Lemma field_split w lo n k : 0 <= lo -> 0 <= n -> 0 <= k -> bits w lo (n + k) = bits w (lo + n) k * 2 ^ n + bits w lo n.
Proof.
  intros Hl Hn Hk. pose proof (pow2_pos lo Hl). pose proof (pow2_pos n Hn). pose proof (pow2_pos k Hk).
  rewrite !bits_div by lia. rewrite (Z.pow_add_r 2 lo n), <- (Z.div_div w (2 ^ lo) (2 ^ n)) by lia. set (y := w / 2 ^ lo).
  rewrite Z.pow_add_r, Z.rem_mul_r by lia. ring.
Qed.
Lemma imm26_offset w : (let imm26 := w & 0x03ffffff in let imm26 := if imm26 & 0x02000000 =? 0 then imm26 else S32 (imm26 .| 0xfc000000) in S32 (imm26 << 2)) = offset w 0 26.
Proof.
  cbv zeta. change 0x03ffffff with (2 ^ 26 - 1). rewrite land_mask by lia. unfold Arm64.offset. rewrite Z.shiftr_0_r.
  assert (Hr : 0 <= wrap 26 w < 67108864) by (apply (wrap_in_u 26); lia). rewrite <- (swrap_wrap 26 w) by lia. set (i := wrap 26 w) in *.
  change 0x02000000 with ((2 ^ 1 - 1) << 25). rewrite (masked i), bits_div by lia. change (2 ^ 25) with 33554432. change (2 ^ 1) with 2.
  assert (Hs : forall z, - 536870912 <= z < 536870912 -> S32 (z << 2) = z << 2).
  { intros z Hz. apply swrap_small; [lia|]. rewrite Z.shiftl_mul_pow2 by lia. unfold in_s. change (2 ^ (32 - 1)) with 2147483648. lia. }
  destruct (Z_lt_le_dec i 33554432) as [Hi|Hi].
  - rewrite Z.div_small by lia. change (0 mod 2 * 33554432 =? 0) with true. cbv iota. rewrite Hs by lia. f_equal. symmetry. apply swrap_small; [lia|]. unfold in_s. change (2 ^ (26 - 1)) with 33554432. lia.
  - assert (Hd : i / 33554432 = 1) by (symmetry; apply (Z.div_unique _ _ _ (i - 33554432)); lia). rewrite Hd. change (1 mod 2 * 33554432 =? 0) with false. cbv iota.
    assert (Hl : i .| 0xfc000000 = i + 0xfc000000).
    { rewrite Z.lor_comm. change 0xfc000000 with (63 << 26) at 1. rewrite lor_shiftl_add; [|lia|unfold in_u; change (2 ^ 26) with 67108864; lia].
      change (2 ^ 26) with 67108864. lia. }
    rewrite Hl. assert (Hw : forall w z, wrap w (z + 2 ^ w) = wrap w z).
    { intros k z. unfold wrap. rewrite <- (Z.mul_1_l (2 ^ k)) at 1. apply Z_mod_plus_full. }
    assert (Hn : forall w, 26 <= w -> in_s w (i - 67108864)).
    { intros k Hk. unfold in_s. assert (2 ^ 25 <= 2 ^ (k - 1)) by (apply Z.pow_le_mono_r; lia). change (2 ^ 25) with 33554432 in *. lia. }
    assert (H1 : S32 (i + 0xfc000000) = i - 67108864).
    { rewrite <- (swrap_small 32 (i - 67108864)) by (lia || by apply Hn). apply swrap_cong. rewrite <- (Hw 32 (i - 67108864)). f_equal.
      change (2 ^ 32) with 4294967296. lia. }
    rewrite H1, Hs by lia. f_equal. rewrite <- (swrap_small 26 (i - 67108864)) by (lia || by apply Hn). apply swrap_cong. rewrite <- (Hw 26 (i - 67108864)). f_equal.
    change (2 ^ 26) with 67108864. lia.
Qed.
Lemma branch_fields w : bits w 10 22 = ((bits w 25 7 * 16 + bits w 21 4) * 32 + bits w 16 5) * 64 + bits w 10 6 /\
  bits w 25 7 = (bits w 31 1 * 32 + bits w 26 5) * 2 + bits w 25 1.
Proof.
  pose proof (field_split w 10 6 16 ltac:(lia) ltac:(lia) ltac:(lia)) as F1. pose proof (field_split w 16 5 11 ltac:(lia) ltac:(lia) ltac:(lia)) as F2.
  pose proof (field_split w 21 4 7 ltac:(lia) ltac:(lia) ltac:(lia)) as F3. pose proof (field_split w 25 1 6 ltac:(lia) ltac:(lia) ltac:(lia)) as F4.
  pose proof (field_split w 26 5 1 ltac:(lia) ltac:(lia) ltac:(lia)) as F5.
  change (6 + 16) with 22 in F1. change (10 + 6) with 16 in F1. change (5 + 11) with 16 in F2. change (16 + 5) with 21 in F2. change (4 + 7) with 11 in F3. change (21 + 4) with 25 in F3.
  change (1 + 6) with 7 in F4. change (25 + 1) with 26 in F4. change (5 + 1) with 6 in F5. change (26 + 5) with 31 in F5. lia.
Qed.
(** The tests of [next_pc] in terms of the fields. *)
Lemma next_pc_fields w a c : next_pc w a c =
  if (bits w 10 22 =? 0x3597c0) && (bits w 0 5 =? 0) then lr c
  else if bits w 26 5 =? 5 then U64 (a + offset w 0 26)
  else if ((bits w 10 22 =? 0x3587c0) && (bits w 0 5 =? 0)) || ((bits w 10 22 =? 0x358fc0) && (bits w 0 5 =? 0)) then
    if bits w 5 5 <? 29 then nth (Z.to_nat (bits w 5 5)) (x c) 0 else if bits w 5 5 =? 29 then fp c else if bits w 5 5 =? 30 then lr c else U64 (a + 4)
  else U64 (a + 4).
Proof.
  unfold next_pc. change 0xd65f0000 with (0x3597c0 * 1024). change 0xd61f0000 with (0x3587c0 * 1024). change 0xd63f0000 with (0x358fc0 * 1024).
  rewrite !branch_register, branch_direct by lia.
  assert (E5 : (w >> 5) & 0x1f = bits w 5 5) by (change 0x1f with (2 ^ 5 - 1); by rewrite land_mask).
  rewrite E5. pose proof (imm26_offset w) as Hi. cbv zeta in Hi |- *. by rewrite Hi.
Qed.

(** The address step-over takes for the next one is one that can follow
    the instruction: the target of a branch, whatever its offset, the
    register of a branch to a register (of a return, if that is x30), and
    else the address behind it; for a conditional branch it is always that,
    so that the breakpoint is missed when the branch is taken. *)
Theorem next_pc_follows w a c : flow_of w <> Special ->
  (forall n ret, flow_of w = ToRegister n ret -> n <> 31 /\ (ret = true -> n = 30)) ->
  follows w a c (next_pc w a c) /\ forall off, flow_of w = Conditional off -> next_pc w a c = U64 (a + 4).
Proof.
  intros Hs Hr. rewrite next_pc_fields. destruct (branch_fields w) as [F1 F2]. unfold follows, flow_of in *.
  pose proof (bits_range w 10 6 ltac:(lia)). pose proof (bits_range w 16 5 ltac:(lia)). pose proof (bits_range w 21 4 ltac:(lia)).
  pose proof (bits_range w 25 1 ltac:(lia)). pose proof (bits_range w 26 5 ltac:(lia)). pose proof (bits_range w 31 1 ltac:(lia)). pose proof (bits_range w 5 5 ltac:(lia)).
  destruct (Z.eqb_spec (bits w 26 5) 5) as [E|E].
  { replace (bits w 10 22 =? 0x3597c0) with false by lia. by split. }
  destruct (Z.eqb_spec (bits w 25 7) 107) as [E7|E7].
  - destruct (_ && _) eqn:Ec; [|done]. rewrite !andb_true_iff in Ec. destruct Ec as [[[E1 E2] E3] E4]. destruct (Hr _ _ eq_refl) as [H31 H30]. rewrite E3, !andb_true_r.
    split; [|done]. unfold register_of. destruct (Z.eqb_spec (bits w 21 4) 2) as [E5|E5].
    + replace (bits w 10 22 =? 0x3597c0) with true by lia. by rewrite H30.
    + replace (bits w 10 22 =? 0x3597c0) with false by lia. replace ((bits w 10 22 =? 0x3587c0) || (bits w 10 22 =? 0x358fc0)) with true by lia.
      destruct (bits w 5 5 <? 29) eqn:?; [done|]. destruct (bits w 5 5 =? 29) eqn:?; [done|]. by replace (bits w 5 5 =? 30) with true by lia.
  - replace (bits w 10 22 =? 0x3597c0) with false by lia. replace (bits w 10 22 =? 0x3587c0) with false by lia. replace (bits w 10 22 =? 0x358fc0) with false by lia.
    cbn [andb orb]. destruct (_ || _); [split; [by right|done]|]. destruct (bits w 25 6 =? 27); [split; [by right|done]|]. by split.
Qed.

(** ** A processor *)

(** Debug registers of live threads. *)
Record Processor := MkProcessor { threads : list Z; registers : list (Z * HwHookType * Z * (Z * Z * Z)) }.
Definition clear_register (t : Z) (y : HwHookType) (k : Z) (l : list (Z * HwHookType * Z * (Z * Z * Z))) :=
  List.filter (fun r => negb (bool_decide (fst r = (t, y, k)))) l.
Definition set_register (t : Z) (y : HwHookType) (k : Z) (v : Z * Z * Z) (w : Processor) : bool * Processor :=
  if existsb (Z.eqb t) (threads w) then (true, MkProcessor (threads w) ((t, y, k, v) :: clear_register t y k (registers w))) else (false, w).
Definition unset_register (t : Z) (y : HwHookType) (k : Z) (w : Processor) : bool * Processor :=
  if existsb (Z.eqb t) (threads w) then (true, MkProcessor (threads w) (clear_register t y k (registers w))) else (false, w).
Definition processor : Gum Processor :=
  MkGum Processor (fun t k a => set_register t BREAKPOINT k (a, 0, 0)) (fun t k => unset_register t BREAKPOINT k)
    (fun t k a n c => set_register t WATCHPOINT k (a, n, c)) (fun t k => unset_register t WATCHPOINT k) (fun _ => true) threads.

Lemma clear_finds_none t y k l : option_map snd (List.find (fun r => bool_decide (fst r = (t, y, k))) (clear_register t y k l)) = None.
Proof. unfold clear_register. induction l as [|r l IH]; [done|]. cbn [List.filter]. case_bool_decide as E; cbn [negb List.find]; [done|]. by rewrite bool_decide_false. Qed.
Lemma clear_finds_other t y k u z j l : (u, z, j) <> (t, y, k) ->
  List.find (fun r => bool_decide (fst r = (u, z, j))) (clear_register t y k l) = List.find (fun r => bool_decide (fst r = (u, z, j))) l.
Proof.
  intros H. unfold clear_register. induction l as [|r l IH]; [done|]. cbn [List.filter]. case_bool_decide as E; cbn [negb List.find].
  - rewrite IH. by rewrite (bool_decide_false (fst r = (u, z, j))) by congruence.
  - by rewrite IH.
Qed.

Definition two_threads : Processor := MkProcessor [11; 12] [].
Definition no_code (_ : Z) : Z := 0xd503201f.
Definition hook (t : HwHookType) (a : Z) (o : bool) : HwHookConfig := MkHwHookConfig t a 4 2 0 (-1) o [] (Some 1).
Definition some_context (p : Z) : Context := MkContext p 0 0 0 0 (replicate 29 0).
Definition at_pc (t p mem : Z) : Details := MkDetails t p mem (some_context p).
Definition held (st : option State) : option (list comparator) := option_map (fun st => owned (sessions (manager (W := Processor) st))) st.

(** Six breakpoints take all the slots a step-over could use; a watchpoint
    is given up, another takes its comparator, the first is detached, which
    frees the comparator, and a third takes it as well. *)
Definition six_breakpoints : list (Op (W := Processor)) := List.map (fun a => Attach (hook BREAKPOINT a false)) [0x1000; 0x2000; 0x3000; 0x4000; 0x5000; 0x6000].
Example given_up_frees_again :
  option_map (fun l => drop 6 l) (held (steps processor no_code
    (six_breakpoints ++ [Attach (hook WATCHPOINT 0x8000 false); Exception (at_pc 11 0x7000 0x8000); Resume 0 (some_context 0x7000);
      Attach (hook WATCHPOINT 0x9000 false); Detach 7; Attach (hook WATCHPOINT 0xa000 false)]) (start two_threads)))
  = Some [(WATCHPOINT, 0); (WATCHPOINT, 0)].
Proof. by vm_compute. Qed.
(** A one-shot breakpoint of two threads. *)
Example one_shot_of_all_threads :
  steps processor no_code [Attach (hook BREAKPOINT 0x1000 true); Exception (at_pc 11 0x1000 0)] (start two_threads) = None.
Proof. by vm_compute. Qed.
(** Two threads step over one breakpoint: the first thread's slot is never
    given back. *)
Example step_slot_lost :
  option_map (fun st => (bp_slots (manager st), owned (sessions (manager st)))) (steps processor no_code
    [Attach (hook BREAKPOINT 0x1000 false); Exception (at_pc 11 0x1000 0); Resume 0 (some_context 0x1000);
     Exception (at_pc 12 0x1000 0); Resume 0 (some_context 0x1000); Exception (at_pc 11 0x1004 0); Exception (at_pc 12 0x1004 0)] (start two_threads))
  = Some (true :: true :: replicate 14 false, [(BREAKPOINT, 0)]).
Proof. by vm_compute. Qed.

(** ** The hypotheses hold *)

#[export] Instance processor_registers : DebugRegisters processor.
Proof.
  refine {| alive (w : Processor) t := existsb (Z.eqb t) (threads w) = true;
            register w t y k := option_map snd (List.find (fun r => bool_decide (fst r = (t, y, k))) (registers w)) |}.
  all: intros; cbn [set_breakpoint unset_breakpoint set_watchpoint unset_watchpoint processor]; unfold set_register, unset_register;
    match goal with H : existsb _ _ = true |- _ => rewrite H end; cbn [snd threads registers List.find fst]; split; [done|]; split.
  all: rewrite ?bool_decide_true by done; try done; try (by apply clear_finds_none).
  all: intros u z j Hne; rewrite ?bool_decide_false by congruence; by rewrite clear_finds_other.
Defined.

Definition a_breakpoint : HwHookSession := MkHwHookSession 0 1 (hook BREAKPOINT 0x1000 false) 0 true [11; 12] (-1) 0 0.
Definition a_manager : HwHookManager := MkHwHookManager true 2 6 4 (true :: replicate 15 false) (replicate 16 false) [a_breakpoint] 1.
Example a_breakpoint_attached : option_map (fun st => manager st) (steps processor no_code [Attach (hook BREAKPOINT 0x1000 false)] (start two_threads)) = Some a_manager.
Proof. by vm_compute. Qed.
Lemma a_manager_inv : Inv a_manager.
Proof.
  apply (steps_inv processor no_code [Attach (hook BREAKPOINT 0x1000 false)] (start two_threads)
    (MkState a_manager (world (default (start two_threads) (steps processor no_code [Attach (hook BREAKPOINT 0x1000 false)] (start two_threads)))) [])).
  - apply start_inv.
  - by repeat split.
  - by vm_compute.
Qed.

Lemma next_pc_follows_witness :
  follows 0x97fffffe 0x1000 (some_context 0x1000) (next_pc 0x97fffffe 0x1000 (some_context 0x1000)) /\
  forall off, flow_of 0x97fffffe = Conditional off -> next_pc 0x97fffffe 0x1000 (some_context 0x1000) = U64 (0x1000 + 4).
Proof. apply (next_pc_follows 0x97fffffe 0x1000 (some_context 0x1000)); [by vm_compute|]. intros n ret. by vm_compute. Defined.

End HwStep.
