(* ===== verification/Elf.v ===== *)
(** * Symbols of ELF files

    Module ElfUtil: ElfSymbolOffset of src/cli/injector/elf_util.cpp, and its
    look-up in the modules of a process.  Module ElfImage:
    src/engine/utils/elf_image.cpp, which finds the symbols the ART engine
    needs in a mapped library.

    A file is its bytes, a pointer into it an offset, an access outside
    [None]; 64-bit ELF, little-endian.  Opening and mapping files and reading
    /proc are left out.  The decoder of .gnu_debugdata ([xz]) and the
    fall-back to xDL are parameters. *)
From stdpp Require Import strings.
From S2P Require Import Prelude.
From S2P Require Import Memory.
Import Memory.
Local Open Scope cint_scope.

(** ** The structures of elf.h *)
Module ElfH.

Definition SHT_PROGBITS : Z := 1.
Definition SHT_SYMTAB : Z := 2.
Definition SHT_STRTAB : Z := 3.
Definition SHT_DYNSYM : Z := 11.
Definition STT_FUNC : Z := 2.
Definition ELF_ST_TYPE (info : Z) : Z := info & 0xf.
Definition sizeof_Ehdr : Z := 64.
Definition sizeof_Shdr : Z := 64.
Definition sizeof_Sym : Z := 24.

Record Shdr := MkShdr { sh_name : Z; sh_type : Z; sh_addr : Z; sh_offset : Z; sh_size : Z; sh_link : Z; sh_entsize : Z }.
Record Sym := MkSym { st_name : Z; st_info : Z; st_value : Z; st_size : Z }.
Definition read_Shdr (mem : list Z) (p : Z) : option Shdr :=
  n ← load32 mem p; t ← load32 mem (p + 4); a ← load64 mem (p + 16); o ← load64 mem (p + 24); s ← load64 mem (p + 32);
  l ← load32 mem (p + 40); e ← load64 mem (p + 56); Some (MkShdr n t a o s l e).
Definition read_Sym (mem : list Z) (p : Z) : option Sym :=
  n ← load32 mem p; i ← load 1 mem (p + 4); v ← load64 mem (p + 8); s ← load64 mem (p + 16); Some (MkSym n i v s).
Definition e_shoff (mem : list Z) : option Z := load64 mem 40.
Definition e_shentsize (mem : list Z) : option Z := load16 mem 58.
Definition e_shnum (mem : list Z) : option Z := load16 mem 60.
Definition e_shstrndx (mem : list Z) : option Z := load16 mem 62.

End ElfH.

Module ElfUtil.
Import ElfH.

Section Symbols.
Context (mem : list Z).
Definition size_ : Z := Z.of_nat (length mem).

(** The loop over the symbols, for one name. *)
Fixpoint symbol_loop (n : nat) (syms strs strsz : Z) (want : list Z) : option (option Z) :=
  match n with
  | O => Some None
  | S n =>
      s ← read_Sym mem syms;
      if (st_value s =? 0) || (st_name s =? 0) || (strsz <=? st_name s) then symbol_loop n (syms + sizeof_Sym) strs strsz want
      else
        same ← strcmp_eq mem (strs + st_name s) want;
        if same : bool then Some (Some (st_value s)) else symbol_loop n (syms + sizeof_Sym) strs strsz want
  end.
Fixpoint name_loop (names : list (list Z)) (n : nat) (syms strs strsz : Z) : option Z :=
  match names with
  | [] => Some 0
  | want :: names =>
      r ← symbol_loop n syms strs strsz want;
      match r with Some v => Some v | None => name_loop names n syms strs strsz end
  end.
(** [todo] sections from number [i] on. *)
Fixpoint section_loop (todo : nat) (i shoff shnum : Z) (names : list (list Z)) : option Z :=
  match todo with
  | O => Some 0
  | S todo =>
      s ← read_Shdr mem (shoff + i * sizeof_Shdr);
      if negb (sh_type s =? SHT_DYNSYM) || (shnum <=? sh_link s) then section_loop todo (i + 1) shoff shnum names
      else
        strtab ← read_Shdr mem (shoff + sh_link s * sizeof_Shdr);
        if (size_ <? U64 (sh_offset s + sh_size s)) || (size_ <? U64 (sh_offset strtab + sh_size strtab)) then section_loop todo (i + 1) shoff shnum names
        else name_loop names (Z.to_nat (sh_size s / sizeof_Sym)) (sh_offset s) (sh_offset strtab) (sh_size strtab)
  end.
Definition ElfSymbolOffset (names : list (list Z)) : option Z :=
  if size_ <? sizeof_Ehdr then Some 0
  else
    magic ← slice mem 0 4;
    class ← mem !!z 4;
    if negb (streq magic [0x7f; 69; 76; 70]) || negb (class =? 2) then Some 0
    else
      shoff ← e_shoff mem; entsize ← e_shentsize mem; shnum ← e_shnum mem;
      if (shoff =? 0) || negb (entsize =? sizeof_Shdr) then Some 0
      else if size_ <? U64 (shoff + U64 (shnum * entsize)) then Some 0
      else section_loop (Z.to_nat shnum) 0 shoff shnum names.

End Symbols.

(** ** Modules of a process *)

Record Module_ := MkModule { base : Z; end_ : Z; path : list Z }.
Definition kSuffix : list Z := str " (deleted)".
Definition ends_with (s suffix : list Z) : bool :=
  (Z.of_nat (length suffix) <=? Z.of_nat (length s)) && streq (drop (length s - length suffix) s) suffix.
Definition StripDeletedSuffix (p : list Z) : list Z :=
  if ends_with p kSuffix then take (length p - length kSuffix) p else p.
(** A line of /proc/pid/maps: its range, and what follows the first '/'. *)
Fixpoint merge (start finish : Z) (p : list Z) (out : list Module_) : list Module_ :=
  match out with
  | [] => [MkModule start finish p]
  | m :: out =>
      if streq (path m) p then MkModule (if start <? base m then start else base m) (if end_ m <? finish then finish else end_ m) (path m) :: out
      else m :: merge start finish p out
  end.
Fixpoint GetModules (lines : list (Z * Z * list Z)) (out : list Module_) : list Module_ :=
  match lines with [] => out | (start, finish, p) :: lines => GetModules lines (merge start finish (StripDeletedSuffix p) out) end.
Definition GetMappings (lines : list (Z * Z * list Z)) : list Module_ :=
  List.map (fun '(start, finish, p) => MkModule start finish (StripDeletedSuffix p)) lines.
(** [strrchr(path, '/')] *)
Fixpoint basename_ (l : list Z) : option (list Z) :=
  match l with
  | [] => None
  | c :: t => match basename_ t with Some b => Some b | None => if c =? 47 then Some t else None end
  end.
Definition FindModuleByBasename (mods : list Module_) (name : list Z) : option Module_ :=
  List.find (fun m => streq (default (path m) (basename_ (path m))) name) mods.

End ElfUtil.

Module ElfImage.
Import ElfH.

(** A null pointer is [None]; pointers into the debug data are offsets into
    [debugdata_]. *)
Record ElfImage := MkElfImage {
  bias_ : Z; dynsym_ : option Z; dynsym_count_ : Z; symtab_ : option Z; symtab_count_ : Z; dynstr_ : option Z; strtab_ : option Z;
  debugdata_ : list Z; symtab_from_debugdata_ : option Z; symtab_count_from_debugdata_ : Z; strtab_from_debugdata_ : option Z }.
Definition new_image : ElfImage := MkElfImage (-4396) None 0 None 0 None None [] None 0 None.
Definition set_dynsym (p n : Z) (e : ElfImage) : ElfImage :=
  MkElfImage (bias_ e) (Some p) n (symtab_ e) (symtab_count_ e) (dynstr_ e) (strtab_ e) (debugdata_ e) (symtab_from_debugdata_ e) (symtab_count_from_debugdata_ e) (strtab_from_debugdata_ e).
Definition set_symtab (debug : bool) (p n : Z) (e : ElfImage) : ElfImage :=
  if debug then MkElfImage (bias_ e) (dynsym_ e) (dynsym_count_ e) (symtab_ e) (symtab_count_ e) (dynstr_ e) (strtab_ e) (debugdata_ e) (Some p) n (strtab_from_debugdata_ e)
  else MkElfImage (bias_ e) (dynsym_ e) (dynsym_count_ e) (Some p) n (dynstr_ e) (strtab_ e) (debugdata_ e) (symtab_from_debugdata_ e) (symtab_count_from_debugdata_ e) (strtab_from_debugdata_ e).
Definition set_dynstr (p : Z) (e : ElfImage) : ElfImage :=
  MkElfImage (bias_ e) (dynsym_ e) (dynsym_count_ e) (symtab_ e) (symtab_count_ e) (Some p) (strtab_ e) (debugdata_ e) (symtab_from_debugdata_ e) (symtab_count_from_debugdata_ e) (strtab_from_debugdata_ e).
Definition set_strtab (debug : bool) (p : Z) (e : ElfImage) : ElfImage :=
  if debug then MkElfImage (bias_ e) (dynsym_ e) (dynsym_count_ e) (symtab_ e) (symtab_count_ e) (dynstr_ e) (strtab_ e) (debugdata_ e) (symtab_from_debugdata_ e) (symtab_count_from_debugdata_ e) (Some p)
  else MkElfImage (bias_ e) (dynsym_ e) (dynsym_count_ e) (symtab_ e) (symtab_count_ e) (dynstr_ e) (Some p) (debugdata_ e) (symtab_from_debugdata_ e) (symtab_count_from_debugdata_ e) (strtab_from_debugdata_ e).
Definition set_bias (b : Z) (e : ElfImage) : ElfImage :=
  MkElfImage b (dynsym_ e) (dynsym_count_ e) (symtab_ e) (symtab_count_ e) (dynstr_ e) (strtab_ e) (debugdata_ e) (symtab_from_debugdata_ e) (symtab_count_from_debugdata_ e) (strtab_from_debugdata_ e).
Definition set_debugdata (l : list Z) (e : ElfImage) : ElfImage :=
  MkElfImage (bias_ e) (dynsym_ e) (dynsym_count_ e) (symtab_ e) (symtab_count_ e) (dynstr_ e) (strtab_ e) l (symtab_from_debugdata_ e) (symtab_count_from_debugdata_ e) (strtab_from_debugdata_ e).

Definition s_symtab : list Z := str ".symtab".
Definition s_dynstr : list Z := str ".dynstr".
Definition s_strtab : list Z := str ".strtab".
Definition s_debugdata : list Z := str ".gnu_debugdata".
Definition unset (p : option Z) : bool := match p with None => true | Some _ => false end.
(** [size / entsize]; a division by 0 is undefined. *)
Definition count (s : Shdr) : option Z := if sh_entsize s =? 0 then None else Some (sh_size s / sh_entsize s).

Section Parse.
(** What is done with .gnu_debugdata. *)
Context (mem : list Z) (debug : bool) (on_debugdata : Shdr -> ElfImage -> option ElfImage).

Definition parse_section (strs : Z) (s : Shdr) (e : ElfImage) : option ElfImage :=
  let named := strcmp_eq mem (strs + sh_name s) in
  if sh_type s =? SHT_DYNSYM then
    if negb debug && (bias_ e =? -4396) then n ← count s; Some (set_dynsym (sh_offset s) n e) else Some e
  else if sh_type s =? SHT_SYMTAB then
    same ← named s_symtab;
    if same : bool then n ← count s; Some (set_symtab debug (sh_offset s) n e) else Some e
  else if sh_type s =? SHT_STRTAB then
    dynstr ← (if debug then Some false else named s_dynstr);
    if dynstr : bool then Some (set_dynstr (sh_offset s) e)
    else same ← named s_strtab; if same : bool then Some (set_strtab debug (sh_offset s) e) else Some e
  else if sh_type s =? SHT_PROGBITS then
    if unset (dynstr_ e) || unset (dynsym_ e) || debug then Some e
    else
      let e := if bias_ e =? -4396 then set_bias (S64 (S64 (sh_addr s) - S64 (sh_offset s))) e else e in
      same ← named s_debugdata;
      if same : bool then on_debugdata s e else Some e
  else Some e.
Fixpoint parse_loop (n : nat) (shoff entsize strs : Z) (e : ElfImage) : option ElfImage :=
  match n with
  | O => Some e
  | S n => s ← read_Shdr mem shoff; e ← parse_section strs s e; parse_loop n (shoff + entsize) entsize strs e
  end.
Definition ParseMemory (e : ElfImage) : option ElfImage :=
  shoff ← e_shoff mem; strndx ← e_shstrndx mem; strs ← read_Shdr mem (shoff + strndx * sizeof_Shdr);
  n ← e_shnum mem; entsize ← e_shentsize mem;
  parse_loop (Z.to_nat n) shoff entsize (sh_offset strs) e.
End Parse.

Section Image.
Context (mem : list Z) (xz : list Z -> option (list Z)).

Definition ParseDebugdata (s : Shdr) (e : ElfImage) : option ElfImage :=
  data ← slice mem (sh_offset s) (sh_size s);
  match xz data with
  | None => Some (set_debugdata [] e)
  | Some l =>
      let l := debugdata_ e ++ l in
      ParseMemory l true (fun _ e => Some e) (set_debugdata l e)
  end.
Definition Parse : option ElfImage := ParseMemory mem false ParseDebugdata new_image.

(** ** LinearLookup *)

(** [None] in the result: not found. *)
Fixpoint dynsym_loop (n : nat) (sym strs : Z) (name : list Z) : option (option Z) :=
  match n with
  | O => Some None
  | S n =>
      s ← read_Sym mem sym; same ← strcmp_eq mem (strs + st_name s) name;
      if same : bool then Some (Some (st_value s)) else dynsym_loop n (sym + sizeof_Sym) strs name
  end.
End Image.
Fixpoint symtab_loop (mem : list Z) (n : nat) (sym strs : Z) (name : list Z) : option (option Z) :=
  match n with
  | O => Some None
  | S n =>
      s ← read_Sym mem sym;
      same ← (if (ELF_ST_TYPE (st_info s) =? STT_FUNC) && negb (st_size s =? 0) then strcmp_eq mem (strs + st_name s) name else Some false);
      if same : bool then Some (Some (st_value s)) else symtab_loop mem n (sym + sizeof_Sym) strs name
  end.
Definition LinearLookup (mem : list Z) (e : ElfImage) (name : list Z) : option Z :=
  r ← match dynsym_ e, dynstr_ e with Some sym, Some strs => dynsym_loop mem (Z.to_nat (dynsym_count_ e)) sym strs name | _, _ => Some None end;
  match r with
  | Some v => Some v
  | None =>
      r ← match symtab_ e, strtab_ e with Some sym, Some strs => symtab_loop mem (Z.to_nat (symtab_count_ e)) sym strs name | _, _ => Some None end;
      match r with
      | Some v => Some v
      | None =>
          r ← match symtab_from_debugdata_ e, strtab_from_debugdata_ e with
              | Some sym, Some strs => symtab_loop (debugdata_ e) (Z.to_nat (symtab_count_from_debugdata_ e)) sym strs name
              | _, _ => Some None
              end;
          Some (default 0 r)
      end
  end.
(** [xdl]: what xdl_sym and xdl_dsym find, 0 if nothing. *)
Definition GetSymbolAddress (mem : list Z) (e : ElfImage) (base : Z) (xdl : list Z -> Z) (name : list Z) : option Z :=
  if base =? 0 then Some 0
  else
    offset ← LinearLookup mem e name;
    if offset =? 0 then Some (xdl name) else Some (U64 (base + offset - bias_ e)).
Definition HasSymbol (mem : list Z) (e : ElfImage) (base : Z) (xdl : list Z -> Z) (name : list Z) : option bool :=
  a ← GetSymbolAddress mem e base xdl name; Some (negb (a =? 0)).

End ElfImage.

(** * ElfUtil: any file is searched safely *)
Module ElfUtilProofs.
Import ElfH ElfUtil.

Lemma le_combine_range l : bytes_ok l -> 0 <= le_combine l < 2 ^ (8 * Z.of_nat (length l)).
Proof.
  induction 1 as [|b l Hb Hl IH]; [done|]. cbn [le_combine length]. unfold in_u in Hb. rewrite Z.lor_comm, lor_shiftl_add by (done || lia).
  replace (8 * Z.of_nat (S (length l))) with (8 * Z.of_nat (length l) + 8) by lia. rewrite Z.pow_add_r by lia. nia.
Qed.
Lemma load_some n mem p : bytes_ok mem -> 0 <= n -> 0 <= p -> p + n <= Z.of_nat (length mem) -> exists v, load n mem p = Some v /\ 0 <= v < 2 ^ (8 * n).
Proof.
  intros Hb Hn Hp Hl. unfold load, slice. replace ((0 <=? p) && (0 <=? n) && (p + n <=? Z.of_nat (length mem))) with true by lia.
  eexists. split; [reflexivity|]. pose proof (le_combine_range (take (Z.to_nat n) (drop (Z.to_nat p) mem))) as H.
  rewrite length_take, length_drop, Nat.min_l, Z2Nat.id in H by lia. apply H. by apply Forall_take, Forall_drop.
Qed.
Lemma read_Shdr_some mem p : bytes_ok mem -> 0 <= p -> p + 64 <= Z.of_nat (length mem) -> exists s, read_Shdr mem p = Some s /\
  0 <= sh_offset s /\ 0 <= sh_size s /\ 0 <= sh_link s.
Proof.
  intros Hb Hp Hl. unfold read_Shdr.
  destruct (load_some 4 mem p Hb ltac:(lia) ltac:(lia) ltac:(lia)) as (? & -> & ?). destruct (load_some 4 mem (p + 4) Hb ltac:(lia) ltac:(lia) ltac:(lia)) as (? & -> & ?).
  destruct (load_some 8 mem (p + 16) Hb ltac:(lia) ltac:(lia) ltac:(lia)) as (? & -> & ?). destruct (load_some 8 mem (p + 24) Hb ltac:(lia) ltac:(lia) ltac:(lia)) as (? & -> & ?).
  destruct (load_some 8 mem (p + 32) Hb ltac:(lia) ltac:(lia) ltac:(lia)) as (? & -> & ?). destruct (load_some 4 mem (p + 40) Hb ltac:(lia) ltac:(lia) ltac:(lia)) as (? & -> & ?).
  destruct (load_some 8 mem (p + 56) Hb ltac:(lia) ltac:(lia) ltac:(lia)) as (? & -> & ?). eexists. split; [reflexivity|]. cbn. lia.
Qed.
Lemma read_Sym_some mem p : bytes_ok mem -> 0 <= p -> p + 24 <= Z.of_nat (length mem) -> exists s, read_Sym mem p = Some s /\ 0 <= st_name s.
Proof.
  intros Hb Hp Hl. unfold read_Sym.
  destruct (load_some 4 mem p Hb ltac:(lia) ltac:(lia) ltac:(lia)) as (? & -> & ?). destruct (load_some 1 mem (p + 4) Hb ltac:(lia) ltac:(lia) ltac:(lia)) as (? & -> & ?).
  destruct (load_some 8 mem (p + 8) Hb ltac:(lia) ltac:(lia) ltac:(lia)) as (? & -> & ?). destruct (load_some 8 mem (p + 16) Hb ltac:(lia) ltac:(lia) ltac:(lia)) as (? & -> & ?).
  eexists. split; [reflexivity|]. cbn. lia.
Qed.

Section Safe.
Context (m : list Z) (names : list (list Z)).
Abbreviation mem := (m ++ [0]).
Context (Hmem : bytes_ok mem) (Hnames : Forall (Forall (fun c => c <> 0)) names).

(** Symbol [k] of a table is defined and called [want]. *)
Definition defines (syms strs strsz k : Z) (want : list Z) (v : Z) : Prop :=
  exists s, read_Sym mem (syms + k * sizeof_Sym) = Some s /\ st_value s = v /\ v <> 0 /\ 0 < st_name s < strsz /\ cstring mem (strs + st_name s) = Some want.
Lemma symbol_loop_spec want strs strsz : Forall (fun c => c <> 0) want -> 0 <= strs -> strs + strsz <= size_ mem -> forall n syms, 0 <= syms -> syms + 24 * Z.of_nat n <= size_ mem ->
  exists r, symbol_loop mem n syms strs strsz want = Some r /\
    match r with
    | Some v => exists k, 0 <= k < Z.of_nat n /\ defines syms strs strsz k want v
    | None => forall k v, 0 <= k < Z.of_nat n -> ~ defines syms strs strsz k want v
    end.
Proof.
  intros Hw Hs Hsz. induction n as [|n IH]; intros syms Hp Hl; [exists None; split; [done|]; intros; lia|]. cbn [symbol_loop].
  destruct (read_Sym_some mem syms Hmem Hp ltac:(unfold size_ in *; lia)) as (s & Es & Hn0). rewrite Es. cbn [mbind option_bind].
  destruct (IH (syms + sizeof_Sym) ltac:(unfold sizeof_Sym; lia) ltac:(unfold sizeof_Sym; lia)) as (r & Er & Hr).
  assert (Hlater : forall k v, defines (syms + sizeof_Sym) strs strsz k want v <-> defines syms strs strsz (k + 1) want v).
  { intros k v. unfold defines. by replace (syms + sizeof_Sym + k * sizeof_Sym) with (syms + (k + 1) * sizeof_Sym) by lia. }
  assert (Hskip : (forall v, ~ defines syms strs strsz 0 want v) -> match r with
    | Some v => exists k, 0 <= k < Z.of_nat (S n) /\ defines syms strs strsz k want v
    | None => forall k v, 0 <= k < Z.of_nat (S n) -> ~ defines syms strs strsz k want v end).
  { intros H0. destruct r as [v|]; [destruct Hr as (k & Hk & Hd); exists (k + 1); split; [lia|by apply Hlater]|].
    intros k v Hk. destruct (decide (k = 0)) as [->|]; [apply H0|]. replace k with (k - 1 + 1) by lia. rewrite <- Hlater. apply Hr. lia. }
  assert (H0 : forall v, defines syms strs strsz 0 want v -> v = st_value s /\ v <> 0 /\ 0 < st_name s < strsz /\ cstring mem (strs + st_name s) = Some want).
  { intros v (s' & E' & <- & Hd). rewrite Z.mul_0_l, Z.add_0_r, Es in E'. by injection E' as <-. }
  destruct ((st_value s =? 0) || (st_name s =? 0) || (strsz <=? st_name s)) eqn:Eu.
  - exists r. split; [done|]. apply Hskip. intros v Hd. apply H0 in Hd. lia.
  - destruct (cstring_terminated m (strs + st_name s) ltac:(unfold size_ in *; lia)) as [nm Enm]. rewrite (strcmp_eq_cstring want Hw mem (strs + st_name s) nm ltac:(lia) Enm). cbn [mbind option_bind].
    unfold streq. case_bool_decide as E; [|exists r; split; [done|]; apply Hskip; intros v Hd; apply H0 in Hd; destruct Hd as (_ & _ & _ & Hd); congruence].
    exists (Some (st_value s)). split; [done|]. exists 0. split; [lia|]. exists s. rewrite Z.mul_0_l, Z.add_0_r. split_and!; [done|done|lia|lia|lia|congruence].
Qed.
(** The first of the names that a table defines, and 0 if there is none. *)
Definition answers (n : nat) (syms strs strsz v : Z) : Prop :=
  (exists pre want post k, names = pre ++ want :: post /\ 0 <= k < Z.of_nat n /\ defines syms strs strsz k want v /\
     forall other j u, In other pre -> 0 <= j < Z.of_nat n -> ~ defines syms strs strsz j other u) \/
  (v = 0 /\ forall want j u, In want names -> 0 <= j < Z.of_nat n -> ~ defines syms strs strsz j want u).
End Safe.

Lemma name_loop_spec m names n syms strs strsz : bytes_ok (m ++ [0]) -> Forall (Forall (fun c => c <> 0)) names -> 0 <= strs -> strs + strsz <= size_ (m ++ [0]) -> 0 <= syms ->
  syms + 24 * Z.of_nat n <= size_ (m ++ [0]) -> exists v, name_loop (m ++ [0]) names n syms strs strsz = Some v /\ answers m names n syms strs strsz v.
Proof.
  intros Hm Hn Hs Hsz Hp Hl. induction Hn as [|want names Hw Hn (v & Ev & Hv)]; [exists 0; split; [done|]; right; split; [done|]; intros ? ? ? []|]. cbn [name_loop].
  destruct (symbol_loop_spec m Hm want strs strsz Hw Hs Hsz n syms Hp Hl) as (r & -> & Hr). cbn [mbind option_bind]. destruct r as [u|].
  - exists u. split; [done|]. left. destruct Hr as (k & Hk & Hd). exists [], want, names, k. split_and!; [done|lia|lia|done|]. intros ? ? ? [].
  - exists v. split; [done|]. destruct Hv as [(pre & w & post & k & -> & Hk & Hd & Hpre)|[-> Hv]].
    + left. exists (want :: pre), w, post, k. split_and!; [done|lia|lia|done|]. intros other j u [<-|Hin] Hj; [by apply Hr|by apply Hpre].
    + right. split; [done|]. intros w j u [<-|Hin] Hj; [by apply Hr|by apply Hv].
Qed.

(** Section [i] is a symbol table the search takes: of type SHT_DYNSYM, with
    its strings in a section of the file, both inside the file. *)
Definition usable (mem : list Z) (shoff shnum i : Z) (s strtab : Shdr) : Prop :=
  read_Shdr mem (shoff + i * sizeof_Shdr) = Some s /\ sh_type s = SHT_DYNSYM /\ sh_link s < shnum /\
  read_Shdr mem (shoff + sh_link s * sizeof_Shdr) = Some strtab /\
  sh_offset s + sh_size s <= size_ mem /\ sh_offset strtab + sh_size strtab <= size_ mem.
(** No sum of the section table wraps around. *)
Definition sums_fit (mem : list Z) (shoff shnum : Z) : Prop :=
  forall i s, 0 <= i < shnum -> read_Shdr mem (shoff + i * sizeof_Shdr) = Some s -> sh_offset s + sh_size s < 2 ^ 64.
Lemma section_loop_spec m names shoff shnum : bytes_ok (m ++ [0]) -> Forall (Forall (fun c => c <> 0)) names -> 0 <= shoff -> shoff + shnum * 64 <= size_ (m ++ [0]) ->
  sums_fit (m ++ [0]) shoff shnum -> forall todo i, 0 <= i -> i + Z.of_nat todo = shnum ->
  exists v, section_loop (m ++ [0]) todo i shoff shnum names = Some v /\
    ((exists j s strtab, i <= j < shnum /\ usable (m ++ [0]) shoff shnum j s strtab /\
        (forall k s' t', i <= k < j -> ~ usable (m ++ [0]) shoff shnum k s' t') /\
        answers m names (Z.to_nat (sh_size s / sizeof_Sym)) (sh_offset s) (sh_offset strtab) (sh_size strtab) v) \/
     (v = 0 /\ forall k s' t', i <= k < shnum -> ~ usable (m ++ [0]) shoff shnum k s' t')).
Proof.
  intros Hm Hn Hs Hsz Hfit. induction todo as [|todo IH]; intros i Hi Hd; [exists 0; split; [done|]; right; split; [done|]; intros; lia|]. cbn [section_loop].
  destruct (IH (i + 1) ltac:(lia) ltac:(lia)) as (v & Ev & Hv).
  destruct (read_Shdr_some (m ++ [0]) (shoff + i * sizeof_Shdr) Hm ltac:(unfold sizeof_Shdr; lia) ltac:(unfold sizeof_Shdr, size_ in *; lia)) as (s & Es & Ho & Hz & Hk).
  assert (Hskip : (forall s' t', ~ usable (m ++ [0]) shoff shnum i s' t') ->
    ((exists j s strtab, i <= j < shnum /\ usable (m ++ [0]) shoff shnum j s strtab /\
        (forall k s' t', i <= k < j -> ~ usable (m ++ [0]) shoff shnum k s' t') /\
        answers m names (Z.to_nat (sh_size s / sizeof_Sym)) (sh_offset s) (sh_offset strtab) (sh_size strtab) v) \/
     (v = 0 /\ forall k s' t', i <= k < shnum -> ~ usable (m ++ [0]) shoff shnum k s' t'))).
  { intros H0. destruct Hv as [(j & s1 & t1 & Hj & Hu & Hb & Ha)|[-> Hv]].
    - left. exists j, s1, t1. split_and!; [lia|lia|done| |done]. intros k s' t' Hk'. destruct (decide (k = i)) as [->|]; [apply H0|apply Hb; lia].
    - right. split; [done|]. intros k s' t' Hk'. destruct (decide (k = i)) as [->|]; [apply H0|apply Hv; lia]. }
  rewrite Es. cbn [mbind option_bind]. destruct (negb (sh_type s =? SHT_DYNSYM) || (shnum <=? sh_link s)) eqn:Et.
  { exists v. split; [done|]. apply Hskip. intros s' t' (E' & Ht & Hl & _). rewrite Es in E'. injection E' as <-. rewrite Ht in Et. cbn in Et. lia. }
  apply orb_false_iff in Et as [Et El]. apply negb_false_iff, Z.eqb_eq in Et.
  destruct (read_Shdr_some (m ++ [0]) (shoff + sh_link s * sizeof_Shdr) Hm ltac:(unfold sizeof_Shdr; lia) ltac:(unfold sizeof_Shdr, size_ in *; lia)) as (t & Est & Hto & Htz & _).
  rewrite Est. cbn [mbind option_bind]. pose proof (Hfit i s ltac:(lia) Es) as F1. pose proof (Hfit (sh_link s) t ltac:(lia) Est) as F2.
  rewrite !wrap_small by (unfold in_u; lia).
  destruct ((size_ (m ++ [0]) <? sh_offset s + sh_size s) || (size_ (m ++ [0]) <? sh_offset t + sh_size t)) eqn:Eb.
  { exists v. split; [done|]. apply Hskip. intros s' t' (E' & _ & _ & E2 & H1 & H2). rewrite Es in E'. injection E' as <-. rewrite Est in E2. injection E2 as <-. lia. }
  assert (Hdiv : 24 * (sh_size s / 24) <= sh_size s) by (apply Z.mul_div_le; lia).
  destruct (name_loop_spec m names (Z.to_nat (sh_size s / sizeof_Sym)) (sh_offset s) (sh_offset t) (sh_size t) Hm Hn Hto ltac:(lia) Ho) as (u & Eu & Hu).
  { unfold sizeof_Sym. rewrite Z2Nat.id by (apply Z.div_pos; lia). lia. }
  exists u. split; [done|]. left. exists i, s, t. split_and!; [lia|lia|repeat split; done || lia| |done]. lia.
Qed.

(** A 64-bit ELF file with its section headers in it. *)
Definition header_ok (mem : list Z) (shoff shnum : Z) : Prop :=
  64 <= size_ mem /\ slice mem 0 4 = Some [0x7f; 69; 76; 70] /\ mem !!z 4 = Some 2 /\
  e_shoff mem = Some shoff /\ e_shentsize mem = Some 64 /\ e_shnum mem = Some shnum /\ shoff <> 0 /\ shoff + shnum * 64 <= size_ mem.
Definition searched (m : list Z) (names : list (list Z)) (shoff shnum v : Z) : Prop :=
  (exists j s strtab, 0 <= j < shnum /\ usable (m ++ [0]) shoff shnum j s strtab /\
     (forall k s' t', 0 <= k < j -> ~ usable (m ++ [0]) shoff shnum k s' t') /\
     answers m names (Z.to_nat (sh_size s / sizeof_Sym)) (sh_offset s) (sh_offset strtab) (sh_size strtab) v) \/
  (v = 0 /\ forall k s' t', 0 <= k < shnum -> ~ usable (m ++ [0]) shoff shnum k s' t').

(** C26: Whatever the file says, as long as no sum of its section table wraps
    around and it ends in a NUL: the search stays inside the file and ends.
    If the file is a 64-bit ELF file with its section headers in it, the
    answer is, for the first symbol table that lies in the file with its
    strings, the value of a defined symbol with the first of the names that
    has one, and 0 if none has or there is no such table; else it is 0. *)
Theorem ElfSymbolOffset_search m names : bytes_ok (m ++ [0]) -> Forall (Forall (fun c => c <> 0)) names ->
  (forall shoff, e_shoff (m ++ [0]) = Some shoff -> shoff < 2 ^ 63) ->
  (forall shoff shnum, header_ok (m ++ [0]) shoff shnum -> sums_fit (m ++ [0]) shoff shnum) ->
  exists v, ElfSymbolOffset (m ++ [0]) names = Some v /\
    (forall shoff shnum, header_ok (m ++ [0]) shoff shnum -> searched m names shoff shnum v) /\
    ((forall shoff shnum, ~ header_ok (m ++ [0]) shoff shnum) -> v = 0).
Proof.
  intros Hm Hn Hw Hfit. unfold ElfSymbolOffset, header_ok in *.
  destruct (Z.ltb_spec (size_ (m ++ [0])) sizeof_Ehdr) as [Hl|Hl]; [exists 0; split; [done|]; split; [intros ? ? [H _]; unfold sizeof_Ehdr in Hl; lia|done]|]. unfold sizeof_Ehdr in Hl.
  assert (Hsl : exists b, slice (m ++ [0]) 0 4 = Some b).
  { unfold slice. replace ((0 <=? 0) && (0 <=? 4) && (0 + 4 <=? Z.of_nat (length (m ++ [0])))) with true by (unfold size_ in Hl; lia). by eexists. }
  destruct Hsl as [b Eb]. destruct (zlookup_is_Some (m ++ [0]) 4 ltac:(unfold size_ in Hl; lia)) as [class Ec]. rewrite Eb, Ec in *. cbn [mbind option_bind].
  destruct (streq b [0x7f; 69; 76; 70]) eqn:Es; cbn [negb orb].
  2: { exists 0. split; [done|]. split; [|done]. intros ? ? (_ & [= ->] & _). by rewrite (proj2 (streq_true _ _) eq_refl) in Es. }
  apply streq_true in Es as ->. destruct (Z.eqb_spec class 2) as [->|Hc]; cbn [negb orb].
  2: { exists 0. split; [done|]. split; [|done]. intros ? ? (_ & _ & [= ->] & _). done. }
  unfold e_shoff, e_shnum, e_shentsize in *.
  destruct (load_some 8 (m ++ [0]) 40 Hm ltac:(lia) ltac:(lia) ltac:(unfold size_ in Hl; lia)) as (shoff & E1 & H1).
  destruct (load_some 2 (m ++ [0]) 58 Hm ltac:(lia) ltac:(lia) ltac:(unfold size_ in Hl; lia)) as (entsize & E2 & H2).
  destruct (load_some 2 (m ++ [0]) 60 Hm ltac:(lia) ltac:(lia) ltac:(unfold size_ in Hl; lia)) as (shnum & E3 & H3).
  specialize (Hw shoff E1). rewrite E1, E2, E3 in *. cbn [mbind option_bind]. unfold sizeof_Shdr.
  destruct (Z.eqb_spec shoff 0) as [->|Hso]; cbn [orb]; [exists 0; split; [done|]; split; [intros ? ? (_ & _ & _ & [= <-] & _ & _ & [] & _); done|done]|].
  destruct (Z.eqb_spec entsize 64) as [->|He]; cbn [negb]; [|exists 0; split; [done|]; split; [intros ? ? (_ & _ & _ & _ & [= ->] & _); done|done]].
  rewrite (wrap_small 64 (shnum * 64)), wrap_small by (unfold in_u; lia). destruct (Z.ltb_spec (size_ (m ++ [0])) (shoff + shnum * 64)) as [Ht|Ht].
  { exists 0. split; [done|]. split; [|done]. intros ? ? (_ & _ & _ & [= <-] & _ & [= <-] & _ & H). lia. }
  destruct (section_loop_spec m names shoff shnum Hm Hn ltac:(lia) ltac:(lia) ltac:(apply Hfit; done) (Z.to_nat shnum) 0 ltac:(lia) ltac:(lia)) as (v & Ev & Hv).
  exists v. split; [done|]. split; [|intros H; exfalso; by apply (H shoff shnum)]. intros ? ? (_ & _ & _ & [= <-] & _ & [= <-] & _). exact Hv.
Qed.

End ElfUtilProofs.

(** * ElfImage: names to addresses *)
Module ElfImageProofs.
Import ElfH ElfImage.

(** ** A section table, and what is made of it *)

#[local] Arguments s_symtab : simpl never.
#[local] Arguments s_dynstr : simpl never.
#[local] Arguments s_strtab : simpl never.
#[local] Arguments s_debugdata : simpl never.
(** Sections with their names. *)
Abbreviation Section_ := (Shdr * list Z)%type.
Fixpoint sections_at (mem : list Z) (p entsize strs : Z) (l : list Section_) : Prop :=
  match l with
  | [] => True
  | (s, nm) :: l => read_Shdr mem p = Some s /\ 0 <= strs + sh_name s /\ cstring mem (strs + sh_name s) = Some nm /\ sections_at mem (p + entsize) entsize strs l
  end.
Definition is_dynsym (x : Section_) : bool := sh_type (fst x) =? SHT_DYNSYM.
Definition is_symtab (x : Section_) : bool := (sh_type (fst x) =? SHT_SYMTAB) && streq (snd x) s_symtab.
Definition is_dynstr (x : Section_) : bool := (sh_type (fst x) =? SHT_STRTAB) && streq (snd x) s_dynstr.
Definition is_strtab (x : Section_) : bool := (sh_type (fst x) =? SHT_STRTAB) && streq (snd x) s_strtab.
Definition is_progbits (x : Section_) : bool := sh_type (fst x) =? SHT_PROGBITS.
Definition is_debugdata (x : Section_) : bool := is_progbits x && streq (snd x) s_debugdata.
Definition entries (s : Shdr) : Z := sh_size s / sh_entsize s.
Definition bias_of (s : Shdr) : Z := S64 (S64 (sh_addr s) - S64 (sh_offset s)).

(** parse_section without the reading. *)
Definition upd (debug : bool) (dbg : Shdr -> ElfImage -> ElfImage) (e : ElfImage) (x : Section_) : ElfImage :=
  let s := fst x in
  if is_dynsym x then if negb debug && (bias_ e =? -4396) then set_dynsym (sh_offset s) (entries s) e else e
  else if is_symtab x then set_symtab debug (sh_offset s) (entries s) e
  else if is_dynstr x && negb debug then set_dynstr (sh_offset s) e
  else if is_strtab x then set_strtab debug (sh_offset s) e
  else if is_progbits x then
    if unset (dynstr_ e) || unset (dynsym_ e) || debug then e
    else
      let e := if bias_ e =? -4396 then set_bias (bias_of s) e else e in
      if is_debugdata x then dbg s e else e
  else e.
Lemma names_differ : s_dynstr <> s_strtab /\ Forall (Forall (fun c => c <> 0)) [s_symtab; s_dynstr; s_strtab; s_debugdata].
Proof. split; [by vm_compute|]. repeat constructor; by vm_compute. Qed.

Section Parse.
Context (mem : list Z) (debug : bool) (on_debugdata : Shdr -> ElfImage -> option ElfImage) (dbg : Shdr -> ElfImage -> ElfImage).

(** The symbol tables have entries, and the debug data can be read. *)
Definition readable (x : Section_) : Prop :=
  (is_dynsym x || is_symtab x = true -> sh_entsize (fst x) <> 0) /\
  (is_debugdata x = true -> debug = false -> forall e, on_debugdata (fst x) e = Some (dbg (fst x) e)).
Lemma parse_section_upd strs s nm e : 0 <= strs + sh_name s -> cstring mem (strs + sh_name s) = Some nm -> readable (s, nm) ->
  parse_section mem debug on_debugdata strs s e = Some (upd debug dbg e (s, nm)).
Proof.
  intros Hp Hn [He Hd]. destruct names_differ as [_ Hz]. rewrite !list.Forall_cons in Hz. destruct Hz as (Z1 & Z2 & Z3 & Z4 & _).
  unfold parse_section, upd, is_dynsym, is_symtab, is_dynstr, is_strtab, is_debugdata, is_progbits in *. cbn [fst snd] in *. unfold count, entries.
  rewrite !(fun w Hw => strcmp_eq_cstring w Hw mem (strs + sh_name s) nm Hp Hn) by done.
  destruct (Z.eqb_spec (sh_type s) SHT_DYNSYM) as [E|E].
  { destruct (negb debug && _); [|done]. destruct (Z.eqb_spec (sh_entsize s) 0); [exfalso; apply He; [by rewrite ?E|done]|done]. }
  destruct (Z.eqb_spec (sh_type s) SHT_SYMTAB) as [E1|E1].
  { cbn [mbind option_bind andb]. destruct (streq nm s_symtab) eqn:En; [|by rewrite E1]. cbn [mbind option_bind].
    destruct (Z.eqb_spec (sh_entsize s) 0); [exfalso; apply He; [by rewrite ?E1|done]|done]. }
  destruct (Z.eqb_spec (sh_type s) SHT_STRTAB) as [E2|E2].
  { destruct debug; cbn [mbind option_bind andb negb].
    - rewrite andb_false_r. destruct (streq nm s_strtab); [done|by rewrite E2].
    - destruct (streq nm s_dynstr); [done|]. destruct (streq nm s_strtab); [done|by rewrite E2]. }
  cbn [andb]. destruct (Z.eqb_spec (sh_type s) SHT_PROGBITS) as [E3|E3]; [|done]. destruct (unset (dynstr_ e)), (unset (dynsym_ e)); try done.
  destruct debug; [done|]. cbn [orb mbind option_bind andb]. destruct (streq nm s_debugdata) eqn:En; [|done]. by apply Hd.
Qed.
Lemma parse_loop_upd entsize strs l : forall p e, sections_at mem p entsize strs l -> Forall readable l ->
  parse_loop mem debug on_debugdata (length l) p entsize strs e = Some (fold_left (upd debug dbg) l e).
Proof.
  induction l as [|[s nm] l IH]; intros p e Hs Hr; [done|]. cbn [length parse_loop sections_at fold_left] in *. destruct Hs as (E1 & E2 & E3 & E4).
  apply list.Forall_cons in Hr as [Hr1 Hr2]. rewrite E1. cbn [mbind option_bind]. rewrite (parse_section_upd strs s nm e E2 E3 Hr1). cbn [mbind option_bind]. by apply IH.
Qed.
End Parse.

(** ** The members after the walk *)

Definition none_of (P : Section_ -> bool) (l : list Section_) : Prop := Forall (fun x => P x = false) l.
Lemma none_app P a b : none_of P (a ++ b) <-> none_of P a /\ none_of P b.
Proof. apply list.Forall_app. Qed.
(** Parsing the debug data changes nothing else. *)
Definition same_members (e e' : ElfImage) : Prop :=
  bias_ e' = bias_ e /\ dynsym_ e' = dynsym_ e /\ dynsym_count_ e' = dynsym_count_ e /\ symtab_ e' = symtab_ e /\ symtab_count_ e' = symtab_count_ e /\
  dynstr_ e' = dynstr_ e /\ strtab_ e' = strtab_ e.
Definition same_debug (e e' : ElfImage) : Prop :=
  debugdata_ e' = debugdata_ e /\ symtab_from_debugdata_ e' = symtab_from_debugdata_ e /\ symtab_count_from_debugdata_ e' = symtab_count_from_debugdata_ e /\
  strtab_from_debugdata_ e' = strtab_from_debugdata_ e.

Section Walk.
Context (debug : bool) (dbg : Shdr -> ElfImage -> ElfImage) (Hdbg : forall s e, same_members e (dbg s e)).
Abbreviation step := (upd debug dbg).
Abbreviation walk := (fold_left (upd debug dbg)).

Lemma walk_keeps {A} (f : ElfImage -> A) (P : Section_ -> bool) : (forall e x, P x = false -> f (step e x) = f e) ->
  forall l e, none_of P l -> f (walk l e) = f e.
Proof. intros Hf l e H. revert e. induction H as [|x l Hx H IH]; intros e; [done|]. cbn [fold_left]. by rewrite IH, Hf. Qed.
(** The last section of a kind decides. *)
Lemma walk_last {A} (f : ElfImage -> A) (P : Section_ -> bool) a x b e : (forall e x, P x = false -> f (step e x) = f e) -> none_of P b ->
  f (walk (a ++ x :: b) e) = f (step (walk a e) x).
Proof. intros Hf H. rewrite fold_left_app. cbn [fold_left]. by apply (walk_keeps f P). Qed.

Ltac kinds := unfold is_dynsym, is_symtab, is_dynstr, is_strtab, is_debugdata, is_progbits in *.
Ltac each_case :=
  unfold upd; kinds; intros; repeat case_match; try done; rewrite ?orb_true_r in *; try discriminate;
  try match goal with |- context [dbg ?s ?e] => destruct (Hdbg s e) as (?&?&?&?&?&?&?) end; destruct debug; cbn in *; rewrite ?andb_true_r, ?andb_false_r in *; congruence.
Definition symtab_of (e : ElfImage) := if debug then (symtab_from_debugdata_ e, symtab_count_from_debugdata_ e) else (symtab_ e, symtab_count_ e).
Definition strtab_of (e : ElfImage) := if debug then strtab_from_debugdata_ e else strtab_ e.
Lemma step_symtab e x : is_symtab x = false -> symtab_of (step e x) = symtab_of e.
Proof. unfold symtab_of. each_case. Qed.
Lemma step_symtab_set e x : is_symtab x = true -> symtab_of (step e x) = (Some (sh_offset (fst x)), entries (fst x)).
Proof.
  unfold symtab_of, upd, is_symtab. intros H. rewrite H. apply andb_true_iff in H as [H _]. apply Z.eqb_eq in H. unfold is_dynsym. rewrite H. by destruct debug.
Qed.
Lemma step_strtab e x : is_strtab x = false -> strtab_of (step e x) = strtab_of e.
Proof. unfold strtab_of. each_case. Qed.
Lemma step_strtab_set e x : is_strtab x = true -> strtab_of (step e x) = Some (sh_offset (fst x)).
Proof.
  unfold strtab_of, upd, is_strtab, is_dynsym, is_symtab, is_dynstr. intros H. rewrite H. apply andb_true_iff in H as [H1 H2]. apply Z.eqb_eq in H1. apply streq_true in H2.
  rewrite H1, H2. by destruct debug.
Qed.
Lemma step_dynstr e x : is_dynstr x = false -> dynstr_ (step e x) = dynstr_ e.
Proof. each_case. Qed.
Lemma step_dynsym e x : is_dynsym x = false -> dynsym_ (step e x) = dynsym_ e /\ dynsym_count_ (step e x) = dynsym_count_ e.
Proof. split; revert H; each_case. Qed.
Lemma step_bias e x : is_progbits x = false -> bias_ (step e x) = bias_ e.
Proof. each_case. Qed.
Lemma step_bias_early e x : unset (dynstr_ e) || unset (dynsym_ e) = true -> bias_ (step e x) = bias_ e.
Proof. intros H. unfold upd. rewrite H. cbn [orb]. repeat case_match; try done; by destruct debug. Qed.
Lemma step_debug e x : debug = false -> is_debugdata x = false -> same_debug e (step e x).
Proof. intros -> H. unfold upd. rewrite H. repeat case_match; done. Qed.
End Walk.

(** ** A library *)

Definition only (P : Section_ -> bool) (l : list Section_) (o : option Section_) : Prop := List.filter P l = match o with Some x => [x] | None => [] end.
Lemma only_none P l : only P l None -> none_of P l.
Proof. unfold only, none_of. induction l as [|y l IH]; [constructor|]. cbn [List.filter]. destruct (P y) eqn:E; [done|]. intros H. constructor; auto. Qed.
Lemma only_some P l x : only P l (Some x) -> exists a b, l = a ++ x :: b /\ none_of P a /\ none_of P b /\ P x = true.
Proof.
  unfold only. induction l as [|y l IH]; [done|]. cbn [List.filter]. destruct (P y) eqn:E.
  - intros [= -> H]. exists [], l. split_and!; [done|constructor|by apply (only_none P)|done].
  - intros H. destruct (IH H) as (a & b & -> & Ha & Hb & Hx). exists (y :: a), b. split_and!; [done|by constructor|done..].
Qed.
Lemma only_in P l x y : only P l (Some x) -> In y l -> P y = true -> y = x.
Proof.
  unfold only. intros H Hin Hy. assert (Hf : In y (List.filter P l)) by (by apply List.filter_In). rewrite H in Hf. by destruct Hf as [<-|[]].
Qed.
(** [d] and [ds] are .dynsym and .dynstr; [b] is the first section of type
    SHT_PROGBITS behind both, and says how far the library is moved; there is
    no .gnu_debugdata. *)
Record library (l : list Section_) (d ds b : Section_) (os ot : option Section_) : Prop := {
  li_dynsym : only is_dynsym l (Some d); li_dynstr : only is_dynstr l (Some ds);
  li_symtab : only is_symtab l os; li_strtab : only is_strtab l ot; li_debugdata : none_of is_debugdata l;
  li_bias : exists u z v c, l = u ++ z :: v ++ b :: c /\ (z = d /\ In ds u \/ z = ds /\ In d u) /\ none_of is_progbits v /\
    is_progbits b = true /\ bias_of (fst b) <> -4396 }.

Section Library.
Abbreviation nothing := (fun (_ : Shdr) (e : ElfImage) => e).
Abbreviation step := (upd false nothing).
Abbreviation walk := (fold_left (upd false nothing)).
Lemma nothing_same s e : same_members e (nothing s e).
Proof. done. Qed.
Lemma walk_early (P : Section_ -> bool) (f : ElfImage -> option Z) a : (forall e x, P x = false -> f (step e x) = f e) -> none_of P a ->
  (forall e, f e = None -> unset (dynstr_ e) || unset (dynsym_ e) = true) -> forall e, f e = None -> bias_ (walk a e) = bias_ e.
Proof.
  intros Hf H Hu. induction H as [|x a Hx H IH]; intros e He; [done|]. cbn [fold_left].
  rewrite IH by (by rewrite Hf). apply step_bias_early, Hu, He.
Qed.
Lemma early_dynsym a e : none_of is_dynsym a -> dynsym_ e = None -> bias_ (walk a e) = bias_ e.
Proof.
  intros Ha He. apply (walk_early is_dynsym dynsym_); try done; [by intros; apply step_dynsym|]. intros e0 ->. by rewrite orb_true_r.
Qed.
Lemma early_dynstr a e : none_of is_dynstr a -> dynstr_ e = None -> bias_ (walk a e) = bias_ e.
Proof. intros Ha He. apply (walk_early is_dynstr dynstr_); try done; [by intros; apply step_dynstr|]. by intros e0 ->. Qed.
Lemma step_bias_set e x : bias_ e <> -4396 -> bias_ (step e x) = bias_ e.
Proof. intros H. unfold upd. replace (bias_ e =? -4396) with false by lia. rewrite andb_false_r. repeat case_match; done. Qed.
Lemma walk_bias_set l e : bias_ e <> -4396 -> bias_ (walk l e) = bias_ e.
Proof. revert e. induction l as [|x l IH]; intros e H; [done|]. cbn [fold_left]. rewrite IH by (by rewrite step_bias_set). by apply step_bias_set. Qed.
Lemma dynsym_types x : is_dynsym x = true -> is_progbits x = false.
Proof. unfold is_dynsym, is_progbits. intros E%Z.eqb_eq. by rewrite E. Qed.
Lemma dynstr_types x : is_dynstr x = true -> is_progbits x = false /\ is_dynsym x = false.
Proof. unfold is_dynstr, is_progbits, is_dynsym. intros [E%Z.eqb_eq _]%andb_true_iff. by rewrite E. Qed.
Lemma step_dynsym_set e x : is_dynsym x = true -> bias_ e = -4396 -> dynsym_ (step e x) = Some (sh_offset (fst x)) /\ dynsym_count_ (step e x) = entries (fst x).
Proof. intros H Hb. unfold upd. by rewrite H, Hb. Qed.
Lemma step_dynstr_set e x : is_dynstr x = true -> dynstr_ (step e x) = Some (sh_offset (fst x)).
Proof.
  intros H. pose proof (dynstr_types x H) as [_ H1]. unfold upd. rewrite H, H1. unfold is_dynstr in H. apply andb_true_iff in H as [H _]. apply Z.eqb_eq in H.
  unfold is_symtab. by rewrite H.
Qed.
(** A section seen is a pointer set. *)
Lemma seen_dynstr a e x : is_dynstr x = true -> In x a -> unset (dynstr_ (walk a e)) = false.
Proof.
  intros Hx. revert e. induction a as [|y a IH]; intros e []; cbn [fold_left]; [|by apply IH]. subst y.
  assert (Hk : forall l e, unset (dynstr_ e) = false -> unset (dynstr_ (walk l e)) = false).
  { clear. induction l as [|z l IH]; intros e H; [done|]. cbn [fold_left]. apply IH. destruct (is_dynstr z) eqn:E; [by rewrite step_dynstr_set|]. by rewrite step_dynstr. }
  apply Hk. by rewrite step_dynstr_set.
Qed.
Lemma only_around P u z r x : only P (u ++ z :: r) (Some x) -> P z = true -> none_of P u /\ none_of P r /\ z = x.
Proof.
  unfold only. rewrite List.filter_app. cbn [List.filter]. intros H Hz. rewrite Hz in H.
  destruct (List.filter P u) as [|y k] eqn:E; [|exfalso; apply (f_equal length) in H; rewrite length_app in H; cbn [length] in H; lia].
  cbn [app] in H. injection H as -> H. split_and!; [by apply only_none| |done]. by apply only_none.
Qed.
Lemma dynsym_at u1 u2 d e : is_dynsym d = true -> none_of is_dynsym u2 -> bias_ (walk u1 e) = -4396 -> dynsym_ (walk (u1 ++ d :: u2) e) = Some (sh_offset (fst d)) /\ dynsym_count_ (walk (u1 ++ d :: u2) e) = entries (fst d).
Proof.
  intros Hd H2 Hb. destruct (step_dynsym_set (walk u1 e) d Hd Hb) as [E1 E2]. rewrite <- E1, <- E2.
  split; [apply (walk_last false nothing dynsym_ is_dynsym)|apply (walk_last false nothing dynsym_count_ is_dynsym)]; try done; intros; by apply step_dynsym.
Qed.
Lemma bias_of_library u z v b c d ds l : l = u ++ z :: v ++ b :: c -> only is_dynsym l (Some d) -> only is_dynstr l (Some ds) -> is_dynsym d = true -> is_dynstr ds = true ->
  (z = d /\ In ds u \/ z = ds /\ In d u) -> none_of is_progbits v -> is_progbits b = true -> bias_of (fst b) <> -4396 -> bias_ (walk l new_image) = bias_of (fst b).
Proof.
  intros -> O1 O2 Hd Hds Hz Hv Hb Hne.
  assert (Hz' : is_progbits z = false) by (destruct Hz as [[-> _]|[-> _]]; [by apply dynsym_types|by apply dynstr_types]).
  assert (Hstate : bias_ (walk u new_image) = -4396 /\ dynsym_ (walk (u ++ [z]) new_image) <> None /\ unset (dynstr_ (walk (u ++ [z]) new_image)) = false).
  { destruct Hz as [[-> Hin]|[-> Hin]].
    - destruct (only_around _ _ _ _ _ O1 Hd) as (N1 & N2 & _). pose proof (early_dynsym u new_image N1 eq_refl) as Hbias. split_and!; [done| |].
      + destruct (dynsym_at u [] d new_image Hd ltac:(constructor) Hbias) as [-> _]. done.
      + eapply seen_dynstr; [exact Hds|]. apply List.in_app_iff. by left.
    - destruct (only_around _ _ _ _ _ O2 Hds) as (N1 & N2 & _). pose proof (early_dynstr u new_image N1 eq_refl) as Hbias. split_and!; [done| |].
      + apply List.in_split in Hin as (u1 & u2 & ->). apply none_app in N1 as [N1 _]. rewrite <- !app_assoc in *. cbn [app] in *.
        destruct (only_around _ _ _ _ _ O1 Hd) as (_ & N3 & _).
        destruct (dynsym_at u1 (u2 ++ [ds]) d new_image Hd) as [-> _]; [|by apply early_dynstr|done].
        apply none_app. apply none_app in N3 as [N3 N4]. split; [done|]. apply list.Forall_cons in N4 as [N4 _]. by repeat constructor.
      + eapply seen_dynstr; [exact Hds|]. apply List.in_app_iff. right. by left. }
  destruct Hstate as (S1 & S2 & S3). replace (u ++ z :: v ++ b :: c) with ((u ++ [z]) ++ v ++ b :: c) by (by rewrite <- app_assoc).
  rewrite !fold_left_app. cbn [fold_left]. set (e := walk u new_image) in *. rewrite fold_left_app in S2, S3. cbn [fold_left] in S2, S3. fold e in S2, S3.
  set (e1 := step e z) in *. set (e2 := walk v e1).
  assert (B2 : bias_ e2 = -4396).
  { subst e2. rewrite (walk_keeps false nothing bias_ is_progbits); [subst e1; by rewrite step_bias|by intros; apply step_bias|done]. }
  assert (D2 : unset (dynsym_ e2) = false /\ unset (dynstr_ e2) = false).
  { subst e2. clearbody e1. clear B2. revert e1 S2 S3. clear. induction v as [|x v IH]; intros e1 S2 S3; [split; [cbn [fold_left]; by destruct (dynsym_ e1)|done]|]. cbn [fold_left]. apply IH.
    - unfold upd. repeat case_match; done.
    - unfold upd. repeat case_match; done. }
  assert (B3 : bias_ (step e2 b) = bias_of (fst b)).
  { unfold upd. pose proof Hb as Hb'. unfold is_progbits in Hb'. apply Z.eqb_eq in Hb'. unfold is_dynsym, is_symtab, is_dynstr, is_strtab. rewrite Hb, Hb', B2. cbn [andb].
    destruct D2 as [-> ->]. cbn [orb Z.eqb]. by destruct (is_debugdata b). }
  rewrite walk_bias_set by (by rewrite B3). exact B3.
Qed.

Lemma walk_library l d ds b os ot : library l d ds b os ot -> let e := walk l new_image in
  dynsym_ e = Some (sh_offset (fst d)) /\ dynsym_count_ e = entries (fst d) /\ dynstr_ e = Some (sh_offset (fst ds)) /\
  symtab_ e = option_map (fun x => sh_offset (fst x)) os /\ symtab_count_ e = from_option (fun x => entries (fst x)) 0 os /\
  strtab_ e = option_map (fun x => sh_offset (fst x)) ot /\ bias_ e = bias_of (fst b) /\ symtab_from_debugdata_ e = None.
Proof.
  intros [O1 O2 O3 O4 O5 (u & z & v & c & El & Hz & Hv & Hb & Hne)] e.
  destruct (only_some _ _ _ O1) as (a & a2 & Ea & N1 & N2 & Hd). destruct (only_some _ _ _ O2) as (r & r2 & Er & M1 & M2 & Hds).
  assert (Hdyn := dynsym_at a a2 d new_image Hd N2 (early_dynsym a new_image N1 eq_refl)). rewrite <- Ea in Hdyn. destruct Hdyn as [D1 D2].
  assert (Hsym : symtab_of false e = match os with Some x => (Some (sh_offset (fst x)), entries (fst x)) | None => (None, 0) end).
  { destruct os as [x|].
    - destruct (only_some _ _ _ O3) as (p & q & Ep & _ & Nq & Hx). subst e. rewrite Ep, (walk_last false nothing (symtab_of false) is_symtab); [by apply step_symtab_set|by intros; apply step_symtab|done].
    - subst e. by rewrite (walk_keeps false nothing (symtab_of false) is_symtab); [|by intros; apply step_symtab|apply only_none]. }
  assert (Hstr : strtab_of false e = option_map (fun x => sh_offset (fst x)) ot).
  { destruct ot as [x|].
    - destruct (only_some _ _ _ O4) as (p & q & Ep & _ & Nq & Hx). subst e. rewrite Ep, (walk_last false nothing (strtab_of false) is_strtab); [by apply step_strtab_set|by intros; apply step_strtab|done].
    - subst e. by rewrite (walk_keeps false nothing (strtab_of false) is_strtab); [|by intros; apply step_strtab|apply only_none]. }
  split_and!; [exact D1|exact D2| | | |exact Hstr| |].
  - subst e. rewrite Er, (walk_last false nothing dynstr_ is_dynstr); [by apply step_dynstr_set|by intros; apply step_dynstr|done].
  - unfold symtab_of in Hsym. by destruct os; injection Hsym as -> _.
  - unfold symtab_of in Hsym. by destruct os; injection Hsym as _ ->.
  - by apply (bias_of_library u z v b c d ds l).
  - subst e. rewrite (walk_keeps false nothing symtab_from_debugdata_ is_debugdata); [done| |done]. intros e0 x Hx. by apply (step_debug false nothing e0 x).
Qed.
End Library.

(** ** Symbols *)

(** A symbol table, with the names. *)
Fixpoint table (mem : list Z) (p strs : Z) (l : list (Sym * list Z)) : Prop :=
  match l with
  | [] => True
  | (s, nm) :: l => read_Sym mem p = Some s /\ 0 <= strs + st_name s /\ cstring mem (strs + st_name s) = Some nm /\ table mem (p + sizeof_Sym) strs l
  end.
Definition is_function (s : Sym) : bool := (ELF_ST_TYPE (st_info s) =? STT_FUNC) && negb (st_size s =? 0).
Definition value_of (ok : Sym -> bool) (name : list Z) (l : list (Sym * list Z)) : option Z :=
  option_map (fun p => st_value (fst p)) (List.find (fun p => ok (fst p) && streq (snd p) name) l).
Lemma dynsym_loop_table mem strs name : Forall (fun c => c <> 0) name -> forall l p, table mem p strs l ->
  dynsym_loop mem (length l) p strs name = Some (value_of (fun _ => true) name l).
Proof.
  intros Hn. induction l as [|[s nm] l IH]; intros p Ht; [done|]. cbn [table] in Ht. destruct Ht as (E1 & E2 & E3 & E4). cbn [length dynsym_loop]. rewrite E1. cbn [mbind option_bind].
  rewrite (strcmp_eq_cstring name Hn mem _ nm E2 E3). cbn [mbind option_bind]. unfold value_of in *. cbn [List.find fst snd andb]. destruct (streq nm name); [done|]. by apply IH.
Qed.
Lemma symtab_loop_table mem strs name : Forall (fun c => c <> 0) name -> forall l p, table mem p strs l ->
  symtab_loop mem (length l) p strs name = Some (value_of is_function name l).
Proof.
  intros Hn. induction l as [|[s nm] l IH]; intros p Ht; [done|]. cbn [table] in Ht. destruct Ht as (E1 & E2 & E3 & E4). cbn [length symtab_loop]. rewrite E1. cbn [mbind option_bind].
  rewrite (strcmp_eq_cstring name Hn mem _ nm E2 E3). unfold value_of in *. cbn [List.find fst snd]. fold (is_function s).
  destruct (is_function s); cbn [mbind option_bind andb]; [destruct (streq nm name); [done|]|]; by apply IH.
Qed.

(** A file that is laid out like this. *)
Record file_of (mem : list Z) (l : list Section_) (d ds b : Section_) (os ot : option Section_) (dyn syms : list (Sym * list Z)) : Prop := {
  fi_sections : exists shoff k strsec entsize, e_shoff mem = Some shoff /\ e_shstrndx mem = Some k /\ read_Shdr mem (shoff + k * sizeof_Shdr) = Some strsec /\
    e_shnum mem = Some (Z.of_nat (length l)) /\ e_shentsize mem = Some entsize /\ sections_at mem shoff entsize (sh_offset strsec) l;
  fi_entries : Forall (fun x => is_dynsym x || is_symtab x = true -> sh_entsize (fst x) <> 0) l;
  fi_library : library l d ds b os ot;
  fi_dynsym : table mem (sh_offset (fst d)) (sh_offset (fst ds)) dyn /\ Z.of_nat (length dyn) = entries (fst d);
  fi_symtab : match os, ot with
              | Some y, Some t => table mem (sh_offset (fst y)) (sh_offset (fst t)) syms /\ Z.of_nat (length syms) = entries (fst y)
              | _, _ => syms = []
              end }.


(** ** A small library *)

Definition shdr_bytes (n t a o s l e : Z) : list Z :=
  le_bytes 4 n ++ le_bytes 4 t ++ le_bytes 8 0 ++ le_bytes 8 a ++ le_bytes 8 o ++ le_bytes 8 s ++ le_bytes 4 l ++ le_bytes 4 0 ++ le_bytes 8 0 ++ le_bytes 8 e.
Definition sym_bytes (n i v s : Z) : list Z := le_bytes 4 n ++ [i; 0; 0; 0] ++ le_bytes 8 v ++ le_bytes 8 s.
(** Names, symbols, and sections: null, .dynsym, .dynstr, .text, the names. *)
Definition some_names : list Z := [0] ++ str "open" ++ [0] ++ str ".dynsym" ++ [0] ++ str ".dynstr" ++ [0] ++ str ".text" ++ [0].
Definition some_library : list Z :=
  [0x7f; 69; 76; 70; 2] ++ repeat 0 35 ++ le_bytes 8 (64 + 28 + 48) ++ repeat 0 10 ++ le_bytes 2 64 ++ le_bytes 2 5 ++ le_bytes 2 4 ++
  some_names ++ sym_bytes 0 0 0 0 ++ sym_bytes 1 18 0x5010 8 ++
  shdr_bytes 0 0 0 0 0 0 0 ++ shdr_bytes 6 SHT_DYNSYM 0 (64 + 28) 48 2 24 ++ shdr_bytes 14 SHT_STRTAB 0 64 28 0 0 ++
  shdr_bytes 22 SHT_PROGBITS 0x5000 0x1000 16 0 0 ++ shdr_bytes 0 SHT_STRTAB 0 64 28 0 0 ++ [0].
Definition a_null : Section_ := (MkShdr 0 0 0 0 0 0 0, []).
Definition a_dynsym : Section_ := (MkShdr 6 SHT_DYNSYM 0 92 48 2 24, str ".dynsym").
Definition a_dynstr : Section_ := (MkShdr 14 SHT_STRTAB 0 64 28 0 0, str ".dynstr").
Definition a_text : Section_ := (MkShdr 22 SHT_PROGBITS 0x5000 0x1000 16 0 0, str ".text").
Definition a_names : Section_ := (MkShdr 0 SHT_STRTAB 0 64 28 0 0, []).
Lemma some_library_file : file_of some_library [a_null; a_dynsym; a_dynstr; a_text; a_names] a_dynsym a_dynstr a_text None None
  [(MkSym 0 0 0 0, []); (MkSym 1 18 0x5010 8, str "open")] [].
Proof.
  split.
  - exists 140, 4, (fst a_names), 64. split_and!; by vm_compute.
  - repeat constructor; by vm_compute.
  - split; try (by vm_compute); [repeat constructor; by vm_compute|]. exists [a_null; a_dynsym], a_dynstr, [], [a_names].
    split; [done|]. split; [right; split; [done|right; by left]|]. split; [constructor|]. split; by vm_compute.
  - split; [|by vm_compute]. cbn [table]. split_and!; by vm_compute.
  - done.
Qed.
Example open_found : (e ← Parse some_library (fun _ => None); GetSymbolAddress some_library e 0x7000000000 (fun _ => 0) (str "open")) = Some 0x7000001010.
Proof. by vm_compute. Qed.

End ElfImageProofs.

(** * The injector on the same file *)
Module ElfUtilDemo.
Import ElfH ElfUtil ElfUtilProofs ElfImageProofs.

Lemma some_library_ends : some_library = removelast some_library ++ [0].
Proof. by vm_compute. Qed.
Definition the_library : list Z := removelast some_library.
Lemma ElfSymbolOffset_search_witness :
  exists v, ElfSymbolOffset (the_library ++ [0]) [str "close"; str "open"] = Some v /\
    (forall shoff shnum, header_ok (the_library ++ [0]) shoff shnum -> searched the_library [str "close"; str "open"] shoff shnum v) /\
    ((forall shoff shnum, ~ header_ok (the_library ++ [0]) shoff shnum) -> v = 0).
Proof.
  apply (ElfSymbolOffset_search the_library [str "close"; str "open"]).
  - apply (bool_decide_unpack (Forall (in_u 8) _)). by vm_compute.
  - repeat constructor; discriminate.
  - intros shoff H. assert (E : e_shoff (the_library ++ [0]) = Some 140) by (by vm_compute). rewrite E in H. by injection H as <-.
  - intros shoff shnum (_ & _ & _ & H1 & _ & H2 & _). assert (E : e_shoff (the_library ++ [0]) = Some 140) by (by vm_compute). rewrite E in H1. injection H1 as <-.
    assert (E2 : e_shnum (the_library ++ [0]) = Some 5) by (by vm_compute). rewrite E2 in H2. injection H2 as <-.
    intros i s Hi Hs. assert (Hc : i = 0 \/ i = 1 \/ i = 2 \/ i = 3 \/ i = 4) by lia.
    destruct Hc as [->|[->|[->|[->| ->]]]]; vm_compute in Hs; injection Hs as <-; done.
Defined.
Example open_offset : ElfSymbolOffset some_library [str "close"; str "open"] = Some 0x5010.
Proof. by vm_compute. Qed.
(** A section whose offset and size wrap around passes the checks and is read
    far outside. *)
Definition wrapping : list Z :=
  take 140 some_library ++ shdr_bytes 0 0 0 0 0 0 0 ++ shdr_bytes 6 SHT_DYNSYM 0 (2 ^ 64 - 16) 48 2 24 ++ shdr_bytes 14 SHT_STRTAB 0 64 28 0 0 ++
  shdr_bytes 22 SHT_PROGBITS 0x5000 0x1000 16 0 0 ++ shdr_bytes 0 SHT_STRTAB 0 64 28 0 0 ++ [0].
Example wrapping_read_outside : ElfSymbolOffset wrapping [str "open"] = None.
Proof. by vm_compute. Qed.

End ElfUtilDemo.
