(* ===== verification/AgentPattern.v ===== *)
(** * Name patterns of the agent

    src/src/agent/agent_common.cpp: MatchWildcard, with [*] and [?], cases
    alike, the way it backtracks to the last star only;
    agent_java_resolve.cpp: MatchPatternSubstr, alternatives with [|];
    agent_native.cpp: ModuleNameMatches and ModuleNameMatchesSingle.

    Module AgentPatternProofs: the loop ends, a match is one in the sense of
    [glob], and all of them are found in subjects without a star. *)
From stdpp Require Import strings.
From S2P Require Import Prelude.
Local Open Scope cint_scope.

Module AgentPattern.

(** In the C locale. *)
Definition tolower (c : Z) : Z := if (65 <=? c) && (c <=? 90) then c + 32 else c.

(** [subject] from [s] and [pattern] from [p] on; [star] is the pattern from
    [starIdx + 1] and the subject from [match] on. *)
Fixpoint match_loop (fuel : nat) (subject pattern : list Z) (star : option (list Z * list Z)) : option bool :=
  match fuel with
  | O => None
  | S fuel =>
      match subject with
      | [] => Some (forallb (Z.eqb 42) pattern)
      | c :: s =>
          let back := match star with
                      | Some (p, m) => match_loop fuel (tail m) p (Some (p, tail m))
                      | None => Some false
                      end in
          match pattern with
          | a :: p =>
              if (a =? 63) || (tolower a =? tolower c) then match_loop fuel s p star
              else if a =? 42 then match_loop fuel subject p (Some (p, subject))
              else back
          | [] => back
          end
      end
  end.
Definition match_fuel (subject pattern : list Z) : nat :=
  S ((length subject + length pattern + 3) * S (length subject)).
Definition MatchWildcard (subject pattern : list Z) : option bool := match_loop (match_fuel subject pattern) subject pattern None.

(** [find] from a position on and [substr]: the terms between the bars. *)
Fixpoint terms (l : list Z) : list (list Z) :=
  match l with
  | [] => [[]]
  | c :: l => if c =? 124 then [] :: terms l else match terms l with t :: ts => (c :: t) :: ts | [] => [[c]] end
  end.
Definition blank (c : Z) : bool := (c =? 32) || (c =? 9).
Fixpoint skip_blanks (l : list Z) : list Z := match l with c :: t => if blank c then skip_blanks t else l | [] => [] end.
(** [find_first_not_of] and [find_last_not_of]. *)
Definition trim (l : list Z) : list Z := rev (skip_blanks (rev (skip_blanks l))).

Definition match_term (subject term : list Z) : option bool :=
  if bool_decide (term = []) then Some false
  else if bool_decide (term = [42]) then Some true
  else
    let wild := existsb (Z.eqb 42) term || existsb (Z.eqb 63) term in
    match term with
    | 61 :: ((_ :: _) as t) => MatchWildcard subject t
    | _ => if wild then MatchWildcard subject term else MatchWildcard subject ([42] ++ term ++ [42])
    end.
Fixpoint some_term (f : list Z -> option bool) (ts : list (list Z)) : option bool :=
  match ts with
  | [] => Some false
  | t :: ts => b ← f t; if b : bool then Some true else some_term f ts
  end.
Definition MatchPatternSubstr (subject pattern : list Z) : option bool :=
  if bool_decide (pattern = []) || bool_decide (pattern = [42]) then Some true
  else some_term (fun t => match_term subject (trim t)) (terms pattern).

(** What follows the last slash, and the name before [.so]. *)
Fixpoint base_name (l : list Z) : list Z :=
  match l with [] => [] | c :: t => if existsb (Z.eqb 47) l then base_name t else l end.
Definition without_so (l : list Z) : option (list Z) :=
  let n := (length l - 3)%nat in
  if (3 <? Z.of_nat (length l)) && bool_decide (drop n l = str ".so") then Some (take n l) else None.
Definition ModuleNameMatchesSingle (modField query : list Z) : option bool :=
  if bool_decide (query = []) || bool_decide (query = [42]) then Some true
  else
    let base := base_name modField in
    if bool_decide (modField = query) || bool_decide (base = query) || bool_decide (without_so modField = Some query) || bool_decide (without_so base = Some query)
    then Some true
    else b ← MatchWildcard base query; if b : bool then Some true else MatchWildcard modField query.
Definition ModuleNameMatches (modField query : list Z) : option bool :=
  if bool_decide (query = []) || bool_decide (query = [42]) then Some true
  else some_term (fun t => if bool_decide (t = []) then Some false else ModuleNameMatchesSingle modField t) (terms query).

Definition matches (s p : String.string) : option bool := MatchWildcard (str s) (str p).
Example matches_1 : matches "com.app.LoginActivity" "com.*login?ctivity" = Some true.
Proof. by vm_compute. Qed.
Example matches_2 : matches "aXbXc" "a*b*d" = Some false.
Proof. by vm_compute. Qed.
(** A star of the subject is taken for the character, with no way back. *)
Example star_in_subject : matches "*ab" "*" = Some false.
Proof. by vm_compute. Qed.
Example alternatives : MatchPatternSubstr (str "onCreate") (str " foo | reat |=x*") = Some true.
Proof. by vm_compute. Qed.
Example module_name : ModuleNameMatches (str "/system/lib64/libart.so") (str "libc|libart") = Some true.
Proof. by vm_compute. Qed.

End AgentPattern.

Module AgentPatternProofs.
Import AgentPattern.

(** ** What a pattern says *)

Inductive glob : list Z -> list Z -> Prop :=
  | glob_nil : glob [] []
  | glob_any p c s : glob p s -> glob (63 :: p) (c :: s)
  | glob_char a c p s : a <> 42 -> a <> 63 -> tolower a = tolower c -> glob p s -> glob (a :: p) (c :: s)
  | glob_star p t s : glob p s -> glob (42 :: p) (t ++ s).

Definition no_star : list Z -> Prop := Forall (fun c => c <> 42).

Lemma glob_star_inv p s : glob (42 :: p) s -> exists t u, s = t ++ u /\ glob p u.
Proof. inversion 1; subst; [done|by do 2 eexists]. Qed.
Lemma glob_absorb p y t : glob (42 :: p) t -> glob (42 :: p) (y ++ t).
Proof. intros (t1 & u & -> & H)%glob_star_inv. rewrite app_assoc. by constructor. Qed.
Lemma glob_star_cons p c s : glob (42 :: p) (c :: s) <-> glob p (c :: s) \/ glob (42 :: p) s.
Proof.
  split.
  - intros ([|x t] & u & E & H)%glob_star_inv; cbn [app] in E; [left; by subst|right]. injection E as -> ->. by constructor.
  - intros [H|H]; [by apply (glob_star p [])|by apply (glob_absorb p [c])].
Qed.
Lemma glob_star_nil p : glob (42 :: p) [] <-> glob p [].
Proof.
  split; [|by apply (glob_star p [])]. intros (t & u & E & H)%glob_star_inv. symmetry in E. by apply app_nil in E as [_ ->].
Qed.
Lemma glob_nil_iff p : glob p [] <-> forallb (Z.eqb 42) p = true.
Proof.
  induction p as [|a p IH]; cbn [forallb]; [split; constructor|]. destruct (Z.eqb_spec 42 a) as [<-|Ha]; cbn [andb].
  - by rewrite glob_star_nil.
  - split; [|done]. inversion 1; subst; done.
Qed.
Lemma tolower_star c : tolower 42 = tolower c -> c = 42.
Proof. unfold tolower. change (if (65 <=? 42) && (42 <=? 90) then 42 + 32 else 42) with 42. destruct (_ && _) eqn:?; lia. Qed.
(** A character step, wild or not. *)
Lemma glob_step a p c s : (a =? 63) || (tolower a =? tolower c) = true -> glob p s -> glob (a :: p) (c :: s).
Proof.
  intros H Hg. destruct (Z.eqb_spec a 63) as [->|]; [by constructor|]. apply Z.eqb_eq in H. destruct (Z.eqb_spec a 42) as [->|]; [|by constructor].
  apply tolower_star in H as ->. by apply (glob_star p [42]).
Qed.
Lemma glob_step_inv a p c s : a <> 42 -> glob (a :: p) (c :: s) -> (a =? 63) || (tolower a =? tolower c) = true /\ glob p s.
Proof. intros Ha. inversion 1; subst; [done| |done]. split; [|done]. apply orb_true_iff. right. by apply Z.eqb_eq. Qed.
(** As many characters as the pattern has up to its first star. *)
Lemma glob_prefix q p s : no_star q -> glob (q ++ p) s -> exists x t, s = x ++ t /\ length x = length q /\ glob p t.
Proof.
  intros Hq. revert s. induction Hq as [|a q Ha Hq IH]; intros s H; [by exists [], s|]. destruct s as [|c s]; [inversion H; subst; done|].
  apply glob_step_inv in H as [_ H]; [|done]. destruct (IH _ H) as (x & t & -> & Hl & Hg). exists (c :: x), t. cbn [app length]. by rewrite Hl.
Qed.

(** ** The loop *)

Definition star_state := option (list Z * list Z).
(** Since the last star, as many characters of the one as of the other have
    been read. *)
Definition read_since (star : star_state) (subject pattern : list Z) : Prop :=
  match star with
  | None => True
  | Some (p, m) => exists w q, m = w ++ subject /\ p = q ++ pattern /\ length w = length q /\ (no_star m -> no_star q)
  end.
(** Some match is still possible: from here, or with more for the last star. *)
Definition alive (star : star_state) (subject pattern : list Z) : Prop :=
  glob pattern subject \/ match star with Some (p, m) => glob (42 :: p) (tail m) | None => False end.
Definition clean (star : star_state) (subject : list Z) : Prop :=
  no_star subject /\ match star with Some (_, m) => no_star m | None => True end.
Definition bounded (n k : nat) (star : star_state) (subject pattern : list Z) : Prop :=
  match star with None => length subject <= n /\ length pattern <= k | Some (_, m) => length m <= n end%nat.
Definition measure (n k : nat) (star : star_state) (subject : list Z) : nat :=
  (match star with None => n + k + 2 | Some (p, m) => length m + length p end * S n + length subject)%nat.

(** A second star: what the first could still take, the second can too. *)
Lemma star_takes_over star c s p : read_since star (c :: s) (42 :: p) -> clean star (c :: s) -> alive star (c :: s) (42 :: p) -> glob (42 :: p) (c :: s).
Proof.
  intros Hr [_ Hc] [H|H]; [done|]. destruct star as [[p0 m]|]; [|done]. destruct Hr as (w & q & -> & -> & Hl & Hq).
  apply glob_star_inv in H as (t & u & E & H). apply glob_prefix in H as (x & v & -> & Hx & Hg); [|by apply Hq].
  assert (Hs : exists y, c :: s = y ++ v).
  { destruct w as [|b w]; cbn [app tail] in E; [exists (c :: t ++ x); cbn [app]; by rewrite E, app_assoc|].
    exists (drop (length w) (t ++ x)). rewrite app_assoc in E. apply (f_equal (drop (length w))) in E. rewrite drop_app_length in E.
    rewrite E, drop_app_le; [done|]. rewrite length_app. cbn [length] in Hl. lia. }
  destruct Hs as [y ->]. by apply glob_absorb.
Qed.
Lemma no_way_back star pattern : read_since star [] pattern -> clean star [] -> alive star [] pattern -> glob pattern [].
Proof.
  intros Hr [_ Hc] [H|H]; [done|]. destruct star as [[p0 m]|]; [|done]. destruct Hr as (w & q & Hm & -> & Hl & Hq). rewrite app_nil_r in Hm. subst m.
  apply glob_star_inv in H as (t & u & E & H). apply glob_prefix in H as (x & v & -> & Hx & Hg); [|by apply Hq].
  apply (f_equal length) in E. rewrite !length_app in E. destruct w as [|b w]; cbn [tail length] in *; [destruct v; [done|cbn [length] in E; lia]|lia].
Qed.

Lemma no_star_tail m : no_star m -> no_star (tail m).
Proof. by intros []; [constructor|]. Qed.
Lemma char_no_star a c : c <> 42 -> (a =? 63) || (tolower a =? tolower c) = true -> a <> 42.
Proof. intros Hc H ->. apply Hc, tolower_star. by apply Z.eqb_eq. Qed.

(** The three steps: a character, a star, and the way back. *)
Lemma read_since_step star a c s p : (a =? 63) || (tolower a =? tolower c) = true -> read_since star (c :: s) (a :: p) -> read_since star s p.
Proof.
  destruct star as [[p0 m]|]; [|done]. intros H (w & q & -> & -> & Hl & Hq). exists (w ++ [c]), (q ++ [a]). rewrite <- !app_assoc, !length_app. cbn [app length].
  do 2 (split; [done|]). split; [lia|]. intros Hn. pose proof (Hq Hn). apply list.Forall_app. split; [done|]. constructor; [|done].
  apply list.Forall_app in Hn as [_ Hn]. inversion Hn; subst. by apply (char_no_star a c).
Qed.
Lemma alive_step star a c s p : (a =? 63) || (tolower a =? tolower c) = true ->
  (alive star s p -> alive star (c :: s) (a :: p)) /\ (clean star (c :: s) -> alive star (c :: s) (a :: p) -> clean star s /\ alive star s p).
Proof.
  intros H. split; [intros [Hg|Hg]; [left; by apply glob_step|by right]|]. intros [Hc1 Hc2] Ha. inversion Hc1 as [|? ? Hc Hs]; subst.
  split; [done|]. destruct Ha as [Hg|Hg]; [left|by right]. refine (proj2 (glob_step_inv a p c s _ Hg)). by apply (char_no_star a c).
Qed.
Lemma alive_star star c s p : read_since star (c :: s) (42 :: p) ->
  (alive (Some (p, c :: s)) (c :: s) p -> alive star (c :: s) (42 :: p)) /\
  (clean star (c :: s) -> alive star (c :: s) (42 :: p) -> clean (Some (p, c :: s)) (c :: s) /\ alive (Some (p, c :: s)) (c :: s) p).
Proof.
  intros Hr. split; [by left; apply glob_star_cons|]. intros Hc Ha. split; [by destruct Hc|]. by apply glob_star_cons, (star_takes_over star).
Qed.
Lemma alive_back p m subject pattern : ~ glob pattern subject ->
  (alive (Some (p, tail m)) (tail m) p -> alive (Some (p, m)) subject pattern) /\
  (clean (Some (p, m)) subject -> alive (Some (p, m)) subject pattern -> clean (Some (p, tail m)) (tail m) /\ alive (Some (p, tail m)) (tail m) p).
Proof.
  intros Hno. assert (Ha : alive (Some (p, tail m)) (tail m) p <-> glob (42 :: p) (tail m)).
  { unfold alive. destruct (tail m) as [|x u]; [cbn [tail]; rewrite glob_star_nil; tauto|]. by rewrite glob_star_cons. }
  rewrite Ha. split; [by right|]. intros [_ Hc] [H|H]; [done|]. split; [|done]. by split; apply no_star_tail.
Qed.
Lemma no_match pattern c s : match pattern with [] => True | a :: _ => a <> 42 /\ (a =? 63) || (tolower a =? tolower c) = false end -> ~ glob pattern (c :: s).
Proof.
  destruct pattern as [|a p]; [by inversion 2|]. intros [Ha Hp] H. apply glob_step_inv in H as [H _]; [|done]. by rewrite H in Hp.
Qed.

Lemma match_loop_glob n k fuel : forall star subject pattern, read_since star subject pattern -> bounded n k star subject pattern -> (measure n k star subject < fuel)%nat ->
  exists b, match_loop fuel subject pattern star = Some b /\ (b = true -> alive star subject pattern) /\ (clean star subject -> alive star subject pattern -> b = true).
Proof.
  induction fuel as [|fuel IH]; intros star subject pattern Hr Hb Hm; [lia|]. cbn [match_loop]. destruct subject as [|c s].
  { eexists. split; [done|]. rewrite <- glob_nil_iff. split; [by left|]. by apply no_way_back. }
  assert (Hthen : forall star' subject' pattern', read_since star' subject' pattern' -> bounded n k star' subject' pattern' -> (measure n k star' subject' < fuel)%nat ->
    (alive star' subject' pattern' -> alive star (c :: s) pattern) /\ (clean star (c :: s) -> alive star (c :: s) pattern -> clean star' subject' /\ alive star' subject' pattern') ->
    exists b, match_loop fuel subject' pattern' star' = Some b /\ (b = true -> alive star (c :: s) pattern) /\ (clean star (c :: s) -> alive star (c :: s) pattern -> b = true)).
  { intros star' subject' pattern' H1 H2 H3 [Hs Hc]. destruct (IH _ _ _ H1 H2 H3) as (b & E & Hb1 & Hb2). exists b. split; [done|]. split; [tauto|].
    intros Hcl Ha. destruct (Hc Hcl Ha). by apply Hb2. }
  set (back := match star with Some _ => _ | None => _ end).
  assert (Hback : ~ glob pattern (c :: s) -> exists b, back = Some b /\ (b = true -> alive star (c :: s) pattern) /\ (clean star (c :: s) -> alive star (c :: s) pattern -> b = true)).
  { intros Hno. unfold back. destruct star as [[p m]|]; [|eexists; split; [done|]; split; [done|]; by intros _ [H|H]].
    apply Hthen; [| | |by apply alive_back]; destruct Hr as (w & q & -> & -> & _ & _).
    - exists [], []. do 3 (split; [done|]). by constructor.
    - destruct w; cbn in *; lia.
    - destruct w; cbn in *; rewrite ?length_app in *; cbn in *; nia. }
  destruct pattern as [|a p]; [by apply Hback, no_match|]. destruct (_ || _) eqn:Estep; [|destruct (Z.eqb_spec a 42) as [->|Ha]; [|by apply Hback, no_match]].
  - apply Hthen; [by apply (read_since_step _ a c)| |unfold measure in *; cbn [length] in Hm; lia|by apply alive_step]. destruct star as [[p0 m]|]; cbn in *; lia.
  - apply Hthen; [| | |by apply alive_star].
    + exists [], []. do 3 (split; [done|]). by constructor.
    + destruct star as [[p0 m]|]; cbn in *; [destruct Hr as (w & q & -> & _); rewrite length_app in Hb; cbn in Hb|]; lia.
    + destruct star as [[p0 m]|]; cbn in *; [destruct Hr as (w & q & -> & -> & _); rewrite !length_app in *; cbn in *|]; nia.
Qed.

Lemma MatchWildcard_correct subject pattern : exists b, MatchWildcard subject pattern = Some b /\ (b = true -> glob pattern subject) /\ (no_star subject -> glob pattern subject -> b = true).
Proof.
  destruct (match_loop_glob (length subject) (length pattern) (match_fuel subject pattern) None subject pattern) as (b & E & H1 & H2).
  - done.
  - done.
  - unfold measure, match_fuel. lia.
  - exists b. split; [done|]. split; [by intros [H|H]%H1|]. intros Hs H. apply H2; [done|by left].
Qed.
Lemma MatchWildcard_iff subject pattern : no_star subject -> exists b, MatchWildcard subject pattern = Some b /\ (b = true <-> glob pattern subject).
Proof. intros Hs. destruct (MatchWildcard_correct subject pattern) as (b & E & H1 & H2). exists b. split; [done|]. split; [done|by apply H2]. Qed.

(** ** Terms *)

Definition plain (t : list Z) : Prop := Forall (fun c => c <> 42 /\ c <> 63) t.
Definition same_letters (a b : list Z) : Prop := List.map tolower a = List.map tolower b.
Definition occurs (t s : list Z) : Prop := exists a b c, s = a ++ b ++ c /\ same_letters b t.

Lemma glob_plain t s : plain t -> glob (t ++ [42]) s <-> exists b c, s = b ++ c /\ same_letters b t.
Proof.
  intros Ht. revert s. induction Ht as [|a t [Ha Hq] Ht IH]; intros s; cbn [app].
  - split; [by exists [], s|]. intros _. rewrite <- (app_nil_r s). constructor. constructor.
  - split.
    + intros H. inversion H as [|p c s' Hg E|a' c p s' _ _ Hl Hg E|p t' s' Hg E]; [by subst| |by subst]. apply IH in Hg as (b & r & -> & Hb).
      exists (c :: b), r. split; [done|]. unfold same_letters in *. cbn [List.map]. by rewrite Hl, Hb.
    + intros ([|c b] & r & -> & Hb); [done|]. injection Hb as Hc Hb. cbn [app]. constructor; [done|done|done|]. apply IH. by exists b, r.
Qed.
Lemma glob_occurs t s : plain t -> glob ([42] ++ t ++ [42]) s <-> occurs t s.
Proof.
  intros Ht. cbn [app]. split.
  - intros (a & u & -> & H)%glob_star_inv. apply glob_plain in H as (b & c & -> & Hb); [|done]. by exists a, b, c.
  - intros (a & b & c & -> & Hb). constructor. apply glob_plain; [done|]. by exists b, c.
Qed.

(** What a term of a pattern selects. *)
Definition selects (t s : list Z) : Prop :=
  match t with
  | [] => False
  | 61 :: ((_ :: _) as g) => glob g s
  | _ => (plain t /\ occurs t s) \/ (~ plain t /\ glob t s)
  end.

Lemma existsb_none a t : existsb (Z.eqb a) t = false <-> Forall (fun c => c <> a) t.
Proof.
  induction t as [|c t IH]; cbn [existsb]; [by split|]. rewrite orb_false_iff, Z.eqb_neq, IH, list.Forall_cons. intuition congruence.
Qed.
Lemma wild_plain t : existsb (Z.eqb 42) t || existsb (Z.eqb 63) t = false <-> plain t.
Proof. unfold plain. rewrite orb_false_iff, !existsb_none. symmetry. apply list.Forall_and. Qed.
Lemma glob_any_text s : glob [42] s.
Proof. rewrite <- (app_nil_r s). do 2 constructor. Qed.

Lemma match_term_selects s t : no_star s -> exists b, match_term s t = Some b /\ (b = true <-> selects t s).
Proof.
  intros Hs. unfold match_term. case_bool_decide as E1; [subst; by exists false|]. case_bool_decide as E2.
  { subst. exists true. split; [done|]. split; [|done]. intros _. right. split; [intros H; inversion H as [|? ? [? _]]; by subst|apply glob_any_text]. }
  cbv zeta. set (b := existsb _ _ || _).
  assert (Hgen : exists r, (if b then MatchWildcard s t else MatchWildcard s ([42] ++ t ++ [42])) = Some r /\ (r = true <-> (plain t /\ occurs t s) \/ (~ plain t /\ glob t s))).
  { destruct b eqn:Eb; subst b.
    - destruct (MatchWildcard_iff s t Hs) as (r & -> & Hr). exists r. split; [done|]. rewrite Hr. split; [|by intros [[H _]|[_ H]]; [apply wild_plain in H; congruence|]].
      intros H. right. split; [|done]. rewrite <- wild_plain. by rewrite Eb.
    - apply wild_plain in Eb. destruct (MatchWildcard_iff s ([42] ++ t ++ [42]) Hs) as (r & -> & Hr). exists r. split; [done|]. rewrite Hr, glob_occurs by done. tauto. }
  unfold selects. destruct t as [|a t]; [done|]. clearbody b.
  destruct a as [|p|p]; [exact Hgen| |exact Hgen]. destruct (Pos.eq_dec p 61) as [->|Hp].
  - destruct t; [exact Hgen|by apply MatchWildcard_iff].
  - do 6 (destruct p as [p|p|]; try exact Hgen). by destruct t.
Qed.
Lemma some_term_exists f (P : list Z -> Prop) ts : (forall t, t ∈ ts -> exists b, f t = Some b /\ (b = true <-> P t)) -> exists b, some_term f ts = Some b /\ (b = true <-> exists t, t ∈ ts /\ P t).
Proof.
  induction ts as [|t ts IH]; intros Hf; cbn [some_term].
  { exists false. split; [done|]. split; [done|]. intros (t & H & _). by apply elem_of_nil in H. }
  destruct (Hf t) as (b & -> & Hb); [by left|]. destruct IH as (r & Er & Hr); [intros u Hu; apply Hf; by right|]. cbn [mbind option_bind]. destruct b.
  - exists true. split; [done|]. split; [|done]. intros _. exists t. split; [by left|by apply Hb].
  - exists r. split; [done|]. rewrite Hr. split; [intros (u & Hu & Hp); exists u; by split; [right|]|]. intros (u & [->|Hu]%elem_of_cons & Hp); [by apply Hb in Hp|by exists u].
Qed.

Lemma base_name_no_star l : no_star l -> no_star (base_name l).
Proof. induction 1 as [|c t Hc Ht IH]; cbn [base_name]; [constructor|]. destruct (existsb _ _); [done|by constructor]. Qed.

(** ** The theorems *)

(** C29: MatchWildcard returns for every subject and pattern.  What it accepts
    is matched by the pattern, cases alike, with [?] for a character and [*]
    for any text; and it accepts all that is matched, in a subject without a
    star, although it goes back to the last star of the pattern only. *)
Theorem MatchWildcard_glob subject pattern : exists b, MatchWildcard subject pattern = Some b /\
  (b = true -> glob pattern subject) /\ (no_star subject -> glob pattern subject -> b = true).
Proof. apply MatchWildcard_correct. Qed.

(** MatchPatternSubstr returns, and in a subject without a star it is true
    exactly if the pattern is empty or, between its bars and without the
    blanks around it, has a term that selects the subject: after an equals
    sign or with a wildcard as a whole, and else if the term occurs in it,
    cases alike. *)
Theorem MatchPatternSubstr_selects s p : no_star s -> exists b, MatchPatternSubstr s p = Some b /\
  (b = true <-> p = [] \/ exists t, t ∈ terms p /\ selects (trim t) s).
Proof.
  intros Hs. unfold MatchPatternSubstr. case_bool_decide as E1; [exists true; split; [done|]; split; [by left|done]|]. case_bool_decide as E2.
  { exists true. split; [done|]. split; [|done]. intros _. right. subst. exists [42]. split; [by left|]. right. split; [|apply glob_any_text].
    intros H. inversion H as [|? ? [? _]]; by subst. }
  cbn [orb]. destruct (some_term_exists (fun t => match_term s (trim t)) (fun t => selects (trim t) s) (terms p)) as (b & E & Hb).
  - intros t _. by apply match_term_selects.
  - exists b. split; [done|]. rewrite Hb. split; [by right|by intros [H|H]].
Qed.
Lemma MatchPatternSubstr_selects_witness : exists b, MatchPatternSubstr (str "onCreate") (str " foo | reat |=x*") = Some b /\
  (b = true <-> str " foo | reat |=x*" = [] \/ exists t, t ∈ terms (str " foo | reat |=x*") /\ selects (trim t) (str "onCreate")).
Proof. apply MatchPatternSubstr_selects. repeat constructor; vm_compute; discriminate. Defined.

(** Modules are found by their path, their name, either without [.so], or a
    pattern for one of them. *)
Theorem ModuleNameMatches_selects m q : no_star m -> exists b, ModuleNameMatches m q = Some b /\
  (b = true <-> q = [] \/ exists t, t ∈ terms q /\ t <> [] /\
    (t = m \/ t = base_name m \/ without_so m = Some t \/ without_so (base_name m) = Some t \/ glob t m \/ glob t (base_name m))).
Proof.
  intros Hm. pose proof (base_name_no_star m Hm) as Hn. unfold ModuleNameMatches. case_bool_decide as E1; [exists true; split; [done|]; split; [by left|done]|]. case_bool_decide as E2.
  { exists true. split; [done|]. split; [|done]. intros _. right. subst. exists [42]. split; [by left|]. split; [done|]. do 4 right. left. apply glob_any_text. }
  cbn [orb]. match goal with |- context [some_term ?f _] => destruct (some_term_exists f (fun t => t <> [] /\
    (t = m \/ t = base_name m \/ without_so m = Some t \/ without_so (base_name m) = Some t \/ glob t m \/ glob t (base_name m))) (terms q)) as (b & E & Hb) end.
  - intros t _. case_bool_decide as Et; [exists false; split; [done|]; split; [done|by intros []]|]. unfold ModuleNameMatchesSingle.
    case_bool_decide; [done|]. case_bool_decide; [subst; exists true; split; [done|]; split; [|done]; intros _; split; [done|]; do 4 right; left; apply glob_any_text|].
    cbn [orb]. destruct (MatchWildcard_iff (base_name m) t Hn) as (b1 & -> & H1), (MatchWildcard_iff m t Hm) as (b2 & -> & H2). cbn [mbind option_bind].
    repeat case_bool_decide; subst; cbn [orb]; destruct b1, b2; eexists; (split; [done|]); naive_solver.
  - exists b. split; [done|]. rewrite Hb. split; [by right|by intros [H|H]].
Qed.
End AgentPatternProofs.
