(* ===== verification/ReplText.v ===== *)
(** * The text side of the REPL client

    src/cli/injector/repl_client.cpp: the lists of names the agent answers
    with (JsonUnescape, ExtractJsonStringArray, QuoteJsString), when a snippet
    is complete (IsJsInputComplete, TrimTrailingBackslash and the reading of
    lines in ReadInteractiveLine), and what the Tab key completes
    (FindCompletionContext, FindLongestCommonPrefix).  The networking and the
    terminal are not modelled here.

    Module ReplTextProofs: arrays of strings are read as JSON has them, a
    snippet is complete when its comments, strings and brackets are, and a
    completion replaces exactly the name in front of the cursor. *)
From stdpp Require Import strings.
From S2P Require Import Prelude.
From S2P Require Import UnityPreprocess.
From S2P Require Import AgentPattern.
Local Open Scope cint_scope.

Module ReplText.
Import UnityPreprocess(isalnum, span).
Import AgentPattern(tolower).

(** ** JSON *)

Definition hex_value (h : Z) : option Z :=
  if (48 <=? h) && (h <=? 57) then Some (h - 48)
  else if (97 <=? h) && (h <=? 102) then Some (h - 97 + 10)
  else if (65 <=? h) && (h <=? 70) then Some (h - 65 + 10)
  else None.
Definition code_point (h1 h2 h3 h4 : Z) : option Z :=
  v1 ← hex_value h1; v2 ← hex_value h2; v3 ← hex_value h3; v4 ← hex_value h4;
  Some ((((((v1 << 4) .| v2) << 4) .| v3) << 4) .| v4).
Definition push_code_point (cp : Z) : list Z :=
  if cp <? 0x80 then [cp]
  else if cp <? 0x800 then [0xC0 .| (cp >> 6); 0x80 .| (cp & 0x3F)]
  else [0xE0 .| (cp >> 12); 0x80 .| ((cp >> 6) & 0x3F); 0x80 .| (cp & 0x3F)].
(** The escapes of one character. *)
Definition escaped_char (n : Z) : option Z :=
  if (n =? 34) || (n =? 92) || (n =? 47) then Some n
  else if n =? 98 then Some 8 else if n =? 102 then Some 12 else if n =? 110 then Some 10
  else if n =? 114 then Some 13 else if n =? 116 then Some 9 else None.
Fixpoint JsonUnescape (s : list Z) : list Z :=
  match s with
  | [] => []
  | 92 :: ((n :: s) as rest) =>
      match escaped_char n with
      | Some c => c :: JsonUnescape s
      | None =>
          if n =? 117 then
            match s with
            | h1 :: h2 :: h3 :: h4 :: t =>
                match code_point h1 h2 h3 h4 with
                | Some cp => push_code_point cp ++ JsonUnescape t
                | None => 92 :: 117 :: JsonUnescape s
                end
            | _ => 92 :: 117 :: JsonUnescape s
            end
          else 92 :: n :: JsonUnescape s
      end
  | c :: s => c :: JsonUnescape s
  end.

(** What follows the first [c], and what starts with the first [k]. *)
Fixpoint find_char (c : Z) (l : list Z) : option (list Z) :=
  match l with [] => None | a :: l => if a =? c then Some l else find_char c l end.
Fixpoint find_text (k l : list Z) : option (list Z) :=
  if starts_with k l then Some l else match l with [] => None | _ :: l => find_text k l end.
(** The text before the bracket that closes the array. *)
Fixpoint close_bracket (inQuote esc : bool) (l : list Z) : option (list Z) :=
  match l with
  | [] => None
  | c :: l =>
      if esc then cons c <$> close_bracket inQuote false l
      else if c =? 92 then cons c <$> close_bracket inQuote true l
      else if c =? 34 then cons c <$> close_bracket (negb inQuote) false l
      else if (c =? 93) && negb inQuote then Some []
      else cons c <$> close_bracket inQuote false l
  end.
(** A string's text before its closing quote, and what follows that. *)
Fixpoint close_quote (esc : bool) (l : list Z) : option (list Z * list Z) :=
  match l with
  | [] => None
  | c :: l =>
      let go e := '(t, rest) ← close_quote e l; Some (c :: t, rest) in
      if esc then go false else if c =? 92 then go true else if c =? 34 then Some ([], l) else go false
  end.
(** From [cur] to [bracketClose]. *)
Fixpoint string_loop (fuel : nat) (body : list Z) : option (list (list Z)) :=
  match fuel with
  | O => None
  | S fuel =>
      match find_char 34 body with
      | None => Some []
      | Some q1 =>
          match close_quote false q1 with
          | None => Some []
          | Some (t, rest) => cons (JsonUnescape t) <$> string_loop fuel rest
          end
      end
  end.
Definition quoted (key : list Z) : list Z := [34] ++ key ++ [34].
Definition ExtractJsonStringArray (json key : list Z) : option (list (list Z)) :=
  match (if bool_decide (key = []) then Some json else find_text (quoted key) json) with
  | None => Some []
  | Some l =>
      match find_char 91 l with
      | None => Some []
      | Some l =>
          match close_bracket false false l with
          | None => Some []
          | Some body => string_loop (S (length body)) body
          end
      end
  end.

Definition quote_char (c : Z) : list Z :=
  if c =? 92 then [92; 92] else if c =? 34 then [92; 34] else if c =? 10 then [92; 110]
  else if c =? 13 then [92; 114] else if c =? 9 then [92; 116] else [c].
Definition QuoteJsString (s : list Z) : list Z := [34] ++ concat (List.map quote_char s) ++ [34].

(** ** Snippets *)

(** [inLineComment], [inBlockComment], [quote] with [escaped]: at most one of
    them is set. *)
Inductive Mode := Code | InLineComment | InBlockComment | InQuote (quote : Z) (escaped : bool).
Definition is_quote (c : Z) : bool := (c =? 39) || (c =? 34) || (c =? 96).
Definition is_open (c : Z) : bool := (c =? 40) || (c =? 91) || (c =? 123).
Definition is_close (c : Z) : bool := (c =? 41) || (c =? 93) || (c =? 125).
Definition step_depth (c depth : Z) : Z :=
  if is_open c then depth + 1 else if is_close c then (if 0 <? depth then depth - 1 else depth) else depth.
Fixpoint scan (m : Mode) (depth : Z) (src : list Z) : Mode * Z :=
  match src with
  | [] => (m, depth)
  | c :: src =>
      match m with
      | InLineComment => scan (if c =? 10 then Code else InLineComment) depth src
      | InBlockComment =>
          match src with
          | 47 :: rest => if c =? 42 then scan Code depth rest else scan InBlockComment depth src
          | _ => scan InBlockComment depth src
          end
      | InQuote q true => scan (InQuote q false) depth src
      | InQuote q false => scan (if c =? 92 then InQuote q true else if c =? q then Code else m) depth src
      | Code =>
          let other := if is_quote c then scan (InQuote c false) depth src else scan Code (step_depth c depth) src in
          match src with
          | 47 :: rest => if c =? 47 then scan InLineComment depth rest else other
          | 42 :: rest => if c =? 47 then scan InBlockComment depth rest else other
          | _ => other
          end
      end
  end.
Definition is_blank (c : Z) : bool := (c =? 32) || (c =? 9) || (c =? 13).
Fixpoint skip_blank (l : list Z) : list Z := match l with c :: t => if is_blank c then skip_blank t else l | [] => [] end.
(** [find_last_not_of] finds a backslash. *)
Definition trailing_backslash (src : list Z) : bool := match skip_blank (rev src) with c :: _ => c =? 92 | [] => false end.
Definition IsJsInputComplete (src : list Z) : bool * bool :=
  if trailing_backslash src then (false, true)
  else
    match scan Code 0 src with
    | ((InQuote _ _ | InBlockComment), _) => (false, false)
    | (_, depth) => (depth =? 0, false)
    end.
Definition TrimTrailingBackslash (s : list Z) : list Z :=
  if trailing_backslash s then rev (span is_blank (rev s) ++ tail (skip_blank (rev s))) else s.
(** Lines until a snippet is complete; [None] at the end of the input. *)
Fixpoint ReadInteractiveLine (pending : list Z) (lines : list (list Z)) : option (list Z * list (list Z)) :=
  match lines with
  | [] => None
  | line :: lines =>
      let joined := if bool_decide (pending = []) then line else pending ++ [10] ++ line in
      match IsJsInputComplete joined with
      | (true, _) => Some (TrimTrailingBackslash joined, lines)
      | (false, trailing) => ReadInteractiveLine (if trailing then TrimTrailingBackslash joined else joined) lines
      end
  end.

(** ** Completion

    The line is cut at the cursor; what is in front of it is scanned
    backwards, so [b] and the results of the scans are last character first. *)
Record CompletionContext := MkContext {
  tokenStart : nat; prefix : list Z; expr : list Z; isMemberAccess : bool; isCallArg : bool; callFn : list Z }.
Definition is_word (c : Z) : bool := isalnum c || (c =? 95) || (c =? 36).
Definition is_member_char (unity : bool) (c : Z) : bool := is_word c || (unity && (c =? 45)).
Definition is_dotted (unity : bool) (c : Z) : bool := is_member_char unity c || (c =? 46).
Definition is_expr_char (unity : bool) (c : Z) : bool := is_dotted unity c || (c =? 34) || (c =? 39).
Definition is_arg_char (unity : bool) (c : Z) : bool := is_dotted unity c || (c =? 60) || (c =? 62) || (c =? 96) || (c =? 126).
Fixpoint expr_back (unity : bool) (paren bracket : Z) (b : list Z) : list Z :=
  match b with
  | [] => []
  | c :: b =>
      if c =? 41 then c :: expr_back unity (paren + 1) bracket b
      else if c =? 40 then if paren =? 0 then [] else c :: expr_back unity (paren - 1) bracket b
      else if c =? 93 then c :: expr_back unity paren (bracket + 1) b
      else if c =? 91 then if bracket =? 0 then [] else c :: expr_back unity paren (bracket - 1) b
      else if (0 <? paren) || (0 <? bracket) then c :: expr_back unity paren bracket b
      else if is_expr_char unity c then c :: expr_back unity paren bracket b
      else []
  end.
(** What is left of [b] after a scan. *)
Definition past (scanned b : list Z) : list Z := drop (length scanned) b.

Definition word_context (scanned b : list Z) : CompletionContext := MkContext (length (past scanned b)) (rev scanned) [] false false [].
(** After a dot: a name of [dynamic], or a member of an expression. *)
Definition member_context (unity : bool) (b : list Z) : option CompletionContext :=
  let member := span (is_member_char unity) b in
  match past member b with
  | 46 :: b1 =>
      let word := span (is_dotted unity) b in
      if starts_with (str "dynamic.") (rev word) then Some (word_context word b)
      else
        let e := expr_back unity 0 0 b1 in
        if bool_decide (e = []) then None else Some (MkContext (length (past member b)) (rev member) (rev e) true false [])
  | _ => None
  end.
(** In the string that is an argument of a call. *)
Definition argument_context (unity : bool) (b : list Z) : option CompletionContext :=
  let arg := span (is_arg_char unity) b in
  match past arg b with
  | q :: 40 :: b1 =>
      if (q =? 34) || (q =? 39) then
        let fn := span (fun c => isalnum c || (c =? 95)) b1 in
        match past fn b1 with
        | 46 :: b2 =>
            let e := expr_back false 0 0 b2 in
            if bool_decide (e = []) then None else Some (MkContext (length (past arg b)) (rev arg) (rev e) false true (rev fn))
        | _ => None
        end
      else None
  | _ => None
  end.
Definition FindCompletionContext (line : list Z) (pos : nat) : CompletionContext :=
  let unity := contains (str "dynamic.unity.assembly") line in
  let b := rev (take pos line) in
  match member_context unity b with
  | Some ctx => ctx
  | None =>
      match argument_context unity b with
      | Some ctx => ctx
      | None => word_context (span (is_dotted false) b) b
      end
  end.
(** The line and the cursor when [choice] is taken. *)
Definition complete_line (line : list Z) (pos : nat) (tokenStart : nat) (choice : list Z) : list Z * nat :=
  (take tokenStart line ++ choice ++ drop pos line, (tokenStart + length choice)%nat).

Fixpoint common (a b : list Z) : list Z :=
  match a, b with x :: a, y :: b => if tolower x =? tolower y then x :: common a b else [] | _, _ => [] end.
Definition FindLongestCommonPrefix (l : list (list Z)) : list Z :=
  match l with [] => [] | p :: l => fold_left common l p end.

(** ** Examples *)

Definition dq (l : list Z) : list Z := List.map (fun c => if c =? 126 then 34 else c) l.
(** [~] stands for the double quote. *)
Example names_read : ExtractJsonStringArray (dq (str "{~classes~:[ ~a]b~ , ~c\~\u00e9~]}")) (str "classes") = Some [str "a]b"; dq (str "c~") ++ [195; 169]].
Proof. by vm_compute. Qed.
(** A pair of surrogates is not joined: this is not UTF-8. *)
Example surrogates_apart : JsonUnescape (str "\ud83d\ude00") = [237; 160; 189; 237; 184; 128].
Proof. by vm_compute. Qed.
Example function_open : IsJsInputComplete (str "function f() { // }") = (false, false).
Proof. by vm_compute. Qed.
(** A quote in a regular expression keeps the snippet open. *)
Example regex_quote : IsJsInputComplete (str "s.replace(/'/g, 0)") = (false, false).
Proof. by vm_compute. Qed.
Example two_lines : ReadInteractiveLine [] [str "a(1,"; str "2)"; str "b"] = Some (str "a(1," ++ [10] ++ str "2)", [str "b"]).
Proof. by vm_compute. Qed.
(** A line that is continued within a string loses its backslash only. *)
Example string_continued : ReadInteractiveLine [] [str "x = 'a\"; str "b'"] = Some (str "x = 'a" ++ [10] ++ str "b'", []).
Proof. by vm_compute. Qed.
Example member_completed : FindCompletionContext (str "x = foo(1).ba + 1") 13 = MkContext 11 (str "ba") (str "foo(1)") true false [].
Proof. by vm_compute. Qed.
Example argument_completed : FindCompletionContext (dq (str "a.class(~Ball")) 13 = MkContext 9 (str "Ball") (str "a") false true (str "class").
Proof. by vm_compute. Qed.
Example prefix_found : FindLongestCommonPrefix [str "getName"; str "getnode"; str "Get"] = str "get".
Proof. by vm_compute. Qed.

End ReplText.

Module ReplTextProofs.
Import UnityPreprocess(isalnum, span).
Import AgentPattern(tolower).
Import ReplText.

(** ** Quoted text *)

(** The inside of a literal: characters and escapes, up to the quote. *)
Inductive chunks (q : Z) : list Z -> Prop :=
  | chunks_nil : chunks q []
  | chunks_char c t : c <> q -> c <> 92 -> chunks q t -> chunks q (c :: t)
  | chunks_escape n t : chunks q t -> chunks q (92 :: n :: t).
#[local] Hint Constructors chunks : core.

Lemma chunks_app q a b : chunks q a -> chunks q b -> chunks q (a ++ b).
Proof. induction 1; cbn [app]; auto. Qed.
Lemma close_quote_chunks t r : chunks 34 t -> close_quote false (t ++ 34 :: r) = Some (t, r).
Proof.
  induction 1 as [|c t Hq He Ht IH|n t Ht IH]; cbn [app close_quote]; [done| |].
  - rewrite !(proj2 (Z.eqb_neq _ _)) by done. by rewrite IH.
  - change (92 =? 92) with true. cbn iota. by rewrite IH.
Qed.
Lemma close_bracket_chunks t r : chunks 34 t -> close_bracket true false (t ++ r) = app t <$> close_bracket true false r.
Proof.
  induction 1 as [|c t Hq He Ht IH|n t Ht IH]; cbn [app close_bracket]; [by destruct (close_bracket true false r)| |].
  - rewrite !(proj2 (Z.eqb_neq _ _) Hq), !(proj2 (Z.eqb_neq _ _) He), andb_false_r, IH. by destruct (close_bracket true false r).
  - change (92 =? 92) with true. cbn iota. rewrite IH. by destruct (close_bracket true false r).
Qed.

(** ** Strings of JSON *)

Definition hex_digit (h v : Z) : Prop := 48 <= h <= 57 /\ v = h - 48 \/ 97 <= h <= 102 /\ v = h - 87 \/ 65 <= h <= 70 /\ v = h - 55.
Definition utf8 (cp : Z) : list Z :=
  if cp <? 128 then [cp] else if cp <? 2048 then [192 + cp / 64; 128 + cp mod 64]
  else [224 + cp / 4096; 128 + cp / 64 mod 64; 128 + cp mod 64].
Definition escape_table : list (Z * Z) := [(34, 34); (92, 92); (47, 47); (98, 8); (102, 12); (110, 10); (114, 13); (116, 9)].
(** The bytes a character means and its text.  Characters beyond U+FFFF are
    not written as surrogates. *)
Inductive json_char : list Z -> list Z -> Prop :=
  | jc_raw c : c <> 34 -> c <> 92 -> json_char [c] [c]
  | jc_escape n c : (n, c) ∈ escape_table -> json_char [c] [92; n]
  | jc_unicode h1 h2 h3 h4 v1 v2 v3 v4 : hex_digit h1 v1 -> hex_digit h2 v2 -> hex_digit h3 v3 -> hex_digit h4 v4 ->
      ~ (0xD800 <= v1 * 4096 + v2 * 256 + v3 * 16 + v4 <= 0xDFFF) ->
      json_char (utf8 (v1 * 4096 + v2 * 256 + v3 * 16 + v4)) [92; 117; h1; h2; h3; h4].
Inductive json_text : list Z -> list Z -> Prop :=
  | jt_nil : json_text [] []
  | jt_cons s t s' t' : json_char s t -> json_text s' t' -> json_text (s ++ s') (t ++ t').

Lemma hex_value_digit h v : hex_digit h v -> hex_value h = Some v /\ 0 <= v < 16.
Proof. unfold hex_digit, hex_value. intros H. repeat match goal with |- context [if ?b then _ else _] => destruct b eqn:? end; split; try f_equal; lia. Qed.
Lemma code_point_digits h1 h2 h3 h4 v1 v2 v3 v4 : hex_digit h1 v1 -> hex_digit h2 v2 -> hex_digit h3 v3 -> hex_digit h4 v4 ->
  code_point h1 h2 h3 h4 = Some (v1 * 4096 + v2 * 256 + v3 * 16 + v4).
Proof.
  intros [E1 H1]%hex_value_digit [E2 H2]%hex_value_digit [E3 H3]%hex_value_digit [E4 H4]%hex_value_digit. unfold code_point. rewrite E1, E2, E3, E4.
  cbn [mbind option_bind]. rewrite !lor_shiftl_add by (unfold in_u; lia). f_equal. lia.
Qed.
Lemma lor_field a n x : 0 <= n -> 0 <= x < 2 ^ n -> (a << n) .| x = a * 2 ^ n + x.
Proof. intros Hn Hx. by apply lor_shiftl_add. Qed.
Lemma continuation_byte x : 0x80 .| (x & 0x3F) = 128 + x mod 64.
Proof.
  change 0x3F with (2 ^ 6 - 1). rewrite land_mask by lia. unfold wrap. change 0x80 with (2 << 6).
  rewrite lor_field by (try apply Z.mod_pos_bound; lia). done.
Qed.
Lemma push_code_point_utf8 cp : 0 <= cp < 65536 -> push_code_point cp = utf8 cp.
Proof.
  intros H. unfold push_code_point, utf8. rewrite !continuation_byte, !Z.shiftr_div_pow2 by lia. change (2 ^ 6) with 64. change (2 ^ 12) with 4096.
  destruct (Z.ltb_spec cp 0x80); [done|]. destruct (Z.ltb_spec cp 0x800).
  - change 0xC0 with (6 << 5). rewrite lor_field; [done|lia|change (2 ^ 5) with 32; Z.to_euclidean_division_equations; lia].
  - change 0xE0 with (14 << 4). rewrite lor_field; [done|lia|change (2 ^ 4) with 16; Z.to_euclidean_division_equations; lia].
Qed.

Lemma JsonUnescape_char c r : c <> 92 -> JsonUnescape (c :: r) = c :: JsonUnescape r.
Proof. intros Hc. destruct c as [|p|p]; try done. do 7 (destruct p as [p|p|]; try done). Qed.
Lemma JsonUnescape_json_char s t r : json_char s t -> JsonUnescape (t ++ r) = s ++ JsonUnescape r.
Proof.
  intros [c Hq He|n c Hin|h1 h2 h3 h4 v1 v2 v3 v4 H1 H2 H3 H4 _]; cbn [app].
  - by apply JsonUnescape_char.
  - unfold escape_table in Hin. repeat (apply elem_of_cons in Hin as [[= -> ->]|Hin]; [done|]). by apply elem_of_nil in Hin.
  - pose proof (code_point_digits h1 h2 h3 h4 v1 v2 v3 v4 H1 H2 H3 H4) as E. cbn [JsonUnescape escaped_char Z.eqb Pos.eqb orb]. rewrite E. f_equal.
    apply push_code_point_utf8. apply hex_value_digit in H1 as [_ H1], H2 as [_ H2], H3 as [_ H3], H4 as [_ H4]. lia.
Qed.
Lemma JsonUnescape_text s t : json_text s t -> JsonUnescape t = s.
Proof. induction 1 as [|s t s' t' Hc Ht IH]; [done|]. by rewrite (JsonUnescape_json_char s t t' Hc), IH. Qed.
Lemma json_text_chunks s t : json_text s t -> chunks 34 t.
Proof.
  induction 1 as [|s t s' t' Hc Ht IH]; [done|]. apply chunks_app; [|done]. destruct Hc as [c|n c _|h1 h2 h3 h4 v1 v2 v3 v4 H1 H2 H3 H4 _]; auto.
  unfold hex_digit in *. apply chunks_escape. repeat (apply chunks_char; [lia|lia|]). done.
Qed.

(** ** Arrays of strings *)

Definition gap_char (c : Z) : Prop := c = 32 \/ c = 9 \/ c = 10 \/ c = 13.
Definition gap : list Z -> Prop := Forall gap_char.
Inductive json_items : list (list Z) -> list Z -> Prop :=
  | ji_last s t w w' : json_text s t -> gap w -> gap w' -> json_items [s] (w ++ quoted t ++ w')
  | ji_more s t w w' ss l : json_text s t -> gap w -> gap w' -> json_items ss l -> json_items (s :: ss) (w ++ quoted t ++ w' ++ 44 :: l).
Inductive json_array : list (list Z) -> list Z -> Prop :=
  | ja_empty w : gap w -> json_array [] (91 :: w ++ [93])
  | ja_items ss l : json_items ss l -> json_array ss (91 :: l ++ [93]).

(** Between the strings. *)
Definition between (c : Z) : Prop := gap_char c \/ c = 44.
Lemma gap_between w : gap w -> Forall between w.
Proof. intros H. apply (list.Forall_impl _ _ _ H). by left. Qed.
#[local] Hint Resolve gap_between : core.
Lemma close_bracket_between w r : Forall between w -> close_bracket false false (w ++ r) = app w <$> close_bracket false false r.
Proof.
  induction 1 as [|c w Hc Hw IH]; cbn [app]; [by destruct (close_bracket _ _ r)|]. cbn [close_bracket].
  unfold between, gap_char in Hc. rewrite !(proj2 (Z.eqb_neq _ _)) by lia. cbn [andb]. rewrite IH. by destruct (close_bracket _ _ r).
Qed.
Lemma find_char_between w r : Forall between w -> find_char 34 (w ++ r) = find_char 34 r.
Proof. induction 1 as [|c w Hc Hw IH]; cbn [app find_char]; [done|]. unfold between, gap_char in Hc. by rewrite (proj2 (Z.eqb_neq _ _)) by lia. Qed.
Lemma close_bracket_quoted t r : chunks 34 t -> close_bracket false false (quoted t ++ r) = app (quoted t) <$> close_bracket false false r.
Proof.
  intros Ht. unfold quoted. rewrite <- !app_assoc. cbn [app close_bracket Z.eqb Pos.eqb negb]. rewrite close_bracket_chunks by done. cbn [close_bracket Z.eqb Pos.eqb negb].
  destruct (close_bracket false false r); cbn; [by rewrite <- app_assoc|done].
Qed.
Lemma close_bracket_items ss l r : json_items ss l -> close_bracket false false (l ++ 93 :: r) = Some l.
Proof.
  induction 1 as [s t w w' Hs%json_text_chunks Hw Hw'|s t w w' ss l Hs%json_text_chunks Hw Hw' Hi IH]; rewrite <- !app_assoc.
  - rewrite close_bracket_between, close_bracket_quoted, close_bracket_between by auto. cbn. by rewrite app_nil_r.
  - rewrite close_bracket_between, close_bracket_quoted by auto. cbn [app]. rewrite (app_comm_cons l), (app_assoc w'). change ([44] ++ l ++ 93 :: r) with (44 :: l ++ 93 :: r).
    rewrite <- app_assoc. rewrite close_bracket_between by auto. cbn [app close_bracket Z.eqb Pos.eqb andb negb]. by rewrite IH.
Qed.
Lemma string_loop_one s t w r fuel : json_text s t -> Forall between w -> string_loop (S fuel) (w ++ quoted t ++ r) = cons s <$> string_loop fuel r.
Proof.
  intros Ht Hw. cbn [string_loop]. rewrite find_char_between by done. unfold quoted. rewrite <- !app_assoc. cbn [app find_char Z.eqb Pos.eqb].
  by rewrite close_quote_chunks, (JsonUnescape_text s t) by (done || by apply (json_text_chunks s)).
Qed.
Lemma string_loop_gap fuel w : Forall between w -> string_loop (S fuel) w = Some [].
Proof. intros Hw. cbn [string_loop]. by rewrite <- (app_nil_r w), find_char_between. Qed.
Lemma string_loop_items ss l : json_items ss l -> forall pre fuel, Forall between pre -> (length l < fuel)%nat -> string_loop fuel (pre ++ l) = Some ss.
Proof.
  induction 1 as [s t w w' Hs Hw Hw'|s t w w' ss l Hs Hw Hw' Hi IH]; intros pre fuel Hp Hf; unfold quoted in Hf; rewrite !length_app in Hf; cbn [length] in Hf; destruct fuel as [|fuel]; try lia.
  - rewrite app_assoc, (string_loop_one s) by (done || apply list.Forall_app; auto). destruct fuel as [|fuel]; [lia|]. by rewrite string_loop_gap by auto.
  - rewrite app_assoc, (string_loop_one s) by (done || apply list.Forall_app; auto). rewrite (app_assoc w' [44] l : w' ++ 44 :: l = _).
    rewrite IH; [done| |lia]. apply list.Forall_app. split; [auto|]. by repeat constructor.
Qed.
Lemma extract_array ss t before post : json_array ss t -> Forall (fun c => c <> 91) before ->
  match find_char 91 (before ++ t ++ post) with
  | None => Some []
  | Some l => match close_bracket false false l with None => Some [] | Some body => string_loop (S (length body)) body end
  end = Some ss.
Proof.
  intros Ht Hb. assert (E : forall l, find_char 91 (before ++ 91 :: l) = Some l).
  { intros l. induction Hb as [|c b Hc Hb IH]; cbn [app find_char]; [done|]. by rewrite (proj2 (Z.eqb_neq _ _)). }
  destruct Ht as [w Hw|ss l Hi]; cbn [app]; rewrite E, <- app_assoc; cbn [app].
  - rewrite close_bracket_between by auto. cbn [close_bracket Z.eqb Pos.eqb andb negb fmap option_fmap option_map]. rewrite app_nil_r. by apply string_loop_gap; auto.
  - rewrite (close_bracket_items ss) by done. apply (string_loop_items ss l Hi []); [constructor|lia].
Qed.
Lemma find_text_first k pre r : (forall x y, pre ++ k = x ++ k ++ y -> y = []) -> find_text k (pre ++ k ++ r) = Some (k ++ r).
Proof.
  induction pre as [|c pre IH]; intros Hf; cbn [app].
  - destruct (k ++ r) eqn:E; cbn [find_text]; rewrite <- E, starts_with_app; done.
  - cbn [find_text]. destruct (starts_with k (c :: pre ++ k ++ r)) eqn:E.
    + exfalso. apply starts_with_inv in E as [t E]. change (c :: pre ++ k ++ r) with ((c :: pre) ++ k ++ r) in E.
      assert (H : (c :: pre) ++ k = k ++ take (length (c :: pre)) t).
      { apply (f_equal (take (length k + length (c :: pre)))) in E. rewrite app_assoc, take_app_le, take_ge in E by (rewrite length_app; lia).
        rewrite take_app_ge in E by lia. rewrite E. do 2 f_equal. lia. }
      pose proof (Hf [] _ H) as Hn. apply (f_equal length) in H. rewrite Hn, !length_app in H. cbn [length] in H. lia.
    + apply IH. intros x y H. apply (Hf (c :: x)). cbn [app]. by rewrite H.
Qed.


Lemma JsonUnescape_quote_char c r : JsonUnescape (quote_char c ++ r) = c :: JsonUnescape r.
Proof.
  unfold quote_char. destruct (Z.eqb_spec c 92) as [->|]; [done|]. destruct (Z.eqb_spec c 34) as [->|]; [done|]. destruct (Z.eqb_spec c 10) as [->|]; [done|].
  destruct (Z.eqb_spec c 13) as [->|]; [done|]. destruct (Z.eqb_spec c 9) as [->|]; [done|]. by apply JsonUnescape_char.
Qed.
(** A quoted text is one literal, of one line, that reads as the text. *)
Theorem quoted_reads s : exists t, QuoteJsString s = quoted t /\ chunks 34 t /\ Forall (fun c => c <> 10 /\ c <> 13) t /\ JsonUnescape t = s /\
  forall r, close_quote false (t ++ 34 :: r) = Some (t, r).
Proof.
  exists (concat (List.map quote_char s)). split; [done|]. assert (Hc : chunks 34 (concat (List.map quote_char s))).
  { induction s as [|c s IH]; cbn [List.map concat]; [done|]. apply chunks_app; [|done]. unfold quote_char. repeat (case_match; [auto|]). apply chunks_char; [lia|lia|done]. }
  split; [done|]. split; [|split; [|intros r; by apply close_quote_chunks]].
  - clear Hc. induction s as [|c s IH]; cbn [List.map concat]; [constructor|]. apply list.Forall_app. split; [|done].
    unfold quote_char. repeat (case_match; [repeat constructor; lia|]). repeat constructor; lia.
  - clear Hc. induction s as [|c s IH]; cbn [List.map concat]; [done|]. by rewrite JsonUnescape_quote_char, IH.
Qed.

(** ** Snippets *)

(** The text of a block comment, which its first end marker ends. *)
Definition block_text (t : list Z) : Prop := forall a b, t ++ [42; 47] = a ++ [42; 47] ++ b -> b = [].
(** A snippet whose comments and strings are finished, and its brackets. *)
Inductive lexes : list Z -> list Z -> Prop :=
  | lex_end : lexes [] []
  | lex_last_line t : Forall (fun c => c <> 10) t -> lexes (47 :: 47 :: t) []
  | lex_line t l ts : Forall (fun c => c <> 10) t -> lexes l ts -> lexes (47 :: 47 :: t ++ 10 :: l) ts
  | lex_block t l ts : block_text t -> lexes l ts -> lexes (47 :: 42 :: t ++ 42 :: 47 :: l) ts
  | lex_string q t l ts : is_quote q = true -> chunks q t -> lexes l ts -> lexes (q :: t ++ q :: l) ts
  | lex_bracket c l ts : is_open c || is_close c = true -> lexes l ts -> lexes (c :: l) (c :: ts)
  | lex_other c l ts : is_quote c = false -> is_open c || is_close c = false -> (c = 47 -> head l <> Some 47 /\ head l <> Some 42) -> lexes l ts -> lexes (c :: l) ts.

(** Each opening bracket has a closing one, of whatever kind; closing ones
    with nothing to close are ignored. *)
Inductive balanced : list Z -> Prop :=
  | balanced_nil : balanced []
  | balanced_pair o b c r : is_open o = true -> balanced b -> is_close c = true -> balanced r -> balanced (o :: b ++ c :: r).
Inductive closed : list Z -> Prop :=
  | closed_nil : closed []
  | closed_stray c r : is_close c = true -> closed r -> closed (c :: r)
  | closed_pair o b c r : is_open o = true -> balanced b -> is_close c = true -> closed r -> closed (o :: b ++ c :: r).

(** *** Counting brackets *)

Definition depth_after (ts : list Z) (d : Z) : Z := fold_left (fun d c => step_depth c d) ts d.
Lemma open_not_close c : is_open c = true -> is_close c = false.
Proof. unfold is_open, is_close. lia. Qed.
Lemma step_open c d : is_open c = true -> step_depth c d = d + 1.
Proof. unfold step_depth. by intros ->. Qed.
Lemma step_close c d : is_close c = true -> step_depth c d = if 0 <? d then d - 1 else d.
Proof. unfold step_depth. intros H. destruct (is_open c) eqn:E; [by rewrite (open_not_close c E) in H|]. by rewrite H. Qed.
Lemma depth_balanced b : balanced b -> forall d r, 0 <= d -> depth_after (b ++ r) d = depth_after r d.
Proof.
  induction 1 as [|o b c t Ho Hb IHb Hc Ht IHt]; intros d r Hd; [done|]. cbn [app]. unfold depth_after in *. cbn [fold_left]. rewrite step_open, <- app_assoc, IHb by (done || lia).
  cbn [app fold_left]. rewrite step_close by done. replace (0 <? d + 1) with true by lia. replace (d + 1 - 1) with d by lia. by apply IHt.
Qed.
Lemma depth_closed ts : closed ts -> depth_after ts 0 = 0.
Proof.
  induction 1 as [|c r Hc Hr IH|o b c r Ho Hb Hc Hr IH]; [done| |]; unfold depth_after in *; cbn [fold_left].
  - by rewrite step_close.
  - rewrite step_open by done. change (depth_after (b ++ c :: r) (0 + 1) = 0). rewrite depth_balanced by (done || lia). unfold depth_after. cbn [fold_left]. by rewrite step_close.
Qed.
(** With [d] brackets still to be closed. *)
Fixpoint pending (d : nat) (ts : list Z) : Prop :=
  match d with O => closed ts | S d => exists b c r, ts = b ++ c :: r /\ balanced b /\ is_close c = true /\ pending d r end.
Lemma depth_pending ts : Forall (fun c => is_open c || is_close c = true) ts -> forall d, depth_after ts (Z.of_nat d) = 0 -> pending d ts.
Proof.
  induction 1 as [|a ts Ha Hts IH]; intros d E.
  - unfold depth_after in E. cbn in E. destruct d; [constructor|lia].
  - unfold depth_after in E. cbn [fold_left] in E. destruct (is_open a) eqn:Eo.
    + rewrite step_open in E by done. replace (Z.of_nat d + 1) with (Z.of_nat (S d)) in E by lia. destruct (IH _ E) as (b & c & r & -> & Hb & Hc & Hp).
      destruct d as [|d]; [by constructor|]. destruct Hp as (b' & c' & r' & -> & Hb' & Hc' & Hp). exists (a :: b ++ c :: b'), c', r'.
      split; [cbn [app]; by rewrite <- app_assoc|]. split; [by constructor|done].
    + cbn [orb] in Ha. rewrite step_close in E by done. destruct d as [|d]; [constructor; [done|by apply (IH 0%nat)]|].
      rewrite (proj2 (Z.ltb_lt 0 (Z.of_nat (S d)))), Nat2Z.inj_succ, Z.sub_1_r, Z.pred_succ in E by lia.
      exists [], a, ts. split; [done|]. split; [constructor|]. split; [done|by apply IH].
Qed.
Lemma depth_zero ts : Forall (fun c => is_open c || is_close c = true) ts -> depth_after ts 0 = 0 <-> closed ts.
Proof. intros H. split; [by apply (depth_pending ts H 0)|apply depth_closed]. Qed.
Lemma lexes_brackets l ts : lexes l ts -> Forall (fun c => is_open c || is_close c = true) ts.
Proof. induction 1; auto. Qed.

(** *** The scan *)

Lemma scan_line t d l : Forall (fun c => c <> 10) t -> scan InLineComment d (t ++ 10 :: l) = scan Code d l.
Proof. induction 1 as [|c t Hc Ht IH]; [done|]. cbn [app scan]. by rewrite (proj2 (Z.eqb_neq _ _) Hc). Qed.
Lemma scan_last_line t d : Forall (fun c => c <> 10) t -> scan InLineComment d t = (InLineComment, d).
Proof. induction 1 as [|c t Hc Ht IH]; [done|]. cbn [scan]. by rewrite (proj2 (Z.eqb_neq _ _) Hc). Qed.
Lemma scan_in_block c d l : ~ (c = 42 /\ head l = Some 47) -> scan InBlockComment d (c :: l) = scan InBlockComment d l.
Proof.
  intros H. destruct l as [|n l]; [done|]. destruct (Z.eqb_spec c 42) as [->|Hc]; cbn [scan].
  - destruct n as [|p|p]; try done. do 6 (destruct p as [p|p|]; try done). by destruct H.
  - rewrite (proj2 (Z.eqb_neq _ _) Hc). destruct n as [|p|p]; try done. do 6 (destruct p as [p|p|]; try done).
Qed.
Lemma scan_quote_text q t d l : q <> 92 -> chunks q t -> scan (InQuote q false) d (t ++ q :: l) = scan Code d l.
Proof.
  intros Hq. induction 1 as [|c t Hcq Hce Ht IH|n t Ht IH]; cbn [app scan].
  - by rewrite (proj2 (Z.eqb_neq _ _) Hq), Z.eqb_refl.
  - by rewrite (proj2 (Z.eqb_neq _ _) Hce), (proj2 (Z.eqb_neq _ _) Hcq).
  - done.
Qed.
Lemma scan_code c d l : (c = 47 -> head l <> Some 47 /\ head l <> Some 42) ->
  scan Code d (c :: l) = if is_quote c then scan (InQuote c false) d l else scan Code (step_depth c d) l.
Proof.
  intros H. destruct l as [|n l]; [done|]. cbn [scan]. destruct (Z.eqb_spec c 47) as [->|Hc]; [destruct (H eq_refl) as [H1 H2]; cbn [head] in H1, H2|].
  all: destruct n as [|p|p]; try done; do 6 (destruct p as [p|p|]; try done).
Qed.
Lemma is_quote_not c : is_quote c = true -> c <> 92 /\ c <> 47.
Proof. unfold is_quote. lia. Qed.
Lemma block_text_tail c t : block_text (c :: t) -> block_text t /\ ~ (c = 42 /\ head (t ++ [42; 47]) = Some 47).
Proof.
  intros H. split; [intros a b E; apply (H (c :: a)); cbn [app]; by rewrite E|]. intros [-> Ht]. destruct t as [|n t]; [done|]. injection Ht as ->.
  pose proof (H [] (t ++ [42; 47]) eq_refl) as E. by destruct t.
Qed.
Lemma block_text_cons c t : block_text t -> ~ (c = 42 /\ head (t ++ [42; 47]) = Some 47) -> block_text (c :: t).
Proof.
  intros Ht Hn [|a0 a] b E; cbn [app] in E; injection E as -> E; [|by apply (Ht a)]. exfalso. apply Hn. by rewrite E.
Qed.
Lemma head_app_end (t l : list Z) : head (t ++ 42 :: 47 :: l) = head (t ++ [42; 47]).
Proof. by destruct t. Qed.
Lemma scan_block_text t d l : block_text t -> scan InBlockComment d (t ++ 42 :: 47 :: l) = scan Code d l.
Proof.
  induction t as [|c t IH]; intros H; [done|]. apply block_text_tail in H as [Ht Hn]. cbn [app]. rewrite scan_in_block; [by apply IH|]. by rewrite head_app_end.
Qed.
Lemma scan_lexes l ts : lexes l ts -> forall d, exists m, scan Code d l = (m, depth_after ts d) /\ (m = Code \/ m = InLineComment).
Proof.
  induction 1 as [|t Ht|t l ts Ht Hl IH|t l ts Ht Hl IH|q t l ts Hq Ht Hl IH|c l ts Hc Hl IH|c l ts Hq Hc Hs Hl IH]; intros d.
  - exists Code. auto.
  - exists InLineComment. cbn [scan]. change (47 =? 47) with true. cbn iota. rewrite scan_last_line by done. auto.
  - destruct (IH d) as (m & E & Hm). exists m. split; [|done]. rewrite <- E. cbn [scan]. change (47 =? 47) with true. cbn iota. by apply scan_line.
  - destruct (IH d) as (m & E & Hm). exists m. split; [|done]. rewrite <- E. cbn [scan]. change (47 =? 47) with true. cbn iota. by apply scan_block_text.
  - destruct (IH d) as (m & E & Hm). exists m. split; [|done]. rewrite <- E. apply is_quote_not in Hq as Hn. destruct Hn. rewrite scan_code, Hq by done. by apply scan_quote_text.
  - destruct (IH (step_depth c d)) as (m & E & Hm). exists m. split; [|done]. unfold depth_after in *. cbn [fold_left]. rewrite <- E. rewrite scan_code; [|intros ->; discriminate].
    replace (is_quote c) with false by (unfold is_open, is_close, is_quote in *; lia). done.
  - destruct (IH d) as (m & E & Hm). exists m. split; [|done]. rewrite scan_code, Hq by done. rewrite <- E. f_equal. unfold step_depth.
    apply orb_false_iff in Hc as [-> ->]. done.
Qed.

(** What is not finished is seen at the end. *)
Lemma line_end (l : list Z) : Forall (fun c => c <> 10) l \/ exists t r, l = t ++ 10 :: r /\ Forall (fun c => c <> 10) t.
Proof.
  induction l as [|c l [IH|(t & r & -> & IH)]]; [by left|..]; (destruct (Z.eq_dec c 10) as [->|Hc]; [right; exists []; eexists; by split|]).
  - left. by constructor.
  - right. exists (c :: t), r. split; [done|by constructor].
Qed.
Lemma block_end d l : scan InBlockComment d l = (InBlockComment, d) \/ exists t r, l = t ++ 42 :: 47 :: r /\ block_text t.
Proof.
  induction l as [|c l IH]; [by left|]. destruct (decide (c = 42 /\ head l = Some 47)) as [[-> Hl]|Hn].
  - right. destruct l as [|n l]; [done|]. injection Hl as ->. exists [], l. split; [done|]. intros a b E. apply (f_equal length) in E. rewrite !length_app in E. cbn in E. by destruct b; [|cbn in E; lia].
  - rewrite scan_in_block by done. destruct IH as [IH|(t & r & -> & IH)]; [by left|right]. exists (c :: t), r. split; [done|]. apply block_text_cons; [done|]. by rewrite head_app_end in Hn.
Qed.
Lemma quote_end q d n : forall l, (length l <= n)%nat -> (exists e, scan (InQuote q false) d l = (InQuote q e, d)) \/ exists t r, l = t ++ q :: r /\ chunks q t.
Proof.
  induction n as [|n IH]; intros [|c l] Hn; cbn [length] in Hn; try lia; try (left; by exists false). cbn [scan].
  destruct (Z.eqb_spec c 92) as [->|Hc]; [destruct l as [|a l]; [left; by exists true|]|destruct (Z.eqb_spec c q) as [->|Hq]; [right; by exists [], l; auto|]].
  - cbn [length] in Hn. destruct (IH l ltac:(lia)) as [[e E]|(t & r & -> & Ht)]; [left; by exists e|right; exists (92 :: a :: t), r; auto].
  - destruct (IH l ltac:(lia)) as [[e E]|(t & r & -> & Ht)]; [left; by exists e|right; exists (c :: t), r; auto].
Qed.
Definition finished (m : Mode) : Prop := m = Code \/ m = InLineComment.
Lemma lexes_scan n : forall l d m d', (length l <= n)%nat -> scan Code d l = (m, d') -> finished m -> exists ts, lexes l ts /\ d' = depth_after ts d.
Proof.
  induction n as [|n IH]; intros [|c l] d m d' Hn E Hm; cbn [length] in Hn; try lia; try (cbn in E; injection E as <- <-; exists []; by split; [constructor|]).
  destruct (decide (c = 47 /\ (head l = Some 47 \/ head l = Some 42))) as [[-> Hl]|Hs].
  - destruct l as [|a l]; [by destruct Hl|]. cbn [length head] in *. destruct Hl as [[= ->]|[= ->]]; cbn [scan] in E; change (47 =? 47) with true in E; cbn iota in E.
    + destruct (line_end l) as [Ht|(t & r & -> & Ht)]; [rewrite scan_last_line in E by done; injection E as <- <-; exists []; by split; [constructor|]|].
      rewrite scan_line in E by done. rewrite length_app in Hn. cbn [length] in Hn. destruct (IH r d m d' ltac:(lia) E Hm) as (ts & H1 & H2). exists ts. by split; [constructor|].
    + destruct (block_end d l) as [Hb|(t & r & -> & Ht)]; [rewrite Hb in E; injection E as <- <-; by destruct Hm|].
      rewrite scan_block_text in E by done. rewrite length_app in Hn. cbn [length] in Hn. destruct (IH r d m d' ltac:(lia) E Hm) as (ts & H1 & H2). exists ts. by split; [constructor|].
  - rewrite scan_code in E by tauto. destruct (is_quote c) eqn:Eq.
    + destruct (quote_end c d (length l) l (le_n _)) as [[e Hq]|(t & r & -> & Ht)]; [rewrite Hq in E; injection E as <- <-; by destruct Hm|].
      destruct (is_quote_not c Eq). rewrite scan_quote_text in E by done. rewrite length_app in Hn. cbn [length] in Hn.
      destruct (IH r d m d' ltac:(lia) E Hm) as (ts & H1 & H2). exists ts. by split; [constructor|].
    + destruct (IH l _ m d' ltac:(lia) E Hm) as (ts & H1 & H2). destruct (is_open c || is_close c) eqn:Eb.
      * exists (c :: ts). by split; [constructor|].
      * exists ts. split; [by constructor; [..|tauto|]|]. rewrite H2. f_equal. unfold step_depth. by apply orb_false_iff in Eb as [-> ->].
Qed.

(** *** The trailing backslash *)

(** A backslash, and nothing after it but blanks. *)
Definition continued (src : list Z) : Prop := exists a w, src = a ++ 92 :: w /\ Forall (fun c => is_blank c = true) w.
Lemma skip_blank_spec l : exists w, l = w ++ skip_blank l /\ w = span is_blank l /\ Forall (fun c => is_blank c = true) w /\ (forall c t, skip_blank l = c :: t -> is_blank c = false).
Proof.
  induction l as [|c l (w & E & Es & Hw & Hs)]; [by exists []|]. cbn [skip_blank span]. destruct (is_blank c) eqn:Eb.
  - exists (c :: w). split; [cbn [app]; by f_equal|]. split; [by f_equal|]. split; [by constructor|done].
  - exists []. split; [done|]. split; [done|]. split; [constructor|]. by intros ? ? [= <- <-].
Qed.
Lemma skip_blank_app w l : Forall (fun c => is_blank c = true) w -> skip_blank (w ++ 92 :: l) = 92 :: l /\ span is_blank (w ++ 92 :: l) = w.
Proof. induction 1 as [|c w Hc Hw [IH1 IH2]]; [done|]. cbn [app skip_blank span]. by rewrite Hc, IH1, IH2. Qed.
Lemma trailing_iff src : trailing_backslash src = true <-> continued src.
Proof.
  unfold trailing_backslash, continued. split.
  - destruct (skip_blank_spec (rev src)) as (w & E & _ & Hw & _). destruct (skip_blank (rev src)) as [|c t]; [done|]. intros ->%Z.eqb_eq.
    exists (rev t), (rev w). split; [|by apply List.Forall_rev]. apply (f_equal (@rev Z)) in E. rewrite rev_involutive in E. rewrite E, rev_app_distr. cbn [rev]. rewrite <- app_assoc. done.
  - intros (a & w & -> & Hw). rewrite rev_app_distr. cbn [rev]. rewrite <- app_assoc. cbn [app]. by rewrite (proj1 (skip_blank_app _ _ (List.Forall_rev Hw))).
Qed.
(** Only the backslash is taken away. *)
Theorem trimmed a w : Forall (fun c => is_blank c = true) w -> TrimTrailingBackslash (a ++ 92 :: w) = a ++ w.
Proof.
  intros Hw. unfold TrimTrailingBackslash. rewrite (proj2 (trailing_iff _)) by (by exists a, w).
  assert (E : rev (a ++ 92 :: w) = rev w ++ 92 :: rev a) by (rewrite rev_app_distr; cbn [rev]; by rewrite <- app_assoc). rewrite E.
  destruct (skip_blank_app (rev w) (rev a)) as [-> ->]; [by apply List.Forall_rev|]. cbn [list.tail]. by rewrite rev_app_distr, !rev_involutive.
Qed.

(** C31: IsJsInputComplete says that a snippet is complete exactly if it does
    not end in a backslash, its block comments and strings are finished and
    each of its brackets outside of them has a closing one behind it; and
    that it ends in a backslash exactly if it does, but for blanks. *)
Theorem snippet_complete src : exists b t, IsJsInputComplete src = (b, t) /\ (t = true <-> continued src) /\
  (b = true <-> ~ continued src /\ exists ts, lexes src ts /\ closed ts).
Proof.
  unfold IsJsInputComplete. destruct (trailing_backslash src) eqn:Et.
  { apply trailing_iff in Et. exists false, true. split; [done|]. split; [done|]. split; [done|by intros [[] _]]. }
  assert (Hn : ~ continued src) by (rewrite <- trailing_iff; by rewrite Et). destruct (scan Code 0 src) as [m d] eqn:E.
  assert (Hiff : (exists ts, lexes src ts /\ closed ts) <-> finished m /\ d = 0).
  { split.
    - intros (ts & Hl & Hc). destruct (scan_lexes src ts Hl 0) as (m' & E' & Hm). rewrite E in E'. injection E' as -> ->. split; [done|by apply depth_closed].
    - intros [Hm ->]. destruct (lexes_scan (length src) src 0 m 0 (le_n _) E Hm) as (ts & Hl & Hd). exists ts. split; [done|]. apply depth_zero; [by eapply lexes_brackets|done]. }
  unfold finished in Hiff. destruct m as [| | |q e]; eexists; eexists; (split; [done|]); (split; [done|]); rewrite Hiff, ?Z.eqb_eq; naive_solver.
Qed.

(** ** Completion *)

Lemma span_past f (b : list Z) : b = span f b ++ past (span f b) b.
Proof. unfold past. induction b as [|c b IH]; [done|]. cbn [span]. destruct (f c); cbn [length drop app]; [by f_equal|done]. Qed.
Lemma expr_back_prefix unity b : forall paren bracket, exists r, b = expr_back unity paren bracket b ++ r.
Proof.
  induction b as [|c b IH]; intros paren bracket; [by exists []|]. cbn [expr_back].
  repeat match goal with |- context [if ?x then _ else _] => destruct x end; try (by exists (c :: b)).
  all: edestruct IH as [r E]; exists r; cbn [app]; f_equal; exact E.
Qed.

(** [line] up to the cursor is [head] and the name to be completed; what is
    in front of a member and of an argument. *)
Record split_at (before : list Z) (ctx : CompletionContext) (h : list Z) : Prop := {
  sa_line : before = h ++ prefix ctx;
  sa_start : length h = tokenStart ctx;
  sa_member : isMemberAccess ctx = true -> exists a, h = a ++ expr ctx ++ [46] /\ expr ctx <> [];
  sa_argument : isCallArg ctx = true -> exists a q, h = a ++ expr ctx ++ [46] ++ callFn ctx ++ [40; q] /\ expr ctx <> [] /\ (q = 34 \/ q = 39) }.

Lemma before_split b f : rev b = rev (past (span f b) b) ++ rev (span f b).
Proof. rewrite <- rev_app_distr. by rewrite <- span_past. Qed.
Lemma word_split f b : split_at (rev b) (word_context (span f b) b) (rev (past (span f b) b)).
Proof. split; cbn; [apply before_split|apply length_rev|done|done]. Qed.
Lemma rev_expr (unity : bool) e b : e = expr_back unity 0 0 b -> exists a, rev b = a ++ rev e.
Proof. intros ->. destruct (expr_back_prefix unity b 0 0) as [r E]. exists (rev r). by rewrite <- rev_app_distr, <- E. Qed.
Lemma rev_not_nil (e : list Z) : e <> [] -> rev e <> [].
Proof. intros H E. apply H. by apply (f_equal (@rev Z)) in E; rewrite rev_involutive in E. Qed.
Lemma member_split unity b ctx : member_context unity b = Some ctx -> exists h, split_at (rev b) ctx h.
Proof.
  unfold member_context. intros H. set (m := span (is_member_char unity) b) in *. destruct (past m b) as [|p b1] eqn:Ep; [done|].
  assert (Hp : p = 46 /\ (if starts_with (str "dynamic.") (rev (span (is_dotted unity) b)) then Some (word_context (span (is_dotted unity) b) b)
    else if bool_decide (expr_back unity 0 0 b1 = []) then None else Some (MkContext (length (p :: b1)) (rev m) (rev (expr_back unity 0 0 b1)) true false [])) = Some ctx).
  { destruct p as [|p|p]; try done. do 6 (destruct p as [p|p|]; try done). }
  clear H. destruct Hp as [-> H]. destruct (starts_with _ _); [injection H as <-; eexists; apply word_split|]. case_bool_decide as He; [done|]. injection H as <-.
  exists (rev (46 :: b1)). pose proof (before_split b (is_member_char unity)) as Hb. fold m in Hb. rewrite Ep in Hb. split; cbn [prefix tokenStart isMemberAccess isCallArg expr].
  - done.
  - apply length_rev.
  - intros _. destruct (rev_expr unity _ b1 eq_refl) as [a E]. exists a. cbn [rev]. rewrite E, <- app_assoc. split; [done|by apply rev_not_nil].
  - done.
Qed.
Lemma argument_split unity b ctx : argument_context unity b = Some ctx -> exists h, split_at (rev b) ctx h.
Proof.
  unfold argument_context. intros H. set (m := span (is_arg_char unity) b) in *. destruct (past m b) as [|q [|p b1]] eqn:Ep; try done.
  set (fn := span (fun c => isalnum c || (c =? 95)) b1) in *. destruct (past fn b1) as [|d b2] eqn:Ef; [destruct p as [|p|p]; try done; do 6 (destruct p as [p|p|]; try done); by destruct (_ || _)|].
  assert (Hp : p = 40 /\ d = 46 /\ (q = 34 \/ q = 39) /\ expr_back false 0 0 b2 <> [] /\ ctx = MkContext (length (q :: p :: b1)) (rev m) (rev (expr_back false 0 0 b2)) false true (rev fn)).
  { destruct p as [|p|p]; try done. do 6 (destruct p as [p|p|]; try done). destruct ((q =? 34) || (q =? 39)) eqn:Eq; [|done].
    destruct d as [|d|d]; try done. do 6 (destruct d as [d|d|]; try done). case_bool_decide; [done|]. injection H as <-. do 4 (split; [done || lia|]). done. }
  clear H. destruct Hp as (-> & -> & Hq & He & ->). exists (rev (q :: 40 :: b1)).
  pose proof (before_split b (is_arg_char unity)) as Hb. fold m in Hb. rewrite Ep in Hb. split; cbn [prefix tokenStart isMemberAccess isCallArg expr callFn].
  - done.
  - apply length_rev.
  - done.
  - intros _. destruct (rev_expr false _ b2 eq_refl) as [a E]. exists a, q. split; [|split; [by apply rev_not_nil|done]].
    pose proof (before_split b1 (fun c => isalnum c || (c =? 95))) as Hf. fold fn in Hf. rewrite Ef in Hf. cbn [rev] in *. rewrite Hf, E. by rewrite <- !app_assoc.
Qed.

(** What is completed is the text from the start of the token to the
    cursor; for a member the expression and a dot stand in front of it, for
    an argument the expression, a dot, the function, a parenthesis and a
    quote.  A choice that is taken replaces exactly this text, and the cursor
    is behind it. *)
Theorem completion_replaces line pos : (pos <= length line)%nat ->
  exists h, split_at (take pos line) (FindCompletionContext line pos) h /\
  forall choice, complete_line line pos (tokenStart (FindCompletionContext line pos)) choice = (h ++ choice ++ drop pos line, (length h + length choice)%nat).
Proof.
  intros Hpos. assert (H : exists h, split_at (take pos line) (FindCompletionContext line pos) h).
  { unfold FindCompletionContext. set (b := rev (take pos line)). replace (take pos line) with (rev b) by apply rev_involutive.
    destruct (member_context _ b) as [ctx|] eqn:E1; [by eapply member_split|]. destruct (argument_context _ b) as [ctx|] eqn:E2; [by eapply argument_split|].
    eexists. apply word_split. }
  destruct H as [h H]. exists h. split; [done|]. intros choice. unfold complete_line. rewrite <- (sa_start _ _ _ H). do 2 f_equal.
  rewrite <- (take_drop pos line) at 1. rewrite (sa_line _ _ _ H), <- app_assoc. apply take_app_length.
Qed.
Lemma completion_replaces_witness : exists h, split_at (str "x = foo(1).ba") (FindCompletionContext (str "x = foo(1).ba + 1") 13) h /\
  forall choice, complete_line (str "x = foo(1).ba + 1") 13 (tokenStart (FindCompletionContext (str "x = foo(1).ba + 1") 13)) choice = (h ++ choice ++ str " + 1", (length h + length choice)%nat).
Proof. apply (completion_replaces (str "x = foo(1).ba + 1") 13). vm_compute. lia. Defined.

Definition begins (p s : list Z) : Prop := exists t, List.map tolower s = List.map tolower p ++ t.
Lemma begins_trans p s u : begins p s -> begins s u -> begins p u.
Proof. intros [t E] [t' E']. exists (t ++ t'). by rewrite E', E, app_assoc. Qed.
Lemma common_spec a : forall b, (exists t, a = common a b ++ t) /\ begins (common a b) b /\ forall q, begins q a -> begins q b -> begins q (common a b).
Proof.
  induction a as [|x a IH]; intros [|y b]; cbn [common]; try (split; [by eexists|]; split; [by eexists|done]).
  destruct (Z.eqb_spec (tolower x) (tolower y)) as [E|E].
  - destruct (IH b) as ([t Ht] & [u Hu] & Hq). split; [exists t; cbn [app]; by f_equal|]. split; [exists u; cbn [List.map app]; by rewrite Hu, E|].
    intros [|z q] [v Hv] [w Hw]; [by eexists|]. cbn [List.map app] in Hv, Hw. injection Hv as Hz Hv. injection Hw as _ Hw.
    destruct (Hq q) as [r Hr]; [by eexists|by eexists|]. exists r. cbn [List.map app]. by rewrite Hr, Hz.
  - split; [by eexists|]. split; [by eexists|]. intros [|z q] [v Hv] [w Hw]; [by eexists|]. cbn [List.map app] in Hv, Hw. congruence.
Qed.

(** FindLongestCommonPrefix: a prefix of the first candidate with which all
    begin, cases alike, and no text with which all begin is longer. *)
Theorem longest_common_prefix first l : exists t, first = FindLongestCommonPrefix (first :: l) ++ t /\
  Forall (begins (FindLongestCommonPrefix (first :: l))) (first :: l) /\
  forall q, Forall (begins q) (first :: l) -> begins q (FindLongestCommonPrefix (first :: l)).
Proof.
  unfold FindLongestCommonPrefix. revert first. induction l as [|s l IH]; intros p; cbn [fold_left].
  - exists []. rewrite app_nil_r. split; [done|]. split; [constructor; [|constructor]; exists []; by rewrite app_nil_r|]. intros q Hq. by inversion Hq.
  - destruct (common_spec p s) as ([u Hu] & Hs & Hmax). destruct (IH (common p s)) as (t & Ht & Hl & Hq). exists (t ++ u). rewrite app_assoc, <- Ht. split; [done|].
    inversion Hl as [|? ? H1 H2]; subst. split.
    + constructor; [eapply begins_trans; [exact H1|]; exists (List.map tolower u); by rewrite <- map_app, <- Hu|]. constructor; [by eapply begins_trans|done].
    + intros q Hall. inversion Hall as [|? ? Hqp Hall']; subst. inversion Hall' as [|? ? Hqs Hall'']; subst. apply Hq. constructor; [by apply Hmax|done].
Qed.
End ReplTextProofs.
